(* ===== verification/_CoqProject ===== *)
-Q . S2P
Prelude.v
Rlp.v
RlpEncoding.v
RlpStream.v
RlpProofs.v
RlpRaw.v
Events.v
Messages.v
PbftState.v
ViewChangeCalc.v
PbftPersist.v
HibeRound.v
PbftCore.v
PbftInit.v
PbftSteps.v
PbftSample.v
PbftCerts.v
PbftExec.v
ViewChangeSafety.v
ViewChangeTerm.v
PbftScenarios.v
PersistProofs.v
StateDB.v
StateRoot.v
Tx.v
ZkTx.v
ZkEffects.v
ZkSafety.v
StateQuiet.v
ZkQuiet.v
ZkScenarios.v
GoHeap.v
TxList.v
TxListSpec.v
Merkle.v
Header.v
Snapshot.v
HeaderRules.v
Engine.v
EngineProofs.v
EngineScenarios.v
ChainDB.v
Blockchain.v
BlockchainProofs.v
ChainImport.v
BlockProcessor.v
ChainStart.v
ChainSafety.v
ChainReach.v
ChainScenarios.v
Circuits.v
Wallet.v
WalletProofs.v
WalletScenarios.v
CrossProof.v
ManagedState.v
TxPool.v
TxPoolInv.v
TxPoolOps.v
TxPoolAdd.v
TxPoolSafe.v
TxPoolScenarios.v
Miner.v
MinerScenarios.v
Hibe.v
