(* ===== verification/Prelude.v ===== *)
(** * zk-hibechain: a verification development

    The repository is a fork of go-ethereum ([src/ethereum/go-ethereum]) whose
    blocks are agreed upon by PBFT, whose nodes sign with a distributed
    hierarchical identity-based scheme, and whose accounts carry a commitment to
    a hidden balance next to the plain one.  Paths below are relative to that
    directory.

    ** The program and the files that model it

    - [consensus/util/events/events.go]: an event thread that empties a queue, and
      timers and other senders that fill it.  Events.v: the timer goroutine as functions
      on its state ([loop_start], [loop_stop], ...); the buffered queue that timer and
      other senders share, thread and timer together as the step relation [sys_step],
      parameterised by the capacity of the queue.
    - [core/types/pbft_messages.go], [pbftCore.recvMsg]: Messages.v.
    - [consensus/pbft/pbft-core.go], [viewchange.go], [helper.go]: the replica.
      PbftState.v holds the record [pbftCore] with every field the handlers use,
      the certificates, quorum predicates, watermarks and timers;
      ViewChangeCalc.v the computations of the view change; PbftCore.v one
      definition per handler and [ProcessEvent], which selects among them;
      PbftInit.v [newPbftCore] and the recovery from the database;
      PbftPersist.v the keys and values [pbft-persist.go] and [persist.go] write;
      HibeRound.v the test round of threshold signatures the replicas run.
      The handlers are written in the state monad [M] below, with panics as an
      outcome.  Handlers that call each other in a cycle take the cyclic calls as
      an argument, and [PbftCore.run] ties the knot with fuel.  What a replica
      sends, executes or hands to the protocol manager is appended to the list
      [pc_out]; [pc_ledger] records, for the theorems only, the evidence with which each
      block was handed to the ledger.
    - [core/types/block.go]: Header.v, a header with its hash, the hash that is
      signed and the cache of recovered signers.  [consensus/pbft/snapshot.go]:
      Snapshot.v, the votes that change the set of block signers, and how a
      snapshot is stored and loaded.  [consensus/pbft/pbft.go] (the consensus
      engine): HeaderRules.v, the verification of headers over these snapshots;
      Engine.v, [Prepare], [Finalize] and [Seal], the methods of [api.go], and
      [core/block_validator.go].  EngineProofs.v has the theorems that join them
      and EngineScenarios.v their instances.
    - [core/blockchain.go], [headerchain.go], [genesis.go], [database_util.go] and
      [wait] of [miner/worker.go]: ChainDB.v, the tables of the database;
      Blockchain.v, the lookups with their caches, [insert], [reorg],
      [WriteBlock], [InsertChain], [procFutureBlocks], genesis and the opening of
      a chain, over an interface [Processor]; BlockProcessor.v gives this
      interface [core/state_processor.go] as ZkTx.v models it.  A node is a chain
      with an engine, and [InsertChain] calls both.  BlockchainProofs.v has the
      lemmas of the lookups and of [reorg], ChainImport.v those of an import,
      ChainStart.v those of genesis and of the opening, ChainSafety.v the
      requests to a node; ChainReach.v states what holds after any sequence of
      requests, crashes and restarts ([reachable]), and ChainScenarios.v runs a
      sample chain.
    - [core/state/statedb.go], [state_object.go], [journal.go]: StateDB.v, the
      accounts, their journal, snapshots and the intermediate root; StateRoot.v,
      what the root and [CommitTo] write; StateQuiet.v, a logic of computations
      that end and keep what has been committed.
    - [core/state_transition.go], [state_processor.go], with what they call of
      [core/vm/evm.go], [core/evm.go], [core/gaspool.go], and
      [Work.commitTransaction] of [miner/worker.go]: ZkTx.v.  ZkEffects.v has the
      effect of one transaction, ZkSafety.v the serial numbers of a block, and
      ZkQuiet.v that a block is processed to its end.
    - [core/types/transaction.go], [transaction_signing.go]: Tx.v, transactions,
      what their hashes cover, the five signers and the cache of the sender.
    - [core/tx_pool.go], [tx_list.go], [state/managed_state.go]: the pool.
      GoHeap.v is [container/heap]; TxList.v the list of the transactions of one
      account with its heap and cache, and TxListSpec.v its refinement;
      ManagedState.v the nonces the pool tracks; CrossProof.v the validation of
      cross-chain proofs; TxPool.v one definition per function of the pool.
      TxPoolInv.v, TxPoolOps.v and TxPoolAdd.v carry the invariant through
      them, and TxPoolSafe.v states it for sequences of requests.
    - [miner/worker.go], [TransactionsByPriceAndNonce]: Miner.v, from the pool to
      the transactions of a block.
    - [merkleTree/merkle.go], [core/types/derive_sha.go] and the incremental tree
      of [libsnark-vnt] behind them: Merkle.v.
    - [hibe/dhibe_Cap.go]: Hibe.v, on MathComp, over an abstract pairing.
    - [rlp/encode.go], [rlp/decode.go], [rlp/raw.go]: the binary encoding.  Rlp.v has
      the buffer of an encoder, the stream of a decoder, and [writer] and [decode],
      which follow a type as [makeWriter] and [makeDecoder] do; RlpRaw.v the functions
      that take an encoding apart in place.  RlpEncoding.v and RlpStream.v compare the
      buffer and the stream with the encoding of the yellow paper, and RlpProofs.v
      puts them together.
    - The circuits and provers of the C++ library under [libsnark-vnt/src] that the
      wallet calls ([convert], [redeem], [deposit], [withdraw]): Circuits.v, when an
      assignment made from the arguments of a prover satisfies its circuit, and what
      the prover then returns.
    - The wallet of [zktx/zktx.go], the commands of [internal/ethapi/api.go] that make
      zero-knowledge transactions from it, [SetTransaction] of [eth/api_backend.go], the
      part of [cmd/geth/config.go] that reads the wallet back, and the addresses of
      identities of [common/bytes.go]: Wallet.v.  It meets Rlp.v where a step is recorded
      in a file, and ZkTx.v where the chain carries out the transaction that a
      command has made; WalletProofs.v has the theorems over both, and
      WalletScenarios.v their instances.

    Goroutines appear where their interleaving matters (Events.v).  A replica
    handles one event at a time, so its handlers are sequential; several replicas
    meet only in statements about their reachable states.

    ** What is proved

    - Agreement (PbftCerts.v, PbftExec.v, over the step relation of PbftSteps.v):
      the invariant of certificates and stored blocks in every reachable state;
      a prepared or committed request has the votes of a quorum of distinct
      replicas, where nobody has sent messages in the name of others; two quorums share
      [f+1] replicas; two replicas with the same prepared view and number have the same
      digest, under the same condition; whatever a replica hands to the ledger had a
      committed certificate at that time, with the number after the one it had executed
      last; and a replica does not stop while the next request is committed.
    - View changes (ViewChangeSafety.v, ViewChangeTerm.v): which request the new
      view assigns to each number, that a request committed by an honest quorum
      is assigned again, that the selection of the checkpoint does not depend on
      the order of a map, and that the cycle of view changes ends.
    - Recovery (PersistProofs.v): a checkpoint and the P set that were written are found
      by the next start.
    - Headers (Snapshot.v, HeaderRules.v, EngineProofs.v): [apply] refines voting
      by a fold, [snapshot] returns the fold over the chain whatever the caches
      and the database hold, and an accepted header has an authorised signer with
      the right difficulty.  A block made by [Prepare], [Finalize] and [Seal]
      passes [VerifyHeader], [ValidateBody] and [ValidateState].  A second header
      with the roots of a verified one passes with any seal.
    - The chain (ChainReach.v), in every state that a node reaches by imports,
      blocks set aside, blocks of its own, losses of cached entries and restarts
      between requests: the state stored for the head is that of
      replaying all blocks from genesis; no stored block is heavier than the
      head; the canonical numbers up to the head hold blocks linked by their
      parent hashes; every import ends; a restart comes back to
      the same head; and along the chain no serial number is spent twice.  What
      the requests must fulfil is [ChainSafety.request]: complete headers with
      nonzero numbers, and different hashes for blocks that differ in number or root;
      what own blocks must fulfil is [ChainSafety.made]: a new hash among others (the
      hash of this chain covers three roots only, and ChainScenarios.v shows what
      happens without some of these conditions).
    - Signatures (Hibe.v): the shares of any threshold of nodes combine to a
      signature that verifies, at every level of the hierarchy.
    - Accounts (StateDB.v): reverting to a snapshot restores every account
      whatever the nested calls have done.
    - Hidden balances (ZkEffects.v, ZkSafety.v, ZkScenarios.v): the exact effect
      of a transaction to an account without code, that no serial number is spent
      twice in a block whatever contracts it runs, that a zero-knowledge
      transaction is only carried out with an accepted proof.
    - Lists of transactions (TxListSpec.v): every operation of a list is that of
      a finite map from nonces, whatever its heap and cache hold; a strict list
      keeps its nonces without a gap; a replacement pays more.
    - The pool (TxPoolSafe.v): what holds of its lists, index and price list in
      every reachable state; every request ends; the limit of pending
      transactions is enforced but for small accounts; what [validateTx] lets in.
    - Mining (Miner.v): a block takes the transactions of an account in the order
      of the nonces, without gaps and from the pool only; the composition ends.
    - Merkle trees (Merkle.v): the incremental tree is the perfect tree over its
      leaves padded with zeros; the witness of a withdrawal leads from a commitment that
      occurs once to the root of the tree it was given; the root of a block binds the
      hashes of its transactions.
    - The encoding (RlpEncoding.v, RlpProofs.v, RlpRaw.v): an encoder writes the
      encoding of the yellow paper; what is encoded is decoded again, without a value
      that was in its place before showing through; whatever a decoder accepts is the
      only encoding of its result; decoding ends; and where taking a value apart
      in place panics.  The three on decoders are about strict types
      ([RlpProofs.strict]): without pointers that have the tag ["nil"], whose nil has two
      encodings, and without arrays of length one, on which decoding need not end.
    - The wallet (Circuits.v, WalletProofs.v): from a wallet in step with its account, a
      conversion, a redemption or a deposit makes a transaction that the chain carries
      out with the effect it announces, and the wallet it leaves is in step with the
      account after it; a withdrawal is sent without a proof; what happens when
      a command comes before the transaction of the last one is on the chain, and when
      the node starts again; that identities of at most sixteen characters are
      read back from their addresses.
    - Payments between chains (CrossProof.v): what an accepted proof shows of the
      headers a node has stored, if it has a database, and what it does not show.
    - Behaviour the code does not mean to have (PbftScenarios.v, ZkScenarios.v,
      TxPoolScenarios.v, MinerScenarios.v, [one_byte_arrays_loop],
      [nil_pointer_two_forms], [restart_loses_wallet], [withdrawal_sends_no_proof], [pending_forgotten] and other single theorems): runs,
      evaluated in the model, in which forged messages fork a view or stop a
      replica, a commitment survives the failure of its transaction, a balance
      grows without a proof, or transactions are stranded in the pool.

    ** Parameters

    Other packages' functions and what stays outside the model are fields of
    classes: [PbftState.PbftEnv] (block hashes, signature recovery, JSON and
    base64 with their inverse laws, the handshake with peers),
    [Header.HashEnv] (Keccak), [Snapshot.HeaderEnv] (the hash of uncles, epoch and
    period, the JSON of a snapshot with its inverse law), [HeaderRules.ChainEnv]
    (the headers of the chain and the clock; Blockchain.v fills it with its own
    lookups), [Engine.BlockEnv] (state and receipt root, bloom filter, signing),
    [Blockchain.ChainParams] (the forks and the bad hashes),
    [Blockchain.CommitEnv] ([GenCMT]), [ZkTx.ZkEnv] (the libsnark
    verifiers behind [zktx/zktx.go]; the precompiled contracts and the byte-code
    interpreter, which are those of go-ethereum; contract addresses), [Tx.TxEnv] (Keccak of RLP, key recovery, HIBE verification, the
    size of an encoding), [Merkle.MerkleEnv] (the compression function),
    [CrossProof.ProofEnv] (the decoding of a proof), [TxPool.PoolEnv] (the
    constants of the node, and the priority queue with its law),
    [Circuits.ShaEnv] (SHA-256), [Circuits.SnarkEnv] (the prover of libsnark on a
    satisfying assignment, and the proof it makes without one),
    [Wallet.WalletEnv] (the decoding of a block that a peer has sent).
    [Circuits.SnarkComplete] is what the theorems on commands ask of libsnark: the proof
    of a satisfying assignment is one that the verifier of [ZkTx.ZkEnv] accepts.
    [GoRange] stands
    for the arbitrary order in which Go visits a map.  PbftSample.v, the ends of
    Snapshot.v, HeaderRules.v, Merkle.v and CrossProof.v, and the files of
    scenarios give concrete instances, in which the theorems with hypotheses are
    applied.  What is asked of the interpreter is in two classes:
    [ZkSafety.ZkLaws], that it changes accounts only through the journaled
    operations and leaves the accounts that mark serial numbers alone, and
    [ZkQuiet.CalmVM], that it ends, removes no account and reverts to its own
    snapshots only.  [ChainImport.ProcessorLaws] is what the chain asks of its
    [Processor]; [BlockProcessor.stateProcessor_laws] shows it of the processor of
    the code.

    ** Integers, fuel and bounds

    [uint64] values are in [Z] with the wrap-around [u64] where the code computes
    with them; big integers are in [Z].  [run] spends one unit of fuel for each
    call that closes a cycle and ends in [OutOfFuel] without it; safety theorems
    hold for every fuel and outcome.  ViewChangeTerm.v shows that as many units
    as there are stored view changes, and a constant, are enough for the cycle
    through [sendViewChange].  The other events reach a fixed number of such calls
    or this cycle.  Loops over sequence numbers carry the length of their range:
    [assign_range] lists the numbers [h+1] to [h+L] with both ends wrapped; for
    [h+L = 2^64-1], a state no replica counts up to, the loop of the code would
    not end, which the list does not show.  The loops of the pool that lower the
    number of pending transactions have as much fuel as there are of them, and
    TxPoolOps.v shows that each turn takes at least one away; the loop of the
    miner has one unit for each transaction, which [mineLoop_ends] shows to be
    enough.  The loops of [reorg] have the higher of the two block numbers and
    two more, which [ChainReach.imports_end] shows to be enough.  A decoder has the
    depth of its type and the length of its input as fuel, which [decode_ends] shows
    to be enough for every strict type; [one_byte_arrays_loop]
    shows that no fuel is enough for a slice of those.

    ** What is not modelled

    The channels between engine and protocol manager, logging, the reading of the
    configuration (its values are the record [Config]), [workEvent], the
    authentication-free routing in [eth/handler.go], the policy by which LRU caches
    evict (the proofs about the chain let any entry be lost at any time), the wait
    of [Seal] for the time of a block and its stop channel, types that bring RLP
    methods of their own (the records that other files hash or store are
    encoded by their parameters), contract storage and the byte-code interpreter, the logs of receipts and their lookup by
    transaction, [Reset], [SetHead], [Rollback], fast synchronisation and the
    import of headers alone, the events of the chain, the encryption of funds for a
    receiver and the keys it would use (nothing calls them), [GetBalances], the agents and uncles of the miner, the metrics and locks of
    the pool, the byte encodings of group elements, the constraints of the C++ circuits on
    assignments that their provers do not make, and the unmodified go-ethereum packages.

    ** Plan

    Next: [SetHead], [Rollback] and [Reset] of the chain, and the import of headers
    alone; properties of HibeRound.v; the message routing of the protocol manager;
    the helper functions of HIBE that sharing does not use.

    This file holds what the others share: machine integers, record update, the
    state monad with panics and fuel, predicates that a computation preserves,
    and the order of map iteration. *)
From stdpp Require Export base gmap strings list sorting.
From Stdlib Require Export ZArith Lia.

#[export] Set Warnings "-clear-no-such-hyp".
#[global] Open Scope Z_scope.

(** ** Machine integers *)

(** The modulus of Go's [uint64]. *)
Definition two64 : Z := 18446744073709551616.

(** Wrap-around of an arithmetic result to [uint64]. *)
Definition u64 (z : Z) : Z := z mod two64.

(** [x] is a value a [uint64] variable can hold. *)
Definition is_u64 (z : Z) : Prop := 0 <= z < two64.

(** Go's conversion [int64(x)] of a [uint64] value: two's complement. *)
Definition int64_of_u64 (z : Z) : Z :=
  if decide (z < two64 / 2) then z else z - two64.

(** Wrap-around of an arithmetic result to [int64], the type of
    [time.Duration]. *)
Definition i64 (z : Z) : Z := (z + two64 / 2) mod two64 - two64 / 2.

Lemma i64_small z : - (two64 / 2) <= z < two64 / 2 -> i64 z = z.
Proof.
  unfold i64.
  change (two64 / 2) with 9223372036854775808. unfold two64.
  intros. rewrite Z.mod_small; lia.
Qed.

Lemma u64_small z : is_u64 z -> u64 z = z.
Proof. unfold is_u64, u64. intros. by apply Z.mod_small. Qed.

Lemma u64_range z : is_u64 (u64 z).
Proof. apply Z.mod_pos_bound. done. Qed.

Lemma int64_of_u64_small z : 0 <= z < two64 / 2 -> int64_of_u64 z = z.
Proof. unfold int64_of_u64. intros. case_decide; lia. Qed.

Lemma int64_of_u64_neg z : two64 / 2 <= z < two64 -> int64_of_u64 z = z - two64.
Proof. unfold int64_of_u64. intros. case_decide; lia. Qed.

(** ** Record update *)

(** [Eta R] gives the eta-expansion of a record type, from which the update of
    one field is computed. *)
Class Eta (R : Type) := eta : R -> R.
Class Upd {R E : Type} (get : R -> E) := upd : (E -> E) -> R -> R.
Arguments upd {R E} get {_} _ _.

Ltac solve_upd :=
  lazymatch goal with
  | |- @Upd ?R ?E ?get =>
      let e := constr:(_ : Eta R) in
      let h := lazymatch e with ?f _ _ => f | ?f _ => f | ?f => f end in
      let u := fresh "u" in
      let r := fresh "r" in
      intros u r;
      let b := eval cbv beta delta [h] in (e r) in
      match b with
      | context C [get r] => let b' := context C [u (get r)] in exact b'
      end
  end.
#[export] Hint Extern 1 (@Upd _ _ _) => solve_upd : typeclass_instances.

Declare Scope go_scope.
#[global] Open Scope go_scope.
Notation "x <| f ::= g |>" := (upd f g x)
  (at level 1, f at next level, left associativity) : go_scope.
Notation "x <| f := v |>" := (upd f (fun _ => v) x)
  (at level 1, f at next level, left associativity) : go_scope.

(** ** Go computations: state, panic and fuel *)

(** What a call ends with: a value, a Go panic, or the end of the fuel that
    bounds the mutual recursion of the handlers. *)
Inductive outcome (A : Type) : Type :=
| Ret (a : A)
| Panic
| OutOfFuel.
Arguments Ret {A} a.
Arguments Panic {A}.
Arguments OutOfFuel {A}.

(** A computation on the state [W].  A panic or the end of the fuel keeps the
    state reached so far, so an invariant of [W] is stated of every outcome. *)
Definition M (W A : Type) : Type := W -> outcome A * W.

Definition ret {W A} (a : A) : M W A := fun w => (Ret a, w).
Definition bind {W A B} (m : M W A) (f : A -> M W B) : M W B := fun w =>
  match m w with
  | (Ret a, w') => f a w'
  | (Panic, w') => (Panic, w')
  | (OutOfFuel, w') => (OutOfFuel, w')
  end.

Notation "x <- m ;; k" := (bind m (fun x => k))
  (at level 100, m at next level, k at level 200, right associativity) : go_scope.
Notation "m ;; k" := (bind m (fun _ => k))
  (at level 100, k at level 200, right associativity) : go_scope.

Definition get {W} : M W W := fun w => (Ret w, w).
Definition gets {W A} (f : W -> A) : M W A := fun w => (Ret (f w), w).
Definition modify {W} (f : W -> W) : M W unit := fun w => (Ret tt, f w).
Definition panic {W A} : M W A := fun w => (Panic, w).
Definition when {W} (b : bool) (m : M W unit) : M W unit :=
  if b then m else ret tt.

(** A Go [for _, x := range l] loop over a slice. *)
Fixpoint for_each {W A} (l : list A) (body : A -> M W unit) : M W unit :=
  match l with
  | [] => ret tt
  | x :: l' => body x ;; for_each l' body
  end.

(** The same loop with a [break]: the body says whether to stop. *)
Fixpoint for_until {W A} (l : list A) (body : A -> M W bool) : M W bool :=
  match l with
  | [] => ret false
  | x :: l' => b <- body x ;; if b then ret true else for_until l' body
  end.

(** Running a sequence: its first action, and what a result says of it. *)
Lemma bind_eq {W A B} (m : M W A) (f : A -> M W B) s a s1 :
  m s = (Ret a, s1) -> bind m f s = f a s1.
Proof. unfold bind. by intros ->. Qed.

Lemma bind_inv {W A B} (m : M W A) (f : A -> M W B) s b s2 :
  bind m f s = (Ret b, s2) -> exists a s1, m s = (Ret a, s1) /\ f a s1 = (Ret b, s2).
Proof. unfold bind. destruct (m s) as [[a| |] s1]; [by exists a, s1|done|done]. Qed.

Lemma bind_get {W B} (f : W -> M W B) s : bind get f s = f s s.
Proof. done. Qed.
Lemma bind_modify {W B} g (f : unit -> M W B) s : bind (modify g) f s = f tt (g s).
Proof. done. Qed.
Lemma bind_ret {W A B} (a : A) (f : A -> M W B) s : bind (ret a) f s = f a s.
Proof. done. Qed.

(** ** A preorder logic for computations *)

(** [stable_at R m w]: running [m] from [w] ends, whatever the outcome, in a
    state related to [w] by [R]. *)
Definition stable_at {W A} (R : W -> W -> Prop) (m : M W A) (w : W) : Prop :=
  R w (m w).2.

Definition stable {W A} (R : W -> W -> Prop) (m : M W A) : Prop :=
  forall w, stable_at R m w.

Section Stable.
Context {W : Type} (R : W -> W -> Prop) `{!PreOrder R}.

Lemma stable_at_bind {A B} (m : M W A) (f : A -> M W B) w :
  stable_at R m w ->
  (forall a w', m w = (Ret a, w') -> stable_at R (f a) w') ->
  stable_at R (bind m f) w.
Proof using All.
  unfold stable_at, bind. intros H1 H2.
  destruct (m w) as [[a| |] w'] eqn:E; simpl in *; auto.
  etransitivity; [exact H1|]. by apply H2.
Qed.

Lemma stable_bind {A B} (m : M W A) (f : A -> M W B) :
  stable R m -> (forall a, stable R (f a)) -> stable R (bind m f).
Proof using All. intros H1 H2 w. apply stable_at_bind; [apply H1|]. intros; apply H2. Qed.

Lemma stable_ret {A} (a : A) : stable R (ret a).
Proof using All. intros w. unfold stable_at. simpl. reflexivity. Qed.

Lemma stable_gets {A} (f : W -> A) : stable R (gets f).
Proof using All. intros w. unfold stable_at. simpl. reflexivity. Qed.

Lemma stable_get : stable R get.
Proof using All. intros w. unfold stable_at. simpl. reflexivity. Qed.

Lemma stable_panic {A} : stable R (@panic W A).
Proof using All. intros w. unfold stable_at. simpl. reflexivity. Qed.

Lemma stable_modify f : (forall w, R w (f w)) -> stable R (modify f).
Proof using Type. intros H w. apply H. Qed.

Lemma stable_when b (m : M W unit) : stable R m -> stable R (when b m).
Proof using All. destruct b; simpl; auto using stable_ret. Qed.

Lemma stable_for_each {A} (l : list A) body :
  (forall x, stable R (body x)) -> stable R (for_each l body).
Proof using All.
  intros H. induction l as [|x l IH]; simpl; auto using stable_ret, stable_bind.
Qed.

Lemma stable_for_until {A} (l : list A) body :
  (forall x, stable R (body x)) -> stable R (for_until l body).
Proof using All.
  intros H. induction l as [|x l IH]; simpl; auto using stable_ret.
  apply stable_bind; auto. intros []; auto using stable_ret.
Qed.
End Stable.

(** Computation of [stable_at] through the first action of a sequence. *)
Section StableAt.
Context {W : Type} (R : W -> W -> Prop) `{!PreOrder R}.

Lemma stable_at_get {B} (f : W -> M W B) w : stable_at R (f w) w -> stable_at R (bind get f) w.
Proof using Type. done. Qed.

Lemma stable_at_gets {A B} (g : W -> A) (f : A -> M W B) w :
  stable_at R (f (g w)) w -> stable_at R (bind (gets g) f) w.
Proof using Type. done. Qed.

Lemma stable_at_modify {B} g (f : unit -> M W B) w :
  R w (g w) -> stable_at R (f tt) (g w) -> stable_at R (bind (modify g) f) w.
Proof using All. unfold stable_at, bind, modify. intros. by etransitivity. Qed.

Lemma stable_at_ret {A} (a : A) w : stable_at R (ret a) w.
Proof using All. unfold stable_at. simpl. reflexivity. Qed.

Lemma stable_at_when b (m : M W unit) w :
  (b = true -> stable_at R m w) -> stable_at R (when b m) w.
Proof using All. destruct b; simpl; auto using stable_at_ret. Qed.

(** A loop whose body leaves the state alone as long as it goes on. *)
Lemma stable_at_for_until {A} (l : list A) body w :
  (forall x, stable_at R (body x) w) ->
  (forall x w', body x w = (Ret false, w') -> w' = w) ->
  stable_at R (for_until l body) w.
Proof using All.
  intros H1 H2. induction l as [|x l IH]; simpl; [by apply stable_at_ret|].
  apply stable_at_bind; auto. intros [] w' E; [by apply stable_at_ret|].
  apply H2 in E as ->. done.
Qed.
End StableAt.

Create HintDb go.
#[export] Hint Resolve stable_bind stable_ret stable_gets stable_get stable_panic
  stable_when stable_for_each stable_for_until : go.

(** ** Iteration over a Go map *)

(** The language leaves the order in which [range] visits a map unspecified, and
    it may differ between two loops over the same map.  [go_range t m] is the
    order of the [t]-th loop of a run: any permutation of the entries. *)
Class GoRange := {
  go_range : forall {K V : Type} `{Countable K}, nat -> gmap K V -> list (K * V);
  go_range_perm : forall {K V : Type} `{Countable K} t (m : gmap K V),
    go_range t m ≡ₚ map_to_list m;
}.

(** One such order: that of the tree underlying [gmap]. *)
#[export] Program Instance tree_order : GoRange := {|
  go_range K V _ _ t m := map_to_list m |}.
Next Obligation. done. Qed.

Section Range.
Context `{GoRange} {K V : Type} `{Countable K}.

Lemma go_range_elem t (m : gmap K V) k v :
  (k, v) ∈ go_range t m <-> m !! k = Some v.
Proof. by rewrite go_range_perm, elem_of_map_to_list. Qed.

Lemma go_range_nodup t (m : gmap K V) : NoDup (go_range t m).*1.
Proof. rewrite go_range_perm. apply NoDup_fst_map_to_list. Qed.

Lemma go_range_length t (m : gmap K V) : length (go_range t m) = size m.
Proof. rewrite go_range_perm. apply length_map_to_list. Qed.
End Range.

(** ** Counting *)

(** Number of elements of a slice that satisfy a test, as the source counts
    quorums. *)
Definition count {A} (p : A -> bool) (l : list A) : Z :=
  Z.of_nat (length (List.filter p l)).

Lemma count_nonneg {A} (p : A -> bool) l : 0 <= count p l.
Proof. unfold count. lia. Qed.

Lemma count_le_length {A} (p : A -> bool) l : count p l <= Z.of_nat (length l).
Proof. unfold count. induction l as [|x l IH]; simpl; [lia|]. destruct (p x); simpl; lia. Qed.

Lemma count_cons {A} (p : A -> bool) x l :
  count p (x :: l) = (if p x then 1 else 0) + count p l.
Proof. unfold count. simpl. destruct (p x); simpl length; lia. Qed.

Lemma count_nil {A} (p : A -> bool) : count p [] = 0.
Proof. done. Qed.

Lemma count_mono {A} (p q : A -> bool) l :
  (forall x, x ∈ l -> p x = true -> q x = true) -> count p l <= count q l.
Proof.
  induction l as [|x l IH]; intros Hpq; [done|].
  rewrite !count_cons.
  assert (count p l <= count q l) by (apply IH; intros; apply Hpq; set_solver).
  destruct (p x) eqn:E; [rewrite Hpq; [lia|set_solver|done]|].
  destruct (q x); lia.
Qed.

(** Two tests no element passes together count at most the whole slice. *)
Lemma count_disjoint {A} (p q : A -> bool) l :
  (forall x, x ∈ l -> p x = true -> q x = true -> False) ->
  count p l + count q l <= Z.of_nat (length l).
Proof.
  induction l as [|x l IH]; intros Hd; [done|].
  rewrite !count_cons. simpl length.
  assert (count p l + count q l <= Z.of_nat (length l)) by (apply IH; intros; eapply Hd; eauto; set_solver).
  destruct (p x) eqn:E1, (q x) eqn:E2; try lia.
  exfalso. eapply (Hd x); eauto. set_solver.
Qed.

Lemma count_perm {A} (p : A -> bool) l l' : l ≡ₚ l' -> count p l = count p l'.
Proof. induction 1; rewrite ?count_cons; lia. Qed.

#[export] Instance filter_perm {A} (p : A -> bool) : Proper ((≡ₚ) ==> (≡ₚ)) (List.filter p).
Proof.
  induction 1 as [|x l l' _ IH|x y l|l1 l2 l3 _ IH1 _ IH2]; cbn; [done| | |by etrans].
  - destruct (p x); by rewrite IH.
  - destruct (p x), (p y); done || constructor.
Qed.

Lemma count_app {A} (p : A -> bool) l l' : count p (l ++ l') = count p l + count p l'.
Proof. induction l as [|x l IH]; [done|]. cbn [app]. rewrite !count_cons. lia. Qed.

Lemma existsb_count {A} (p : A -> bool) l : existsb p l = false <-> count p l = 0.
Proof.
  induction l as [|x l IH]; [done|]. rewrite count_cons. cbn. rewrite orb_false_iff, IH.
  pose proof (count_nonneg p l). destruct (p x); (split; [intros [? ?]|intros ?; split]); (done || lia).
Qed.

Lemma count_zero {A} (p : A -> bool) l : (forall x, x ∈ l -> p x = false) -> count p l = 0.
Proof.
  intros Hp. apply existsb_count. apply not_true_iff_false. intros (x & Hx & E)%existsb_exists.
  rewrite Hp in E by (by apply list_elem_of_In). done.
Qed.

(** A test that determines its element is passed at most once in a slice without
    repetitions. *)
Lemma count_at_most_one {A} (p : A -> bool) l :
  NoDup l -> (forall x y, x ∈ l -> y ∈ l -> p x = true -> p y = true -> x = y) -> count p l <= 1.
Proof.
  induction l as [|x l IH]; intros Hnd Hu; [done|]. apply NoDup_cons in Hnd as [Hx Hnd].
  rewrite count_cons. destruct (p x) eqn:E.
  - rewrite (count_zero p l); [done|]. intros y Hy. apply not_true_iff_false. intros Ey.
    apply Hx. by rewrite (Hu x y) by (done || by left || by right).
  - assert (count p l <= 1); [|lia]. apply IH; [done|]. intros; apply Hu; auto; by right.
Qed.

(** ** Serialisation *)

(** A serialisation of any countable type, as the digits of its code. *)
Definition zeroDigit : Ascii.ascii := Eval compute in Ascii.ascii_of_nat 48.
Fixpoint digits (p : positive) : string :=
  match p with xH => EmptyString | xO p' => String zeroDigit (digits p') | xI p' => String Ascii.one (digits p') end.
Fixpoint undigits (s : string) : positive :=
  match s with
  | EmptyString => xH
  | String c s' => if decide (c = zeroDigit) then xO (undigits s') else xI (undigits s')
  end.

Lemma undigits_digits p : undigits (digits p) = p.
Proof. induction p as [p IH|p IH|]; cbn; by rewrite ?IH. Qed.
