(* ===== verification/Rlp.v ===== *)
(** * Rlp: the binary encoding of values

    Models [rlp/encode.go] and [rlp/decode.go]: the buffer that an encoder fills, the
    stream that a decoder reads, and the writers and decoders that the package makes
    of a Go type by reflection ([makeWriter], [makeDecoder]).  Types are the data type
    [rtype] and values [rval]; the pools, the cache of types, [RawValue], and types
    with methods of their own are left out, and streams are over bytes in memory, so
    that they are limited. *)
From S2P Require Import Prelude.

(** ** Bytes *)

Abbreviation bytes := (list Ascii.ascii).
Definition byteval (c : Ascii.ascii) : Z := Z.of_N (Ascii.N_of_ascii c).
(** The conversion [byte(z)]. *)
Definition tobyte (z : Z) : Ascii.ascii := Ascii.ascii_of_N (Z.to_N (z mod 256)).

(** The bytes of a number from the highest to the lowest, and the number of bytes. *)
Fixpoint bigend (l : bytes) (acc : Z) : Z :=
  match l with [] => acc | c :: l => bigend l (acc * 256 + byteval c) end.
Fixpoint lowbytes (n : nat) (z : Z) : bytes :=
  match n with O => [] | S n => tobyte (Z.shiftr z (8 * Z.of_nat n)) :: lowbytes n z end.

(** [putint]: the cases of its [switch]. *)
Definition putint (i : Z) : bytes :=
  if i <? 2 ^ 8 then lowbytes 1 i
  else if i <? 2 ^ 16 then lowbytes 2 i
  else if i <? 2 ^ 24 then lowbytes 3 i
  else if i <? 2 ^ 32 then lowbytes 4 i
  else if i <? 2 ^ 40 then lowbytes 5 i
  else if i <? 2 ^ 48 then lowbytes 6 i
  else if i <? 2 ^ 56 then lowbytes 7 i
  else lowbytes 8 i.

(** [intsize]: its loop ends after eight turns. *)
Fixpoint intsizeLoop (fuel : nat) (i : Z) : nat :=
  match fuel with
  | O => 0%nat
  | S fuel => let i := Z.shiftr i 8 in if i =? 0 then 1%nat else S (intsizeLoop fuel i)
  end.
Definition intsize (i : Z) : nat := intsizeLoop 8 i.

(** [big.Int.Bytes]: the bytes without leading zeros. *)
Fixpoint bigBytesLoop (fuel : nat) (i : Z) : bytes :=
  match fuel with
  | O => []
  | S fuel => if i <=? 0 then [] else bigBytesLoop fuel (i / 256) ++ [tobyte i]
  end.
Definition bigBytes (i : Z) : bytes := bigBytesLoop (S (Z.to_nat (Z.log2 i))) i.

(** ** The buffer of an encoder *)

(** [puthead]. *)
Definition puthead (smalltag largetag size : Z) : bytes :=
  if size <? 56 then [tobyte (smalltag + size)]
  else let s := putint size in tobyte (largetag + Z.of_nat (length s)) :: s.

(** [encbuf]: the data without the headers of lists, and these headers: where they
    belong, and their size. *)
Record encbuf := mkEncbuf {
  eb_str : bytes;
  eb_lheads : list (nat * nat);
  eb_lhsize : nat;
}.
#[export] Instance encbuf_eta : Eta encbuf := fun r => mkEncbuf (eb_str r) (eb_lheads r) (eb_lhsize r).

Definition emptyBuf : encbuf := mkEncbuf [] [] 0.
Definition write (b : bytes) (w : encbuf) : encbuf := w <| eb_str ::= fun s => s ++ b |>.
Definition encodeStringHeader (size : nat) (w : encbuf) : encbuf :=
  if (size <? 56)%nat then write [tobyte (128 + Z.of_nat size)] w
  else let s := putint (Z.of_nat size) in write (tobyte (183 + Z.of_nat (length s)) :: s) w.
Definition encodeString (b : bytes) (w : encbuf) : encbuf :=
  match b with
  | [c] => if byteval c <=? 127 then write [c] w else write b (encodeStringHeader 1 w)
  | _ => write b (encodeStringHeader (length b) w)
  end.
Definition eb_size (w : encbuf) : nat := (length (eb_str w) + eb_lhsize w)%nat.

(** [list]: the header is found again by its place among the headers. *)
Definition eb_list (w : encbuf) : nat * encbuf :=
  (length (eb_lheads w), w <| eb_lheads ::= fun l => l ++ [(length (eb_str w), eb_lhsize w)] |>).
Definition listEnd (lh : nat) (w : encbuf) : encbuf :=
  match eb_lheads w !! lh with
  | None => w
  | Some (offset, size) =>
      let size := (eb_size w - offset - size)%nat in
      let w := w <| eb_lheads ::= <[lh := (offset, size)]> |> in
      if (size <? 56)%nat then w <| eb_lhsize ::= fun n => (n + 1)%nat |>
      else w <| eb_lhsize ::= fun n => (n + 1 + intsize (Z.of_nat size))%nat |>
  end.

(** [toBytes]: the headers put where they belong.  The slice that the code fills has
    the length [eb_size], which is that of the result for every buffer that the
    writers leave. *)
Fixpoint merge_heads (heads : list (nat * nat)) (strpos : nat) (str : bytes) : bytes :=
  match heads with
  | [] => drop strpos str
  | (offset, size) :: heads =>
      take (offset - strpos) (drop strpos str) ++ puthead 192 247 (Z.of_nat size) ++ merge_heads heads offset str
  end.
Definition toBytes (w : encbuf) : bytes := merge_heads (eb_lheads w) 0 (eb_str w).

(** ** Types and their values *)

(** Types, as [makeWriter] and [makeDecoder] tell them apart: unsigned integers by
    their bits, [bool], big integers, strings and slices of bytes, arrays of bytes,
    slices, structs by their exported fields, pointers without and with the tag
    ["nil"], and the empty interface. *)
#[local] Set Warnings "-register-all".
Inductive rtype :=
| TUint (bits : Z) | TBool | TBig | TBytes | TArray (n : nat)
| TSlice (t : rtype) | TStruct (ts : list rtype) | TPtr (t : rtype) | TPtrNil (t : rtype) | TIface.

(** A value: an unsigned integer, a boolean, a pointer to a big integer, bytes, a
    slice or a struct, a pointer, and the nil of an interface, which otherwise is the
    value it holds: bytes or a slice of interfaces. *)
Inductive rval :=
| VUint (i : Z) | VBool (b : bool) | VBig (i : option Z) | VBytes (b : bytes)
| VList (l : list rval) | VPtr (p : option rval) | VNil.

(** The zero value of a type. *)
Fixpoint zero (t : rtype) : rval :=
  match t with
  | TUint _ => VUint 0
  | TBool => VBool false
  | TBig => VBig None
  | TBytes => VBytes []
  | TArray n => VBytes (repeat Ascii.zero n)
  | TSlice _ => VList []
  | TStruct ts => VList (map zero ts)
  | TPtr _ | TPtrNil _ => VPtr None
  | TIface => VNil
  end.

(** ** Writers *)

Definition writeUint (i : Z) (w : encbuf) : encbuf :=
  if i =? 0 then write [tobyte 128] w
  else if i <? 128 then write [tobyte i] w
  else let s := putint i in write (tobyte (128 + Z.of_nat (length s)) :: s) w.
Definition writeBool (b : bool) (w : encbuf) : encbuf := write [tobyte (if b then 1 else 128)] w.

(** [writeBigInt]: a negative number is an error. *)
Definition writeBigInt (i : Z) (w : encbuf) : option encbuf :=
  if i <? 0 then None else if i =? 0 then Some (write [tobyte 128] w) else Some (encodeString (bigBytes i) w).

(** The elements of a list between [list] and [listEnd]. *)
Definition writeList (body : encbuf -> option encbuf) (w : encbuf) : option encbuf :=
  let '(lh, w) := eb_list w in listEnd lh <$> body w.

(** What a nil pointer to a type is written as: the zero value of a type that is not
    an array or a struct. *)
Fixpoint writeNil (t : rtype) (w : encbuf) : option encbuf :=
  match t with
  | TArray _ | TUint _ | TBool | TBig | TBytes => Some (write [tobyte 128] w)
  | TStruct _ | TSlice _ => writeList Some w
  | TPtr t | TPtrNil t => writeNil t w
  | TIface => Some (write [tobyte 192] w)
  end.

(** The writer that [makeWriter] makes of a type; a value of another type, of which
    there are none, is an error here. *)
Fixpoint writer (t : rtype) (v : rval) (w : encbuf) {struct v} : option encbuf :=
  match t, v with
  | TUint _, VUint i => Some (writeUint i w)
  | TBool, VBool b => Some (writeBool b w)
  | TBig, VBig None => Some (write [tobyte 128] w)
  | TBig, VBig (Some i) => writeBigInt i w
  | (TBytes | TArray _ | TIface), VBytes b => Some (encodeString b w)
  | TSlice t, VList l =>
      writeList ((fix elems (l : list rval) (w : encbuf) : option encbuf :=
        match l with
        | [] => Some w
        | v :: l => match writer t v w with None => None | Some w => elems l w end
        end) l) w
  | TIface, VList l =>
      writeList ((fix elems (l : list rval) (w : encbuf) : option encbuf :=
        match l with
        | [] => Some w
        | v :: l => match writer TIface v w with None => None | Some w => elems l w end
        end) l) w
  | TStruct ts, VList l =>
      writeList ((fix fields (ts : list rtype) (l : list rval) (w : encbuf) {struct l} : option encbuf :=
        match l, ts with
        | [], [] => Some w
        | v :: l, t :: ts => match writer t v w with None => None | Some w => fields ts l w end
        | _, _ => None
        end) ts l) w
  | TIface, VNil => Some (write [tobyte 192] w)
  | (TPtr t | TPtrNil t), VPtr (Some v) => writer t v w
  | (TPtr t | TPtrNil t), VPtr None => writeNil t w
  | _, _ => None
  end.

(** [EncodeToBytes]. *)
Definition EncodeToBytes (t : rtype) (v : rval) : option bytes := toBytes <$> writer t v emptyBuf.

(** ** The stream of a decoder *)

Inductive rlpMsg :=
| nonCanonicalInteger | nonCanonicalSize | expectedInputList | expectedInputString | inputStringTooLong
| inputStringTooShort | inputListTooLong | tooFewElements | invalidBoolean.
Inductive rlpErr :=
| EOL | ErrExpectedString | ErrExpectedList | ErrCanonInt | ErrCanonSize | ErrElemTooLarge | ErrValueTooLarge
| ErrMoreThanOneValue | errNotInList | errNotAtEOL | errUintOverflow | errEOF | ErrUnexpectedEOF
| decodeError (m : rlpMsg).
Inductive Kind := Byte | String_ | List_.
#[export] Instance Kind_eq : EqDecision Kind.
Proof. solve_decision. Defined.
#[export] Instance rlpMsg_eq : EqDecision rlpMsg.
Proof. solve_decision. Defined.
#[export] Instance rlpErr_eq : EqDecision rlpErr.
Proof. solve_decision. Defined.

(** [Stream], over the bytes of [st_r]; [st_kind] is empty when the code has [-1].
    The innermost list is the head of [st_stack]: the position in it and its size. *)
Record Stream := mkStream {
  st_r : bytes;
  st_remaining : Z;
  st_kind : option Kind;
  st_size : Z;
  st_byteval : Ascii.ascii;
  st_kinderr : option rlpErr;
  st_stack : list (Z * Z);
}.
#[export] Instance Stream_eta : Eta Stream := fun r =>
  mkStream (st_r r) (st_remaining r) (st_kind r) (st_size r) (st_byteval r) (st_kinderr r) (st_stack r).

Local Abbreviation MR := (M Stream).
Definition tryR {A B} (m : MR (rlpErr + A)) (k : A -> MR (rlpErr + B)) : MR (rlpErr + B) :=
  r <- m ;; match r with inl e => ret (inl e) | inr a => k a end.
Notation "x <-! m ;; k" := (tryR m (fun x => k))
  (at level 100, m at next level, k at level 200, right associativity) : go_scope.

(** [NewStream] on a slice of bytes, with its length as the limit. *)
Definition NewStream (b : bytes) : Stream := mkStream b (Z.of_nat (length b)) None 0 Ascii.zero None [].

Definition rearm : MR unit := modify (fun s => s <| st_kind := None |>).

(** [willRead]. *)
Definition willRead (n : Z) : MR (rlpErr + unit) :=
  rearm ;;
  s <- get ;;
  fits <- (match st_stack s with
           | [] => ret true
           | (pos, size) :: rest =>
               if u64 (size - pos) <? n then ret false
               else modify (fun s => s <| st_stack := (u64 (pos + n), size) :: rest |>) ;; ret true
           end) ;;
  if negb fits then ret (inl ErrElemTooLarge)
  else
    if st_remaining s <? n then ret (inl ErrValueTooLarge)
    else modify (fun s => s <| st_remaining ::= fun r => r - n |>) ;; ret (inr tt).

Definition readByte : MR (rlpErr + Ascii.ascii) :=
  _ <-! willRead 1 ;;
  s <- get ;;
  match st_r s with
  | [] => ret (inl ErrUnexpectedEOF)
  | c :: r => modify (fun s => s <| st_r := r |>) ;; ret (inr c)
  end.

(** [readFull] of a number of bytes. *)
Definition readFull (n : Z) : MR (rlpErr + bytes) :=
  _ <-! willRead n ;;
  s <- get ;;
  let b := take (Z.to_nat n) (st_r s) in
  modify (fun s => s <| st_r ::= drop (Z.to_nat n) |>) ;;
  if Z.of_nat (length b) <? n then ret (inl ErrUnexpectedEOF) else ret (inr b).

(** [readUint]: an integer of at most eight bytes; with an error, the one that is
    returned with it. *)
Definition readUint (size : Z) : MR (rlpErr + Z) :=
  if size =? 0 then rearm ;; ret (inr 0)
  else if size =? 1 then b <-! readByte ;; ret (inr (byteval b))
  else
    b <-! readFull size ;;
    if byteval (default Ascii.zero (head b)) =? 0 then ret (inl ErrCanonSize) else ret (inr (bigend b 0)).

(** [readKind]: the kind and the size of the value ahead. *)
Definition readKind : MR (rlpErr + Kind * Z) :=
  r <- readByte ;;
  match r with
  | inl e =>
      s <- get ;;
      ret (inl (if bool_decide (st_stack s = []) && bool_decide (e = ErrUnexpectedEOF \/ e = ErrValueTooLarge)
                then errEOF else e))
  | inr c =>
      let b := byteval c in
      modify (fun s => s <| st_byteval := Ascii.zero |>) ;;
      if b <? 128 then modify (fun s => s <| st_byteval := c |>) ;; ret (inr (Byte, 0))
      else if b <? 184 then ret (inr (String_, b - 128))
      else if b <? 192 then
        size <-! readUint (b - 183) ;;
        if size <? 56 then ret (inl ErrCanonSize) else ret (inr (String_, size))
      else if b <? 248 then ret (inr (List_, b - 192))
      else
        size <-! readUint (b - 247) ;;
        if size <? 56 then ret (inl ErrCanonSize) else ret (inr (List_, size))
  end.

(** [Stream.Kind].  With an error the kind is kept, and the next call returns the
    error again; which kind it is does not matter then. *)
Definition kindOf : MR (rlpErr + Kind * Z) :=
  s <- get ;;
  match st_kind s with
  | Some k => ret (match st_kinderr s with Some e => inl e | None => inr (k, st_size s) end)
  | None =>
      modify (fun s => s <| st_kinderr := None |>) ;;
      if (match st_stack s with (pos, size) :: _ => pos =? size | [] => false end) then ret (inl EOL)
      else
        r <- readKind ;;
        s <- get ;;
        let r := match r with
                 | inl e => inl e
                 | inr (k, n) =>
                     match st_stack s with
                     | [] => if st_remaining s <? n then inl ErrValueTooLarge else inr (k, n)
                     | (pos, size) :: _ => if u64 (size - pos) <? n then inl ErrElemTooLarge else inr (k, n)
                     end
                 end in
        modify (fun s => s <| st_kind := Some (match r with inr (k, _) => k | _ => Byte end) |>
                           <| st_size := match r with inr (_, n) => n | _ => 0 end |>
                           <| st_kinderr := match r with inl e => Some e | _ => None end |>) ;;
        ret r
  end.

(** [Stream.Bytes]. *)
Definition Bytes : MR (rlpErr + bytes) :=
  r <-! kindOf ;;
  match r with
  | (Byte, _) => rearm ;; s <- get ;; ret (inr [st_byteval s])
  | (String_, size) =>
      b <-! readFull size ;;
      if (size =? 1) && (byteval (default Ascii.zero (head b)) <? 128) then ret (inl ErrCanonSize) else ret (inr b)
  | (List_, _) => ret (inl ErrExpectedString)
  end.

(** [Stream.uint]: an unsigned integer of at most as many bits. *)
Definition uint (maxbits : Z) : MR (rlpErr + Z) :=
  r <-! kindOf ;;
  match r with
  | (Byte, _) =>
      s <- get ;;
      if byteval (st_byteval s) =? 0 then ret (inl ErrCanonInt) else rearm ;; ret (inr (byteval (st_byteval s)))
  | (String_, size) =>
      if maxbits / 8 <? size then ret (inl errUintOverflow)
      else
        v <- readUint size ;;
        ret (match v with
             | inl ErrCanonSize => inl ErrCanonInt
             | inl e => inl e
             | inr v => if (0 <? size) && (v <? 128) then inl ErrCanonSize else inr v
             end)
  | (List_, _) => ret (inl ErrExpectedString)
  end.

(** [Stream.Bool]. *)
Definition Bool : MR (rlpErr + bool) :=
  n <-! uint 8 ;;
  if n =? 0 then ret (inr false) else if n =? 1 then ret (inr true) else ret (inl (decodeError invalidBoolean)).

(** [Stream.List] and [ListEnd]. *)
Definition List : MR (rlpErr + Z) :=
  r <-! kindOf ;;
  match r with
  | (List_, size) =>
      modify (fun s => s <| st_stack ::= cons (0, size) |> <| st_kind := None |> <| st_size := 0 |>) ;; ret (inr size)
  | _ => ret (inl ErrExpectedList)
  end.
Definition ListEnd : MR (rlpErr + unit) :=
  s <- get ;;
  match st_stack s with
  | [] => ret (inl errNotInList)
  | (pos, size) :: rest =>
      if negb (pos =? size) then ret (inl errNotAtEOL)
      else
        let rest := match rest with (pos, size') :: rest => (u64 (pos + size), size') :: rest | [] => [] end in
        modify (fun s => s <| st_stack := rest |> <| st_kind := None |> <| st_size := 0 |>) ;; ret (inr tt)
  end.

(** [wrapStreamError]. *)
Definition wrapStreamError (e : rlpErr) : rlpErr :=
  match e with
  | ErrCanonInt => decodeError nonCanonicalInteger
  | ErrCanonSize => decodeError nonCanonicalSize
  | ErrExpectedList => decodeError expectedInputList
  | ErrExpectedString => decodeError expectedInputString
  | errUintOverflow => decodeError inputStringTooLong
  | errNotAtEOL => decodeError inputListTooLong
  | e => e
  end.

(** ** Decoders *)

(** What a decoder returns: an error, and the value with what it has written into it
    by then. *)
Local Abbreviation MD := (MR (option rlpErr * rval)).

(** Setting a value from a read that may fail. *)
Definition setFrom {A} (m : MR (rlpErr + A)) (f : A -> rval) (v : rval) : MD :=
  r <- m ;; ret (match r with inl e => (Some (wrapStreamError e), v) | inr a => (None, f a) end).

(** [decodeBigInt]. *)
Definition decodeBigInt (v : rval) : MD :=
  r <- Bytes ;;
  ret (match r with
       | inl e => (Some (wrapStreamError e), v)
       | inr b =>
           if (match b with c :: _ => byteval c =? 0 | [] => false end)
           then (Some (decodeError nonCanonicalInteger), match v with VBig (Some i) => v | _ => VBig (Some 0) end)
           else (None, VBig (Some (bigend b 0)))
       end).

(** [decodeByteArray]: the one byte of an array of length one is read by [Uint], whose
    error is ignored. *)
Definition decodeByteArray (n : nat) (v : rval) : MD :=
  r <- kindOf ;;
  match r with
  | inl e => ret (Some e, v)
  | inr (Byte, _) =>
      if (n =? 0)%nat then ret (Some (decodeError inputStringTooLong), v)
      else if (1 <? n)%nat then ret (Some (decodeError inputStringTooShort), v)
      else r <- uint 64 ;; ret (None, VBytes [match r with inr i => tobyte i | inl _ => Ascii.zero end])
  | inr (String_, size) =>
      if Z.of_nat n <? size then ret (Some (decodeError inputStringTooLong), v)
      else if size <? Z.of_nat n then ret (Some (decodeError inputStringTooShort), v)
      else
        r <- readFull (Z.of_nat n) ;;
        ret (match r with
             | inl e => (Some e, v)
             | inr b =>
                 (if (size =? 1) && (byteval (default Ascii.zero (head b)) <? 128)
                  then Some (wrapStreamError ErrCanonSize) else None, VBytes b)
             end)
  | inr (List_, _) => ret (Some (wrapStreamError ErrExpectedString), v)
  end.

(** [decodeSliceElems]: until the end of the list.  The elements that the slice has
    are decoded into, and the others into zero values. *)
Fixpoint decodeElems (fuel : nat) (dec : rval -> MD) (z : rval) (acc old : list rval) : MR (option rlpErr * list rval) :=
  match fuel with
  | O => fun s => (OutOfFuel, s)
  | S fuel =>
      r <- dec (default z (head old)) ;;
      match r with
      | (Some EOL, _) => ret (None, acc)
      | (Some e, v) => ret (Some e, acc ++ v :: tail old)
      | (None, v) => decodeElems fuel dec z (acc ++ [v]) (tail old)
      end
  end.

(** [decodeListSlice]. *)
Definition decodeListSlice (dec : rval -> MD) (z : rval) (old : list rval) : MR (option rlpErr * list rval) :=
  r <- List ;;
  match r with
  | inl e => ret (Some (wrapStreamError e), old)
  | inr size =>
      if size =? 0 then r <- ListEnd ;; ret (match r with inl e => Some e | inr _ => None end, [])
      else
        s <- get ;;
        r <- decodeElems (S (length (st_r s))) dec z [] old ;;
        match r with
        | (Some e, l) => ret (Some e, l)
        | (None, l) => e <- ListEnd ;; ret (match e with inl e => Some e | inr _ => None end, l)
        end
  end.

(** The fields of a struct, in order; those after an error stay as they are. *)
Fixpoint decodeFields (dec : rtype -> rval -> MD) (ts : list rtype) (vs : list rval) : MR (option rlpErr * list rval) :=
  match ts, vs with
  | t :: ts, v :: vs =>
      r <- dec t v ;;
      match r with
      | (Some e, v) => ret (Some (if bool_decide (e = EOL) then decodeError tooFewElements else e), v :: vs)
      | (None, v) => r <- decodeFields dec ts vs ;; ret (r.1, v :: r.2)
      end
  | _, _ => ret (None, vs)
  end.

Definition listOf (v : rval) : list rval := match v with VList l => l | _ => [] end.

(** The decoder that [makeDecoder] makes of a type, into a value; the nesting of
    values is bounded by the fuel. *)
Fixpoint decode (fuel : nat) (t : rtype) (v : rval) : MD :=
  match fuel with
  | O => fun s => (OutOfFuel, s)
  | S fuel =>
      let decodePtr t v :=
        match v with
        | VPtr (Some x) => r <- decode fuel t x ;; ret (r.1, VPtr (Some r.2))
        | _ =>
            r <- decode fuel t (zero t) ;;
            ret (match r with (Some e, _) => (Some e, v) | (None, x) => (None, VPtr (Some x)) end)
        end in
      match t with
      | TUint bits => setFrom (uint bits) VUint v
      | TBool => setFrom Bool VBool v
      | TBig => decodeBigInt v
      | TBytes => setFrom Bytes VBytes v
      | TArray n => decodeByteArray n v
      | TSlice t => r <- decodeListSlice (decode fuel t) (zero t) (listOf v) ;; ret (r.1, VList r.2)
      | TStruct ts =>
          r <- List ;;
          match r with
          | inl e => ret (Some (wrapStreamError e), v)
          | inr _ =>
              r <- decodeFields (decode fuel) ts (listOf v) ;;
              match r with
              | (Some e, l) => ret (Some e, VList l)
              | (None, l) =>
                  e <- ListEnd ;; ret (match e with inl e => Some (wrapStreamError e) | inr _ => None end, VList l)
              end
          end
      | TPtr t => decodePtr t v
      | TPtrNil t =>
          k <- kindOf ;;
          match k with
          | inl e => rearm ;; ret (Some e, VPtr None)
          | inr (k, size) =>
              if (size =? 0) && negb (bool_decide (k = Byte)) then rearm ;; ret (None, VPtr None) else decodePtr t v
          end
      | TIface =>
          k <- kindOf ;;
          match k with
          | inl e => ret (Some e, v)
          | inr (List_, _) =>
              r <- decodeListSlice (decode fuel TIface) VNil [] ;;
              ret (match r with (Some e, _) => (Some e, v) | (None, l) => (None, VList l) end)
          | inr _ =>
              r <- Bytes ;; ret (match r with inl e => (Some e, v) | inr b => (None, VBytes b) end)
          end
      end
  end.

(** The nesting of a type. *)
Fixpoint depth (t : rtype) : nat :=
  match t with
  | TSlice t | TPtr t | TPtrNil t => S (depth t)
  | TStruct ts => S (foldr Nat.max 0%nat (map depth ts))
  | _ => 1%nat
  end.

(** [DecodeBytes] into a value. *)
Definition DecodeBytes (b : bytes) (t : rtype) (v : rval) : outcome (option rlpErr * rval) :=
  match decode (depth t + length b) t v (NewStream b) with
  | (Ret (Some e, v), _) => Ret (Some e, v)
  | (Ret (None, v), s) => Ret (match st_r s with [] => None | _ => Some ErrMoreThanOneValue end, v)
  | (Panic, _) => Panic
  | (OutOfFuel, _) => OutOfFuel
  end.
