(* ===== verification/RlpEncoding.v ===== *)
(** * RlpEncoding: the buffer of an encoder

    The buffer of [rlp/encode.go] against the encoding of the yellow paper: numbers as
    bytes, the item that a value of a type stands for, and that the buffer is put
    together into the encoding of this item. *)
From S2P Require Import Prelude.
From S2P Require Import Rlp.

#[local] Set Warnings "-register-all".

(** ** Bytes *)

Lemma byteval_range c : 0 <= byteval c < 256.
Proof. unfold byteval. pose proof (Ascii.N_ascii_bounded c). lia. Qed.
Lemma byteval_tobyte z : byteval (tobyte z) = z mod 256.
Proof.
  unfold byteval, tobyte. pose proof (Z.mod_pos_bound z 256 ltac:(lia)).
  rewrite Ascii.N_ascii_embedding by lia. lia.
Qed.
Lemma tobyte_byteval c : tobyte (byteval c) = c.
Proof. unfold byteval, tobyte. pose proof (byteval_range c). unfold byteval in *. rewrite Z.mod_small, N2Z.id by lia. apply Ascii.ascii_N_embedding. Qed.
Lemma byteval_inj c d : byteval c = byteval d -> c = d.
Proof. intros H. by rewrite <- (tobyte_byteval c), H, tobyte_byteval. Qed.
Lemma byteval_small z : 0 <= z < 256 -> byteval (tobyte z) = z.
Proof. intros H. rewrite byteval_tobyte. by apply Z.mod_small. Qed.

Lemma pow256 n : 0 < 256 ^ Z.of_nat n.
Proof. by apply Z.pow_pos_nonneg; lia. Qed.
Lemma pow256_S n : 256 ^ Z.of_nat (S n) = 256 * 256 ^ Z.of_nat n.
Proof. by rewrite Nat2Z.inj_succ, Z.pow_succ_r by lia. Qed.

Lemma bigend_acc b acc : bigend b acc = acc * 256 ^ Z.of_nat (length b) + bigend b 0.
Proof.
  revert acc. induction b as [|c b IH]; intros acc; [cbn; lia|].
  cbn [bigend length]. rewrite IH, (IH (0 * 256 + _)), pow256_S. lia.
Qed.
Lemma bigend_cons c b : bigend (c :: b) 0 = byteval c * 256 ^ Z.of_nat (length b) + bigend b 0.
Proof. cbn [bigend]. rewrite bigend_acc. lia. Qed.
Lemma bigend_app b c : bigend (b ++ c) 0 = bigend b 0 * 256 ^ Z.of_nat (length c) + bigend c 0.
Proof.
  induction b as [|x b IH]; [done|]. cbn [app]. rewrite !bigend_cons, IH, length_app, Nat2Z.inj_add, Z.pow_add_r by lia. lia.
Qed.
Lemma bigend_range b : 0 <= bigend b 0 < 256 ^ Z.of_nat (length b).
Proof.
  induction b as [|c b IH]; [done|]. rewrite bigend_cons. cbn [length]. rewrite pow256_S.
  pose proof (byteval_range c). nia.
Qed.
Lemma bigend_inj_length b c : length b = length c -> bigend b 0 = bigend c 0 -> b = c.
Proof.
  revert c. induction b as [|x b IH]; intros [|y c]; try done. intros [= Hl]. rewrite !bigend_cons, Hl.
  pose proof (bigend_range b) as Hb. pose proof (bigend_range c) as Hc. rewrite Hl in Hb. intros E.
  assert (byteval x = byteval y) as Exy by nia. apply byteval_inj in Exy as ->. f_equal. apply IH; [done|]. lia.
Qed.

(** Numbers without leading zeros. *)
Definition minimal (b : bytes) : Prop := byteval (default Ascii.zero (head b)) <> 0.
Lemma minimal_range b : minimal b -> 256 ^ Z.of_nat (length b) <= 256 * bigend b 0.
Proof.
  destruct b as [|c b]; [intros H; by destruct H|]. unfold minimal. cbn [head default length]. rewrite bigend_cons, pow256_S.
  pose proof (byteval_range c). pose proof (bigend_range b). pose proof (pow256 (length b)). cbn. nia.
Qed.
Lemma minimal_inj b c : minimal b -> minimal c -> bigend b 0 = bigend c 0 -> b = c.
Proof.
  intros Hb Hc E. apply bigend_inj_length; [|done].
  pose proof (minimal_range b Hb). pose proof (minimal_range c Hc).
  pose proof (bigend_range b). pose proof (bigend_range c). rewrite E in *.
  destruct (Nat.lt_trichotomy (length b) (length c)) as [L|[L|L]]; [|done|]; exfalso.
  - assert (256 ^ Z.of_nat (S (length b)) <= 256 ^ Z.of_nat (length c)) by (apply Z.pow_le_mono_r; lia).
    rewrite pow256_S in *. lia.
  - assert (256 ^ Z.of_nat (S (length c)) <= 256 ^ Z.of_nat (length b)) by (apply Z.pow_le_mono_r; lia).
    rewrite pow256_S in *. lia.
Qed.

Lemma length_lowbytes n z : length (lowbytes n z) = n.
Proof. induction n; cbn; congruence. Qed.
Lemma bigend_lowbytes n z : bigend (lowbytes n z) 0 = z mod 256 ^ Z.of_nat n.
Proof.
  induction n as [|n IH]; [cbn; by rewrite Z.mod_1_r|]. cbn [lowbytes]. rewrite bigend_cons, length_lowbytes, IH, byteval_tobyte, pow256_S.
  rewrite Z.shiftr_div_pow2 by lia. replace (2 ^ (8 * Z.of_nat n)) with (256 ^ Z.of_nat n) by (rewrite Z.pow_mul_r by lia; done).
  pose proof (pow256 n). rewrite (Z.mul_comm 256). rewrite Z.rem_mul_r by lia. lia.
Qed.

Lemma minimal_lowbytes n z : 256 ^ Z.of_nat n <= z < 256 ^ Z.of_nat (S n) -> minimal (lowbytes (S n) z) /\ bigend (lowbytes (S n) z) 0 = z.
Proof.
  intros H. pose proof (pow256 n). split; [|rewrite bigend_lowbytes; apply Z.mod_small; lia].
  change (byteval (tobyte (Z.shiftr z (8 * Z.of_nat n))) <> 0). rewrite byteval_tobyte, Z.shiftr_div_pow2 by lia.
  replace (2 ^ (8 * Z.of_nat n)) with (256 ^ Z.of_nat n) by (rewrite Z.pow_mul_r by lia; done). rewrite pow256_S in H.
  assert (1 <= z / 256 ^ Z.of_nat n < 256) by (split; [apply Z.div_le_lower_bound|apply Z.div_lt_upper_bound]; lia).
  rewrite Z.mod_small; lia.
Qed.
Lemma putint_minimal i : 0 < i < two64 -> minimal (putint i) /\ bigend (putint i) 0 = i.
Proof.
  unfold two64. intros H. unfold putint. repeat case_match; repeat match goal with
    | H : (_ <? _) = true |- _ => apply Z.ltb_lt in H | H : (_ <? _) = false |- _ => apply Z.ltb_ge in H end;
    apply minimal_lowbytes; cbn in *; lia.
Qed.
Lemma intsizeLoop_spec fuel n i : (n < fuel)%nat -> 256 ^ Z.of_nat n <= i < 256 ^ Z.of_nat (S n) -> intsizeLoop fuel i = S n.
Proof.
  revert n i. induction fuel as [|fuel IH]; intros n i Hn Hi; [lia|]. cbn [intsizeLoop].
  rewrite Z.shiftr_div_pow2 by lia. change (2 ^ 8) with 256. destruct n as [|n].
  - rewrite Z.div_small by (cbn in Hi; lia). done.
  - rewrite !pow256_S in Hi. pose proof (pow256 n).
    assert (256 ^ Z.of_nat n <= i / 256 < 256 ^ Z.of_nat (S n)) as Hd.
    { rewrite pow256_S. split; [apply Z.div_le_lower_bound|apply Z.div_lt_upper_bound]; lia. }
    destruct (Z.eqb_spec (i / 256) 0); [lia|]. f_equal. by apply IH; [lia|].
Qed.
Lemma intsizeLoop_large fuel i : 256 ^ Z.of_nat fuel <= i -> intsizeLoop fuel i = fuel.
Proof.
  revert i. induction fuel as [|fuel IH]; intros i Hi; [done|]. cbn [intsizeLoop].
  rewrite Z.shiftr_div_pow2 by lia. change (2 ^ 8) with 256. rewrite pow256_S in Hi. pose proof (pow256 fuel).
  assert (256 ^ Z.of_nat fuel <= i / 256) by (apply Z.div_le_lower_bound; lia).
  destruct (Z.eqb_spec (i / 256) 0); [lia|]. f_equal. by apply IH.
Qed.
(** The size that [listEnd] counts is that of the header that [puthead] writes. *)
Lemma intsize_putint i : 0 < i -> intsize i = length (putint i).
Proof.
  intros H. unfold intsize, putint. repeat case_match; repeat match goal with
    | H : (_ <? _) = true |- _ => apply Z.ltb_lt in H | H : (_ <? _) = false |- _ => apply Z.ltb_ge in H end;
    rewrite length_lowbytes.
  8: { destruct (Z.lt_ge_cases i (2 ^ 64)); [|by apply intsizeLoop_large]. by apply intsizeLoop_spec; [lia|cbn in *; lia]. }
  all: apply intsizeLoop_spec; [lia|cbn in *; lia].
Qed.

Lemma bigBytesLoop_spec fuel i : 0 < i < 2 ^ Z.of_nat fuel -> minimal (bigBytesLoop fuel i) /\ bigend (bigBytesLoop fuel i) 0 = i.
Proof.
  revert i. induction fuel as [|fuel IH]; intros i Hi; [cbn in Hi; lia|]. cbn [bigBytesLoop].
  destruct (Z.leb_spec i 0); [lia|]. rewrite bigend_app. cbn [bigend length]. rewrite byteval_tobyte.
  pose proof (Z.div_mod i 256 ltac:(lia)). pose proof (Z.mod_pos_bound i 256 ltac:(lia)).
  destruct (Z.eq_dec (i / 256) 0) as [E|E].
  - assert (bigBytesLoop fuel (i / 256) = []) as -> by (rewrite E; by destruct fuel). rewrite E in *. split; [|cbn; lia].
    change (byteval (tobyte i) <> 0). rewrite byteval_tobyte. lia.
  - assert (0 < i / 256) by (pose proof (Z.div_pos i 256); lia).
    destruct (IH (i / 256)) as [Hm Hb].
    { split; [done|]. rewrite Nat2Z.inj_succ, Z.pow_succ_r in Hi by lia. apply Z.div_lt_upper_bound; lia. }
    split; [|cbn; lia]. unfold minimal in *. by destruct (bigBytesLoop fuel (i / 256)).
Qed.
Lemma bigBytes_spec i : 0 < i -> minimal (bigBytes i) /\ bigend (bigBytes i) 0 = i.
Proof.
  intros H. apply bigBytesLoop_spec. split; [done|]. rewrite Nat2Z.inj_succ, Z2Nat.id by apply Z.log2_nonneg.
  by apply Z.log2_spec.
Qed.
Lemma bigend_bigBytes i : 0 <= i -> bigend (bigBytes i) 0 = i.
Proof. intros H. destruct (Z.eq_dec i 0) as [->|]; [done|]. apply bigBytes_spec. lia. Qed.
Lemma putint_bigBytes i : 0 < i < two64 -> putint i = bigBytes i.
Proof.
  intros H. destruct (putint_minimal i H) as [H1 E1], (bigBytes_spec i ltac:(lia)) as [H2 E2]. apply minimal_inj; congruence.
Qed.
Lemma bigBytes_bigend b : minimal b -> bigBytes (bigend b 0) = b.
Proof.
  intros Hb. pose proof (minimal_range b Hb). pose proof (pow256 (length b)).
  destruct (bigBytes_spec (bigend b 0)) as [H1 E1]; [lia|]. by apply minimal_inj.
Qed.

(** ** The encoding of the yellow paper *)

Inductive item := IStr (b : bytes) | IList (l : list item).

Definition encString (b : bytes) : bytes :=
  match b with
  | [c] => if byteval c <? 128 then b else puthead 128 183 1 ++ b
  | _ => puthead 128 183 (Z.of_nat (length b)) ++ b
  end.
Definition encList (payload : bytes) : bytes := puthead 192 247 (Z.of_nat (length payload)) ++ payload.
Fixpoint enc (i : item) : bytes :=
  match i with
  | IStr b => encString b
  | IList l => encList ((fix encs (l : list item) : bytes := match l with [] => [] | i :: l => enc i ++ encs l end) l)
  end.
Definition encs (l : list item) : bytes := concat (map enc l).
Lemma enc_list l : enc (IList l) = encList (encs l).
Proof. cbn [enc]. f_equal. induction l as [|i l IH]; [done|]. unfold encs in *. cbn. by rewrite IH. Qed.

Lemma encs_cons i js : encs (i :: js) = enc i ++ encs js.
Proof. reflexivity. Qed.
Lemma encString_pos b : (1 <= length (encString b))%nat.
Proof.
  unfold encString. destruct b as [|c [|d b]]; [change (1 <= 1)%nat; lia| |rewrite length_app; cbn [length]; lia].
  destruct (byteval c <? 128); [cbn; lia|]. rewrite length_app. cbn [length]. lia.
Qed.
Lemma enc_pos i : (1 <= length (enc i))%nat.
Proof.
  destruct i as [b|l]; [apply encString_pos|]. rewrite enc_list. unfold encList. rewrite length_app.
  unfold puthead. case_match; cbn [length]; lia.
Qed.

(** The values of an unsigned integer of as many bits. *)
Definition uint_ok (maxbits i : Z) : Prop := 0 <= i < 2 ^ maxbits.
Definition bits_ok (bits : Z) : Prop := bits = 8 \/ bits = 16 \/ bits = 32 \/ bits = 64.
Lemma uint_ok_two64 bits i : bits_ok bits -> uint_ok bits i -> 0 <= i < two64.
Proof. unfold uint_ok, two64. intros [->|[->|[->| ->]]] H; cbn in H; lia. Qed.

(** The item that a value of a type stands for; a negative number stands for none. *)
Fixpoint nilItem (t : rtype) : item :=
  match t with
  | TArray _ | TUint _ | TBool | TBig | TBytes => IStr []
  | TStruct _ | TSlice _ | TIface => IList []
  | TPtr t | TPtrNil t => nilItem t
  end.
Inductive stands : rtype -> rval -> item -> Prop :=
| st_uint bits i : bits_ok bits -> uint_ok bits i -> stands (TUint bits) (VUint i) (IStr (bigBytes i))
| st_bool b : stands TBool (VBool b) (IStr (if b then [Ascii.one] else []))
| st_nobig : stands TBig (VBig None) (IStr [])
| st_big i : 0 <= i -> stands TBig (VBig (Some i)) (IStr (bigBytes i))
| st_bytes b : stands TBytes (VBytes b) (IStr b)
| st_array b n : length b = n -> stands (TArray n) (VBytes b) (IStr b)
| st_slice t l js : Forall2 (stands t) l js -> stands (TSlice t) (VList l) (IList js)
| st_struct ts l js : standsAll ts l js -> stands (TStruct ts) (VList l) (IList js)
| st_ptr t v i : stands t v i -> stands (TPtr t) (VPtr (Some v)) i
| st_nil t : stands (TPtr t) (VPtr None) (nilItem t)
| st_ptrnil t v i : stands t v i -> stands (TPtrNil t) (VPtr (Some v)) i
| st_nilnil t : stands (TPtrNil t) (VPtr None) (nilItem t)
| st_ibytes b : stands TIface (VBytes b) (IStr b)
| st_ilist l js : Forall2 (stands TIface) l js -> stands TIface (VList l) (IList js)
| st_inil : stands TIface VNil (IList [])
with standsAll : list rtype -> list rval -> list item -> Prop :=
| sa_nil : standsAll [] [] []
| sa_cons t ts v l i js : stands t v i -> standsAll ts l js -> standsAll (t :: ts) (v :: l) (i :: js).

(** ** The buffer holds the encoding *)

(** The headers of a piece of data of some length, from a position on. *)
Fixpoint heads_ok (pos len : nat) (heads : list (nat * nat)) : Prop :=
  match heads with [] => (pos <= len)%nat | (o, _) :: heads => (pos <= o)%nat /\ heads_ok o len heads end.
Lemma heads_ok_le pos len heads : heads_ok pos len heads -> (pos <= len)%nat.
Proof. revert pos. induction heads as [|[o n] heads IH]; intros pos; [done|]. intros [? ?%IH]. lia. Qed.

Definition shiftHeads (k : nat) : list (nat * nat) -> list (nat * nat) := map (fun e => ((k + e.1)%nat, e.2)).

Lemma merge_heads_shifted k heads pos a b :
  length a = k -> merge_heads (shiftHeads k heads) (k + pos) (a ++ b) = merge_heads heads pos b.
Proof.
  intros <-. revert pos. induction heads as [|[o n] heads IH]; intros pos; cbn [shiftHeads map merge_heads fst snd].
  - by rewrite <- drop_drop, drop_app_length.
  - rewrite <- drop_drop, drop_app_length. replace (length a + o - (length a + pos))%nat with (o - pos)%nat by lia.
    by rewrite <- IH.
Qed.
Lemma merge_heads_app h1 h2 pos a b :
  heads_ok pos (length a) h1 -> merge_heads (h1 ++ shiftHeads (length a) h2) pos (a ++ b) = merge_heads h1 pos a ++ merge_heads h2 0 b.
Proof.
  revert pos. induction h1 as [|[o n] h1 IH]; intros pos H; cbn [app merge_heads].
  - cbn in H. destruct h2 as [|[o n] h2]; cbn [shiftHeads map merge_heads fst snd].
    + rewrite drop_app_le by done. by rewrite drop_0.
    + rewrite drop_app_le, take_app by done. rewrite length_drop.
      replace (length a + o - pos)%nat with (length a - pos + (o - 0))%nat by lia. cbn [merge_heads].
      rewrite take_ge by (rewrite length_drop; lia). rewrite <- !app_assoc. f_equal. f_equal; [f_equal; lia|]. f_equal.
      by apply merge_heads_shifted.
  - destruct H as [Ho H]. pose proof (heads_ok_le _ _ _ H). rewrite <- !app_assoc. rewrite IH by done.
    rewrite drop_app_le by lia. by rewrite take_app_le by (rewrite length_drop; lia).
Qed.
Lemma heads_ok_app h1 h2 pos n m : heads_ok pos n h1 -> heads_ok 0 m h2 -> heads_ok pos (n + m) (h1 ++ shiftHeads n h2).
Proof.
  revert pos. induction h1 as [|[o k] h1 IH]; intros pos H1 H2; cbn [app].
  - cbn in H1. destruct h2 as [|[o k] h2]; cbn [shiftHeads map heads_ok fst snd]; [cbn in H2; lia|]. destruct H2 as [_ H2].
    split; [lia|]. clear -H2. revert o H2. induction h2 as [|[p q] h2 IH]; intros o H; cbn in *; [lia|].
    destruct H as [? H]. split; [lia|]. by apply IH.
  - destruct H1 as [? H1]. split; [done|]. by apply IH.
Qed.

(** [w'] is [w] with an encoding added. *)
Definition adds (w w' : encbuf) (b : bytes) : Prop :=
  exists d h, eb_str w' = eb_str w ++ d /\ eb_lheads w' = eb_lheads w ++ shiftHeads (length (eb_str w)) h /\
    heads_ok 0 (length d) h /\ merge_heads h 0 d = b /\ (eb_lhsize w' + length d = eb_lhsize w + length b)%nat.

Lemma adds_refl w : adds w w [].
Proof. exists [], []. rewrite !app_nil_r. cbn. split_and!; by try lia. Qed.
Lemma shiftHeads_app k h1 h2 : shiftHeads k (h1 ++ h2) = shiftHeads k h1 ++ shiftHeads k h2.
Proof. apply map_app. Qed.
Lemma shiftHeads_twice k m h : shiftHeads k (shiftHeads m h) = shiftHeads (k + m) h.
Proof. unfold shiftHeads. rewrite map_map. apply map_ext. intros [o n]. cbn. f_equal. lia. Qed.
Lemma adds_trans w1 w2 w3 b c : adds w1 w2 b -> adds w2 w3 c -> adds w1 w3 (b ++ c).
Proof.
  intros (d1&h1&S1&L1&O1&M1&N1) (d2&h2&S2&L2&O2&M2&N2). exists (d1 ++ d2), (h1 ++ shiftHeads (length d1) h2). split_and!.
  - by rewrite S2, S1, app_assoc.
  - by rewrite L2, L1, S1, shiftHeads_app, shiftHeads_twice, length_app, app_assoc.
  - rewrite length_app. by apply heads_ok_app.
  - by rewrite merge_heads_app, M1, M2.
  - rewrite !length_app. lia.
Qed.
Lemma adds_write b w : adds w (write b w) b.
Proof. exists b, []. cbn. split_and!; try lia; [done|by rewrite app_nil_r|by rewrite drop_0]. Qed.
Lemma write_write a b w : write b (write a w) = write (a ++ b) w.
Proof.
  change (mkEncbuf ((eb_str w ++ a) ++ b) (eb_lheads w) (eb_lhsize w) = mkEncbuf (eb_str w ++ a ++ b) (eb_lheads w) (eb_lhsize w)).
  by rewrite app_assoc.
Qed.

Lemma writeHeader size w : encodeStringHeader size w = write (puthead 128 183 (Z.of_nat size)) w.
Proof.
  unfold encodeStringHeader, puthead. destruct (Nat.ltb_spec size 56), (Z.ltb_spec (Z.of_nat size) 56); by try lia.
Qed.
Lemma adds_string b w : adds w (encodeString b w) (encString b).
Proof.
  unfold encodeString, encString. destruct b as [|c [|d b]].
  - rewrite writeHeader, write_write, app_nil_r. apply adds_write.
  - rewrite writeHeader, write_write.
    destruct (Z.leb_spec (byteval c) 127), (Z.ltb_spec (byteval c) 128); try lia; apply adds_write.
  - rewrite writeHeader, write_write. apply adds_write.
Qed.
Lemma encString_nil : encString [] = [tobyte 128].
Proof. reflexivity. Qed.
Lemma writeUint_string i w : 0 <= i < two64 -> writeUint i w = encodeString (bigBytes i) w.
Proof.
  intros H. unfold writeUint. destruct (Z.eqb_spec i 0) as [->|]; [symmetry; exact (write_write [tobyte 128] [] w)|].
  assert (0 < i) as Hp by lia. pose proof (bigBytes_spec i Hp) as [Hm Hb]. pose proof (minimal_range _ Hm) as Hl. rewrite Hb in Hl.
  destruct (Z.ltb_spec i 128).
  - assert (bigBytes i = [tobyte i]) as ->.
    { apply minimal_inj; [done| |rewrite Hb; cbn [bigend]; rewrite byteval_small by lia; lia].
      unfold minimal. change (byteval (tobyte i) <> 0). rewrite byteval_small; lia. }
    unfold encodeString. rewrite byteval_small by lia. by destruct (Z.leb_spec i 127); [|lia].
  - rewrite putint_bigBytes by (unfold two64 in *; lia). unfold encodeString.
    pose proof (bigend_range (bigBytes i)) as Hr. rewrite Hb in Hr.
    assert (length (bigBytes i) <= 8)%nat.
    { destruct (Nat.leb_spec (length (bigBytes i)) 8); [done|].
      assert (256 ^ 9 <= 256 ^ Z.of_nat (length (bigBytes i))) by (apply Z.pow_le_mono_r; lia). unfold two64 in *. cbn in *. lia. }
    destruct (bigBytes i) as [|c [|d b]] eqn:E.
    + cbn in Hb. lia.
    + cbn in Hb. destruct (Z.leb_spec (byteval c) 127); [lia|]. by rewrite writeHeader, write_write.
    + rewrite writeHeader, write_write. unfold puthead. destruct (Z.ltb_spec (Z.of_nat (length (c :: d :: b))) 56); [done|lia].
Qed.

Lemma length_puthead small large n : length (puthead small large (Z.of_nat n)) = (if (n <? 56)%nat then 1 else S (length (putint (Z.of_nat n))))%nat.
Proof. unfold puthead. destruct (Z.ltb_spec (Z.of_nat n) 56), (Nat.ltb_spec n 56); by try lia. Qed.

(** Between [list] and [listEnd]. *)
Lemma adds_list body w w' payload :
  (forall w w', body w = Some w' -> adds w w' payload) -> writeList body w = Some w' -> adds w w' (encList payload).
Proof.
  intros Hb. unfold writeList, eb_list. destruct (body _) as [w1|] eqn:E; [|done]. intros [= <-].
  apply Hb in E as (d&h&S1&L1&O1&M1&N1). cbn [eb_str eb_lheads eb_lhsize upd] in *.
  set (lh := length (eb_lheads w)) in *. set (old := (length (eb_str w), eb_lhsize w)) in *.
  assert (eb_lheads w1 !! lh = Some old) as Eh by (rewrite L1, <- app_assoc; cbn [app]; by rewrite list_lookup_middle).
  unfold listEnd. rewrite Eh. unfold old.
  assert (eb_size w1 - length (eb_str w) - eb_lhsize w = length payload)%nat as ->.
  { unfold eb_size. rewrite S1, length_app. lia. }
  exists d, ((0%nat, length payload) :: h).
  assert (<[lh := (length (eb_str w), length payload)]> (eb_lheads w1) =
    eb_lheads w ++ (length (eb_str w), length payload) :: shiftHeads (length (eb_str w)) h) as Ei.
  { rewrite L1, <- app_assoc. cbn [app]. by rewrite insert_app_r_alt, Nat.sub_diag by lia. }
  assert (merge_heads ((0%nat, length payload) :: h) 0 d = encList payload) as Em by (cbn [merge_heads]; by rewrite M1).
  assert (length (encList payload) = length payload + (if (length payload <? 56)%nat then 1 else 1 + intsize (Z.of_nat (length payload))))%nat as El.
  { unfold encList. rewrite length_app, length_puthead. destruct (Nat.ltb_spec (length payload) 56); [lia|]. rewrite intsize_putint; lia. }
  rewrite El. cbn [shiftHeads map fst snd]. rewrite Nat.add_0_r. fold (shiftHeads (length (eb_str w)) h).
  destruct (length payload <? 56)%nat; cbn [eb_str eb_lheads eb_lhsize upd]; split_and!; try done; try lia; by split; [lia|].
Qed.

(** Induction over values. *)
Section RvalInd.
Context (P : rval -> Prop) (Huint : forall i, P (VUint i)) (Hbool : forall b, P (VBool b)) (Hbig : forall i, P (VBig i))
  (Hbytes : forall b, P (VBytes b)) (Hlist : forall l, Forall P l -> P (VList l))
  (Hptr : forall p, from_option P True p -> P (VPtr p)) (Hnil : P VNil).
Fixpoint rval_nested (v : rval) : P v :=
  match v with
  | VUint i => Huint i
  | VBool b => Hbool b
  | VBig i => Hbig i
  | VBytes b => Hbytes b
  | VList l =>
      Hlist l ((fix all (l : list rval) : Forall P l :=
        match l with [] => Forall_nil_2 P | v :: l => Forall_cons_2 P v l (rval_nested v) (all l) end) l)
  | VPtr None => Hptr None I
  | VPtr (Some v) => Hptr (Some v) (rval_nested v)
  | VNil => Hnil
  end.
End RvalInd.

Definition writeElems (t : rtype) := fix elems (l : list rval) (w : encbuf) : option encbuf :=
  match l with
  | [] => Some w
  | v :: l => match writer t v w with None => None | Some w => elems l w end
  end.
Fixpoint writeFields (ts : list rtype) (l : list rval) (w : encbuf) {struct l} : option encbuf :=
  match l, ts with
  | [], [] => Some w
  | v :: l, t :: ts => match writer t v w with None => None | Some w => writeFields ts l w end
  | _, _ => None
  end.
Lemma writer_struct ts l w : writer (TStruct ts) (VList l) w = writeList (writeFields ts l) w.
Proof. reflexivity. Qed.

(** [writes f b]: whatever the buffer holds, [f] adds [b] to it. *)
Definition writes (f : encbuf -> option encbuf) (b : bytes) : Prop := forall w, exists w', f w = Some w' /\ adds w w' b.

Lemma writes_list f b : writes f b -> writes (writeList f) (encList b).
Proof.
  intros Hf w. destruct (writeList f w) as [w'|] eqn:E.
  - exists w'. split; [done|]. eapply adds_list; [|exact E]. intros w1 w2 E1. destruct (Hf w1) as (w3&E3&H3). congruence.
  - exfalso. unfold writeList, eb_list in E. destruct (Hf (w <| eb_lheads ::= fun l => l ++ [(length (eb_str w), eb_lhsize w)] |>)) as (w3&E3&_).
    by rewrite E3 in E.
Qed.
Lemma writes_bytes b : writes (fun w => Some (write b w)) b.
Proof. intros w. eexists. split; [done|]. apply adds_write. Qed.
Lemma writes_string b : writes (fun w => Some (encodeString b w)) (enc (IStr b)).
Proof. intros w. eexists. split; [done|]. apply adds_string. Qed.
Lemma writes_nothing : writes Some [].
Proof. intros w. eexists. split; [done|]. apply adds_refl. Qed.
Lemma writes_nil t : writes (writeNil t) (enc (nilItem t)).
Proof.
  induction t; cbn [writeNil nilItem]; try exact (writes_bytes [tobyte 128]);
    [exact (writes_list _ _ writes_nothing)..|exact IHt|exact IHt|exact (writes_bytes [tobyte 192])].
Qed.

Lemma writes_elems t l js :
  Forall (fun v => forall t i, stands t v i -> writes (writer t v) (enc i)) l -> Forall2 (stands t) l js ->
  writes (writeElems t l) (encs js).
Proof.
  intros Hl H. induction H as [|v i l js Hv _ IH]; [exact writes_nothing|]. apply Forall_cons in Hl as [Hw Hl].
  intros w. cbn [writeElems]. destruct (Hw t i Hv w) as (w1&E1&H1). rewrite E1. destruct (IH Hl w1) as (w2&E2&H2).
  exists w2. split; [exact E2|]. by eapply adds_trans.
Qed.
Lemma writes_fields ts l js :
  Forall (fun v => forall t i, stands t v i -> writes (writer t v) (enc i)) l -> standsAll ts l js ->
  writes (writeFields ts l) (encs js).
Proof.
  intros Hl H. induction H as [|t ts v l i js Hv _ IH]; [exact writes_nothing|]. apply Forall_cons in Hl as [Hw Hl].
  intros w. cbn [writeFields]. destruct (Hw t i Hv w) as (w1&E1&H1). rewrite E1. destruct (IH Hl w1) as (w2&E2&H2).
  exists w2. split; [exact E2|]. by eapply adds_trans.
Qed.

Lemma writer_writes v : forall t i, stands t v i -> writes (writer t v) (enc i).
Proof.
  induction v as [n|b|n|b|l IH|[v|] IH|] using rval_nested; intros t it H; inversion H; subst; cbn [writer].
  - intros w. rewrite writeUint_string by (by eapply uint_ok_two64). apply writes_string.
  - destruct b; exact (writes_bytes _).
  - exact (writes_bytes _).
  - intros w. unfold writeBigInt. destruct (Z.ltb_spec i 0); [lia|]. destruct (Z.eqb_spec i 0) as [->|]; [apply (writes_bytes [tobyte 128])|].
    apply writes_string.
  - apply writes_string.
  - apply writes_string.
  - apply writes_string.
  - rewrite enc_list. apply writes_list. by apply writes_elems.
  - rewrite enc_list. apply writes_list. by apply writes_fields.
  - rewrite enc_list. apply writes_list. by apply (writes_elems TIface).
  - by apply IH.
  - by apply IH.
  - apply writes_nil.
  - apply writes_nil.
  - exact (writes_bytes _).
Qed.

(** C10: The buffer of an encoder is put together into the encoding of the item that the
    value stands for (a boolean among them, which the doc comment of [Encode] says is not
    supported), and has the length that [toBytes] makes room for. *)
Theorem encode_spec t v i : stands t v i ->
  exists w, writer t v emptyBuf = Some w /\ toBytes w = enc i /\ EncodeToBytes t v = Some (enc i) /\ eb_size w = length (enc i).
Proof.
  intros H. destruct (writer_writes v t i H emptyBuf) as (w&E&d&h&S1&L1&O1&M1&N1). exists w. cbn in S1, L1, N1.
  assert (toBytes w = enc i) as Et.
  { unfold toBytes. rewrite S1, L1. rewrite <- M1. by rewrite <- (merge_heads_shifted 0 h 0 [] d). }
  split_and!; [done|done|unfold EncodeToBytes; rewrite E; cbn; by rewrite Et|].
  unfold eb_size. rewrite S1. lia.
Qed.
