(* ===== verification/RlpStream.v ===== *)
(** * RlpStream: reading a stream

    What the reads of [rlp/decode.go] do with a stream whose lists are nested within
    each other and within the input: the kind ahead, strings, integers, booleans, and
    the two ends of a list, each against the encoding of what it returns. *)
From S2P Require Import Prelude.
From S2P Require Import Rlp.
From S2P Require Import RlpEncoding.

#[local] Set Warnings "-register-all".

(** ** Reading a stream *)

(** The bytes that may be read: those of the innermost list. *)
Definition avail (s : Stream) : Z :=
  match st_stack s with [] => Z.of_nat (length (st_r s)) | (pos, size) :: _ => size - pos end.
Definition atEnd (s : Stream) : bool := match st_stack s with (pos, size) :: _ => pos =? size | [] => false end.

(** The lists are nested within each other and within the input, which is what the
    limit counts.  What has been read of the lists inside of a list is not in its
    position yet. *)
Fixpoint stack_ok (used outer : Z) (stack : list (Z * Z)) : Prop :=
  match stack with
  | [] => True
  | (pos, size) :: stack =>
      0 <= pos /\ pos + used <= size < two64 /\ size - pos - used <= outer /\
      (match stack with [] => True | (p, z) :: _ => size <= z - p end) /\ stack_ok (pos + used) outer stack
  end.
Record stream_ok (s : Stream) : Prop := {
  so_limit : st_remaining s = Z.of_nat (length (st_r s));
  so_small : Z.of_nat (length (st_r s)) < two64;
  so_stack : stack_ok 0 (Z.of_nat (length (st_r s))) (st_stack s);
}.

Lemma avail_pos s : stream_ok s -> 0 <= avail s <= Z.of_nat (length (st_r s)) /\ avail s < two64.
Proof.
  intros [_ Hm Hk]. unfold avail. destruct (st_stack s) as [|[pos size] stack]; [lia|]. cbn in Hk. lia.
Qed.

Definition bump (n : Z) (stack : list (Z * Z)) : list (Z * Z) :=
  match stack with [] => [] | (pos, size) :: stack => (pos + n, size) :: stack end.
(** The stream after bytes have been read. *)
Definition adv (n : Z) (s : Stream) : Stream :=
  mkStream (drop (Z.to_nat n) (st_r s)) (st_remaining s - n) None (st_size s) (st_byteval s) (st_kinderr s) (bump n (st_stack s)).

Lemma stack_ok_read used outer n stack : 0 <= n <= outer -> stack_ok used outer stack ->
  (match stack with [] => True | (p, z) :: _ => n + used <= z - p end) -> stack_ok (used + n) (outer - n) stack.
Proof.
  revert used. induction stack as [|[pos size] stack IH]; intros used Hn; [done|]. cbn [stack_ok].
  intros (?&?&?&Hz&Hs) Hf. split_and!; try done; try lia. replace (pos + (used + n)) with (pos + used + n) by lia.
  apply IH; [done|done|]. destruct stack as [|[p z] stack]; [done|]. lia.
Qed.
Lemma adv_ok n s : stream_ok s -> 0 <= n <= avail s -> stream_ok (adv n s).
Proof.
  intros Hs Hn. pose proof (avail_pos s Hs) as [Ha Hb]. destruct Hs as [Hl Hm Hk].
  assert (Z.of_nat (length (drop (Z.to_nat n) (st_r s))) = Z.of_nat (length (st_r s)) - n) as El by (rewrite length_drop; lia).
  split; cbn [adv st_r st_remaining st_stack]; rewrite El; [lia..|].
  unfold avail in Hn. destruct (st_stack s) as [|[pos size] stack]; [done|]. cbn [bump stack_ok] in *.
  destruct Hk as (?&?&?&Hz&Hs). split_and!; try done; try lia. replace (pos + n + 0) with (pos + 0 + n) by lia.
  apply stack_ok_read; [lia|done|]. destruct stack as [|[p z] stack]; [done|lia].
Qed.
Lemma avail_adv n s : 0 <= n <= Z.of_nat (length (st_r s)) -> avail (adv n s) = avail s - n.
Proof. unfold avail. cbn [adv st_r st_stack]. destruct (st_stack s) as [|[pos size] stack]; cbn [bump]; [rewrite length_drop|]; lia. Qed.

(** An error that is not the end of a list. *)
Definition fails {A} (r : outcome (rlpErr + A) * Stream) : Prop := exists e s', r = (Ret (inl e), s') /\ e <> EOL.

Lemma tryR_ok {A B} (m : M Stream (rlpErr + A)) (k : A -> M Stream (rlpErr + B)) s a s' :
  m s = (Ret (inr a), s') -> tryR m k s = k a s'.
Proof. intros E. unfold tryR. by rewrite (bind_eq _ _ _ _ _ E). Qed.
Lemma tryR_fails {A B} (m : M Stream (rlpErr + A)) (k : A -> M Stream (rlpErr + B)) s : fails (m s) -> fails (tryR m k s).
Proof. intros (e&s'&E&He). exists e, s'. split; [|done]. unfold tryR. by rewrite (bind_eq _ _ _ _ _ E). Qed.

Definition took (n : Z) (s : Stream) : Stream :=
  mkStream (st_r s) (st_remaining s - n) None (st_size s) (st_byteval s) (st_kinderr s) (bump n (st_stack s)).
Lemma willRead_ok n s : stream_ok s -> 0 <= n <= avail s -> willRead n s = (Ret (inr tt), took n s).
Proof.
  intros Hs Hn. pose proof (avail_pos s Hs) as Ha. destruct Hs as [Hl Hm Hk]. destruct s as [r rem k sz bv ke stack].
  unfold avail in *. cbn in *. unfold willRead. destruct stack as [|[pos size] stack].
  - cbn. destruct (Z.ltb_spec rem n); [lia|]. done.
  - cbn in Hk. cbn. rewrite (u64_small (size - pos)) by (unfold is_u64; lia). destruct (Z.ltb_spec (size - pos) n); [lia|].
    cbn. destruct (Z.ltb_spec rem n); [lia|]. cbn. rewrite u64_small by (unfold is_u64; lia). done.
Qed.
Lemma willRead_fails n s : stream_ok s -> avail s < n -> fails (willRead n s).
Proof.
  intros Hs Hn. pose proof (avail_pos s Hs) as Ha. destruct Hs as [Hl Hm Hk]. destruct s as [r rem k sz bv ke stack].
  unfold avail in *. cbn in *. unfold willRead. destruct stack as [|[pos size] stack].
  - cbn. destruct (Z.ltb_spec rem n); [|lia]. by do 2 eexists.
  - cbn in Hk. cbn. rewrite (u64_small (size - pos)) by (unfold is_u64; lia). destruct (Z.ltb_spec (size - pos) n); [|lia].
    by do 2 eexists.
Qed.

Lemma readByte_ok s c r : stream_ok s -> st_r s = c :: r -> 1 <= avail s -> readByte s = (Ret (inr c), adv 1 s).
Proof.
  intros Hs Er Ha. unfold readByte. rewrite (tryR_ok _ _ _ _ _ (willRead_ok 1 s Hs ltac:(lia))), bind_get.
  cbn [took st_r]. rewrite Er. unfold bind, modify, ret, adv. rewrite Er. done.
Qed.
Lemma readByte_fails s : stream_ok s -> avail s < 1 -> fails (readByte s).
Proof. intros Hs Ha. apply tryR_fails, willRead_fails; [done|lia]. Qed.
Lemma readFull_ok n s : stream_ok s -> 0 <= n <= avail s ->
  readFull n s = (Ret (inr (take (Z.to_nat n) (st_r s))), adv n s) /\ Z.of_nat (length (take (Z.to_nat n) (st_r s))) = n.
Proof.
  intros Hs Hn. pose proof (avail_pos s Hs) as Ha.
  assert (Z.of_nat (length (take (Z.to_nat n) (st_r s))) = n) as El by (rewrite length_take; lia). split; [|done].
  unfold readFull. rewrite (tryR_ok _ _ _ _ _ (willRead_ok n s Hs Hn)), bind_get, bind_modify. cbn [took st_r].
  destruct (Z.ltb_spec (Z.of_nat (length (take (Z.to_nat n) (st_r s)))) n); [lia|]. done.
Qed.
Lemma readFull_fails n s : stream_ok s -> avail s < n -> fails (readFull n s).
Proof. intros Hs Ha. by apply tryR_fails, willRead_fails. Qed.

Lemma adv_adv n m s : 0 <= n -> 0 <= m -> adv m (adv n s) = adv (n + m) s.
Proof.
  intros Hn Hm. unfold adv. cbn. rewrite drop_drop, <- Z2Nat.inj_add by lia. f_equal; [lia|].
  destruct (st_stack s) as [|[pos size] stack]; [done|]. cbn. do 2 f_equal. lia.
Qed.

Lemma readUint_ok n b s : stream_ok s -> 1 <= n <= avail s -> b = take (Z.to_nat n) (st_r s) -> (1 < n -> minimal b) ->
  readUint n s = (Ret (inr (bigend b 0)), adv n s).
Proof.
  intros Hs Hn Eb Hm. pose proof (avail_pos s Hs) as Ha. unfold readUint. destruct (Z.eqb_spec n 0); [lia|].
  destruct (Z.eqb_spec n 1) as [->|].
  - destruct (st_r s) as [|c r] eqn:Er; [cbn in Ha; lia|]. rewrite (tryR_ok _ _ _ _ _ (readByte_ok s c r Hs Er ltac:(lia))).
    rewrite Eb. done.
  - destruct (readFull_ok n s Hs ltac:(lia)) as [E _]. rewrite (tryR_ok _ _ _ _ _ E), <- Eb.
    destruct (Z.eqb_spec (byteval (default Ascii.zero (head b))) 0) as [Ez|]; [|done]. by destruct (Hm ltac:(lia)).
Qed.
Lemma readUint_cases n s : stream_ok s -> 1 <= n ->
  fails (readUint n s) \/
  n <= avail s /\ (1 < n -> minimal (take (Z.to_nat n) (st_r s))).
Proof.
  intros Hs Hn. destruct (Z.lt_ge_cases (avail s) n) as [Hl|Hl].
  - left. unfold readUint. destruct (Z.eqb_spec n 0); [lia|].
    destruct (Z.eqb_spec n 1) as [->|]; apply tryR_fails; [apply readByte_fails|apply readFull_fails]; done || lia.
  - destruct (Z.eq_dec n 1) as [->|]; [right; lia|].
    destruct (Z.eq_dec (byteval (default Ascii.zero (head (take (Z.to_nat n) (st_r s))))) 0) as [E|E]; [left|right; by split].
    unfold readUint. destruct (Z.eqb_spec n 0); [lia|]. destruct (Z.eqb_spec n 1); [lia|].
    destruct (readFull_ok n s Hs ltac:(lia)) as [Ef _]. rewrite (tryR_ok _ _ _ _ _ Ef). rewrite E. cbn. by do 2 eexists.
Qed.

(** The header of a value: its bytes, the kind and size it announces, and the byte
    that a single byte stands for. *)
Inductive header : bytes -> Kind -> Z -> Ascii.ascii -> Prop :=
| hd_byte c : byteval c < 128 -> header [c] Byte 0 c
| hd_string n : 0 <= n < two64 -> header (puthead 128 183 n) String_ n Ascii.zero
| hd_list n : 0 <= n < two64 -> header (puthead 192 247 n) List_ n Ascii.zero.

Lemma puthead_small small large n : n < 56 -> puthead small large n = [tobyte (small + n)].
Proof. intros H. unfold puthead. by destruct (Z.ltb_spec n 56); [|lia]. Qed.
Lemma puthead_large small large n : 56 <= n -> puthead small large n = tobyte (large + Z.of_nat (length (putint n))) :: putint n.
Proof. intros H. unfold puthead. by destruct (Z.ltb_spec n 56); [lia|]. Qed.
Lemma putint_length n : (1 <= length (putint n) <= 8)%nat.
Proof. unfold putint. repeat case_match; cbn; lia. Qed.
Lemma header_pos hd k n c : header hd k n c -> (1 <= length hd)%nat.
Proof. destruct 1; [cbn; lia|..]; unfold puthead; case_match; cbn; lia. Qed.

Definition setByte (c : Ascii.ascii) (s : Stream) : Stream := s <| st_byteval := c |>.
Lemma setByte_ok c s : stream_ok s -> stream_ok (setByte c s).
Proof. by intros [? ? ?]. Qed.
Lemma adv_setByte n c s : adv n (setByte c s) = setByte c (adv n s).
Proof. reflexivity. Qed.

(** The size after the first byte of a long header. *)
Definition readSize (kind : Kind) (k : Z) : M Stream (rlpErr + Kind * Z) :=
  size <-! readUint k ;; if size <? 56 then ret (inl ErrCanonSize) else ret (inr (kind, size)).
Lemma readSize_ok kind n s c r k : stream_ok s -> 56 <= n < two64 -> st_r s = c :: putint n ++ r ->
  k = Z.of_nat (length (putint n)) -> 1 + k <= avail s ->
  readSize kind k (setByte Ascii.zero (adv 1 s)) = (Ret (inr (kind, n)), setByte Ascii.zero (adv (1 + k) s)).
Proof.
  intros Hs Hn Er -> Ha. destruct (putint_minimal n ltac:(lia)) as [Hm Hb]. pose proof (putint_length n). pose proof (avail_pos s Hs).
  pose proof (adv_ok 1 s Hs ltac:(lia)) as H1. pose proof (avail_adv 1 s ltac:(lia)) as Ha1.
  assert (readUint (Z.of_nat (length (putint n))) (setByte Ascii.zero (adv 1 s)) =
    (Ret (inr n), setByte Ascii.zero (adv (1 + Z.of_nat (length (putint n))) s))) as E.
  { rewrite (readUint_ok _ (putint n)); [by rewrite Hb, adv_setByte, adv_adv by lia|by apply setByte_ok| | |done].
    - change (avail (setByte Ascii.zero (adv 1 s))) with (avail (adv 1 s)). lia.
    - change (putint n = take (Z.to_nat (Z.of_nat (length (putint n)))) (drop 1 (st_r s))).
      rewrite Er, Nat2Z.id. cbn [drop]. by rewrite drop_0, take_app_length. }
  unfold readSize. rewrite (tryR_ok _ _ _ _ _ E). by destruct (Z.ltb_spec n 56); [lia|].
Qed.
Lemma readSize_cases kind s c k : stream_ok s -> head (st_r s) = Some c -> 1 <= k <= 8 -> 1 <= avail s ->
  fails (readSize kind k (setByte Ascii.zero (adv 1 s))) \/
  exists n r, 56 <= n < two64 /\ st_r s = c :: putint n ++ r /\ k = Z.of_nat (length (putint n)) /\ 1 + k <= avail s.
Proof.
  intros Hs Ec Hk Ha. set (s1 := setByte Ascii.zero (adv 1 s)). pose proof (avail_pos s Hs) as Hp.
  assert (stream_ok s1) as Hs1 by (apply setByte_ok, adv_ok; [done|lia]).
  destruct (st_r s) as [|c' r] eqn:Er; [done|]. injection Ec as ->.
  assert (st_r s1 = r) as Er1 by (cbn; by rewrite Er).
  assert (avail s1 = avail s - 1) as Ha1 by (change (avail s1) with (avail (adv 1 s)); apply avail_adv; rewrite Er; cbn; lia).
  destruct (readUint_cases k s1 Hs1 ltac:(lia)) as [?|[Hr Hm]]; [left; by apply tryR_fails|]. rewrite Er1 in Hm.
  set (b := take (Z.to_nat k) r) in *. pose proof (readUint_ok k b s1 Hs1 ltac:(lia) ltac:(by rewrite Er1) Hm) as E.
  assert (Z.of_nat (length b) = k) as Hl by (unfold b; rewrite length_take; pose proof (avail_pos s1 Hs1); rewrite Er1 in *; lia).
  destruct (Z.lt_ge_cases (bigend b 0) 56) as [Hn|Hn].
  { left. unfold readSize. rewrite (tryR_ok _ _ _ _ _ E). destruct (Z.ltb_spec (bigend b 0) 56); [|lia]. by do 2 eexists. }
  right. pose proof (bigend_range b) as Hb. rewrite Hl in Hb.
  assert (256 ^ k <= 256 ^ 8) as H8 by (apply Z.pow_le_mono_r; lia). change (256 ^ 8) with two64 in H8.
  destruct (putint_minimal (bigend b 0) ltac:(lia)) as [Hm2 Hb2].
  assert (putint (bigend b 0) = b) as Ep.
  { apply minimal_inj; [done| |done]. destruct (Z.eq_dec k 1) as [->|]; [|apply Hm; lia].
    destruct b as [|d [|d' b]]; cbn in Hl; try lia. unfold minimal. cbn in Hn |- *. lia. }
  exists (bigend b 0), (drop (Z.to_nat k) r). rewrite Ep. split_and!; [lia..|by unfold b; rewrite take_drop|lia|lia].
Qed.

Lemma readKind_ok s hd k n c r : stream_ok s -> header hd k n c -> st_r s = hd ++ r -> Z.of_nat (length hd) <= avail s ->
  readKind s = (Ret (inr (k, n)), setByte c (adv (Z.of_nat (length hd)) s)).
Proof.
  intros Hs Hh Er Ha. pose proof (header_pos _ _ _ _ Hh) as Hp. destruct hd as [|b hd]; [cbn in Hp; lia|].
  unfold readKind. rewrite (bind_eq _ _ _ _ _ (readByte_ok s b (hd ++ r) Hs Er ltac:(cbn in Ha; lia))), bind_modify.
  fold (setByte Ascii.zero (adv 1 s)). cbn [length] in *. inversion Hh as [c' Hc E1|n' Hn E1|n' Hn E1]; subst.
  - by destruct (Z.ltb_spec (byteval c) 128); [|lia].
  - destruct (Z.lt_ge_cases n 56).
    + rewrite puthead_small in E1 by done. injection E1 as <- <-. rewrite byteval_small by lia.
      destruct (Z.ltb_spec (128 + n) 128); [lia|]. destruct (Z.ltb_spec (128 + n) 184); [|lia].
      by replace (128 + n - 128) with n by lia.
    + rewrite puthead_large in E1 by done. injection E1 as <- <-. pose proof (putint_length n). rewrite byteval_small by lia.
      repeat match goal with |- context [?a <? ?b] => destruct (Z.ltb_spec a b); [lia|] | |- context [?a <? ?b] => destruct (Z.ltb_spec a b); [|lia] end.
      fold (readSize String_ (183 + Z.of_nat (length (putint n)) - 183)).
      rewrite (readSize_ok String_ n s _ r) by (done || lia). do 3 f_equal. lia.
  - destruct (Z.lt_ge_cases n 56).
    + rewrite puthead_small in E1 by done. injection E1 as <- <-. rewrite byteval_small by lia.
      repeat match goal with |- context [?a <? ?b] => destruct (Z.ltb_spec a b); [lia|] | |- context [?a <? ?b] => destruct (Z.ltb_spec a b); [|lia] end.
      by replace (192 + n - 192) with n by lia.
    + rewrite puthead_large in E1 by done. injection E1 as <- <-. pose proof (putint_length n). rewrite byteval_small by lia.
      repeat match goal with |- context [?a <? ?b] => destruct (Z.ltb_spec a b); [lia|] end.
      fold (readSize List_ (247 + Z.of_nat (length (putint n)) - 247)).
      rewrite (readSize_ok List_ n s _ r) by (done || lia). do 3 f_equal. lia.
Qed.

(** What is read as a header is one, written as [puthead] writes it. *)
Lemma readKind_cases s : stream_ok s ->
  fails (readKind s) \/ exists hd k n c r, header hd k n c /\ st_r s = hd ++ r /\ Z.of_nat (length hd) <= avail s.
Proof.
  intros Hs. pose proof (avail_pos s Hs) as Hp. destruct (Z.lt_ge_cases (avail s) 1) as [Ha|Ha].
  { left. destruct (readByte_fails s Hs Ha) as (e&s'&E&He). unfold readKind. rewrite (bind_eq _ _ _ _ _ E), bind_get.
    do 2 eexists. split; [done|]. by case_match. }
  destruct (st_r s) as [|b r] eqn:Er; [cbn in Hp; lia|]. pose proof (byteval_range b) as Hb.
  assert (forall kind k lo, 1 <= k <= 8 -> byteval b = lo + k -> readKind s = readSize kind k (setByte Ascii.zero (adv 1 s)) ->
    (forall n, 56 <= n < two64 -> Z.of_nat (length (putint n)) = k -> header (b :: putint n) kind n Ascii.zero) ->
    fails (readKind s) \/ exists hd k n c r', header hd k n c /\ b :: r = hd ++ r' /\ Z.of_nat (length hd) <= avail s) as Hlong.
  { intros kind k lo Hk Eb E Hh. destruct (readSize_cases kind s b k Hs ltac:(by rewrite Er) Hk Ha) as [?|(n&r'&Hn&Er'&El&Hl)]; [left; by rewrite E|].
    right. exists (b :: putint n), kind, n, Ascii.zero, r'. rewrite Er in Er'. split_and!; [by apply Hh|done|]. cbn [length]. lia. }
  assert (forall kind n c, header [b] kind n c -> exists hd k n c r', header hd k n c /\ b :: r = hd ++ r' /\ Z.of_nat (length hd) <= avail s) as Hshort.
  { intros kind n c Hh. exists [b], kind, n, c, r. split_and!; [done|done|cbn; lia]. }
  pose proof (readByte_ok s b r Hs Er Ha) as E1.
  assert (readKind s = _) as Ek by (unfold readKind; rewrite (bind_eq _ _ _ _ _ E1), bind_modify; fold (setByte Ascii.zero (adv 1 s)); reflexivity).
  destruct (Z.ltb_spec (byteval b) 128); [right; by eapply Hshort, hd_byte|].
  destruct (Z.ltb_spec (byteval b) 184).
  { right. eapply Hshort. assert (puthead 128 183 (byteval b - 128) = [b]) as <-; [|apply hd_string; unfold two64; lia].
    rewrite puthead_small by lia. replace (128 + (byteval b - 128)) with (byteval b) by lia. by rewrite tobyte_byteval. }
  destruct (Z.ltb_spec (byteval b) 192).
  { apply (Hlong String_ (byteval b - 183) 183); [lia..|done|]. intros n Hn El.
    assert (puthead 128 183 n = b :: putint n) as <-; [|apply hd_string; lia].
    rewrite puthead_large, El by lia. replace (183 + (byteval b - 183)) with (byteval b) by lia. by rewrite tobyte_byteval. }
  destruct (Z.ltb_spec (byteval b) 248).
  { right. eapply Hshort. assert (puthead 192 247 (byteval b - 192) = [b]) as <-; [|apply hd_list; unfold two64; lia].
    rewrite puthead_small by lia. replace (192 + (byteval b - 192)) with (byteval b) by lia. by rewrite tobyte_byteval. }
  apply (Hlong List_ (byteval b - 247) 247); [lia..|done|]. intros n Hn El.
  assert (puthead 192 247 n = b :: putint n) as <-; [|apply hd_list; lia].
  rewrite puthead_large, El by lia. replace (247 + (byteval b - 247)) with (byteval b) by lia. by rewrite tobyte_byteval.
Qed.

(** The stream once the kind of a value is known. *)
Definition ahead (m : Z) (k : Kind) (n : Z) (c : Ascii.ascii) (s : Stream) : Stream :=
  mkStream (drop (Z.to_nat m) (st_r s)) (st_remaining s - m) (Some k) n c None (bump m (st_stack s)).
Lemma ahead_ok m k n c s : stream_ok s -> 0 <= m <= avail s -> stream_ok (ahead m k n c s).
Proof. intros Hs Hm. destruct (adv_ok m s Hs Hm). by split. Qed.
Lemma avail_ahead m k n c s : 0 <= m <= Z.of_nat (length (st_r s)) -> avail (ahead m k n c s) = avail s - m.
Proof. apply avail_adv. Qed.
Lemma kindOf_again m k n c s : kindOf (ahead m k n c s) = (Ret (inr (k, n)), ahead m k n c s).
Proof. reflexivity. Qed.

Definition freshErr (s : Stream) : Stream := s <| st_kinderr := None |>.
Lemma freshErr_ok s : stream_ok s -> stream_ok (freshErr s).
Proof. by intros [? ? ?]. Qed.

Lemma kindOf_start s : st_kind s = None -> atEnd s = false ->
  kindOf s = (r <- readKind ;; s <- get ;;
              let r := match r with
                       | inl e => inl e
                       | inr (k, n) =>
                           match st_stack s with
                           | [] => if st_remaining s <? n then inl ErrValueTooLarge else inr (k, n)
                           | (pos, size) :: _ => if u64 (size - pos) <? n then inl ErrElemTooLarge else inr (k, n)
                           end
                       end in
              modify (fun s => s <| st_kind := Some (match r with inr (k, _) => k | _ => Byte end) |>
                                 <| st_size := match r with inr (_, n) => n | _ => 0 end |>
                                 <| st_kinderr := match r with inl e => Some e | _ => None end |>) ;;
              ret r) (freshErr s).
Proof.
  intros Hk He. unfold kindOf. rewrite bind_get, Hk, bind_modify. fold (freshErr s). unfold atEnd in He. by rewrite He.
Qed.

Lemma fits_check s k n : stream_ok s -> 0 <= n ->
  (match st_stack s with
   | [] => if st_remaining s <? n then inl ErrValueTooLarge else inr (k, n)
   | (pos, size) :: _ => if u64 (size - pos) <? n then inl ErrElemTooLarge else inr (k, n)
   end : rlpErr + Kind * Z) =
  if avail s <? n then (match st_stack s with [] => inl ErrValueTooLarge | _ => inl ErrElemTooLarge end) else inr (k, n).
Proof.
  intros [Hl Hm Hs] Hn. unfold avail. destruct (st_stack s) as [|[pos size] stack]; [by rewrite Hl|].
  cbn in Hs. rewrite u64_small by (unfold is_u64; lia). done.
Qed.

Lemma header_size hd k n c : header hd k n c -> 0 <= n < two64.
Proof. destruct 1; [done|lia..]. Qed.

Lemma kindOf_ok s hd k n c r : stream_ok s -> st_kind s = None -> header hd k n c -> st_r s = hd ++ r ->
  Z.of_nat (length hd) + n <= avail s ->
  kindOf s = (Ret (inr (k, n)), ahead (Z.of_nat (length hd)) k n c s).
Proof.
  intros Hs Hk Hh Er Ha. pose proof (header_pos _ _ _ _ Hh). pose proof (header_size _ _ _ _ Hh). pose proof (avail_pos s Hs).
  rewrite kindOf_start; [|done|].
  2: { unfold atEnd, avail in *. destruct (st_stack s) as [|[pos size] stack]; [done|]. apply Z.eqb_neq. lia. }
  pose proof (readKind_ok (freshErr s) hd k n c r (freshErr_ok s Hs) Hh Er ltac:(change (avail (freshErr s)) with (avail s); lia)) as E.
  rewrite (bind_eq _ _ _ _ _ E), bind_get.
  set (s1 := setByte c (adv (Z.of_nat (length hd)) (freshErr s))). cbv beta iota zeta.
  rewrite (fits_check s1 k n).
  2: { apply setByte_ok, adv_ok; [by apply freshErr_ok|]. change (avail (freshErr s)) with (avail s). lia. }
  2: lia.
  change (avail s1) with (avail (adv (Z.of_nat (length hd)) s)). rewrite avail_adv by lia.
  destruct (Z.ltb_spec (avail s - Z.of_nat (length hd)) n); [lia|]. done.
Qed.

Lemma kindOf_cases s : stream_ok s -> st_kind s = None ->
  atEnd s = true /\ kindOf s = (Ret (inl EOL), freshErr s) \/ atEnd s = false /\ fails (kindOf s) \/
  exists hd k n c r, header hd k n c /\ st_r s = hd ++ r /\ Z.of_nat (length hd) + n <= avail s.
Proof.
  intros Hs Hk. destruct (atEnd s) eqn:He.
  { left. split; [done|]. unfold kindOf. rewrite bind_get, Hk, bind_modify. fold (freshErr s). unfold atEnd in He. by rewrite He. }
  right. pose proof (freshErr_ok s Hs) as Hs1. pose proof (avail_pos s Hs).
  destruct (readKind_cases (freshErr s) Hs1) as [(e&s'&E&Hne)|(hd&k&n&c&r&Hh&Er&Ha)].
  - left. split; [done|]. rewrite kindOf_start by done. rewrite (bind_eq _ _ _ _ _ E), bind_get. cbv zeta. unfold bind, modify, ret. do 2 eexists. split; [reflexivity|done].
  - change (avail (freshErr s)) with (avail s) in Ha. change (st_r (freshErr s)) with (st_r s) in Er.
    pose proof (header_size _ _ _ _ Hh).
    destruct (Z.le_gt_cases (Z.of_nat (length hd) + n) (avail s)); [right; by exists hd, k, n, c, r|left].
    split; [done|]. rewrite kindOf_start by done.
    rewrite (bind_eq _ _ _ _ _ (readKind_ok (freshErr s) hd k n c r Hs1 Hh Er Ha)), bind_get.
    set (s1 := setByte c (adv (Z.of_nat (length hd)) (freshErr s))). cbv beta iota zeta.
    assert (stream_ok s1) as Hok1 by (apply setByte_ok, adv_ok; [done|change (avail (freshErr s)) with (avail s); lia]).
    rewrite (fits_check s1 k n Hok1 ltac:(lia)).
    change (avail s1) with (avail (adv (Z.of_nat (length hd)) s)). rewrite avail_adv by lia.
    destruct (Z.ltb_spec (avail s - Z.of_nat (length hd)) n); [|lia]. destruct (st_stack s1); unfold bind, modify, ret; do 2 eexists; by split.
Qed.

(** [s'] is [s] with some bytes read. *)
Definition after (n : Z) (s s' : Stream) : Prop :=
  st_r s' = drop (Z.to_nat n) (st_r s) /\ st_remaining s' = st_remaining s - n /\ st_stack s' = bump n (st_stack s) /\ st_kind s' = None.
Lemma after_ok n s s' : stream_ok s -> 0 <= n <= avail s -> after n s s' -> stream_ok s'.
Proof. intros Hs Hn (Er&Em&Es&_). destruct (adv_ok n s Hs Hn) as [Hl Hm Hk]. split; rewrite ?Er, ?Em, ?Es; done. Qed.
Lemma bump_bump n m stack : bump m (bump n stack) = bump (n + m) stack.
Proof. destruct stack as [|[pos size] stack]; [done|]. cbn. do 2 f_equal. lia. Qed.
Lemma after_trans n m s s1 s2 : 0 <= n -> 0 <= m -> after n s s1 -> after m s1 s2 -> after (n + m) s s2.
Proof.
  intros Hn Hm (Er&Em&Es&_) (Er2&Em2&Es2&Hk). split_and!; [|lia| |done].
  - rewrite Er2, Er, drop_drop. f_equal. lia.
  - by rewrite Es2, Es, bump_bump.
Qed.
Lemma after_avail n s s' : 0 <= n <= Z.of_nat (length (st_r s)) -> after n s s' -> avail s' = avail s - n.
Proof. intros Hn (Er&_&Es&_). rewrite <- avail_adv by done. unfold avail. by rewrite Er, Es. Qed.
Lemma adv_ahead_after m k n c s x : 0 <= m -> 0 <= x -> after (m + x) s (adv x (ahead m k n c s)).
Proof.
  intros Hm Hx. unfold after. cbn. split_and!; [|lia|by rewrite bump_bump|done]. rewrite drop_drop. f_equal. lia.
Qed.

(** ** Strings, integers and lists *)

Lemma not_atEnd s : 1 <= avail s -> atEnd s = false.
Proof. unfold avail, atEnd. destruct (st_stack s) as [|[p z] st]; [done|]. intros H. apply Z.eqb_neq. lia. Qed.

(** Reading a value, whose encoding is known from what is returned: at the end of a
    list nothing is read. *)
Definition reads {A} (m : M Stream (rlpErr + A)) (e : A -> bytes) (s : Stream) : Prop :=
  atEnd s = true /\ m s = (Ret (inl EOL), freshErr s) \/ atEnd s = false /\ fails (m s) \/
  exists a s' r, m s = (Ret (inr a), s') /\ st_r s = e a ++ r /\ Z.of_nat (length (e a)) <= avail s /\ after (Z.of_nat (length (e a))) s s'.

(** Reading starts with the kind of the value. *)
Lemma reads_kind {A} (k : Kind * Z -> M Stream (rlpErr + A)) e s :
  stream_ok s -> st_kind s = None ->
  (forall hd kd n c r, header hd kd n c -> st_r s = hd ++ r -> Z.of_nat (length hd) + n <= avail s ->
     let o := k (kd, n) (ahead (Z.of_nat (length hd)) kd n c s) in
     fails o \/ exists a s', o = (Ret (inr a), s') /\ (exists r', st_r s = e a ++ r') /\ Z.of_nat (length (e a)) <= avail s /\
       after (Z.of_nat (length (e a))) s s') ->
  reads (tryR kindOf k) e s.
Proof.
  intros Hs Hf H. destruct (kindOf_cases s Hs Hf) as [[He E]|[[He Hx]|(hd&kd&n&c&r&Hh&Er&Ha)]].
  - left. split; [done|]. unfold tryR. by rewrite (bind_eq _ _ _ _ _ E).
  - right; left. split; [done|]. by apply tryR_fails.
  - right. pose proof (kindOf_ok s hd kd n c r Hs Hf Hh Er Ha) as E. specialize (H hd kd n c r Hh Er Ha). cbv zeta in H.
    unfold reads. rewrite !(tryR_ok _ _ _ _ _ E). destruct H as [H|(a&s'&E2&(r'&Er')&Hl&Hx)].
    + left. split; [|done]. pose proof (header_pos _ _ _ _ Hh). pose proof (header_size _ _ _ _ Hh). apply not_atEnd. lia.
    + right. by exists a, s', r'.
Qed.

Lemma encString_byte c : byteval c < 128 -> encString [c] = [c].
Proof. intros H. unfold encString. by destruct (Z.ltb_spec (byteval c) 128); [|lia]. Qed.
Lemma encString_long b : (forall c, b = [c] -> 128 <= byteval c) -> encString b = puthead 128 183 (Z.of_nat (length b)) ++ b.
Proof.
  intros H. unfold encString. destruct b as [|c [|d b]]; [done| |done]. specialize (H c eq_refl).
  destruct (Z.ltb_spec (byteval c) 128); [lia|done].
Qed.


(** The content of a string, after its header. *)
Lemma readFull_content s hd n c r : stream_ok s -> st_r s = hd ++ r -> 0 <= n -> Z.of_nat (length hd) + n <= avail s ->
  let m := Z.of_nat (length hd) in let b := take (Z.to_nat n) r in
  readFull n (ahead m String_ n c s) = (Ret (inr b), adv n (ahead m String_ n c s)) /\ Z.of_nat (length b) = n /\
  (exists r', st_r s = (hd ++ b) ++ r') /\ after (Z.of_nat (length (hd ++ b))) s (adv n (ahead m String_ n c s)).
Proof.
  intros Hs Er Hn Ha m b. pose proof (avail_pos s Hs) as Hp.
  assert (st_r (ahead m String_ n c s) = r) as Er1 by (cbn; unfold m; by rewrite Nat2Z.id, Er, drop_app_length).
  destruct (readFull_ok n (ahead m String_ n c s)) as [E El]; [apply ahead_ok; [done|lia]|rewrite avail_ahead; unfold m; lia|].
  rewrite Er1 in E, El. fold b in E, El. split_and!; [done|done| |].
  - exists (drop (Z.to_nat n) r). by unfold b; rewrite <- app_assoc, (take_drop (Z.to_nat n) r).
  - rewrite length_app, Nat2Z.inj_add, El. apply adv_ahead_after; lia.
Qed.

Definition bytesBody (r : Kind * Z) : M Stream (rlpErr + bytes) :=
  match r with
  | (Byte, _) => rearm ;; s <- get ;; ret (inr [st_byteval s])
  | (String_, size) =>
      b <-! readFull size ;;
      if (size =? 1) && (byteval (default Ascii.zero (head b)) <? 128) then ret (inl ErrCanonSize) else ret (inr b)
  | (List_, _) => ret (inl ErrExpectedString)
  end.
Lemma bytesBody_cases s hd kd n c r : stream_ok s -> header hd kd n c -> st_r s = hd ++ r -> Z.of_nat (length hd) + n <= avail s ->
  let o := bytesBody (kd, n) (ahead (Z.of_nat (length hd)) kd n c s) in
  fails o \/ exists b s', o = (Ret (inr b), s') /\ (exists r', st_r s = encString b ++ r') /\ Z.of_nat (length (encString b)) <= avail s /\
    after (Z.of_nat (length (encString b))) s s'.
Proof.
  intros Hs Hh Er Ha. cbv zeta. destruct Hh as [c Hc|n Hn|n Hn]; cbn [bytesBody].
  - right. exists [c]. eexists. split; [reflexivity|]. rewrite encString_byte by done. split_and!; [by exists r|lia|].
    unfold after. by cbn.
  - destruct (readFull_content s _ n Ascii.zero r Hs Er ltac:(lia) Ha) as (E&El&(r'&Er')&Hx). set (b := take (Z.to_nat n) r) in *.
    rewrite (tryR_ok _ _ _ _ _ E). case_match eqn:Ec; [left; by do 2 eexists|right]. exists b. eexists. split; [reflexivity|].
    assert (encString b = puthead 128 183 n ++ b) as ->.
    { rewrite encString_long, El; [done|]. intros d Ed. rewrite Ed in El, Ec. cbn in El. destruct (Z.eqb_spec n 1); [|lia]. cbn in Ec. lia. }
    split_and!; [by exists r'|rewrite length_app; lia|done].
  - left. do 2 eexists. by split.
Qed.
Lemma Bytes_cases s : stream_ok s -> st_kind s = None -> reads Bytes encString s.
Proof. intros Hs Hf. apply (reads_kind bytesBody); [done..|]. intros hd kd n c r. by apply bytesBody_cases. Qed.

(** A string that is there is read. *)
Definition provides {A} (m : M Stream (rlpErr + A)) (b : bytes) (a : A) (s : Stream) : Prop :=
  forall r, st_r s = b ++ r -> Z.of_nat (length b) <= avail s -> exists s', m s = (Ret (inr a), s') /\ after (Z.of_nat (length b)) s s'.

(** The two forms of a string. *)
Lemma encString_forms b : Z.of_nat (length b) < two64 ->
  (exists c, b = [c] /\ byteval c < 128 /\ encString b = [c] /\ header [c] Byte 0 c) \/
  (encString b = puthead 128 183 (Z.of_nat (length b)) ++ b /\ header (puthead 128 183 (Z.of_nat (length b))) String_ (Z.of_nat (length b)) Ascii.zero /\
   (length b = 1%nat -> 128 <= byteval (default Ascii.zero (head b)))).
Proof.
  intros Hl. destruct (decide (length b = 1%nat /\ byteval (default Ascii.zero (head b)) < 128)) as [[H1 H2]|Hn].
  - left. destruct b as [|c [|d b]]; [done| |done]. exists c. cbn in H2. split_and!; [done|done|by apply encString_byte|by apply hd_byte].
  - right. split_and!; [|apply hd_string; lia|intros H1; apply Z.le_ngt; tauto].
    apply encString_long. intros c ->. apply Z.le_ngt. intros Hc. by apply Hn.
Qed.
Lemma encString_length b : (length b <= length (encString b))%nat.
Proof. unfold encString. destruct b as [|c [|d b]]; [cbn; lia| |rewrite length_app; lia]. case_match; [done|rewrite length_app; cbn; lia]. Qed.

Lemma bytesBody_ok s b r : stream_ok s -> st_kind s = None -> st_r s = encString b ++ r -> Z.of_nat (length (encString b)) <= avail s ->
  exists k m s1 s', kindOf s = (Ret (inr k), s1) /\ s1 = ahead m k.1 k.2 (st_byteval s1) s /\ k.1 <> List_ /\
    bytesBody k s1 = (Ret (inr b), s') /\ after (Z.of_nat (length (encString b))) s s'.
Proof.
  intros Hs Hf Er Ha. pose proof (avail_pos s Hs). pose proof (encString_length b).
  destruct (encString_forms b ltac:(lia)) as [(c&->&Hc&Ee&Hh)|(Ee&Hh&H1)]; rewrite Ee in *.
  - exists (Byte, 0), 1, (ahead 1 Byte 0 c s). eexists. rewrite (kindOf_ok s [c] Byte 0 c r) by (done || cbn in *; lia).
    split_and!; [done..|]. unfold after. by cbn.
  - set (n := Z.of_nat (length b)) in *. rewrite <- app_assoc in Er. rewrite length_app in Ha.
    destruct (readFull_content s _ n Ascii.zero _ Hs Er ltac:(lia) ltac:(lia)) as (E&El&_&Hx).
    unfold n in E, El, Hx. rewrite Nat2Z.id, take_app_length in E, El, Hx. fold n in E, El, Hx.
    exists (String_, n), (Z.of_nat (length (puthead 128 183 n))), (ahead (Z.of_nat (length (puthead 128 183 n))) String_ n Ascii.zero s). eexists.
    rewrite (kindOf_ok s _ String_ n Ascii.zero _ Hs Hf Hh Er) by lia. split_and!; [done..| |exact Hx].
    cbn [bytesBody]. rewrite (tryR_ok _ _ _ _ _ E).
    destruct (Z.eqb_spec n 1) as [E1|]; [|done]. cbn [andb]. destruct (Z.ltb_spec (byteval (default Ascii.zero (head b))) 128); [|done].
    specialize (H1 ltac:(lia)). lia.
Qed.
Lemma Bytes_ok s b : stream_ok s -> st_kind s = None -> provides Bytes (encString b) b s.
Proof.
  intros Hs Hf r Er Ha. destruct (bytesBody_ok s b r Hs Hf Er Ha) as (k&m&s1&s'&E1&_&_&E2&Hx).
  exists s'. split; [|done]. change Bytes with (tryR kindOf bytesBody). by rewrite (tryR_ok _ _ _ _ _ E1).
Qed.

(** Integers. *)
Definition uintBody (maxbits : Z) (r : Kind * Z) : M Stream (rlpErr + Z) :=
  match r with
  | (Byte, _) =>
      s <- get ;;
      if byteval (st_byteval s) =? 0 then ret (inl ErrCanonInt) else rearm ;; ret (inr (byteval (st_byteval s)))
  | (String_, size) =>
      if maxbits / 8 <? size then ret (inl errUintOverflow)
      else
        v <- readUint size ;;
        ret (match v with
             | inl ErrCanonSize => inl ErrCanonInt
             | inl e => inl e
             | inr v => if (0 <? size) && (v <? 128) then inl ErrCanonSize else inr v
             end)
  | (List_, _) => ret (inl ErrExpectedString)
  end.

Lemma bigBytes_small i : 0 < i < 256 -> bigBytes i = [tobyte i].
Proof.
  intros H. destruct (bigBytes_spec i ltac:(lia)) as [Hm Hb]. apply minimal_inj; [done| |].
  - unfold minimal. change (byteval (tobyte i) <> 0). rewrite byteval_small; lia.
  - rewrite Hb. cbn [bigend]. rewrite byteval_small; lia.
Qed.

Lemma uintBody_string maxbits n s1 : (n = 0 \/ 1 <= n <= avail s1) -> stream_ok s1 -> n <= maxbits / 8 ->
  let b := take (Z.to_nat n) (st_r s1) in
  (n = 0 -> st_kind s1 = Some String_) ->
  fails (uintBody maxbits (String_, n) s1) \/
  uintBody maxbits (String_, n) s1 = (Ret (inr (bigend b 0)), if n =? 0 then s1 <| st_kind := None |> else adv n s1) /\
    (n = 0 \/ minimal b /\ 128 <= bigend b 0).
Proof.
  intros Hn Hs Hmax b Hk. unfold uintBody. destruct (Z.ltb_spec (maxbits / 8) n); [lia|]. destruct Hn as [->|Hn].
  - right. split; [|by left]. done.
  - destruct (readUint_cases n s1 Hs ltac:(lia)) as [(e&s'&E&He)|[_ Hm]].
    + left. unfold bind. rewrite E. unfold ret. destruct e; do 2 eexists; by split.
    + rewrite (bind_eq _ _ _ _ _ (readUint_ok n b s1 Hs ltac:(lia) eq_refl Hm)). destruct (Z.ltb_spec 0 n); [|lia]. cbn [andb].
      destruct (Z.ltb_spec (bigend b 0) 128); [left; by do 2 eexists|right].
      destruct (Z.eqb_spec n 0); [lia|]. split; [done|right]. split; [|done]. destruct (Z.eq_dec n 1) as [->|]; [|apply Hm; lia].
      pose proof (avail_pos s1 Hs). unfold b in *. clear b. destruct (st_r s1) as [|c r]; [cbn in *; lia|].
      change (take (Z.to_nat 1) (c :: r)) with [c] in *. unfold minimal. cbn [bigend] in *. change (byteval c <> 0). lia.
Qed.

Lemma uint_cases maxbits s : bits_ok maxbits -> stream_ok s -> st_kind s = None ->
  reads (uint maxbits) (fun i => encString (bigBytes i)) s /\ forall i s', uint maxbits s = (Ret (inr i), s') -> uint_ok maxbits i.
Proof.
  intros Hbits Hs Hf.
  assert (forall hd kd n c r, header hd kd n c -> st_r s = hd ++ r -> Z.of_nat (length hd) + n <= avail s ->
     let o := uintBody maxbits (kd, n) (ahead (Z.of_nat (length hd)) kd n c s) in
     fails o \/ exists a s', o = (Ret (inr a), s') /\ (exists r', st_r s = encString (bigBytes a) ++ r') /\
       Z.of_nat (length (encString (bigBytes a))) <= avail s /\ after (Z.of_nat (length (encString (bigBytes a)))) s s' /\ uint_ok maxbits a) as Hbody.
  { intros hd kd n c r Hh Er Ha. cbv zeta. pose proof (avail_pos s Hs) as Hp. destruct Hh as [c Hc|n Hn|n Hn].
    - unfold uintBody. rewrite bind_get. cbn [ahead st_byteval]. destruct (Z.eqb_spec (byteval c) 0); [left; by do 2 eexists|right].
      pose proof (byteval_range c). exists (byteval c). eexists. split; [reflexivity|].
      rewrite bigBytes_small, tobyte_byteval, encString_byte by lia. split_and!; [by exists r|lia|unfold after; by cbn|].
      unfold uint_ok. destruct Hbits as [->|[->|[->| ->]]]; cbn; lia.
    - destruct (Z.ltb_spec (maxbits / 8) n) as [|Hmax]; [left; unfold uintBody; destruct (Z.ltb_spec (maxbits / 8) n); [by do 2 eexists|lia]|].
      set (m := Z.of_nat (length (puthead 128 183 n))) in *. set (s1 := ahead m String_ n Ascii.zero s).
      assert (stream_ok s1) as Hs1 by (apply ahead_ok; [done|lia]).
      assert (avail s1 = avail s - m) as Ha1 by (apply avail_ahead; lia).
      destruct (uintBody_string maxbits n s1 ltac:(lia) Hs1 Hmax ltac:(done)) as [|[E Hm]]; [by left|right].
      set (b := take (Z.to_nat n) (st_r s1)) in *. exists (bigend b 0). eexists. split; [exact E|].
      assert (st_r s1 = r) as Er1 by (cbn; unfold m; by rewrite Nat2Z.id, Er, drop_app_length).
      assert (Z.of_nat (length b) = n) as El by (unfold b; rewrite length_take; pose proof (avail_pos s1 Hs1); lia).
      assert (bigBytes (bigend b 0) = b) as Eb.
      { destruct Hm as [->|[Hm _]]; [by destruct b|by apply bigBytes_bigend]. }
      assert (encString b = puthead 128 183 n ++ b) as Ee.
      { rewrite encString_long, El; [done|]. intros d Ed. destruct Hm as [->|[_ Hm]]; [by rewrite Ed in El|]. rewrite Ed in Hm. cbn in Hm. lia. }
      rewrite Eb, Ee. split_and!.
      + exists (drop (Z.to_nat n) r). unfold b. rewrite Er1, <- app_assoc, (take_drop (Z.to_nat n) r). done.
      + rewrite length_app. lia.
      + rewrite length_app, Nat2Z.inj_add, El. fold m. destruct (Z.eqb_spec n 0) as [->|].
        * unfold after. cbn. replace (m + 0) with m by lia. done.
        * apply adv_ahead_after; lia.
      + unfold uint_ok. pose proof (bigend_range b) as Hb. rewrite El in Hb. split; [lia|].
        assert (256 ^ n <= 2 ^ maxbits); [|lia]. replace 256 with (2 ^ 8) by done. rewrite <- Z.pow_mul_r by lia. apply Z.pow_le_mono_r; [lia|].
        pose proof (Z.mul_div_le maxbits 8). lia.
    - left. unfold uintBody. by do 2 eexists. }
  split.
  - apply (reads_kind (uintBody maxbits)); [done..|]. intros hd kd n c r Hh Er Ha.
    destruct (Hbody hd kd n c r Hh Er Ha) as [|(a&s'&E&H1&H2&H3&_)]; [by left|right; by exists a, s'].
  - intros i s' E. change (uint maxbits) with (tryR kindOf (uintBody maxbits)) in E.
    destruct (kindOf_cases s Hs Hf) as [[_ Ek]|[[_ Hx]|(hd&kd&n&c&r&Hh&Er&Ha)]].
    + unfold tryR in E. by rewrite (bind_eq _ _ _ _ _ Ek) in E.
    + apply (tryR_fails kindOf (uintBody maxbits)) in Hx as (e&s2&E2&_). by rewrite E2 in E.
    + rewrite (tryR_ok _ _ _ _ _ (kindOf_ok s hd kd n c r Hs Hf Hh Er Ha)) in E.
      destruct (Hbody hd kd n c r Hh Er Ha) as [(e&s2&E2&_)|(a&s2&E2&_&_&_&H)]; rewrite E2 in E; [done|]. by injection E as -> _.
Qed.

Lemma bigBytes_length bits i : bits_ok bits -> uint_ok bits i -> Z.of_nat (length (bigBytes i)) <= bits / 8.
Proof.
  intros Hb [H0 Hi]. destruct (Z.eq_dec i 0) as [->|]; [destruct Hb as [->|[->|[->| ->]]]; by apply Z.leb_le|].
  destruct (bigBytes_spec i ltac:(lia)) as [Hm E]. pose proof (minimal_range _ Hm) as Hr. rewrite E in Hr.
  set (l := Z.of_nat (length (bigBytes i))) in *. destruct (Z.le_gt_cases l (bits / 8)); [done|]. exfalso.
  assert (256 ^ (bits / 8 + 1) <= 256 ^ l) by (apply Z.pow_le_mono_r; lia).
  assert (256 ^ (bits / 8 + 1) = 256 * 2 ^ bits) by (destruct Hb as [->|[->|[->| ->]]]; reflexivity). lia.
Qed.

Lemma uint_provides bits i s : bits_ok bits -> uint_ok bits i -> stream_ok s -> st_kind s = None ->
  provides (uint bits) (encString (bigBytes i)) i s.
Proof.
  intros Hb Hi Hs Hf r Er Ha. pose proof (uint_ok_two64 bits i Hb Hi) as Hi2. pose proof (bigBytes_length bits i Hb Hi) as Hl.
  pose proof (avail_pos s Hs). pose proof (encString_length (bigBytes i)). change (uint bits) with (tryR kindOf (uintBody bits)).
  assert (i = 0 \/ 0 < i < 128 \/ 128 <= i) as [->|[Hc|Hc]] by lia.
  - change (encString (bigBytes 0)) with [tobyte 128] in *.
    assert (header [tobyte 128] String_ 0 Ascii.zero) as Hh by (apply (hd_string 0); unfold two64; lia).
    rewrite (tryR_ok _ _ _ _ _ (kindOf_ok s [tobyte 128] String_ 0 _ r Hs Hf Hh Er ltac:(cbn [length] in *; lia))).
    assert (0 <= bits / 8) by (destruct Hb as [->|[->|[->| ->]]]; done).
    unfold uintBody. destruct (Z.ltb_spec (bits / 8) 0); [lia|].
    eexists. split; [reflexivity|]. by unfold after.
  - rewrite bigBytes_small in * by lia. assert (byteval (tobyte i) = i) as Ei by (apply byteval_small; lia).
    rewrite encString_byte in * by lia.
    assert (header [tobyte i] Byte 0 (tobyte i)) as Hh by (apply hd_byte; lia).
    rewrite (tryR_ok _ _ _ _ _ (kindOf_ok s [tobyte i] Byte 0 _ r Hs Hf Hh Er ltac:(cbn [length] in *; lia))).
    unfold uintBody. rewrite bind_get. cbn [ahead st_byteval]. rewrite Ei. destruct (Z.eqb_spec i 0); [lia|].
    eexists. split; [reflexivity|]. by unfold after.
  - destruct (bigBytes_spec i ltac:(lia)) as [Hm Eb]. set (b := bigBytes i) in *. set (n := Z.of_nat (length b)) in *.
    assert (1 <= n) as Hn by (unfold n; destruct b; [cbn in Eb; lia|cbn; lia]).
    assert (encString b = puthead 128 183 n ++ b) as Ee by (apply encString_long; intros c Ec; rewrite Ec in Eb; cbn in Eb; lia).
    rewrite Ee in *. rewrite <- app_assoc in Er. rewrite length_app in Ha.
    set (m := Z.of_nat (length (puthead 128 183 n))) in *.
    assert (header (puthead 128 183 n) String_ n Ascii.zero) as Hh by (apply hd_string; lia).
    rewrite (tryR_ok _ _ _ _ _ (kindOf_ok s _ String_ n _ _ Hs Hf Hh Er ltac:(lia))). fold m.
    set (s1 := ahead m String_ n Ascii.zero s).
    assert (stream_ok s1) as Hs1 by (apply ahead_ok; [done|lia]). assert (avail s1 = avail s - m) as Ha1 by (apply avail_ahead; lia).
    assert (st_r s1 = b ++ r) as Er1 by (cbn; unfold m; by rewrite Nat2Z.id, Er, drop_app_length).
    assert (take (Z.to_nat n) (st_r s1) = b) as Et by (unfold n; by rewrite Er1, Nat2Z.id, take_app_length).
    unfold uintBody. destruct (Z.ltb_spec (bits / 8) n); [lia|].
    rewrite (bind_eq _ _ _ _ _ (readUint_ok n b s1 Hs1 ltac:(lia) ltac:(done) ltac:(done))). rewrite Eb.
    destruct (Z.ltb_spec 0 n); [|lia]. destruct (Z.ltb_spec i 128); [lia|]. cbn [andb].
    eexists. split; [reflexivity|]. rewrite length_app, Nat2Z.inj_add. apply adv_ahead_after; lia.
Qed.

Definition encBool (b : bool) : bytes := encString (if b then [Ascii.one] else []).
Lemma encBool_uint b : encBool b = encString (bigBytes (if b then 1 else 0)).
Proof. by destruct b. Qed.
Lemma Bool_cases s : stream_ok s -> st_kind s = None -> reads Bool encBool s.
Proof.
  intros Hs Hf. unfold Bool. destruct (proj1 (uint_cases 8 s ltac:(by left) Hs Hf)) as [[He E]|[[He Hx]|(i&s'&r&E&Er&Hl&Hx)]].
  - left. split; [done|]. unfold tryR. by rewrite (bind_eq _ _ _ _ _ E).
  - right; left. split; [done|]. by apply tryR_fails.
  - right. unfold reads. rewrite (tryR_ok _ _ _ _ _ E). destruct (Z.eqb_spec i 0) as [->|]; [|destruct (Z.eqb_spec i 1) as [->|]].
    + right. exists false, s', r. done.
    + right. exists true, s', r. done.
    + left. split; [|by do 2 eexists]. pose proof (encString_pos (bigBytes i)). apply not_atEnd. lia.
Qed.

Lemma Bool_provides b s : stream_ok s -> st_kind s = None -> provides Bool (encBool b) b s.
Proof.
  intros Hs Hf r Er Ha. rewrite encBool_uint in Er, Ha |- *.
  assert (uint_ok 8 (if b then 1 else 0)) as Hi by (unfold uint_ok; by destruct b).
  destruct (uint_provides 8 _ s ltac:(by left) Hi Hs Hf r Er Ha) as (s'&E&Hx). exists s'. split; [|done].
  unfold Bool. rewrite (tryR_ok _ _ _ _ _ E). by destruct b.
Qed.

(** The stream inside of a list. *)
Definition pushed (m n : Z) (s : Stream) : Stream :=
  mkStream (drop (Z.to_nat m) (st_r s)) (st_remaining s - m) None 0 Ascii.zero None ((0, n) :: bump m (st_stack s)).
Lemma pushed_ok m n s : stream_ok s -> 0 <= m -> 0 <= n -> m + n <= avail s -> stream_ok (pushed m n s).
Proof.
  intros Hs Hm Hn Ha. pose proof (avail_pos s Hs). pose proof (adv_ok m s Hs ltac:(lia)) as Hadv.
  pose proof (avail_adv m s ltac:(lia)) as Ea. pose proof (avail_pos _ Hadv) as Hp. destruct Hadv as [H1 H2 H3].
  split; [exact H1|exact H2|]. cbn [pushed st_r st_stack stack_ok]. change (drop (Z.to_nat m) (st_r s)) with (st_r (adv m s)).
  split_and!; [lia..| |exact H3]. unfold avail at 1 in Ea. cbn [adv st_stack] in Ea. destruct (bump m (st_stack s)) as [|[p z] st]; [done|lia].
Qed.
Lemma avail_pushed m n s : avail (pushed m n s) = n.
Proof. unfold avail. cbn. lia. Qed.

Lemma List_cases s : stream_ok s -> st_kind s = None ->
  atEnd s = true /\ List s = (Ret (inl EOL), freshErr s) \/ atEnd s = false /\ fails (List s) \/
  exists n r, let m := Z.of_nat (length (puthead 192 247 n)) in
    List s = (Ret (inr n), pushed m n s) /\ st_r s = puthead 192 247 n ++ r /\ 0 <= n < two64 /\ m + n <= avail s.
Proof.
  intros Hs Hf. unfold List. destruct (kindOf_cases s Hs Hf) as [[He E]|[[He Hx]|(hd&kd&n&c&r&Hh&Er&Ha)]].
  - left. split; [done|]. unfold tryR. by rewrite (bind_eq _ _ _ _ _ E).
  - right; left. split; [done|]. by apply tryR_fails.
  - right. pose proof (kindOf_ok s hd kd n c r Hs Hf Hh Er Ha) as E. rewrite (tryR_ok _ _ _ _ _ E).
    pose proof (header_pos _ _ _ _ Hh). pose proof (header_size _ _ _ _ Hh).
    destruct Hh as [c Hc|n Hn|n Hn]; [left; split; [apply not_atEnd; lia|by do 2 eexists]..|right].
    exists n, r. cbv zeta. split_and!; [reflexivity|done|lia..].
Qed.
Lemma List_ok s n r : stream_ok s -> st_kind s = None -> st_r s = puthead 192 247 n ++ r -> 0 <= n < two64 ->
  Z.of_nat (length (puthead 192 247 n)) + n <= avail s ->
  List s = (Ret (inr n), pushed (Z.of_nat (length (puthead 192 247 n))) n s).
Proof.
  intros Hs Hf Er Hn Ha. unfold List. by rewrite (tryR_ok _ _ _ _ _ (kindOf_ok s _ List_ n _ r Hs Hf (hd_list n Hn) Er Ha)).
Qed.

Lemma ListEnd_ok m n s s2 : stream_ok s -> 0 <= m -> 0 <= n -> m + n <= avail s -> after n (pushed m n s) s2 ->
  exists s3, ListEnd s2 = (Ret (inr tt), s3) /\ after (m + n) s s3.
Proof.
  intros Hs Hm Hn Ha (Er&Em&Es&Hk). pose proof (avail_pos s Hs) as Hp. destruct Hs as [Hl Hsm Hst].
  cbn [pushed st_r st_remaining st_stack bump] in *. unfold ListEnd. rewrite bind_get, Es. rewrite Z.add_0_l, Z.eqb_refl. cbn [negb].
  eexists. split; [reflexivity|]. unfold after. cbn. rewrite Er, Em, drop_drop. split_and!; [f_equal; lia|lia| |done].
  unfold avail in Ha, Hp. destruct (st_stack s) as [|[p z] st]; [done|]. cbn [bump stack_ok] in *.
  rewrite u64_small by (unfold is_u64; lia). do 2 f_equal. lia.
Qed.
Lemma ListEnd_fails m n x s s2 : after x (pushed m n s) s2 -> x <> n -> fails (ListEnd s2).
Proof.
  intros (_&_&Es&_) Hx. cbn [pushed st_stack bump] in Es. unfold ListEnd. rewrite bind_get, Es, Z.add_0_l.
  destruct (Z.eqb_spec x n); [done|]. by do 2 eexists.
Qed.
