(* ===== verification/RlpProofs.v ===== *)
(** * RlpProofs: what is encoded is what is decoded

    The decoders of [rlp/decode.go]: a decoder accepts the encodings of the values of
    its type, each of which has one, and nothing else, and it ends. *)
From S2P Require Import Prelude.
From S2P Require Import Rlp.
From S2P Require Import RlpEncoding.
From S2P Require Import RlpStream.

#[local] Set Warnings "-register-all".

(** ** Decoders *)

(** Types whose values have one encoding: a pointer with the tag ["nil"] is read from
    an empty string and from an empty list alike, and the one byte of an array of
    length one is not always read. *)
Inductive strict : rtype -> Prop :=
| sc_uint bits : bits_ok bits -> strict (TUint bits)
| sc_bool : strict TBool
| sc_big : strict TBig
| sc_bytes : strict TBytes
| sc_array n : n <> 1%nat -> Z.of_nat n < two64 -> strict (TArray n)
| sc_slice t : strict t -> strict (TSlice t)
| sc_struct ts : Forall strict ts -> strict (TStruct ts)
| sc_ptr t : strict t -> strict (TPtr t)
| sc_iface : strict TIface.

(** The values of a type, as far as a decoder looks at what it decodes into. *)
Inductive shaped : rtype -> rval -> Prop :=
| sh_leaf t v : (match t with TSlice _ | TStruct _ | TPtr _ => False | _ => True end) -> shaped t v
| sh_slice t l : Forall (shaped t) l -> shaped (TSlice t) (VList l)
| sh_struct ts l : Forall2 shaped ts l -> shaped (TStruct ts) (VList l)
| sh_nil t : shaped (TPtr t) (VPtr None)
| sh_ptr t v : shaped t v -> shaped (TPtr t) (VPtr (Some v)).

Section RtypeInd.
Context (P : rtype -> Prop) (Huint : forall b, P (TUint b)) (Hbool : P TBool) (Hbig : P TBig) (Hbytes : P TBytes)
  (Harray : forall n, P (TArray n)) (Hslice : forall t, P t -> P (TSlice t)) (Hstruct : forall ts, Forall P ts -> P (TStruct ts))
  (Hptr : forall t, P t -> P (TPtr t)) (Hptrnil : forall t, P t -> P (TPtrNil t)) (Hiface : P TIface).
Fixpoint rtype_nested (t : rtype) : P t :=
  match t with
  | TUint b => Huint b | TBool => Hbool | TBig => Hbig | TBytes => Hbytes | TArray n => Harray n
  | TSlice t => Hslice t (rtype_nested t)
  | TStruct ts =>
      Hstruct ts ((fix all (ts : list rtype) : Forall P ts :=
        match ts with [] => Forall_nil_2 P | t :: ts => Forall_cons_2 P t ts (rtype_nested t) (all ts) end) ts)
  | TPtr t => Hptr t (rtype_nested t)
  | TPtrNil t => Hptrnil t (rtype_nested t)
  | TIface => Hiface
  end.
End RtypeInd.
Lemma zero_shaped t : shaped t (zero t).
Proof.
  induction t as [| | | | |t IH|ts IH|t IH|t IH|] using rtype_nested; try by apply sh_leaf.
  - apply sh_slice. constructor.
  - cbn [zero]. apply sh_struct. induction IH; cbn; by constructor.
  - apply sh_nil.
Qed.

Local Abbreviation res := (outcome (option rlpErr * rval) * Stream)%type.

(** What a decoder does with a stream. *)
Definition decodes (t : rtype) (s : Stream) (o : res) : Prop :=
  atEnd s = true /\ (exists v, o = (Ret (Some EOL, v), freshErr s)) \/
  atEnd s = false /\ (exists e v s', o = (Ret (Some e, v), s') /\ e <> EOL) \/
  exists v s' i r, o = (Ret (None, v), s') /\ shaped t v /\ stands t v i /\ st_r s = enc i ++ r /\
    Z.of_nat (length (enc i)) <= avail s /\ after (Z.of_nat (length (enc i))) s s'.

(** A leaf. *)
Lemma decodes_leaf {A} t (m : M Stream (rlpErr + A)) (e : A -> bytes) (k : rlpErr + A -> option rlpErr * rval) s :
  (match t with TSlice _ | TStruct _ | TPtr _ => False | _ => True end) ->
  reads m e s -> (forall a, (1 <= length (e a))%nat) -> (k (inl EOL)).1 = Some EOL -> (forall x, x <> EOL -> exists y, (k (inl x)).1 = Some y /\ y <> EOL) ->
  (forall a s', m s = (Ret (inr a), s') -> (exists y, (k (inr a)).1 = Some y /\ y <> EOL) \/ (k (inr a)).1 = None /\ exists i, stands t (k (inr a)).2 i /\ enc i = e a) ->
  decodes t s ((r <- m ;; ret (k r)) s).
Proof.
  intros Ht Hm Hp Hk Hx Ha. destruct Hm as [[He E]|[[He (x&s'&E&Hne)]|(a&s'&r&E&Er&Hl&Hf)]]; rewrite (bind_eq _ _ _ _ _ E).
  - left. split; [done|]. exists (k (inl EOL)).2. unfold ret. destruct (k (inl EOL)) as [o v]. cbn in Hk. by subst o.
  - right; left. split; [done|]. destruct (Hx x Hne) as (y&Ey&Hy). exists y, (k (inl x)).2, s'. unfold ret. destruct (k (inl x)) as [o v].
    cbn in Ey. by subst o.
  - destruct (Ha a s' E) as [(y&Ey&Hy)|(En&i&Hi&Ei)].
    + right; left. split; [apply not_atEnd; specialize (Hp a); lia|].
      exists y, (k (inr a)).2, s'. unfold ret. destruct (k (inr a)) as [o v]. cbn in Ey. by subst o.
    + right; right. exists (k (inr a)).2, s', i, r. unfold ret. destruct (k (inr a)) as [o v]. cbn in *. subst o.
      rewrite Ei. split_and!; [done|by apply sh_leaf|done..].
Qed.
Lemma wrap_eol x : x <> EOL -> wrapStreamError x <> EOL.
Proof. by destruct x. Qed.
Lemma decodes_setFrom {A} t (m : M Stream (rlpErr + A)) (e : A -> bytes) (f : A -> rval) v s :
  (match t with TSlice _ | TStruct _ | TPtr _ => False | _ => True end) ->
  reads m e s -> (forall a, (1 <= length (e a))%nat) ->
  (forall a s', m s = (Ret (inr a), s') -> exists i, stands t (f a) i /\ enc i = e a) -> decodes t s (setFrom m f v s).
Proof.
  intros Ht Hm Hp Ha. apply (decodes_leaf t m e); [done..| |].
  - intros x Hx. exists (wrapStreamError x). split; [done|]. by apply wrap_eol.
  - intros a s' E. right. split; [done|]. by eapply Ha.
Qed.

Lemma enc_bool (b : bool) : enc (IStr (if b then [Ascii.one] else [])) = encBool b.
Proof. by destruct b. Qed.
Lemma decodes_big v s : stream_ok s -> st_kind s = None -> decodes TBig s (decodeBigInt v s).
Proof.
  intros Hs Hf. apply (decodes_leaf TBig Bytes encString _ s); [done|by apply Bytes_cases|apply encString_pos|done| |].
  - intros x Hx. exists (wrapStreamError x). split; [done|]. by apply wrap_eol.
  - intros b s' E. destruct b as [|c b]; [right; split; [done|]; exists (IStr []); split; [by apply (st_big 0)|done]|].
    destruct (Z.eqb_spec (byteval c) 0); [left; by eexists|right]. split; [done|]. exists (IStr (c :: b)). split; [|done].
    assert (minimal (c :: b)) as Hm by done. rewrite <- (bigBytes_bigend _ Hm) at 2. apply st_big. apply bigend_range.
Qed.

Lemma decodes_array n v s : n <> 1%nat -> Z.of_nat n < two64 -> stream_ok s -> st_kind s = None -> decodes (TArray n) s (decodeByteArray n v s).
Proof.
  intros Hn Hn2 Hs Hf. unfold decodeByteArray. destruct (kindOf_cases s Hs Hf) as [[He E]|[[He (x&s'&E&Hne)]|(hd&kd&k&c&r&Hh&Er&Ha)]].
  - left. rewrite (bind_eq _ _ _ _ _ E). by split; [|eexists].
  - right; left. rewrite (bind_eq _ _ _ _ _ E). split; [done|]. by do 3 eexists.
  - pose proof (kindOf_ok s hd kd k c r Hs Hf Hh Er Ha) as E. rewrite (bind_eq _ _ _ _ _ E).
    pose proof (header_pos _ _ _ _ Hh). pose proof (header_size _ _ _ _ Hh).
    assert (atEnd s = false) as He by (apply not_atEnd; lia).
    destruct Hh as [c Hc|k Hk|k Hk].
    + right; left. split; [done|]. destruct (Nat.eqb_spec n 0); [by do 3 eexists|]. destruct (Nat.ltb_spec 1 n); [by do 3 eexists|lia].
    + destruct (Z.ltb_spec (Z.of_nat n) k); [right; left; split; [done|by do 3 eexists]|].
      destruct (Z.ltb_spec k (Z.of_nat n)); [right; left; split; [done|by do 3 eexists]|]. assert (k = Z.of_nat n) as -> by lia.
      destruct (readFull_content s _ (Z.of_nat n) Ascii.zero r Hs Er ltac:(lia) Ha) as (E2&El&(r'&Er')&Hx).
      rewrite (bind_eq _ _ _ _ _ E2). set (b := take (Z.to_nat (Z.of_nat n)) r) in *.
      destruct (Z.eqb_spec (Z.of_nat n) 1); [lia|]. cbn [andb]. right; right.
      exists (VBytes b). eexists _, (IStr b), r'. split; [reflexivity|]. apply Nat2Z.inj in El.
      assert (enc (IStr b) = puthead 128 183 (Z.of_nat n) ++ b) as ->.
      { cbn [enc]. rewrite encString_long, El; [done|]. intros d Ed. rewrite Ed in El. cbn in El. lia. }
      split_and!; [by apply sh_leaf|by apply st_array|done|rewrite length_app; lia|done].
    + right; left. split; [done|]. by do 3 eexists.
Qed.

Lemma after_refl s : st_kind s = None -> after 0 s s.
Proof.
  intros Hf. unfold after. rewrite drop_0. split_and!; [done|lia| |done].
  destruct (st_stack s) as [|[p z] st]; [done|]. cbn. by rewrite Z.add_0_r.
Qed.

Section Elements.
Context (t : rtype) (dec : rval -> M Stream (option rlpErr * rval)) (z : rval) (L : nat) (Hz : shaped t z).
Hypothesis Hdec : forall v s, shaped t v -> stream_ok s -> st_kind s = None -> (length (st_r s) <= L)%nat -> decodes t s (dec v s).

Lemma decodeElems_sound k acc old s : stream_ok s -> st_kind s = None -> (length (st_r s) < k)%nat -> (length (st_r s) <= L)%nat ->
  Forall (shaped t) old ->
  (exists e l s', decodeElems k dec z acc old s = (Ret (Some e, l), s') /\ e <> EOL) \/
  exists vs js s' r, decodeElems k dec z acc old s = (Ret (None, acc ++ vs), s') /\ Forall (shaped t) vs /\ Forall2 (stands t) vs js /\
    st_r s = encs js ++ r /\ Z.of_nat (length (encs js)) <= avail s /\ after (Z.of_nat (length (encs js))) s s' /\ atEnd s' = true.
Proof using Hdec Hz.
  revert acc old s. induction k as [|k IH]; intros acc old s Hs Hf Hk HL Hold; [lia|]. cbn [decodeElems].
  assert (shaped t (default z (head old))) as Hv by (destruct old as [|x old]; [done|by apply Forall_cons in Hold as [? _]]).
  pose proof (avail_pos s Hs) as Hp.
  destruct (Hdec _ s Hv Hs Hf HL) as [[He (v&E)]|[[He (e&v&s'&E&Hne)]|(v&s1&i&r&E&Hsh&Hst&Er&Hl&Hx)]]; rewrite (bind_eq _ _ _ _ _ E).
  - right. exists [], [], (freshErr s), (st_r s). rewrite app_nil_r. change (Z.of_nat (length (encs []))) with 0. split_and!; try done; [lia|].
    destruct (after_refl s Hf) as (H1&H2&H3&_). by split_and!.
  - left. destruct e; try done; by do 3 eexists.
  - pose proof (after_ok (Z.of_nat (length (enc i))) s s1 Hs ltac:(lia) Hx) as Hs1.
    pose proof (after_avail (Z.of_nat (length (enc i))) s s1 ltac:(lia) Hx) as Ha1. pose proof Hx as (Er1&_&_&Hk1).
    rewrite Er, Nat2Z.id, drop_app_length in Er1. pose proof (enc_pos i). apply (f_equal length) in Er as Elen. rewrite length_app in Elen.
    destruct (IH (acc ++ [v]) (tail old) s1 Hs1 Hk1) as [(e&l&s'&E2&Hne)|(vs&js&s'&r'&E2&Hshs&Hsts&Er2&Hl2&Hx2&Hend)].
    { rewrite Er1. lia. } { rewrite Er1. lia. } { destruct old; [done|]. by apply Forall_cons in Hold as [_ ?]. }
    + left. rewrite E2. by do 3 eexists.
    + right. exists (v :: vs), (i :: js), s', r'. rewrite E2, <- app_assoc. rewrite encs_cons, length_app, Nat2Z.inj_add. split_and!.
      * done.
      * by constructor.
      * by constructor.
      * rewrite Er. rewrite Er1 in Er2. by rewrite Er2, app_assoc.
      * lia.
      * apply (after_trans _ _ s s1 s'); [lia..|done|done].
      * done.
Qed.

Lemma decodeListSlice_sound old s : stream_ok s -> st_kind s = None -> (length (st_r s) <= S L)%nat -> Forall (shaped t) old ->
  atEnd s = true /\ (exists l, decodeListSlice dec z old s = (Ret (Some EOL, l), freshErr s)) \/
  atEnd s = false /\ (exists e l s', decodeListSlice dec z old s = (Ret (Some e, l), s') /\ e <> EOL) \/
  exists vs js s' r, decodeListSlice dec z old s = (Ret (None, vs), s') /\ Forall (shaped t) vs /\ Forall2 (stands t) vs js /\
    st_r s = enc (IList js) ++ r /\ Z.of_nat (length (enc (IList js))) <= avail s /\ after (Z.of_nat (length (enc (IList js)))) s s'.
Proof using Hdec Hz.
  intros Hs Hf HL Hold. unfold decodeListSlice. pose proof (avail_pos s Hs) as Hp.
  destruct (List_cases s Hs Hf) as [[He E]|[[He (x&s'&E&Hne)]|(n&r&E&Er&Hn&Ha)]].
  - left. rewrite (bind_eq _ _ _ _ _ E). by split; [|eexists].
  - right; left. rewrite (bind_eq _ _ _ _ _ E). split; [done|]. do 3 eexists. split; [reflexivity|]. by apply wrap_eol.
  - right. rewrite (bind_eq _ _ _ _ _ E). set (m := Z.of_nat (length (puthead 192 247 n))) in *.
    assert (1 <= m) as Hm by (unfold m, puthead; case_match; cbn [length]; lia).
    assert (atEnd s = false) as He by (apply not_atEnd; lia).
    set (s1 := pushed m n s). assert (stream_ok s1) as Hs1 by (apply pushed_ok; done || lia).
    assert (st_r s1 = r) as Er1 by (cbn; unfold m; by rewrite Nat2Z.id, Er, drop_app_length).
    assert (avail s1 = n) as Ha1 by apply avail_pushed. apply (f_equal length) in Er as Elen. rewrite length_app in Elen.
    destruct (Z.eqb_spec n 0) as [->|Hn0].
    + right. destruct (ListEnd_ok m 0 s s1 Hs ltac:(lia) ltac:(lia) Ha (after_refl s1 eq_refl)) as (s3&E3&Hx).
      rewrite (bind_eq _ _ _ _ _ E3). exists [], [], s3, r. replace (m + 0) with m in * by lia. by split_and!.
    + rewrite bind_get. destruct (decodeElems_sound (S (length (st_r s1))) [] old s1 Hs1 eq_refl ltac:(lia) ltac:(rewrite Er1; lia) Hold)
        as [(e&l&s'&E2&Hne)|(vs&js&s2&r'&E2&Hshs&Hsts&Er2&Hl2&Hx2&Hend)]; rewrite (bind_eq _ _ _ _ _ E2).
      * left. split; [done|]. by do 3 eexists.
      * right. rewrite app_nil_l. set (x := Z.of_nat (length (encs js))) in *.
        assert (x = n) as Hxn by (destruct Hx2 as (_&_&Es&_); unfold atEnd in Hend; rewrite Es in Hend; cbn in Hend; lia).
        rewrite Hxn in *. destruct (ListEnd_ok m n s s2 Hs ltac:(lia) ltac:(lia) Ha Hx2) as (s3&E3&Hx3).
        rewrite (bind_eq _ _ _ _ _ E3).
        assert (enc (IList js) = puthead 192 247 n ++ encs js) as Ee by (rewrite enc_list; unfold encList; by fold x; rewrite Hxn).
        exists vs, js, s3, r'. rewrite Ee, length_app, Nat2Z.inj_add. fold m x. rewrite Hxn. split_and!; try done.
        rewrite Er, <- app_assoc, <- Er2. by rewrite Er1.
Qed.
End Elements.

Lemma decodeFields_sound (dec : rtype -> rval -> M Stream (option rlpErr * rval)) ts vs s :
  Forall (fun t => forall v s', shaped t v -> stream_ok s' -> st_kind s' = None -> (length (st_r s') <= length (st_r s))%nat -> decodes t s' (dec t v s')) ts ->
  Forall2 shaped ts vs -> stream_ok s -> st_kind s = None ->
  (exists e l s', decodeFields dec ts vs s = (Ret (Some e, l), s') /\ e <> EOL) \/
  exists l js s' r, decodeFields dec ts vs s = (Ret (None, l), s') /\ Forall2 shaped ts l /\ standsAll ts l js /\
    st_r s = encs js ++ r /\ Z.of_nat (length (encs js)) <= avail s /\ after (Z.of_nat (length (encs js))) s s'.
Proof.
  intros Hdec Hsh. revert s Hdec. induction Hsh as [|t v ts vs Hv Hsh IH]; intros s Hdec Hs Hf; pose proof (avail_pos s Hs) as Hp.
  - right. exists [], [], s, (st_r s). change (Z.of_nat (length (encs []))) with 0. cbn [decodeFields].
    split_and!; try done; [by constructor|lia|by apply after_refl].
  - apply Forall_cons in Hdec as [Hd Hdec]. cbn [decodeFields].
    destruct (Hd v s Hv Hs Hf ltac:(lia)) as [[He (v'&E)]|[[He (e&v'&s'&E&Hne)]|(v'&s1&i&r&E&Hv'&Hst&Er&Hl&Hx)]]; rewrite (bind_eq _ _ _ _ _ E).
    + left. by do 3 eexists.
    + left. do 3 eexists. split; [reflexivity|]. by case_bool_decide.
    + pose proof (after_ok (Z.of_nat (length (enc i))) s s1 Hs ltac:(lia) Hx) as Hs1.
      pose proof (after_avail (Z.of_nat (length (enc i))) s s1 ltac:(lia) Hx) as Ha1. pose proof Hx as (Er1&_&_&Hk1).
      rewrite Er, Nat2Z.id, drop_app_length in Er1. apply (f_equal length) in Er as Elen. rewrite length_app in Elen.
      destruct (IH s1) as [(e&l&s'&E2&Hne)|(l&js&s'&r'&E2&Hshs&Hsts&Er2&Hl2&Hx2)]; [|done..| |].
      { eapply Forall_impl; [exact Hdec|]. cbn beta. intros t' Ht' w s' ??? Hlen. apply Ht'; [done..|]. rewrite Er1 in Hlen. lia. }
      * left. rewrite (bind_eq _ _ _ _ _ E2). by do 3 eexists.
      * right. rewrite (bind_eq _ _ _ _ _ E2). exists (v' :: l), (i :: js), s', r'. rewrite encs_cons, length_app, Nat2Z.inj_add. split_and!.
        -- done.
        -- by constructor.
        -- by constructor.
        -- rewrite Er. rewrite Er1 in Er2. by rewrite Er2, app_assoc.
        -- lia.
        -- apply (after_trans _ _ s s1 s'); [lia..|done|done].
Qed.

(** A kind that is known is not read again. *)
Lemma kind_again {A} (k : Kind * Z -> M Stream (rlpErr + A)) s x s1 :
  kindOf s = (Ret (inr x), s1) -> kindOf s1 = (Ret (inr x), s1) -> tryR kindOf k s = tryR kindOf k s1.
Proof. intros E E1. by rewrite (tryR_ok _ _ _ _ _ E), (tryR_ok _ _ _ _ _ E1). Qed.

Lemma decodes_ptr t s (f : option rlpErr * rval -> option rlpErr * rval) m :
  (forall e x, exists w, f (Some e, x) = (Some e, w)) -> (forall x, f (None, x) = (None, VPtr (Some x))) ->
  decodes t s (m s) -> decodes (TPtr t) s ((r <- m ;; ret (f r)) s).
Proof.
  intros He Hn [[Hend (v&E)]|[[Hend (e&v&s'&E&Hne)]|(v&s1&i&r&E&Hv&Hst&Er&Hl&Hx)]]; rewrite (bind_eq _ _ _ _ _ E).
  - left. split; [done|]. destruct (He EOL v) as [w Ew]. exists w. unfold ret. by rewrite Ew.
  - right; left. split; [done|]. destruct (He e v) as [w Ew]. exists e, w, s'. unfold ret. by rewrite Ew.
  - right; right. exists (VPtr (Some v)), s1, i, r. unfold ret. rewrite Hn. split_and!; [done|by apply sh_ptr|by apply st_ptr|done..].
Qed.

Lemma foldr_max_le n l : n ∈ l -> (n <= foldr Nat.max 0 l)%nat.
Proof. induction 1 as [|x y l _ IH]; cbn; lia. Qed.

(** What a decoder of a strict type accepts is the encoding of the value it returns;
    and it comes to an end, as its fuel bounds the nesting. *)
Lemma decode_sound fuel t v s : strict t -> shaped t v -> stream_ok s -> st_kind s = None ->
  (depth t + length (st_r s) <= fuel)%nat -> decodes t s (decode fuel t v s).
Proof.
  revert t v s. induction fuel as [|fuel IH]; intros t v s Ht Hv Hs Hf Hfuel; [destruct t; cbn in Hfuel; lia|].
  pose proof (avail_pos s Hs) as Hp.
  destruct Ht as [bits Hb| | | |n Hn Hn2|t Ht|ts Hts|t Ht|]; cbn [decode depth] in *.
  - destruct (uint_cases bits s Hb Hs Hf) as [Hr Hi]. apply (decodes_setFrom _ _ (fun i => encString (bigBytes i))); [done..|intros; apply encString_pos|].
    intros i s' E. exists (IStr (bigBytes i)). split; [|done]. apply st_uint; [done|]. by eapply Hi.
  - apply (decodes_setFrom _ _ encBool); [done|by apply Bool_cases|intros b; apply encString_pos|]. intros b s' _. eexists. split; [apply st_bool|apply enc_bool].
  - by apply decodes_big.
  - apply (decodes_setFrom _ _ encString); [done|by apply Bytes_cases|apply encString_pos|]. intros b s' _. exists (IStr b). by split; [apply st_bytes|].
  - by apply decodes_array.
  - inversion Hv as [| t' l Hl| | |]; subst; [done|]. cbn [listOf].
    destruct (decodeListSlice_sound t (decode fuel t) (zero t) (length (st_r s) - 1) (zero_shaped t)) with (old := l) (s := s)
      as [[He (l'&E)]|[[He (e&l'&s'&E&Hne)]|(vs&js&s'&r&E&Hsh&Hst&Er&Hle&Hx)]]; try done.
    + intros w s' Hw Hs' Hf' Hlen. apply IH; [done..|lia].
    + lia.
    + rewrite (bind_eq _ _ _ _ _ E). left. by split; [|eexists].
    + rewrite (bind_eq _ _ _ _ _ E). right; left. split; [done|]. by do 3 eexists.
    + rewrite (bind_eq _ _ _ _ _ E). right; right. exists (VList vs), s', (IList js), r. split_and!; [done|by apply sh_slice|by apply st_slice|done..].
  - inversion Hv as [| |ts' l Hl| |]; subst; [done|]. cbn [listOf].
    destruct (List_cases s Hs Hf) as [[He E]|[[He (x&s'&E&Hne)]|(n&r&E&Er&Hn&Ha)]]; rewrite (bind_eq _ _ _ _ _ E).
    + left. by split; [|eexists].
    + right; left. split; [done|]. do 3 eexists. split; [reflexivity|]. by apply wrap_eol.
    + right. set (m := Z.of_nat (length (puthead 192 247 n))) in *.
      assert (1 <= m) as Hm by (unfold m, puthead; case_match; cbn [length]; lia).
      assert (atEnd s = false) as He by (apply not_atEnd; lia).
      set (s1 := pushed m n s). assert (stream_ok s1) as Hs1 by (apply pushed_ok; done || lia).
      assert (st_r s1 = r) as Er1 by (cbn; unfold m; by rewrite Nat2Z.id, Er, drop_app_length).
      apply (f_equal length) in Er as Elen. rewrite length_app in Elen.
      destruct (decodeFields_sound (decode fuel) ts l s1) as [(e&l'&s'&E2&Hne)|(vs&js&s2&r'&E2&Hshs&Hsts&Er2&Hl2&Hx2)]; try done.
      { rewrite Forall_forall in Hts |- *. intros t Hin w s' Hw Hs' Hf' Hlen. apply IH; [by apply Hts|done..|].
        pose proof (foldr_max_le (depth t) (map depth ts) ltac:(by apply list_elem_of_fmap_2)). rewrite Er1 in Hlen. lia. }
      * left. split; [done|]. rewrite (bind_eq _ _ _ _ _ E2). by do 3 eexists.
      * rewrite (bind_eq _ _ _ _ _ E2). set (x := Z.of_nat (length (encs js))) in *. destruct (Z.eq_dec x n) as [Hxn|Hxn].
        -- right. rewrite Hxn in *. destruct (ListEnd_ok m n s s2 Hs ltac:(lia) ltac:(lia) Ha Hx2) as (s3&E3&Hx3).
           rewrite (bind_eq _ _ _ _ _ E3).
           assert (enc (IList js) = puthead 192 247 n ++ encs js) as Ee by (rewrite enc_list; unfold encList; by fold x; rewrite Hxn).
           exists (VList vs), s3, (IList js), r'. rewrite Ee, length_app, Nat2Z.inj_add. fold m x. rewrite Hxn.
           split_and!; [done|by apply sh_struct|by apply st_struct| |lia|done]. rewrite Er, <- app_assoc, <- Er2. by rewrite Er1.
        -- left. split; [done|]. destruct (ListEnd_fails m n x s s2 Hx2 Hxn) as (e&s3&E3&Hne). rewrite (bind_eq _ _ _ _ _ E3).
           do 3 eexists. split; [reflexivity|]. by apply wrap_eol.
  - inversion Hv as [| | | t'|t' w Hw]; subst; [done|..].
    + apply (decodes_ptr t s (fun r => match r with (Some e, _) => (Some e, VPtr None) | (None, x) => (None, VPtr (Some x)) end)); [by eexists|done|].
      apply IH; [done|apply zero_shaped|done..|lia].
    + apply (decodes_ptr t s (fun r => (r.1, VPtr (Some r.2)))); [by eexists|done|]. by apply IH; [..|lia].
  - destruct (kindOf_cases s Hs Hf) as [[He E]|[[He (x&s'&E&Hne)]|(hd&kd&n&c&r&Hh&Er&Ha)]].
    + rewrite (bind_eq _ _ _ _ _ E). left. by split; [|eexists].
    + rewrite (bind_eq _ _ _ _ _ E). right; left. split; [done|]. by do 3 eexists.
    + pose proof (kindOf_ok s hd kd n c r Hs Hf Hh Er Ha) as E. rewrite (bind_eq _ _ _ _ _ E).
      set (s1 := ahead (Z.of_nat (length hd)) kd n c s) in *. pose proof (header_pos _ _ _ _ Hh). pose proof (header_size _ _ _ _ Hh).
      assert (atEnd s = false) as He by (apply not_atEnd; lia).
      assert (Bytes s1 = Bytes s) as Eb by (symmetry; exact (kind_again bytesBody _ _ _ E (kindOf_again _ _ _ _ _))).
      assert (decodeListSlice (decode fuel TIface) VNil [] s1 = decodeListSlice (decode fuel TIface) VNil [] s) as El.
      { unfold decodeListSlice, bind. assert (List s = List s1) as -> by (exact (kind_again _ _ _ _ E (kindOf_again _ _ _ _ _))). done. }
      assert (decodes TIface s ((r <- Bytes ;; ret (match r with inl e => (Some e, v) | inr b => (None, VBytes b) end)) s)) as Hbytes.
      { apply (decodes_leaf TIface Bytes encString); [done|by apply Bytes_cases|apply encString_pos|done|by eexists|].
        intros b s' _. right. split; [done|]. exists (IStr b). by split; [apply st_ibytes|]. }
      assert (decodes TIface s ((r <- decodeListSlice (decode fuel TIface) VNil [] ;;
        ret (match r with (Some e, _) => (Some e, v) | (None, l) => (None, VList l) end)) s)) as Hlist.
      { destruct (decodeListSlice_sound TIface (decode fuel TIface) VNil (length (st_r s) - 1) (zero_shaped TIface)) with (old := @nil rval) (s := s)
          as [[He1 _]|[[_ (e&l'&s'&E1&Hne)]|(vs&js&s'&r'&E1&Hsh&Hst&Er1&Hle&Hx)]]; try done; [| |congruence|..].
        - intros w s' Hw Hs' Hf' Hlen. apply IH; [apply sc_iface|done..|]. cbn [depth].
          apply (f_equal length) in Er as Elen. rewrite length_app in Elen. lia.
        - lia.
        - rewrite (bind_eq _ _ _ _ _ E1). right; left. split; [done|]. by do 3 eexists.
        - rewrite (bind_eq _ _ _ _ _ E1). right; right. exists (VList vs), s', (IList js), r'.
          split_and!; [done|by apply sh_leaf|by apply st_ilist|done..]. }
      clearbody s1. unfold bind in Hbytes, Hlist |- *. destruct kd; rewrite ?Eb, ?El; done.
Qed.

(** ** Every encoding is accepted *)

(** Values without nil pointers, whose encodings are those of other values. *)
Fixpoint full (v : rval) : Prop :=
  match v with
  | VBig None | VPtr None | VNil => False
  | VPtr (Some v) => full v
  | VList l => (fix all (l : list rval) : Prop := match l with [] => True | v :: l => full v /\ all l end) l
  | _ => True
  end.
Lemma full_list l : full (VList l) <-> Forall full l.
Proof. cbn. induction l as [|v l IH]; [done|]. by rewrite Forall_cons, <- IH. Qed.

(** The encoding of a value is there, and the value is read. *)
Definition accepts (t : rtype) (d : rval -> M Stream (option rlpErr * rval)) (n : nat) : Prop :=
  forall v i v0 s r, stands t v i -> full v -> shaped t v0 -> stream_ok s -> st_kind s = None -> (length (st_r s) <= n)%nat ->
    st_r s = enc i ++ r -> Z.of_nat (length (enc i)) <= avail s ->
    exists s', d v0 s = (Ret (None, v), s') /\ after (Z.of_nat (length (enc i))) s s'.

Lemma after_next i s s1 r : stream_ok s -> st_r s = enc i ++ r -> Z.of_nat (length (enc i)) <= avail s -> after (Z.of_nat (length (enc i))) s s1 ->
  stream_ok s1 /\ st_kind s1 = None /\ st_r s1 = r /\ avail s1 = avail s - Z.of_nat (length (enc i)) /\ (length (st_r s1) < length (st_r s))%nat.
Proof.
  intros Hs Er Hl Hx. pose proof (avail_pos s Hs). pose proof (enc_pos i). pose proof Hx as (Er1&_&_&Hk).
  rewrite Er, Nat2Z.id, drop_app_length in Er1. split_and!.
  - by apply (after_ok (Z.of_nat (length (enc i))) s); [|lia|].
  - done.
  - done.
  - apply after_avail; [lia|done].
  - rewrite Er1, Er, length_app. lia.
Qed.

Section ElementsOk.
Context (t : rtype) (dec : rval -> M Stream (option rlpErr * rval)) (z : rval) (L : nat) (Hz : shaped t z) (Hacc : accepts t dec L).
Hypothesis Hdec : forall v s, shaped t v -> stream_ok s -> st_kind s = None -> (length (st_r s) <= L)%nat -> decodes t s (dec v s).

Lemma decodeElems_ok k acc old l js s r : Forall2 (stands t) l js -> Forall full l -> stream_ok s -> st_kind s = None ->
  (length (st_r s) < k)%nat -> (length (st_r s) <= L)%nat -> Forall (shaped t) old -> st_r s = encs js ++ r ->
  avail s = Z.of_nat (length (encs js)) -> st_stack s <> [] ->
  exists s', decodeElems k dec z acc old s = (Ret (None, acc ++ l), s') /\ after (Z.of_nat (length (encs js))) s s'.
Proof using Hdec Hz Hacc.
  intros H. revert k acc old s. induction H as [|v i l js Hst _ IH]; intros k acc old s Hfull Hs Hf Hk HL Hold Er Ha Hne;
    (destruct k as [|k]; [lia|]); cbn [decodeElems];
    (assert (shaped t (default z (head old))) as Hv by (destruct old as [|x old]; [done|by apply Forall_cons in Hold as [? _]])).
  - assert (atEnd s = true) as He.
    { unfold avail, atEnd in *. destruct (st_stack s) as [|[p q] st]; [done|]. change (Z.of_nat (length (encs []))) with 0 in Ha. lia. }
    destruct (Hdec _ s Hv Hs Hf HL) as [[_ (v&E)]|[[He' _]|(v&s1&i&r'&_&_&_&_&Hl&_)]]; [|congruence|].
    + rewrite (bind_eq _ _ _ _ _ E). exists (freshErr s). rewrite app_nil_r. split; [done|].
      destruct (after_refl s Hf) as (H1&H2&H3&_). change (Z.of_nat (length (encs []))) with 0. by split_and!.
    + pose proof (enc_pos i). rewrite Ha in Hl. change (length (encs [])) with 0%nat in Hl. lia.
  - apply Forall_cons in Hfull as [Hfv Hfull]. rewrite encs_cons in *. rewrite <- app_assoc in Er. rewrite length_app in Ha.
    destruct (Hacc v i _ s _ Hst Hfv Hv Hs Hf HL Er ltac:(lia)) as (s1&E&Hx). rewrite (bind_eq _ _ _ _ _ E).
    destruct (after_next i s s1 _ Hs Er ltac:(lia) Hx) as (Hs1&Hk1&Er1&Ha1&Hlen).
    destruct (IH k (acc ++ [v]) (tail old) s1) as (s'&E2&Hx2); try done; try lia.
    + destruct old; [done|]. by apply Forall_cons in Hold as [_ ?].
    + destruct Hx as (_&_&Es&_). rewrite Es. by destruct (st_stack s) as [|[p q] st].
    + exists s'. rewrite E2, <- app_assoc, length_app, Nat2Z.inj_add. split; [done|]. apply (after_trans _ _ s s1 s'); [lia..|done|done].
Qed.

Lemma enc_list_header js : enc (IList js) = puthead 192 247 (Z.of_nat (length (encs js))) ++ encs js.
Proof. by rewrite enc_list. Qed.

Lemma decodeListSlice_ok old l js s r : Forall2 (stands t) l js -> Forall full l -> stream_ok s -> st_kind s = None ->
  (length (st_r s) <= S L)%nat -> Forall (shaped t) old -> st_r s = enc (IList js) ++ r -> Z.of_nat (length (enc (IList js))) <= avail s ->
  exists s', decodeListSlice dec z old s = (Ret (None, l), s') /\ after (Z.of_nat (length (enc (IList js)))) s s'.
Proof using Hdec Hz Hacc.
  intros H Hfull Hs Hf HL Hold Er Ha. pose proof (avail_pos s Hs) as Hp. rewrite enc_list_header in *.
  set (n := Z.of_nat (length (encs js))) in *. rewrite length_app in Ha |- *. rewrite <- app_assoc in Er.
  pose proof (List_ok s n (encs js ++ r) Hs Hf Er ltac:(lia) ltac:(lia)) as E. unfold decodeListSlice. rewrite (bind_eq _ _ _ _ _ E).
  set (m := Z.of_nat (length (puthead 192 247 n))) in *. set (s1 := pushed m n s).
  assert (1 <= m) as Hm by (unfold m, puthead; case_match; cbn [length]; lia).
  assert (stream_ok s1) as Hs1 by (apply pushed_ok; done || lia).
  assert (st_r s1 = encs js ++ r) as Er1 by (cbn; unfold m; by rewrite Nat2Z.id, Er, drop_app_length).
  apply (f_equal length) in Er as Elen. rewrite length_app in Elen. rewrite Nat2Z.inj_add. fold m n.
  destruct (Z.eqb_spec n 0) as [Hn0|Hn0].
  - assert (js = []) as -> by (destruct js as [|i js]; [done|]; unfold n in Hn0; rewrite encs_cons, length_app in Hn0; pose proof (enc_pos i); lia).
    inversion H; subst l. pose proof (after_refl s1 eq_refl) as Hx0. rewrite <- Hn0 in Hx0.
    destruct (ListEnd_ok m n s s1 Hs ltac:(lia) ltac:(lia) ltac:(lia) Hx0) as (s3&E3&Hx). rewrite (bind_eq _ _ _ _ _ E3). by exists s3.
  - rewrite bind_get.
    destruct (decodeElems_ok (S (length (st_r s1))) [] old l js s1 r H Hfull Hs1 eq_refl ltac:(lia) ltac:(rewrite Er1; lia) Hold Er1 ltac:(apply avail_pushed) ltac:(done))
      as (s2&E2&Hx2). rewrite (bind_eq _ _ _ _ _ E2). fold n in Hx2.
    destruct (ListEnd_ok m n s s2 Hs ltac:(lia) ltac:(lia) ltac:(lia) Hx2) as (s3&E3&Hx3). rewrite (bind_eq _ _ _ _ _ E3). by exists s3.
Qed.
End ElementsOk.

Lemma decodeFields_ok (dec : rtype -> rval -> M Stream (option rlpErr * rval)) ts l js vs s r n :
  Forall (fun t => accepts t (dec t) n) ts -> standsAll ts l js -> Forall full l -> Forall2 shaped ts vs ->
  stream_ok s -> st_kind s = None -> (length (st_r s) <= n)%nat -> st_r s = encs js ++ r -> Z.of_nat (length (encs js)) <= avail s ->
  exists s', decodeFields dec ts vs s = (Ret (None, l), s') /\ after (Z.of_nat (length (encs js))) s s'.
Proof.
  intros Hacc H. revert vs s Hacc. induction H as [|t ts v l i js Hst H IH]; intros vs s Hacc Hfull Hvs Hs Hf HL Er Ha.
  - inversion Hvs; subst. exists s. split; [done|by apply after_refl].
  - inversion Hvs as [|? v0 ? vs' Hv Hvs']; subst. apply Forall_cons in Hfull as [Hfv Hfull]. apply Forall_cons in Hacc as [Hd Hacc].
    rewrite encs_cons in *. rewrite <- app_assoc in Er. rewrite length_app in Ha. cbn [decodeFields].
    destruct (Hd v i v0 s _ Hst Hfv Hv Hs Hf HL Er ltac:(lia)) as (s1&E&Hx). rewrite (bind_eq _ _ _ _ _ E).
    destruct (after_next i s s1 _ Hs Er ltac:(lia) Hx) as (Hs1&Hk1&Er1&Ha1&Hlen).
    destruct (IH vs' s1 Hacc Hfull Hvs' Hs1 Hk1 ltac:(lia) Er1 ltac:(lia)) as (s'&E2&Hx2). rewrite (bind_eq _ _ _ _ _ E2).
    exists s'. rewrite length_app, Nat2Z.inj_add. split; [done|]. apply (after_trans _ _ s s1 s'); [lia..|done|done].
Qed.

(** Fields up to one that is not read. *)
Lemma decodeFields_stop (dec : rtype -> rval -> M Stream (option rlpErr * rval)) ts l js vs t ts2 v0 vs2 e v s r n :
  Forall (fun t => accepts t (dec t) n) ts -> standsAll ts l js -> Forall full l -> Forall2 shaped ts vs ->
  stream_ok s -> st_kind s = None -> (length (st_r s) <= n)%nat -> st_r s = encs js ++ r -> Z.of_nat (length (encs js)) <= avail s ->
  e <> EOL ->
  (forall s1, stream_ok s1 -> st_kind s1 = None -> st_r s1 = r -> avail s1 = avail s - Z.of_nat (length (encs js)) ->
     exists s2, dec t v0 s1 = (Ret (Some e, v), s2)) ->
  exists s', decodeFields dec (ts ++ t :: ts2) (vs ++ v0 :: vs2) s = (Ret (Some e, l ++ v :: vs2), s').
Proof.
  intros Hacc H. revert vs s Hacc. induction H as [|t1 ts v1 l i js Hst H IH]; intros vs s Hacc Hfull Hvs Hs Hf HL Er Ha He Hd.
  - inversion Hvs; subst. cbn [app decodeFields]. destruct (Hd s Hs Hf Er) as (s2&E); [change (encs []) with (@nil Ascii.ascii); cbn; lia|].
    rewrite (bind_eq _ _ _ _ _ E). rewrite bool_decide_false by done. by exists s2.
  - inversion Hvs as [|? w ? vs' Hv Hvs']; subst. apply Forall_cons in Hfull as [Hfv Hfull]. apply Forall_cons in Hacc as [Hdec Hacc].
    rewrite encs_cons in *. rewrite <- app_assoc in Er. rewrite length_app in Ha. cbn [app decodeFields].
    destruct (Hdec v1 i w s _ Hst Hfv Hv Hs Hf HL Er ltac:(lia)) as (s1&E&Hx). rewrite (bind_eq _ _ _ _ _ E).
    destruct (after_next i s s1 _ Hs Er ltac:(lia) Hx) as (Hs1&Hk1&Er1&Ha1&Hlen).
    destruct (IH vs' s1 Hacc Hfull Hvs' Hs1 Hk1 ltac:(lia) Er1 ltac:(lia) He) as (s'&E2).
    { intros s2 Hs2 Hf2 Er2 Ha2. apply Hd; [done..|]. rewrite length_app in *. lia. }
    rewrite (bind_eq _ _ _ _ _ E2). by exists s'.
Qed.

(** A nil pointer to an array of bytes, which is written as an empty string, is not
    read back. *)
Lemma decode_nil_array fuel n s r : (0 < n)%nat -> stream_ok s -> st_kind s = None -> st_r s = enc (IStr []) ++ r -> 1 <= avail s ->
  exists s', decode (S (S fuel)) (TPtr (TArray n)) (VPtr None) s = (Ret (Some (decodeError inputStringTooShort), VPtr None), s').
Proof.
  intros Hn Hs Hf Er Ha. cbn [decode]. unfold decodeByteArray.
  assert (header [tobyte 128] String_ 0 Ascii.zero) as Hh by (apply (hd_string 0); unfold two64; lia).
  unfold bind at 1. rewrite (bind_eq _ _ _ _ _ (kindOf_ok s [tobyte 128] String_ 0 _ r Hs Hf Hh Er ltac:(cbn [length]; lia))).
  destruct (Z.ltb_spec (Z.of_nat n) 0); [lia|]. destruct (Z.ltb_spec 0 (Z.of_nat n)); [|lia]. by eexists.
Qed.

Lemma accepts_bind {A} (m : M Stream (rlpErr + A)) (k : rlpErr + A -> option rlpErr * rval) s b a v :
  provides m b a s -> k (inr a) = (None, v) -> forall r, st_r s = b ++ r -> Z.of_nat (length b) <= avail s ->
  exists s', (r <- m ;; ret (k r)) s = (Ret (None, v), s') /\ after (Z.of_nat (length b)) s s'.
Proof.
  intros Hm Hk r Er Ha. destruct (Hm r Er Ha) as (s'&E&Hx). exists s'. split; [|done].
  rewrite (bind_eq _ _ _ _ _ E), Hk. done.
Qed.

Lemma accepts_array n m : n <> 1%nat -> Z.of_nat n < two64 -> accepts (TArray n) (decodeByteArray n) m.
Proof.
  intros Hn Hn2 v i v0 s r Hst _ _ Hs Hf _ Er Ha. inversion Hst as [| | | | |b k Hb| | | | | | | | |]; subst. cbn [enc] in Er, Ha |- *.
  destruct (encString_forms b Hn2) as [(c&->&_)|(Ee&Hh&_)]; [done|]. rewrite Ee in *.
  rewrite <- app_assoc in Er. rewrite length_app in Ha. pose proof (avail_pos s Hs).
  set (n := Z.of_nat (length b)) in *. unfold decodeByteArray. fold n.
  rewrite (bind_eq _ _ _ _ _ (kindOf_ok s _ String_ n _ _ Hs Hf Hh Er ltac:(lia))).
  destruct (readFull_content s _ n Ascii.zero _ Hs Er ltac:(lia) ltac:(lia)) as (E&El&_&Hx).
  unfold n in E, El, Hx. rewrite Nat2Z.id, take_app_length in E, El, Hx. fold n in E, El, Hx.
  destruct (Z.ltb_spec n n); [lia|]. rewrite (bind_eq _ _ _ _ _ E). eexists. split; [|exact Hx].
  destruct (Z.eqb_spec n 1); [lia|]. done.
Qed.

Lemma accepts_iface fuel n : accepts TIface (decode fuel TIface) (n - 1) ->
  (forall v s, shaped TIface v -> stream_ok s -> st_kind s = None -> (length (st_r s) <= n - 1)%nat -> decodes TIface s (decode fuel TIface v s)) ->
  accepts TIface (decode (S fuel) TIface) n.
Proof.
  intros IH Hdec v i v0 s r Hst Hfull _ Hs Hf HL Er Ha. cbn [decode].
  inversion Hst as [| | | | | | | | | | | |b|l js Hl|]; subst; [| |done].
  - destruct (bytesBody_ok s b r Hs Hf Er Ha) as (k&m&s1&s'&E1&E2&Hk&E3&Hx). rewrite (bind_eq _ _ _ _ _ E1).
    assert (Bytes s1 = (Ret (inr b), s')) as Eb.
    { change Bytes with (tryR kindOf bytesBody). assert (kindOf s1 = (Ret (inr k), s1)) as Ek by (rewrite E2; rewrite kindOf_again; by destruct k).
      by rewrite (tryR_ok _ _ _ _ _ Ek). }
    exists s'. split; [|done]. destruct k as [[| |] z]; [| |done]; by rewrite (bind_eq _ _ _ _ _ Eb).
  - apply full_list in Hfull. pose proof Er as Er'. rewrite enc_list_header, <- app_assoc in Er'. rewrite enc_list_header, length_app in Ha.
    set (k := Z.of_nat (length (encs js))) in *. pose proof (avail_pos s Hs).
    assert (header (puthead 192 247 k) List_ k Ascii.zero) as Hh by (apply hd_list; lia).
    pose proof (kindOf_ok s _ List_ k _ _ Hs Hf Hh Er' ltac:(lia)) as E1. rewrite (bind_eq _ _ _ _ _ E1). set (s1 := ahead _ _ _ _ s) in *.
    assert (decodeListSlice (decode fuel TIface) VNil [] s1 = decodeListSlice (decode fuel TIface) VNil [] s) as El.
    { unfold decodeListSlice, bind. assert (List s = List s1) as -> by (exact (kind_again _ _ _ _ E1 (kindOf_again _ _ _ _ _))). done. }
    destruct (decodeListSlice_ok TIface (decode fuel TIface) VNil (n - 1) ltac:(by apply sh_leaf) IH Hdec [] l js s r) as (s'&E&Hx); try done.
    { lia. } { rewrite enc_list_header, length_app. fold k. lia. }
    exists s'. split; [|done]. cbn [fst snd]. rewrite (bind_eq _ _ _ _ _ (eq_trans El E)). done.
Qed.

(** The decoder of a strict type reads the values of the type, whatever it decodes
    into. *)
Lemma decode_ok fuel t n : strict t -> (depth t + n <= fuel)%nat -> accepts t (decode fuel t) n.
Proof.
  revert t n. induction fuel as [|fuel IH]; intros t n Ht Hfuel; [destruct t; cbn in Hfuel; lia|].
  destruct Ht as [bits Hb| | | |k Hn Hn2|t Ht|ts Hts|t Ht|]; cbn [depth] in Hfuel.
  - intros v i v0 s r Hst _ _ Hs Hf _ Er Ha. inversion Hst; subst. cbn [enc] in *.
    eapply (accepts_bind (uint bits)); [by apply uint_provides|done..].
  - intros v i v0 s r Hst _ _ Hs Hf _ Er Ha. inversion Hst; subst. rewrite enc_bool in *.
    eapply (accepts_bind Bool); [by apply Bool_provides|done..].
  - intros v i v0 s r Hst Hfull _ Hs Hf _ Er Ha. inversion Hst as [| | |j Hj| | | | | | | | | | |]; subst; [done|]. cbn [enc] in *.
    eapply (accepts_bind Bytes); [by apply Bytes_ok| |done..]. pose proof (bigend_bigBytes j Hj) as Eb.
    destruct (Z.eq_dec j 0) as [->|]; [done|]. destruct (bigBytes_spec j ltac:(lia)) as [Hm _].
    destruct (bigBytes j) as [|c b]; [by rewrite Eb|]. destruct (Z.eqb_spec (byteval c) 0); [by destruct Hm|by rewrite Eb].
  - intros v i v0 s r Hst _ _ Hs Hf _ Er Ha. inversion Hst; subst. cbn [enc] in *.
    eapply (accepts_bind Bytes); [by apply Bytes_ok|done..].
  - by apply accepts_array.
  - intros v i v0 s r Hst Hfull Hv Hs Hf HL Er Ha. inversion Hst as [| | | | | |t' l js Hl| | | | | | | |]; subst. apply full_list in Hfull.
    inversion Hv as [| t' l0 Hl0| | |]; subst; [done|]. cbn [decode listOf].
    destruct (decodeListSlice_ok t (decode fuel t) (zero t) n (zero_shaped t)) with (old := l0) (l := l) (js := js) (s := s) (r := r)
      as (s'&E&Hx); try done; [by apply IH; [|lia]| |lia|].
    + intros w s' Hw Hs' Hf' Hlen. apply decode_sound; [done..|lia].
    + exists s'. split; [|done]. by rewrite (bind_eq _ _ _ _ _ E).
  - intros v i v0 s r Hst Hfull Hv Hs Hf HL Er Ha. inversion Hst as [| | | | | | |ts' l js Hl| | | | | | |]; subst. apply full_list in Hfull.
    inversion Hv as [| |ts' l0 Hl0| |]; subst; [done|]. cbn [decode listOf]. rewrite enc_list_header in *.
    set (k := Z.of_nat (length (encs js))) in *. rewrite length_app in Ha. rewrite <- app_assoc in Er. pose proof (avail_pos s Hs).
    rewrite (bind_eq _ _ _ _ _ (List_ok s k (encs js ++ r) Hs Hf Er ltac:(lia) ltac:(lia))).
    set (m := Z.of_nat (length (puthead 192 247 k))) in *. set (s1 := pushed m k s).
    assert (stream_ok s1) as Hs1 by (apply pushed_ok; done || lia).
    assert (st_r s1 = encs js ++ r) as Er1 by (cbn; unfold m; by rewrite Nat2Z.id, Er, drop_app_length).
    apply (f_equal length) in Er as Elen. rewrite length_app in Elen.
    destruct (decodeFields_ok (decode fuel) ts l js l0 s1 r n) as (s2&E2&Hx2); try done.
    { apply Forall_forall. intros t Hin. rewrite Forall_forall in Hts. apply IH; [by apply Hts|].
      pose proof (foldr_max_le (depth t) (map depth ts) ltac:(by apply list_elem_of_fmap_2)). lia. }
    { rewrite Er1. lia. }
    { unfold s1. rewrite avail_pushed. fold k. lia. }
    rewrite (bind_eq _ _ _ _ _ E2). fold k in Hx2.
    destruct (ListEnd_ok m k s s2 Hs ltac:(lia) ltac:(lia) ltac:(lia) Hx2) as (s3&E3&Hx3). rewrite (bind_eq _ _ _ _ _ E3).
    exists s3. rewrite length_app, Nat2Z.inj_add. done.
  - intros v i v0 s r Hst Hfull Hv Hs Hf HL Er Ha. inversion Hst as [| | | | | | | |t' w j Hw| | | | | |]; subst; [|done]. cbn [decode].
    destruct v0 as [| | | | |[x|]|]; try (destruct (IH t n Ht ltac:(lia) w i (zero t) s r Hw Hfull (zero_shaped t) Hs Hf HL Er Ha) as (s'&E&Hx);
      exists s'; split; [by rewrite (bind_eq _ _ _ _ _ E)|done]).
    inversion Hv as [? ? Hno| | | |? ? Hx0]; subst; [done|].
    destruct (IH t n Ht ltac:(lia) w i x s r Hw Hfull Hx0 Hs Hf HL Er Ha) as (s'&E&Hx). exists s'. by rewrite (bind_eq _ _ _ _ _ E).
  - destruct (Nat.eq_dec n 0) as [->|Hn].
    { intros v i v0 s r _ _ _ _ _ HL Er _. apply (f_equal length) in Er. rewrite length_app in Er. pose proof (enc_pos i). lia. }
    apply accepts_iface.
    + apply IH; [apply sc_iface|cbn [depth]; lia].
    + intros v s Hv Hs Hf Hlen. apply decode_sound; [apply sc_iface|done..|cbn [depth]; lia].
Qed.

(** ** Encoding and decoding *)

Lemma NewStream_ok b : Z.of_nat (length b) < two64 -> stream_ok (NewStream b).
Proof. intros H. by constructor. Qed.
Lemma after_rest n s s' : after n s s' -> st_r s' = drop (Z.to_nat n) (st_r s).
Proof. by intros [E _]. Qed.

(** What the decoder of bytes returns: an error, or a value that has these bytes as
    its encoding. *)
Lemma DecodeBytes_cases b t v0 : strict t -> shaped t v0 -> Z.of_nat (length b) < two64 ->
  (exists e v, DecodeBytes b t v0 = Ret (Some e, v)) \/
  exists v i, DecodeBytes b t v0 = Ret (None, v) /\ stands t v i /\ b = enc i.
Proof.
  intros Ht Hv Hb. unfold DecodeBytes. pose proof (NewStream_ok b Hb) as Hs.
  destruct (decode_sound (depth t + length b) t v0 (NewStream b) Ht Hv Hs eq_refl ltac:(done))
    as [[He _]|[[_ (e&v&s'&E&_)]|(v&s'&i&r&E&_&Hst&Er&_&Hx)]]; [done| |].
  - left. rewrite E. by exists e, v.
  - rewrite E. apply after_rest in Hx. rewrite Er, Nat2Z.id, drop_app_length in Hx. rewrite Hx. destruct r as [|c r].
    + right. exists v, i. rewrite app_nil_r in Er. by split_and!.
    + left. by eexists _, _.
Qed.

(** C8: An encoder followed by a decoder is the identity: a value of a strict type (no
    pointer in it with the tag ["nil"], no array of length one) with nothing nil in it,
    whose encoding has fewer than 2^64 bytes, is encoded, and decoding the encoding into
    any value of the type gives the value back. *)
Theorem decode_encode t v i v0 : strict t -> stands t v i -> full v -> shaped t v0 -> Z.of_nat (length (enc i)) < two64 ->
  exists b, EncodeToBytes t v = Some b /\ DecodeBytes b t v0 = Ret (None, v).
Proof.
  intros Ht Hst Hfull Hv Hb. destruct (encode_spec t v i Hst) as (_&_&_&E&_). exists (enc i). split; [done|].
  pose proof (NewStream_ok _ Hb) as Hs. unfold DecodeBytes.
  destruct (decode_ok (depth t + length (enc i)) t (length (enc i)) Ht ltac:(done) v i v0 (NewStream (enc i)) [] Hst Hfull Hv Hs eq_refl)
    as (s'&E'&Hx); [done|by rewrite app_nil_r|done|]. rewrite E'. apply after_rest in Hx. cbn in Hx.
  by rewrite Nat2Z.id, drop_all in Hx; rewrite Hx.
Qed.

(** C9: A value of a strict type has one encoding: fewer than 2^64 bytes that a decoder
    accepts are those that the encoder makes of the value that it returns.  (Not so for a
    type with a pointer that has the tag ["nil"], such as the transactions with their
    sender and recipient: see [nil_pointer_two_forms].) *)
Theorem decode_canonical b t v0 v : strict t -> shaped t v0 -> Z.of_nat (length b) < two64 ->
  DecodeBytes b t v0 = Ret (None, v) -> EncodeToBytes t v = Some b.
Proof.
  intros Ht Hv Hb E. destruct (DecodeBytes_cases b t v0 Ht Hv Hb) as [(e&w&E')|(w&i&E'&Hst&->)]; rewrite E' in E; [done|].
  injection E as ->. by destruct (encode_spec t v i Hst) as (_&_&_&H&_).
Qed.

(** C33: A decoder of a strict type ends, without a panic, on whatever fewer than 2^64
    bytes there are.  (Not so for slices of arrays of length one: see
    [one_byte_arrays_loop].) *)
Theorem decode_ends b t v0 : strict t -> shaped t v0 -> Z.of_nat (length b) < two64 -> exists r, DecodeBytes b t v0 = Ret r.
Proof.
  intros Ht Hv Hb. destruct (DecodeBytes_cases b t v0 Ht Hv Hb) as [(e&w&E)|(w&i&E&_)]; by eexists.
Qed.

(** A struct with one pointer with the tag ["nil"], like the recipient of a transaction,
    has two encodings of its nil: with an empty list, and with an empty string. *)
Lemma nil_pointer_two_forms : let t := TStruct [TPtrNil (TArray 20)] in
  DecodeBytes [tobyte 193; tobyte 192] t (zero t) = Ret (None, VList [VPtr None]) /\
  DecodeBytes [tobyte 193; tobyte 128] t (zero t) = Ret (None, VList [VPtr None]).
Proof. split; vm_compute; reflexivity. Qed.

(** A slice of arrays of one byte is not decoded: the array of the byte zero is
    read with an error that is ignored, and nothing of it is consumed, so that the
    same byte is read into the next element, however many there are. *)
Theorem one_byte_arrays_loop k acc old s : st_kind s = Some Byte -> st_kinderr s = None -> st_byteval s = Ascii.zero ->
  decodeElems k (decodeByteArray 1) (zero (TArray 1)) acc old s = (OutOfFuel, s).
Proof.
  intros Hk He Hb. revert acc old. induction k as [|k IH]; intros acc old; [done|]. cbn [decodeElems].
  assert (kindOf s = (Ret (inr (Byte, st_size s)), s)) as Ek by (unfold kindOf; by rewrite bind_get, Hk, He).
  assert (uint 64 s = (Ret (inl ErrCanonInt), s)) as Eu by (unfold uint; by rewrite (tryR_ok _ _ _ _ _ Ek), bind_get, Hb).
  assert (forall v, decodeByteArray 1 v s = (Ret (None, VBytes [Ascii.zero]), s)) as Ed.
  { intros v. unfold decodeByteArray. rewrite (bind_eq _ _ _ _ _ Ek). cbn [Nat.eqb Nat.ltb Nat.leb]. by rewrite (bind_eq _ _ _ _ _ Eu). }
  rewrite (bind_eq _ _ _ _ _ (Ed _)). apply IH.
Qed.

(** *** Samples *)

(** A struct with a field of every kind of type. *)
Definition sampleType : rtype := TStruct [TUint 64; TBool; TBytes; TSlice TBig; TPtr (TArray 4); TIface].
Definition sampleValue : rval :=
  VList [VUint 1024; VBool true; VBytes (repeat (tobyte 65) 60); VList [VBig (Some 0); VBig (Some (2 ^ 70))];
         VPtr (Some (VBytes (map tobyte [0; 1; 2; 255]))); VList [VBytes [tobyte 5]; VList []]].
Definition sampleItem : item :=
  IList [IStr (bigBytes 1024); IStr [Ascii.one]; IStr (repeat (tobyte 65) 60); IList [IStr (bigBytes 0); IStr (bigBytes (2 ^ 70))];
         IStr (map tobyte [0; 1; 2; 255]); IList [IStr [tobyte 5]; IList []]].
Lemma sample_stands : stands sampleType sampleValue sampleItem.
Proof.
  apply st_struct. repeat apply sa_cons; [apply st_uint; [unfold bits_ok; lia|done]|apply (st_bool true)|apply st_bytes| |apply st_ptr, st_array; done| |apply sa_nil].
  - apply st_slice. repeat constructor; lia.
  - apply st_ilist. apply Forall2_cons. split; [apply st_ibytes|]. apply Forall2_cons. split; [apply st_ilist, Forall2_nil; done|apply Forall2_nil; done].
Qed.
Lemma sample_strict : strict sampleType.
Proof. apply sc_struct. repeat apply Forall_cons_2; repeat constructor; unfold bits_ok; lia || done. Qed.
Lemma sample_zero : shaped sampleType (zero sampleType).
Proof. apply zero_shaped. Qed.

Lemma encode_spec_witness : exists w, writer sampleType sampleValue emptyBuf = Some w /\ toBytes w = enc sampleItem /\
  EncodeToBytes sampleType sampleValue = Some (enc sampleItem) /\ eb_size w = length (enc sampleItem).
Proof. exact (encode_spec sampleType sampleValue sampleItem sample_stands). Defined.
Lemma decode_encode_witness : exists b, EncodeToBytes sampleType sampleValue = Some b /\
  DecodeBytes b sampleType (zero sampleType) = Ret (None, sampleValue).
Proof.
  apply (decode_encode sampleType sampleValue sampleItem (zero sampleType) sample_strict sample_stands); [cbn; tauto|apply sample_zero|by vm_compute].
Defined.
Lemma decode_canonical_witness : EncodeToBytes (TSlice (TUint 64)) (VList [VUint 1; VUint 1024]) = Some (map tobyte [196; 1; 130; 4; 0]).
Proof.
  apply (decode_canonical _ _ (VList [])); [apply sc_slice, sc_uint; unfold bits_ok; lia|apply sh_slice; constructor|done|by vm_compute].
Defined.
Lemma decode_ends_witness : exists r, DecodeBytes (map tobyte [197; 130; 0; 5]) (TSlice (TUint 64)) (VList []) = Ret r.
Proof. apply decode_ends; [apply sc_slice, sc_uint; unfold bits_ok; lia|apply sh_slice; constructor|done]. Defined.
(** The bytes [C1 00], after the header of the list and the kind of its element. *)
Definition zeroElement : Stream := (kindOf (snd (List (NewStream [tobyte 193; tobyte 0])))).2.
Lemma one_byte_arrays_loop_witness : forall k acc, decodeElems k (decodeByteArray 1) (zero (TArray 1)) acc [] zeroElement = (OutOfFuel, zeroElement).
Proof. intros k acc. apply one_byte_arrays_loop; reflexivity. Defined.
