(* ===== verification/RlpRaw.v ===== *)
(** * RlpRaw: values in place

    Models [rlp/raw.go]: the functions that take an encoded value apart without
    decoding it, as the nodes of a trie are.  They are shown to agree with the
    encoding on every value, and where they panic. *)
From S2P Require Import Prelude.
From S2P Require Import Rlp.
From S2P Require Import RlpEncoding.
From S2P Require Import RlpStream.

#[local] Set Warnings "-register-all".

Definition headsize (size : Z) : Z := if size <? 56 then 1 else 1 + Z.of_nat (intsize size).
Definition ListSize (contentSize : Z) : Z := u64 (headsize contentSize + contentSize).

(** [readSize]: the cases of its [switch] for a size of as many bytes. *)
Definition rawSize (b : bytes) (slen : Z) : rlpErr + Z :=
  if Z.of_nat (length b) <? slen then inl ErrUnexpectedEOF
  else
    let s := bigend (take (Z.to_nat slen) b) 0 in
    if (s <? 56) || (byteval (default Ascii.zero (head b)) =? 0) then inl ErrCanonSize else inr s.

(** [readKind]: the kind, the size of the tag and the size of the content.  The byte
    after the tag of a string of one byte is looked at before there is known to be
    one. *)
Definition fitsIn (buf : bytes) (k : Kind) (tagsize : Z) (r : rlpErr + Z) : outcome (rlpErr + Kind * Z * Z) :=
  match r with
  | inl e => Ret (inl e)
  | inr size => if u64 (Z.of_nat (length buf) - tagsize) <? size then Ret (inl ErrValueTooLarge) else Ret (inr (k, tagsize, size))
  end.
Definition rawKind (buf : bytes) : outcome (rlpErr + Kind * Z * Z) :=
  match buf with
  | [] => Ret (inl ErrUnexpectedEOF)
  | c :: rest =>
      let b := byteval c in
      if b <? 128 then fitsIn buf Byte 0 (inr 1)
      else if b <? 184 then
        if b - 128 =? 1 then
          match rest with
          | [] => Panic
          | d :: _ => if byteval d <? 128 then Ret (inl ErrCanonSize) else fitsIn buf String_ 1 (inr (b - 128))
          end
        else fitsIn buf String_ 1 (inr (b - 128))
      else if b <? 192 then fitsIn buf String_ (b - 183 + 1) (rawSize rest (b - 183))
      else if b <? 248 then fitsIn buf List_ 1 (inr (b - 192))
      else fitsIn buf List_ (b - 247 + 1) (rawSize rest (b - 247))
  end.

(** [Split]: the kind, the content and what follows. *)
Definition Split (b : bytes) : outcome (rlpErr + Kind * bytes * bytes) :=
  match rawKind b with
  | Ret (inr (k, ts, cs)) =>
      Ret (inr (k, take (Z.to_nat cs) (drop (Z.to_nat ts) b), drop (Z.to_nat (ts + cs)) b))
  | Ret (inl e) => Ret (inl e)
  | Panic => Panic
  | OutOfFuel => OutOfFuel
  end.
Definition SplitString (b : bytes) : outcome (rlpErr + bytes * bytes) :=
  match Split b with
  | Ret (inr (List_, _, _)) => Ret (inl ErrExpectedString)
  | Ret (inr (_, content, rest)) => Ret (inr (content, rest))
  | Ret (inl e) => Ret (inl e)
  | Panic => Panic
  | OutOfFuel => OutOfFuel
  end.
Definition SplitList (b : bytes) : outcome (rlpErr + bytes * bytes) :=
  match Split b with
  | Ret (inr (List_, content, rest)) => Ret (inr (content, rest))
  | Ret (inr _) => Ret (inl ErrExpectedList)
  | Ret (inl e) => Ret (inl e)
  | Panic => Panic
  | OutOfFuel => OutOfFuel
  end.

(** [CountValues]: every turn drops a byte at least. *)
Fixpoint countLoop (fuel : nat) (i : nat) (b : bytes) : outcome (rlpErr + nat) :=
  match fuel with
  | O => OutOfFuel
  | S fuel =>
      match b with
      | [] => Ret (inr i)
      | _ =>
          match rawKind b with
          | Ret (inr (_, tagsize, size)) => countLoop fuel (S i) (drop (Z.to_nat (tagsize + size)) b)
          | Ret (inl e) => Ret (inl e)
          | Panic => Panic
          | OutOfFuel => OutOfFuel
          end
      end
  end.
Definition CountValues (b : bytes) : outcome (rlpErr + nat) := countLoop (S (length b)) 0 b.

(** ** On encodings *)

Lemma fitsIn_ok buf k ts n : 0 <= ts -> ts + n <= Z.of_nat (length buf) < two64 -> fitsIn buf k ts (inr n) = Ret (inr (k, ts, n)).
Proof.
  intros Hts H. unfold fitsIn. destruct (Z.ltb_spec (u64 (Z.of_nat (length buf) - ts)) n) as [Hl|]; [|done].
  destruct (Z.lt_ge_cases n 0); [pose proof (u64_range (Z.of_nat (length buf) - ts)); unfold is_u64 in *; lia|].
  rewrite u64_small in Hl by (unfold is_u64; lia). lia.
Qed.
Lemma rawSize_ok n r : 56 <= n < two64 -> rawSize (putint n ++ r) (Z.of_nat (length (putint n))) = inr n.
Proof.
  intros H. destruct (putint_minimal n ltac:(lia)) as [Hm Eb]. unfold rawSize. rewrite length_app, Nat2Z.id, take_app_length, Eb.
  destruct (Z.ltb_spec (Z.of_nat (length (putint n) + length r)) (Z.of_nat (length (putint n)))); [lia|].
  destruct (Z.ltb_spec n 56); [lia|]. unfold minimal in Hm. destruct (putint n) as [|c l]; [by destruct Hm|]. cbn in *.
  by destruct (Z.eqb_spec (byteval c) 0).
Qed.

(** The tag that [puthead] writes, for strings and lists alike. *)
Lemma rawKind_puthead (k : Kind) small large n r :
  (k, small, large) = (String_, 128, 183) \/ (k, small, large) = (List_, 192, 247) -> 0 <= n ->
  (k = String_ -> n = 1 -> 128 <= byteval (default Ascii.zero (head r))) ->
  Z.of_nat (length (puthead small large n)) + n <= Z.of_nat (length (puthead small large n ++ r)) < two64 ->
  rawKind (puthead small large n ++ r) = Ret (inr (k, Z.of_nat (length (puthead small large n)), n)).
Proof.
  intros Hk Hn H1 Hl. destruct (Z.lt_ge_cases n 56) as [Hs|Hs].
  - rewrite puthead_small in * by done. cbn [app] in *. unfold rawKind.
    destruct Hk as [[= -> -> ->]|[= -> -> ->]]; rewrite byteval_small by lia.
    + destruct (Z.ltb_spec (128 + n) 128); [lia|]. destruct (Z.ltb_spec (128 + n) 184); [|lia].
      replace (128 + n - 128) with n by lia. destruct (Z.eqb_spec n 1) as [->|]; [|by apply fitsIn_ok].
      specialize (H1 eq_refl eq_refl). destruct r as [|d r]; [cbn in *; lia|]. cbn in H1.
      destruct (Z.ltb_spec (byteval d) 128); [lia|]. by apply fitsIn_ok.
    + destruct (Z.ltb_spec (192 + n) 128); [lia|]. destruct (Z.ltb_spec (192 + n) 184); [lia|].
      destruct (Z.ltb_spec (192 + n) 192); [lia|]. destruct (Z.ltb_spec (192 + n) 248); [|lia].
      replace (192 + n - 192) with n by lia. by apply fitsIn_ok.
  - rewrite puthead_large in * by done. pose proof (putint_length n) as Hp. assert (n < two64) as Hn2 by (cbn [length app] in Hl; lia).
    cbn [app] in *. unfold rawKind. set (l := Z.of_nat (length (putint n))) in *.
    destruct Hk as [[= -> -> ->]|[= -> -> ->]]; rewrite byteval_small by lia.
    + destruct (Z.ltb_spec (183 + l) 128); [lia|]. destruct (Z.ltb_spec (183 + l) 184); [lia|]. destruct (Z.ltb_spec (183 + l) 192); [|lia].
      replace (183 + l - 183) with l by lia. unfold l at 3. rewrite rawSize_ok by lia. cbn [length] in *.
      rewrite fitsIn_ok; [do 4 f_equal; lia|lia|cbn [length]; lia].
    + destruct (Z.ltb_spec (247 + l) 128); [lia|]. destruct (Z.ltb_spec (247 + l) 184); [lia|]. destruct (Z.ltb_spec (247 + l) 192); [lia|].
      destruct (Z.ltb_spec (247 + l) 248); [lia|].
      replace (247 + l - 247) with l by lia. unfold l at 3. rewrite rawSize_ok by lia. cbn [length] in *.
      rewrite fitsIn_ok; [do 4 f_equal; lia|lia|cbn [length]; lia].
Qed.

(** The kind of an item and its content. *)
Definition itemKind (i : item) : Kind :=
  match i with
  | IStr [c] => if byteval c <? 128 then Byte else String_
  | IStr _ => String_
  | IList _ => List_
  end.
Definition itemContent (i : item) : bytes := match i with IStr b => b | IList l => encs l end.

Lemma enc_forms i : Z.of_nat (length (enc i)) < two64 ->
  (exists c, i = IStr [c] /\ byteval c < 128 /\ enc i = [c] /\ itemKind i = Byte) \/
  exists k small large, ((k, small, large) = (String_, 128, 183) \/ (k, small, large) = (List_, 192, 247)) /\ itemKind i = k /\
    enc i = puthead small large (Z.of_nat (length (itemContent i))) ++ itemContent i /\
    (k = String_ -> length (itemContent i) = 1%nat -> 128 <= byteval (default Ascii.zero (head (itemContent i)))).
Proof.
  intros Hl. destruct i as [b|l].
  - pose proof (encString_length b). cbn [enc] in *.
    destruct (encString_forms b ltac:(lia)) as [(c&->&Hc&Ee&_)|(Ee&_&H1)].
    + left. exists c. split_and!; [done..|]. cbn. by destruct (Z.ltb_spec (byteval c) 128); [|lia].
    + right. exists String_, 128, 183. split_and!; [by left| |done|by intros _].
      destruct b as [|c [|d b]]; [done| |done]. cbn in *. by destruct (Z.ltb_spec (byteval c) 128); [specialize (H1 eq_refl); lia|].
  - right. exists List_, 192, 247. split_and!; [by right|done|by rewrite enc_list|done].
Qed.

(** The tag of an encoding that is followed by anything. *)
Lemma rawKind_enc i r : Z.of_nat (length (enc i ++ r)) < two64 ->
  exists ts, rawKind (enc i ++ r) = Ret (inr (itemKind i, ts, Z.of_nat (length (itemContent i)))) /\ 0 <= ts /\
    enc i = take (Z.to_nat ts) (enc i) ++ itemContent i /\ ts + Z.of_nat (length (itemContent i)) = Z.of_nat (length (enc i)).
Proof.
  intros Hl. rewrite length_app in Hl.
  destruct (enc_forms i ltac:(lia)) as [(c&->&Hc&Ee&Ek)|(k&small&large&Hk&Ek&Ee&H1)]; rewrite Ek, Ee in *.
  - exists 0. split_and!; [|done..]. cbn [app]. unfold rawKind. destruct (Z.ltb_spec (byteval c) 128); [|lia].
    change (Z.of_nat (length (itemContent (IStr [c])))) with 1.
    apply fitsIn_ok; [done|]. cbn [length] in *. lia.
  - set (n := Z.of_nat (length (itemContent i))) in *. exists (Z.of_nat (length (puthead small large n))). rewrite length_app in *.
    rewrite <- app_assoc. split_and!; [|lia|by rewrite Nat2Z.id, take_app_length|lia].
    apply rawKind_puthead; [done|lia| |rewrite !length_app; lia].
    intros E En. specialize (H1 E ltac:(lia)). destruct (itemContent i); [done|exact H1].
Qed.

(** An encoding is taken apart into its kind and its content, and what follows. *)
Theorem Split_enc i r : Z.of_nat (length (enc i ++ r)) < two64 -> Split (enc i ++ r) = Ret (inr (itemKind i, itemContent i, r)).
Proof.
  intros Hl. destruct (rawKind_enc i r Hl) as (ts&E&Hts&Ee&Hn). unfold Split. rewrite E, Hn, !Nat2Z.id, drop_app_length.
  do 4 f_equal. rewrite Ee at 1. rewrite <- app_assoc. rewrite drop_app_length' by (rewrite length_take; lia). by rewrite take_app_length.
Qed.
(** The values of the content of a list are counted. *)
Theorem CountValues_encs js : Z.of_nat (length (encs js)) < two64 -> CountValues (encs js) = Ret (inr (length js)).
Proof.
  unfold CountValues. intros Hl.
  enough (forall k i, (length (encs js) < k)%nat -> countLoop k i (encs js) = Ret (inr (i + length js)%nat)) as H by (apply H; lia).
  induction js as [|j js IH]; intros k i Hk; (destruct k as [|k]; [lia|]); cbn [countLoop].
  - change (encs []) with (@nil Ascii.ascii). by rewrite Nat.add_0_r.
  - rewrite encs_cons in *. destruct (rawKind_enc j (encs js) Hl) as (ts&E&_&_&Hn). rewrite E, Hn, Nat2Z.id, drop_app_length.
    pose proof (enc_pos j). rewrite length_app in Hk, Hl. destruct (enc j ++ encs js) as [|c b] eqn:Eb; [by destruct (enc j)|].
    rewrite IH by lia. do 2 f_equal. cbn [length]. lia.
Qed.

(** ** On anything *)

Lemma fitsIn_inv buf k ts r x : fitsIn buf k ts r = Ret (inr x) -> exists n, r = inr n /\ x = (k, ts, n) /\ n <= u64 (Z.of_nat (length buf) - ts).
Proof.
  unfold fitsIn. destruct r as [e|n]; [done|]. destruct (Z.ltb_spec (u64 (Z.of_nat (length buf) - ts)) n); [done|]. intros [= <-]. by exists n.
Qed.
Lemma fitsIn_no_panic buf k ts r : fitsIn buf k ts r <> Panic.
Proof. unfold fitsIn. destruct r; [done|]. by case_match. Qed.

Lemma rawSize_inv b l n : 1 <= l <= 8 -> rawSize b l = inr n ->
  56 <= n < two64 /\ putint n = take (Z.to_nat l) b /\ Z.of_nat (length (putint n)) = l.
Proof.
  intros Hl. unfold rawSize. destruct (Z.ltb_spec (Z.of_nat (length b)) l); [done|]. set (t := take (Z.to_nat l) b).
  destruct (Z.ltb_spec (bigend t 0) 56); [done|]. destruct (Z.eqb_spec (byteval (default Ascii.zero (head b))) 0); [done|]. intros [= <-].
  assert (Z.of_nat (length t) = l) as Et by (unfold t; rewrite length_take; lia). pose proof (bigend_range t) as Hr. rewrite Et in Hr.
  assert (256 ^ l <= two64) by (change two64 with (256 ^ 8); apply Z.pow_le_mono_r; lia).
  assert (minimal t) as Hm.
  { unfold t, minimal. destruct b as [|c b]; [cbn in *; lia|]. by destruct (Z.to_nat l) as [|m] eqn:E; [lia|]. }
  assert (putint (bigend t 0) = t) as Ep by (rewrite putint_bigBytes by lia; by apply bigBytes_bigend).
  rewrite Ep. split_and!; [lia..|done|done].
Qed.

(** What a tag that is accepted is: that of [puthead], in the shortest form. *)
Definition tagged (k : Kind) (b : bytes) (ts n : Z) : Prop :=
  match k with
  | Byte => ts = 0 /\ n = 1 /\ exists c r, b = c :: r /\ byteval c < 128
  | String_ => (exists r, b = puthead 128 183 n ++ r) /\ ts = Z.of_nat (length (puthead 128 183 n)) /\
      (n = 1 -> 128 <= byteval (default Ascii.zero (head (drop (Z.to_nat ts) b))))
  | List_ => (exists r, b = puthead 192 247 n ++ r) /\ ts = Z.of_nat (length (puthead 192 247 n))
  end.

Lemma short_tag large small c r : 0 <= byteval c - small < 56 -> (c :: r = puthead small large (byteval c - small) ++ r) /\
  length (puthead small large (byteval c - small)) = 1%nat.
Proof.
  intros H. rewrite puthead_small by lia. replace (small + (byteval c - small)) with (byteval c) by lia. by rewrite tobyte_byteval.
Qed.
Lemma long_tag large small c r n : 1 <= byteval c - large <= 8 -> rawSize r (byteval c - large) = inr n ->
  (exists r', c :: r = puthead small large n ++ r') /\ byteval c - large + 1 = Z.of_nat (length (puthead small large n)) /\ 56 <= n < two64.
Proof.
  intros Hl E. destruct (rawSize_inv r _ n Hl E) as (Hn&Ep&El). rewrite puthead_large by lia. cbn [length]. split_and!; [|lia..].
  exists (drop (Z.to_nat (byteval c - large)) r). rewrite El. replace (large + (byteval c - large)) with (byteval c) by lia.
  rewrite tobyte_byteval. cbn [app]. by rewrite Ep, take_drop.
Qed.

Lemma rawKind_inv b k ts n : rawKind b = Ret (inr (k, ts, n)) ->
  tagged k b ts n /\ n <= u64 (Z.of_nat (length b) - ts) /\ 0 <= n.
Proof.
  unfold rawKind. destruct b as [|c r]; [done|]. pose proof (byteval_range c) as Hc.
  destruct (Z.ltb_spec (byteval c) 128).
  { intros (m&[= <-]&[= -> -> ->]&Hf)%fitsIn_inv. split_and!; [split_and!; [done..|by exists c, r]|done|lia]. }
  destruct (Z.ltb_spec (byteval c) 184).
  { destruct (short_tag 183 128 c r ltac:(lia)) as [Es El].
    destruct (Z.eqb_spec (byteval c - 128) 1) as [E1|E1].
    - destruct r as [|d r]; [done|]. destruct (Z.ltb_spec (byteval d) 128); [done|].
      intros (m&[= <-]&[= -> -> ->]&Hf)%fitsIn_inv. split_and!; [split_and!; [by eexists|by rewrite El|by intros _; cbn]|done|lia].
    - intros (m&[= <-]&[= -> -> ->]&Hf)%fitsIn_inv. split_and!; [split_and!; [by eexists|by rewrite El|done]|done|lia]. }
  destruct (Z.ltb_spec (byteval c) 192).
  { intros (m&E&[= -> -> ->]&Hf)%fitsIn_inv. destruct (long_tag 183 128 c r m ltac:(lia) E) as (Hr&El&Hm). split_and!; [|done|lia].
    split_and!; [done|done|lia]. }
  destruct (Z.ltb_spec (byteval c) 248).
  { destruct (short_tag 247 192 c r ltac:(lia)) as [Es El].
    intros (m&[= <-]&[= -> -> ->]&Hf)%fitsIn_inv. split_and!; [split; [by eexists|by rewrite El]|done|lia]. }
  intros (m&E&[= -> -> ->]&Hf)%fitsIn_inv. destruct (long_tag 247 192 c r m ltac:(lia) E) as (Hr&El&Hm). by split_and!; [|done|lia].
Qed.

Lemma rawKind_panic b : rawKind b = Panic -> b = [tobyte 129].
Proof.
  unfold rawKind. destruct b as [|c r]; [done|].
  repeat (case_match; try done; try (intros []%fitsIn_no_panic)). intros _.
  match goal with H : (byteval c - 128 =? 1) = true |- _ => apply Z.eqb_eq in H end.
  rewrite <- (tobyte_byteval c). do 2 f_equal. lia.
Qed.

(** What [Split] accepts is an encoding in its shortest form, followed by the rest;
    and it panics on the tag of a string of one byte at the end of the input, and
    there only. *)
Theorem Split_spec b : Z.of_nat (length b) < two64 ->
  (Split b = Panic <-> b = [tobyte 129]) /\ Split b <> OutOfFuel /\
  forall k content rest, Split b = Ret (inr (k, content, rest)) ->
    b = (match k with List_ => encList content | _ => encString content end) ++ rest.
Proof.
  intros Hl. split_and!.
  - split; [|by intros ->]. unfold Split. intros E. apply rawKind_panic. by destruct (rawKind b) as [[e|[[k ts] n]]| |].
  - unfold Split, rawKind, fitsIn. repeat case_match; congruence.
  - intros k content rest. unfold Split. destruct (rawKind b) as [[e|[[k' ts] n]]| |] eqn:E; try done. intros [= -> <- <-].
    destruct (rawKind_inv b k ts n E) as (Ht&Hn&Hn0). assert (0 <= ts <= Z.of_nat (length b)) as Hts.
    { destruct k; cbn in Ht; [destruct Ht as (->&_); lia|destruct Ht as [(r&Er) [-> _]]|destruct Ht as [(r&Er) ->]];
        apply (f_equal length) in Er; rewrite length_app in Er; lia. }
    rewrite u64_small in Hn by (unfold is_u64; lia).
    assert (forall p, b = p ++ drop (Z.to_nat ts) b -> b = (p ++ take (Z.to_nat n) (drop (Z.to_nat ts) b)) ++ drop (Z.to_nat (ts + n)) b) as Hb.
    { intros p Eb. rewrite <- app_assoc. rewrite Z2Nat.inj_add, <- drop_drop, take_drop by lia. exact Eb. }
    assert (Z.of_nat (length (take (Z.to_nat n) (drop (Z.to_nat ts) b))) = n) as Hlen by (rewrite length_take, length_drop; lia).
    destruct k; cbn in Ht.
    + destruct Ht as (->&->&c&r&->&Hc). change (c :: r = encString [c] ++ r). by rewrite encString_byte.
    + destruct Ht as ((r&Er)&Et&H1). rewrite encString_long, Hlen; [apply Hb; rewrite Et, Nat2Z.id; rewrite Er at 2; rewrite drop_app_length; exact Er|].
      intros c Ec. rewrite Ec in Hlen. cbn in Hlen. specialize (H1 ltac:(lia)).
      destruct (drop (Z.to_nat ts) b) as [|d l]; [by rewrite take_nil in Ec|].
      destruct (Z.to_nat n) as [|m]; [done|]. cbn in Ec. injection Ec as -> _. exact H1.
    + destruct Ht as ((r&Er)&Et). unfold encList. rewrite Hlen. apply Hb. rewrite Et, Nat2Z.id; rewrite Er at 2; rewrite drop_app_length; exact Er.
Qed.

Lemma Split_spec_witness : (Split (map tobyte [129]) = Panic) /\
  map tobyte [193; 5; 7] = encList [tobyte 5] ++ [tobyte 7].
Proof.
  split.
  - by apply (Split_spec (map tobyte [129]) ltac:(done)).
  - apply (Split_spec (map tobyte [193; 5; 7]) ltac:(done)) with (k := List_). reflexivity.
Defined.
