(* ===== verification/Events.v ===== *)
(** * Events: the event manager and its timers

    Models [consensus/util/events/events.go]: the goroutine of a timer
    ([timerImpl.loop], with the requests [SoftReset], [Reset] and [Stop] sends
    it), the bounded event queue of [managerImpl] and the event thread that
    empties it ([eventLoop], [Inject]).  The timer's transitions are plain
    functions, which the PBFT replica of [PbftState] uses for its own timers;
    their interleaving with the queue and the event thread is a step relation
    parameterised by the capacity of the queue. *)
From S2P Require Import Prelude.

(** ** The timer goroutine *)
Section Timer.
Context {Ev : Type}.

(** [timerStart]: a start request. *)
Record timerStart := mkTimerStart {
  ts_hard : bool;
  ts_event : Ev;
  ts_duration : Z;
}.

(** The goroutine's variables: the countdown [timerChan] (nil or the duration
    it was started with), whether [eventDestChan] is the manager's queue or
    nil, the [event] to deliver, and whether [exit] is closed. *)
Record timerImpl := mkTimer {
  tm_chan : option Z;
  tm_dest : bool;
  tm_event : option Ev;
  tm_exit : bool;
}.

(** [newTimerImpl]: a stopped timer. *)
Definition newTimerImpl : timerImpl := mkTimer None false None false.

(** [case start := <-et.startChan]. *)
Definition loop_start (start : timerStart) (et : timerImpl) : timerImpl :=
  if decide (is_Some (tm_chan et)) then
    if ts_hard start
    then mkTimer (Some (ts_duration start)) false (Some (ts_event start)) (tm_exit et)
    else et
  else mkTimer (Some (ts_duration start)) false (Some (ts_event start)) (tm_exit et).

(** [case <-et.stopChan]. *)
Definition loop_stop (et : timerImpl) : timerImpl :=
  mkTimer None false None (tm_exit et).

(** [case <-et.timerChan], ready when the countdown has elapsed. *)
Definition loop_fire (et : timerImpl) : option timerImpl :=
  match tm_chan et with
  | Some _ => Some (mkTimer None true (tm_event et) (tm_exit et))
  | None => None
  end.

(** [case eventDestChan <- event], enabled when the destination is not nil. *)
Definition loop_deliver (et : timerImpl) : option (option Ev * timerImpl) :=
  if tm_dest et
  then Some (tm_event et, mkTimer (tm_chan et) false (tm_event et) (tm_exit et))
  else None.

Definition SoftReset (d : Z) (e : Ev) : timerImpl -> timerImpl :=
  loop_start (mkTimerStart false e d).
Definition Reset (d : Z) (e : Ev) : timerImpl -> timerImpl :=
  loop_start (mkTimerStart true e d).
Definition Stop : timerImpl -> timerImpl := loop_stop.

(** [threaded.Halt]: closing [exit] twice only logs. *)
Definition Halt (et : timerImpl) : timerImpl :=
  mkTimer (tm_chan et) (tm_dest et) (tm_event et) true.

(** A timer that can still produce its event. *)
Definition live (et : timerImpl) : Prop := is_Some (tm_chan et) \/ tm_dest et = true.

Lemma stop_not_live et : ~ live (Stop et).
Proof. intros [[? H]|H]; done. Qed.

(** A running or fired timer has an event to deliver. *)
Definition timer_wf (et : timerImpl) : Prop := live et -> is_Some (tm_event et).

Lemma loop_start_wf s et : timer_wf et -> timer_wf (loop_start s et).
Proof.
  intros H. unfold loop_start. destruct (decide _); [destruct (ts_hard s)|]; try done;
    intros _; simpl; eauto.
Qed.

Lemma loop_fire_wf et et' : timer_wf et -> loop_fire et = Some et' -> timer_wf et'.
Proof.
  unfold loop_fire, timer_wf, live. intros H. destruct (tm_chan et) eqn:E; [|done].
  intros [= <-] _. simpl. eauto.
Qed.

Lemma loop_deliver_wf et e et' :
  timer_wf et -> loop_deliver et = Some (e, et') -> is_Some e /\ timer_wf et'.
Proof.
  unfold loop_deliver, timer_wf, live. intros H. destruct (tm_dest et) eqn:E; [|done].
  intros [= <- <-]. split; [by apply H; right|]. intros [?|?]; [simpl in *; eauto|done].
Qed.

(** ** The manager's queue and the event thread *)

(** What the channel [events] holds: the event of the timer, or an event of another
    sender, which are the protocol manager, the helper of the replica and the other
    timers. *)
Inductive item :=
| OfTimer (e : Ev)
| External (e : Ev).

Definition item_event (i : item) : Ev := match i with OfTimer e | External e => e end.
Definition is_ofTimer (i : item) : bool := match i with OfTimer _ => true | External _ => false end.

(** The timer, the buffered channel [events], whether the event thread is
    inside [Inject], and the events it has taken (latest first). *)
Record system := mkSystem {
  sys_timer : timerImpl;
  sys_queue : list item;
  sys_busy : bool;
  sys_taken : list item;
}.

Definition sys_init : system := mkSystem newTimerImpl [] false [].

(** The cases of the select of [loop] and those of [eventLoop], and the sends of the
    others; a send either goes into the buffer or to the thread that waits. *)
Inductive label :=
| LReset (d : Z) (e : Ev)
| LSoftReset (d : Z) (e : Ev)
| LStop
| LFire
| LEnqueue
| LHand
| LTake (i : item)
| LDone
| LExternal (e : Ev)
| LExternalHand (e : Ev).

(** One step of the goroutines, for a queue of capacity [cap].  A send
    succeeds when the buffer has room ([LEnqueue], [LExternal]), whatever the event
    thread does, or when the event thread waits on the empty channel ([LHand],
    [LExternalHand]); until then the sender is blocked.  Timer requests come from the
    event thread while it processes an event. *)
Inductive sys_step (cap : nat) : system -> label -> system -> Prop :=
| step_reset d e tm q tk :
    sys_step cap (mkSystem tm q true tk) (LReset d e) (mkSystem (Reset d e tm) q true tk)
| step_soft_reset d e tm q tk :
    sys_step cap (mkSystem tm q true tk) (LSoftReset d e) (mkSystem (SoftReset d e tm) q true tk)
| step_stop tm q tk :
    sys_step cap (mkSystem tm q true tk) LStop (mkSystem (Stop tm) q true tk)
| step_fire tm tm' q b tk :
    loop_fire tm = Some tm' ->
    sys_step cap (mkSystem tm q b tk) LFire (mkSystem tm' q b tk)
| step_enqueue tm tm' e q b tk :
    loop_deliver tm = Some (Some e, tm') -> (length q < cap)%nat ->
    sys_step cap (mkSystem tm q b tk) LEnqueue (mkSystem tm' (q ++ [OfTimer e]) b tk)
| step_hand tm tm' e tk :
    loop_deliver tm = Some (Some e, tm') ->
    sys_step cap (mkSystem tm [] false tk) LHand (mkSystem tm' [] true (OfTimer e :: tk))
| step_take tm i q tk :
    sys_step cap (mkSystem tm (i :: q) false tk) (LTake i) (mkSystem tm q true (i :: tk))
| step_done tm q tk :
    sys_step cap (mkSystem tm q true tk) LDone (mkSystem tm q false tk)
| step_external tm e q b tk :
    (length q < cap)%nat ->
    sys_step cap (mkSystem tm q b tk) (LExternal e) (mkSystem tm (q ++ [External e]) b tk)
| step_external_hand tm e tk :
    sys_step cap (mkSystem tm [] false tk) (LExternalHand e) (mkSystem tm [] true (External e :: tk)).

(** Runs of the system, with the labels of their steps. *)
Inductive sys_run (cap : nat) : system -> list label -> system -> Prop :=
| run_nil s : sys_run cap s [] s
| run_cons s l s' ls s'' :
    sys_step cap s l s' -> sys_run cap s' ls s'' -> sys_run cap s (l :: ls) s''.

Definition is_start (l : label) : bool :=
  match l with LReset _ _ | LSoftReset _ _ => true | _ => false end.

(** The steps in which the event thread receives an event of the timer. *)
Definition is_timer_delivery (l : label) : bool :=
  match l with LHand => true | LTake i => is_ofTimer i | _ => false end.

(** How many events of the timer are in the queue. *)
Definition waiting (q : list item) : nat := length (List.filter is_ofTimer q).

Lemma waiting_app q q' : waiting (q ++ q') = (waiting q + waiting q')%nat.
Proof. unfold waiting. by rewrite List.filter_app, length_app. Qed.
Lemma waiting_le q : (waiting q <= length q)%nat.
Proof. induction q as [|[e|e] q IH]; unfold waiting in *; simpl; lia. Qed.

Lemma sys_queue_bounded_step cap s l s' :
  (length (sys_queue s) <= cap)%nat -> sys_step cap s l s' -> (length (sys_queue s') <= cap)%nat.
Proof. intros H Hs. inversion Hs; subst; simpl in *; rewrite ?length_app; simpl; lia. Qed.

(** Without a start request, a dead timer stays dead and every delivery of its events
    to the event thread takes one of them out of the queue. *)
Lemma dead_step cap s l s' :
  ~ live (sys_timer s) -> is_start l = false -> sys_step cap s l s' ->
  ~ live (sys_timer s') /\
  (waiting (sys_queue s') + (if is_timer_delivery l then 1 else 0) = waiting (sys_queue s))%nat.
Proof.
  intros Hd Hl Hs. inversion Hs; subst; simpl in *; try done; try (split; [done|rewrite ?waiting_app; simpl; lia]).
  - split; [apply stop_not_live|lia].
  - exfalso. apply Hd. left. unfold loop_fire in H. destruct (tm_chan tm); [eauto|done].
  - exfalso. apply Hd. right. unfold loop_deliver in H. by destruct (tm_dest tm).
  - exfalso. apply Hd. right. unfold loop_deliver in H. by destruct (tm_dest tm).
  - split; [done|]. destruct i; unfold waiting; simpl; lia.
  - split; [done|]. rewrite waiting_app. unfold waiting. simpl. lia.
Qed.

Lemma dead_run cap s ls s' :
  sys_run cap s ls s' -> ~ live (sys_timer s) -> Forall (fun l => is_start l = false) ls ->
  (length (List.filter is_timer_delivery ls) <= waiting (sys_queue s))%nat.
Proof.
  induction 1 as [|s l s' ls s'' Hst Hrun IH]; intros Hd Hf; simpl; [lia|].
  inversion Hf; subst. destruct (dead_step _ _ _ _ Hd H1 Hst) as [Hd' Hq].
  specialize (IH Hd' H2). destruct (is_timer_delivery l); simpl; lia.
Qed.

Lemma stop_bounded cap s s' ls s'' :
  (length (sys_queue s) <= cap)%nat ->
  sys_step cap s LStop s' -> sys_run cap s' ls s'' ->
  Forall (fun l => is_start l = false) ls ->
  (length (List.filter is_timer_delivery ls) <= cap)%nat.
Proof.
  intros Hq Hs Hr Hf.
  transitivity (waiting (sys_queue s')); [eapply dead_run; eauto|].
  - inversion Hs; subst. apply stop_not_live.
  - etransitivity; [apply waiting_le|]. by eapply sys_queue_bounded_step.
Qed.
End Timer.

Arguments timerStart : clear implicits.
Arguments timerImpl : clear implicits.
Arguments item : clear implicits.
Arguments system : clear implicits.
Arguments label : clear implicits.

(** The capacity [NewManagerImpl] gives the queue: [make(chan Event, 1)]. *)
Definition NewManagerImpl_capacity : nat := 1.

(** C38: After the event thread has stopped the timer of the source's manager,
    and until it starts it again, it receives at most one more event of that
    timer, whatever the others send in the meantime: the one the buffer of the queue
    may already hold. *)
Theorem timer_stop_at_most_one_stale {Ev : Type} (s s' s'' : system Ev) (ls : list (label Ev)) :
  (length (sys_queue s) <= NewManagerImpl_capacity)%nat ->
  sys_step NewManagerImpl_capacity s LStop s' ->
  sys_run NewManagerImpl_capacity s' ls s'' ->
  Forall (fun l => is_start l = false) ls ->
  (length (List.filter is_timer_delivery ls) <= 1)%nat.
Proof. apply stop_bounded. Qed.

(** A run of the source's system in which an event thread that has stopped the
    timer still receives the timer's event; a message that comes in the meantime
    waits for the room the event takes. *)
Definition stale_run : list (label Z) :=
  [LExternal 7; LTake (External 7); LReset 10 42; LFire; LEnqueue; LStop; LDone; LTake (OfTimer 42); LExternal 8].

(** The promise of the [Timer] interface, that an event of a stopped timer
    is not delivered even if the timer has already fired, fails for the queue
    the manager creates: in [stale_run] the event thread takes event 42 after
    [Stop]. *)
Theorem timer_stop_contract_violated :
  exists s, sys_run NewManagerImpl_capacity (sys_init (Ev := Z)) stale_run s /\
            sys_taken s = [OfTimer 42; External 7] /\ sys_queue s = [External 8].
Proof.
  eexists. split; [|split].
  - unfold stale_run, sys_init, NewManagerImpl_capacity.
    do 9 (eapply run_cons; [econstructor; simpl; (reflexivity || lia)|]; simpl). apply run_nil.
  - reflexivity.
  - reflexivity.
Qed.

Lemma timer_stop_at_most_one_stale_witness :
  (length (List.filter is_timer_delivery [LDone; LTake (OfTimer 42%Z); LExternal 8%Z; LDone; LTake (External 8%Z)]) <= 1)%nat.
Proof.
  set (tm := mkTimer (Some 10) false (Some 42) false : timerImpl Z).
  apply (timer_stop_at_most_one_stale
           (mkSystem tm [OfTimer 42] true [External 7])
           (mkSystem (Stop tm) [OfTimer 42] true [External 7])
           (mkSystem (Stop tm) [] true [External 8; OfTimer 42; External 7])).
  - simpl. unfold NewManagerImpl_capacity. lia.
  - apply step_stop.
  - eapply run_cons; [apply step_done|]. eapply run_cons; [apply step_take|].
    eapply run_cons; [apply step_external; simpl; unfold NewManagerImpl_capacity; lia|].
    eapply run_cons; [apply step_done|]. eapply run_cons; [apply step_take|]. apply run_nil.
  - repeat constructor.
Defined.
