(* ===== verification/Messages.v ===== *)
(** * Messages: the PBFT messages and their routing

    Models [core/types/pbft_messages.go] (the message structs and the accessors
    that recover a typed payload), [common/types.go] for [Hash], and
    [pbftCore.recvMsg] of [consensus/pbft/pbft-core.go], which checks the sender
    of an incoming message. *)
From S2P Require Import Prelude.

(** ** Hashes *)

(** A Go [string] or [[]byte] is a byte string; [common.Hash] is one of 32
    bytes. *)
Definition HashLength : nat := 32.

(** A string of [n] zero bytes. *)
Fixpoint zeros (n : nat) : string :=
  match n with O => EmptyString | S n' => String Ascii.zero (zeros n') end.

(** The suffix of [s] without its first [n] bytes: [s[n:]]. *)
Fixpoint drop_bytes (n : nat) (s : string) : string :=
  match n, s with
  | O, _ => s
  | S n', String _ s' => drop_bytes n' s'
  | S _, EmptyString => EmptyString
  end.

(** [Hash.SetBytes] on a zero hash, hence [BytesToHash] and [StringToHash]: the
    last 32 bytes, left-padded with zero bytes. *)
Definition BytesToHash (b : string) : string :=
  let b := if decide (HashLength < String.length b)%nat
           then drop_bytes (String.length b - HashLength) b else b in
  String.append (zeros (HashLength - String.length b)) b.

Definition StringToHash (s : string) : string := BytesToHash s.

(** [Hash.Str]. *)
Definition Str (h : string) : string := h.

(** ** Message structs *)

Section Messages.
(** Blocks are an abstract type here; the replica uses their hash only. *)
Context {Block : Type}.

Record PrePrepare := mkPrePrepare {
  pp_View : Z;
  pp_SequenceNumber : Z;
  pp_BlockHash : string;
  pp_Block : option Block;   (* a pointer, nil when absent *)
  pp_ReplicaId : Z;
}.

Record Prepare := mkPrepare {
  p_View : Z;
  p_SequenceNumber : Z;
  p_BlockHash : string;
  p_ReplicaId : Z;
}.

Record Commit := mkCommit {
  c_View : Z;
  c_SequenceNumber : Z;
  c_BlockHash : string;
  c_ReplicaId : Z;
}.

Record Checkpoint := mkCheckpoint {
  k_SequenceNumber : Z;
  k_ReplicaId : Z;
  k_Id : string;
}.

Record ViewChange_C := mkVC_C {
  vcc_SequenceNumber : Z;
  vcc_Id : string;
}.

Record ViewChange_PQ := mkVC_PQ {
  pq_SequenceNumber : Z;
  pq_BlockHash : string;
  pq_View : Z;
}.

Record ViewChange := mkViewChange {
  vc_View : Z;
  vc_H : Z;
  vc_Cset : list ViewChange_C;
  vc_Pset : list ViewChange_PQ;
  vc_Qset : list ViewChange_PQ;
  vc_ReplicaId : Z;
  vc_Signature : string;
  vc_Signer : string;
}.

Record XSet := mkXSet {
  x_Seq : Z;
  x_Hash : string;
}.

Record NewView := mkNewView {
  nv_View : Z;
  nv_Vset : list ViewChange;
  nv_Xset : list XSet;
  nv_ReplicaId : Z;
}.

(** [hibe.SIGBytes], and the messages of the HIBE test round
    ([consensus/pbft/pbft.go]). *)
Record SIGBytes := mkSIGBytes { sb_X : string; sb_Y : string; sb_Z : string }.

Record TestMsg := mkTestMsg {
  tm_Str : string;
  tm_Signature : SIGBytes;
  tm_View : Z;
  tm_Seq : Z;
  tm_ReplicaID : Z;
  tm_NodeIndex : Z;
}.

(** The dynamic types a [PbftMessage]'s [Payload] can have. *)
Inductive Payload :=
| PLPrePrepare (m : PrePrepare)
| PLPrepare (m : Prepare)
| PLCommit (m : Commit)
| PLCheckpoint (m : Checkpoint)
| PLViewChange (m : ViewChange)
| PLNewView (m : NewView)
| PLTestMsg (m : TestMsg)
| PLPrepareTestMsg (m : option TestMsg)   (* a struct holding a pointer *)
| PLCommitTestMsg (m : option TestMsg)
| PLNil.

Record PbftMessage := mkPbftMessage {
  Sender : Z;
  PayloadCode : Z;
  payload : Payload;
}.

(** The message codes. *)
Definition PrePrepareMsg : Z := 1.
Definition PrepareMsg : Z := 2.
Definition CommitMsg : Z := 3.
Definition CheckpointMsg : Z := 4.
Definition ViewChangeMsg : Z := 5.
Definition NewViewMsg : Z := 6.
Definition FetchBlockMsgMsg : Z := 7.
Definition PrePrepareTestMsg : Z := 8.
Definition PrepareTestMsg : Z := 9.
Definition CommitTestMsg : Z := 9.

(** ** Accessors *)

Definition GetPrePrepare (m : PbftMessage) : option PrePrepare :=
  match payload m with
  | PLPrePrepare x => if PayloadCode m =? PrePrepareMsg then Some x else None
  | _ => None
  end.

Definition GetPrepare (m : PbftMessage) : option Prepare :=
  match payload m with
  | PLPrepare x => if PayloadCode m =? PrepareMsg then Some x else None
  | _ => None
  end.

Definition GetCommit (m : PbftMessage) : option Commit :=
  match payload m with
  | PLCommit x => if PayloadCode m =? CommitMsg then Some x else None
  | _ => None
  end.

Definition GetCheckpoint (m : PbftMessage) : option Checkpoint :=
  match payload m with
  | PLCheckpoint x => if PayloadCode m =? CheckpointMsg then Some x else None
  | _ => None
  end.

Definition GetViewChange (m : PbftMessage) : option ViewChange :=
  match payload m with
  | PLViewChange x => if PayloadCode m =? ViewChangeMsg then Some x else None
  | _ => None
  end.

Definition GetNewView (m : PbftMessage) : option NewView :=
  match payload m with
  | PLNewView x => if PayloadCode m =? NewViewMsg then Some x else None
  | _ => None
  end.

(** ** Routing *)

(** The typed messages [recvMsg] hands on to the event loop. *)
Inductive routed :=
| RPrePrepare (m : PrePrepare)
| RPrepare (m : Prepare)
| RCommit (m : Commit)
| RCheckpoint (m : Checkpoint)
| RViewChange (m : ViewChange)
| RNewView (m : NewView)
| RTestMsg (m : TestMsg)
| RPrepareTestMsg (m : option TestMsg)
| RCommitTestMsg (m : option TestMsg).

(** Why [recvMsg] refuses a message. *)
Inductive recvErr :=
| ErrSenderMismatch (claimed sender : Z)
| ErrInvalidMessage.

(** [recvMsg]: the first accessor that yields a payload decides, and its
    replica id must be that of the stream the message came from. *)
Definition recvMsg (msg : PbftMessage) (senderID : Z) : routed + recvErr :=
  let from (claimed : Z) (r : routed) : routed + recvErr :=
    if senderID =? claimed then inl r else inr (ErrSenderMismatch claimed senderID) in
  match GetPrePrepare msg with
  | Some preprep => from (pp_ReplicaId preprep) (RPrePrepare preprep)
  | None =>
  match GetPrepare msg with
  | Some prep => from (p_ReplicaId prep) (RPrepare prep)
  | None =>
  match GetCommit msg with
  | Some commit => from (c_ReplicaId commit) (RCommit commit)
  | None =>
  match GetCheckpoint msg with
  | Some chkpt => from (k_ReplicaId chkpt) (RCheckpoint chkpt)
  | None =>
  match GetViewChange msg with
  | Some vc => from (vc_ReplicaId vc) (RViewChange vc)
  | None =>
  match GetNewView msg with
  | Some nv => from (nv_ReplicaId nv) (RNewView nv)
  | None =>
  match payload msg with
  | PLTestMsg m => inl (RTestMsg m)
  | PLPrepareTestMsg m => inl (RPrepareTestMsg m)
  | PLCommitTestMsg m => inl (RCommitTestMsg m)
  | _ => inr ErrInvalidMessage
  end end end end end end end.

(** The replica a routed protocol message claims to come from; the messages of
    the HIBE test round have no checked one. *)
Definition routed_replica (r : routed) : option Z :=
  match r with
  | RPrePrepare m => Some (pp_ReplicaId m)
  | RPrepare m => Some (p_ReplicaId m)
  | RCommit m => Some (c_ReplicaId m)
  | RCheckpoint m => Some (k_ReplicaId m)
  | RViewChange m => Some (vc_ReplicaId m)
  | RNewView m => Some (nv_ReplicaId m)
  | RTestMsg _ | RPrepareTestMsg _ | RCommitTestMsg _ => None
  end.

(** The message the replica puts on [commChan] for a typed payload. *)
Definition envelope (id : Z) (r : routed) : PbftMessage :=
  match r with
  | RPrePrepare m => mkPbftMessage id PrePrepareMsg (PLPrePrepare m)
  | RPrepare m => mkPbftMessage id PrepareMsg (PLPrepare m)
  | RCommit m => mkPbftMessage id CommitMsg (PLCommit m)
  | RCheckpoint m => mkPbftMessage id CheckpointMsg (PLCheckpoint m)
  | RViewChange m => mkPbftMessage id ViewChangeMsg (PLViewChange m)
  | RNewView m => mkPbftMessage id NewViewMsg (PLNewView m)
  | RTestMsg m => mkPbftMessage id PrePrepareTestMsg (PLTestMsg m)
  | RPrepareTestMsg m => mkPbftMessage id PrepareTestMsg (PLPrepareTestMsg m)
  | RCommitTestMsg m => mkPbftMessage id CommitTestMsg (PLCommitTestMsg m)
  end.
End Messages.

Arguments PrePrepare : clear implicits.
Arguments Payload : clear implicits.
Arguments PbftMessage : clear implicits.
Arguments routed : clear implicits.

#[export] Instance ViewChange_C_eq : EqDecision ViewChange_C.
Proof. solve_decision. Defined.
#[export] Program Instance ViewChange_C_countable : Countable ViewChange_C :=
  inj_countable' (fun c => (vcc_SequenceNumber c, vcc_Id c))
                 (fun p => mkVC_C p.1 p.2) _.
Next Obligation. by intros []. Qed.
#[export] Instance ViewChange_PQ_eq : EqDecision ViewChange_PQ.
Proof. solve_decision. Defined.
#[export] Program Instance ViewChange_PQ_countable : Countable ViewChange_PQ :=
  inj_countable' (fun q => (pq_SequenceNumber q, pq_BlockHash q, pq_View q))
                 (fun p => mkVC_PQ p.1.1 p.1.2 p.2) _.
Next Obligation. by intros []. Qed.
#[export] Instance ViewChange_eq : EqDecision ViewChange.
Proof. solve_decision. Defined.
#[export] Instance XSet_eq : EqDecision XSet.
Proof. solve_decision. Defined.
#[export] Instance Prepare_eq : EqDecision Prepare.
Proof. solve_decision. Defined.
#[export] Instance Commit_eq : EqDecision Commit.
Proof. solve_decision. Defined.
#[export] Instance Checkpoint_eq : EqDecision Checkpoint.
Proof. solve_decision. Defined.
#[export] Program Instance Checkpoint_countable : Countable Checkpoint :=
  inj_countable' (fun c => (k_SequenceNumber c, k_ReplicaId c, k_Id c))
                 (fun p => mkCheckpoint p.1.1 p.1.2 p.2) _.
Next Obligation. by intros []. Qed.

(** ** Theorems *)

Lemma length_zeros n : String.length (zeros n) = n.
Proof. induction n; simpl; [done|by f_equal]. Qed.

Lemma length_string_app s t :
  String.length (String.append s t) = (String.length s + String.length t)%nat.
Proof. induction s; simpl; [done|by f_equal]. Qed.

Lemma length_drop_bytes n s : String.length (drop_bytes n s) = (String.length s - n)%nat.
Proof. revert s. induction n; intros [|c s]; simpl; auto. Qed.

Lemma length_BytesToHash b : String.length (BytesToHash b) = HashLength.
Proof.
  unfold BytesToHash. case_decide; rewrite length_string_app, length_zeros, ?length_drop_bytes;
    unfold HashLength in *; lia.
Qed.

Lemma BytesToHash_id b : String.length b = HashLength -> BytesToHash b = b.
Proof. intros H. unfold BytesToHash. cbv zeta. rewrite decide_False by lia. by rewrite H, Nat.sub_diag. Qed.

(** The conversion of a digest string to a [common.Hash] and back is the
    identity on 32-byte digests, the digests of real blocks, and always yields
    32 bytes, so the empty digest of a null request does not survive it. *)
Theorem hash_string_roundtrip (d : string) :
  (String.length d = HashLength -> Str (StringToHash d) = d) /\
  String.length (Str (StringToHash d)) = HashLength /\
  Str (StringToHash EmptyString) <> EmptyString.
Proof.
  unfold Str, StringToHash. split; [apply BytesToHash_id|].
  split; [apply length_BytesToHash|]. done.
Qed.

Section Routing.
Context {Block : Type}.

(** A protocol message that [recvMsg] hands on carries the replica id of
    the stream it came from, whatever the message claims. *)
Theorem recvMsg_sender (msg : PbftMessage Block) (senderID : Z) r i :
  recvMsg msg senderID = inl r -> routed_replica r = Some i -> i = senderID.
Proof.
  unfold recvMsg, GetPrePrepare, GetPrepare, GetCommit, GetCheckpoint, GetViewChange, GetNewView.
  intros H Hi. destruct msg as [s c []]; simpl in *;
    repeat (case_match; simplify_eq/=; try done); simplify_eq/=; lia.
Qed.

(** Routing inverts the envelope a replica sends: a message a correct
    replica broadcasts reaches the event loop of its receivers unchanged. *)
Theorem recvMsg_envelope (id : Z) (r : routed Block) :
  (forall i, routed_replica r = Some i -> i = id) ->
  recvMsg (envelope id r) (Sender (envelope id r)) = inl r.
Proof.
  intros Hi. destruct r; simpl in Hi; try (rewrite <- (Hi _ eq_refl)); cbv -[Z.eqb];
    rewrite ?Z.eqb_refl; reflexivity.
Qed.
End Routing.

Lemma recvMsg_sender_witness :
  5 = 5 /\ recvMsg (Block := unit) (mkPbftMessage 5 PrepareMsg (PLPrepare (mkPrepare 0 1 "d" 5))) 5
           = inl (RPrepare (mkPrepare 0 1 "d" 5)).
Proof.
  split; [|reflexivity].
  exact (recvMsg_sender (Block := unit)
           (mkPbftMessage 5 PrepareMsg (PLPrepare (mkPrepare 0 1 "d" 5))) 5
           (RPrepare (mkPrepare 0 1 "d" 5)) 5 eq_refl eq_refl).
Defined.

Lemma recvMsg_envelope_witness :
  recvMsg (Block := unit) (envelope 3 (RCommit (mkCommit 0 1 "d" 3))) 3
  = inl (RCommit (mkCommit 0 1 "d" 3)).
Proof.
  apply (recvMsg_envelope 3 (RCommit (mkCommit 0 1 "d" 3))).
  simpl. congruence.
Defined.
