(* ===== verification/PbftState.v ===== *)
(** * PbftState: the state of a PBFT replica and its leaf operations

    Models [pbftCore] of [consensus/pbft/pbft-core.go] with the package-level
    variables it shares ([ChangeViewFlag] and the like), the [Helper] of
    [helper.go], the persistence of [pbft-persist.go] and [persist.go], and the
    operations that call no other handler: the view and watermark tests, the
    certificates and quorum predicates, the timers and the broadcast. *)
From stdpp Require Import pretty.
From S2P Require Import Prelude.
From S2P Require Import Events.
From S2P Require Import Messages.

(** ** What the replica uses of other packages *)

(** The interface to the block type, the signatures, the encodings and the
    network: functions of packages the replica only calls. *)
Class PbftEnv (Block : Type) := {
  (* [types.Block.Hash] *)
  block_hash : Block -> string;
  block_hash_length : forall b, String.length (block_hash b) = HashLength;
  (* [ecrecoverFromSignature]: the recovered address, or an error *)
  env_recover : ViewChange -> option string;
  (* [signFn] on the hash of a view change; its error is dropped *)
  env_sign : ViewChange -> string;
  (* [json.Marshal]/[Unmarshal] of a [PQset], [MarshalJSON]/[UnmarshalJSON] of a
     block, [base64.StdEncoding] *)
  env_marshalPQ : list ViewChange_PQ -> option string;
  env_unmarshalPQ : string -> option (list ViewChange_PQ);
  env_marshalPQ_inv : forall l r, env_marshalPQ l = Some r -> env_unmarshalPQ r = Some l;
  env_marshalBlock : Block -> option string;
  env_unmarshalBlock : string -> option Block;
  env_marshalBlock_inv : forall b r, env_marshalBlock b = Some r -> env_unmarshalBlock r = Some b;
  env_b64enc : string -> string;
  env_b64dec : string -> option string;
  env_b64_inv : forall s, env_b64dec (env_b64enc s) = Some s;
  (* whether a checkpoint id unmarshals to a [BlockchainInfo] *)
  env_infoOk : string -> bool;
  (* whether the [t]-th [RetryHandShake] succeeds *)
  env_handshake : nat -> bool;
  (* whether the [t]-th random draw of a byzantine test replica drops the message *)
  env_coin : nat -> bool;
  (* [hibe.ShadowSign] of this node's key, [SignRecon] and [Verify] *)
  env_shadowSign : string -> SIGBytes;
  env_hibeVerify : string -> list (Z * SIGBytes) -> bool;
}.

(** ** Configuration *)

(** The fields [newPbftCore] sets and no handler changes. *)
Record Config := mkConfig {
  cfg_id : Z;
  cfg_N : Z;
  cfg_f : Z;
  cfg_K : Z;
  cfg_logMultiplier : Z;
  cfg_viewChangePeriod : Z;
  cfg_byzantine : bool;
  cfg_requestTimeout : Z;
  cfg_vcResendTimeout : Z;
  cfg_newViewTimeout : Z;
  cfg_nullRequestTimeout : Z;
  cfg_signer : string;
  (* [hibe.Index] and [hibe.N] of the HIBE test round *)
  cfg_hibeIndex : Z;
  cfg_hibeN : Z;
}.

(** The log size: [L = logMultiplier * K]. *)
Definition cfg_L (c : Config) : Z := u64 (cfg_logMultiplier c * cfg_K c).

(** The checks of [newPbftCore] that would panic, and the ranges of the integer
    types. *)
Definition config_ok (c : Config) : bool :=
  (cfg_f c * 3 + 1 <=? cfg_N c) && (0 <=? cfg_f c) && (2 <=? cfg_logMultiplier c)
  && (1 <=? cfg_K c) && (cfg_logMultiplier c * cfg_K c <? two64)
  && (0 <=? cfg_id c) && (cfg_id c <? two64) && (cfg_N c <? two64 / 2).

(** ** Events *)

Section State.
Context {Block : Type}.

(** [checkpointMessage] and [stateUpdateTarget]. *)
Record stateUpdateTarget := mkTarget {
  t_seqNo : Z;
  t_id : string;
  t_replicas : list Z;
}.

(** The events [ProcessEvent] distinguishes. *)
Inductive Event :=
| viewChangeTimerEvent
| pbftMessageEvent (m : PbftMessage Block)
| stateUpdateEvent (seqNo : Z) (id : string) (target : bool) (peers : list Z)
| msgEvent (r : routed Block)
| CommittedEvent
| CommittedEvent2
| ExecDoneEvent
| nullRequestEvent
| viewChangeQuorumEvent
| viewChangedEvent
| viewChangeResendTimerEvent
| unknownEvent.

(** What a replica emits: messages on [commChan], the signals on
    [finishedChan] and [CommittedBlock], the calls to the synchroniser, the
    restart of the miner, and the result of a HIBE round. *)
Inductive Output :=
| OBroadcast (m : PbftMessage Block)
| OFinished (n : Z)
| OCommittedBlock (n : Z) (b : option Block)
| OSynchronise
| ORestartMiner
| OHibeVerified (s : string).

(** [msgCert]. *)
Record msgCert := mkCert {
  ct_digest : string;
  ct_prePrepare : option (PrePrepare Block);
  ct_sentPrepare : bool;
  ct_prepare : list Prepare;
  ct_sentCommit : bool;
  ct_commit : list Commit;
}.

Definition emptyCert : msgCert := mkCert EmptyString None false [] false [].

(** [pbftCore] with the package variables; map keys [msgID] (view, number),
    [qidx] (digest, number) and [vcidx] (view, replica) are pairs. *)
(** What the replica held when it handed something to the ledger: the output, the
    last executed number, the key, certificate and P set entry it was handed over
    for. *)
Record ledgerEntry := mkLedger {
  le_out : Output;
  le_last : Z;
  le_idx : Z * Z;
  le_cert : option msgCert;
  le_pset : option ViewChange_PQ;
}.

Record pbftCore := mkPbft {
  pc_activeView : bool;
  pc_h : Z;
  pc_LastExec : Z;
  pc_seqNo : Z;
  pc_view : Z;
  pc_chkpts : gmap Z string;
  pc_pset : gmap Z ViewChange_PQ;
  pc_qset : gmap (string * Z) ViewChange_PQ;
  pc_skipInProgress : bool;
  pc_stateTransferring : bool;
  pc_highStateTarget : option stateUpdateTarget;
  pc_hChkpts : gmap Z Z;
  pc_currentExec : option Z;
  pc_timerActive : bool;
  pc_newViewTimer : timerImpl Event;
  pc_vcResendTimer : timerImpl Event;
  pc_nullRequestTimer : timerImpl Event;
  pc_lastNewViewTimeout : Z;
  pc_outstandingBlocks : gmap string Block;
  pc_viewChangeSeqNo : Z;
  pc_missingReqBatches : gset string;
  pc_blockStore : gmap string Block;
  pc_certStore : gmap (Z * Z) msgCert;
  pc_checkpointStore : gmap Checkpoint bool;
  pc_viewChangeStore : gmap (Z * Z) ViewChange;
  pc_newViewStore : gmap Z NewView;
  (* package variables *)
  pc_ChangeViewFlag : bool;
  pc_SendViewChangeFlag : bool;
  pc_StateTransferFlag : bool;
  pc_flag : bool;
  pc_coreViewChangeFlag : bool;
  (* the helper: validity of the ledger, its state blob, the database *)
  pc_valid : bool;
  pc_chainInfo : string;
  pc_db : gmap string string;
  (* the HIBE test round: the shared store of [TestMsg] structs, the maps of
     pointers into it and the finished flag *)
  pc_heap : gmap nat TestMsg;
  pc_testMsgs : gmap Z nat;
  pc_commitTest : gmap Z nat;
  pc_hibefinished : bool;
  (* the environment: number of non-deterministic choices made, outputs in
     the order they were sent, latest first *)
  pc_tick : nat;
  pc_out : list Output;
  (* a history variable: the part of [pc_out] that went to the ledger, with the
     circumstances; nothing reads it *)
  pc_ledger : list ledgerEntry;
}.
End State.

Arguments Event : clear implicits.
Arguments Output : clear implicits.
Arguments msgCert : clear implicits.
Arguments ledgerEntry : clear implicits.
Arguments pbftCore : clear implicits.

#[export] Instance msgCert_eta B : Eta (msgCert B) := fun r =>
  mkCert (ct_digest r) (ct_prePrepare r) (ct_sentPrepare r) (ct_prepare r)
         (ct_sentCommit r) (ct_commit r).

#[export] Instance pbftCore_eta B : Eta (pbftCore B) := fun r =>
  mkPbft (pc_activeView r) (pc_h r) (pc_LastExec r) (pc_seqNo r) (pc_view r) (pc_chkpts r)
    (pc_pset r) (pc_qset r) (pc_skipInProgress r) (pc_stateTransferring r)
    (pc_highStateTarget r) (pc_hChkpts r) (pc_currentExec r) (pc_timerActive r)
    (pc_newViewTimer r) (pc_vcResendTimer r) (pc_nullRequestTimer r)
    (pc_lastNewViewTimeout r) (pc_outstandingBlocks r) (pc_viewChangeSeqNo r)
    (pc_missingReqBatches r) (pc_blockStore r) (pc_certStore r) (pc_checkpointStore r)
    (pc_viewChangeStore r) (pc_newViewStore r) (pc_ChangeViewFlag r)
    (pc_SendViewChangeFlag r) (pc_StateTransferFlag r) (pc_flag r)
    (pc_coreViewChangeFlag r) (pc_valid r) (pc_chainInfo r) (pc_db r) (pc_heap r)
    (pc_testMsgs r) (pc_commitTest r) (pc_hibefinished r) (pc_tick r) (pc_out r) (pc_ledger r).

(** ** Views, watermarks and quorums *)

Section Leaf.
Context {Block : Type} `{!PbftEnv Block} `{!GoRange} (cfg : Config).
Abbreviation core := (pbftCore Block).
Abbreviation MP := (M core).

(** [primary]: the replica count is [N]. *)
Definition primary (n : Z) : Z := n mod cfg_N cfg.

(** [inW], with the subtraction of [uint64]. *)
Definition inW (w : core) (n : Z) : bool :=
  (0 <? u64 (n - pc_h w)) && (u64 (n - pc_h w) <=? cfg_L cfg).

(** [inWV], which also records that a message of another view was seen. *)
Definition inWV (v n : Z) : MP bool :=
  w <- get ;;
  when (negb (pc_view w =? v)) (modify (fun w => w <| pc_ChangeViewFlag := true |>)) ;;
  ret ((pc_view w =? v) && inW w n).

(** [intersectionQuorum] and [allCorrectReplicasQuorum]. *)
Definition intersectionQuorum : Z := (cfg_N cfg + cfg_f cfg + 2) / 2.
Definition allCorrectReplicasQuorum : Z := cfg_N cfg - cfg_f cfg.

(** [getCert]: the certificate of [(v, n)], created when absent. *)
Definition getCert (v n : Z) : MP (msgCert Block) :=
  w <- get ;;
  match pc_certStore w !! (v, n) with
  | Some cert => ret cert
  | None =>
      modify (fun w => w <| pc_certStore ::= <[(v, n) := emptyCert]> |>) ;;
      ret emptyCert
  end.

(** Assignment through the certificate pointer [getCert] returned. *)
Definition updCert (v n : Z) (f : msgCert Block -> msgCert Block) : MP unit :=
  modify (fun w => w <| pc_certStore ::= alter f (v, n) |>).

(** [prePrepared], [prepared] and [committed]. *)
Definition prePrepared (w : core) (digest : string) (v n : Z) : bool :=
  match pc_qset w !! (digest, n) with
  | Some q => pq_View q =? v
  | None => false
  end
  || match pc_certStore w !! (v, n) with
     | Some cert =>
         match ct_prePrepare cert with
         | Some p => (pp_View p =? v) && (pp_SequenceNumber p =? n)
                     && bool_decide (pp_BlockHash p = digest)
         | None => false
         end
     | None => false
     end.

Definition prepare_matches (digest : string) (v n : Z) (p : Prepare) : bool :=
  (p_View p =? v) && (p_SequenceNumber p =? n) && bool_decide (p_BlockHash p = digest).

Definition commit_matches (v n : Z) (p : Commit) : bool :=
  (c_View p =? v) && (c_SequenceNumber p =? n).

Definition prepared (w : core) (digest : string) (v n : Z) : bool :=
  prePrepared w digest v n &&
  (match pc_pset w !! n with
   | Some p => (pq_View p =? v) && bool_decide (Str (pq_BlockHash p) = digest)
   | None => false
   end
   || match pc_certStore w !! (v, n) with
      | Some cert =>
          intersectionQuorum - 1 <=? count (prepare_matches digest v n) (ct_prepare cert)
      | None => false
      end).

Definition committed (w : core) (digest : string) (v n : Z) : bool :=
  prepared w digest v n &&
  match pc_certStore w !! (v, n) with
  | Some cert => intersectionQuorum <=? count (commit_matches v n) (ct_commit cert)
  | None => false
  end.

(** ** Iteration, output and timers *)

(** [for k, v := range m]: the entries in the order of this loop. *)
Definition range {K V} `{Countable K} (m : core -> gmap K V) : MP (list (K * V)) :=
  w <- get ;;
  modify (fun w => w <| pc_tick ::= S |>) ;;
  ret (go_range (pc_tick w) (m w)).

Definition emit (o : Output Block) : MP unit :=
  modify (fun w => w <| pc_out ::= cons o |>).

(** A send on [finishedChan] or [CommittedBlock], for the certificate at [idx]. *)
Definition handOver (idx : Z * Z) (o : Output Block) : MP unit :=
  modify (fun w => w <| pc_out ::= cons o |>
    <| pc_ledger ::= cons (mkLedger o (pc_LastExec w) idx (pc_certStore w !! idx) (pc_pset w !! idx.2)) |>).

(** [innerBroadcast]: a replica configured as byzantine drops the message on
    one random draw in three. *)
Definition innerBroadcast (r : routed Block) : MP unit :=
  w <- get ;;
  modify (fun w => w <| pc_tick ::= S |>) ;;
  when (negb (cfg_byzantine cfg && env_coin (pc_tick w)))
    (emit (OBroadcast (envelope (cfg_id cfg) r))).

Definition softStartTimer (timeout : Z) : MP unit :=
  modify (fun w => w <| pc_timerActive := true |>
                     <| pc_newViewTimer ::= SoftReset timeout viewChangeTimerEvent |>).

Definition startTimer (timeout : Z) : MP unit :=
  modify (fun w => w <| pc_timerActive := true |>
                     <| pc_newViewTimer ::= Reset timeout viewChangeTimerEvent |>).

Definition stopTimer : MP unit :=
  modify (fun w => w <| pc_timerActive := false |> <| pc_newViewTimer ::= Stop |>).

Definition stopNullRequestTimer : MP unit :=
  modify (fun w => w <| pc_nullRequestTimer ::= Stop |>).

(** The null-request timeout, longer for a backup. *)
Definition nullTimeout (w : core) : Z :=
  if primary (pc_view w) =? cfg_id cfg then cfg_nullRequestTimeout cfg
  else cfg_nullRequestTimeout cfg + cfg_requestTimeout cfg.

Definition startTimerIfOutstandingBlocks : MP unit :=
  w <- get ;;
  if pc_skipInProgress w || bool_decide (is_Some (pc_currentExec w)) then ret tt
  else if bool_decide (pc_outstandingBlocks w <> ∅)
  then softStartTimer (cfg_requestTimeout cfg)
  else when (0 <? cfg_nullRequestTimeout cfg)
         (modify (fun w => w <| pc_nullRequestTimer ::= Reset (nullTimeout w) nullRequestEvent |>)).

Definition updateViewChangeSeqNo : MP unit :=
  when (0 <? cfg_viewChangePeriod cfg)
    (modify (fun w => w <| pc_viewChangeSeqNo :=
       u64 (pc_seqNo w + cfg_viewChangePeriod cfg * cfg_K cfg - pc_seqNo w mod cfg_K cfg) |>)).

(** [updateHighStateTarget]. *)
Definition updateHighStateTarget (target : stateUpdateTarget) : MP unit :=
  w <- get ;;
  match pc_highStateTarget w with
  | Some t => when (negb (t_seqNo target <=? t_seqNo t))
                (modify (fun w => w <| pc_highStateTarget := Some target |>))
  | None => modify (fun w => w <| pc_highStateTarget := Some target |>)
  end.

Definition InvalidateState : MP unit := modify (fun w => w <| pc_valid := false |>).
Definition ValidateState : MP unit := modify (fun w => w <| pc_valid := true |>).
End Leaf.
