(* ===== verification/ViewChangeCalc.v ===== *)
(** * ViewChangeCalc: the computations of the view change

    Models the functions of [consensus/pbft/viewchange.go] that compute on view
    changes and send nothing: [correctViewChange], the P and Q sets
    ([calcPSet], [calcQSet]), [selectInitialCheckpoint],
    [assignSequenceNumbers], [ConvertMapToStruct] and [getViewChanges]; and the
    signature check [verifyViewChangeSig] of [pbft.go]. *)
From S2P Require Import Prelude.
From S2P Require Import Events.
From S2P Require Import Messages.
From S2P Require Import PbftState.

Section ViewChangeCalc.
Context {Block : Type} `{!PbftEnv Block} `{!GoRange} (cfg : Config).
Abbreviation core := (pbftCore Block).
Abbreviation MP := (M core).

(** The zero [common.Address], which [ecrecoverFromSignature] returns with its
    error. *)
Definition zeroAddress : string := zeros 20.

(** [verifyViewChangeSig]: the recovered address, the zero address on an
    error, is compared with the claimed signer before the error is looked at.
    Callers reject when the flag is false or the error is not nil. *)
Definition verifyViewChangeSig (vc : ViewChange) : bool :=
  let signer := default zeroAddress (env_recover vc) in
  bool_decide (signer = vc_Signer vc).

(** [correctViewChange]. *)
Definition correctViewChange (vc : ViewChange) : bool :=
  forallb (fun p => (pq_View p <? vc_View vc) && (vc_H vc <? pq_SequenceNumber p)
                    && (pq_SequenceNumber p <=? u64 (vc_H vc + cfg_L cfg)))
          (vc_Pset vc ++ vc_Qset vc)
  && forallb (fun c => (vc_H vc <=? vcc_SequenceNumber c)
                       && (vcc_SequenceNumber c <=? u64 (vc_H vc + cfg_L cfg)))
             (vc_Cset vc).

(** The loop body of [calcPSet] for one certificate. *)
Definition calcPSet_step (w : core) (ps : gmap Z ViewChange_PQ)
    (e : (Z * Z) * msgCert Block) : gmap Z ViewChange_PQ :=
  let '((v, n), cert) := e in
  match ct_prePrepare cert with
  | None => ps
  | Some _ =>
      if negb (prepared cfg w (ct_digest cert) v n) then ps
      else match ps !! n with
           | Some p => if v <? pq_View p then ps
                       else <[n := mkVC_PQ n (StringToHash (ct_digest cert)) v]> ps
           | None => <[n := mkVC_PQ n (StringToHash (ct_digest cert)) v]> ps
           end
  end.

(** [calcPSet]. *)
Definition calcPSet : MP (gmap Z ViewChange_PQ) :=
  certs <- range pc_certStore ;;
  w <- get ;;
  ret (foldl (calcPSet_step w) (pc_pset w) certs).

Definition calcQSet_step (w : core) (qs : gmap (string * Z) ViewChange_PQ)
    (e : (Z * Z) * msgCert Block) : gmap (string * Z) ViewChange_PQ :=
  let '((v, n), cert) := e in
  match ct_prePrepare cert with
  | None => qs
  | Some _ =>
      if negb (prePrepared w (ct_digest cert) v n) then qs
      else match qs !! (ct_digest cert, n) with
           | Some q => if v <? pq_View q then qs
                       else <[(ct_digest cert, n) := mkVC_PQ n (StringToHash (ct_digest cert)) v]> qs
           | None => <[(ct_digest cert, n) := mkVC_PQ n (StringToHash (ct_digest cert)) v]> qs
           end
  end.

(** [calcQSet]. *)
Definition calcQSet : MP (gmap (string * Z) ViewChange_PQ) :=
  certs <- range pc_certStore ;;
  w <- get ;;
  ret (foldl (calcQSet_step w) (pc_qset w) certs).

(** [getViewChanges]. *)
Definition getViewChanges : MP (list ViewChange) :=
  vcs <- range pc_viewChangeStore ;;
  ret vcs.*2.

(** ** The initial checkpoint of a new view *)

(** The map from checkpoints to the view changes that list them. *)
Definition checkpointsOf (vset : list ViewChange) : gmap ViewChange_C (list ViewChange) :=
  foldl (fun m vc =>
           foldl (fun m c => <[c := default [] (m !! c) ++ [vc]]> m) m (vc_Cset vc))
        ∅ vset.

(** One turn of the selection loop, on [(checkpoint, ok, replicas)]. *)
Definition select_step (vset : list ViewChange)
    (acc : ViewChange_C * bool * list Z) (e : ViewChange_C * list ViewChange)
    : ViewChange_C * bool * list Z :=
  let '(checkpoint, ok, replicas) := acc in
  let '(idx, vcList) := e in
  if Z.of_nat (length vcList) <=? cfg_f cfg then acc
  else if count (fun vc => vc_H vc <=? vcc_SequenceNumber idx) vset <? intersectionQuorum cfg
  then acc
  else
    let replicas := vc_ReplicaId <$> vcList in
    if vcc_SequenceNumber checkpoint <=? vcc_SequenceNumber idx
    then (idx, true, replicas) else (checkpoint, ok, replicas).

Definition select_loop (vset : list ViewChange) (es : list (ViewChange_C * list ViewChange))
    : ViewChange_C * bool * list Z :=
  foldl (select_step vset) (mkVC_C 0 EmptyString, false, []) es.

(** [selectInitialCheckpoint]. *)
Definition selectInitialCheckpoint (vset : list ViewChange) : MP (ViewChange_C * bool * list Z) :=
  es <- range (fun _ => checkpointsOf vset) ;;
  ret (select_loop vset es).

(** ** The requests of a new view *)

(** Condition A1 for a candidate entry [em] at number [n]. *)
Definition a1_compatible (n : Z) (em : ViewChange_PQ) (mp : ViewChange) : bool :=
  negb (n <=? vc_H mp)
  && forallb (fun emp => negb ((n =? pq_SequenceNumber emp)
                 && negb ((pq_View emp <? pq_View em)
                          || (pq_View emp =? pq_View em)
                             && bool_decide (pq_BlockHash emp = pq_BlockHash em))))
             (vc_Pset mp).

Definition a1 (vset : list ViewChange) (n : Z) (em : ViewChange_PQ) : bool :=
  intersectionQuorum cfg <=? count (a1_compatible n em) vset.

(** Condition A2: the Q entries that support the candidate. *)
Definition a2_supports (n : Z) (em emp : ViewChange_PQ) : bool :=
  (n =? pq_SequenceNumber emp) && (pq_View em <=? pq_View emp)
  && bool_decide (pq_BlockHash emp = pq_BlockHash em).

Definition a2 (vset : list ViewChange) (n : Z) (em : ViewChange_PQ) : bool :=
  cfg_f cfg + 1 <=? count (a2_supports n em) (concat (vc_Qset <$> vset)).

(** The first candidate, in the order of the loops over [vset] and [Pset],
    that satisfies both conditions. *)
Definition chooseEntry (vset : list ViewChange) (n : Z) : option ViewChange_PQ :=
  List.find (fun em => a1 vset n em && a2 vset n em) (concat (vc_Pset <$> vset)).

(** The quorum of view changes without an entry for [n]. *)
Definition nullQuorum (vset : list ViewChange) (n : Z) : bool :=
  intersectionQuorum cfg <=?
    count (fun m => forallb (fun em => negb (pq_SequenceNumber em =? n)) (vc_Pset m)) vset.

(** The outer loop over the numbers, with the last number given a request. *)
Fixpoint assign_loop (vset : list ViewChange) (ns : list Z)
    (msgList : gmap Z string) (maxN : Z) : option (gmap Z string * Z) :=
  match ns with
  | [] => Some (msgList, maxN)
  | n :: ns' =>
      match chooseEntry vset n with
      | Some em => assign_loop vset ns' (<[n := Str (pq_BlockHash em)]> msgList) n
      | None =>
          if nullQuorum vset n
          then assign_loop vset ns' (<[n := EmptyString]> msgList) maxN
          else None
      end
  end.

(** The numbers [h+1 .. h+L]; both bounds are [uint64] expressions. *)
Definition assign_range (h : Z) : list Z :=
  seqZ (u64 (h + 1)) (u64 (h + cfg_L cfg) - u64 (h + 1) + 1).

(** [assignSequenceNumbers]; [None] is the nil map. *)
Definition assignSequenceNumbers (vset : list ViewChange) (h : Z) : option (gmap Z string) :=
  match assign_loop vset (assign_range h) ∅ (u64 (h + 1)) with
  | None => None
  | Some (msgList, maxN) =>
      Some (filter (fun e => negb ((maxN <? e.1) && bool_decide (e.2 = EmptyString)) = true) msgList)
  end.

(** [ConvertMapToStruct]. *)
Definition ConvertMapToStruct (msgList : gmap Z string) : MP (list XSet) :=
  es <- range (fun _ => msgList) ;;
  ret ((fun e => mkXSet e.1 e.2) <$> es).
End ViewChangeCalc.
