(* ===== verification/PbftPersist.v ===== *)
(** * PbftPersist: what a replica keeps on disk

    Models [consensus/pbft/persist.go] (the [databaseHelper] over one column
    family, keys prefixed with ["consensus."]) and the writers of
    [consensus/pbft/pbft-persist.go]: the P and Q sets, the request blocks and
    the checkpoints. The database is a map from key strings to byte strings; its
    writes succeed. *)
From stdpp Require Import pretty.
From S2P Require Import Prelude.
From S2P Require Import Events.
From S2P Require Import Messages.
From S2P Require Import PbftState.
From S2P Require Import ViewChangeCalc.

(** [strings.HasPrefix] as [ValidForPrefix] uses it, and the rest of the
    string. *)
Fixpoint strip_prefix (p s : string) : option string :=
  match p, s with
  | EmptyString, _ => Some s
  | String a p', String b s' => if decide (a = b) then strip_prefix p' s' else None
  | String _ _, EmptyString => None
  end.

(** The value of a decimal digit. *)
Definition digit_val (c : Ascii.ascii) : option Z :=
  let k := Z.of_nat (Ascii.nat_of_ascii c) in
  if (48 <=? k) && (k <=? 57) then Some (k - 48) else None.

(** The number a string of digits starts with, as [Sscanf("%d")] reads it. *)
Fixpoint scan_digits (s : string) (acc : Z) : Z :=
  match s with
  | EmptyString => acc
  | String c s' => match digit_val c with
                   | Some d => scan_digits s' (acc * 10 + d)
                   | None => acc
                   end
  end.

Definition scan_uint64 (s : string) : option Z :=
  match s with
  | String c _ => match digit_val c with
                  | Some _ => let z := scan_digits s 0 in
                              if z <? two64 then Some z else None
                  | None => None
                  end
  | EmptyString => None
  end.

Section Persist.
Context {Block : Type} `{!PbftEnv Block} `{!GoRange} (cfg : Config).
Abbreviation core := (pbftCore Block).
Abbreviation MP := (M core).

(** ** The database helper *)

Definition dbKey (key : string) : string := "consensus." +:+ key.

Definition StoreState (key value : string) : MP unit :=
  modify (fun w => w <| pc_db ::= <[dbKey key := value]> |>).

Definition DelState (key : string) : MP unit :=
  modify (fun w => w <| pc_db ::= delete (dbKey key) |>).

(** A missing key reads as the empty value. *)
Definition ReadState (key : string) : MP string :=
  gets (fun w => default EmptyString (pc_db w !! dbKey key)).

(** The pairs whose key starts with [prefix], without the column prefix. *)
Definition ReadStateSet (prefix : string) : MP (gmap string string) :=
  gets (fun w =>
    list_to_map (omap (fun e : string * string =>
      match strip_prefix (dbKey prefix) e.1 with
      | Some _ => (fun k => (k, e.2)) <$> strip_prefix "consensus." e.1
      | None => None
      end) (map_to_list (pc_db w)))).

(** ** The writers of the replica *)

Definition persistPQSet (key : string) (set : list ViewChange_PQ) : MP unit :=
  match env_marshalPQ set with
  | Some raw => StoreState key raw
  | None => ret tt
  end.

Definition persistQSet : MP unit :=
  qset <- calcQSet ;;
  es <- range (fun _ => qset) ;;
  persistPQSet "qset" es.*2.

Definition persistPSet : MP unit :=
  pset <- calcPSet cfg ;;
  es <- range (fun _ => pset) ;;
  persistPQSet "pset" es.*2.

(** [restorePQSet]: nil when the stored bytes do not parse. *)
Definition restorePQSet (key : string) : MP (list ViewChange_PQ) :=
  raw <- ReadState key ;;
  ret (default [] (env_unmarshalPQ raw)).

(** [persistRequestBlock]: marshalling a nil block panics. *)
Definition persistRequestBlock (digest : string) : MP unit :=
  w <- get ;;
  match pc_blockStore w !! digest with
  | None => panic
  | Some reqBlock =>
      match env_marshalBlock reqBlock with
      | None => ret tt
      | Some packed => StoreState ("reqBlock." +:+ digest) packed
      end
  end.

Definition persistDelRequestBlock (digest : string) : MP unit :=
  DelState ("reqBlock." +:+ digest).

Definition persistDelAllRequestBlockes : MP unit :=
  reqBlockes <- ReadStateSet "reqBlock." ;;
  es <- range (fun _ => reqBlockes) ;;
  for_each es (fun e => DelState e.1).

Definition chkptKey (seqNo : Z) : string := "chkpt." +:+ pretty seqNo.

Definition persistCheckpoint (seqNo : Z) (id : string) : MP unit :=
  StoreState (chkptKey seqNo) id.

Definition persistDelCheckpoint (seqNo : Z) : MP unit :=
  DelState (chkptKey seqNo).

(** [fmt.Sscanf(key, "chkpt.%d", &seqNo)]. *)
Definition scanChkptKey (key : string) : option Z :=
  match strip_prefix "chkpt." key with
  | Some rest => scan_uint64 rest
  | None => None
  end.
End Persist.
