(* ===== verification/HibeRound.v ===== *)
(** * HibeRound: the HIBE signing round of the replicas

    Models the handlers of the three-phase HIBE round in
    [consensus/pbft/pbft-core.go] ([recvRequestTestMsg] to [maybeVerify]).
    [TestMsg] structs are passed, stored and overwritten through pointers there,
    so they live in the shared store [pc_heap] and the maps of the replica hold
    their addresses. The wait for the node's keys has ended, and the two file
    writes of timings are left out. *)
From S2P Require Import Prelude.
From S2P Require Import Events.
From S2P Require Import Messages.
From S2P Require Import PbftState.

#[export] Instance TestMsg_eta : Eta TestMsg := fun r =>
  mkTestMsg (tm_Str r) (tm_Signature r) (tm_View r) (tm_Seq r) (tm_ReplicaID r) (tm_NodeIndex r).

Section HibeRound.
Context {Block : Type} `{!PbftEnv Block} `{!GoRange} (cfg : Config).
Abbreviation core := (pbftCore Block).
Abbreviation MP := (M core).

(** Allocation of a struct, and reading one through its pointer. *)
Definition alloc (m : TestMsg) : MP nat :=
  w <- get ;;
  let l := fresh (dom (pc_heap w)) in
  modify (fun w => w <| pc_heap ::= <[l := m]> |>) ;;
  ret l.

Definition load (l : nat) : MP TestMsg :=
  w <- get ;;
  match pc_heap w !! l with Some m => ret m | None => panic end.

Definition store (l : nat) (f : TestMsg -> TestMsg) : MP unit :=
  modify (fun w => w <| pc_heap ::= alter f l |>).

(** The number of messages each phase waits for: [(N+f)/2-1]. *)
Definition hibeQuorum : Z := (cfg_N cfg + cfg_f cfg) / 2 - 1.

(** The loop of [maybeVerify] over [commitTest], which stops after [hibe.N]
    messages: their indexes and signatures, and the first non-empty text. *)
Definition collect (heap : gmap nat TestMsg) (es : list (Z * nat)) : string * list (Z * SIGBytes) :=
  let ms := omap (fun e => heap !! e.2) (take (Z.to_nat (cfg_hibeN cfg)) es) in
  (foldl (fun str m => if decide (str = EmptyString) then tm_Str m else str) EmptyString ms,
   (fun m => (tm_NodeIndex m, tm_Signature m)) <$> ms).

(** [maybeVerify]. *)
Definition maybeVerify : MP unit :=
  w <- get ;;
  let have := Z.of_nat (size (pc_commitTest w)) in
  if have <? hibeQuorum then ret tt
  else if have <? cfg_hibeN cfg then ret tt
  else if pc_hibefinished w then ret tt
  else
    es <- range pc_commitTest ;;
    let '(str, sigs) := collect (pc_heap w) es in
    when (env_hibeVerify str sigs)
      (emit (OHibeVerified str) ;;
       modify (fun w => w <| pc_hibefinished := true |>)).

(** [recvCommitTestMsg] of a pointer to the commit's [TestMsg]. *)
Definition recvCommitTestMsg (l : nat) : MP unit :=
  m <- load l ;;
  w <- get ;;
  if bool_decide (is_Some (pc_testMsgs w !! tm_NodeIndex m))
     && bool_decide (is_Some (pc_commitTest w !! tm_NodeIndex m))
  then ret tt
  else
    when (negb (bool_decide (is_Some (pc_commitTest w !! tm_NodeIndex m))))
      (modify (fun w => w <| pc_commitTest ::= <[tm_NodeIndex m := l]> |>)) ;;
    maybeVerify.

(** [maybeSendCommitTest]: the received struct itself is overwritten with this
    node's identity and signature before it is sent on as a commit. *)
Definition maybeSendCommitTest (l : nat) : MP unit :=
  store l (fun m => m <| tm_ReplicaID := cfg_id cfg |> <| tm_NodeIndex := cfg_hibeIndex cfg |>) ;;
  w <- get ;;
  when (hibeQuorum <=? Z.of_nat (size (pc_testMsgs w)))
    (store l (fun m => m <| tm_Signature := env_shadowSign (tm_Str m) |>) ;;
     recvCommitTestMsg l ;;
     m <- load l ;;
     emit (OBroadcast (envelope (cfg_id cfg) (RCommitTestMsg (Some m))))).

(** [recvPrepareTestMsg] of a pointer to the prepare's [TestMsg]. *)
Definition recvPrepareTestMsg (l : nat) : MP unit :=
  m <- load l ;;
  w <- get ;;
  if bool_decide (is_Some (pc_testMsgs w !! tm_NodeIndex m)) then ret tt
  else
    modify (fun w => w <| pc_testMsgs ::= <[tm_NodeIndex m := l]> |>) ;;
    maybeSendCommitTest l.

(** [recvPrePrepareTestMsg]. *)
Definition recvPrePrepareTestMsg (msg : TestMsg) : MP unit :=
  w <- get ;;
  if bool_decide (is_Some (pc_testMsgs w !! tm_NodeIndex msg)) then ret tt
  else
    copy <- alloc msg ;;
    modify (fun w => w <| pc_testMsgs ::= <[tm_NodeIndex msg := copy]> |>) ;;
    if negb (primary cfg (pc_view w) =? tm_ReplicaID msg) then ret tt
    else
      l <- alloc (mkTestMsg (tm_Str msg) (env_shadowSign (tm_Str msg)) (tm_View msg) (tm_Seq msg)
                    (cfg_id cfg) (cfg_hibeIndex cfg)) ;;
      recvPrepareTestMsg l ;;
      m <- load l ;;
      emit (OBroadcast (envelope (cfg_id cfg) (RPrepareTestMsg (Some m)))).

(** [sendPrePrepareTestMsg] and [recvRequestTestMsg], the primary's start of a
    round. *)
Definition sendPrePrepareTestMsg (msg : TestMsg) : MP unit :=
  w <- get ;;
  emit (OBroadcast (envelope (cfg_id cfg)
          (RTestMsg (msg <| tm_Seq := u64 (pc_seqNo w + 1) |>)))).

Definition recvRequestTestMsg (msg : TestMsg) : MP unit :=
  w <- get ;;
  (if bool_decide (is_Some (pc_testMsgs w !! tm_NodeIndex msg)) then ret tt
   else
     copy <- alloc msg ;;
     modify (fun w => w <| pc_testMsgs ::= <[tm_NodeIndex msg := copy]> |>)) ;;
  when (primary cfg (pc_view w) =? cfg_id cfg) (sendPrePrepareTestMsg msg).
End HibeRound.
