(* ===== verification/PbftCore.v ===== *)
(** * PbftCore: the handlers of a PBFT replica

    Models the handlers of [consensus/pbft/pbft-core.go] and
    [consensus/pbft/viewchange.go] and the event loop [events.SendEvent] around
    them. The handlers of the source call each other recursively; the calls
    that close a cycle go through [self], and [run] ties the knot with fuel. *)
From stdpp Require Import sorting.
From S2P Require Import Prelude.
From S2P Require Import Events.
From S2P Require Import Messages.
From S2P Require Import PbftState.
From S2P Require Import ViewChangeCalc.
From S2P Require Import PbftPersist.
From S2P Require Import HibeRound.

(** The calls that close a cycle of handlers. *)
Inductive Call (Block : Type) :=
| CallSendViewChange
| CallExecDoneSync
| CallSendEvent (e : Event Block).
Arguments CallSendViewChange {Block}.
Arguments CallExecDoneSync {Block}.
Arguments CallSendEvent {Block} e.

Section Core.
Context {Block : Type} `{!PbftEnv Block} `{!GoRange} (cfg : Config).
Abbreviation core := (pbftCore Block).
Abbreviation MP := (M core).
Abbreviation Ev := (option (Event Block)).

(** The calls that close a cycle. *)
Variable self : Call Block -> MP Ev.

(** ** View changes *)

(** The replicas with a view change for a view above [v], and the smallest such
    view (0 when there is none). *)
Definition higherReplicas (v : Z) (es : list ((Z * Z) * ViewChange)) : gset Z :=
  list_to_set ((fun e => e.1.2) <$> List.filter (fun e => negb (e.1.1 <=? v)) es).

Definition minHigherView (v : Z) (es : list ((Z * Z) * ViewChange)) : Z :=
  foldl (fun m e => if negb (e.1.1 <=? v)
                    then if (m =? 0) || (e.1.1 <? m) then e.1.1 else m
                    else m) 0 es.

(** [recvViewChange]. *)
Definition recvViewChange (vc : ViewChange) : MP Ev :=
  w <- get ;;
  if negb (verifyViewChangeSig vc) then ret None
  else if vc_View vc <? pc_view w then ret None
  else if negb (correctViewChange cfg vc) then ret None
  else if bool_decide (is_Some (pc_viewChangeStore w !! (vc_View vc, vc_ReplicaId vc))) then
    when (negb (pc_flag w) && (0 <? cfg_nullRequestTimeout cfg))
      (modify (fun w => w <| pc_nullRequestTimer ::= Reset (nullTimeout cfg w) nullRequestEvent |>
                          <| pc_flag := true |>)) ;;
    ret None
  else
    modify (fun w => w <| pc_viewChangeStore ::= <[(vc_View vc, vc_ReplicaId vc) := vc]> |>) ;;
    es <- range pc_viewChangeStore ;;
    if cfg_f cfg + 1 <=? Z.of_nat (size (higherReplicas (pc_view w) es)) then
      modify (fun w => w <| pc_view := u64 (minHigherView (pc_view w) es - 1) |>) ;;
      self CallSendViewChange
    else
      es <- range pc_viewChangeStore ;;
      if negb (pc_activeView w) && (vc_View vc =? pc_view w)
         && (allCorrectReplicasQuorum cfg <=? count (fun e => e.1.1 =? pc_view w) es)
      then
        modify (fun w => w <| pc_vcResendTimer ::= Stop |>) ;;
        startTimer (pc_lastNewViewTimeout w) ;;
        modify (fun w => w <| pc_lastNewViewTimeout ::= fun t => i64 (2 * t) |>) ;;
        ret (Some viewChangeQuorumEvent)
      else ret None.

(** [sendViewChange]. *)
Definition sendViewChange : MP Ev :=
  modify (fun w => w <| pc_SendViewChangeFlag := true |>) ;;
  stopTimer ;;
  modify (fun w => w <| pc_newViewStore ::= delete (pc_view w) |>) ;;
  modify (fun w => w <| pc_view ::= fun v => u64 (v + 1) |> <| pc_activeView := false |>) ;;
  pset <- calcPSet cfg ;;
  modify (fun w => w <| pc_pset := pset |>) ;;
  qset <- calcQSet ;;
  modify (fun w => w <| pc_qset := qset |>) ;;
  modify (fun w => w <| pc_certStore ::= filter (fun e => ~ (e.1.1 < pc_view w)) |>
                     <| pc_viewChangeStore ::= filter (fun e => ~ (e.1.1 < pc_view w)) |>) ;;
  cs <- range pc_chkpts ;;
  ps <- range pc_pset ;;
  qs <- range pc_qset ;;
  w <- get ;;
  let unsigned := mkViewChange (pc_view w) (pc_h w) ((fun e => mkVC_C e.1 e.2) <$> cs)
                    ps.*2 qs.*2 (cfg_id cfg) EmptyString (cfg_signer cfg) in
  let vc := mkViewChange (pc_view w) (pc_h w) ((fun e => mkVC_C e.1 e.2) <$> cs)
              ps.*2 qs.*2 (cfg_id cfg) (env_sign unsigned) (cfg_signer cfg) in
  innerBroadcast cfg (RViewChange vc) ;;
  modify (fun w => w <| pc_vcResendTimer ::=
                          Reset (cfg_vcResendTimeout cfg) viewChangeResendTimerEvent |>) ;;
  recvViewChange vc.

(** ** Execution *)

(** [executeOne]: whether the certificate was executed. *)
Definition executeOne (idx : Z * Z) : MP bool :=
  w <- get ;;
  match pc_certStore w !! idx with
  | None => ret false
  | Some cert =>
      match ct_prePrepare cert with
      | None => ret false
      | Some preprep =>
          if negb (idx.2 =? u64 (pc_LastExec w + 1)) then ret false
          else if pc_skipInProgress w then ret false
          else if negb (committed cfg w (ct_digest cert) idx.1 idx.2) then ret false
          else
            modify (fun w => w <| pc_currentExec := Some idx.2 |>) ;;
            if decide (ct_digest cert = EmptyString)
            then self CallExecDoneSync ;; ret true
            else
              (if primary cfg (pc_view w) =? cfg_id cfg
               then handOver idx (OFinished idx.2)
               else handOver idx (OCommittedBlock idx.2 (pp_Block preprep))) ;;
              ret true
      end
  end.

(** [executeOutstanding]. *)
Definition executeOutstanding : MP unit :=
  w <- get ;;
  if bool_decide (is_Some (pc_currentExec w)) then ret tt
  else
    certs <- range pc_certStore ;;
    for_until certs (fun e => executeOne e.1) ;;
    startTimerIfOutstandingBlocks cfg.

(** ** The three phases *)

(** [recvCommit]. *)
Definition recvCommit (commit : Commit) : MP unit :=
  ok <- inWV cfg (c_View commit) (c_SequenceNumber commit) ;;
  if negb ok then ret tt
  else
    cert <- getCert (c_View commit) (c_SequenceNumber commit) ;;
    if existsb (fun prev => c_ReplicaId prev =? c_ReplicaId commit) (ct_commit cert) then ret tt
    else
      updCert (c_View commit) (c_SequenceNumber commit)
        (fun cert => cert <| ct_commit ::= fun l => l ++ [commit] |>) ;;
      w <- get ;;
      when (committed cfg w (c_BlockHash commit) (c_View commit) (c_SequenceNumber commit))
        (stopTimer ;;
         modify (fun w => w <| pc_lastNewViewTimeout := cfg_newViewTimeout cfg |>) ;;
         modify (fun w => w <| pc_outstandingBlocks ::= delete (c_BlockHash commit) |>) ;;
         executeOutstanding ;;
         w <- get ;;
         when (c_SequenceNumber commit =? pc_viewChangeSeqNo w)
           (sendViewChange ;; ret tt)).

(** [maybeSendCommit]. *)
Definition maybeSendCommit (digest : string) (v n : Z) : MP unit :=
  cert <- getCert v n ;;
  w <- get ;;
  when (prepared cfg w digest v n && negb (ct_sentCommit cert))
    (let commit := mkCommit v n digest (cfg_id cfg) in
     updCert v n (fun cert => cert <| ct_sentCommit := true |>) ;;
     recvCommit commit ;;
     innerBroadcast cfg (RCommit commit)).

(** [recvPrepare]. *)
Definition recvPrepare (prep : Prepare) : MP unit :=
  if primary cfg (p_View prep) =? p_ReplicaId prep then ret tt
  else
    ok <- inWV cfg (p_View prep) (p_SequenceNumber prep) ;;
    if negb ok then ret tt
    else
      cert <- getCert (p_View prep) (p_SequenceNumber prep) ;;
      if existsb (fun prev => p_ReplicaId prev =? p_ReplicaId prep) (ct_prepare cert) then ret tt
      else
        updCert (p_View prep) (p_SequenceNumber prep)
          (fun cert => cert <| ct_prepare ::= fun l => l ++ [prep] |>) ;;
        persistPSet cfg ;;
        maybeSendCommit (p_BlockHash prep) (p_View prep) (p_SequenceNumber prep).

(** Whether another number already carries a pre-prepare for the digest. *)
Definition otherPrePrepare (v n : Z) (digest : string) (e : (Z * Z) * msgCert Block) : bool :=
  match ct_prePrepare e.2 with
  | Some p => (pp_View p =? v) && negb (pp_SequenceNumber p =? n)
              && bool_decide (pp_BlockHash p = digest) && negb (bool_decide (digest = EmptyString))
  | None => false
  end.

(** [sendPrePrepare] of a non-nil block (a nil one returns at once). *)
Definition sendPrePrepare (block : Block) : MP unit :=
  w <- get ;;
  let digest := block_hash block in
  let n := u64 (pc_seqNo w + 1) in
  let preprep := mkPrePrepare (pc_view w) n digest (Some block) (cfg_id cfg) in
  certs <- range pc_certStore ;;
  if existsb (otherPrePrepare (pc_view w) n digest) certs then ret tt
  else
    ok <- inWV cfg (pc_view w) n ;;
    if negb ok || (u64 (pc_h w + cfg_L cfg / 2) <? n) then ret tt
    else if pc_viewChangeSeqNo w <? n then ret tt
    else
      modify (fun w => w <| pc_seqNo := n |>) ;;
      getCert (pc_view w) n ;;
      updCert (pc_view w) n
        (fun cert => cert <| ct_prePrepare := Some preprep |> <| ct_digest := digest |>) ;;
      persistQSet ;;
      innerBroadcast cfg (RPrePrepare preprep) ;;
      maybeSendCommit digest (pc_view w) n.

(** [recvRequestBlock]. *)
Definition recvRequestBlock (block : Block) : MP unit :=
  let digest := block_hash block in
  modify (fun w => w <| pc_blockStore ::= <[digest := block]> |>
                     <| pc_outstandingBlocks ::= <[digest := block]> |>) ;;
  persistRequestBlock digest ;;
  w <- get ;;
  when (pc_activeView w) (softStartTimer (cfg_requestTimeout cfg)) ;;
  when ((primary cfg (pc_view w) =? cfg_id cfg) && pc_activeView w)
    (stopNullRequestTimer ;; sendPrePrepare block).

(** [resubmitBlockMsges]. *)
Definition resubmitBlockMsges : MP unit :=
  w <- get ;;
  if negb (primary cfg (pc_view w) =? cfg_id cfg) then ret tt
  else
    blocks <- range pc_outstandingBlocks ;;
    certs <- range pc_certStore ;;
    let submissionOrder :=
      List.filter (fun e : string * Block =>
        negb (existsb (fun c : (Z * Z) * msgCert Block => bool_decide (ct_digest c.2 = e.1)) certs))
        blocks in
    for_each submissionOrder (fun e => recvRequestBlock e.2).

(** [recvPrePrepare]; the hash of a nil block panics. *)
Definition recvPrePrepare (preprep : PrePrepare Block) : MP unit :=
  w <- get ;;
  if negb (pc_activeView w) then ret tt
  else if negb (primary cfg (pc_view w) =? pp_ReplicaId preprep) then ret tt
  else
    ok <- inWV cfg (pp_View preprep) (pp_SequenceNumber preprep) ;;
    if negb ok then ret tt
    else if pc_viewChangeSeqNo w <? pp_SequenceNumber preprep
    then sendViewChange ;; ret tt
    else
      cert <- getCert (pp_View preprep) (pp_SequenceNumber preprep) ;;
      if negb (bool_decide (ct_digest cert = EmptyString))
         && negb (bool_decide (ct_digest cert = pp_BlockHash preprep))
      then sendViewChange ;; ret tt
      else
        updCert (pp_View preprep) (pp_SequenceNumber preprep)
          (fun cert => cert <| ct_prePrepare := Some preprep |>
                            <| ct_digest := pp_BlockHash preprep |>) ;;
        w <- get ;;
        cont <- (if bool_decide (pc_blockStore w !! pp_BlockHash preprep = None)
                    && negb (bool_decide (pp_BlockHash preprep = EmptyString))
                 then match pp_Block preprep with
                      | None => panic
                      | Some block =>
                          if negb (bool_decide (block_hash block = pp_BlockHash preprep))
                          then ret false
                          else
                            modify (fun w => w <| pc_blockStore ::= <[block_hash block := block]> |>
                                               <| pc_outstandingBlocks ::= <[block_hash block := block]> |>) ;;
                            persistRequestBlock (block_hash block) ;;
                            ret true
                      end
                 else ret true) ;;
        if negb cont then ret tt
        else
          softStartTimer (cfg_requestTimeout cfg) ;;
          stopNullRequestTimer ;;
          w <- get ;;
          when (negb (primary cfg (pc_view w) =? cfg_id cfg)
                && prePrepared w (pp_BlockHash preprep) (pp_View preprep) (pp_SequenceNumber preprep)
                && negb (ct_sentPrepare cert))
            (let prep := mkPrepare (pp_View preprep) (pp_SequenceNumber preprep)
                           (pp_BlockHash preprep) (cfg_id cfg) in
             updCert (pp_View preprep) (pp_SequenceNumber preprep)
               (fun cert => cert <| ct_sentPrepare := true |>) ;;
             persistQSet ;;
             recvPrepare prep ;;
             innerBroadcast cfg (RPrepare prep)).

(** ** Watermarks and state transfer *)

(** [moveWatermarks]: the new low watermark is [n] rounded down to a multiple of
    the checkpoint period, and everything at or below it is forgotten. *)
Definition moveWatermarks (n : Z) : MP unit :=
  let h := n / cfg_K cfg * cfg_K cfg in
  certs <- range pc_certStore ;;
  for_each certs (fun e =>
    when (e.1.2 <=? h)
      (persistDelRequestBlock (ct_digest e.2) ;;
       modify (fun w => w <| pc_blockStore ::= delete (ct_digest e.2) |>
                          <| pc_certStore ::= delete e.1 |>))) ;;
  modify (fun w => w <| pc_checkpointStore ::= filter (fun e => ~ (k_SequenceNumber e.1 <= h)) |>
                     <| pc_pset ::= filter (fun e => ~ (e.1 <= h)) |>
                     <| pc_qset ::= filter (fun e => ~ (e.1.2 <= h)) |>) ;;
  cks <- range pc_chkpts ;;
  for_each cks (fun e =>
    when (e.1 <? h)
      (modify (fun w => w <| pc_chkpts ::= delete e.1 |>) ;;
       persistDelCheckpoint e.1)) ;;
  modify (fun w => w <| pc_h := h |>) ;;
  resubmitBlockMsges.

(** [Helper.skipTo] and [Helper.UpdateState], which runs the event loop on the
    replica itself. *)
Definition UpdateState (seqNo : Z) (id : string) (peers : list Z) : MP unit :=
  self (CallSendEvent (stateUpdateEvent seqNo id true peers)) ;; ret tt.

Definition skipTo (seqNo : Z) (id : string) (replicas : list Z) : MP unit :=
  if env_infoOk id then UpdateState seqNo id replicas else ret tt.

(** [retryStateTransfer]. *)
Definition retryStateTransfer (optional : option stateUpdateTarget) : MP unit :=
  w <- get ;;
  if bool_decide (is_Some (pc_currentExec w)) then ret tt
  else if pc_stateTransferring w then ret tt
  else
    let target := match optional with Some t => Some t | None => pc_highStateTarget w end in
    match target with
    | None => ret tt
    | Some t =>
        modify (fun w => w <| pc_stateTransferring := true |>) ;;
        skipTo (t_seqNo t) (t_id t) (t_replicas t)
    end.

(** [stateTransfer]. *)
Definition stateTransfer (optional : option stateUpdateTarget) : MP unit :=
  w <- get ;;
  when (negb (pc_skipInProgress w))
    (modify (fun w => w <| pc_skipInProgress := true |>) ;; InvalidateState) ;;
  retryStateTransfer optional.

(** ** New views *)

(** [processNewView2]: a digest without a stored block is a nil pointer. *)
Definition acceptEntry (x : XSet) : MP unit :=
  w <- get ;;
  if x_Seq x <=? pc_h w then ret tt
  else if decide (x_Hash x = EmptyString) then ret tt
  else match pc_blockStore w !! x_Hash x with
       | None => panic
       | Some block =>
           let preprep := mkPrePrepare (pc_view w) (x_Seq x) (block_hash block) (Some block)
                            (cfg_id cfg) in
           getCert (pc_view w) (x_Seq x) ;;
           updCert (pc_view w) (x_Seq x)
             (fun cert => cert <| ct_prePrepare := Some preprep |> <| ct_digest := x_Hash x |>) ;;
           modify (fun w => if pc_seqNo w <? x_Seq x then w <| pc_seqNo := x_Seq x |> else w) ;;
           persistQSet
       end.

Definition prepareEntry (x : XSet) : MP unit :=
  w <- get ;;
  if decide (x_Hash x = EmptyString) then ret tt
  else match pc_blockStore w !! x_Hash x with
       | None => panic
       | Some block =>
           let prep := mkPrepare (pc_view w) (x_Seq x) (block_hash block) (cfg_id cfg) in
           when (pc_h w <? x_Seq x)
             (getCert (pc_view w) (x_Seq x) ;;
              updCert (pc_view w) (x_Seq x) (fun cert => cert <| ct_sentPrepare := true |>) ;;
              recvPrepare prep) ;;
           innerBroadcast cfg (RPrepare prep)
       end.

Definition processNewView2 (nv : NewView) : MP Ev :=
  stopTimer ;;
  stopNullRequestTimer ;;
  modify (fun w => w <| pc_activeView := true |>) ;;
  modify (fun w => w <| pc_newViewStore ::= delete (u64 (pc_view w - 1)) |>) ;;
  modify (fun w => w <| pc_seqNo := pc_h w |>) ;;
  for_each (nv_Xset nv) acceptEntry ;;
  updateViewChangeSeqNo cfg ;;
  w <- get ;;
  (if negb (primary cfg (pc_view w) =? cfg_id cfg)
   then for_each (nv_Xset nv) prepareEntry
   else resubmitBlockMsges) ;;
  startTimerIfOutstandingBlocks cfg ;;
  ret (Some viewChangedEvent).

(** Whether the replica holds commit quorums for every number from [lo] up to
    the checkpoint, so that it can execute to it without state transfer. *)
Definition canExecuteToTarget (w : core) (lo target : Z) : bool :=
  (target <? two64 - 1) &&
  forallb (fun seqNo =>
    existsb (fun e : (Z * Z) * msgCert Block =>
        (e.1.2 =? seqNo)
        && (intersectionQuorum cfg <=? count (commit_matches e.1.1 seqNo) (ct_commit e.2)))
      (map_to_list (pc_certStore w)))
    (seqZ lo (target - lo + 1)).

(** The computed entries in the order of the received set; [None] when the
    received set is shorter than the computed one, an index out of range. *)
Definition alignXset (msglist received : list XSet) : option (list (option XSet)) :=
  if (length received <? length msglist)%nat then None
  else Some ((fun r => List.find (fun m => x_Seq r =? x_Seq m) msglist)
               <$> take (length msglist) received).

(** The blocks of the new view that are not stored are recorded as missing. *)
Definition noteMissing (x : XSet) : MP unit :=
  w <- get ;;
  if x_Seq x <=? pc_h w then ret tt
  else if decide (x_Hash x = EmptyString) then ret tt
  else when (bool_decide (pc_blockStore w !! x_Hash x = None))
         (modify (fun w => w <| pc_missingReqBatches ::= fun s => {[x_Hash x]} ∪ s |>)).

(** The tail of [processNewView], from the check for missing blocks. *)
Definition processNewView_blocks (nv : NewView) : MP Ev :=
  for_each (nv_Xset nv) noteMissing ;;
  w <- get ;;
  if decide (pc_missingReqBatches w = ∅) then processNewView2 nv else ret None.

(** [processNewView]. *)
Definition processNewView : MP Ev :=
  w <- get ;;
  match pc_newViewStore w !! pc_view w with
  | None => ret None
  | Some nv =>
      if pc_activeView w then ret None
      else
        sel <- selectInitialCheckpoint cfg (nv_Vset nv) ;;
        let '(cp, ok, replicas) := sel in
        if negb ok then sendViewChange
        else
          let speculativeLastExec := default (pc_LastExec w) (pc_currentExec w) in
          if (speculativeLastExec <? vcc_SequenceNumber cp)
             && canExecuteToTarget w (u64 (speculativeLastExec + 1)) (vcc_SequenceNumber cp)
          then ret None
          else
            match assignSequenceNumbers cfg (nv_Vset nv) (vcc_SequenceNumber cp) with
            | None => sendViewChange
            | Some msgList =>
                msglist <- ConvertMapToStruct msgList ;;
                match alignXset msglist (nv_Xset nv) with
                | None => panic
                | Some msglist2 =>
                    if negb (bool_decide (msglist = []) && bool_decide (nv_Xset nv = []))
                       && negb (bool_decide (msglist2 = Some <$> nv_Xset nv))
                    then sendViewChange
                    else
                      when (pc_h w <? vcc_SequenceNumber cp) (moveWatermarks (vcc_SequenceNumber cp)) ;;
                      if speculativeLastExec <? vcc_SequenceNumber cp
                      then
                        match env_b64dec (vcc_Id cp) with
                        | None => ret None
                        | Some snapshotID =>
                            let target := mkTarget (vcc_SequenceNumber cp) snapshotID replicas in
                            updateHighStateTarget target ;;
                            stateTransfer (Some target) ;;
                            processNewView_blocks nv
                        end
                      else processNewView_blocks nv
                end
            end
  end.

(** [sendNewView]. *)
Definition sendNewView : MP Ev :=
  w <- get ;;
  if bool_decide (is_Some (pc_newViewStore w !! pc_view w)) then ret None
  else
    vset <- getViewChanges ;;
    sel <- selectInitialCheckpoint cfg vset ;;
    let '(cp, ok, _) := sel in
    if negb ok then ret None
    else
      match assignSequenceNumbers cfg vset (vcc_SequenceNumber cp) with
      | None => ret None
      | Some msgList =>
          xset <- ConvertMapToStruct msgList ;;
          let nv := mkNewView (pc_view w) vset xset (cfg_id cfg) in
          innerBroadcast cfg (RNewView nv) ;;
          modify (fun w => w <| pc_newViewStore ::= <[pc_view w := nv]> |>) ;;
          processNewView
      end.

(** [recvNewView]. *)
Definition recvNewView (nv : NewView) : MP Ev :=
  w <- get ;;
  if negb ((0 <? nv_View nv) && (pc_view w <=? nv_View nv)
           && (primary cfg (nv_View nv) =? nv_ReplicaId nv)
           && bool_decide (pc_newViewStore w !! nv_View nv = None))
  then ret None
  else if negb (forallb verifyViewChangeSig (nv_Vset nv)) then ret None
  else
    modify (fun w => w <| pc_newViewStore ::= <[nv_View nv := nv]> |>) ;;
    processNewView.

(** [recvReturnBlock]. *)
Definition recvReturnBlock (block : Block) : MP Ev :=
  w <- get ;;
  let digest := block_hash block in
  if negb (bool_decide (digest ∈ pc_missingReqBatches w)) then ret None
  else
    modify (fun w => w <| pc_blockStore ::= <[digest := block]> |>
                       <| pc_missingReqBatches ::= fun s => s ∖ {[digest]} |>) ;;
    persistRequestBlock digest ;;
    processNewView.

(** ** Checkpoints *)

(** The checkpoint number [f+1] replicas have reached or passed. *)
Definition fPlusFirst (seqs : list Z) : Z :=
  let sorted := merge_sort (fun a b => a <= b) seqs in
  nth (length sorted - Z.to_nat (cfg_f cfg + 1)) sorted 0.

(** [weakCheckpointSetOutOfRange]. *)
Definition weakCheckpointSetOutOfRange (chkpt : Checkpoint) : MP bool :=
  w <- get ;;
  let H := u64 (pc_h w + cfg_L cfg) in
  if k_SequenceNumber chkpt <? H then
    modify (fun w => w <| pc_hChkpts ::= delete (k_ReplicaId chkpt) |>) ;;
    ret false
  else
    modify (fun w => w <| pc_hChkpts ::= <[k_ReplicaId chkpt := k_SequenceNumber chkpt]> |>) ;;
    w <- get ;;
    if negb (cfg_f cfg + 1 <=? Z.of_nat (size (pc_hChkpts w))) then ret false
    else
      es <- range pc_hChkpts ;;
      modify (fun w => w <| pc_hChkpts ::= filter (fun e => ~ (e.2 < H)) |>) ;;
      let m := fPlusFirst es.*2 in
      if negb (H <? m) then ret false
      else
        modify (fun w => w <| pc_blockStore := ∅ |>) ;;
        persistDelAllRequestBlockes ;;
        moveWatermarks m ;;
        modify (fun w => w <| pc_outstandingBlocks := ∅ |>) ;;
        modify (fun w => w <| pc_skipInProgress := true |>) ;;
        InvalidateState ;;
        stopTimer ;;
        ret true.

(** [witnessCheckpointWeakCert]: the first [f+1] replicas of the certificate,
    in an array of that length. *)
Definition witnessCheckpointWeakCert (chkpt : Checkpoint) : MP unit :=
  es <- range pc_checkpointStore ;;
  let same := List.filter (fun e : Checkpoint * bool =>
                (k_SequenceNumber e.1 =? k_SequenceNumber chkpt)
                && bool_decide (k_Id e.1 = k_Id chkpt)) es in
  let k := Z.to_nat (cfg_f cfg + 1) in
  let found := take k ((fun e => k_ReplicaId e.1) <$> same) in
  let members := found ++ replicate (k - length found) 0 in
  match env_b64dec (k_Id chkpt) with
  | None => ret tt
  | Some snapshotID =>
      let target := mkTarget (k_SequenceNumber chkpt) snapshotID members in
      updateHighStateTarget target ;;
      w <- get ;;
      when (pc_skipInProgress w) (retryStateTransfer (Some target))
  end.

(** [recvCheckpoint]. *)
Definition recvCheckpoint (chkpt : Checkpoint) : MP Ev :=
  out <- weakCheckpointSetOutOfRange chkpt ;;
  w <- get ;;
  if out then ret None
  else if negb (inW cfg w (k_SequenceNumber chkpt)) then ret None
  else
    modify (fun w => w <| pc_checkpointStore ::= <[chkpt := true]> |>) ;;
    es <- range pc_checkpointStore ;;
    let same := List.filter (fun e : Checkpoint * bool =>
                  k_SequenceNumber e.1 =? k_SequenceNumber chkpt) es in
    let matching := count (fun e : Checkpoint * bool => bool_decide (k_Id e.1 = k_Id chkpt)) same in
    let diffValues : gset string := {[k_Id chkpt]} ∪ list_to_set ((fun e => k_Id e.1) <$> same) in
    if cfg_f cfg + 1 <? Z.of_nat (size diffValues) then panic
    else
      when (matching =? cfg_f cfg + 1)
        (w <- get ;;
         (match pc_chkpts w !! k_SequenceNumber chkpt with
          | Some ownChkptID => if decide (ownChkptID = k_Id chkpt) then ret tt else panic
          | None => ret tt
          end) ;;
         witnessCheckpointWeakCert chkpt) ;;
      if matching <? intersectionQuorum cfg then ret None
      else
        w <- get ;;
        match pc_chkpts w !! k_SequenceNumber chkpt with
        | None =>
            when (pc_skipInProgress w
                  && (u64 (pc_h w + cfg_L cfg / 2) <=? k_SequenceNumber chkpt))
              (moveWatermarks (k_SequenceNumber chkpt)) ;;
            ret None
        | Some _ =>
            moveWatermarks (k_SequenceNumber chkpt) ;;
            processNewView
        end.

(** [Checkpoint]: the replica's own checkpoint. *)
Definition makeCheckpoint (seqNo : Z) (id : string) : MP unit :=
  if negb (seqNo mod cfg_K cfg =? 0) then ret tt
  else
    let idAsString := env_b64enc id in
    let chkpt := mkCheckpoint seqNo (cfg_id cfg) idAsString in
    modify (fun w => w <| pc_chkpts ::= <[seqNo := idAsString]> |>) ;;
    persistCheckpoint seqNo id ;;
    recvCheckpoint chkpt ;;
    innerBroadcast cfg (RCheckpoint chkpt).

(** [execDoneSync]. *)
Definition execDoneSync : MP unit :=
  w <- get ;;
  (match pc_currentExec w with
   | Some c =>
       modify (fun w => w <| pc_LastExec := c |>) ;;
       when (c mod cfg_K cfg =? 0) (makeCheckpoint c (pc_chainInfo w))
   | None => modify (fun w => w <| pc_skipInProgress := true |>)
   end) ;;
  modify (fun w => w <| pc_currentExec := None |>) ;;
  executeOutstanding.

(** [nullRequestHandler]: the primary's null request is a nil block, for which
    [sendPrePrepare] returns at once. *)
Definition nullRequestHandler : MP unit :=
  w <- get ;;
  if negb (pc_activeView w) then ret tt
  else if negb (primary cfg (pc_view w) =? cfg_id cfg) then sendViewChange ;; ret tt
  else ret tt.

(** ** The event loop *)

(** The case [stateUpdateEvent] of [ProcessEvent]. *)
Definition recvStateUpdate (seqNo : Z) (id : string) (target : bool) : MP Ev :=
  modify (fun w => w <| pc_stateTransferring := false |>) ;;
  w <- get ;;
  if negb target || (seqNo <? pc_h w) then
    match pc_highStateTarget w with
    | None => ret None
    | Some t => when (seqNo <? t_seqNo t) (retryStateTransfer None) ;; ret None
    end
  else
    modify (fun w => w <| pc_LastExec := seqNo |>) ;;
    moveWatermarks seqNo ;;
    modify (fun w => w <| pc_skipInProgress := false |> <| pc_StateTransferFlag := true |>) ;;
    ValidateState ;;
    makeCheckpoint seqNo id ;;
    executeOutstanding ;;
    w <- get ;;
    when (pc_ChangeViewFlag w)
      (modify (fun w => if pc_SendViewChangeFlag w then w <| pc_activeView := true |>
                        else w <| pc_view ::= fun v => u64 (v + 1) |>) ;;
       modify (fun w => w <| pc_SendViewChangeFlag := false |>
                          <| pc_ChangeViewFlag := false |>)) ;;
    w <- get ;;
    modify (fun w => w <| pc_tick ::= S |>) ;;
    when (env_handshake (pc_tick w)) (emit OSynchronise) ;;
    ret None.

(** The cases of [ProcessEvent] for routed messages; a nil [TestMsg] is
    ignored. *)
Definition processMsg (r : routed Block) : MP Ev :=
  match r with
  | RPrePrepare m => recvPrePrepare m ;; ret None
  | RPrepare m => recvPrepare m ;; ret None
  | RCommit m => recvCommit m ;; ret None
  | RCheckpoint m => recvCheckpoint m
  | RViewChange m => recvViewChange m
  | RNewView m => recvNewView m
  | RTestMsg m => recvPrePrepareTestMsg cfg m ;; ret None
  | RPrepareTestMsg None | RCommitTestMsg None => ret None
  | RPrepareTestMsg (Some m) => l <- alloc m ;; recvPrepareTestMsg cfg l ;; ret None
  | RCommitTestMsg (Some m) => l <- alloc m ;; recvCommitTestMsg cfg l ;; ret None
  end.

(** [ProcessEvent]. *)
Definition ProcessEvent (e : Event Block) : MP Ev :=
  match e with
  | viewChangeTimerEvent =>
      modify (fun w => w <| pc_timerActive := false |>) ;;
      sendViewChange ;; ret None
  | pbftMessageEvent m =>
      match recvMsg m (Sender m) with
      | inl r => ret (Some (msgEvent r))
      | inr _ => ret None
      end
  | stateUpdateEvent seqNo id target _ => recvStateUpdate seqNo id target
  | msgEvent r => processMsg r
  | CommittedEvent => ret (Some ExecDoneEvent)
  | CommittedEvent2 => ret (Some CommittedEvent)
  | ExecDoneEvent =>
      execDoneSync ;;
      w <- get ;;
      when (pc_skipInProgress w) (retryStateTransfer None) ;;
      processNewView
  | nullRequestEvent => nullRequestHandler ;; ret None
  | viewChangeQuorumEvent =>
      modify (fun w => w <| pc_coreViewChangeFlag := true |>) ;;
      w <- get ;;
      if primary cfg (pc_view w) =? cfg_id cfg then sendNewView else processNewView
  | viewChangedEvent =>
      modify (fun w => w <| pc_blockStore := ∅ |>) ;;
      modify (fun w => w <| pc_outstandingBlocks := ∅ |>) ;;
      emit ORestartMiner ;;
      modify (fun w => w <| pc_coreViewChangeFlag := false |>) ;;
      ret None
  | viewChangeResendTimerEvent =>
      w <- get ;;
      if pc_activeView w then ret None
      else
        modify (fun w => w <| pc_view ::= fun v => u64 (v - 1) |>) ;;
        sendViewChange
  | unknownEvent => ret None
  end.

(** One turn of [events.SendEvent]: process, and go on with the event that is
    returned. *)
Definition SendEvent (e : Event Block) : MP Ev :=
  next <- ProcessEvent e ;;
  match next with
  | None => ret None
  | Some e' => self (CallSendEvent e')
  end.

(** The bodies of the calls that close a cycle. *)
Definition dispatch (c : Call Block) : MP Ev :=
  match c with
  | CallSendViewChange => sendViewChange
  | CallExecDoneSync => execDoneSync ;; ret None
  | CallSendEvent e => SendEvent e
  end.
End Core.

(** ** Tying the knot *)

Section Run.
Context {Block : Type} `{!PbftEnv Block} `{!GoRange} (cfg : Config).

(** The handlers with [fuel] nested calls that close a cycle. *)
Fixpoint run (fuel : nat) (c : Call Block) : M (pbftCore Block) (option (Event Block)) :=
  match fuel with
  | O => fun w => (OutOfFuel, w)
  | S fuel' => dispatch cfg (run fuel') c
  end.

(** What the event thread does with one event of its queue
    ([managerImpl.Inject]). *)
Definition Inject (fuel : nat) (e : Event Block) : M (pbftCore Block) (option (Event Block)) :=
  run fuel (CallSendEvent e).
End Run.
