(* ===== verification/PbftInit.v ===== *)
(** * PbftInit: construction and recovery of a replica

    Models [newPbftCore] of [consensus/pbft/pbft-core.go], the adjustment of the
    null-request timeout in [New] of [consensus/pbft/pbft.go], and the recovery
    [restoreState], [restoreLastSeqNo] of [consensus/pbft/pbft-persist.go]. *)
From stdpp Require Import pretty.
From S2P Require Import Prelude.
From S2P Require Import Events.
From S2P Require Import Messages.
From S2P Require Import PbftState.
From S2P Require Import ViewChangeCalc.
From S2P Require Import PbftPersist.
From S2P Require Import HibeRound.
From S2P Require Import PbftCore.

(** The values read from the configuration file. *)
Record RawConfig := mkRawConfig {
  raw_N : Z;
  raw_f : Z;
  raw_K : Z;
  raw_logmultiplier : Z;
  raw_byzantine : bool;
  raw_requestTimeout : Z;
  raw_vcResendTimeout : Z;
  raw_nullRequestTimeout : Z;
  raw_signer : string;
  raw_hibeIndex : Z;
  raw_hibeN : Z;
}.

(** 30 seconds, in nanoseconds. *)
Definition thirtySeconds : Z := 30000000000.

(** The configuration of a replica: the view-change period and the new-view
    timeout of the file are overwritten with 30 and 30 seconds, and [New] raises
    a null-request timeout that is not above the request timeout. *)
Definition loadConfig (id : Z) (raw : RawConfig) : Config :=
  let nullT := raw_nullRequestTimeout raw in
  let nullT := if (nullT <=? raw_requestTimeout raw) && negb (nullT =? 0)
               then 3 * raw_requestTimeout raw / 2 else nullT in
  mkConfig id (raw_N raw) (raw_f raw) (u64 (raw_K raw)) (u64 (raw_logmultiplier raw)) 30
    (raw_byzantine raw) (raw_requestTimeout raw) (raw_vcResendTimeout raw) thirtySeconds
    nullT (raw_signer raw) (raw_hibeIndex raw) (raw_hibeN raw).

Section Init.
Context {Block : Type} `{!PbftEnv Block} `{!GoRange} (cfg : Config).
Abbreviation core := (pbftCore Block).
Abbreviation MP := (M core).
Variable self : Call Block -> MP (option (Event Block)).

(** The instance before [restoreState], over the contents of the database. *)
Definition blankCore (db : gmap string string) : core :=
  mkPbft true 0 0 0 0 {[0 := "XXX GENESIS"]} ∅ ∅ false false None ∅ None false
    newTimerImpl newTimerImpl newTimerImpl (cfg_newViewTimeout cfg) ∅ 0 ∅ ∅ ∅ ∅ ∅ ∅
    false false false false false true EmptyString db ∅ ∅ ∅ false 0%nat [] [].

(** The closure [updateSeqView]. *)
Definition updateSeqView (set : list ViewChange_PQ) : MP unit :=
  for_each set (fun e => modify (fun w =>
    let w := if pc_view w <? pq_View e then w <| pc_view := pq_View e |> else w in
    if pc_seqNo w <? pq_SequenceNumber e then w <| pc_seqNo := pq_SequenceNumber e |> else w)).

(** [restoreLastSeqNo]. *)
Definition restoreLastSeqNo : MP unit :=
  modify (fun w => w <| pc_LastExec := pc_seqNo w |>).

(** [restoreState]. *)
Definition restoreState : MP unit :=
  set <- restorePQSet "pset" ;;
  for_each set (fun e => modify (fun w => w <| pc_pset ::= <[pq_SequenceNumber e := e]> |>)) ;;
  updateSeqView set ;;
  set <- restorePQSet "qset" ;;
  for_each set (fun e => modify (fun w =>
    w <| pc_qset ::= <[(Str (pq_BlockHash e), pq_SequenceNumber e) := e]> |>)) ;;
  updateSeqView set ;;
  packed <- ReadStateSet "reqBlock." ;;
  es <- range (fun _ => packed) ;;
  for_each es (fun e =>
    match env_unmarshalBlock e.2 with
    | None => ret tt
    | Some b => modify (fun w => w <| pc_blockStore ::= <[block_hash b := b]> |>)
    end) ;;
  restoreLastSeqNo ;;
  chkpts <- ReadStateSet "chkpt." ;;
  es <- range (fun _ => chkpts) ;;
  w <- get ;;
  for_each es (fun e =>
    match scanChkptKey e.1 with
    | None => ret tt
    | Some seqNo => modify (fun w => w <| pc_chkpts ::= <[seqNo := env_b64enc e.2]> |>)
    end) ;;
  moveWatermarks cfg self
    (foldl (fun low e => match scanChkptKey e.1 with
                         | Some seqNo => if seqNo <? low then seqNo else low
                         | None => low
                         end) (pc_LastExec w) es).

(** [newPbftCore]: the panics on a bad configuration, then the recovery. *)
Definition newPbftCore : MP unit :=
  if cfg_N cfg <? cfg_f cfg * 3 + 1 then panic
  else if cfg_logMultiplier cfg <? 2 then panic
  else
    restoreState ;;
    modify (fun w => w <| pc_viewChangeSeqNo := two64 - 1 |>) ;;
    updateViewChangeSeqNo cfg.
End Init.
