(* ===== verification/PbftSteps.v ===== *)
(** * PbftSteps: the handlers as a transition system

    [micro] is the step relation of a replica: one constructor per elementary
    update the handlers make to the protocol state, guarded by what the handler
    has checked when it makes it.  [run_steps] shows that every run of the event
    loop, whatever its fuel and its outcome, is a sequence of such steps, so that
    an invariant of the replica is proved by cases on [micro]. *)
From S2P Require Import Prelude.
From S2P Require Import Events.
From S2P Require Import Messages.
From S2P Require Import PbftState.
From S2P Require Import ViewChangeCalc.
From S2P Require Import PbftPersist.
From S2P Require Import HibeRound.
From S2P Require Import PbftCore.
From S2P Require Import PbftInit.

Section Micro.
Context {Block : Type} `{!PbftEnv Block} `{!GoRange} (cfg : Config).
Abbreviation core := (pbftCore Block).
Abbreviation MP := (M core).

(** The part of the state that the step relation tracks; timers, flags, the
    database, the HIBE round and the bookkeeping of state transfer are left to
    change freely. *)
Definition hard (w : core) :=
  (pc_activeView w, pc_h w, pc_LastExec w, pc_seqNo w, pc_view w, pc_chkpts w,
   pc_pset w, pc_qset w, pc_currentExec w, pc_outstandingBlocks w,
   pc_missingReqBatches w, pc_blockStore w, pc_certStore w, pc_checkpointStore w,
   pc_viewChangeStore w, pc_newViewStore w, pc_out w, pc_ledger w).

Definition isExec (o : Output Block) : bool :=
  match o with OFinished _ | OCommittedBlock _ _ => true | _ => false end.

(** Guards of the messages a replica accepts. *)
Definition acceptsPrepare (w : core) (cert : msgCert Block) (prep : Prepare) : Prop :=
  pc_view w = p_View prep /\ inW cfg w (p_SequenceNumber prep) = true /\
  primary cfg (p_View prep) <> p_ReplicaId prep /\
  existsb (fun prev => p_ReplicaId prev =? p_ReplicaId prep) (ct_prepare cert) = false.

Definition acceptsCommit (w : core) (cert : msgCert Block) (c : Commit) : Prop :=
  pc_view w = c_View c /\ inW cfg w (c_SequenceNumber c) = true /\
  existsb (fun prev => c_ReplicaId prev =? c_ReplicaId c) (ct_commit cert) = false.

Inductive micro : core -> core -> Prop :=
| ms_soft w w' : hard w = hard w' -> micro w w'
| ms_newCert w v n :
    pc_certStore w !! (v, n) = None ->
    micro w (w <| pc_certStore ::= <[(v, n) := emptyCert]> |>)
| ms_addPrepare w cert prep :
    pc_certStore w !! (p_View prep, p_SequenceNumber prep) = Some cert ->
    acceptsPrepare w cert prep ->
    micro w (w <| pc_certStore ::= alter (fun c => c <| ct_prepare ::= fun l => l ++ [prep] |>)
                                     (p_View prep, p_SequenceNumber prep) |>)
| ms_addCommit w cert commit :
    pc_certStore w !! (c_View commit, c_SequenceNumber commit) = Some cert ->
    acceptsCommit w cert commit ->
    micro w (w <| pc_certStore ::= alter (fun c => c <| ct_commit ::= fun l => l ++ [commit] |>)
                                     (c_View commit, c_SequenceNumber commit) |>)
| ms_sentCommit w digest v n :
    prepared cfg w digest v n = true ->
    micro w (w <| pc_certStore ::= alter (fun c => c <| ct_sentCommit := true |>) (v, n) |>)
| ms_sentPrepare w v n :
    pc_view w = v ->
    micro w (w <| pc_certStore ::= alter (fun c => c <| ct_sentPrepare := true |>) (v, n) |>)
| ms_prePrepare w pp digest :
    pc_view w = pp_View pp ->
    (digest = pp_BlockHash pp \/
     exists b, pc_blockStore w !! digest = Some b /\ pp_BlockHash pp = block_hash b) ->
    micro w (w <| pc_certStore ::= alter (fun c => c <| ct_prePrepare := Some pp |>
                                                     <| ct_digest := digest |>)
                                     (pp_View pp, pp_SequenceNumber pp) |>)
| ms_seqNo w n : micro w (w <| pc_seqNo := n |>)
| ms_storeBlock w b :
    micro w (w <| pc_blockStore ::= <[block_hash b := b]> |>
               <| pc_outstandingBlocks ::= <[block_hash b := b]> |>)
| ms_dropOutstanding w d : micro w (w <| pc_outstandingBlocks ::= delete d |>)
| ms_clearBlocks w : micro w (w <| pc_blockStore := ∅ |>)
| ms_clearOutstanding w : micro w (w <| pc_outstandingBlocks := ∅ |>)
| ms_dropNewView w v : micro w (w <| pc_newViewStore ::= delete v |>)
| ms_addNewView w v nv : micro w (w <| pc_newViewStore ::= <[v := nv]> |>)
| ms_leaveView w :
    micro w (w <| pc_view ::= fun v => u64 (v + 1) |> <| pc_activeView := false |>)
| ms_enterView w : micro w (w <| pc_activeView := true |>)
| ms_setView w v : micro w (w <| pc_view := u64 v |>)
| ms_pset w ps : micro w (w <| pc_pset := ps |>)
| ms_qset w qs : micro w (w <| pc_qset := qs |>)
| ms_dropOldViews w :
    micro w (w <| pc_certStore ::= filter (fun e => ~ (e.1.1 < pc_view w)) |>
               <| pc_viewChangeStore ::= filter (fun e => ~ (e.1.1 < pc_view w)) |>)
| ms_addViewChange w vc :
    verifyViewChangeSig vc = true -> correctViewChange cfg vc = true -> pc_view w <= vc_View vc ->
    micro w (w <| pc_viewChangeStore ::= <[(vc_View vc, vc_ReplicaId vc) := vc]> |>)
| ms_beginExec w v n cert pp :
    pc_certStore w !! (v, n) = Some cert -> ct_prePrepare cert = Some pp ->
    pc_currentExec w = None -> n = u64 (pc_LastExec w + 1) -> pc_skipInProgress w = false ->
    committed cfg w (ct_digest cert) v n = true ->
    micro w (w <| pc_currentExec := Some n |>)
| ms_emitExec w v n cert pp o :
    pc_certStore w !! (v, n) = Some cert -> ct_prePrepare cert = Some pp ->
    pc_currentExec w = Some n -> n = u64 (pc_LastExec w + 1) ->
    committed cfg w (ct_digest cert) v n = true ->
    o = OFinished n \/ o = OCommittedBlock n (pp_Block pp) ->
    micro w (w <| pc_out ::= cons o |>
               <| pc_ledger ::= cons (mkLedger o (pc_LastExec w) (v, n) (pc_certStore w !! (v, n)) (pc_pset w !! n)) |>)
| ms_emit w o : isExec o = false -> micro w (w <| pc_out ::= cons o |>)
| ms_executed w c :
    pc_currentExec w = Some c -> micro w (w <| pc_LastExec := c |>)
| ms_execDone w : micro w (w <| pc_currentExec := None |>)
| ms_skipTo w n :
    pc_currentExec w = None -> pc_h w <= n -> micro w (w <| pc_LastExec := n |>)
| ms_forgetCert w v n d :
    micro w (w <| pc_blockStore ::= delete d |> <| pc_certStore ::= delete (v, n) |>)
| ms_trim w h :
    micro w (w <| pc_checkpointStore ::= filter (fun e => ~ (k_SequenceNumber e.1 <= h)) |>
               <| pc_pset ::= filter (fun e => ~ (e.1 <= h)) |>
               <| pc_qset ::= filter (fun e => ~ (e.1.2 <= h)) |>)
| ms_dropChkpt w n : micro w (w <| pc_chkpts ::= delete n |>)
| ms_addChkpt w n id : micro w (w <| pc_chkpts ::= <[n := id]> |>)
| ms_addCheckpoint w chkpt :
    inW cfg w (k_SequenceNumber chkpt) = true ->
    micro w (w <| pc_checkpointStore ::= <[chkpt := true]> |>)
| ms_moveH w n : micro w (w <| pc_h := n / cfg_K cfg * cfg_K cfg |>)
| ms_missing w d :
    micro w (w <| pc_missingReqBatches ::= fun s => {[d]} ∪ s |>).

(** Sequences of steps. *)
Definition steps : core -> core -> Prop := rtc micro.

#[global] Instance steps_po : PreOrder steps.
Proof. apply rtc_po. Qed.

Lemma micro_steps w w' : micro w w' -> steps w w'.
Proof. apply rtc_once. Qed.

Lemma hard_view w w' : hard w = hard w' -> pc_view w = pc_view w'.
Proof. unfold hard. congruence. Qed.

Lemma soft_steps w w' : hard w = hard w' -> steps w w'.
Proof. intros. apply micro_steps. by constructor. Qed.
End Micro.
#[export] Hint Resolve soft_steps micro_steps : go.

(** One structural step of a [stable] proof. *)
Ltac stab_step :=
  match goal with
  | |- forall _, _ => intro
  | |- stable _ (bind _ _) => apply stable_bind; [typeclasses eauto| |]
  | |- stable _ (ret _) => apply stable_ret; typeclasses eauto
  | |- stable _ get => apply stable_get; typeclasses eauto
  | |- stable _ (gets _) => apply stable_gets; typeclasses eauto
  | |- stable _ panic => apply stable_panic; typeclasses eauto
  | |- stable _ (when _ _) => apply stable_when; [typeclasses eauto|]
  | |- stable _ (for_each _ _) => apply stable_for_each; [typeclasses eauto|]
  | |- stable _ (for_until _ _) => apply stable_for_until; [typeclasses eauto|]
  | |- stable _ (modify _) => apply stable_modify; intro
  | |- stable _ (if ?b then _ else _) => destruct b
  | |- stable _ (let '(_, _) := ?x in _) => destruct x
  | |- stable _ (match ?x with _ => _ end) => destruct x
  | |- stable _ (let x := _ in _) => cbv zeta
  end.

(** Goals [steps w (f w)] for an update [f] that is soft or one of the unguarded
    steps. *)
Ltac steps_once :=
  match goal with
  | |- steps _ _ (match ?x with _ => _ end) => destruct x; steps_once
  | |- steps _ _ _ =>
      first [ reflexivity
            | apply soft_steps; reflexivity
            | apply micro_steps; solve [econstructor; eauto] ]
  end.

Ltac stab := repeat (first [ stab_step | solve [auto 1 with steps nocore] | steps_once ]).
Create HintDb steps.

(** ** Leaf operations *)

Section Leaves.
Context {Block : Type} `{!PbftEnv Block} `{!GoRange} (cfg : Config).
Abbreviation core := (pbftCore Block).
Abbreviation Steps := (steps (Block := Block) cfg).

Lemma range_steps {K V} `{Countable K} (m : core -> gmap K V) : stable Steps (range m).
Proof. unfold range. stab. Qed.
Lemma emit_steps o : isExec o = false -> stable Steps (emit o).
Proof. intros. unfold emit. stab. Qed.
Lemma innerBroadcast_steps r : stable Steps (innerBroadcast cfg r).
Proof. unfold innerBroadcast, emit. stab. Qed.
Lemma softStartTimer_steps t : stable Steps (softStartTimer t).
Proof. unfold softStartTimer. stab. Qed.
Lemma startTimer_steps t : stable Steps (startTimer t).
Proof. unfold startTimer. stab. Qed.
Lemma stopTimer_steps : stable Steps stopTimer.
Proof. unfold stopTimer. stab. Qed.
Lemma stopNullRequestTimer_steps : stable Steps stopNullRequestTimer.
Proof. unfold stopNullRequestTimer. stab. Qed.
Lemma startTimerIfOutstandingBlocks_steps : stable Steps (startTimerIfOutstandingBlocks cfg).
Proof. unfold startTimerIfOutstandingBlocks, softStartTimer. stab. Qed.
Lemma updateViewChangeSeqNo_steps : stable Steps (updateViewChangeSeqNo cfg).
Proof. unfold updateViewChangeSeqNo. stab. Qed.
Lemma updateHighStateTarget_steps t : stable Steps (updateHighStateTarget t).
Proof. unfold updateHighStateTarget. stab. Qed.
Lemma InvalidateState_steps : stable Steps InvalidateState.
Proof. unfold InvalidateState. stab. Qed.
Lemma ValidateState_steps : stable Steps ValidateState.
Proof. unfold ValidateState. stab. Qed.
Lemma getCert_steps v n : stable Steps (getCert v n).
Proof.
  intros w. unfold getCert. apply stable_at_get.
  destruct (pc_certStore w !! (v, n)) eqn:E; [by apply stable_at_ret; typeclasses eauto|].
  apply stable_at_modify; [typeclasses eauto| |apply stable_at_ret; typeclasses eauto].
  apply micro_steps. by constructor.
Qed.

#[local] Hint Resolve range_steps : steps.

Lemma calcPSet_steps : stable Steps (calcPSet cfg).
Proof. unfold calcPSet. stab. Qed.
Lemma calcQSet_steps : stable Steps calcQSet.
Proof. unfold calcQSet. stab. Qed.
Lemma getViewChanges_steps : stable Steps getViewChanges.
Proof. unfold getViewChanges. stab. Qed.
Lemma selectInitialCheckpoint_steps vs : stable Steps (selectInitialCheckpoint cfg vs).
Proof. unfold selectInitialCheckpoint. stab. Qed.
Lemma ConvertMapToStruct_steps m : stable Steps (ConvertMapToStruct m).
Proof. unfold ConvertMapToStruct. stab. Qed.
Lemma StoreState_steps k v : stable Steps (StoreState k v).
Proof. unfold StoreState. stab. Qed.
Lemma DelState_steps k : stable Steps (DelState k).
Proof. unfold DelState. stab. Qed.
Lemma ReadStateSet_steps k : stable Steps (ReadStateSet k).
Proof. unfold ReadStateSet. stab. Qed.
#[local] Hint Resolve StoreState_steps DelState_steps ReadStateSet_steps
  calcPSet_steps calcQSet_steps : steps.
Lemma persistPQSet_steps k s : stable Steps (persistPQSet k s).
Proof. unfold persistPQSet. stab. Qed.
#[local] Hint Resolve persistPQSet_steps : steps.
Lemma persistQSet_steps : stable Steps persistQSet.
Proof. unfold persistQSet. stab. Qed.
Lemma persistPSet_steps : stable Steps (persistPSet cfg).
Proof. unfold persistPSet. stab. Qed.
Lemma persistRequestBlock_steps d : stable Steps (persistRequestBlock d).
Proof. unfold persistRequestBlock. stab. Qed.
Lemma persistDelRequestBlock_steps d : stable Steps (persistDelRequestBlock d).
Proof. unfold persistDelRequestBlock. stab. Qed.
Lemma persistDelAllRequestBlockes_steps : stable Steps persistDelAllRequestBlockes.
Proof. unfold persistDelAllRequestBlockes. stab. Qed.
Lemma persistCheckpoint_steps n i : stable Steps (persistCheckpoint n i).
Proof. unfold persistCheckpoint. stab. Qed.
Lemma persistDelCheckpoint_steps n : stable Steps (persistDelCheckpoint n).
Proof. unfold persistDelCheckpoint. stab. Qed.

(** The HIBE round touches only the part of the state that is not tracked, and
    the output. *)
#[local] Hint Extern 1 (stable _ (emit _)) => apply emit_steps; reflexivity : steps.
Lemma alloc_steps m : stable Steps (alloc m).
Proof. unfold alloc. stab. Qed.
Lemma load_steps l : stable Steps (load l).
Proof. unfold load. stab. Qed.
Lemma store_steps l f : stable Steps (store l f).
Proof. unfold store. stab. Qed.
#[local] Hint Resolve alloc_steps load_steps store_steps : steps.
Lemma maybeVerify_steps : stable Steps (maybeVerify cfg).
Proof. unfold maybeVerify. stab. Qed.
#[local] Hint Resolve maybeVerify_steps : steps.
Lemma recvCommitTestMsg_steps l : stable Steps (recvCommitTestMsg cfg l).
Proof. unfold recvCommitTestMsg. stab. Qed.
#[local] Hint Resolve recvCommitTestMsg_steps : steps.
Lemma recvPrepareTestMsg_steps l : stable Steps (recvPrepareTestMsg cfg l).
Proof. unfold recvPrepareTestMsg, maybeSendCommitTest. stab. Qed.
#[local] Hint Resolve recvPrepareTestMsg_steps : steps.
Lemma recvPrePrepareTestMsg_steps m : stable Steps (recvPrePrepareTestMsg cfg m).
Proof. unfold recvPrePrepareTestMsg. stab. Qed.

(** What [inWV] and [getCert] have established when they return. *)
Lemma inWV_spec v n (w : core) b w' :
  inWV cfg v n w = (Ret b, w') ->
  hard w' = hard w /\ pc_skipInProgress w' = pc_skipInProgress w /\
  (b = true -> pc_view w' = v /\ inW cfg w' n = true).
Proof.
  unfold inWV, bind, get, when, modify, ret. destruct (pc_view w =? v) eqn:E; simpl;
    intros [= <- <-]; repeat split; auto; try done. all: cbn; intros; try lia; auto.
Qed.

Lemma getCert_spec v n (w : core) cert w' :
  getCert v n w = (Ret cert, w') ->
  pc_certStore w' !! (v, n) = Some cert /\
  w' = w <| pc_certStore := pc_certStore w' |>.
Proof.
  unfold getCert, bind, get. destruct (pc_certStore w !! (v, n)) eqn:E; cbn; intros [= <- <-]; cbn.
  - split; [done|by destruct w].
  - split; [by rewrite lookup_insert_eq|done].
Qed.
End Leaves.
#[export] Hint Extern 1 (stable _ (emit _)) => apply emit_steps; reflexivity : steps.
#[export] Hint Resolve range_steps innerBroadcast_steps softStartTimer_steps
  startTimer_steps stopTimer_steps stopNullRequestTimer_steps
  startTimerIfOutstandingBlocks_steps updateViewChangeSeqNo_steps updateHighStateTarget_steps
  InvalidateState_steps ValidateState_steps getCert_steps calcPSet_steps calcQSet_steps
  getViewChanges_steps selectInitialCheckpoint_steps ConvertMapToStruct_steps StoreState_steps
  DelState_steps ReadStateSet_steps persistPQSet_steps persistQSet_steps persistPSet_steps
  persistRequestBlock_steps persistDelRequestBlock_steps persistDelAllRequestBlockes_steps
  persistCheckpoint_steps persistDelCheckpoint_steps alloc_steps load_steps
  recvCommitTestMsg_steps recvPrepareTestMsg_steps recvPrePrepareTestMsg_steps : steps.

(** ** Handlers *)

(** What a call that closes a cycle may rely on: a state update is only
    processed between two executions. *)
Definition callPre {Block} (c : Call Block) (w : pbftCore Block) : Prop :=
  match c with
  | CallSendEvent (stateUpdateEvent _ _ _ _) => pc_currentExec w = None
  | _ => True
  end.

Ltac at_get := apply stable_at_get.
Tactic Notation "at_bind" := apply stable_at_bind; [typeclasses eauto| |].
Tactic Notation "at_bind" uconstr(H) := at_bind; [apply H|].
Ltac at_modify := apply stable_at_modify; [typeclasses eauto| |].
Ltac at_when := apply stable_at_when; [typeclasses eauto|].
Ltac at_all := match goal with |- stable_at ?R ?m ?w => refine ((_ : stable R m) w) end; stab.
Ltac at_ret := apply stable_at_ret; typeclasses eauto.

Section Handlers.
Context {Block : Type} `{!PbftEnv Block} `{!GoRange} (cfg : Config).
Abbreviation core := (pbftCore Block).
Abbreviation Steps := (steps (Block := Block) cfg).
Variable self : Call Block -> M core (option (Event Block)).
Hypothesis Hself : forall c w, callPre c w -> stable_at Steps (self c) w.

Lemma self_sendViewChange : stable Steps (self CallSendViewChange).
Proof using Hself. intros w. by apply Hself. Qed.
Lemma self_execDoneSync : stable Steps (self CallExecDoneSync).
Proof using Hself. intros w. by apply Hself. Qed.
#[local] Hint Resolve self_sendViewChange self_execDoneSync : steps.

Lemma recvViewChange_steps vc : stable Steps (recvViewChange cfg self vc).
Proof using Hself.
  intros w. unfold recvViewChange. at_get.
  destruct (verifyViewChangeSig vc) eqn:E1; cbn [negb]; [|at_ret].
  destruct (vc_View vc <? pc_view w) eqn:E2; [at_ret|].
  destruct (correctViewChange cfg vc) eqn:E3; cbn [negb]; [|at_ret].
  case_bool_decide.
  - at_all.
  - at_modify; [apply micro_steps, ms_addViewChange; auto; lia|].
    at_all.
Qed.
#[local] Hint Resolve recvViewChange_steps : steps.

Lemma sendViewChange_steps : stable Steps (sendViewChange cfg self).
Proof using Hself. unfold sendViewChange. stab. Qed.
#[local] Hint Resolve sendViewChange_steps : steps.

(** [executeOne] leaves the state alone when it executes nothing. *)
Lemma executeOne_false idx w w' : executeOne cfg self idx w = (Ret false, w') -> w' = w.
Proof using Type.
  unfold executeOne, bind, get, ret, modify, emit.
  destruct (pc_certStore w !! idx) as [cert|]; [|congruence].
  destruct (ct_prePrepare cert); [|congruence].
  destruct (negb _); [congruence|]. destruct (pc_skipInProgress w); [congruence|].
  destruct (negb _); [congruence|]. destruct (decide _).
  - destruct (self _ _) as [[] ?]; congruence.
  - destruct (_ =? _); cbn; congruence.
Qed.

Lemma executeOne_steps idx w : pc_currentExec w = None -> stable_at Steps (executeOne cfg self idx) w.
Proof using Hself.
  intros Hc. unfold executeOne. at_get. destruct idx as [v n]. cbn [fst snd].
  destruct (pc_certStore w !! (v, n)) as [cert|] eqn:Ect; [|at_ret].
  destruct (ct_prePrepare cert) as [pp|] eqn:Epp; [|at_ret].
  destruct (n =? u64 (pc_LastExec w + 1)) eqn:En; cbn [negb]; [|at_ret].
  destruct (pc_skipInProgress w) eqn:Esk; [at_ret|].
  destruct (committed cfg w (ct_digest cert) v n) eqn:Ecm; cbn [negb]; [|at_ret].
  at_modify; [apply micro_steps; eapply ms_beginExec; eauto; lia|].
  destruct (decide _).
  - at_bind self_execDoneSync. intros. at_ret.
  - at_bind; [|intros; at_ret].
    destruct (primary cfg (pc_view w) =? cfg_id cfg); apply micro_steps;
      eapply ms_emitExec; eauto; cbn; lia.
Qed.

Lemma executeOutstanding_steps : stable Steps (executeOutstanding cfg self).
Proof using Hself.
  intros w. unfold executeOutstanding. at_get. case_bool_decide as Hc; [at_ret|].
  assert (pc_currentExec w = None) as Hn by (destruct (pc_currentExec w); [exfalso; eauto|done]).
  at_bind range_steps. intros es w' Hr.
  assert (pc_currentExec w' = None) as Hn' by (unfold range, bind, get, modify, ret in Hr; injection Hr as <- <-; done).
  at_bind.
  - apply stable_at_for_until; [typeclasses eauto| |].
    + intros. by apply executeOne_steps.
    + intros. by eapply executeOne_false.
  - intros. apply startTimerIfOutstandingBlocks_steps.
Qed.
#[local] Hint Resolve executeOutstanding_steps : steps.

Lemma updCert_steps (w : core) v n f (k : unit -> M core unit) :
  Steps w (w <| pc_certStore ::= alter f (v, n) |>) ->
  stable Steps (k tt) -> stable_at Steps (bind (updCert v n f) k) w.
Proof using Type. intros H1 H2. unfold updCert. at_modify; [done|apply H2]. Qed.

Lemma recvCommit_steps commit : stable Steps (recvCommit cfg self commit).
Proof using Hself.
  intros w. unfold recvCommit. at_bind.
  { unfold inWV. at_all. }
  intros b w1 H1. apply inWV_spec in H1 as (_ & _ & Hb).
  destruct b; cbn [negb]; [|at_ret]. destruct (Hb eq_refl) as [Hv Hin].
  at_bind getCert_steps. intros cert w2 [Hl Hw]%getCert_spec.
  destruct (existsb _ _) eqn:Eex; [at_ret|].
  apply updCert_steps.
  - apply micro_steps. eapply ms_addCommit; [exact Hl|].
    rewrite Hw. done.
  - stab.
Qed.
#[local] Hint Resolve recvCommit_steps : steps.

Lemma maybeSendCommit_steps d v n : stable Steps (maybeSendCommit cfg self d v n).
Proof using Hself.
  intros w. unfold maybeSendCommit. at_bind getCert_steps.
  intros cert w1 _. at_get. at_when. intros [Hp _]%andb_true_iff. cbv zeta.
  apply updCert_steps; [|stab].
  apply micro_steps. by eapply ms_sentCommit.
Qed.
#[local] Hint Resolve maybeSendCommit_steps : steps.

Lemma recvPrepare_steps prep : stable Steps (recvPrepare cfg self prep).
Proof using Hself.
  intros w. unfold recvPrepare.
  destruct (primary cfg (p_View prep) =? p_ReplicaId prep) eqn:Ep; [at_ret|].
  at_bind.
  { unfold inWV. at_all. }
  intros b w1 H1. apply inWV_spec in H1 as (_ & _ & Hb).
  destruct b; cbn [negb]; [|at_ret]. destruct (Hb eq_refl) as [Hv Hin].
  at_bind getCert_steps. intros cert w2 [Hl Hw]%getCert_spec.
  destruct (existsb _ _) eqn:Eex; [at_ret|].
  apply updCert_steps.
  - apply micro_steps. eapply ms_addPrepare; [exact Hl|].
    rewrite Hw. split_and!; try done. lia.
  - stab.
Qed.
#[local] Hint Resolve recvPrepare_steps : steps.

Lemma sendPrePrepare_steps block : stable Steps (sendPrePrepare cfg self block).
Proof using Hself.
  intros w. unfold sendPrePrepare. at_get. cbv zeta. at_bind range_steps. intros es w1 Hr.
  assert (pc_view w1 = pc_view w) as Hv by (unfold range, bind, get, modify, ret in Hr; injection Hr as <- <-; done).
  destruct (existsb _ _); [at_ret|]. at_bind; [unfold inWV; at_all|].
  intros b w2 (Hh & _ & _)%inWV_spec. destruct (_ || _); [at_ret|]. destruct (_ <? _); [at_ret|].
  at_modify; [apply micro_steps, ms_seqNo|].
  at_bind getCert_steps. intros c w3 [_ Hw]%getCert_spec.
  apply updCert_steps; [|stab].
  apply micro_steps. apply (ms_prePrepare cfg w3 (mkPrePrepare _ _ _ _ _)); [|by left].
  rewrite Hw. cbn. apply hard_view in Hh. congruence.
Qed.
#[local] Hint Resolve sendPrePrepare_steps : steps.

Lemma recvRequestBlock_steps block : stable Steps (recvRequestBlock cfg self block).
Proof using Hself. unfold recvRequestBlock. stab. Qed.
#[local] Hint Resolve recvRequestBlock_steps : steps.

Lemma resubmitBlockMsges_steps : stable Steps (resubmitBlockMsges cfg self).
Proof using Hself. unfold resubmitBlockMsges. stab. Qed.
#[local] Hint Resolve resubmitBlockMsges_steps : steps.

Lemma moveWatermarks_steps n : stable Steps (moveWatermarks cfg self n).
Proof using Hself.
  unfold moveWatermarks. cbv zeta. stab.
  destruct x as [[v m] c]. apply micro_steps, ms_forgetCert.
Qed.
#[local] Hint Resolve moveWatermarks_steps : steps.

Lemma recvPrePrepare_steps pp : stable Steps (recvPrePrepare cfg self pp).
Proof using Hself.
  intros w. unfold recvPrePrepare. at_get.
  destruct (negb _); [at_ret|]. destruct (negb _); [at_ret|]. at_bind; [unfold inWV; at_all|].
  intros b w1 (_ & _ & Hb)%inWV_spec. destruct b; cbn [negb]; [|at_ret].
  destruct (Hb eq_refl) as [Hv _].
  destruct (_ <? _); [at_all|]. at_bind getCert_steps. intros cert w2 [_ Hw]%getCert_spec.
  assert (pc_view w2 = pp_View pp) as Hv2 by (rewrite Hw; done).
  destruct (_ && _); [at_all|]. unfold updCert at 1.
  at_modify; [by apply micro_steps, ms_prePrepare; [|left]|]. at_get.
  at_bind; [at_all|]. intros cont w3 Hc.
  assert (pc_view w3 = pp_View pp) as Hv3.
  { rewrite <- Hv2. revert Hc.
    unfold persistRequestBlock, StoreState, bind, get, ret, modify, panic.
    repeat case_match; intros; simplify_eq; done. }
  destruct cont; cbn [negb]; [|at_ret]. unfold softStartTimer, stopNullRequestTimer.
  at_modify; [by apply soft_steps|]. at_modify; [by apply soft_steps|]. at_get. at_when. intros _.
  cbv zeta. apply updCert_steps; [|stab]. by apply micro_steps, ms_sentPrepare.
Qed.
#[local] Hint Resolve recvPrePrepare_steps : steps.

Lemma retryStateTransfer_steps t : stable Steps (retryStateTransfer self t).
Proof using Hself.
  intros w. unfold retryStateTransfer. at_get. case_bool_decide as Hc; [at_ret|].
  destruct (pc_stateTransferring w); [at_ret|]. cbv zeta.
  destruct (match t with Some _ => _ | None => _ end) as [s|]; [|at_ret].
  at_modify; [by apply soft_steps|]. unfold skipTo, UpdateState. destruct (env_infoOk _); [|at_ret].
  at_bind; [|intros; at_ret]. apply Hself. simpl.
  destruct (pc_currentExec w); [exfalso; eauto|done].
Qed.
#[local] Hint Resolve retryStateTransfer_steps : steps.

Lemma stateTransfer_steps t : stable Steps (stateTransfer self t).
Proof using Hself. unfold stateTransfer. stab. Qed.
#[local] Hint Resolve stateTransfer_steps : steps.

Lemma acceptEntry_steps x : stable Steps (acceptEntry (Block := Block) cfg x).
Proof using Type.
  intros w. unfold acceptEntry. at_get. destruct (_ <=? _); [at_ret|]. destruct (decide _); [at_ret|].
  case_match; [|at_all]. cbv zeta. at_bind getCert_steps. intros c w1 [_ Hw]%getCert_spec.
  apply updCert_steps; [|stab].
  apply micro_steps, (ms_prePrepare cfg w1 (mkPrePrepare _ _ _ _ _)); rewrite Hw; [done|eauto].
Qed.
Lemma prepareEntry_steps x : stable Steps (prepareEntry cfg self x).
Proof using Hself.
  intros w. unfold prepareEntry. at_get. destruct (decide _); [at_ret|]. case_match; [|at_all].
  cbv zeta. at_bind; [|intros; at_all]. at_when. intros _.
  at_bind getCert_steps. intros c w1 [_ Hw]%getCert_spec.
  apply updCert_steps; [|stab]. apply micro_steps, ms_sentPrepare. by rewrite Hw.
Qed.
Lemma noteMissing_steps x : stable Steps (noteMissing (Block := Block) x).
Proof using Type. unfold noteMissing. stab. Qed.
#[local] Hint Resolve acceptEntry_steps prepareEntry_steps noteMissing_steps : steps.

Lemma processNewView2_steps nv : stable Steps (processNewView2 cfg self nv).
Proof using Hself. unfold processNewView2. stab. Qed.
#[local] Hint Resolve processNewView2_steps : steps.
Lemma processNewView_blocks_steps nv : stable Steps (processNewView_blocks cfg self nv).
Proof using Hself. unfold processNewView_blocks. stab. Qed.
#[local] Hint Resolve processNewView_blocks_steps : steps.
Lemma processNewView_steps : stable Steps (processNewView cfg self).
Proof using Hself. unfold processNewView. stab. Qed.
#[local] Hint Resolve processNewView_steps : steps.
Lemma sendNewView_steps : stable Steps (sendNewView cfg self).
Proof using Hself. unfold sendNewView. stab. Qed.
Lemma recvNewView_steps nv : stable Steps (recvNewView cfg self nv).
Proof using Hself. unfold recvNewView. stab. Qed.
#[local] Hint Resolve sendNewView_steps recvNewView_steps : steps.

Lemma weakCheckpointSetOutOfRange_steps c : stable Steps (weakCheckpointSetOutOfRange cfg self c).
Proof using Hself. unfold weakCheckpointSetOutOfRange. cbv zeta. stab. Qed.
Lemma witnessCheckpointWeakCert_steps c : stable Steps (witnessCheckpointWeakCert cfg self c).
Proof using Hself. unfold witnessCheckpointWeakCert. cbv zeta. stab. Qed.
#[local] Hint Resolve weakCheckpointSetOutOfRange_steps witnessCheckpointWeakCert_steps : steps.

Lemma recvCheckpoint_steps c : stable Steps (recvCheckpoint cfg self c).
Proof using Hself.
  intros w. unfold recvCheckpoint. at_bind weakCheckpointSetOutOfRange_steps. intros out w1 _.
  at_get. destruct out; [at_ret|]. destruct (inW cfg w1 _) eqn:Hin; cbn [negb]; [|at_ret].
  at_modify; [by apply micro_steps, ms_addCheckpoint|]. cbv zeta. at_all.
Qed.
#[local] Hint Resolve recvCheckpoint_steps : steps.

Lemma makeCheckpoint_steps n i : stable Steps (makeCheckpoint cfg self n i).
Proof using Hself. unfold makeCheckpoint. cbv zeta. stab. Qed.
#[local] Hint Resolve makeCheckpoint_steps : steps.

Lemma execDoneSync_steps : stable Steps (execDoneSync cfg self).
Proof using Hself.
  intros w. unfold execDoneSync. at_get.
  destruct (pc_currentExec w) as [c|] eqn:Hc; [|at_all].
  at_bind; [|intros; at_all]. at_modify; [by apply micro_steps, ms_executed|at_all].
Qed.
#[local] Hint Resolve execDoneSync_steps : steps.

Lemma recvStateUpdate_steps n i t w :
  pc_currentExec w = None -> stable_at Steps (recvStateUpdate cfg self n i t) w.
Proof using Hself.
  intros Hc. unfold recvStateUpdate. at_modify; [by apply soft_steps|]. at_get.
  destruct (_ || _) eqn:E; [at_all|]. apply orb_false_iff in E as [_ E].
  at_modify; [|at_all]. apply micro_steps, ms_skipTo; [done|]. cbn in *. lia.
Qed.

Lemma processMsg_steps r : stable Steps (processMsg cfg self r).
Proof using Hself. unfold processMsg. stab. Qed.
#[local] Hint Resolve processMsg_steps : steps.

Lemma ProcessEvent_steps e w : callPre (CallSendEvent e) w -> stable_at Steps (ProcessEvent cfg self e) w.
Proof using Hself.
  intros Hp. destruct e; unfold ProcessEvent, nullRequestHandler; try solve [at_all].
  by apply recvStateUpdate_steps.
Qed.
End Handlers.

(** ** Events handed on by the handlers *)

(** No handler hands on a state update: those are only sent by [UpdateState]. *)
Definition notUpdate {Block} (e : option (Event Block)) : Prop :=
  match e with Some (stateUpdateEvent _ _ _ _) => False | _ => True end.

Definition returns {W A} (P : A -> Prop) (m : M W A) : Prop :=
  forall w a w', m w = (Ret a, w') -> P a.

Lemma returns_bind {W A B} (P : B -> Prop) (m : M W A) f :
  (forall a, returns P (f a)) -> returns P (bind m f).
Proof.
  intros H w b w'. unfold bind. destruct (m w) as [[a| |] w1]; try done. apply H.
Qed.

Lemma returns_ret {W A} (P : A -> Prop) (a : A) : P a -> returns P (@ret W A a).
Proof. intros H w b w' [= <- _]. done. Qed.

Lemma returns_panic {W A} (P : A -> Prop) : returns P (@panic W A).
Proof. by intros w b w'. Qed.

Ltac returns_step :=
  match goal with
  | |- forall _, _ => intro
  | |- returns _ (bind _ _) => apply returns_bind
  | |- returns _ (ret _) => apply returns_ret; exact I
  | |- returns _ panic => apply returns_panic
  | |- returns _ (if ?b then _ else _) => destruct b
  | |- returns _ (let '(_, _) := ?x in _) => destruct x
  | |- returns _ (match ?x with _ => _ end) => destruct x
  | |- returns _ (let x := _ in _) => cbv zeta
  end.
Create HintDb returns.
Ltac rets := repeat (first [returns_step | solve [auto 1 with returns nocore]]).

Section Returns.
Context {Block : Type} `{!PbftEnv Block} `{!GoRange} (cfg : Config).
Variable self : Call Block -> M (pbftCore Block) (option (Event Block)).
Hypothesis Hself : forall c, returns notUpdate (self c).
#[local] Hint Resolve Hself : returns.

Lemma recvViewChange_returns vc : returns notUpdate (recvViewChange cfg self vc).
Proof using Hself. unfold recvViewChange. rets. Qed.
#[local] Hint Resolve recvViewChange_returns : returns.
Lemma sendViewChange_returns : returns notUpdate (sendViewChange cfg self).
Proof using Hself. unfold sendViewChange. rets. Qed.
#[local] Hint Resolve sendViewChange_returns : returns.
Lemma processNewView_blocks_returns nv : returns notUpdate (processNewView_blocks cfg self nv).
Proof using Hself. unfold processNewView_blocks, processNewView2. rets. Qed.
#[local] Hint Resolve processNewView_blocks_returns : returns.
Lemma processNewView_returns : returns notUpdate (processNewView cfg self).
Proof using Hself. unfold processNewView. rets. Qed.
#[local] Hint Resolve processNewView_returns : returns.
Lemma ProcessEvent_returns e : returns notUpdate (ProcessEvent cfg self e).
Proof using Hself.
  unfold ProcessEvent, processMsg, recvCheckpoint, recvNewView, recvStateUpdate, sendNewView. rets.
Qed.
End Returns.

(** ** Every run is a sequence of steps *)

Section RunSteps.
Context {Block : Type} `{!PbftEnv Block} `{!GoRange} (cfg : Config).

Lemma run_returns fuel c : returns notUpdate (run (Block := Block) cfg fuel c).
Proof.
  revert c. induction fuel as [|fuel IH]; intros c; simpl; [by intros w a w'|].
  destruct c; simpl.
  - by apply sendViewChange_returns.
  - rets.
  - unfold SendEvent. apply returns_bind. intros []; [apply IH|by apply returns_ret].
Qed.

Lemma run_steps fuel c w : callPre c w -> stable_at (steps cfg) (run (Block := Block) cfg fuel c) w.
Proof.
  revert c w. induction fuel as [|fuel IH]; intros c w Hp; simpl; [by unfold stable_at|].
  destruct c as [| |e]; simpl.
  - by apply sendViewChange_steps.
  - at_bind; [by apply execDoneSync_steps|]. intros. at_ret.
  - unfold SendEvent. at_bind; [by apply ProcessEvent_steps|].
    intros next w' Hr. destruct next as [e'|]; [|at_ret].
    apply IH. apply (ProcessEvent_returns cfg _ (run_returns fuel)) in Hr.
    by destruct e'.
Qed.

(** An invariant of the steps is an invariant of every run. *)
Lemma run_invariant (I : pbftCore Block -> Prop) fuel c w :
  (forall w w', micro cfg w w' -> I w -> I w') ->
  callPre c w -> I w -> I (run cfg fuel c w).2.
Proof.
  intros HI Hp H0.
  assert (forall w w', rtc (micro cfg) w w' -> I w -> I w') as Hrtc by (induction 1; eauto).
  exact (Hrtc _ _ (run_steps fuel c w Hp) H0).
Qed.
End RunSteps.

(** ** Reachable states *)

(** An invariant as a preorder: whatever keeps it. *)
Definition keeps {W} (I : W -> Prop) (w w' : W) : Prop := I w -> I w'.
#[export] Instance keeps_po {W} (I : W -> Prop) : PreOrder (keeps I).
Proof. unfold keeps. split; [by intros w|intros w1 w2 w3; auto]. Qed.

Lemma steps_keeps {Block} `{!PbftEnv Block} `{!GoRange} (cfg : Config) (I : pbftCore Block -> Prop) w w' :
  (forall w w', micro cfg w w' -> I w -> I w') -> steps cfg w w' -> keeps I w w'.
Proof. intros HI. unfold keeps. induction 1; eauto. Qed.

(** Events that reach a replica from outside: all but the state update, which
    only [UpdateState] sends. *)
Definition external {Block} (e : Event Block) : bool :=
  match e with stateUpdateEvent _ _ _ _ => false | _ => true end.

Section Reach.
Context {Block : Type} `{!PbftEnv Block} `{!GoRange} (cfg : Config).
Abbreviation core := (pbftCore Block).

(** The states of a replica: after construction over some database, after an
    event of the queue, after a block request of [Seal], after a HIBE request;
    whatever the nesting bound and the outcome. *)
Inductive reachable : core -> Prop :=
| reach_init fuel db :
    reachable (newPbftCore cfg (run cfg fuel) (blankCore cfg db)).2
| reach_event w fuel e :
    reachable w -> external e = true -> reachable (Inject cfg fuel e w).2
| reach_request w fuel b :
    reachable w -> reachable (recvRequestBlock cfg (run cfg fuel) b w).2
| reach_hibe w m :
    reachable w -> reachable (recvRequestTestMsg cfg m w).2.

Lemma recvRequestTestMsg_steps m : stable (steps (Block := Block) cfg) (recvRequestTestMsg cfg m).
Proof. unfold recvRequestTestMsg, sendPrePrepareTestMsg. stab. Qed.

(** Rule induction with an invariant of the steps. *)
Lemma reachable_invariant (I : core -> Prop) :
  (forall w w', micro cfg w w' -> I w -> I w') ->
  (forall fuel db, I (newPbftCore cfg (run cfg fuel) (blankCore cfg db)).2) ->
  forall w, reachable w -> I w.
Proof.
  intros HI Hinit w. induction 1 as [fuel db|w fuel e _ IH He|w fuel b _ IH|w m _ IH].
  - apply Hinit.
  - unfold Inject. apply run_invariant; auto. by destruct e.
  - revert IH. eapply steps_keeps; [exact HI|]. apply recvRequestBlock_steps.
    intros. by apply run_steps.
  - revert IH. eapply steps_keeps; [exact HI|]. apply recvRequestTestMsg_steps.
Qed.

(** Construction keeps an invariant of the steps that the recovery of the
    stored views, numbers and blocks keeps. *)
Lemma newPbftCore_invariant (I : core -> Prop) fuel db :
  (forall w w', micro cfg w w' -> I w -> I w') ->
  (forall w v, I w -> I (w <| pc_view := v |>)) ->
  (forall w, I w -> I (w <| pc_LastExec := pc_seqNo w |>)) ->
  (forall w b, I w -> I (w <| pc_blockStore ::= <[block_hash b := b]> |>)) ->
  I (blankCore cfg db) -> I (newPbftCore cfg (run cfg fuel) (blankCore cfg db)).2.
Proof.
  intros HI Hv He Hb. revert db.
  assert (forall A (m : M core A), stable (steps cfg) m -> stable (keeps I) m) as Hst.
  { intros A m Hm w. eapply steps_keeps; [exact HI|apply Hm]. }
  assert (forall w w', micro cfg w w' -> keeps I w w') as Hmi by (intros w w' Hm; exact (HI w w' Hm)).
  enough (stable (keeps I) (newPbftCore cfg (run cfg fuel))) as H' by (intros db; apply H').
  unfold newPbftCore, restoreState, updateSeqView, restoreLastSeqNo, restorePQSet, ReadState.
  repeat first
    [ apply Hst; solve [auto 2 with steps | apply moveWatermarks_steps; intros; by apply run_steps ]
    | stab_step ].
  all: try (apply Hmi; first [by apply ms_soft | apply ms_pset | apply ms_qset | apply ms_addChkpt]).
  all: try solve [unfold keeps; auto].
  all: cbv zeta; case_match; intros Hw; [apply (HI _ _ (ms_seqNo _ _ _))|]; case_match; auto.
Qed.
End Reach.
