(* ===== verification/PbftSample.v ===== *)
(** * PbftSample: a concrete environment

    An instance of [PbftEnv] on which the model runs: blocks are byte strings
    whose hash is [BytesToHash], a signature names its signer, the encodings are
    injective. The theorems of the other files are stated for every environment;
    their concrete instances, and the scenarios that show what the code does on a
    given sequence of messages, are evaluated in this one. *)
From Stdlib Require Import Ascii.
From S2P Require Import Prelude.
From S2P Require Import Events.
From S2P Require Import Messages.
From S2P Require Import PbftState.
From S2P Require Import ViewChangeCalc.
From S2P Require Import PbftPersist.
From S2P Require Import HibeRound.
From S2P Require Import PbftCore.
From S2P Require Import PbftInit.

(** ** An injective encoding *)

(** The binary digits of a code number. *)
Fixpoint pos_to_string (p : positive) : string :=
  match p with
  | xH => EmptyString
  | xO p' => String "0"%char (pos_to_string p')
  | xI p' => String "1"%char (pos_to_string p')
  end.

Fixpoint pos_of_string (s : string) : positive :=
  match s with
  | EmptyString => xH
  | String c s' => if decide (c = "0"%char) then xO (pos_of_string s') else xI (pos_of_string s')
  end.

Lemma pos_of_to_string p : pos_of_string (pos_to_string p) = p.
Proof. induction p as [p IH|p IH|]; simpl; by rewrite ?IH. Qed.

(** ** The environment *)

Definition sampleSign (vc : ViewChange) : string := "signed by " +:+ vc_Signer vc.

#[export] Program Instance sample_env : PbftEnv string := {|
  block_hash b := BytesToHash b;
  env_recover vc := if decide (vc_Signature vc = sampleSign vc) then Some (vc_Signer vc) else None;
  env_sign vc := sampleSign vc;
  env_marshalPQ l := Some (pos_to_string (encode l));
  env_unmarshalPQ s := decode (pos_of_string s);
  env_marshalBlock b := Some b;
  env_unmarshalBlock s := Some s;
  env_b64enc s := s;
  env_b64dec s := Some s;
  env_infoOk s := true;
  env_handshake t := true;
  env_coin t := false;
  env_shadowSign s := mkSIGBytes s EmptyString EmptyString;
  env_hibeVerify s l := true |}.
Next Obligation. intros. apply length_BytesToHash. Qed.
Next Obligation. intros l r [= <-]. by rewrite pos_of_to_string, decode_encode. Qed.
Next Obligation. naive_solver. Qed.
Next Obligation. done. Qed.

(** Four replicas, one of which may be faulty; a checkpoint every ten numbers,
    a log of forty. *)
Definition sample_raw : RawConfig := mkRawConfig 4 1 10 4 false 2 2 0 "me" 1 3.
Definition sample_cfg (id : Z) : Config := loadConfig id sample_raw.

(** A replica that starts on an empty database. *)
Definition sample_start (id : Z) : pbftCore string :=
  (newPbftCore (sample_cfg id) (run (sample_cfg id) 5) (blankCore (sample_cfg id) ∅)).2.

(** A replica that processes a list of events, stopping at a panic. *)
Fixpoint sample_run (id : Z) (es : list (Event string)) (w : pbftCore string)
    : outcome unit * pbftCore string :=
  match es with
  | [] => (Ret tt, w)
  | e :: es' =>
      match Inject (sample_cfg id) 20 e w with
      | (Ret _, w') => sample_run id es' w'
      | (Panic, w') => (Panic, w')
      | (OutOfFuel, w') => (OutOfFuel, w')
      end
  end.

(** The executed numbers and blocks among the outputs, latest first. *)
Definition executions {Block} (w : pbftCore Block) : list (Z * option Block) :=
  omap (fun o => match o with
                 | OFinished n => Some (n, None)
                 | OCommittedBlock n b => Some (n, b)
                 | _ => None
                 end) (pc_out w).
