(* ===== verification/PbftCerts.v ===== *)
(** * PbftCerts: certificates, quorums and agreement in a view

    The invariant of the certificate store ([certs_wf]) and of the block store
    ([blocks_wf]), preserved by every run of the event loop; what the quorum
    predicates [prepared] and [committed] of [consensus/pbft/pbft-core.go]
    establish in a well-formed state; the intersection of quorums; and the
    agreement of two replicas on what is prepared in a view. *)
From S2P Require Import Prelude.
From S2P Require Import Events.
From S2P Require Import Messages.
From S2P Require Import PbftState.
From S2P Require Import ViewChangeCalc.
From S2P Require Import PbftPersist.
From S2P Require Import HibeRound.
From S2P Require Import PbftCore.
From S2P Require Import PbftInit.
From S2P Require Import PbftSteps.
From S2P Require Import PbftSample.

(** ** The invariants *)

Section Invariants.
Context {Block : Type} `{EB : !PbftEnv Block} `{GR : !GoRange} (cfg : Config).
Abbreviation core := (pbftCore Block).

(** A certificate for view [v] and number [n]: its messages are for [v] and
    [n], no two prepares and no two commits are of the same replica, the
    primary has no prepare, and the digest is that of the pre-prepare. *)
Record cert_wf (v n : Z) (cert : msgCert Block) : Prop := {
  cw_prePrepare : forall pp, ct_prePrepare cert = Some pp ->
    pp_View pp = v /\ pp_SequenceNumber pp = n /\ ct_digest cert = pp_BlockHash pp;
  cw_noPrePrepare : ct_prePrepare cert = None -> ct_digest cert = EmptyString;
  cw_prepare : Forall (fun p => p_View p = v /\ p_SequenceNumber p = n /\
                                p_ReplicaId p <> primary cfg v) (ct_prepare cert);
  cw_prepare_nodup : NoDup (p_ReplicaId <$> ct_prepare cert);
  cw_commit : Forall (fun c => c_View c = v /\ c_SequenceNumber c = n) (ct_commit cert);
  cw_commit_nodup : NoDup (c_ReplicaId <$> ct_commit cert);
}.

Definition certs_wf (w : core) : Prop :=
  map_Forall (fun k cert => cert_wf k.1 k.2 cert) (pc_certStore w).

(** Blocks are stored under their hash. *)
Definition blocks_wf (w : core) : Prop :=
  map_Forall (fun d b => d = block_hash b) (pc_blockStore w) /\
  map_Forall (fun d b => d = block_hash b) (pc_outstandingBlocks w).

Definition core_wf (w : core) : Prop := certs_wf w /\ blocks_wf w.

Lemma emptyCert_wf v n : cert_wf v n emptyCert.
Proof. split; cbn; try done; constructor. Qed.

(** Changing one certificate, or forgetting some, keeps the others. *)
Lemma certs_wf_alter w f v n :
  certs_wf w ->
  (forall cert, pc_certStore w !! (v, n) = Some cert -> cert_wf v n cert -> cert_wf v n (f cert)) ->
  certs_wf (w <| pc_certStore ::= alter f (v, n) |>).
Proof.
  intros Hw Hf [v' n'] cert. cbn. rewrite lookup_alter_Some.
  intros [([= -> ->] & c & Hc & ->)|[_ Hc]]; [|by apply Hw in Hc].
  apply Hf; [done|]. by apply Hw in Hc.
Qed.

Lemma certs_wf_sub (w w' : core) :
  certs_wf w -> pc_certStore w' ⊆ pc_certStore w -> certs_wf w'.
Proof. intros Hw Hsub k cert Hk. apply Hw. by eapply lookup_weaken. Qed.

Lemma existsb_replica_fresh {A} (id : A -> Z) l x :
  existsb (fun prev => id prev =? id x) l = false -> id x ∉ id <$> l.
Proof.
  intros H (y & Hy & Hin)%list_elem_of_fmap.
  assert (existsb (fun prev => id prev =? id x) l = true) as E; [|congruence].
  apply existsb_exists. exists y. rewrite <- list_elem_of_In. split; [done|lia].
Qed.

Lemma nodup_snoc_fresh {A} (id : A -> Z) l x :
  NoDup (id <$> l) -> existsb (fun prev => id prev =? id x) l = false ->
  NoDup (id <$> (l ++ [x])).
Proof.
  intros Hl Hx%existsb_replica_fresh. rewrite fmap_app. apply NoDup_app.
  split; [done|]. cbn. split; [|apply NoDup_singleton].
  by intros y Hy ->%list_elem_of_singleton.
Qed.

Lemma addPrepare_wf w cert prep :
  acceptsPrepare cfg w cert prep ->
  cert_wf (p_View prep) (p_SequenceNumber prep) cert ->
  cert_wf (p_View prep) (p_SequenceNumber prep) (cert <| ct_prepare ::= fun l => l ++ [prep] |>).
Proof.
  intros (_ & _ & Hp & Hf) []. split; cbn; auto.
  - apply Forall_app. split; [done|]. by repeat constructor.
  - by apply nodup_snoc_fresh.
Qed.

Lemma addCommit_wf w cert commit :
  acceptsCommit cfg w cert commit ->
  cert_wf (c_View commit) (c_SequenceNumber commit) cert ->
  cert_wf (c_View commit) (c_SequenceNumber commit) (cert <| ct_commit ::= fun l => l ++ [commit] |>).
Proof.
  intros (_ & _ & Hf) []. split; cbn; auto.
  - apply Forall_app. split; [done|]. by repeat constructor.
  - by apply nodup_snoc_fresh.
Qed.

Lemma addPrePrepare_wf v n cert pp digest :
  v = pp_View pp -> n = pp_SequenceNumber pp -> digest = pp_BlockHash pp ->
  cert_wf v n cert -> cert_wf v n (cert <| ct_prePrepare := Some pp |> <| ct_digest := digest |>).
Proof. intros -> -> -> []. split; cbn; auto; [by intros ? [= <-]|done]. Qed.

Lemma hard_fields w w' : hard (Block := Block) w = hard w' ->
  pc_certStore w = pc_certStore w' /\ pc_blockStore w = pc_blockStore w' /\
  pc_outstandingBlocks w = pc_outstandingBlocks w'.
Proof. unfold hard. intros [=]. auto. Qed.

(** Every step of the replica keeps the certificates well-formed. *)
Lemma micro_certs_wf w w' : micro cfg w w' -> core_wf w -> certs_wf w'.
Proof.
  destruct 1; intros [Hw Hb]; try exact Hw.
  - apply hard_fields in H as (E & _). intros k c. rewrite <- E. apply Hw.
  - intros k c. cbn. rewrite lookup_insert_Some.
    intros [[<- <-]|[_ Hc]]; [apply emptyCert_wf|by apply Hw].
  - apply certs_wf_alter; [done|]. intros c Hc. simplify_eq. by eapply addPrepare_wf.
  - apply certs_wf_alter; [done|]. intros c Hc. simplify_eq. by eapply addCommit_wf.
  - apply certs_wf_alter; [done|]. by intros c _ [].
  - apply certs_wf_alter; [done|]. by intros c _ [].
  - apply certs_wf_alter; [done|]. intros c _. apply addPrePrepare_wf; try done.
    destruct H0 as [->|(b & Hbs & ->)]; [done|]. by apply Hb in Hbs.
  - eapply certs_wf_sub; [exact Hw|]. cbn. apply map_filter_subseteq.
  - eapply certs_wf_sub; [exact Hw|]. cbn. apply delete_subseteq.
Qed.

Lemma map_Forall_insert_fresh (m : gmap string Block) b :
  map_Forall (fun d b => d = block_hash b) m ->
  map_Forall (fun d b => d = block_hash b) (<[block_hash b := b]> m).
Proof. intros Hm d b'. rewrite lookup_insert_Some. intros [[<- <-]|[_ Hb]]; [done|by apply Hm]. Qed.

Lemma map_Forall_delete_any (m : gmap string Block) d :
  map_Forall (fun d b => d = block_hash b) m ->
  map_Forall (fun d b => d = block_hash b) (delete d m).
Proof. intros Hm d' b' [_ Hb]%lookup_delete_Some. by apply Hm. Qed.

Lemma micro_blocks_wf w w' : micro cfg w w' -> blocks_wf w -> blocks_wf w'.
Proof.
  destruct 1; intros [Hs Ho]; try (split; [exact Hs|exact Ho]).
  - apply hard_fields in H as (_ & E1 & E2). split; intros k c; rewrite <- ?E1, <- ?E2; auto.
  - split; cbn; by apply map_Forall_insert_fresh.
  - split; [exact Hs|]. by apply map_Forall_delete_any.
  - split; [|exact Ho]. apply map_Forall_empty.
  - split; [exact Hs|]. apply map_Forall_empty.
  - split; [|exact Ho]. by apply map_Forall_delete_any.
Qed.

Lemma micro_core_wf w w' : micro cfg w w' -> core_wf w -> core_wf w'.
Proof. intros H Hw. split; [by eapply micro_certs_wf|]. by eapply micro_blocks_wf; [|apply Hw]. Qed.

Lemma blankCore_wf db : core_wf (blankCore cfg db).
Proof. split; [|split]; apply map_Forall_empty. Qed.

Lemma init_core_wf fuel db : core_wf (newPbftCore cfg (run cfg fuel) (blankCore cfg db)).2.
Proof.
  apply newPbftCore_invariant.
  - apply micro_core_wf.
  - by intros w' v [Hc Hb].
  - by intros w' [Hc Hb].
  - intros w' b [Hc [Hs Ho]]. split; [exact Hc|]. split; [|exact Ho].
    by apply map_Forall_insert_fresh.
  - apply blankCore_wf.
Qed.
End Invariants.

(** ** Quorums *)

Section Quorums.
Context (cfg : Config).

(** The replicas of the network. *)
Definition replicas : gset Z := list_to_set (seqZ 0 (cfg_N cfg)).

Lemma size_replicas : 0 <= cfg_N cfg -> Z.of_nat (size replicas) = cfg_N cfg.
Proof.
  intros. unfold replicas. rewrite size_list_to_set by apply NoDup_seqZ.
  rewrite length_seqZ. lia.
Qed.

Lemma elem_of_replicas r : r ∈ replicas <-> 0 <= r < cfg_N cfg.
Proof. unfold replicas. rewrite elem_of_list_to_set, elem_of_seqZ. lia. Qed.

Lemma config_ok_quorum : config_ok cfg = true -> 3 * cfg_f cfg + 1 <= cfg_N cfg /\ 0 <= cfg_f cfg.
Proof. unfold config_ok. intros. repeat (apply andb_true_iff in H as [H ?]). lia. Qed.

Lemma intersectionQuorum_bounds :
  cfg_N cfg + cfg_f cfg + 1 <= 2 * intersectionQuorum cfg <= cfg_N cfg + cfg_f cfg + 2.
Proof. unfold intersectionQuorum. Z.to_euclidean_division_equations. lia. Qed.

Lemma primary_replica v : 0 < cfg_N cfg -> primary cfg v ∈ replicas.
Proof. intros. apply elem_of_replicas. by apply Z.mod_pos_bound. Qed.

Lemma sets_overlap (A B : gset Z) :
  A ⊆ replicas -> B ⊆ replicas -> 0 <= cfg_N cfg ->
  Z.of_nat (size A) + Z.of_nat (size B) <= cfg_N cfg + Z.of_nat (size (A ∩ B)).
Proof.
  intros HA HB HN. rewrite <- size_replicas by done.
  pose proof (size_union_alt A B) as H1. rewrite (size_difference_alt B A) in H1.
  assert (size (A ∪ B) <= size replicas)%nat by (apply subseteq_size; set_solver).
  replace (B ∩ A) with (A ∩ B) in H1 by set_solver.
  assert (size (A ∩ B) <= size B)%nat by (apply subseteq_size; set_solver). lia.
Qed.

(** Two quorums share a correct replica. *)
Lemma quorums_share (A B F : gset Z) :
  config_ok cfg = true -> A ⊆ replicas -> B ⊆ replicas ->
  intersectionQuorum cfg <= Z.of_nat (size A) -> intersectionQuorum cfg <= Z.of_nat (size B) ->
  Z.of_nat (size F) <= cfg_f cfg -> exists r, r ∈ A /\ r ∈ B /\ r ∉ F.
Proof.
  intros [H1 H2]%config_ok_quorum HA HB QA QB HF.
  pose proof intersectionQuorum_bounds.
  pose proof (sets_overlap A B HA HB ltac:(lia)).
  destruct (set_choose_or_empty ((A ∩ B) ∖ F)) as [[r Hr]|He].
  - exists r. set_solver.
  - assert (A ∩ B ⊆ F) as Hs%subseteq_size; [|lia].
    intros r Hr. destruct (decide (r ∈ F)); [done|]. exfalso. set_solver.
Qed.

(** C21: any two intersection quorums of replicas have more than [f] replicas
    in common, so at least one that is not faulty, and the replicas that are
    not faulty are numerous enough to form an intersection quorum. *)
Theorem quorum_intersection (A B : gset Z) :
  config_ok cfg = true -> A ⊆ replicas -> B ⊆ replicas ->
  intersectionQuorum cfg <= Z.of_nat (size A) -> intersectionQuorum cfg <= Z.of_nat (size B) ->
  cfg_f cfg + 1 <= Z.of_nat (size (A ∩ B)) /\
  intersectionQuorum cfg <= allCorrectReplicasQuorum cfg.
Proof.
  intros [H1 H2]%config_ok_quorum HA HB QA QB.
  pose proof intersectionQuorum_bounds.
  pose proof (sets_overlap A B HA HB ltac:(lia)). unfold allCorrectReplicasQuorum. lia.
Qed.

(** Distinct senders counted in a list form a set of that size. *)
Lemma count_senders {A} (id : A -> Z) (p : A -> bool) (l : list A) :
  NoDup (id <$> l) ->
  Z.of_nat (size (list_to_set (id <$> List.filter p l) : gset Z)) = count p l.
Proof.
  intros Hl. rewrite size_list_to_set; [by rewrite length_fmap|].
  induction l as [|x l IH]; simpl in *; [done|]. apply NoDup_cons in Hl as [Hx Hl].
  destruct (p x); [|by apply IH]. cbn. apply NoDup_cons. split; [|by apply IH].
  intros (y & Hy & Hin)%list_elem_of_fmap. apply list_elem_of_In, filter_In in Hin as [Hin _].
  apply Hx. rewrite Hy. apply list_elem_of_fmap_2, list_elem_of_In. done.
Qed.

Lemma elem_of_senders {A} (id : A -> Z) (p : A -> bool) (l : list A) r :
  r ∈ (list_to_set (id <$> List.filter p l) : gset Z) -> exists x, x ∈ l /\ p x = true /\ id x = r.
Proof.
  rewrite elem_of_list_to_set. intros (x & -> & Hx)%list_elem_of_fmap.
  apply list_elem_of_In, filter_In in Hx as [Hx Hp]. exists x. by rewrite list_elem_of_In.
Qed.
End Quorums.

(** ** What the quorum predicates establish *)

Section Certificates.
Context {Block : Type} `{EB : !PbftEnv Block} `{GR : !GoRange} (cfg : Config).
Abbreviation core := (pbftCore Block).

(** C16: in every reachable state, whatever messages were received in whatever
    order, each certificate holds messages of its own view and number only,
    at most one prepare and one commit per replica, no prepare of the primary,
    and the digest of its pre-prepare; and blocks are stored under their hash. *)
Theorem reachable_core_wf (w : core) : reachable cfg w -> core_wf cfg w.
Proof. apply reachable_invariant; [apply micro_core_wf|apply init_core_wf]. Qed.

(** A prepare certificate of [w] for [digest] at [(v, n)]: the pre-prepare, and
    matching prepares of the replicas [S], the primary not among them. *)
Definition prepareCert (w : core) (digest : string) (v n : Z) (S : gset Z) : Prop :=
  exists cert, pc_certStore w !! (v, n) = Some cert /\
    (forall r, r ∈ S -> r <> primary cfg v /\
       exists p, p ∈ ct_prepare cert /\ p = mkPrepare v n digest r).

Lemma prepare_matches_spec digest v n p :
  prepare_matches digest v n p = true -> p = mkPrepare v n digest (p_ReplicaId p).
Proof.
  unfold prepare_matches. rewrite !andb_true_iff, bool_decide_eq_true.
  destruct p; cbn. intros [[H1 H2] ->]. f_equal; lia.
Qed.

(** The replicas behind a prepared digest that the P set does not vouch for. *)
Lemma prepared_cert w digest v n :
  core_wf cfg w -> prepared cfg w digest v n = true ->
  (forall p, pc_pset w !! n = Some p -> pq_View p <> v) ->
  exists S, intersectionQuorum cfg - 1 <= Z.of_nat (size S) /\ prepareCert w digest v n S.
Proof.
  intros [Hw _]. unfold prepared. rewrite andb_true_iff, orb_true_iff. intros [_ [Hp|Hc]] Hpset.
  - case_match; [|done]. exfalso. eapply Hpset; [done|]. lia.
  - destruct (pc_certStore w !! (v, n)) as [cert|] eqn:E; [|done].
    destruct (Hw _ _ E) as [_ _ Hpr Hnd _ _]. cbn in *.
    exists (list_to_set (p_ReplicaId <$> List.filter (prepare_matches digest v n) (ct_prepare cert))).
    rewrite count_senders by done. split; [lia|]. exists cert. split; [done|].
    intros r (p & Hin & Hm & <-)%elem_of_senders. rewrite Forall_forall in Hpr.
    apply prepare_matches_spec in Hm. split; [by apply Hpr|]. by exists p.
Qed.

(** The pre-prepare behind a prepared digest that the Q set does not vouch for. *)
Lemma prePrepared_cert w digest v n :
  prePrepared w digest v n = true ->
  (forall q, pc_qset w !! (digest, n) = Some q -> pq_View q <> v) ->
  exists (cert : msgCert Block) (pp : PrePrepare Block), pc_certStore w !! (v, n) = Some cert /\ ct_prePrepare cert = Some pp /\
    pp_BlockHash pp = digest.
Proof.
  unfold prePrepared. rewrite orb_true_iff. intros [Hq|Hc] Hqs.
  - case_match; [|done]. exfalso. eapply Hqs; [done|]. lia.
  - destruct (pc_certStore w !! (v, n)) as [cert|] eqn:E; [|done].
    destruct (ct_prePrepare cert) as [pp|] eqn:E'; [|done].
    rewrite !andb_true_iff, bool_decide_eq_true in Hc. naive_solver.
Qed.

(** C14: When a reachable replica holds [committed] for a digest, and its P set has no
    entry of that view and number, its certificate holds commits for the view and number
    that name different replicas, a quorum of them, and prepares for exactly that
    digest that name different replicas other than the primary, a quorum less one of
    them: no vote is counted twice.  The names are those in the messages, which
    are neither authenticated nor compared with the replicas of the network, so that one
    peer can send all of them; see forged_senders_execute. *)
Theorem committed_certificate (w : core) digest v n :
  reachable cfg w -> committed cfg w digest v n = true ->
  (forall p, pc_pset w !! n = Some p -> pq_View p <> v) ->
  exists cert (P C : gset Z),
    pc_certStore w !! (v, n) = Some cert /\
    intersectionQuorum cfg <= Z.of_nat (size C) /\
    (forall r, r ∈ C -> exists c, c ∈ ct_commit cert /\
       c_ReplicaId c = r /\ c_View c = v /\ c_SequenceNumber c = n) /\
    intersectionQuorum cfg - 1 <= Z.of_nat (size P) /\
    (forall r, r ∈ P -> r <> primary cfg v /\
       exists p, p ∈ ct_prepare cert /\ p = mkPrepare v n digest r).
Proof.
  intros Hr [Hp Hc]%andb_true_iff Hps.
  assert (core_wf cfg w) as Hw.
  { eapply reachable_invariant; [apply micro_core_wf|apply init_core_wf|exact Hr]. }
  destruct (prepared_cert _ _ _ _ Hw Hp Hps) as (P & HP & cert & Hcert & HPin).
  rewrite Hcert in Hc. destruct (proj1 Hw _ _ Hcert) as [_ _ _ _ _ Hnd]. cbn in *.
  exists cert, P, (list_to_set (c_ReplicaId <$> List.filter (commit_matches v n) (ct_commit cert))).
  rewrite count_senders by done. split_and!; [done|lia| |done|done].
  intros r (c & Hin & Hm & <-)%elem_of_senders. exists c.
  unfold commit_matches in Hm. split_and!; (done || lia).
Qed.
End Certificates.

(** ** Agreement in a view *)

Section Agreement.
Context {Block : Type} `{EB : !PbftEnv Block} `{GR : !GoRange}.
Abbreviation core := (pbftCore Block).

(** The faulty replicas, and what a replica has voted for at a view and number
    by a pre-prepare, a new view or a prepare. *)
Variable F : gset Z.
Variable supports : Z -> Z -> Z -> string -> Prop.

(** The votes of correct replicas that a replica holds for [(v, n)] were cast
    by them, its prepares are of replicas of the network, and its P and Q sets
    hold nothing of the current view. *)
Record sound_votes (cfg : Config) (w : core) (v n : Z) : Prop := {
  sv_prepare : forall cert p, pc_certStore w !! (v, n) = Some cert -> p ∈ ct_prepare cert ->
    p_ReplicaId p ∉ F -> supports (p_ReplicaId p) v n (p_BlockHash p);
  sv_prePrepare : forall cert pp, pc_certStore w !! (v, n) = Some cert ->
    ct_prePrepare cert = Some pp -> primary cfg v ∉ F ->
    supports (primary cfg v) v n (pp_BlockHash pp);
  sv_ids : forall cert p, pc_certStore w !! (v, n) = Some cert -> p ∈ ct_prepare cert ->
    p_ReplicaId p ∈ replicas cfg;
  sv_pset : forall p, pc_pset w !! n = Some p -> pq_View p <> v;
  sv_qset : forall d q, pc_qset w !! (d, n) = Some q -> pq_View q <> v;
}.

(** A prepared digest has a quorum of supporters, the correct ones of which
    voted for it. *)
Lemma prepared_supporters cfg w v n d :
  config_ok cfg = true -> core_wf cfg w -> sound_votes cfg w v n ->
  prepared cfg w d v n = true ->
  exists A, A ⊆ replicas cfg /\ intersectionQuorum cfg <= Z.of_nat (size A) /\
    forall r, r ∈ A -> r ∉ F -> supports r v n d.
Proof.
  intros [HN Hf]%config_ok_quorum Hw [Hsp Hspp Hid Hps Hqs] Hp.
  destruct (prepared_cert cfg w d v n Hw Hp Hps) as (S & HS & cert & Hc & HSin).
  apply andb_true_iff in Hp as [Hpp _].
  destruct (prePrepared_cert w d v n Hpp) as (cert' & pp & Hc' & Epp & <-); [eauto|].
  assert (cert' = cert) as -> by congruence. exists ({[primary cfg v]} ∪ S). split_and!.
  - apply union_least; [|intros r (_ & p & Hin & ->)%HSin; by apply (Hid cert _ Hc Hin)].
    apply singleton_subseteq_l, primary_replica. lia.
  - rewrite size_union, size_singleton; [lia|]. intros r ->%elem_of_singleton Hr.
    by destruct (HSin _ Hr).
  - intros r [->%elem_of_singleton|Hr]%elem_of_union HF; [by eapply Hspp|].
    destruct (HSin _ Hr) as (_ & p & Hin & ->). by apply (Hsp _ _ Hc Hin).
Qed.

(** C13: Agreement in a view, of replicas with sound votes: when at most [f] replicas
    are faulty and a correct replica votes for at most one digest at a view and number,
    no two replicas of the network have different digests prepared there, in any
    states they can reach in which the votes that they hold are sound.  That is,
    what they hold in the name of a correct replica is a vote of that replica,
    all prepares name replicas of the network, and their P and Q sets have no entry of
    this view at this number.  The code does not see to it that votes are sound: it
    does not authenticate the senders, see forged_senders_execute. *)
Theorem agreement_in_view (cfg1 cfg2 : Config) (w1 w2 : core) v n d1 d2 :
  config_ok cfg1 = true -> cfg_N cfg2 = cfg_N cfg1 -> cfg_f cfg2 = cfg_f cfg1 ->
  config_ok cfg2 = true -> Z.of_nat (size F) <= cfg_f cfg1 ->
  (forall r d d', r ∉ F -> supports r v n d -> supports r v n d' -> d = d') ->
  reachable cfg1 w1 -> reachable cfg2 w2 ->
  sound_votes cfg1 w1 v n -> sound_votes cfg2 w2 v n ->
  prepared cfg1 w1 d1 v n = true -> prepared cfg2 w2 d2 v n = true -> d1 = d2.
Proof.
  intros Hk1 EN Ef Hk2 HF Huniq Hr1 Hr2 Hs1 Hs2 Hp1 Hp2.
  apply (reachable_invariant cfg1 _ (micro_core_wf cfg1) (init_core_wf cfg1)) in Hr1.
  apply (reachable_invariant cfg2 _ (micro_core_wf cfg2) (init_core_wf cfg2)) in Hr2.
  destruct (prepared_supporters _ _ _ _ _ Hk1 Hr1 Hs1 Hp1) as (A & HA & QA & SA).
  destruct (prepared_supporters _ _ _ _ _ Hk2 Hr2 Hs2 Hp2) as (B & HB & QB & SB).
  unfold replicas in HB. unfold intersectionQuorum in QB. rewrite EN in HB. rewrite EN, Ef in QB.
  destruct (quorums_share cfg1 A B F Hk1 HA HB QA QB HF) as (r & HrA & HrB & HrF). eauto.
Qed.
End Agreement.

(** ** Instances *)

Section Instances.
(** A backup that has agreed with two others on a block, and the primary. *)
Definition agreedDigest : string := BytesToHash "block one".
Definition agreeingEvents : list (Event string) :=
  [msgEvent (RPrePrepare (mkPrePrepare 0 1 agreedDigest (Some "block one") 0));
   msgEvent (RPrepare (mkPrepare 0 1 agreedDigest 2));
   msgEvent (RPrepare (mkPrepare 0 1 agreedDigest 3));
   msgEvent (RCommit (mkCommit 0 1 agreedDigest 0));
   msgEvent (RCommit (mkCommit 0 1 agreedDigest 2))].
Definition agreedBackup (id : Z) : pbftCore string :=
  (sample_run id agreeingEvents (sample_start id)).2.

Lemma sample_run_reachable id es w :
  forallb external es = true -> reachable (sample_cfg id) w ->
  reachable (sample_cfg id) (sample_run id es w).2.
Proof.
  revert w. induction es as [|e es IH]; intros w He Hw; simpl in *; [done|].
  apply andb_true_iff in He as [He Hes].
  pose proof (reach_event (sample_cfg id) w 20 e Hw He) as Hr.
  destruct (Inject _ _ _ _) as [[] w']; simpl in *; auto.
Qed.

Lemma agreedBackup_reachable id : reachable (sample_cfg id) (agreedBackup id).
Proof. apply sample_run_reachable; [done|]. apply reach_init. Qed.
End Instances.

Lemma quorum_intersection_witness :
  cfg_f (sample_cfg 1) + 1 <= Z.of_nat (size ({[0; 1; 2]} ∩ {[1; 2; 3]} : gset Z)) /\
  intersectionQuorum (sample_cfg 1) <= allCorrectReplicasQuorum (sample_cfg 1).
Proof.
  apply (quorum_intersection (sample_cfg 1) {[0; 1; 2]} {[1; 2; 3]}); try (vm_compute; congruence).
  all: apply (bool_decide_unpack _); vm_compute; exact I.
Defined.

Lemma reachable_core_wf_witness : core_wf (sample_cfg 1) (agreedBackup 1).
Proof. apply (reachable_core_wf (sample_cfg 1)), agreedBackup_reachable. Defined.

Lemma committed_certificate_witness :
  exists cert (P C : gset Z),
    pc_certStore (agreedBackup 1) !! (0, 1) = Some cert /\
    3 <= Z.of_nat (size C) /\
    (forall r, r ∈ C -> exists c, c ∈ ct_commit cert /\
       c_ReplicaId c = r /\ c_View c = 0 /\ c_SequenceNumber c = 1) /\
    2 <= Z.of_nat (size P) /\
    (forall r, r ∈ P -> r <> 0 /\
       exists p, p ∈ ct_prepare cert /\ p = mkPrepare 0 1 agreedDigest r).
Proof.
  apply (committed_certificate (sample_cfg 1) (agreedBackup 1) agreedDigest 0 1).
  - apply agreedBackup_reachable.
  - vm_compute. reflexivity.
  - assert (pc_pset (agreedBackup 1) !! 1 = None) as -> by (vm_compute; reflexivity). done.
Defined.

(** Every correct replica of the sample has voted for the agreed digest. *)
Definition sampleVotes (r v n : Z) (d : string) : Prop := d = agreedDigest.

Definition certVotesSound (N v n : Z) (w : pbftCore string) : bool :=
  match pc_certStore w !! (v, n) with
  | Some cert =>
      forallb (fun p => bool_decide (p_BlockHash p = agreedDigest) && (0 <=? p_ReplicaId p)
                        && (p_ReplicaId p <? N)) (ct_prepare cert)
      && match ct_prePrepare cert with
         | Some pp => bool_decide (pp_BlockHash pp = agreedDigest)
         | None => true
         end
  | None => true
  end && bool_decide (pc_pset w = ∅) && bool_decide (pc_qset w = ∅).

Lemma certVotesSound_spec cfg w v n :
  certVotesSound (cfg_N cfg) v n w = true -> sound_votes ∅ sampleVotes cfg w v n.
Proof.
  unfold certVotesSound. rewrite !andb_true_iff, !bool_decide_eq_true. intros [[Hc Hp] Hq].
  split.
  - intros cert p E Hin _. rewrite E in Hc. apply andb_true_iff in Hc as [Hc _].
    rewrite forallb_forall in Hc. apply list_elem_of_In, Hc in Hin.
    rewrite !andb_true_iff, bool_decide_eq_true in Hin. apply Hin.
  - intros cert pp E Epp _. rewrite E, Epp in Hc. apply andb_true_iff in Hc as [_ Hc].
    by apply bool_decide_eq_true in Hc.
  - intros cert p E Hin. rewrite E in Hc. apply andb_true_iff in Hc as [Hc _].
    rewrite forallb_forall in Hc. apply list_elem_of_In, Hc in Hin. apply elem_of_replicas. lia.
  - rewrite Hp. by intros p.
  - rewrite Hq. by intros d p.
Qed.

Lemma agreement_in_view_witness :
  agreedDigest = agreedDigest /\ prepared (sample_cfg 1) (agreedBackup 1) agreedDigest 0 1 = true
  /\ prepared (sample_cfg 2) (agreedBackup 2) agreedDigest 0 1 = true.
Proof.
  assert (prepared (sample_cfg 1) (agreedBackup 1) agreedDigest 0 1 = true) as H1
    by (vm_compute; reflexivity).
  assert (prepared (sample_cfg 2) (agreedBackup 2) agreedDigest 0 1 = true) as H2
    by (vm_compute; reflexivity).
  split; [|exact (conj H1 H2)].
  apply (agreement_in_view ∅ sampleVotes (sample_cfg 1) (sample_cfg 2)
           (agreedBackup 1) (agreedBackup 2) 0 1 agreedDigest agreedDigest);
    try (vm_compute; congruence); auto using agreedBackup_reachable.
  - apply certVotesSound_spec. vm_compute. reflexivity.
  - apply certVotesSound_spec. vm_compute. reflexivity.
Defined.
