(* ===== verification/PbftExec.v ===== *)
(** * PbftExec: execution, watermarks and new views

    What a replica executes and when ([executeOne], [executeOutstanding] of
    [consensus/pbft/pbft-core.go]), the watermarks ([inW], [moveWatermarks]),
    and the blocks a new view waits for ([processNewView] of [viewchange.go]). *)
From S2P Require Import Prelude.
From S2P Require Import Events.
From S2P Require Import Messages.
From S2P Require Import PbftState.
From S2P Require Import ViewChangeCalc.
From S2P Require Import PbftPersist.
From S2P Require Import HibeRound.
From S2P Require Import PbftCore.
From S2P Require Import PbftInit.
From S2P Require Import PbftSteps.
From S2P Require Import PbftSample.
From S2P Require Import PbftCerts.

(** ** Safety of execution *)

Section ExecSafety.
Context {Block : Type} `{EB : !PbftEnv Block} `{GR : !GoRange} (cfg : Config).
Abbreviation core := (pbftCore Block).

(** The evidence that a replica holds when it hands over the block at [n]: commits
    of a quorum of different replicas for the view and number, and either a P set
    entry for the digest or prepares of different backups for it, one less than a
    quorum. *)
Record committedBy (v n : Z) (digest : string) (cert : msgCert Block) (p : option ViewChange_PQ) : Prop := {
  cb_commits : exists C : gset Z, intersectionQuorum cfg <= Z.of_nat (size C) /\
    forall r, r ∈ C -> exists c, c ∈ ct_commit cert /\ c_ReplicaId c = r /\ c_View c = v /\ c_SequenceNumber c = n;
  cb_prepares : (exists q, p = Some q /\ pq_View q = v /\ Str (pq_BlockHash q) = digest) \/
    exists P : gset Z, intersectionQuorum cfg - 1 <= Z.of_nat (size P) /\
      forall r, r ∈ P -> r <> primary cfg v /\ mkPrepare v n digest r ∈ ct_prepare cert;
}.

(** An entry of the ledger is in order: the number is the one after the last executed
    one, and the block is that of a pre-prepare for the view, number and digest that
    the evidence is for. *)
Definition inOrder (e : ledgerEntry Block) : Prop :=
  exists v n cert pp, le_idx e = (v, n) /\ le_cert e = Some cert /\ ct_prePrepare cert = Some pp /\
    n = u64 (le_last e + 1) /\ pp_View pp = v /\ pp_SequenceNumber pp = n /\
    committedBy v n (pp_BlockHash pp) cert (le_pset e) /\
    (le_out e = OFinished n \/ le_out e = OCommittedBlock n (pp_Block pp)).

(** What has left the replica for the ledger, latest first. *)
Definition ledger (w : core) : list (Output Block) := List.filter isExec (pc_out w).

Record ledger_ok (w : core) : Prop := {
  lo_wf : core_wf cfg w;
  lo_all : ledger w = le_out <$> pc_ledger w;
  lo_order : Forall inOrder (pc_ledger w);
}.

Lemma committed_evidence w v n cert pp : core_wf cfg w -> pc_certStore w !! (v, n) = Some cert ->
  ct_prePrepare cert = Some pp -> committed cfg w (ct_digest cert) v n = true ->
  pp_View pp = v /\ pp_SequenceNumber pp = n /\ committedBy v n (pp_BlockHash pp) cert (pc_pset w !! n).
Proof.
  intros [Hw _] Hc Hpp. destruct (Hw _ _ Hc) as [Hp _ Hpr Hnd _ Hnc]. destruct (Hp pp Hpp) as (Ev&En&Ed). cbn in *.
  unfold committed, prepared. rewrite Hc, !andb_true_iff, orb_true_iff. intros [[_ H1] H2].
  split_and!; [done|done|]. rewrite Ed in H1. split.
  - exists (list_to_set (c_ReplicaId <$> List.filter (commit_matches v n) (ct_commit cert))).
    rewrite count_senders by done. split; [lia|]. intros r (c&Hin&Hm&<-)%elem_of_senders. exists c.
    unfold commit_matches in Hm. split_and!; (done || lia).
  - destruct H1 as [H1|H1].
    + left. destruct (pc_pset w !! n) as [q|]; [|done]. apply andb_true_iff in H1 as [H1 H3%bool_decide_eq_true].
      exists q. split_and!; [done|lia|done].
    + right. exists (list_to_set (p_ReplicaId <$> List.filter (prepare_matches (pp_BlockHash pp) v n) (ct_prepare cert))).
      rewrite count_senders by done. split; [lia|]. intros r (p&Hin&Hm&<-)%elem_of_senders. rewrite Forall_forall in Hpr.
      split; [by apply Hpr|]. apply prepare_matches_spec in Hm. by rewrite Hm in Hin.
Qed.

Lemma micro_ledger_ok w w' : micro cfg w w' -> ledger_ok w -> ledger_ok w'.
Proof.
  intros Hm [Hw Ha Ho]. pose proof (micro_core_wf cfg w w' Hm Hw) as Hw'.
  destruct Hm; try (split; [done|exact Ha|exact Ho]).
  - unfold hard in H. injection H. intros E1 E2 _ _ _ _ _ _ _ _ _ _ _ _ _ _ _ _. unfold ledger in Ha.
    split; [done| |]; unfold ledger; rewrite <- ?E1, <- ?E2; done.
  - split; [done| |].
    + unfold ledger in *. cbn. rewrite Ha. destruct H4 as [-> | ->]; done.
    + cbn. constructor; [|done]. exists v, n, cert, pp. destruct (committed_evidence w v n cert pp Hw H H0 H3) as (?&?&?).
      cbn. split_and!; done.
  - split; [done| |exact Ho]. unfold ledger in *. cbn. by rewrite H.
Qed.

Lemma init_ledger_ok fuel db : ledger_ok (newPbftCore cfg (run cfg fuel) (blankCore cfg db)).2.
Proof.
  apply newPbftCore_invariant.
  - apply micro_ledger_ok.
  - by intros w' v [[Hc Hb] Ha Ho].
  - by intros w' [[Hc Hb] Ha Ho].
  - intros w' b [[Hc [Hs Hu]] Ha Ho]. split; [|done|done]. split; [exact Hc|]. split; [|exact Hu].
    by apply map_Forall_insert_fresh.
  - split; [apply blankCore_wf|done|constructor].
Qed.

End ExecSafety.

(** ** Progress of execution *)

Section ExecProgress.
Context {Block : Type} `{EB : !PbftEnv Block} `{GR : !GoRange} (cfg : Config).
Abbreviation core := (pbftCore Block).
Variable self : Call Block -> M core (option (Event Block)).

(** What goes to the ledger for a certificate: the primary signals that its own block
    is agreed, a backup hands the block over. *)
Definition ledgerOutput (w : core) (n : Z) (pp : PrePrepare Block) : Output Block :=
  if primary cfg (pc_view w) =? cfg_id cfg then OFinished n else OCommittedBlock n (pp_Block pp).

Definition executing (w : core) (v n : Z) (pp : PrePrepare Block) : core :=
  let o := ledgerOutput w n pp in
  w <| pc_currentExec := Some n |> <| pc_out ::= cons o |>
    <| pc_ledger ::= cons (mkLedger o (pc_LastExec w) (v, n) (pc_certStore w !! (v, n)) (pc_pset w !! n)) |>.

(** The certificate at [(v, n)] can be executed now. *)
Record ready (w : core) (v n : Z) (cert : msgCert Block) (pp : PrePrepare Block) : Prop := {
  rd_cert : pc_certStore w !! (v, n) = Some cert;
  rd_prePrepare : ct_prePrepare cert = Some pp;
  rd_committed : committed cfg w (ct_digest cert) v n = true;
}.

(** [executeOne] on a ready certificate: a null request, whose digest is empty, is
    acknowledged at once; anything else goes to the ledger. *)
Lemma executeOne_ready w v n cert pp : pc_skipInProgress w = false -> n = u64 (pc_LastExec w + 1) ->
  ready w v n cert pp ->
  executeOne cfg self (v, n) w =
    if decide (ct_digest cert = EmptyString)
    then (self CallExecDoneSync ;; ret true) (w <| pc_currentExec := Some n |>)
    else (Ret true, executing w v n pp).
Proof using Type.
  intros Hskip Hn [Hc Hpp Hcm]. unfold executeOne. rewrite bind_get. cbn [fst snd].
  rewrite Hc, Hpp, Hskip, Hcm. rewrite (proj2 (Z.eqb_eq n _) Hn). cbn [negb]. rewrite bind_modify.
  destruct (decide _); [done|]. unfold executing, ledgerOutput. cbn. by destruct (primary cfg (pc_view w) =? cfg_id cfg).
Qed.

(** On any other it does nothing. *)
Lemma executeOne_cases w v m : pc_skipInProgress w = false ->
  executeOne cfg self (v, m) w = (Ret false, w) \/
  m = u64 (pc_LastExec w + 1) /\ exists cert pp, ready w v m cert pp.
Proof using Type.
  intros Hskip. unfold executeOne. rewrite bind_get. cbn [fst snd].
  destruct (pc_certStore w !! (v, m)) as [cert|] eqn:E; [|by left].
  destruct (ct_prePrepare cert) as [pp|] eqn:Epp; [|by left].
  destruct (Z.eqb_spec m (u64 (pc_LastExec w + 1))); cbn [negb]; [|by left]. rewrite Hskip.
  destruct (committed cfg w (ct_digest cert) v m) eqn:Ec; cbn [negb]; [|by left]. right. split; [done|]. by exists cert, pp.
Qed.

(** The loop over the certificates executes a ready one, and then stops. *)
Lemma executeLoop_spec w n (es : list ((Z * Z) * msgCert Block)) (k : M core unit) :
  pc_skipInProgress w = false -> n = u64 (pc_LastExec w + 1) ->
  (exists e cert pp, e ∈ es /\ e.1.2 = n /\ ready w e.1.1 n cert pp) ->
  exists v cert pp, ready w v n cert pp /\
    (for_until es (fun e => executeOne cfg self e.1) ;; k) w =
      if decide (ct_digest cert = EmptyString)
      then (self CallExecDoneSync ;; k) (w <| pc_currentExec := Some n |>)
      else k (executing w v n pp).
Proof using Type.
  intros Hskip Hn. induction es as [|[[v m] c] es IH]; intros (e & cert & pp & Hin & En & Hr).
  { by apply elem_of_nil in Hin. }
  assert (executeOne cfg self (v, m) w = (Ret false, w) -> e ∈ es) as Hnext.
  { intros Eq. apply elem_of_cons in Hin as [->|Hin]; [|done]. exfalso. cbn [fst snd] in En, Hr. subst m.
    rewrite (executeOne_ready w v n cert pp) in Eq by done. destruct (decide _); [|done].
    revert Eq. unfold bind, ret. by destruct (self _ _) as [[] ?]. }
  destruct (executeOne_cases w v m Hskip) as [Eq|(Em & cert' & pp' & Hr')].
  - destruct IH as (v' & cert' & pp' & Hr' & E); [by exists e, cert, pp; auto|]. exists v', cert', pp'. split; [done|].
    rewrite <- E. cbn [for_until fst]. unfold bind at 1 2. rewrite Eq. reflexivity.
  - rewrite <- Hn in Em. subst m. exists v, cert', pp'. split; [done|]. cbn [for_until fst].
    unfold bind at 1 2. rewrite (executeOne_ready w v n cert' pp') by done. destruct (decide _); [|done].
    unfold bind, ret. by destruct (self _ _) as [[] ?].
Qed.

(** C19: When the certificate of the number after the last executed one is committed,
    unless an execution or a state transfer is in progress, [executeOutstanding] takes
    a committed certificate of this number and marks the number as being executed,
    whatever the order in which the certificates are visited: it hands the block to the
    ledger at once, or, when the certificate is that of a null request (its digest is
    empty), calls [execDoneSync] instead and hands nothing over. *)
Theorem executeOutstanding_progress (w : core) v n cert pp :
  pc_currentExec w = None -> pc_skipInProgress w = false -> n = u64 (pc_LastExec w + 1) ->
  ready w v n cert pp ->
  exists v' cert' pp', ready w v' n cert' pp' /\
    let w1 := w <| pc_tick ::= S |> in
    executeOutstanding cfg self w =
      if decide (ct_digest cert' = EmptyString)
      then (self CallExecDoneSync ;; startTimerIfOutstandingBlocks cfg) (w1 <| pc_currentExec := Some n |>)
      else (Ret tt, executing w1 v' n pp').
Proof using Type.
  intros Hc Hskip Hn Hr. unfold executeOutstanding. rewrite bind_get, Hc.
  rewrite bool_decide_false by (by intros [? ?]).
  set (w1 := w <| pc_tick ::= S |>). set (es := go_range (pc_tick w) (pc_certStore w)).
  assert (range pc_certStore w = (Ret es, w1)) as Er by done. rewrite (bind_eq _ _ _ _ _ Er).
  destruct (executeLoop_spec w1 n es (startTimerIfOutstandingBlocks cfg)) as (v' & cert' & pp' & Hr' & E); try done.
  { exists ((v, n), cert), cert, pp. split_and!; [|done|by destruct Hr; split].
    unfold es. apply go_range_elem, Hr. }
  exists v', cert', pp'. split; [by destruct Hr'; split|]. cbv zeta. rewrite E. destruct (decide _); [done|].
  unfold startTimerIfOutstandingBlocks. rewrite bind_get. cbn. by rewrite orb_true_r.
Qed.
End ExecProgress.

(** ** Watermarks *)

Section Watermarks.
Context {Block : Type} `{EB : !PbftEnv Block} `{GR : !GoRange} (cfg : Config).
Abbreviation core := (pbftCore Block).

Definition h_aligned (w : core) : Prop := (cfg_K cfg | pc_h w).

Lemma micro_h_aligned w w' : micro cfg w w' -> h_aligned w -> h_aligned w'.
Proof.
  destruct 1; try done; unfold h_aligned; cbn.
  - unfold hard in H. injection H. by intros; subst; congruence.
  - intros _. apply Z.divide_factor_r.
Qed.

Lemma init_h_aligned fuel db : h_aligned (newPbftCore cfg (run cfg fuel) (blankCore cfg db)).2.
Proof.
  apply newPbftCore_invariant; try done; [apply micro_h_aligned|]. apply Z.divide_0_r.
Qed.

(** The low watermark of a reachable replica is a multiple of the checkpoint
    period, and as long as the high watermark fits in 64 bits a number is in
    the window exactly when it is above the low watermark and at most the high
    one. *)
Theorem watermark_window (w : core) n :
  config_ok cfg = true -> reachable cfg w -> 0 <= pc_h w -> is_u64 n ->
  pc_h w + cfg_L cfg < two64 ->
  (cfg_K cfg | pc_h w) /\
  (inW cfg w n = true <-> pc_h w < n <= pc_h w + cfg_L cfg).
Proof.
  intros Hk Hr Hh Hn HL. split.
  - exact (reachable_invariant cfg _ micro_h_aligned init_h_aligned w Hr).
  - assert (0 <= cfg_L cfg < two64) by apply u64_range.
    unfold inW, u64, is_u64 in *. rewrite andb_true_iff, Z.ltb_lt, Z.leb_le.
    destruct (decide (pc_h w <= n)).
    + rewrite Z.mod_small by lia. lia.
    + rewrite <- (Z_mod_plus_full (n - pc_h w) 1). rewrite Z.mod_small by lia. lia.
Qed.
End Watermarks.

(** ** The blocks a new view waits for *)

Section Missing.
Context {Block : Type} `{EB : !PbftEnv Block} `{GR : !GoRange} (cfg : Config).
Abbreviation core := (pbftCore Block).

Lemma micro_missing w w' : micro cfg w w' -> pc_missingReqBatches w ⊆ pc_missingReqBatches w'.
Proof.
  destruct 1; try done; cbn.
  - unfold hard in H. injection H. intros. by replace (pc_missingReqBatches w') with (pc_missingReqBatches w).
  - set_solver.
Qed.

Lemma steps_missing w w' : steps cfg w w' -> pc_missingReqBatches w ⊆ pc_missingReqBatches w'.
Proof. induction 1; [done|]. etransitivity; [by apply micro_missing|done]. Qed.

Lemma noteMissing_loop (xs : list XSet) (w : core) :
  exists w', for_each xs noteMissing w = (Ret tt, w') /\
    pc_missingReqBatches w ⊆ pc_missingReqBatches w'.
Proof.
  revert w. induction xs as [|x xs IH]; intros w; simpl; [by exists w|].
  assert (exists w1, noteMissing x w = (Ret tt, w1) /\
            pc_missingReqBatches w ⊆ pc_missingReqBatches w1) as (w1 & E & Hs).
  { unfold noteMissing, bind, get, ret, when, modify.
    destruct (_ <=? _); [by exists w|]. destruct (decide _); [by exists w|].
    destruct (bool_decide _); [|by exists w]. eexists. split; [reflexivity|]. cbn. set_solver. }
  destruct (IH w1) as (w' & E' & Hs'). exists w'. unfold bind. rewrite E. split; [done|].
  by etransitivity.
Qed.

(** Once a block of a new view is recorded as missing, no event ever removes
    it (nothing fetches it), and from then on no new view is ever accepted: the
    tail of [processNewView] returns without an event and without entering the
    view. *)
Theorem missing_block_blocks_new_views (w : core) fuel e :
  external e = true -> pc_missingReqBatches w <> ∅ ->
  let w' := (Inject cfg fuel e w).2 in
  pc_missingReqBatches w ⊆ pc_missingReqBatches w' /\
  forall self nv, exists w'',
    processNewView_blocks cfg self nv w' = (Ret None, w'') /\
    for_each (nv_Xset nv) noteMissing w' = (Ret tt, w'').
Proof.
  intros He Hne w'. assert (pc_missingReqBatches w ⊆ pc_missingReqBatches w') as Hsub.
  { apply steps_missing. unfold w', Inject. apply run_steps. by destruct e. }
  split; [done|]. intros self nv.
  destruct (noteMissing_loop (nv_Xset nv) w') as (w'' & E & Hs). exists w''. split; [|done].
  unfold processNewView_blocks, bind, get. rewrite E. rewrite decide_False; [done|].
  intros Hemp. apply Hne. set_solver.
Qed.
End Missing.
