(* ===== verification/ViewChangeSafety.v ===== *)
(** * ViewChangeSafety: the requests and the checkpoint of a new view

    Theorems on [assignSequenceNumbers], [selectInitialCheckpoint] and the check
    of the received set in [processNewView] of [consensus/pbft/viewchange.go]. *)
From S2P Require Import Prelude.
From S2P Require Import Events.
From S2P Require Import Messages.
From S2P Require Import PbftState.
From S2P Require Import ViewChangeCalc.
From S2P Require Import PbftPersist.
From S2P Require Import HibeRound.
From S2P Require Import PbftCore.
From S2P Require Import PbftInit.
From S2P Require Import PbftSteps.
From S2P Require Import PbftSample.
From S2P Require Import PbftCerts.

(** ** What [assignSequenceNumbers] computes *)

Section Assign.
Context (cfg : Config).

(** The request of number [n]: a candidate that meets A1 and A2, else the null
    request on a quorum, else none. *)
Definition assigned (vset : list ViewChange) (n : Z) : option string :=
  match chooseEntry cfg vset n with
  | Some em => Some (Str (pq_BlockHash em))
  | None => if nullQuorum cfg vset n then Some EmptyString else None
  end.

Lemma assign_loop_spec vset ns m0 max0 m max :
  assign_loop cfg vset ns m0 max0 = Some (m, max) ->
  Forall (fun n => is_Some (assigned vset n)) ns /\
  (forall n, m !! n = if decide (n ∈ ns) then assigned vset n else m0 !! n) /\
  (max = max0 \/ max ∈ ns) /\
  (forall n, n ∈ ns -> is_Some (chooseEntry cfg vset n) -> StronglySorted Z.lt ns -> n <= max).
Proof.
  revert m0 max0. induction ns as [|k ns IH]; intros m0 max0; cbn.
  { intros [= <- <-]. split_and!; [done|done|by left|by intros n ?%elem_of_nil]. }
  assert (forall d max1, assigned vset k = Some d ->
    (is_Some (chooseEntry cfg vset k) -> max1 = k) ->
    (max1 = max0 \/ max1 = k) ->
    assign_loop cfg vset ns (<[k := d]> m0) max1 = Some (m, max) ->
    Forall (fun n => is_Some (assigned vset n)) (k :: ns) /\
    (forall n, m !! n = if decide (n ∈ k :: ns) then assigned vset n else m0 !! n) /\
    (max = max0 \/ max ∈ k :: ns) /\
    (forall n, n ∈ k :: ns -> is_Some (chooseEntry cfg vset n) ->
       StronglySorted Z.lt (k :: ns) -> n <= max)) as Hstep.
  { intros d max1 Hd Hc Hm Hl. apply IH in Hl as (Hf & Hlk & Hmx & Hle). split_and!.
    - constructor; eauto.
    - intros n. rewrite Hlk. destruct (decide (n ∈ ns)).
      + by rewrite decide_True by (by right).
      + destruct (decide (n = k)) as [->|Hne].
        * rewrite lookup_insert_eq, decide_True by (by left). done.
        * rewrite lookup_insert_ne, decide_False by (done || by intros [?|?]%elem_of_cons). done.
    - destruct Hmx as [->|?]; [|right; by right]. destruct Hm as [->| ->]; [by left|right; by left].
    - intros n [->|Hin]%elem_of_cons Hs Hsort; apply StronglySorted_inv in Hsort as [Hs1 Hlt]; [|eauto].
      specialize (Hc Hs). subst max1. destruct Hmx as [->|Hin]; [done|].
      rewrite Forall_forall in Hlt. specialize (Hlt _ Hin). lia. }
  unfold assigned in Hstep. destruct (chooseEntry cfg vset k) as [em|]; intros Hl.
  - eapply (Hstep _ k); eauto.
  - destruct (nullQuorum cfg vset k); [|done]. eapply (Hstep _ max0); eauto. by intros [? ?].
Qed.

Lemma seqZ_sorted m n : StronglySorted Z.lt (seqZ m n).
Proof.
  destruct (decide (0 <= n)); [|rewrite seqZ_nil by lia; constructor].
  revert m. pattern n. apply natlike_ind; [|clear n l; intros n Hn IH m|done].
  - intros m. rewrite seqZ_nil by lia. constructor.
  - rewrite seqZ_cons by lia. rewrite Z.pred_succ. constructor; [apply IH|].
    apply Forall_forall. intros k Hk%elem_of_seqZ. lia.
Qed.

Lemma assign_loop_none vset ns m0 max0 :
  assign_loop cfg vset ns m0 max0 = None -> exists n, n ∈ ns /\ assigned vset n = None.
Proof.
  revert m0 max0. induction ns as [|k ns IH]; intros m0 max0; cbn; [done|].
  destruct (assigned vset k) eqn:E; [|intros _; exists k; split; [by left|done]].
  unfold assigned in E. intros Hl.
  assert (exists n, n ∈ ns /\ assigned vset n = None) as (n & Hn & Ha).
  { destruct (chooseEntry cfg vset k); [by eapply IH|].
    destruct (nullQuorum cfg vset k); [by eapply IH|done]. }
  exists n. split; [by right|done].
Qed.

Lemma assignSequenceNumbers_lookup vset h m n :
  assignSequenceNumbers cfg vset h = Some m -> n ∈ assign_range cfg h ->
  is_Some (assigned vset n) /\ (forall d, m !! n = Some d -> assigned vset n = Some d) /\
  (forall em, chooseEntry cfg vset n = Some em -> m !! n = Some (Str (pq_BlockHash em))).
Proof.
  unfold assignSequenceNumbers.
  destruct (assign_loop _ _ _ _ _) as [[m' max]|] eqn:E; [|done]. intros [= <-] Hn.
  apply assign_loop_spec in E as (Hf & Hlk & _ & Hle). rewrite Forall_forall in Hf.
  split_and!; [by apply Hf| |].
  - intros d [Hd _]%map_lookup_filter_Some. rewrite Hlk in Hd. by destruct (decide _).
  - intros em Hc. apply map_lookup_filter_Some. rewrite Hlk, decide_True by done. split.
    + unfold assigned. by rewrite Hc.
    + assert (n <= max) by (apply Hle; [done|eauto|apply seqZ_sorted]).
      cbn. destruct (max <? n) eqn:E; [lia|done].
Qed.

(** [assignSequenceNumbers] fails exactly when some number of the window has
    neither a candidate entry of a P set that meets conditions A1 and A2 nor a
    quorum of view changes without an entry for it; otherwise its result gives
    each number its candidate, and holds only candidates and null requests of
    the window. *)
Theorem assignSequenceNumbers_spec vset h :
  match assignSequenceNumbers cfg vset h with
  | None => exists n, n ∈ assign_range cfg h /\ assigned vset n = None
  | Some m =>
      Forall (fun n => is_Some (assigned vset n)) (assign_range cfg h) /\
      (forall n d, m !! n = Some d -> n ∈ assign_range cfg h /\ assigned vset n = Some d) /\
      (forall n em, n ∈ assign_range cfg h -> chooseEntry cfg vset n = Some em ->
         m !! n = Some (Str (pq_BlockHash em)))
  end.
Proof.
  destruct (assignSequenceNumbers cfg vset h) as [m|] eqn:E.
  - pose proof (fun n => assignSequenceNumbers_lookup vset h m n E) as Hl. split_and!.
    + apply Forall_forall. intros n Hn. by apply Hl.
    + intros n d Hd. assert (n ∈ assign_range cfg h) as Hn.
      { revert E Hd. unfold assignSequenceNumbers.
        destruct (assign_loop _ _ _ _ _) as [[m' max]|] eqn:E; [|done]. intros [= <-].
        apply assign_loop_spec in E as (_ & Hlk & _).
        rewrite map_lookup_filter_Some, Hlk. intros [Hd _]. by destruct (decide _). }
      split; [done|]. by apply Hl.
    + intros n em Hn. by apply Hl.
  - revert E. unfold assignSequenceNumbers.
    destruct (assign_loop _ _ _ _ _) as [[m' max]|] eqn:E; [done|].
    by apply assign_loop_none in E.
Qed.

Lemma chooseEntry_conditions vset n em :
  chooseEntry cfg vset n = Some em -> a1 cfg vset n em = true /\ a2 cfg vset n em = true.
Proof. intros [_ H]%find_some. by apply andb_true_iff in H. Qed.
End Assign.

(** ** A new view keeps what was committed *)

Section Respect.
Context (cfg : Config).

(** Counting view changes of distinct replicas. *)
Lemma count_outside (R : gset Z) (p : ViewChange -> bool) vset :
  NoDup (vc_ReplicaId <$> vset) -> Forall (fun vc => vc_ReplicaId vc ∈ replicas cfg) vset ->
  R ⊆ replicas cfg -> 0 <= cfg_N cfg ->
  Forall (fun vc => vc_ReplicaId vc ∈ R -> p vc = false) vset ->
  count p vset <= cfg_N cfg - Z.of_nat (size R).
Proof.
  intros Hnd Hin HR HN Hp. rewrite <- (count_senders vc_ReplicaId p vset Hnd).
  set (S := list_to_set _ : gset Z).
  assert (S ## R) as Hd.
  { intros r (vc & Hvc & Hpv & <-)%elem_of_senders Hr.
    rewrite Forall_forall in Hp. rewrite (Hp _ Hvc Hr) in Hpv. done. }
  assert (S ⊆ replicas cfg).
  { intros r (vc & Hvc & _ & <-)%elem_of_senders. by apply (proj1 (Forall_forall _ _) Hin). }
  pose proof (size_union S R Hd). rewrite <- (size_replicas cfg HN).
  assert (size (S ∪ R) <= size (replicas cfg))%nat by (apply subseteq_size; set_solver). lia.
Qed.

(** What the view changes of [vset] are assumed to say about number [n] when the
    request [d] was committed there in view [v]: the correct replicas [R] that
    prepared it report it, and no correct replica has pre-prepared another
    request at [n] in a later view. *)
Record reports (F R : gset Z) (vset : list ViewChange) (v n : Z) (d : string) : Prop := {
  rp_distinct : NoDup (vc_ReplicaId <$> vset);
  rp_replicas : Forall (fun vc => vc_ReplicaId vc ∈ replicas cfg) vset;
  rp_R : R ⊆ replicas cfg /\ intersectionQuorum cfg - cfg_f cfg <= Z.of_nat (size R);
  rp_faulty : Z.of_nat (size F) <= cfg_f cfg;
  rp_pset : Forall (fun vc => vc_ReplicaId vc ∈ R ->
              exists p, p ∈ vc_Pset vc /\ pq_SequenceNumber p = n /\
                        pq_BlockHash p = d /\ v <= pq_View p) vset;
  rp_qset : Forall (fun vc => vc_ReplicaId vc ∉ F ->
              Forall (fun q => pq_SequenceNumber q = n -> v < pq_View q -> pq_BlockHash q = d)
                     (vc_Qset vc)) vset;
  rp_qset_once : Forall (fun vc => NoDup (vc_Qset vc) /\
                    forall q q', q ∈ vc_Qset vc -> q' ∈ vc_Qset vc ->
                      pq_SequenceNumber q = pq_SequenceNumber q' ->
                      pq_BlockHash q = pq_BlockHash q' -> q = q') vset;
}.

(** A candidate that meets A1 is the committed request or of a later view. *)
Lemma a1_later F R vset v n d em :
  config_ok cfg = true -> reports F R vset v n d -> a1 cfg vset n em = true ->
  v < pq_View em \/ pq_BlockHash em = d.
Proof.
  intros [HN Hf]%config_ok_quorum [] Ha1. destruct (decide (v < pq_View em)); [by left|].
  right. destruct (decide (pq_BlockHash em = d)) as [|Hne]; [done|exfalso].
  destruct rp_R0 as [HR HQ].
  assert (count (a1_compatible n em) vset <= cfg_N cfg - Z.of_nat (size R)) as Hc.
  { apply count_outside; [done|done|done|lia|].
    eapply Forall_impl; [exact rp_pset0|]. intros vc Hvc (p & Hp & <- & Hd & Hv)%Hvc.
    unfold a1_compatible. apply andb_false_iff. right. apply not_true_iff_false.
    rewrite forallb_forall. intros Hall. apply list_elem_of_In, Hall in Hp.
    rewrite Z.eqb_refl, Hd, bool_decide_false in Hp by congruence. cbn in Hp.
    rewrite andb_false_r, orb_false_r in Hp. destruct (pq_View p <? pq_View em) eqn:E; [lia|done]. }
  pose proof (intersectionQuorum_bounds cfg). unfold a1 in Ha1. lia.
Qed.

Lemma count_concat_le (p : ViewChange_PQ -> bool) (vset : list ViewChange) :
  Forall (fun vc => count p (vc_Qset vc) <= 1) vset ->
  count p (concat (vc_Qset <$> vset)) <= count (fun vc => existsb p (vc_Qset vc)) vset.
Proof.
  induction 1 as [|vc vset H1 _ IH]; [done|]. rewrite count_cons. cbn. rewrite count_app.
  destruct (existsb p (vc_Qset vc)) eqn:E; [lia|]. rewrite existsb_count in E. lia.
Qed.

(** A candidate of a later view that meets A2 was pre-prepared by a correct
    replica, so it is the committed request. *)
Lemma a2_correct F R vset v n d em :
  reports F R vset v n d -> a2 cfg vset n em = true -> v < pq_View em -> pq_BlockHash em = d.
Proof.
  intros [] Ha2 Hv. unfold a2 in Ha2.
  assert (Forall (fun vc => count (a2_supports n em) (vc_Qset vc) <= 1) vset) as H1.
  { eapply Forall_impl; [exact rp_qset_once0|]. intros vc [Hnd Hu]. apply count_at_most_one; [done|].
    intros q q' Hq Hq'. unfold a2_supports. rewrite !andb_true_iff, !bool_decide_eq_true.
    intros [[? _] ?] [[? _] ?]. apply Hu; [done|done|lia|congruence]. }
  apply count_concat_le in H1. set (sup := fun vc => existsb (a2_supports n em) (vc_Qset vc)) in *.
  rewrite <- (count_senders vc_ReplicaId sup vset rp_distinct0) in H1.
  set (S := list_to_set _ : gset Z) in H1.
  destruct (set_choose_or_empty (S ∖ F)) as [[r Hr]|He].
  - apply elem_of_difference in Hr as [(vc & Hvc & Hs & <-)%elem_of_senders HF].
    unfold sup in Hs. apply existsb_exists in Hs as (q & Hq & Hs).
    unfold a2_supports in Hs. rewrite !andb_true_iff, bool_decide_eq_true in Hs.
    rewrite Forall_forall in rp_qset0. specialize (rp_qset0 _ Hvc HF).
    rewrite Forall_forall in rp_qset0. apply list_elem_of_In in Hq.
    destruct Hs as [[Hn Hvq] <-]. apply rp_qset0; [done|lia|lia].
  - assert (S ⊆ F) as Hsub%subseteq_size; [|lia].
    intros r Hr. destruct (decide (r ∈ F)); [done|]. exfalso. set_solver.
Qed.

Lemma nullQuorum_reported F R vset v n d :
  config_ok cfg = true -> reports F R vset v n d -> nullQuorum cfg vset n = false.
Proof.
  intros [HN Hf]%config_ok_quorum []. destruct rp_R0 as [HR HQ]. unfold nullQuorum.
  apply Z.leb_gt. pose proof (intersectionQuorum_bounds cfg).
  eapply Z.le_lt_trans; [apply (count_outside R); [done|done|done|lia|]|lia].
  eapply Forall_impl; [exact rp_pset0|]. intros vc Hvc (p & Hp & Hs & _)%Hvc.
  apply not_true_iff_false. rewrite forallb_forall. intros Hall.
  apply list_elem_of_In, Hall in Hp. rewrite Hs, Z.eqb_refl in Hp. done.
Qed.

(** C20: A request committed at a number of the window survives the view change, when
    the view changes are of different replicas of the network: if at most [f] replicas
    are faulty, the replicas that prepared it (a quorum less [f] at least) report it,
    correct replicas have pre-prepared nothing else at that number in later views, and no
    view change repeats a Q entry, then a new view that assigns numbers gives that number
    that request.  The code does not look whether the view changes of a new view are of
    different replicas; forged_new_view_forks repeats one. *)
Theorem assign_respects_committed (F R : gset Z) vset v h n d m :
  config_ok cfg = true -> reports F R vset v n d -> n ∈ assign_range cfg h ->
  assignSequenceNumbers cfg vset h = Some m -> m !! n = Some (Str d).
Proof.
  intros Hk Hr Hn Hm. destruct (assignSequenceNumbers_lookup cfg vset h m n Hm Hn) as (Ha & _ & Hc).
  unfold assigned in Ha. destruct (chooseEntry cfg vset n) as [em|] eqn:E.
  - rewrite (Hc em eq_refl). apply chooseEntry_conditions in E as [H1 H2]. do 2 f_equal.
    destruct (a1_later F R vset v n d em Hk Hr H1); [|done]. by eapply a2_correct.
  - rewrite (nullQuorum_reported F R vset v n d Hk Hr) in Ha. by destruct Ha.
Qed.
End Respect.

(** ** The initial checkpoint *)

Section Select.
Context (cfg : Config).

(** A checkpoint that may start the new view: listed more than [f] times, and
    not below the low watermark of a quorum of view changes. *)
Definition eligible (vset : list ViewChange) (e : ViewChange_C * list ViewChange) : bool :=
  negb (Z.of_nat (length e.2) <=? cfg_f cfg)
  && (intersectionQuorum cfg <=? count (fun vc => vc_H vc <=? vcc_SequenceNumber e.1) vset).

Lemma select_step_spec vset cp ok rs e :
  select_step cfg vset (cp, ok, rs) e =
    if eligible vset e
    then if vcc_SequenceNumber cp <=? vcc_SequenceNumber e.1
         then (e.1, true, vc_ReplicaId <$> e.2) else (cp, ok, vc_ReplicaId <$> e.2)
    else (cp, ok, rs).
Proof.
  destruct e as [idx l]. unfold select_step, eligible. cbn.
  destruct (_ <=? cfg_f cfg); cbn; [done|].
  destruct (count _ _ <? _) eqn:E1, (_ <=? count _ _) eqn:E2; try done; lia.
Qed.

(** The loop keeps the largest eligible number seen so far. *)
Lemma select_loop_spec vset es :
  Forall (fun e => 0 <= vcc_SequenceNumber e.1) es ->
  let '(cp, ok, _) := select_loop cfg vset es in
  (ok = false -> Forall (fun e => eligible vset e = false) es) /\
  (ok = true ->
     (exists l, (cp, l) ∈ es /\ eligible vset (cp, l) = true) /\
     Forall (fun e => eligible vset e = true ->
               vcc_SequenceNumber e.1 <= vcc_SequenceNumber cp) es) /\
  (ok = false -> vcc_SequenceNumber cp = 0).
Proof.
  intros Hnn. unfold select_loop. induction es as [|e es IH] using rev_ind; [done|].
  apply Forall_app in Hnn as [Hes He]. apply Forall_inv in He. cbv beta in He. specialize (IH Hes).
  rewrite foldl_snoc. destruct (foldl _ _ es) as [[cp ok] rs]. rewrite select_step_spec.
  destruct (eligible vset e) eqn:Ee.
  - destruct (vcc_SequenceNumber cp <=? vcc_SequenceNumber e.1) eqn:El.
    + split_and!; [done| |done]. intros _. split.
      * destruct e as [c l]. exists l. split; [|done]. set_solver.
      * apply Forall_app. split; [|by apply Forall_singleton]. destruct IH as (Hf & Ht & _).
        destruct ok.
        -- eapply Forall_impl; [apply Ht; done|]. intros x Hx Hex. specialize (Hx Hex). lia.
        -- eapply Forall_impl; [apply Hf; done|]. intros x Hx Hex. cbn in Hx. congruence.
    + destruct IH as (Hf & Ht & H0). destruct ok; [|specialize (H0 eq_refl); exfalso; lia].
      split_and!; [done| |done]. intros _. destruct (Ht eq_refl) as [(l & Hl & Hel) Hall]. split.
      * exists l. split; [set_solver|done].
      * apply Forall_app. split; [done|]. apply Forall_singleton. intros _. lia.
  - destruct IH as (Hf & Ht & H0). split_and!; [| |done].
    + intros E. apply Forall_app. split; [auto|by apply Forall_singleton].
    + intros E. destruct (Ht E) as [(l & Hl & Hel) Hall]. split.
      * exists l. split; [set_solver|done].
      * apply Forall_app. split; [done|]. apply Forall_singleton. congruence.
Qed.

Lemma select_loop_max vset es es' :
  es ≡ₚ es' -> Forall (fun e => 0 <= vcc_SequenceNumber e.1) es ->
  (select_loop cfg vset es).1.2 = true -> (select_loop cfg vset es').1.2 = true /\
  vcc_SequenceNumber (select_loop cfg vset es).1.1 <= vcc_SequenceNumber (select_loop cfg vset es').1.1.
Proof.
  intros Hp Hnn. pose proof (select_loop_spec vset es Hnn) as H1.
  assert (Forall (fun e => 0 <= vcc_SequenceNumber e.1) es') as Hnn' by (by rewrite <- Hp).
  pose proof (select_loop_spec vset es' Hnn') as H2.
  destruct (select_loop cfg vset es) as [[cp ok] rs], (select_loop cfg vset es') as [[cp' ok'] rs'].
  cbn. intros ->. destruct H1 as (_ & H1 & _), (H1 eq_refl) as [(l & Hl & Hel) _].
  rewrite Hp in Hl. destruct H2 as (Hf & Ht & _). destruct ok'.
  - split; [done|]. destruct (Ht eq_refl) as [_ Hall]. rewrite Forall_forall in Hall.
    by apply (Hall _ Hl).
  - specialize (Hf eq_refl). rewrite Forall_forall in Hf. by rewrite (Hf _ Hl) in Hel.
Qed.

Lemma select_loop_deterministic vset es es' :
  es ≡ₚ map_to_list (checkpointsOf vset) -> es' ≡ₚ map_to_list (checkpointsOf vset) ->
  Forall (fun e => 0 <= vcc_SequenceNumber e.1) es ->
  let '(cp, ok, _) := select_loop cfg vset es in
  let '(cp', ok', _) := select_loop cfg vset es' in
  ok = ok' /\ vcc_SequenceNumber cp = vcc_SequenceNumber cp' /\
  (ok = true ->
     (exists l, checkpointsOf vset !! cp = Some l /\ eligible vset (cp, l) = true) /\
     (forall c l, checkpointsOf vset !! c = Some l -> eligible vset (c, l) = true ->
        vcc_SequenceNumber c <= vcc_SequenceNumber cp)).
Proof.
  intros Hp Hp' Hnn. assert (es ≡ₚ es') as Hpp by (by rewrite Hp, Hp').
  assert (Forall (fun e => 0 <= vcc_SequenceNumber e.1) es') as Hnn' by (by rewrite <- Hpp).
  pose proof (select_loop_max vset es es' Hpp Hnn) as M1.
  pose proof (select_loop_max vset es' es (symmetry Hpp) Hnn') as M2.
  pose proof (select_loop_spec vset es Hnn) as S1. pose proof (select_loop_spec vset es' Hnn') as S2.
  destruct (select_loop cfg vset es) as [[cp ok] rs], (select_loop cfg vset es') as [[cp' ok'] rs'].
  cbn in *. destruct S1 as (F1 & T1 & Z1), S2 as (_ & _ & Z2).
  assert (ok = ok') as <- by (destruct ok, ok'; naive_solver).
  split_and!; [done|destruct ok; naive_solver lia|].
  intros ->. destruct (T1 eq_refl) as [(l & Hl & Hel) Hall]. split.
  - exists l. split; [|done]. rewrite Hp in Hl. by apply elem_of_map_to_list.
  - intros c l' Hc Hel'. rewrite Forall_forall in Hall. apply (Hall (c, l')); [|done].
    rewrite Hp. by apply elem_of_map_to_list.
Qed.

(** The checkpoint number from which a new view starts does not depend on
    the order in which the checkpoints are visited: the primary that builds
    the new view and the backups that verify it select the same number, or all
    of them none, and it is the largest eligible one. *)
Theorem selectInitialCheckpoint_deterministic {Block} (GR GR' : GoRange) (w w' : pbftCore Block) vset :
  (forall c l, checkpointsOf vset !! c = Some l -> 0 <= vcc_SequenceNumber c) ->
  match (@selectInitialCheckpoint Block GR cfg vset w).1,
        (@selectInitialCheckpoint Block GR' cfg vset w').1 with
  | Ret (cp, ok, _), Ret (cp', ok', _) =>
      ok = ok' /\ vcc_SequenceNumber cp = vcc_SequenceNumber cp' /\
      (ok = true ->
         (exists l, checkpointsOf vset !! cp = Some l /\ eligible vset (cp, l) = true) /\
         (forall c l, checkpointsOf vset !! c = Some l -> eligible vset (c, l) = true ->
            vcc_SequenceNumber c <= vcc_SequenceNumber cp))
  | _, _ => False
  end.
Proof.
  intros Hnn. cbn.
  pose proof (@go_range_perm GR _ _ _ _ (pc_tick w) (checkpointsOf vset)) as P1.
  pose proof (@go_range_perm GR' _ _ _ _ (pc_tick w') (checkpointsOf vset)) as P2.
  pose proof (select_loop_deterministic vset _ _ P1 P2) as Hd.
  destruct (select_loop _ _ _) as [[cp ok] rs], (select_loop _ _ _) as [[cp' ok'] rs'].
  apply Hd. rewrite P1. apply Forall_forall. intros [c l] Hc%elem_of_map_to_list. by eapply Hnn.
Qed.
End Select.

(** ** Signatures *)

Section Signatures.
Context {Block : Type} `{EB : !PbftEnv Block}.

(** A view change passes [verifyViewChangeSig] when the address recovered
    from its signature is the signer the message itself names; and also, with a
    signature from which no key can be recovered, when it names the zero
    address. *)
Theorem verifyViewChangeSig_spec (vc : ViewChange) :
  verifyViewChangeSig vc = true <->
  env_recover vc = Some (vc_Signer vc) \/
  env_recover vc = None /\ vc_Signer vc = zeroAddress.
Proof.
  unfold verifyViewChangeSig. rewrite bool_decide_eq_true.
  destruct (env_recover vc) as [s|]; cbn; naive_solver.
Qed.
End Signatures.

(** ** Instances *)

(** Two correct replicas report the request they prepared at number 1 in view 0;
    a third, faulty one reports another request of view 1, and repeats its Q
    entry. *)
Definition committedHash : string := BytesToHash "committed".
Definition otherHash : string := BytesToHash "other".
Definition genesisC : ViewChange_C := mkVC_C 0 "XXX GENESIS".
Definition correctVC (r : Z) : ViewChange :=
  mkViewChange 2 0 [genesisC] [mkVC_PQ 1 committedHash 0] [mkVC_PQ 1 committedHash 0] r
    "signed by me" "me".
Definition faultyVC (copies : nat) : ViewChange :=
  mkViewChange 2 0 [genesisC] [mkVC_PQ 1 otherHash 1] (replicate copies (mkVC_PQ 1 otherHash 1)) 3
    "signed by me" "me".
Definition silentVC (r : Z) : ViewChange :=
  mkViewChange 2 0 [genesisC] [] [] r "signed by me" "me".

Definition reportsVset : list ViewChange := [correctVC 0; correctVC 1; correctVC 2; silentVC 3].

Lemma reports_instance : reports (sample_cfg 0) {[3]} {[0; 1; 2]} reportsVset 0 1 committedHash.
Proof.
  split.
  - apply (bool_decide_unpack _). vm_compute. exact I.
  - repeat constructor; apply elem_of_replicas; vm_compute; split; congruence.
  - split; [apply (bool_decide_unpack _); vm_compute; exact I|vm_compute; congruence].
  - vm_compute. congruence.
  - repeat constructor; intros Hin; try (by exfalso; revert Hin; apply (bool_decide_unpack _); vm_compute).
    all: exists (mkVC_PQ 1 committedHash 0); split_and!; [by left|done|done|done].
  - repeat constructor; intros _ _; done.
  - repeat constructor; cbn; try apply NoDup_singleton; try apply NoDup_nil_2; set_solver.
Qed.

Lemma assign_respects_committed_witness :
  exists m, assignSequenceNumbers (sample_cfg 0) reportsVset 0 = Some m /\ m !! 1 = Some committedHash.
Proof.
  destruct (assignSequenceNumbers (sample_cfg 0) reportsVset 0) as [m|] eqn:E.
  - exists m. split; [reflexivity|].
    apply (assign_respects_committed (sample_cfg 0) {[3]} {[0; 1; 2]} reportsVset 0 0 1 committedHash m).
    + vm_compute. reflexivity.
    + apply reports_instance.
    + apply elem_of_seqZ. vm_compute. split; congruence.
    + exact E.
  - exfalso. revert E. vm_compute. discriminate.
Defined.

Lemma selectInitialCheckpoint_deterministic_witness :
  exists cp rs, (selectInitialCheckpoint (sample_cfg 0) reportsVset (sample_start 0)).1
                = Ret (cp, true, rs) /\ vcc_SequenceNumber cp = 0.
Proof.
  pose proof (selectInitialCheckpoint_deterministic (sample_cfg 0) tree_order tree_order
    (sample_start 0) (sample_start 1) reportsVset) as H.
  destruct (selectInitialCheckpoint (sample_cfg 0) reportsVset (sample_start 0)).1
    as [[[cp ok] rs]| |] eqn:E.
  - vm_compute in E. injection E as <- <- <-. eexists _, _. split; [reflexivity|].
    assert (forall c l, checkpointsOf reportsVset !! c = Some l -> 0 <= vcc_SequenceNumber c) as Hn.
    { intros c l Hc%elem_of_map_to_list. revert Hc. vm_compute (map_to_list _).
      intros [= -> _]%list_elem_of_singleton. vm_compute. congruence. }
    specialize (H Hn).
    destruct (selectInitialCheckpoint (sample_cfg 0) reportsVset (sample_start 1)).1 as [[[? ?] ?]| |];
      [reflexivity|destruct H|destruct H].
  - vm_compute in E. discriminate.
  - vm_compute in E. discriminate.
Defined.
