(* ===== verification/ViewChangeTerm.v ===== *)
(** * ViewChangeTerm: the cycle of view changes ends

    [sendViewChange] ends by handling its own message in [recvViewChange], which
    calls [sendViewChange] again when [f+1] replicas ask for higher views
    ([consensus/pbft/viewchange.go]).  Each turn moves to a view above which fewer
    view changes are stored, so the cycle ends within as many nested calls as
    there are stored view changes. *)
From S2P Require Import Prelude.
From S2P Require Import Events.
From S2P Require Import Messages.
From S2P Require Import PbftState.
From S2P Require Import ViewChangeCalc.
From S2P Require Import PbftPersist.
From S2P Require Import HibeRound.
From S2P Require Import PbftCore.
From S2P Require Import PbftInit.
From S2P Require Import PbftSteps.
From S2P Require Import PbftSample.
From S2P Require Import PbftCerts.

(** ** The measure *)

(** The stored view changes above a view. *)
Definition higher (v : Z) (m : gmap (Z * Z) ViewChange) : gmap (Z * Z) ViewChange :=
  filter (fun e => v < e.1.1) m.

Lemma higher_lookup v m k vc : higher v m !! k = Some vc <-> m !! k = Some vc /\ v < k.1.
Proof. apply map_lookup_filter_Some. Qed.

(** Storing the replica's own view change for [v], or dropping those for views
    below [v], leaves what is above [v]. *)
Lemma higher_insert v r vc m : (size (higher v (<[(v, r) := vc]> m)) <= size (higher v m))%nat.
Proof.
  apply map_subseteq_size, map_subseteq_spec. intros k x.
  rewrite !higher_lookup, lookup_insert_Some. intros [[[<- _]|[_ ?]] ?]; [cbn in *; lia|done].
Qed.

Lemma higher_drop (v : Z) (m : gmap (Z * Z) ViewChange) :
  (size (higher v (filter (fun e => ~ (e.1.1 < v)%Z) m)) <= size (higher v m))%nat.
Proof.
  apply map_subseteq_size, map_subseteq_spec. intros k x.
  rewrite !higher_lookup, map_lookup_filter_Some. naive_solver.
Qed.

Lemma higher_size v m : (size (higher v m) <= size m)%nat.
Proof. apply map_subseteq_size, map_filter_subseteq. Qed.

(** Moving up to the view of a stored view change leaves fewer above. *)
Lemma higher_shrinks v k vc m :
  m !! k = Some vc -> v < k.1 -> (size (higher k.1 m) < size (higher v m))%nat.
Proof.
  intros Hk Hv. apply map_subset_size. split.
  - apply map_subseteq_spec. intros k' x. rewrite !higher_lookup. intros []. split; [done|lia].
  - rewrite map_subseteq_spec. intros Hsub.
    assert (higher v m !! k = Some vc) as H1 by (by apply higher_lookup).
    apply Hsub, higher_lookup in H1 as [_ ?]. lia.
Qed.

(** The call has returned a value. *)
Definition returned {W A} (r : outcome A * W) : Prop := exists a w', r = (Ret a, w').

Section Cycle.
Context {Block : Type} `{EB : !PbftEnv Block} `{GR : !GoRange} (cfg : Config).
Abbreviation core := (pbftCore Block).

(** [minHigherView] is the view of a stored view change above [v]. *)
Lemma minHigherView_spec v (es : list ((Z * Z) * ViewChange)) :
  0 <= v ->
  (minHigherView v es = 0 /\ Forall (fun e => e.1.1 <= v) es) \/
  (exists e, e ∈ es /\ e.1.1 = minHigherView v es /\ v < e.1.1).
Proof.
  intros Hv. unfold minHigherView. induction es as [|e es IH] using rev_ind; [by left|].
  rewrite foldl_snoc. set (mv := foldl _ 0 es) in *.
  destruct (e.1.1 <=? v) eqn:E; cbn [negb].
  - destruct IH as [[-> Hf]|(e' & Hin & Hm & Hlt)].
    + left. split; [done|]. apply Forall_app. split; [done|]. constructor; [lia|done].
    + right. exists e'. split_and!; [set_solver|done|done].
  - right. destruct ((mv =? 0) || (e.1.1 <? mv)) eqn:E2.
    + exists e. split_and!; [set_solver|done|lia].
    + destruct IH as [[-> Hf]|(e' & Hin & Hm & Hlt)]; [done|].
      exists e'. split_and!; [set_solver|done|done].
Qed.

(** The state in which [sendViewChange] handles its own message. *)
Lemma sendViewChange_own self (w : core) :
  exists vc w1, sendViewChange cfg self w = recvViewChange cfg self vc w1 /\
    pc_view w1 = u64 (pc_view w + 1) /\ vc_View vc = pc_view w1 /\
    pc_viewChangeStore w1 = filter (fun e => ~ (e.1.1 < u64 (pc_view w + 1))) (pc_viewChangeStore w).
Proof.
  unfold sendViewChange, innerBroadcast, calcPSet, calcQSet, range, emit, stopTimer.
  generalize (recvViewChange cfg self). intros rv. unfold bind, modify, get, ret. cbn.
  destruct (cfg_byzantine cfg && _); cbn; (eexists _, _; split; [reflexivity|]; split_and!; reflexivity).
Qed.

Lemma higherReplicas_some v (es : list ((Z * Z) * ViewChange)) :
  Forall (fun e => e.1.1 <= v) es -> size (higherReplicas v es) = 0%nat.
Proof.
  intros Hf. unfold higherReplicas. replace (List.filter _ es) with (@nil ((Z * Z) * ViewChange)).
  - apply size_empty.
  - induction Hf as [|e es He _ IH]; [done|]. cbn. destruct (e.1.1 <=? v) eqn:E; [done|lia].
Qed.

(** Handling a view change returns when the nested [sendViewChange], if there is
    one, starts with fewer view changes above its view. *)
Lemma recvViewChange_returns_if self vc (w : core) :
  0 <= cfg_f cfg -> is_u64 (pc_view w) -> vc_View vc = pc_view w ->
  map_Forall (fun k _ => is_u64 k.1) (pc_viewChangeStore w) ->
  (forall w', is_u64 (pc_view w') -> pc_view w' + 1 < two64 ->
     map_Forall (fun k _ => is_u64 k.1) (pc_viewChangeStore w') ->
     (size (higher (pc_view w' + 1) (pc_viewChangeStore w'))
      < size (higher (pc_view w) (pc_viewChangeStore w)))%nat ->
     returned (self CallSendViewChange w')) ->
  returned (recvViewChange cfg self vc w).
Proof.
  intros Hf Hv Evc Hst Hself. unfold recvViewChange, bind at 1, get.
  destruct (negb _); [by eexists _, _|]. destruct (_ <? _); [by eexists _, _|].
  destruct (negb _); [by eexists _, _|]. destruct (bool_decide _).
  { unfold when, bind, modify, ret. destruct (_ && _); by eexists _, _. }
  unfold bind, modify, range, get, ret. cbn -[Z.leb Z.add Z.sub higherReplicas minHigherView Z.of_nat u64].
  set (w1 := w <| pc_viewChangeStore ::= _ |> <| pc_tick ::= S |>).
  set (es := go_range _ _).
  destruct (cfg_f cfg + 1 <=? _) eqn:Eq.
  - destruct (minHigherView_spec (pc_view w) es) as [[_ Hle]|([k vc'] & Hin & Hk & Hlt)]; [apply Hv| |].
    { apply higherReplicas_some in Hle. rewrite Hle in Eq. apply Z.leb_le in Eq. exfalso. clear -Hf Eq. lia. }
    cbn in Hk, Hlt. apply go_range_elem in Hin.
    assert (map_Forall (fun k _ => is_u64 k.1) (pc_viewChangeStore w1)) as Hst1.
    { apply map_Forall_insert_2; [by rewrite Evc|done]. }
    assert (is_u64 k.1) as Hk64 by (by apply (Hst1 k vc')).
    unfold is_u64 in Hv, Hk64.
    change (pc_view w1) with (pc_view w). rewrite <- Hk.
    assert (u64 (k.1 - 1) = k.1 - 1) as Ek by (apply u64_small; unfold is_u64; lia).
    apply Hself; cbn; rewrite ?Ek; [unfold is_u64; lia|lia|exact Hst1|].
    replace (k.1 - 1 + 1) with k.1 by lia.
    eapply Nat.lt_le_trans; [by apply (higher_shrinks (pc_view w) k vc')|].
    rewrite <- Evc at 1. rewrite Evc. apply higher_insert.
  - destruct (_ && _); by eexists _, _.
Qed.

Lemma sendViewChange_returns_if self (w : core) :
  0 <= cfg_f cfg -> is_u64 (pc_view w) -> pc_view w + 1 < two64 ->
  map_Forall (fun k _ => is_u64 k.1) (pc_viewChangeStore w) ->
  (forall w', is_u64 (pc_view w') -> pc_view w' + 1 < two64 ->
     map_Forall (fun k _ => is_u64 k.1) (pc_viewChangeStore w') ->
     (size (higher (pc_view w' + 1) (pc_viewChangeStore w'))
      < size (higher (pc_view w + 1) (pc_viewChangeStore w)))%nat ->
     returned (self CallSendViewChange w')) ->
  returned (sendViewChange cfg self w).
Proof.
  intros Hf Hv Hb Hst Hself.
  destruct (sendViewChange_own self w) as (vc & w1 & E & Ev & Evc & Es). rewrite E.
  rewrite u64_small in Ev, Es by (unfold is_u64 in *; lia).
  apply recvViewChange_returns_if; [done|rewrite Ev; unfold is_u64 in *; lia|done| |].
  - rewrite Es. intros k x [Hk _]%map_lookup_filter_Some. by apply Hst in Hk.
  - intros w' Hv' Hb' Hst' Hlt. apply Hself; [done|done|done|].
    eapply Nat.lt_le_trans; [exact Hlt|]. rewrite Ev, Es. apply higher_drop.
Qed.

(** The cycle returns with one nested call per stored view change above the
    view moved to. *)
Lemma sendViewChange_fuel fuel (w : core) :
  0 <= cfg_f cfg -> is_u64 (pc_view w) -> pc_view w + 1 < two64 ->
  map_Forall (fun k _ => is_u64 k.1) (pc_viewChangeStore w) ->
  (size (higher (pc_view w + 1) (pc_viewChangeStore w)) <= fuel)%nat ->
  returned (sendViewChange cfg (run cfg fuel) w).
Proof.
  revert w. induction fuel as [|fuel IH]; intros w Hf Hv Hb Hst Hsz;
    apply sendViewChange_returns_if; try done; intros w' Hv' Hb' Hst' Hlt; [lia|].
  cbn [run]. unfold dispatch. apply IH; auto. lia.
Qed.

(** C37: when the view-change timer fires, the replica finishes its cascade of
    view changes, whatever view changes it has stored: the nested calls are at
    most one per stored view change, so the handling of the event always
    returns. *)
Theorem viewChangeTimer_terminates (w : core) fuel :
  config_ok cfg = true -> is_u64 (pc_view w) -> pc_view w + 1 < two64 ->
  map_Forall (fun k _ => is_u64 k.1) (pc_viewChangeStore w) ->
  (size (pc_viewChangeStore w) < fuel)%nat ->
  exists w', Inject cfg fuel viewChangeTimerEvent w = (Ret None, w').
Proof.
  intros Hk Hv Hb Hst Hfuel. destruct fuel as [|fuel]; [lia|].
  unfold Inject. cbn [run dispatch]. unfold SendEvent, ProcessEvent, bind, modify.
  apply config_ok_quorum in Hk as [_ Hf].
  destruct (sendViewChange_fuel fuel (w <| pc_timerActive := false |>)) as (a & w' & E);
    [done|done|done|done| |rewrite E; by eexists].
  pose proof (higher_size (pc_view w + 1) (pc_viewChangeStore w)). cbn. lia.
Qed.
End Cycle.

Lemma viewChangeTimer_terminates_witness :
  exists w', Inject (sample_cfg 2) 1 viewChangeTimerEvent (sample_start 2) = (Ret None, w').
Proof.
  apply (viewChangeTimer_terminates (sample_cfg 2) (sample_start 2) 1).
  - vm_compute. reflexivity.
  - vm_compute. split; congruence.
  - vm_compute. reflexivity.
  - assert (pc_viewChangeStore (sample_start 2) = ∅) as -> by (vm_compute; reflexivity).
    apply map_Forall_empty.
  - vm_compute. lia.
Defined.
