(* ===== verification/PbftScenarios.v ===== *)
(** * PbftScenarios: what the handlers do on hostile messages

    The check of a new view's set of requests, the checkpoint messages that stop
    a replica, and runs of the model on concrete sequences of messages that a
    faulty peer can send. *)
From S2P Require Import Prelude.
From S2P Require Import Events.
From S2P Require Import Messages.
From S2P Require Import PbftState.
From S2P Require Import ViewChangeCalc.
From S2P Require Import PbftPersist.
From S2P Require Import HibeRound.
From S2P Require Import PbftCore.
From S2P Require Import PbftInit.
From S2P Require Import PbftSteps.
From S2P Require Import PbftSample.
From S2P Require Import PbftCerts.
From S2P Require Import PbftExec.
From S2P Require Import ViewChangeSafety.

(** ** The received set of requests *)

Lemma find_seq_Some msglist x :
  NoDup (x_Seq <$> msglist) ->
  List.find (fun m => x_Seq x =? x_Seq m) msglist = Some x <-> x ∈ msglist.
Proof.
  intros Hnd. split.
  - intros [Hin _]%find_some. by apply list_elem_of_In.
  - induction msglist as [|m l IH]; intros Hin; [by apply elem_of_nil in Hin|].
    apply NoDup_cons in Hnd as [Hm Hl]. cbn. destruct (x_Seq x =? x_Seq m) eqn:E.
    + apply elem_of_cons in Hin as [->|Hin]; [done|]. exfalso. apply Hm.
      apply Z.eqb_eq in E. rewrite <- E. by apply list_elem_of_fmap_2.
    + apply IH; [done|]. apply elem_of_cons in Hin as [->|Hin]; [lia|done].
Qed.

Lemma fmap_eq_Some {A} (f : A -> option A) (l : list A) :
  f <$> l = Some <$> l <-> forall x, x ∈ l -> f x = Some x.
Proof.
  split.
  - induction l as [|y l IH]; cbn; [by intros _ x ?%elem_of_nil|].
    intros [= H1 H2] x [->|?]%elem_of_cons; auto.
  - intros H. induction l as [|y l IH]; cbn; [done|]. f_equal; [apply H; by left|].
    apply IH. intros; apply H. by right.
Qed.

(** The replica's check of a new view's requests against those it computes
    accepts a received set exactly when it has as many entries and each of them
    is a computed one: an accepted set never holds a request the replica did not
    compute, but it may repeat one and leave another out; a set that is shorter
    is not rejected, it indexes out of range. *)
Theorem alignXset_spec (msglist received : list XSet) :
  NoDup (x_Seq <$> msglist) ->
  (alignXset msglist received = None <-> (length received < length msglist)%nat) /\
  (alignXset msglist received = Some (Some <$> received) <->
     length received = length msglist /\ (forall x, x ∈ received -> x ∈ msglist)).
Proof.
  intros Hnd. unfold alignXset. destruct (length received <? length msglist)%nat eqn:E.
  - apply Nat.ltb_lt in E. split; [done|]. split; [done|]. intros [? _]. lia.
  - apply Nat.ltb_ge in E. split; [split; [done|lia]|].
    split.
    + intros [= H]. assert (length received = length msglist) as Hlen.
      { apply (f_equal length) in H. rewrite !length_fmap, length_take in H. lia. }
      split; [done|]. rewrite take_ge in H by lia. intros x Hx.
      apply (find_seq_Some msglist x Hnd). by apply (proj1 (fmap_eq_Some _ received) H).
    + intros [Hlen Hin]. rewrite take_ge by lia. f_equal. apply fmap_eq_Some.
      intros x Hx. by apply find_seq_Some, Hin.
Qed.

Lemma alignXset_spec_witness :
  alignXset [mkXSet 1 "committed"; mkXSet 2 "other"] [mkXSet 2 "other"; mkXSet 2 "other"]
  = Some [Some (mkXSet 2 "other"); Some (mkXSet 2 "other")].
Proof.
  apply (proj2 (alignXset_spec [mkXSet 1 "committed"; mkXSet 2 "other"]
                  [mkXSet 2 "other"; mkXSet 2 "other"]
                  ltac:(apply (bool_decide_unpack _); vm_compute; exact I))).
  split; [reflexivity|]. intros x Hx. set_solver.
Defined.

(** ** Checkpoints with different identifiers *)

Section Checkpoints.
Context {Block : Type} `{EB : !PbftEnv Block} `{GR : !GoRange} (cfg : Config).
Abbreviation core := (pbftCore Block).

(** The checkpoint identifiers stored for number [n]. *)
Definition storedIds (w : core) (n : Z) : gset string :=
  list_to_set (omap (fun e : Checkpoint * bool =>
    if k_SequenceNumber e.1 =? n then Some (k_Id e.1) else None) (map_to_list (pc_checkpointStore w))).

Lemma storedIds_sub (w : core) n es chkpt :
  k_SequenceNumber chkpt = n -> es ≡ₚ map_to_list (<[chkpt := true]> (pc_checkpointStore w)) ->
  {[k_Id chkpt]} ∪ storedIds w n ⊆
  {[k_Id chkpt]} ∪ list_to_set ((fun e : Checkpoint * bool => k_Id e.1) <$>
     List.filter (fun e => k_SequenceNumber e.1 =? n) es).
Proof.
  intros Hn Hp i [Hi|Hi]%elem_of_union; [by apply elem_of_union_l|].
  destruct (decide (i = k_Id chkpt)) as [->|Hne]; [set_solver|]. apply elem_of_union_r.
  unfold storedIds in Hi. apply elem_of_list_to_set, list_elem_of_omap in Hi as ([c b] & Hc & Hi).
  cbn in Hi. destruct (k_SequenceNumber c =? n) eqn:E; [|done]. injection Hi as <-.
  apply elem_of_list_to_set, list_elem_of_fmap. exists (c, b). split; [done|].
  apply list_elem_of_In, filter_In. split; [|done]. apply list_elem_of_In. rewrite Hp.
  apply elem_of_map_to_list. rewrite lookup_insert_ne by congruence. by apply elem_of_map_to_list.
Qed.

(** A replica that holds checkpoint messages with more than [f] different
    identifiers for a number of its window panics on a message with one more,
    whichever replicas the messages are from: one faulty replica can send them
    all. *)
Theorem recvCheckpoint_panics self (w : core) chkpt :
  k_SequenceNumber chkpt < u64 (pc_h w + cfg_L cfg) ->
  inW cfg w (k_SequenceNumber chkpt) = true ->
  cfg_f cfg + 1 < Z.of_nat (size ({[k_Id chkpt]} ∪ storedIds w (k_SequenceNumber chkpt))) ->
  exists w', recvCheckpoint cfg self chkpt w = (Panic, w').
Proof.
  intros HH Hin Hids. unfold recvCheckpoint, weakCheckpointSetOutOfRange.
  unfold bind, get, modify, ret, range, panic.
  rewrite (proj2 (Z.ltb_lt _ _) HH).
  unfold inW in *. cbn -[Z.leb Z.ltb Z.add Z.sub u64 size union]. 
  change (pc_h (w <| pc_hChkpts ::= _ |>)) with (pc_h w). rewrite Hin. cbn [negb].
  set (es := go_range _ _).
  assert (es ≡ₚ map_to_list (<[chkpt := true]> (pc_checkpointStore w))) as Hp by apply go_range_perm.
  pose proof (subseteq_size _ _ (storedIds_sub w _ es chkpt eq_refl Hp)).
  rewrite (proj2 (Z.ltb_lt _ _)) by lia. by eexists.
Qed.
End Checkpoints.

(** ** Concrete runs *)

(** Two checkpoint messages of replica 3 with different identifiers. *)
Definition twoCheckpoints : pbftCore string :=
  (sample_run 1 [msgEvent (RCheckpoint (mkCheckpoint 10 3 "a"));
                 msgEvent (RCheckpoint (mkCheckpoint 10 3 "b"))] (sample_start 1)).2.

Lemma recvCheckpoint_panics_witness :
  exists w', recvCheckpoint (sample_cfg 1) (run (sample_cfg 1) 5) (mkCheckpoint 10 3 "c") twoCheckpoints
             = (Panic, w').
Proof.
  apply (recvCheckpoint_panics (sample_cfg 1) (run (sample_cfg 1) 5) twoCheckpoints (mkCheckpoint 10 3 "c")).
  - vm_compute. reflexivity.
  - vm_compute. reflexivity.
  - vm_compute. reflexivity.
Defined.


(** The messages of an agreement on a block that replicas 2 and 3 are said to
    have sent: the sender of each is the field [Sender] of the message. *)
Definition forgedDigest : string := BytesToHash "forged".
Definition forgedMessages : list (PbftMessage string) :=
  [envelope 0 (RPrePrepare (mkPrePrepare 0 1 forgedDigest (Some "forged") 0));
   envelope 2 (RPrepare (mkPrepare 0 1 forgedDigest 2));
   envelope 3 (RPrepare (mkPrepare 0 1 forgedDigest 3));
   envelope 2 (RCommit (mkCommit 0 1 forgedDigest 2));
   envelope 3 (RCommit (mkCommit 0 1 forgedDigest 3))].

(** The queue carries no authenticated origin: [ProcessEvent] checks the
    claimed replica of a message against the [Sender] field of the same message,
    so one peer that writes the messages of a whole quorum itself makes a replica
    execute a block of its choice. *)
Theorem forged_senders_execute :
  executions (sample_run 1 (pbftMessageEvent <$> forgedMessages) (sample_start 1)).2
  = [(1, Some "forged")].
Proof. vm_compute. reflexivity. Qed.

(** The block that is executed need not be the block agreed on: a second
    pre-prepare of the primary with the same hash and another block replaces the
    block in the certificate, since the hash is compared with the block only when
    no block of that hash is stored. *)
Theorem executed_block_not_agreed :
  let w := (sample_run 1
    [msgEvent (RPrePrepare (mkPrePrepare 0 1 agreedDigest (Some "block one") 0));
     msgEvent (RPrepare (mkPrepare 0 1 agreedDigest 2));
     msgEvent (RPrepare (mkPrepare 0 1 agreedDigest 3));
     msgEvent (RPrePrepare (mkPrePrepare 0 1 agreedDigest (Some "block two") 0));
     msgEvent (RCommit (mkCommit 0 1 agreedDigest 2));
     msgEvent (RCommit (mkCommit 0 1 agreedDigest 3))] (sample_start 1)).2 in
  executions w = [(1, Some "block two")] /\ block_hash "block two" <> agreedDigest.
Proof. vm_compute. split; [reflexivity|discriminate]. Qed.

(** Condition A2 counts Q entries, not view changes: a faulty replica that
    repeats its Q entry makes the new view drop the request two correct replicas
    report as prepared, in view changes that all pass [correctViewChange] and the
    signature check; with the entry listed once no request is selected. *)
Theorem repeated_q_entry_overrides :
  let vset copies := [correctVC 0; correctVC 1; faultyVC copies] in
  Forall (fun vc => correctViewChange (sample_cfg 0) vc = true /\ verifyViewChangeSig vc = true)
         (vset 2%nat) /\
  assignSequenceNumbers (sample_cfg 0) (vset 2%nat) 0 = Some {[1 := otherHash]} /\
  assignSequenceNumbers (sample_cfg 0) (vset 1%nat) 0 = None.
Proof.
  cbv zeta. split_and!; [|apply (bool_decide_unpack _); vm_compute; exact I..].
  repeat constructor; vm_compute; reflexivity.
Qed.

(** A view change with the zero address as signer and no signature. *)
Definition unsignedVC : ViewChange := mkViewChange 1 0 [genesisC] [] [] 3 EmptyString zeroAddress.
Definition unsignedNewView : NewView :=
  mkNewView 1 [unsignedVC; unsignedVC; unsignedVC] [mkXSet 1 EmptyString] 1.

(** A new view needs neither a quorum of distinct replicas nor a signature:
    after backups 1 and 3 have executed a block that backup 2 also prepared,
    backup 2, whose timer has expired, enters view 1 on a new view made of three
    copies of one unsigned view change, with nothing at number 1, and executes
    another block there. *)
Theorem forged_new_view_forks :
  let w := sample_run 2 [viewChangeTimerEvent; msgEvent (RNewView unsignedNewView)] (agreedBackup 2) in
  let d := BytesToHash "another block" in
  let w' := sample_run 2
    [msgEvent (RPrePrepare (mkPrePrepare 1 1 d (Some "another block") 1));
     msgEvent (RPrepare (mkPrepare 1 1 d 0)); msgEvent (RPrepare (mkPrepare 1 1 d 3));
     msgEvent (RCommit (mkCommit 1 1 d 0)); msgEvent (RCommit (mkCommit 1 1 d 3))] w.2 in
  executions (agreedBackup 1) = [(1, Some "block one")] /\
  executions (agreedBackup 3) = [(1, Some "block one")] /\
  prepared (sample_cfg 2) (agreedBackup 2) agreedDigest 0 1 = true /\
  w.1 = Ret tt /\ pc_activeView w.2 = true /\ pc_view w.2 = 1 /\
  executions w'.2 = [(1, Some "another block")].
Proof. vm_compute. repeat split; reflexivity. Qed.

(** ** Instances of the theorems on execution *)


(** The backup that has agreed on block one, before anything was executed. *)
Definition readyBackup : pbftCore string := (agreedBackup 1) <| pc_currentExec := None |>.

Lemma executeOutstanding_progress_witness :
  exists v' cert' pp', ready (sample_cfg 1) readyBackup v' 1 cert' pp' /\
    executeOutstanding (sample_cfg 1) (run (sample_cfg 1) 5) readyBackup =
      if decide (ct_digest cert' = EmptyString)
      then (run (sample_cfg 1) 5 CallExecDoneSync ;; startTimerIfOutstandingBlocks (sample_cfg 1))
             (readyBackup <| pc_tick ::= S |> <| pc_currentExec := Some 1 |>)
      else (Ret tt, executing (sample_cfg 1) (readyBackup <| pc_tick ::= S |>) v' 1 pp').
Proof.
  destruct (pc_certStore readyBackup !! (0, 1)) as [cert|] eqn:E; [|vm_compute in E; discriminate].
  assert (ct_digest <$> pc_certStore readyBackup !! (0, 1) = Some agreedDigest) as Hd
    by (vm_compute; reflexivity).
  assert (ct_prePrepare <$> pc_certStore readyBackup !! (0, 1)
          = Some (Some (mkPrePrepare 0 1 agreedDigest (Some "block one") 0))) as Hpp
    by (vm_compute; reflexivity).
  rewrite E in Hd, Hpp. injection Hd as Hd. injection Hpp as Hpp.
  apply (executeOutstanding_progress (sample_cfg 1) (run (sample_cfg 1) 5) readyBackup 0 1 cert
           (mkPrePrepare 0 1 agreedDigest (Some "block one") 0)).
  - reflexivity.
  - vm_compute. reflexivity.
  - vm_compute. reflexivity.
  - split; [exact E|exact Hpp|]. rewrite Hd. vm_compute. reflexivity.
Defined.

Lemma watermark_window_witness :
  (10 | 0) /\ (inW (sample_cfg 1) (agreedBackup 1) 40 = true <-> 0 < 40 <= 0 + 40).
Proof.
  apply (watermark_window (sample_cfg 1) (agreedBackup 1) 40).
  - vm_compute. reflexivity.
  - apply agreedBackup_reachable.
  - vm_compute. congruence.
  - vm_compute. split; congruence.
  - vm_compute. reflexivity.
Defined.

(** A backup in view change that is sent a new view with a request it does not
    hold. *)
Definition missingBackup : pbftCore string :=
  (sample_run 1 [viewChangeTimerEvent; viewChangeTimerEvent;
                 msgEvent (RNewView (mkNewView 2 reportsVset [mkXSet 1 committedHash] 2))]
     (sample_start 1)).2.

Lemma missing_block_blocks_new_views_witness :
  let w' := (Inject (sample_cfg 1) 20 viewChangeTimerEvent missingBackup).2 in
  pc_missingReqBatches missingBackup ⊆ pc_missingReqBatches w' /\
  forall self nv, exists w'',
    processNewView_blocks (sample_cfg 1) self nv w' = (Ret None, w'') /\
    for_each (nv_Xset nv) noteMissing w' = (Ret tt, w'').
Proof.
  apply (missing_block_blocks_new_views (sample_cfg 1) missingBackup 20 viewChangeTimerEvent).
  - reflexivity.
  - intros E. assert (elements (pc_missingReqBatches missingBackup) = [committedHash]) as Hm
      by (vm_compute; reflexivity).
    rewrite E in Hm. vm_compute in Hm. discriminate.
Defined.
