(* ===== verification/PersistProofs.v ===== *)
(** * PersistProofs: what a replica recovers from its database

    Round trips of [consensus/pbft/pbft-persist.go] and [persist.go]: the P set,
    the checkpoint keys, and what a restart makes of them. *)
From stdpp Require Import pretty.
From S2P Require Import Prelude.
From S2P Require Import Events.
From S2P Require Import Messages.
From S2P Require Import PbftState.
From S2P Require Import ViewChangeCalc.
From S2P Require Import PbftPersist.
From S2P Require Import HibeRound.
From S2P Require Import PbftCore.
From S2P Require Import PbftInit.
From S2P Require Import PbftSteps.
From S2P Require Import PbftSample.

(** ** Numbers in keys *)

Lemma digit_val_char k : (k < 10)%N -> digit_val (pretty_N_char k) = Some (Z.of_N k).
Proof.
  intros H. assert (k ∈ seq 0 10 ≫= (fun i => [N.of_nat i])) as Hin.
  { apply list_elem_of_bind. exists (N.to_nat k). split; [|apply elem_of_seq; lia].
    rewrite N2Nat.id. by apply list_elem_of_singleton. }
  revert Hin. cbn. rewrite !elem_of_cons, elem_of_nil. intros Hin.
  repeat (destruct Hin as [->|Hin]; [reflexivity|]). done.
Qed.

(** Reading back the digits of [x] in front of [s]. *)
Lemma scan_pretty_go (x : N) s :
  scan_digits (pretty_N_go x s) 0 = scan_digits s (Z.of_N x) /\
  ((0 < x)%N -> exists c s', pretty_N_go x s = String c s' /\ is_Some (digit_val c)).
Proof.
  revert s. induction (N.lt_wf_0 x) as [x _ IH]. intros s.
  destruct (decide (0 < x)%N) as [Hx|Hx].
  - rewrite pretty_N_go_step by done.
    assert (x `div` 10 < x)%N as Hlt by (apply N.div_lt; lia).
    destruct (IH _ Hlt (String (pretty_N_char (x `mod` 10)) s)) as [E1 E2]. split.
    + rewrite E1. cbn [scan_digits]. rewrite digit_val_char by (apply N.mod_lt; lia). apply f_equal.
      rewrite N2Z.inj_div, N2Z.inj_mod. change (Z.of_N 10) with 10.
      pose proof (Z.div_mod (Z.of_N x) 10 ltac:(lia)). lia.
    + intros _. destruct (decide (0 < x `div` 10)%N) as [H|H]; [by apply E2|].
      assert (x `div` 10 = 0)%N as -> by (apply N.le_0_r; by apply N.nlt_ge). rewrite pretty_N_go_0. eexists _, _. split; [done|].
      rewrite digit_val_char by (apply N.mod_lt; lia). by eexists.
  - assert (x = 0%N) as -> by lia. rewrite pretty_N_go_0. split; [done|lia].
Qed.

Lemma scan_pretty (n : Z) : is_u64 n -> scan_uint64 (pretty n) = Some n.
Proof.
  intros [H0 H1]. destruct n as [|p|p]; [reflexivity| |lia].
  change (pretty (Z.pos p)) with (pretty_N_go (N.pos p) "").
  destruct (scan_pretty_go (N.pos p) "") as [E1 E2].
  destruct E2 as (c & s' & Es & [d Hd]); [lia|]. unfold scan_uint64.
  rewrite Es. rewrite Hd. rewrite <- Es, E1. cbn [scan_digits]. change (Z.of_N (N.pos p)) with (Z.pos p).
  rewrite (proj2 (Z.ltb_lt _ _)) by done. done.
Qed.

Lemma strip_prefix_app p s : strip_prefix p (p +:+ s) = Some s.
Proof. induction p as [|a p IH]; [by destruct s|].
  change (String a p +:+ s) with (String a (p +:+ s)). cbn [strip_prefix].
  by rewrite decide_True.
Qed.

Lemma strip_prefix_Some p s r : strip_prefix p s = Some r -> s = p +:+ r.
Proof.
  revert s. induction p as [|a p IH]; intros s; [by intros [= ->]|].
  destruct s as [|b s]; cbn [strip_prefix]; [done|]. destruct (decide (a = b)) as [->|]; [|done].
  intros H. by rewrite (IH s H).
Qed.

Lemma app_assoc_string (a b c : string) : (a +:+ b) +:+ c = a +:+ (b +:+ c).
Proof. induction a as [|x a IH]; [done|]. exact (f_equal (String x) IH). Qed.

Lemma app_prefix_inj (p s t : string) : p +:+ s = p +:+ t -> s = t.
Proof. induction p as [|a p IH]; [done|]. intros H. injection H. exact IH. Qed.

(** ** The database helper *)

Section Store.
Context {Block : Type} `{EB : !PbftEnv Block} `{GR : !GoRange} (cfg : Config).
Abbreviation core := (pbftCore Block).

(** [ReadStateSet] returns the stored pairs whose key has the prefix. *)
Definition stateSet (w : core) (prefix : string) : gmap string string :=
  list_to_map (omap (fun e : string * string =>
    match strip_prefix (dbKey prefix) e.1 with
    | Some _ => (fun k => (k, e.2)) <$> strip_prefix "consensus." e.1
    | None => None
    end) (map_to_list (pc_db w))).

Lemma stateSet_lookup w prefix k v :
  stateSet w prefix !! k = Some v <->
  pc_db w !! dbKey k = Some v /\ is_Some (strip_prefix prefix k).
Proof.
  unfold stateSet. set (l := omap _ _).
  assert (forall k v, (k, v) ∈ l <-> pc_db w !! dbKey k = Some v /\ is_Some (strip_prefix prefix k)) as Hl.
  { intros k' v'. unfold l. rewrite list_elem_of_omap. split.
    - intros ([kk vv] & Hin%elem_of_map_to_list & H). cbn [fst snd] in H.
      destruct (strip_prefix (dbKey prefix) kk) as [r|] eqn:E1; [|done].
      destruct (strip_prefix "consensus." kk) as [r'|] eqn:E2; [|cbn in H; discriminate]. injection H as <- <-.
      apply strip_prefix_Some in E1, E2. split; [by rewrite E2 in Hin|].
      assert (r' = prefix +:+ r) as ->.
      { apply (app_prefix_inj "consensus."). rewrite <- E2, E1. apply app_assoc_string. }
      rewrite strip_prefix_app. by eexists.
    - intros [Hin [r Hr%strip_prefix_Some]]. exists (dbKey k', v'). split.
      + by apply elem_of_map_to_list.
      + cbn [fst snd]. unfold dbKey. rewrite (strip_prefix_app "consensus.").
        rewrite Hr, <- app_assoc_string, strip_prefix_app. done. }
  split.
  - intros H. apply Hl. by apply elem_of_list_to_map_2.
  - intros H. apply elem_of_list_to_map_1'; [|by apply Hl].
    intros v' [Hv' _]%Hl. destruct H as [H _]. congruence.
Qed.

Lemma ReadStateSet_eq prefix w : ReadStateSet prefix w = (Ret (stateSet w prefix), w).
Proof. done. Qed.

(** *** The checkpoints that a start recovers *)

Variable self : Call Block -> M core (option (Event Block)).

(** The steps of the recovery before the checkpoints leave these alone. *)
Definition aside (w w' : core) : Prop :=
  pc_chkpts w' = pc_chkpts w /\ pc_db w' = pc_db w /\ pc_certStore w' = pc_certStore w /\
  pc_outstandingBlocks w' = pc_outstandingBlocks w.
#[local] Instance aside_preorder : PreOrder aside.
Proof. split; [by intros w|]. intros w1 w2 w3 (?&?&?&?) (?&?&?&?). split_and!; congruence. Qed.
Definition calm (m : M core unit) : Prop := forall w, exists w', m w = (Ret tt, w') /\ aside w w'.
Lemma calm_bind (m1 m2 : M core unit) : calm m1 -> calm m2 -> calm (m1 ;; m2).
Proof.
  intros H1 H2 w. destruct (H1 w) as (w1&E1&A1). destruct (H2 w1) as (w2&E2&A2). exists w2.
  rewrite (bind_eq _ _ _ _ _ E1). split; [done|]. by transitivity w1.
Qed.
Lemma calm_modify f : (forall w, aside w (f w)) -> calm (modify f).
Proof. intros H w. by exists (f w). Qed.
Lemma calm_ret : calm (ret tt).
Proof. intros w. by exists w. Qed.
Lemma calm_for_each {A} (l : list A) body : (forall x, calm (body x)) -> calm (for_each l body).
Proof. intros H. induction l as [|x l IH]; cbn; [apply calm_ret|by apply calm_bind]. Qed.
Lemma calm_read {A} (f : core -> A) (m : A -> M core unit) : (forall a, calm (m a)) -> calm (a <- gets f ;; m a).
Proof. intros H w. exact (H (f w) w). Qed.
Lemma calm_range {K V} `{Countable K} (f : core -> gmap K V) (m : list (K * V) -> M core unit) :
  (forall es, calm (m es)) -> calm (es <- range f ;; m es).
Proof.
  intros Hm w. destruct (Hm (go_range (pc_tick w) (f w)) (w <| pc_tick ::= S |>)) as (w'&E&HA). by exists w'.
Qed.
Lemma calm_updateSeqView set : calm (updateSeqView set).
Proof. apply calm_for_each. intros e. apply calm_modify. intros w. unfold aside. cbv zeta. repeat case_match; done. Qed.

(** The rest of it: the checkpoints, and the watermark below the lowest of them. *)
Definition lowest (low : Z) (es : list (string * string)) : Z :=
  foldl (fun low e => match scanChkptKey e.1 with Some n => if n <? low then n else low | None => low end) low es.
Definition addChkpts (es : list (string * string)) (m : gmap Z string) : gmap Z string :=
  foldl (fun m e => match scanChkptKey e.1 with Some n => <[n := env_b64enc e.2]> m | None => m end) m es.
Lemma calm_then {B} (m : M core unit) (f : unit -> M core B) w : calm m -> exists w', aside w w' /\ bind m f w = f tt w'.
Proof. intros H. destruct (H w) as (w'&E&HA). exists w'. split; [done|by apply bind_eq]. Qed.
Ltac calm_step w1 A1 :=
  match goal with |- context [bind ?m ?f ?w] => destruct (calm_then m f w) as (w1&A1&E); [|rewrite E; clear E] end.
Lemma restoreState_split w : exists w1, aside w w1 /\
  let es := go_range (pc_tick w1) (stateSet w1 "chkpt.") in
  restoreState cfg self w =
    moveWatermarks cfg self (lowest (pc_LastExec w1) es) (w1 <| pc_tick ::= S |> <| pc_chkpts ::= addChkpts es |>).
Proof.
  unfold restoreState.
  assert (forall key w, restorePQSet (Block := Block) key w = (Ret (default [] (env_unmarshalPQ (default EmptyString (pc_db w !! dbKey key)))), w)) as Hr by done.
  rewrite (bind_eq _ _ _ _ _ (Hr "pset" w)).
  calm_step w1 A1; [apply calm_for_each; intros; by apply calm_modify|].
  calm_step w2 A2; [apply calm_updateSeqView|].
  rewrite (bind_eq _ _ _ _ _ (Hr "qset" w2)).
  calm_step w3 A3; [apply calm_for_each; intros; by apply calm_modify|].
  calm_step w4 A4; [apply calm_updateSeqView|].
  rewrite (bind_eq _ _ _ _ _ (ReadStateSet_eq "reqBlock." w4)).
  match goal with |- context [bind (range ?f) ?k w4] => rewrite (bind_eq (range f) k w4 (go_range (pc_tick w4) (f w4)) (w4 <| pc_tick ::= S |>) eq_refl) end.
  calm_step w5 A5; [apply calm_for_each; intros e; case_match; [by apply calm_modify|apply calm_ret]|].
  calm_step w6 A6; [by apply calm_modify|].
  exists w6. split.
  { transitivity w1; [done|]. transitivity w2; [done|]. transitivity w3; [done|]. transitivity w4; [done|]. by transitivity w5. }
  rewrite (bind_eq _ _ _ _ _ (ReadStateSet_eq "chkpt." w6)). cbv zeta. set (es := go_range (pc_tick w6) (stateSet w6 "chkpt.")).
  match goal with |- context [bind (range ?f) ?k w6] => rewrite (bind_eq (range f) k w6 es (w6 <| pc_tick ::= S |>) eq_refl) end.
  rewrite bind_get. unfold bind at 1.
  assert (forall l w, for_each l (fun e : string * string => match scanChkptKey e.1 with
      | None => ret tt | Some seqNo => modify (fun w : core => w <| pc_chkpts ::= <[seqNo := env_b64enc e.2]> |>) end) w
    = (Ret tt, w <| pc_chkpts ::= addChkpts l |>)) as Hl.
  { induction l as [|e l IH]; intros w'; [by destruct w'|]. cbn [for_each]. unfold bind. destruct (scanChkptKey e.1) as [n|] eqn:E; cbn [modify ret].
    - rewrite IH. unfold addChkpts. cbn [foldl]. by rewrite E.
    - rewrite IH. unfold addChkpts. cbn [foldl]. by rewrite E. }
  by rewrite Hl.
Qed.

Lemma lowest_le low es : lowest low es <= low /\ forall e n, e ∈ es -> scanChkptKey e.1 = Some n -> lowest low es <= n.
Proof.
  revert low. induction es as [|e es IH]; intros low; [split; [done|]; by intros ? ? ?%elem_of_nil|].
  unfold lowest. cbn [foldl]. fold (lowest (match scanChkptKey e.1 with Some n => if n <? low then n else low | None => low end) es).
  destruct (IH (match scanChkptKey e.1 with Some n => if n <? low then n else low | None => low end)) as [H1 H2]. split.
  - destruct (scanChkptKey e.1) as [n|]; [|done]. destruct (Z.ltb_spec n low); lia.
  - intros e' n [->|Hin]%elem_of_cons En; [|by eapply H2]. rewrite En in *. destruct (Z.ltb_spec n low); lia.
Qed.
Lemma addChkpts_none es m n : (forall e, e ∈ es -> scanChkptKey e.1 <> Some n) -> addChkpts es m !! n = m !! n.
Proof.
  revert m. induction es as [|e es IH]; intros m H; [done|]. unfold addChkpts. cbn [foldl]. fold (addChkpts es).
  etrans; [apply IH; intros e' He; apply H; by right|]. specialize (H e ltac:(by left)).
  destruct (scanChkptKey e.1) as [k|]; [|done]. apply lookup_insert_ne. congruence.
Qed.
Lemma addChkpts_found es m n key id : NoDup es.*1 -> (key, id) ∈ es -> scanChkptKey key = Some n ->
  (forall e, e ∈ es -> scanChkptKey e.1 = Some n -> e.1 = key) -> addChkpts es m !! n = Some (env_b64enc id).
Proof.
  revert m. induction es as [|e es IH]; intros m Hnd Hin Hk Hu; [by apply elem_of_nil in Hin|].
  cbn in Hnd. apply NoDup_cons in Hnd as [Hn Hnd]. unfold addChkpts. cbn [foldl]. fold (addChkpts es).
  apply elem_of_cons in Hin as [<-|Hin].
  - cbn [fst snd]. rewrite Hk. etrans; [apply addChkpts_none|apply lookup_insert_eq].
    intros e' He Es. apply Hn. cbn. rewrite <- (Hu e' ltac:(by right) Es). by apply list_elem_of_fmap_2.
  - apply IH; [done..|]. intros e' He. apply Hu. by right.
Qed.
(** Moving the watermarks of a fresh instance keeps the checkpoints from the low
    watermark on. *)
Lemma moveWatermarks_chkpts low w : pc_certStore w = ∅ -> pc_outstandingBlocks w = ∅ ->
  exists w', moveWatermarks cfg self low w = (Ret tt, w') /\
    forall n, low / cfg_K cfg * cfg_K cfg <= n \/ pc_chkpts w !! n = None -> pc_chkpts w' !! n = pc_chkpts w !! n.
Proof.
  intros Hc Ho. unfold moveWatermarks.
  assert (forall K V `{Countable K} t, go_range t (∅ : gmap K V) = []) as Hnil.
  { intros K V ?? t. apply length_zero_iff_nil. by rewrite go_range_length, map_size_empty. }
  set (h := low / cfg_K cfg * cfg_K cfg).
  match goal with |- context [bind (range ?f) ?k w] => rewrite (bind_eq (range f) k w [] (w <| pc_tick ::= S |>)) end;
    [|unfold range, bind, get, modify, ret; by rewrite Hc, Hnil].
  cbn [for_each]. rewrite bind_ret, bind_modify.
  match goal with |- context [bind (range ?f) ?k ?w1] => set (w2 := w1); rewrite (bind_eq (range f) k w2 (go_range (pc_tick w2) (pc_chkpts w2)) (w2 <| pc_tick ::= S |>) eq_refl) end.
  assert (forall l w, exists w', for_each l (fun e : Z * string => when (e.1 <? h)
      (modify (fun w : core => w <| pc_chkpts ::= delete e.1 |>) ;; persistDelCheckpoint e.1)) w = (Ret tt, w') /\
      pc_outstandingBlocks w' = pc_outstandingBlocks w /\ forall n, h <= n \/ pc_chkpts w !! n = None -> pc_chkpts w' !! n = pc_chkpts w !! n) as Hl.
  { induction l as [|e l IH]; intros w'; [by exists w'|]. cbn [for_each]. destruct (Z.ltb_spec e.1 h) as [He|He]; cbn [when].
    - rewrite (bind_eq _ _ _ tt (w' <| pc_chkpts ::= delete e.1 |> <| pc_db ::= delete (dbKey (chkptKey e.1)) |>)) by done.
      destruct (IH (w' <| pc_chkpts ::= delete e.1 |> <| pc_db ::= delete (dbKey (chkptKey e.1)) |>)) as (w3&E&H1&H2).
      exists w3. split_and!; [done|done|]. intros n Hn. rewrite H2; cbn.
      + destruct Hn as [Hn|Hn]; [apply lookup_delete_ne; lia|]. destruct (decide (e.1 = n)) as [<-|]; [by rewrite lookup_delete_eq|by apply lookup_delete_ne].
      + destruct Hn as [Hn|Hn]; [by left|right]. by apply lookup_delete_None; right.
    - rewrite bind_ret. apply IH. }
  destruct (Hl (go_range (pc_tick w2) (pc_chkpts w2)) (w2 <| pc_tick ::= S |>)) as (w3&E&H1&H2).
  rewrite (bind_eq _ _ _ _ _ E), bind_modify. unfold resubmitBlockMsges. rewrite bind_get.
  case_match; [eexists; split; [done|]; intros n Hn; cbn; by rewrite H2|].
  set (w4 := w3 <| pc_h := h |>).
  rewrite (bind_eq (range pc_outstandingBlocks) _ w4 [] (w4 <| pc_tick ::= S |>)); [|unfold range, bind, get, modify, ret; cbn; by rewrite H1; cbn; rewrite Ho, Hnil].
  match goal with |- context [bind (range ?f) ?k ?w1] => rewrite (bind_eq (range f) k w1 (go_range (pc_tick w1) (f w1)) (w1 <| pc_tick ::= S |>) eq_refl) end.
  cbn [List.filter for_each]. eexists. split; [done|]. intros n Hn. cbn. by rewrite H2.
Qed.

(** What the recovery makes of the checkpoints of a database. *)
Lemma recovered db : 0 < cfg_K cfg -> exists r es, restoreState cfg self (blankCore cfg db) = (Ret tt, r) /\ NoDup es.*1 /\
  (forall k v, (k, v) ∈ es <-> db !! dbKey k = Some v /\ is_Some (strip_prefix "chkpt." k)) /\
  let chkpts := addChkpts es {[0 := "XXX GENESIS"]} in
  forall n, (exists e, e ∈ es /\ scanChkptKey e.1 = Some n) \/ chkpts !! n = None -> pc_chkpts r !! n = chkpts !! n.
Proof.
  intros HK. destruct (restoreState_split (blankCore cfg db)) as (w1&(A1&A2&A3&A4)&E). cbv zeta in E.
  set (es := go_range (pc_tick w1) (stateSet w1 "chkpt.")) in *.
  destruct (moveWatermarks_chkpts (lowest (pc_LastExec w1) es) (w1 <| pc_tick ::= S |> <| pc_chkpts ::= addChkpts es |>)) as (r&Er&Hr); [done..|].
  exists r, es. split; [by rewrite E|]. split; [apply go_range_nodup|]. split.
  - intros k v. unfold es. rewrite go_range_elem, stateSet_lookup. by rewrite A2.
  - cbn in Hr. rewrite A1 in Hr. intros chkpts n H. apply Hr. destruct H as [(e&He&En)|Hn]; [left|by right].
    pose proof (proj2 (lowest_le (pc_LastExec w1) es) e n He En).
    pose proof (Z.div_mod (lowest (pc_LastExec w1) es) (cfg_K cfg) ltac:(lia)).
    pose proof (Z.mod_pos_bound (lowest (pc_LastExec w1) es) (cfg_K cfg) HK). lia.
Qed.

(** C36: a checkpoint that was persisted is found again by the recovery of the next
    start.  Persisting a checkpoint and deleting it change no other key of the database;
    [restoreState] of a new instance on the database with the checkpoint returns, and
    leaves it in [chkpts] under its number; on the database where it has been deleted
    again it returns without it (number zero is that of the genesis checkpoint, which
    every instance has).  The period of the checkpoints is not zero, the number is a
    64-bit one, and no other key of the database scans to it, which holds of the keys
    that [persistCheckpoint] writes. *)
Theorem checkpoint_roundtrip (w : core) n id :
  0 < cfg_K cfg -> is_u64 n ->
  (forall k, is_Some (pc_db w !! dbKey k) -> scanChkptKey k = Some n -> k = chkptKey n) ->
  let w1 := (persistCheckpoint n id w).2 in
  let w2 := (persistDelCheckpoint n w1).2 in
  (forall k, k <> dbKey (chkptKey n) -> pc_db w1 !! k = pc_db w !! k /\ pc_db w2 !! k = pc_db w !! k) /\
  (exists r1, restoreState cfg self (blankCore cfg (pc_db w1)) = (Ret tt, r1) /\ pc_chkpts r1 !! n = Some (env_b64enc id)) /\
  (n <> 0 -> exists r2, restoreState cfg self (blankCore cfg (pc_db w2)) = (Ret tt, r2) /\ pc_chkpts r2 !! n = None).
Proof.
  intros HK Hn Hu w1 w2.
  assert (scanChkptKey (chkptKey n) = Some n) as Hs by (unfold scanChkptKey, chkptKey; rewrite strip_prefix_app; by apply scan_pretty).
  assert (pc_db w1 = <[dbKey (chkptKey n) := id]> (pc_db w)) as D1 by done.
  assert (pc_db w2 = delete (dbKey (chkptKey n)) (pc_db w)) as D2 by (change (pc_db w2) with (delete (dbKey (chkptKey n)) (pc_db w1)); rewrite D1; apply delete_insert_eq).
  clearbody w1 w2.
  split; [|split].
  - intros k Hk. by rewrite D1, D2, lookup_insert_ne, lookup_delete_ne by congruence.
  - destruct (recovered (pc_db w1) HK) as (r&es&E&Hnd&Hes&Hr). exists r. split; [done|].
    assert ((chkptKey n, id) ∈ es) as Hin.
    { apply Hes. rewrite D1, lookup_insert_eq. split; [done|]. unfold chkptKey. rewrite strip_prefix_app. by eexists. }
    rewrite Hr by (left; by eexists). apply (addChkpts_found _ _ _ (chkptKey n)); [done..|]. intros [k v] He Ek. cbn in *.
    apply Hes in He as [Hk _]. destruct (decide (k = chkptKey n)) as [|Hne]; [done|]. apply Hu; [|done].
    rewrite D1, lookup_insert_ne in Hk by (unfold dbKey; intros ?%app_prefix_inj; congruence). by eexists.
  - intros Hn0. destruct (recovered (pc_db w2) HK) as (r&es&E&_&Hes&Hr). exists r. split; [done|].
    assert (addChkpts es {[0 := "XXX GENESIS"]} !! n = None) as Ha.
    { rewrite addChkpts_none; [by apply lookup_singleton_ne|]. intros [k v] He Ek. cbn in *. apply Hes in He as [Hk _].
      destruct (decide (k = chkptKey n)) as [->|Hne]; [by rewrite D2, lookup_delete_eq in Hk|]. apply Hne, Hu; [|done].
      rewrite D2, lookup_delete_ne in Hk by (unfold dbKey; intros ?%app_prefix_inj; congruence). by eexists. }
    rewrite Hr; [done|by right].
Qed.

(** Reinserting the values of a map under a key computed from them. *)
Lemma insert_values {K V} `{Countable K} (key : V -> K) (l : list (K * V)) (m0 : gmap K V) :
  (forall k v, (k, v) ∈ l -> key v = k) -> NoDup l.*1 ->
  foldl (fun m v => <[key v := v]> m) m0 l.*2 = list_to_map l ∪ m0.
Proof.
  revert m0. induction l as [|[k v] l IH]; intros m0 Hk Hnd; cbn; [by rewrite (left_id_L ∅ (∪))|].
  apply NoDup_cons in Hnd as [Hnin Hnd]. rewrite IH; [| |done].
  - rewrite (Hk k v) by (by left). rewrite <- insert_union_r by (by apply not_elem_of_list_to_map_1).
    by rewrite insert_union_l.
  - intros k' v' Hin. apply Hk. by right.
Qed.

(** The insertion loops of [restoreState]. *)
Lemma restore_pset_loop (set : list ViewChange_PQ) (w : core) :
  for_each set (fun e => modify (fun w => w <| pc_pset ::= <[pq_SequenceNumber e := e]> |>)) w
  = (Ret tt, w <| pc_pset ::= fun m => foldl (fun m e => <[pq_SequenceNumber e := e]> m) m set |>).
Proof. revert w. induction set as [|e l IH]; intros w; cbn; [by destruct w|]. unfold bind. apply IH. Qed.

Definition pset_keyed (ps : gmap Z ViewChange_PQ) : Prop :=
  map_Forall (fun n e => pq_SequenceNumber e = n) ps.

Lemma calcPSet_step_keyed (w : core) ps e : pset_keyed ps -> pset_keyed (calcPSet_step cfg w ps e).
Proof.
  intros H. destruct e as [[v n] cert]. unfold calcPSet_step.
  destruct (ct_prePrepare cert); [|done]. destruct (negb _); [done|].
  repeat case_match; try done; by apply map_Forall_insert_2.
Qed.

(** The P set that [calcPSet] computes in a state. *)
Definition computedPSet (w : core) : gmap Z ViewChange_PQ :=
  foldl (calcPSet_step cfg (w <| pc_tick ::= S |>)) (pc_pset w) (go_range (pc_tick w) (pc_certStore w)).

Lemma computedPSet_keyed w : pset_keyed (pc_pset w) -> pset_keyed (computedPSet w).
Proof.
  unfold computedPSet. generalize (pc_pset w), (w <| pc_tick ::= S |>).
  induction (go_range _ _) as [|e es IH]; intros ps w' H; cbn; [done|].
  apply IH. by apply calcPSet_step_keyed.
Qed.

(** The P set survives a restart: a replica that is built on the database
    another one left after persisting its P set reads back exactly the P set
    computed then, whatever order the sets were written in. *)
Theorem pset_roundtrip (w w0 : core) :
  pset_keyed (pc_pset w) -> pc_pset w0 = ∅ ->
  pc_db w0 = pc_db (persistPSet cfg w).2 ->
  is_Some (env_marshalPQ (go_range (S (pc_tick w)) (computedPSet w)).*2) ->
  exists w1,
    (set <- restorePQSet "pset" ;;
     for_each set (fun e => modify (fun w => w <| pc_pset ::= <[pq_SequenceNumber e := e]> |>))) w0
    = (Ret tt, w1) /\ pc_pset w1 = computedPSet w.
Proof.
  intros Hk H0 Hdb [raw Hraw].
  assert (pc_db (persistPSet cfg w).2 = <[dbKey "pset" := raw]> (pc_db w)) as Hp.
  { unfold persistPSet, calcPSet, persistPQSet, range, StoreState, bind, get, modify, ret. cbn.
    unfold computedPSet in Hraw. by rewrite Hraw. }
  unfold restorePQSet, ReadState, bind, gets, ret. cbn [fst snd].
  rewrite Hdb, Hp, lookup_insert_eq. cbn [default]. cbv [id from_option].
  rewrite (env_marshalPQ_inv _ _ Hraw). cbn [default]. cbv [id from_option].
  rewrite restore_pset_loop. eexists. split; [reflexivity|]. cbn. rewrite H0.
  rewrite insert_values.
  - rewrite (right_id_L ∅ (∪)). rewrite <- (list_to_map_to_list (computedPSet w)) at 2.
    apply list_to_map_proper; [apply go_range_nodup|apply go_range_perm].
  - intros k v Hin%go_range_elem. by apply (computedPSet_keyed w Hk) in Hin.
  - apply go_range_nodup.
Qed.
End Store.

(** ** A restart *)

(** A backup that receives a pre-prepare and stops, and its next start on the
    database it left. *)
Definition stoppedBackup : pbftCore string :=
  (sample_run 1 [msgEvent (RPrePrepare (mkPrePrepare 0 1 (BytesToHash "block one") (Some "block one") 0))]
     (sample_start 1)).2.
Definition restartedBackup : pbftCore string :=
  (newPbftCore (sample_cfg 1) (run (sample_cfg 1) 5) (blankCore (sample_cfg 1) (pc_db stoppedBackup))).2.

(** After a restart the last executed number is the highest number a
    pre-prepare was ever accepted for: a backup that has executed nothing and
    only received a pre-prepare for number 1 starts with number 1 executed, so it
    will never execute the block it has stored for it. *)
Theorem restart_skips_unexecuted :
  pc_LastExec stoppedBackup = 0 /\ executions stoppedBackup = [] /\
  pc_LastExec restartedBackup = 1 /\ pc_seqNo restartedBackup = 1 /\
  pc_blockStore restartedBackup !! BytesToHash "block one" = Some "block one".
Proof. split_and!; vm_compute; reflexivity. Qed.

Lemma blankCore_fields cfg db :
  pc_pset (blankCore (Block := string) cfg db) = ∅ /\ pc_db (blankCore (Block := string) cfg db) = db.
Proof. done. Qed.

Lemma sample_marshalPQ l : is_Some (env_marshalPQ (Block := string) l).
Proof. by eexists. Qed.

Lemma checkpoint_roundtrip_witness :
  exists r, restoreState (sample_cfg 1) (run (sample_cfg 1) 5)
      (blankCore (sample_cfg 1) (pc_db (persistCheckpoint 1230 "id" (sample_start 1)).2)) = (Ret tt, r) /\
    pc_chkpts r !! 1230 = Some (env_b64enc "id").
Proof.
  destruct (checkpoint_roundtrip (sample_cfg 1) (run (sample_cfg 1) 5) (sample_start 1) 1230 "id") as (_&H&_).
  - by vm_compute.
  - vm_compute. split; congruence.
  - assert (pc_db (sample_start 1) = ∅) as -> by (vm_compute; reflexivity). intros k [v Hv]. by rewrite lookup_empty in Hv.
  - exact H.
Defined.

Lemma pset_roundtrip_witness :
  exists w1,
    (set <- restorePQSet "pset" ;;
     for_each set (fun e => modify (fun w => w <| pc_pset ::= <[pq_SequenceNumber e := e]> |>)))
      (blankCore (Block := string) (sample_cfg 1) (pc_db (persistPSet (sample_cfg 1) stoppedBackup).2))
    = (Ret tt, w1) /\ pc_pset w1 = computedPSet (sample_cfg 1) stoppedBackup.
Proof.
  apply (pset_roundtrip (sample_cfg 1) stoppedBackup).
  - assert (pc_pset stoppedBackup = ∅) as -> by (vm_compute; reflexivity). apply map_Forall_empty.
  - apply blankCore_fields.
  - apply blankCore_fields.
  - apply sample_marshalPQ.
Defined.
