(* ===== verification/StateDB.v ===== *)
(** * StateDB: the account state and its journal

    Models [core/state/statedb.go], [state_object.go] and [journal.go] with the
    commitment field [CMT] the project adds to every account: the live objects
    over the account trie, the dirty flags, the journal entries and their [undo],
    snapshots and [IntermediateRoot].  An object is a pointer in the
    Go code; it is always reached through the map of live objects, so a method
    of an object is a change of the map at its address.  Contract storage, logs
    and preimages, which only the interpreter changes, are left out; the code of
    an account stands for its code hash. *)
From S2P Require Import Prelude.
From S2P Require Import Messages.

(** ** Addresses *)

Definition AddressLength : nat := 20.

(** [Address.SetBytes] on a zero address: the last 20 bytes. *)
Definition BytesToAddress (b : string) : string :=
  let b := if decide (AddressLength < String.length b)%nat
           then drop_bytes (String.length b - AddressLength) b else b in
  String.append (zeros (AddressLength - String.length b)) b.

Definition zeroHash : string := zeros 32.

(** The address of the RIPEMD precompile, which [touchChange.undo] exempts. *)
Definition ripemd : string := String.append (zeros 19) (String (Ascii.ascii_of_nat 3) EmptyString).

(** ** Objects *)

(** [Account]: what the trie stores. *)
Record Account := mkAccount {
  ac_Nonce : Z;
  ac_Balance : Z;
  ac_CMT : string;
  ac_Code : string;
}.

(** [stateObject]; [so_watched] tells that [onDirty] is not nil. *)
Record stateObject := mkObject {
  so_data : Account;
  so_suicided : bool;
  so_touched : bool;
  so_deleted : bool;
  so_watched : bool;
}.

(** [newObject] of a zero [Account{}] and of one read from the trie. *)
Definition emptyAccount : Account := mkAccount 0 0 zeroHash EmptyString.
Definition newObject (data : Account) : stateObject := mkObject data false false false true.

(** [stateObject.empty]. *)
Definition empty (o : stateObject) : bool :=
  (ac_Nonce (so_data o) =? 0) && (ac_Balance (so_data o) =? 0)
  && bool_decide (ac_Code (so_data o) = EmptyString).

(** The journal entries of the state that is modelled. *)
Inductive journalEntry :=
| createObjectChange (account : string)
| resetObjectChange (account : string) (prev : stateObject)
| suicideChange (account : string) (prev : bool) (prevbalance : Z)
| balanceChange (account : string) (prev : Z)
| nonceChange (account : string) (prev : Z)
| codeChange (account : string) (prevcode : string)
| refundChange (prev : Z)
| touchChange (account : string) (prev prevDirty : bool).

(** [StateDB]; the journal has its latest entry first, a revision is the pair of
    its id and its journal index. *)
Record StateDB := mkStateDB {
  sdb_trie : gmap string Account;
  sdb_objects : gmap string stateObject;
  sdb_dirty : gset string;
  sdb_destructed : gset string;
  sdb_refund : Z;
  sdb_journal : list journalEntry;
  sdb_revisions : list (nat * nat);
  sdb_next : nat;
}.

#[export] Instance Account_eta : Eta Account := fun r =>
  mkAccount (ac_Nonce r) (ac_Balance r) (ac_CMT r) (ac_Code r).
#[export] Instance stateObject_eta : Eta stateObject := fun r =>
  mkObject (so_data r) (so_suicided r) (so_touched r) (so_deleted r) (so_watched r).
#[export] Instance StateDB_eta : Eta StateDB := fun r =>
  mkStateDB (sdb_trie r) (sdb_objects r) (sdb_dirty r) (sdb_destructed r) (sdb_refund r)
    (sdb_journal r) (sdb_revisions r) (sdb_next r).

Local Abbreviation MS := (M StateDB).

(** [New]: a state over an account trie. *)
Definition New (trie : gmap string Account) : StateDB :=
  mkStateDB trie ∅ ∅ ∅ 0 [] [] 0.

(** ** Access to objects *)

Definition setStateObject (a : string) (o : stateObject) : MS unit :=
  modify (fun s => s <| sdb_objects ::= <[a := o]> |>).

(** [getStateObject]: a live object, or the account of the trie made live. *)
Definition getStateObject (a : string) : MS (option stateObject) :=
  s <- get ;;
  match sdb_objects s !! a with
  | Some o => ret (if so_deleted o then None else Some o)
  | None =>
      match sdb_trie s !! a with
      | None => ret None
      | Some data => setStateObject a (newObject data) ;; ret (Some (newObject data))
      end
  end.

(** A write through the pointer of the object at [a]. *)
Definition alterObject (a : string) (f : stateObject -> stateObject) : MS unit :=
  modify (fun s => s <| sdb_objects ::= alter f a |>).

(** The call of [onDirty], which happens once. *)
Definition onDirty (a : string) : MS unit :=
  s <- get ;;
  match sdb_objects s !! a with
  | Some o => when (so_watched o)
      (modify (fun s => s <| sdb_dirty ::= fun d => {[a]} ∪ d |>) ;;
       alterObject a (fun o => o <| so_watched := false |>))
  | None => ret tt
  end.

Definition alterData (a : string) (f : Account -> Account) : MS unit :=
  alterObject a (fun o => o <| so_data ::= f |>).

(** The unexported setters of [stateObject]. *)
Definition setNonce (a : string) (nonce : Z) : MS unit :=
  alterData a (fun d => d <| ac_Nonce := nonce |>) ;; onDirty a.
Definition setBalance (a : string) (amount : Z) : MS unit :=
  alterData a (fun d => d <| ac_Balance := amount |>) ;; onDirty a.
Definition setCMT (a : string) (cmt : string) : MS unit :=
  alterData a (fun d => d <| ac_CMT := cmt |>).
Definition setCode (a : string) (code : string) : MS unit :=
  alterData a (fun d => d <| ac_Code := code |>) ;; onDirty a.

Definition log (e : journalEntry) : MS unit := modify (fun s => s <| sdb_journal ::= cons e |>).

(** [createObject]; the new object is marked dirty before it is live. *)
Definition createObject (a : string) : MS (option stateObject) :=
  prev <- getStateObject a ;;
  modify (fun s => s <| sdb_dirty ::= fun d => {[a]} ∪ d |>) ;;
  log (match prev with
       | None => createObjectChange a
       | Some p => resetObjectChange a p
       end) ;;
  setStateObject a ((newObject emptyAccount) <| so_watched := false |>) ;;
  ret prev.

(** [GetOrNewStateObject]. *)
Definition GetOrNewStateObject (a : string) : MS unit :=
  o <- getStateObject a ;;
  match o with
  | Some _ => ret tt
  | None => createObject a ;; ret tt
  end.

(** [CreateAccount]. *)
Definition CreateAccount (a : string) : MS unit :=
  prev <- createObject a ;;
  match prev with
  | None => ret tt
  | Some p => setBalance a (ac_Balance (so_data p)) ;; setCMT a (ac_CMT (so_data p))
  end.

(** ** Reading *)

(** A field of the account at [a], or [d] if there is none. *)
Definition read {A} (a : string) (f : Account -> A) (d : A) : MS A :=
  o <- getStateObject a ;;
  ret (match o with Some o => f (so_data o) | None => d end).

Definition Exist (a : string) : MS bool :=
  o <- getStateObject a ;; ret (match o with Some _ => true | None => false end).
Definition GetBalance (a : string) : MS Z := read a ac_Balance 0.
Definition GetNonce (a : string) : MS Z := read a ac_Nonce 0.
Definition GetCode (a : string) : MS string := read a ac_Code EmptyString.
Definition GetCMTBalance (a : string) : MS string := read a ac_CMT zeroHash.

(** ** Writing *)

(** A method of the object at [a], given the object. *)
Definition onObject (a : string) (k : stateObject -> MS unit) : MS unit :=
  GetOrNewStateObject a ;;
  s <- get ;;
  match sdb_objects s !! a with
  | Some o => k o
  | None => panic
  end.

(** The exported setters of [stateObject], which log the previous value. *)
Definition SetBalance_object (a : string) (amount : Z) (o : stateObject) : MS unit :=
  log (balanceChange a (ac_Balance (so_data o))) ;; setBalance a amount.

Definition touch (a : string) (o : stateObject) : MS unit :=
  log (touchChange a (so_touched o) (negb (so_watched o))) ;;
  onDirty a ;;
  alterObject a (fun o => o <| so_touched := true |>).

Definition AddBalance (a : string) (amount : Z) : MS unit :=
  onObject a (fun o =>
    if amount =? 0 then when (empty o) (touch a o)
    else SetBalance_object a (ac_Balance (so_data o) + amount) o).

Definition SubBalance (a : string) (amount : Z) : MS unit :=
  onObject a (fun o =>
    if amount =? 0 then ret tt
    else SetBalance_object a (ac_Balance (so_data o) - amount) o).

Definition SetBalance (a : string) (amount : Z) : MS unit :=
  onObject a (SetBalance_object a amount).

Definition SetNonce (a : string) (nonce : Z) : MS unit :=
  onObject a (fun o => log (nonceChange a (ac_Nonce (so_data o))) ;; setNonce a nonce).

Definition SetCode (a : string) (code : string) : MS unit :=
  onObject a (fun o => log (codeChange a (ac_Code (so_data o))) ;; setCode a code).

(** [SetCMT] writes no journal entry. *)
Definition SetCMT (a : string) (cmt : string) : MS unit :=
  onObject a (fun _ => setCMT a cmt).

Definition AddRefund (gas : Z) : MS unit :=
  s <- get ;;
  log (refundChange (sdb_refund s)) ;;
  modify (fun s => s <| sdb_refund := sdb_refund s + gas |>).

(** [Suicide]. *)
Definition Suicide (a : string) : MS bool :=
  o <- getStateObject a ;;
  match o with
  | None => ret false
  | Some o =>
      log (suicideChange a (so_suicided o) (ac_Balance (so_data o))) ;;
      alterObject a (fun o => o <| so_suicided := true |>) ;; onDirty a ;;
      alterData a (fun d => d <| ac_Balance := 0 |>) ;;
      modify (fun s => s <| sdb_destructed ::= fun d => {[a]} ∪ d |>) ;;
      ret true
  end.

(** ** Snapshots *)

Definition Snapshot : MS nat :=
  s <- get ;;
  modify (fun s => s <| sdb_revisions ::= fun r => r ++ [(sdb_next s, length (sdb_journal s))] |>
                     <| sdb_next := S (sdb_next s) |>) ;;
  ret (sdb_next s).

(** The object an [undo] writes to, which must exist. *)
Definition liveObject (a : string) (k : MS unit) : MS unit :=
  o <- getStateObject a ;;
  match o with Some _ => k | None => panic end.

(** [undo] of each entry. *)
Definition undo (e : journalEntry) : MS unit :=
  match e with
  | createObjectChange a =>
      modify (fun s => s <| sdb_objects ::= delete a |> <| sdb_dirty ::= fun d => d ∖ {[a]} |>)
  | resetObjectChange a prev => setStateObject a prev
  | suicideChange a prev prevbalance =>
      o <- getStateObject a ;;
      match o with
      | None => ret tt
      | Some _ =>
          alterObject a (fun o => o <| so_suicided := prev |>) ;;
          setBalance a prevbalance ;;
          when (negb prev) (modify (fun s => s <| sdb_destructed ::= fun d => d ∖ {[a]} |>))
      end
  | balanceChange a prev => liveObject a (setBalance a prev)
  | nonceChange a prev => liveObject a (setNonce a prev)
  | codeChange a prevcode => liveObject a (setCode a prevcode)
  | refundChange prev => modify (fun s => s <| sdb_refund := prev |>)
  | touchChange a prev prevDirty =>
      when (negb prev && negb (bool_decide (a = ripemd)))
        (liveObject a (alterObject a (fun o => o <| so_touched := prev |>)) ;;
         when (negb prevDirty) (modify (fun s => s <| sdb_dirty ::= fun d => d ∖ {[a]} |>)))
  end.

(** [RevertToSnapshot]: the first revision whose id is not smaller must be the
    one asked for. *)
Definition RevertToSnapshot (revid : nat) : MS unit :=
  s <- get ;;
  match list_find (fun r => (revid <= r.1)%nat) (sdb_revisions s) with
  | Some (idx, (id, snapshot)) =>
      if decide (id = revid) then
        for_each (take (length (sdb_journal s) - snapshot) (sdb_journal s)) undo ;;
        modify (fun s => s <| sdb_journal ::= fun j => drop (length j - snapshot) j |>
                           <| sdb_revisions ::= take idx |>)
      else panic
  | None => panic
  end.

(** ** Roots *)

Definition clearJournalAndRefund : MS unit :=
  modify (fun s => s <| sdb_journal := [] |> <| sdb_revisions := [] |> <| sdb_refund := 0 |>).

(** [updateStateObject]: RLP cannot encode a negative balance, and the error of
    the encoding is a panic. *)
Definition updateStateObject (a : string) (o : stateObject) : MS unit :=
  if ac_Balance (so_data o) <? 0 then panic
  else modify (fun s => s <| sdb_trie ::= <[a := so_data o]> |>).

Definition deleteStateObject (a : string) : MS unit :=
  alterObject a (fun o => o <| so_deleted := true |>) ;;
  modify (fun s => s <| sdb_trie ::= delete a |>).

(** The loop body of [IntermediateRoot]. *)
Definition flush (deleteEmptyObjects : bool) (a : string) : MS unit :=
  s <- get ;;
  match sdb_objects s !! a with
  | None => panic
  | Some o => if so_suicided o || (deleteEmptyObjects && empty o)
              then deleteStateObject a else updateStateObject a o
  end.

(** [IntermediateRoot]; the order of the dirty addresses does not matter, the
    bodies touch different accounts. *)
Definition IntermediateRoot (deleteEmptyObjects : bool) : MS unit :=
  s <- get ;;
  for_each (elements (sdb_dirty s)) (flush deleteEmptyObjects) ;;
  clearJournalAndRefund.

(** ** What a state tells about an account *)

(** The account at an address and whether it has been suicided, or nothing. *)
Definition view (s : StateDB) (a : string) : option (Account * bool) :=
  match sdb_objects s !! a with
  | Some o => if so_deleted o then None else Some (so_data o, so_suicided o)
  | None => (fun d => (d, false)) <$> sdb_trie s !! a
  end.

(** A deleted object is gone from the trie and was suicided or empty, and revision
    ids are below the next one. *)
Definition sdb_wf (s : StateDB) : Prop :=
  (forall a o, sdb_objects s !! a = Some o -> so_deleted o = true ->
     sdb_trie s !! a = None /\ so_suicided o || empty o = true) /\
  Forall (fun r => r.1 < sdb_next s)%nat (sdb_revisions s).

(** Two states are equivalent when they agree on every account, on the trie and
    on the refund; what is live, dirty or logged may differ. *)
#[export] Instance StateDB_equiv : Equiv StateDB := fun s t =>
  sdb_trie s = sdb_trie t /\ sdb_refund s = sdb_refund t /\ forall a, view s a = view t a.

#[export] Instance StateDB_equivalence : Equivalence (≡@{StateDB}).
Proof.
  split.
  - done.
  - intros s t (?&?&?). by split_and!.
  - intros s t u (?&?&E1) (?&?&E2). split_and!; [congruence..|]. intros a. by rewrite E1.
Qed.

#[export] Instance view_proper : Proper ((≡) ==> (=) ==> (=)) view.
Proof. intros s t (_&_&E) a ? <-. apply E. Qed.

(** The parts of a state that only logging, snapshots and roots change. *)
Definition same_book (s s' : StateDB) : Prop :=
  sdb_trie s' = sdb_trie s /\ sdb_refund s' = sdb_refund s /\ sdb_journal s' = sdb_journal s /\
  sdb_revisions s' = sdb_revisions s /\ sdb_next s' = sdb_next s.

#[export] Instance same_book_po : PreOrder same_book.
Proof. split; [by intros s|]. intros s t u (?&?&?&?&?) (?&?&?&?&?). split_and!; congruence. Qed.

(** [writes a o s s']: [s'] is [s] with the object [o] live at [a]. *)
Definition writes (a : string) (o : stateObject) (s s' : StateDB) : Prop :=
  sdb_objects s' = <[a := o]> (sdb_objects s) /\ same_book s s'.

Lemma view_live s a o : sdb_objects s !! a = Some o -> so_deleted o = false ->
  view s a = Some (so_data o, so_suicided o).
Proof. unfold view. by intros -> ->. Qed.

Lemma writes_view a o s s' b :
  writes a o s s' -> so_deleted o = false ->
  view s' b = if decide (a = b) then Some (so_data o, so_suicided o) else view s b.
Proof.
  intros (E&Et&_) Hd. unfold view. rewrite E, Et. case_decide as Hab.
  - subst b. by rewrite lookup_insert_eq, Hd.
  - by rewrite lookup_insert_ne.
Qed.

Lemma writes_wf a o s s' : writes a o s s' -> so_deleted o = false -> sdb_wf s -> sdb_wf s'.
Proof.
  intros (E&Et&_&_&Er&En) Hd [Hwf Hr]. split; [|by rewrite Er, En]. intros b o' Hb Ho'.
  rewrite E in Hb. rewrite Et. destruct (decide (a = b)) as [->|Hab].
  - rewrite lookup_insert_eq in Hb. congruence.
  - rewrite lookup_insert_ne in Hb by done. by eapply Hwf.
Qed.

Lemma writes_trans a o o' s s' s'' : writes a o s s' -> writes a o' s' s'' -> writes a o' s s''.
Proof.
  intros [E1 B1] [E2 B2]. split; [|by etransitivity]. by rewrite E2, E1, insert_insert_eq.
Qed.

(** ** What the accessors and setters do to the live objects *)

(** What [getStateObject] returns: the object that is then live, if the state
    tells of an account. *)
Lemma getStateObject_spec a s :
  exists s', getStateObject a s =
      (Ret (match view s a with Some _ => sdb_objects s' !! a | None => None end), s')
    /\ same_book s s' /\ s' ≡ s /\ (sdb_wf s -> sdb_wf s')
    /\ (forall d, view s a = Some d ->
         exists o, sdb_objects s' !! a = Some o /\ so_deleted o = false /\ (so_data o, so_suicided o) = d).
Proof.
  unfold getStateObject. cbn. unfold view at 1 2.
  destruct (sdb_objects s !! a) as [o|] eqn:Eo; cbn.
  - exists s. destruct (so_deleted o) eqn:Ed; [|rewrite Eo]; split_and!; try done.
    intros d [= <-]. by exists o.
  - destruct (sdb_trie s !! a) as [d|] eqn:Et; cbn; [|by exists s].
    set (s' := s <| sdb_objects ::= _ |>). exists s'.
    assert (Hw : writes a (newObject d) s s') by (by split).
    assert (Hl : sdb_objects s' !! a = Some (newObject d)) by (unfold s'; cbn; apply lookup_insert_eq).
    rewrite Hl. split_and!; try done.
    + split_and!; [done..|]. intros b. rewrite (writes_view _ _ _ _ _ Hw) by done.
      case_decide; [|done]. subst b. unfold view. by rewrite Eo, Et.
    + by eapply writes_wf.
    + intros ? [= <-]. by eexists.
Qed.

Lemma alterObject_spec a f s o :
  sdb_objects s !! a = Some o -> exists s', alterObject a f s = (Ret tt, s') /\ writes a (f o) s s'.
Proof.
  intros Eo. eexists. split; [done|]. split; [|done]. cbn. apply map_eq. intros b.
  destruct (decide (a = b)) as [->|]; [by rewrite lookup_alter_eq, lookup_insert_eq, Eo|].
  by rewrite lookup_alter_ne, lookup_insert_ne.
Qed.

Lemma onDirty_spec a s o :
  sdb_objects s !! a = Some o ->
  exists s', onDirty a s = (Ret tt, s') /\ writes a (o <| so_watched := false |>) s s'.
Proof.
  intros Eo. unfold onDirty. cbn. rewrite Eo. destruct (so_watched o) eqn:Ew; cbn [when].
  - unfold bind. cbn [modify]. set (s1 := s <| sdb_dirty ::= _ |>).
    destruct (alterObject_spec a (fun o => o <| so_watched := false |>) s1 o Eo) as (s'&->&Hw).
    exists s'. split; [done|]. destruct Hw as [E B]. split; [done|]. by destruct B.
  - exists s. split; [done|]. split; [|done]. rewrite insert_id; [done|]. rewrite Eo.
    destruct o. cbn in Ew. by subst.
Qed.

(** A setter: the data of the object changes, its flags of life do not. *)
Lemma setter_spec a f s o :
  sdb_objects s !! a = Some o ->
  exists s' o', (alterData a f ;; onDirty a) s = (Ret tt, s') /\ writes a o' s s' /\
    so_data o' = f (so_data o) /\ so_suicided o' = so_suicided o /\ so_deleted o' = so_deleted o.
Proof.
  intros Eo. destruct (alterObject_spec a (fun o => o <| so_data ::= f |>) s o Eo) as (s1&E1&W1).
  destruct (onDirty_spec a s1 (o <| so_data ::= f |>)) as (s2&E2&W2).
  { destruct W1 as [-> _]. by rewrite lookup_insert_eq. }
  exists s2, (o <| so_data ::= f |> <| so_watched := false |>). unfold bind, alterData. rewrite E1, E2.
  split; [done|]. split; [by eapply writes_trans|done].
Qed.

(** ** Undoing *)

(** The journal, the revisions and the next id are the same. *)
Definition same_log (s s' : StateDB) : Prop :=
  sdb_journal s' = sdb_journal s /\ sdb_revisions s' = sdb_revisions s /\ sdb_next s' = sdb_next s.

#[export] Instance same_log_po : PreOrder same_log.
Proof. split; [by intros s|]. intros s t u (?&?&?) (?&?&?). split_and!; congruence. Qed.

Lemma same_book_log s s' : same_book s s' -> same_log s s'.
Proof. by intros (?&?&?&?&?). Qed.

(** [undoes m s s']: run on any state equivalent to [s'], [m] returns to one
    equivalent to [s]. *)
Definition undoes (m : MS unit) (s s' : StateDB) : Prop :=
  forall t, sdb_wf t -> t ≡ s' ->
    exists t', m t = (Ret tt, t') /\ sdb_wf t' /\ t' ≡ s /\ same_log t t'.

Lemma undoes_ret s s' : s' ≡ s -> undoes (ret tt) s s'.
Proof. intros E t Hwf Ht. exists t. split_and!; [done..|by rewrite Ht|done]. Qed.

Lemma undoes_bind m1 m2 s s1 s2 : undoes m1 s1 s2 -> undoes m2 s s1 -> undoes (m1 ;; m2) s s2.
Proof.
  intros H1 H2 t Hwf Ht. destruct (H1 t Hwf Ht) as (t1&E1&Hwf1&Ht1&L1).
  destruct (H2 t1 Hwf1 Ht1) as (t2&E2&Hwf2&Ht2&L2). exists t2. unfold bind. rewrite E1.
  do 3 (split; [done|]). by transitivity t1.
Qed.

Lemma for_each_app {A} (l1 l2 : list A) (body : A -> MS unit) s :
  for_each (l1 ++ l2) body s = (for_each l1 body ;; for_each l2 body) s.
Proof.
  revert s. induction l1 as [|x l1 IH]; intros s; [done|]. cbn. unfold bind.
  destruct (body x s) as [[[]| |] s1]; [|done|done]. rewrite IH. done.
Qed.

(** The entries [J], latest first, lead back from [s'] to [s]. *)
Definition reverts (J : list journalEntry) (s s' : StateDB) : Prop :=
  undoes (for_each J undo) s s'.

Lemma reverts_app J1 J2 s s1 s2 : reverts J1 s s1 -> reverts J2 s1 s2 -> reverts (J2 ++ J1) s s2.
Proof.
  intros H1 H2 t Hwf Ht. rewrite for_each_app. by apply (undoes_bind _ _ _ _ _ H2 H1).
Qed.

Lemma reverts_one e s s' : undoes (undo e) s s' -> reverts [e] s s'.
Proof.
  intros H t Hwf Ht. cbn. destruct (H t Hwf Ht) as (t'&E&?). exists t'. unfold bind. by rewrite E.
Qed.

(** An undo that writes one field of a live object through [setter_spec]. *)
Lemma undoes_setter a f d d' b s s' :
  view s a = Some (d, b) -> view s' a = Some (d', b) -> f d' = d ->
  (forall a', a' <> a -> view s' a' = view s a') ->
  sdb_trie s' = sdb_trie s -> sdb_refund s' = sdb_refund s ->
  undoes (liveObject a (alterData a f ;; onDirty a)) s s'.
Proof.
  intros V V' Hf Ho Et Er t Hwf Ht. unfold liveObject.
  destruct (getStateObject_spec a t) as (t1&E1&B1&Q1&W1&L1). unfold bind at 1. rewrite E1.
  rewrite (view_proper _ _ Ht a a eq_refl), V' in L1 |- *.
  destruct (L1 _ eq_refl) as (o&Eo&Hd&[= <- <-]). rewrite Eo.
  destruct (setter_spec a f t1 o Eo) as (t2&o'&E2&W2&Hd'&Hs'&Hdel).
  exists t2. rewrite E2. split; [done|]. split; [|split].
  - eapply writes_wf; [exact W2|congruence|auto].
  - destruct Ht as (Ht1&Ht2&Ht3), Q1 as (Q11&Q12&Q13). destruct (W2) as [W21 (B21&B22&_)].
    split_and!; [congruence..|]. intros a'. erewrite writes_view; [|exact W2|congruence].
    case_decide as Ha; [subst a'; rewrite V, Hd', Hs', Hf; done|]. rewrite Q13, Ht3. auto.
  - transitivity t1; apply same_book_log; [exact B1|]. by destruct W2.
Qed.

(** ** Journaled actions *)

(** [acts m s r s']: [m] returns [r] and leads from [s] to [s'], and the entries
    it has logged lead back. *)
Definition acts {A} (m : MS A) (s : StateDB) (r : A) (s' : StateDB) : Prop :=
  m s = (Ret r, s') /\ sdb_wf s' /\ sdb_trie s' = sdb_trie s /\
  exists J R, sdb_journal s' = J ++ sdb_journal s /\ reverts J s s' /\
    sdb_revisions s' = sdb_revisions s ++ R /\
    Forall (fun x => sdb_next s <= x.1)%nat R /\ (sdb_next s <= sdb_next s')%nat.

Lemma acts_bind {A B} (m : MS A) (f : A -> MS B) s r s1 r2 s2 :
  acts m s r s1 -> acts (f r) s1 r2 s2 -> acts (bind m f) s r2 s2.
Proof.
  intros (E1&W1&T1&J1&R1&EJ1&V1&ER1&F1&N1) (E2&W2&T2&J2&R2&EJ2&V2&ER2&F2&N2).
  split; [unfold bind; by rewrite E1|]. split; [done|]. split; [congruence|].
  exists (J2 ++ J1), (R1 ++ R2). split_and!.
  - by rewrite EJ2, EJ1, app_assoc.
  - by eapply reverts_app.
  - by rewrite ER2, ER1, app_assoc.
  - apply Forall_app. split; [done|]. eapply Forall_impl; [exact F2|]. cbn. lia.
  - lia.
Qed.

(** An action that logs nothing and changes no account. *)
Lemma acts_silent {A} (m : MS A) s r s' :
  m s = (Ret r, s') -> same_book s s' -> s' ≡ s -> sdb_wf s' -> acts m s r s'.
Proof.
  intros E (B1&B2&B3&B4&B5) Q W. split_and!; [done..|]. exists [], []. rewrite B3, B4, B5, app_nil_r.
  split_and!; [done| |done|done|done]. by apply undoes_ret.
Qed.

(** An action that logs one entry. *)
Lemma acts_one {A} (m : MS A) s r s' e :
  m s = (Ret r, s') -> sdb_wf s' -> sdb_trie s' = sdb_trie s -> sdb_journal s' = e :: sdb_journal s ->
  sdb_revisions s' = sdb_revisions s -> sdb_next s' = sdb_next s -> undoes (undo e) s s' ->
  acts m s r s'.
Proof.
  intros E W T J R N U. split_and!; [done..|]. exists [e], []. rewrite J, R, N, app_nil_r.
  split_and!; [done| |done|done|done]. by apply reverts_one.
Qed.

Lemma acts_read a s : sdb_wf s ->
  exists s', acts (getStateObject a) s (match view s a with Some _ => sdb_objects s' !! a | None => None end) s'
    /\ s' ≡ s
    /\ (forall d, view s a = Some d ->
         exists o, sdb_objects s' !! a = Some o /\ so_deleted o = false /\ (so_data o, so_suicided o) = d).
Proof.
  intros Hwf. destruct (getStateObject_spec a s) as (s'&E&B&Q&W&L).
  exists s'. split; [|done]. apply acts_silent; auto.
Qed.

(** [updates a d s s']: the account at [a] is [d] in [s'], the others are those of [s]. *)
Definition updates (a : string) (d : Account * bool) (s s' : StateDB) : Prop :=
  sdb_refund s' = sdb_refund s /\
  forall b, view s' b = if decide (a = b) then Some d else view s b.

Lemma writes_updates a o s s' :
  writes a o s s' -> so_deleted o = false -> updates a (so_data o, so_suicided o) s s'.
Proof. intros W Hd. split; [by destruct W as [_ (?&?&_)]|]. intros b. by eapply writes_view. Qed.

(** The account at an address, the empty one if there is none. *)
Definition account (s : StateDB) (a : string) : Account * bool :=
  default (emptyAccount, false) (view s a).

(** The object an account has, as [getStateObject] returns it. *)
Definition object_of (s : StateDB) (a : string) (p : option stateObject) : Prop :=
  match p with
  | None => view s a = None
  | Some o => so_deleted o = false /\ view s a = Some (so_data o, so_suicided o)
  end.

Definition createEntry (a : string) (p : option stateObject) : journalEntry :=
  match p with None => createObjectChange a | Some o => resetObjectChange a o end.

(** The undo of a creation restores what was at the address. *)
Lemma undoes_create a p s s' :
  sdb_wf s -> object_of s a p -> (forall b, b <> a -> view s' b = view s b) ->
  sdb_trie s' = sdb_trie s -> sdb_refund s' = sdb_refund s -> undoes (undo (createEntry a p)) s s'.
Proof.
  intros Hwf Hp Hv Et Er t Wt (Ht1&Ht2&Ht3). destruct p as [o|]; cbn in *.
  - destruct Hp as [Hd Ho].
    assert (writes a o t (t <| sdb_objects ::= <[a := o]> |>)) as Hw by (by split).
    eexists. split; [done|]. split; [by eapply writes_wf|]. split; [|done].
    split; [by rewrite <- Et|]. split; [by rewrite <- Er|]. intros b.
    rewrite (writes_view _ _ _ _ _ Hw Hd). case_decide; [by subst b|]. rewrite Ht3. by apply Hv.
  - eexists. split; [done|]. split; [|split; [|done]].
    + split; [|apply Wt]. intros b o' Hb Ho'. cbn in Hb. apply lookup_delete_Some in Hb as [_ Hb].
      by eapply (proj1 Wt).
    + split; [by rewrite <- Et|]. split; [by rewrite <- Er|]. intros b. unfold view at 1. cbn.
      destruct (decide (a = b)) as [<-|Hb].
      * rewrite lookup_delete_eq, Ht1, Et, Hp. unfold view in Hp.
        destruct (sdb_objects s !! a) as [o1|] eqn:Eo1.
        -- destruct (so_deleted o1) eqn:Ed; [|done]. by rewrite (proj1 (proj1 Hwf _ _ Eo1 Ed)).
        -- by destruct (sdb_trie s !! a).
      * rewrite lookup_delete_ne by done. specialize (Ht3 b). unfold view at 1 in Ht3. rewrite Ht3. auto.
Qed.

(** [createObject]: an empty account replaces what was there. *)
Lemma createObject_step a s : sdb_wf s ->
  exists s' p, createObject a s = (Ret p, s') /\ object_of s a p /\
    updates a (emptyAccount, false) s s' /\
    sdb_objects s' !! a = Some ((newObject emptyAccount) <| so_watched := false |>) /\
    sdb_wf s' /\ sdb_trie s' = sdb_trie s /\ sdb_journal s' = createEntry a p :: sdb_journal s /\
    sdb_revisions s' = sdb_revisions s /\ sdb_next s' = sdb_next s.
Proof.
  intros Hwf. destruct (getStateObject_spec a s) as (s1&E1&(B1&B2&B3&B4&B5)&Q1&W1&L1).
  set (p := match view s a with Some _ => _ | None => None end) in *.
  set (o := (newObject emptyAccount) <| so_watched := false |>).
  set (s2 := s1 <| sdb_dirty ::= fun d => {[a]} ∪ d |> <| sdb_journal ::= cons (createEntry a p) |>).
  set (s3 := s2 <| sdb_objects ::= <[a := o]> |>).
  assert (writes a o s2 s3) as Hw by (by split).
  assert (forall b, view s2 b = view s1 b) as Hv by done.
  exists s3, p. split; [unfold createObject, bind; by rewrite E1|]. split; [|split; [|split]].
  - unfold p. destruct (view s a) as [d|] eqn:Ea; [|done]. destruct (L1 d eq_refl) as (o'&->&?&<-). done.
  - split; [done|]. intros b. rewrite (writes_view _ _ _ _ _ Hw) by done. case_decide; [done|].
    rewrite Hv. apply Q1.
  - cbn. apply lookup_insert_eq.
  - split; [eapply (writes_wf a o s2); [done..|by apply W1]|]. split_and!; try done.
    cbn. by rewrite B3.
Qed.

Lemma createObject_acts a s : sdb_wf s ->
  exists s' p, acts (createObject a) s p s' /\ updates a (emptyAccount, false) s s' /\
    sdb_objects s' !! a = Some ((newObject emptyAccount) <| so_watched := false |>).
Proof.
  intros Hwf. destruct (createObject_step a s Hwf) as (s'&p&E&Hp&U&Eo&W&T&J&R&N).
  exists s', p. split; [|done]. apply (acts_one _ _ _ _ (createEntry a p)); try done.
  apply undoes_create; [done|done| |done|apply U]. intros b Hb. rewrite (proj2 U). by rewrite decide_False.
Qed.

(** [GetOrNewStateObject]: the object is then live. *)
Lemma GetOrNewStateObject_acts a s : sdb_wf s ->
  exists s1 o, acts (GetOrNewStateObject a) s tt s1 /\ sdb_objects s1 !! a = Some o /\
    so_deleted o = false /\ (so_data o, so_suicided o) = account s a /\
    sdb_refund s1 = sdb_refund s /\ forall b, b <> a -> view s1 b = view s b.
Proof.
  intros Hwf. unfold GetOrNewStateObject. destruct (acts_read a s Hwf) as (s1&A1&Q1&L1).
  assert (sdb_wf s1) as W1 by apply A1. unfold account.
  destruct (view s a) as [d|] eqn:Ea.
  - destruct (L1 d eq_refl) as (o&Eo&Hd&Hdo). exists s1, o. split.
    + eapply acts_bind; [exact A1|]. rewrite Eo. by apply acts_silent.
    + split_and!; [done..|by destruct Q1 as (_&?&_)|]. intros b _. apply Q1.
  - destruct (createObject_acts a s1 W1) as (s2&p&A2&[U2 V2]&Eo).
    exists s2, ((newObject emptyAccount) <| so_watched := false |>). split.
    + eapply acts_bind; [exact A1|]. cbn. eapply acts_bind; [exact A2|]. apply acts_silent; [done..|apply A2].
    + split_and!; [done..|rewrite U2; by destruct Q1 as (_&?&_)|].
      intros b Hb. rewrite V2, decide_False by done. apply Q1.
Qed.

(** A method on the object at an address acts as its body does once the account
    is live. *)
Lemma onObject_acts a k s (P : StateDB -> Prop) : sdb_wf s ->
  (forall s1 o, sdb_wf s1 -> sdb_objects s1 !! a = Some o -> so_deleted o = false ->
     (so_data o, so_suicided o) = account s a -> sdb_refund s1 = sdb_refund s ->
     (forall b, b <> a -> view s1 b = view s b) -> exists s2, acts (k o) s1 tt s2 /\ P s2) ->
  exists s2, acts (onObject a k) s tt s2 /\ P s2.
Proof.
  intros Hwf Hk. unfold onObject.
  destruct (GetOrNewStateObject_acts a s Hwf) as (s1&o&A1&Eo&Hd&Ho&Hr&Hv).
  destruct (Hk s1 o) as (s2&A2&HP); try done; [apply A1|].
  exists s2. split; [|done]. eapply acts_bind; [exact A1|]. unfold bind, get. split; [by rewrite Eo; apply A2|apply A2].
Qed.

(** ** The operations *)

(** An exported setter: log the old value, set the new one. *)
Lemma logged_setter a e f g s o :
  sdb_wf s -> sdb_objects s !! a = Some o -> so_deleted o = false ->
  undo e = liveObject a (alterData a g ;; onDirty a) -> g (f (so_data o)) = so_data o ->
  exists s', acts (log e ;; (alterData a f ;; onDirty a)) s tt s' /\
             updates a (f (so_data o), so_suicided o) s s'.
Proof.
  intros Hwf Eo Hd Hu Hg. set (s1 := s <| sdb_journal ::= cons e |>).
  destruct (setter_spec a f s1 o Eo) as (s'&o'&E&W&Hd'&Hs'&Hdel).
  assert (writes a o' s (s' <| sdb_journal := sdb_journal s |>)) as W0
    by (destruct W as [? (?&?&?&?&?)]; by split).
  assert (updates a (f (so_data o), so_suicided o) s s') as U.
  { rewrite <- Hd', <- Hs'. destruct (writes_updates _ _ _ _ W0) as [U1 U2]; [congruence|].
    by split. }
  exists s'. split; [|done]. destruct W as [Wo (B1&B2&B3&B4&B5)].
  apply (acts_one _ _ _ _ e); try done.
  - eapply (writes_wf a o' s1); [by split|congruence|done].
  - rewrite Hu. eapply (undoes_setter a g (so_data o) (f (so_data o))).
    + by apply view_live.
    + rewrite (proj2 U). by rewrite decide_True.
    + done.
    + intros a' Ha. rewrite (proj2 U). by rewrite decide_False.
    + done.
    + done.
Qed.

(** What each operation does, with the account it finds or creates. *)
Lemma updates_account a d s1 s s2 :
  (forall b, b <> a -> view s1 b = view s b) -> sdb_refund s1 = sdb_refund s ->
  updates a d s1 s2 -> updates a d s s2.
Proof.
  intros Hv Hr [Ur Uv]. split; [congruence|]. intros b. rewrite Uv. case_decide; [done|]. by apply Hv.
Qed.

Lemma SetNonce_acts a n s : sdb_wf s ->
  exists s', acts (SetNonce a n) s tt s' /\
    updates a ((account s a).1 <| ac_Nonce := n |>, (account s a).2) s s'.
Proof.
  intros Hwf. apply onObject_acts; [done|]. intros s1 o W Eo Hd Ho Hr Hv.
  destruct (logged_setter a (nonceChange a (ac_Nonce (so_data o))) (fun d => d <| ac_Nonce := n |>)
              (fun d => d <| ac_Nonce := ac_Nonce (so_data o) |>) s1 o) as (s2&A&U); try done.
  { by destruct (so_data o). }
  exists s2. split; [done|]. eapply updates_account; [done..|]. by rewrite <- Ho.
Qed.

Lemma SetCode_acts a c s : sdb_wf s ->
  exists s', acts (SetCode a c) s tt s' /\
    updates a ((account s a).1 <| ac_Code := c |>, (account s a).2) s s'.
Proof.
  intros Hwf. apply onObject_acts; [done|]. intros s1 o W Eo Hd Ho Hr Hv.
  destruct (logged_setter a (codeChange a (ac_Code (so_data o))) (fun d => d <| ac_Code := c |>)
              (fun d => d <| ac_Code := ac_Code (so_data o) |>) s1 o) as (s2&A&U); try done.
  { by destruct (so_data o). }
  exists s2. split; [done|]. eapply updates_account; [done..|]. by rewrite <- Ho.
Qed.

Lemma SetBalance_object_acts a x s o :
  sdb_wf s -> sdb_objects s !! a = Some o -> so_deleted o = false ->
  exists s', acts (SetBalance_object a x o) s tt s' /\
    updates a ((so_data o) <| ac_Balance := x |>, so_suicided o) s s'.
Proof.
  intros W Eo Hd.
  apply (logged_setter a (balanceChange a (ac_Balance (so_data o))) (fun d => d <| ac_Balance := x |>)
              (fun d => d <| ac_Balance := ac_Balance (so_data o) |>) s o); try done.
  by destruct (so_data o).
Qed.

Lemma SetBalance_acts a x s : sdb_wf s ->
  exists s', acts (SetBalance a x) s tt s' /\
    updates a ((account s a).1 <| ac_Balance := x |>, (account s a).2) s s'.
Proof.
  intros Hwf. apply onObject_acts; [done|]. intros s1 o W Eo Hd Ho Hr Hv.
  destruct (SetBalance_object_acts a x s1 o W Eo Hd) as (s2&A&U).
  exists s2. split; [done|]. eapply updates_account; [done..|]. by rewrite <- Ho.
Qed.

(** A balance that does not change. *)
Lemma balance_same (d : Account) x : x = ac_Balance d -> d <| ac_Balance := x |> = d.
Proof. intros ->. by destruct d. Qed.

Lemma updates_self a o s :
  sdb_objects s !! a = Some o -> so_deleted o = false -> updates a (so_data o, so_suicided o) s s.
Proof.
  intros Eo Hd. split; [done|]. intros b. case_decide; [subst b; by apply view_live|done].
Qed.

(** The undo of a touch changes no account. *)
Lemma undoes_touch a prev prevDirty d s s' :
  view s a = Some d -> s' ≡ s -> undoes (undo (touchChange a prev prevDirty)) s s'.
Proof.
  intros V Q t Wt Ht. assert (t ≡ s) as Hts by (by transitivity s'). cbn.
  destruct (negb prev && _); cbn [when]; [|by exists t].
  destruct (getStateObject_spec a t) as (t1&Et&Bt&Qt&Wt1&Lt). unfold liveObject, bind. rewrite Et.
  rewrite (proj2 (proj2 Hts) a), V in Lt |- *. destruct (Lt _ eq_refl) as (ot&Eot&Hdt&Hot). rewrite Eot.
  destruct (alterObject_spec a (fun o1 => o1 <| so_touched := prev |>) t1 ot Eot) as (t2&Et2&Wt2).
  pose proof (f_equal snd Et2) as Heq. cbn in Heq. subst t2.
  set (t2 := t1 <| sdb_objects ::= _ |>) in *. destruct (writes_updates _ _ _ _ Wt2 Hdt) as [U1 U2].
  assert (t2 ≡ s) as Q2.
  { transitivity t1; [|by transitivity t]. split; [by destruct Wt2 as [_ [? _]]|]. split; [done|].
    intros b. rewrite U2. case_decide; [subst b|done]. symmetry. by apply (view_live t1 a ot). }
  assert (sdb_wf t2) as Wf2 by (eapply writes_wf; [exact Wt2|done|auto]).
  assert (same_log t t2) as Lg by (transitivity t1; apply same_book_log; [done|by destruct Wt2]).
  destruct (negb _); cbn [when]; (eexists; split; [done|]);
    (split; [exact Wf2|]; split; [exact Q2|exact Lg]).
Qed.

Lemma touch_acts a s o :
  sdb_wf s -> sdb_objects s !! a = Some o -> so_deleted o = false ->
  exists s', acts (touch a o) s tt s' /\ updates a (so_data o, so_suicided o) s s'.
Proof.
  intros W Eo Hd. set (e := touchChange a (so_touched o) (negb (so_watched o))).
  set (s1 := s <| sdb_journal ::= cons e |>).
  destruct (onDirty_spec a s1 o Eo) as (s2&E2&W2).
  destruct (alterObject_spec a (fun o => o <| so_touched := true |>) s2 (o <| so_watched := false |>))
    as (s3&E3&W3).
  { destruct W2 as [-> _]. apply lookup_insert_eq. }
  pose proof (writes_trans _ _ _ _ _ _ W2 W3) as W13. destruct (W13) as [Wo (B1&B2&B3&B4&B5)].
  set (o' := _ <| so_touched := true |>) in *.
  assert (updates a (so_data o, so_suicided o) s s3) as U
    by (apply (writes_updates a o' s1 s3 W13 Hd)).
  assert (E : touch a o s = (Ret tt, s3))
    by (change (touch a o s) with ((onDirty a ;; alterObject a (fun o => o <| so_touched := true |>)) s1);
        unfold bind; by rewrite E2, E3).
  exists s3. split; [|done]. apply (acts_one _ _ _ _ e); try done.
  - by eapply (writes_wf a o' s1).
  - eapply undoes_touch; [by apply view_live|]. split_and!; [done..|]. intros b. rewrite (proj2 U).
    case_decide; [subst b|done]. symmetry. by apply view_live.
Qed.

Lemma AddBalance_acts a x s : sdb_wf s ->
  exists s', acts (AddBalance a x) s tt s' /\
    updates a ((account s a).1 <| ac_Balance ::= fun b => b + x |>, (account s a).2) s s'.
Proof.
  intros Hwf. apply onObject_acts; [done|]. intros s1 o W Eo Hd Ho Hr Hv. rewrite <- Ho. cbn.
  destruct (x =? 0) eqn:Ex.
  - apply Z.eqb_eq in Ex. subst x.
    assert (exists s2, acts (when (empty o) (touch a o)) s1 tt s2 /\ updates a (so_data o, so_suicided o) s1 s2)
      as (s2&A&U).
    { destruct (empty o); [by apply touch_acts|]. exists s1. split; [by apply acts_silent|].
      by apply updates_self. }
    exists s2. split; [done|]. eapply updates_account; [done..|].
    replace ((so_data o) <| ac_Balance ::= _ |>) with (so_data o); [done|].
    destruct (so_data o). unfold upd. cbn. by rewrite Z.add_0_r.
  - destruct (SetBalance_object_acts a (ac_Balance (so_data o) + x) s1 o W Eo Hd) as (s2&A&U).
    exists s2. split; [done|]. by eapply updates_account.
Qed.

Lemma SubBalance_acts a x s : sdb_wf s ->
  exists s', acts (SubBalance a x) s tt s' /\
    updates a ((account s a).1 <| ac_Balance ::= fun b => b - x |>, (account s a).2) s s'.
Proof.
  intros Hwf. apply onObject_acts; [done|]. intros s1 o W Eo Hd Ho Hr Hv. rewrite <- Ho. cbn.
  destruct (x =? 0) eqn:Ex.
  - apply Z.eqb_eq in Ex. subst x. exists s1. split; [by apply acts_silent|].
    eapply updates_account; [done..|].
    replace ((so_data o) <| ac_Balance ::= _ |>) with (so_data o); [by apply updates_self|].
    destruct (so_data o). unfold upd. cbn. by rewrite Z.sub_0_r.
  - destruct (SetBalance_object_acts a (ac_Balance (so_data o) - x) s1 o W Eo Hd) as (s2&A&U).
    exists s2. split; [done|]. by eapply updates_account.
Qed.

(** [CreateAccount] keeps the balance and the commitment. *)
Lemma CreateAccount_acts a s : sdb_wf s ->
  exists s', acts (CreateAccount a) s tt s' /\
    updates a (mkAccount 0 (ac_Balance (account s a).1) (ac_CMT (account s a).1) EmptyString, false) s s'.
Proof.
  intros Hwf. destruct (createObject_step a s Hwf) as (s1&p&E&Hp&U&Eo&W&T&J&R&N).
  unfold account, CreateAccount. destruct p as [o|].
  - destruct Hp as [Hd Ho]. rewrite Ho. cbn.
    destruct (setter_spec a (fun d => d <| ac_Balance := ac_Balance (so_data o) |>) s1 _ Eo)
      as (s2&o2&E2&W2&Hd2&Hs2&Hdel2).
    destruct (alterObject_spec a (fun x => x <| so_data ::= fun d => d <| ac_CMT := ac_CMT (so_data o) |> |>)
                s2 o2) as (s3&E3&W3).
    { destruct W2 as [-> _]. apply lookup_insert_eq. }
    pose proof (writes_trans _ _ _ _ _ _ W2 W3) as W13.
    set (o3 := o2 <| so_data ::= _ |>) in *.
    assert (Hdel3 : so_deleted o3 = false) by exact Hdel2.
    assert (updates a (so_data o3, so_suicided o3) s s3) as U3.
    { eapply updates_account; [|apply U|by apply (writes_updates a o3 s1)].
      intros b Hb. rewrite (proj2 U). by rewrite decide_False. }
    destruct (W13) as [_ (B1&B2&B3&B4&B5)].
    exists s3. split.
    + apply (acts_one _ _ _ _ (createEntry a (Some o))); try congruence.
      * unfold bind at 1. rewrite E. unfold bind at 1, setBalance. rewrite E2. exact E3.
      * by eapply (writes_wf a o3 s1).
      * apply undoes_create; [done|done| |congruence|apply U3].
        intros b Hb. rewrite (proj2 U3). by rewrite decide_False.
    + replace (mkAccount _ _ _ _, false) with (so_data o3, so_suicided o3); [done|].
      cbn. by rewrite Hd2, Hs2.
  - cbn in Hp. rewrite Hp. cbn. exists s1. split; [|done].
    apply (acts_one _ _ _ _ (createEntry a None)); try done.
    + unfold bind. by rewrite E.
    + apply undoes_create; [done|done| |done|apply U].
      intros b Hb. rewrite (proj2 U). by rewrite decide_False.
Qed.

Lemma AddRefund_acts g s : sdb_wf s ->
  exists s', acts (AddRefund g) s tt s' /\ sdb_refund s' = sdb_refund s + g /\ forall a, view s' a = view s a.
Proof.
  intros Hwf.
  exists (s <| sdb_journal ::= cons (refundChange (sdb_refund s)) |> <| sdb_refund := sdb_refund s + g |>).
  split; [|done]. apply (acts_one _ _ _ _ (refundChange (sdb_refund s))); try done.
  intros t Wt (Ht1&Ht2&Ht3). eexists. split; [done|]. split; [exact Wt|]. by split.
Qed.

(** The undo of a suicide restores the balance and the mark. *)
Lemma undoes_suicide a o s s' :
  view s a = Some (so_data o, so_suicided o) ->
  updates a ((so_data o) <| ac_Balance := 0 |>, true) s s' -> sdb_trie s' = sdb_trie s ->
  undoes (undo (suicideChange a (so_suicided o) (ac_Balance (so_data o)))) s s'.
Proof.
  intros Va U T t Wt Ht. unfold undo.
  destruct (getStateObject_spec a t) as (t1&Et&Bt&Qt&Wt1&Lt).
  unfold bind at 1. rewrite Et. rewrite (proj2 (proj2 Ht) a), (proj2 U), decide_True in Lt |- * by done.
  destruct (Lt _ eq_refl) as (ot&Eot&Hdt&[= Hot1 Hot2]). rewrite Eot.
  destruct (alterObject_spec a (fun x => x <| so_suicided := so_suicided o |>) t1 ot Eot) as (t2&Et2&Wt2).
  destruct (setter_spec a (fun d => d <| ac_Balance := ac_Balance (so_data o) |>) t2
              (ot <| so_suicided := so_suicided o |>)) as (t3&o3&Et3&Wt3&Hd3&Hs3&Hdel3).
  { destruct Wt2 as [-> _]. apply lookup_insert_eq. }
  unfold bind at 1. rewrite Et2. unfold bind at 1, setBalance. rewrite Et3.
  pose proof (writes_trans _ _ _ _ _ _ Wt2 Wt3) as Wt13.
  assert (Hdel : so_deleted o3 = false) by (rewrite Hdel3; exact Hdt).
  destruct (writes_updates _ _ _ _ Wt13 Hdel) as [U1 U2].
  assert (t3 ≡ s) as Q3.
  { destruct (Wt13) as [_ (T1&T2&_)], Qt as (Q1&Q2&Q3), Ht as (H1&H2&H3), U as [Ur Uv].
    split; [congruence|]. split; [congruence|]. intros b. rewrite U2. case_decide as Hb.
    - subst b. rewrite Va, Hd3, Hs3. cbn. rewrite Hot1. by destruct o as [[] ? ? ? ?].
    - rewrite Q3, H3, Uv. by rewrite decide_False. }
  assert (sdb_wf t3) as Wf3 by (eapply writes_wf; [exact Wt13|exact Hdel|by apply Wt1]).
  assert (same_log t t3) as Lg by (transitivity t1; apply same_book_log; [done|by destruct Wt13]).
  destruct (negb _); cbn [when]; (eexists; split; [done|]);
    (split; [exact Wf3|]; split; [exact Q3|exact Lg]).
Qed.

Lemma Suicide_acts a s : sdb_wf s ->
  exists s' r, acts (Suicide a) s r s' /\
    match view s a with
    | None => s' ≡ s
    | Some (d, _) => updates a (d <| ac_Balance := 0 |>, true) s s'
    end.
Proof.
  intros Hwf. destruct (acts_read a s Hwf) as (s0&A0&Q0&L0).
  assert (sdb_wf s0) as W0 by apply A0. pose proof (proj2 (proj2 Q0) a) as Va.
  destruct (view s a) as [d|] eqn:Ea.
  2:{ exists s0, false. split; [|done]. eapply acts_bind; [exact A0|]. by apply acts_silent. }
  destruct (L0 d eq_refl) as (o&Eo&Hd&<-). cbn.
  set (e := suicideChange a (so_suicided o) (ac_Balance (so_data o))).
  set (s1 := s0 <| sdb_journal ::= cons e |>).
  destruct (alterObject_spec a (fun o => o <| so_suicided := true |>) s1 o Eo) as (s2&E2&W2).
  destruct (onDirty_spec a s2 (o <| so_suicided := true |>)) as (s3&E3&W3).
  { destruct W2 as [-> _]. apply lookup_insert_eq. }
  destruct (alterObject_spec a (fun o => o <| so_data ::= fun d => d <| ac_Balance := 0 |> |>) s3
              (o <| so_suicided := true |> <| so_watched := false |>)) as (s4&E4&W4).
  { destruct W3 as [-> _]. apply lookup_insert_eq. }
  pose proof (writes_trans _ _ _ _ _ _ (writes_trans _ _ _ _ _ _ W2 W3) W4) as W14.
  set (o' := _ <| so_data ::= _ |>) in *.
  set (s5 := s4 <| sdb_destructed ::= fun d => {[a]} ∪ d |>).
  assert (writes a o' s1 s5) as W15 by (destruct W14 as [? (?&?&?&?&?)]; by split).
  assert (updates a (so_data o', so_suicided o') s0 s5) as U by (by apply (writes_updates a o' s1)).
  exists s5, true. split.
  - eapply acts_bind; [exact A0|]. rewrite Eo. destruct (W15) as [_ (B1&B2&B3&B4&B5)].
    apply (acts_one _ _ _ _ e); try done.
    + unfold bind at 1, log at 1, modify at 1. fold e. fold s1.
      unfold bind at 1. rewrite E2. unfold bind at 1. rewrite E3. unfold bind at 1, alterData. by rewrite E4.
    + by eapply (writes_wf a o' s1).
    + by eapply (undoes_suicide a o).
  - eapply updates_account; [intros b _; apply Q0|apply Q0|exact U].
Qed.

(** [SetCMT] changes the commitment, and does not log it. *)
Lemma SetCMT_run a c s : sdb_wf s ->
  exists s', SetCMT a c s = (Ret tt, s') /\ sdb_wf s' /\
    updates a ((account s a).1 <| ac_CMT := c |>, (account s a).2) s s'.
Proof.
  intros Hwf. destruct (GetOrNewStateObject_acts a s Hwf) as (s1&o&A1&Eo&Hd&Ho&Hr&Hv).
  destruct (alterObject_spec a (fun x => x <| so_data ::= fun d => d <| ac_CMT := c |> |>) s1 o Eo)
    as (s2&E2&W2).
  exists s2. split; [|split].
  - unfold SetCMT, onObject, bind at 1. destruct A1 as [-> _]. unfold bind, get. by rewrite Eo.
  - eapply writes_wf; [exact W2|exact Hd|by apply A1].
  - eapply updates_account; [done..|]. rewrite <- Ho. by apply (writes_updates _ _ _ _ W2).
Qed.

(** ** Roots keep used accounts *)

(** An account without code that has sent a transaction or marks a serial number. *)
Definition spent (s : StateDB) (a : string) : Prop :=
  exists d, view s a = Some (d, false) /\ ac_Nonce d <> 0 /\ ac_Code d = EmptyString.

#[export] Instance spent_proper : Proper ((≡) ==> (=) ==> iff) spent.
Proof. intros s t E a ? <-. unfold spent. by setoid_rewrite E. Qed.

(** From [s] to [s'], what was spent stays spent. *)
Definition keepsSpent (s s' : StateDB) : Prop := forall a, spent s a -> spent s' a.
#[export] Instance keepsSpent_po : PreOrder keepsSpent.
Proof. split; [by intros s a|]. intros s t u H1 H2 a. auto. Qed.

Lemma updates_keepsSpent a d s s' :
  updates a d s s' ->
  (spent s a -> d.2 = false /\ ac_Nonce d.1 <> 0 /\ ac_Code d.1 = EmptyString) -> keepsSpent s s'.
Proof.
  intros [_ U] Hd b Hb. unfold spent. rewrite U. case_decide; [|exact Hb]. subst b.
  destruct (Hd Hb) as (H1&H2&H3). destruct d as [d ?]. cbn in *. subst. by exists d.
Qed.

Lemma spent_account s a : spent s a ->
  (account s a).2 = false /\ ac_Nonce (account s a).1 <> 0 /\ ac_Code (account s a).1 = EmptyString.
Proof. intros (d&E&?&?). unfold account. by rewrite E. Qed.

Lemma flush_keeps a s s' : sdb_wf s -> flush true a s = (Ret tt, s') -> sdb_wf s' /\ keepsSpent s s'.
Proof.
  intros [Wd Wr]. unfold flush, bind, get. destruct (sdb_objects s !! a) as [o|] eqn:Eo; [|done].
  destruct (so_suicided o || (true && empty o)) eqn:Ed; cbn in Ed.
  - unfold deleteStateObject, bind. destruct (alterObject_spec a (fun o => o <| so_deleted := true |>) s o Eo)
      as (s1&->&W1&(B1&B2&B3&B4&B5)). intros [= <-]. split.
    + split; [|cbn; by rewrite B4, B5]. intros b o' Hb Ho'. cbn in Hb |- *. rewrite W1 in Hb. rewrite B1.
      destruct (decide (a = b)) as [->|Hab].
      * rewrite lookup_insert_eq in Hb. injection Hb as <-. by rewrite lookup_delete_eq.
      * rewrite lookup_insert_ne in Hb by done. rewrite lookup_delete_ne by done. by apply Wd.
    + intros b (d&Vb&Hn&Hc). exists d. split; [|done]. revert Vb. unfold view. cbn. rewrite W1, B1.
      destruct (decide (a = b)) as [->|Hab].
      * rewrite Eo. destruct (so_deleted o); [done|]. intros [= <- Hs]. rewrite Hs in Ed. cbn in Ed.
        unfold empty in Ed. rewrite !andb_true_iff, Z.eqb_eq in Ed. by destruct Ed as [[? _] _].
      * by rewrite lookup_insert_ne, lookup_delete_ne by done.
  - unfold updateStateObject. case_match; [done|]. intros [= <-].
    assert (so_deleted o = false) as Hd.
    { destruct (so_deleted o) eqn:E; [|done]. destruct (Wd a o Eo E) as [_ ?]. congruence. }
    assert (forall b, view (s <| sdb_trie ::= <[a:=so_data o]> |>) b = view s b) as Hv.
    { intros b. unfold view. cbn. destruct (decide (a = b)) as [->|Hab]; [by rewrite Eo, Hd|].
      by rewrite lookup_insert_ne. }
    split.
    + split; [|done]. intros b o' Hb Ho'. cbn in Hb |- *. destruct (decide (a = b)) as [->|Hab]; [congruence|].
      rewrite lookup_insert_ne by done. by apply Wd.
    + intros b. unfold spent. by rewrite Hv.
Qed.

(** [IntermediateRoot] keeps them. *)
Lemma IntermediateRoot_keeps s s' :
  sdb_wf s -> IntermediateRoot true s = (Ret tt, s') -> sdb_wf s' /\ keepsSpent s s' /\ sdb_refund s' = 0.
Proof.
  unfold IntermediateRoot, bind at 1, get. generalize (elements (sdb_dirty s)) as l. intros l.
  revert s. induction l as [|a l IH]; intros s W; cbn.
  - intros [= <-]. split; [|split; [|done]]; [|by intros a Ha].
    split; [|by constructor]. exact (proj1 W).
  - unfold bind at 1 2. destruct (flush true a s) as [[[]| |] s1] eqn:E; [|done|done]. intros Hs.
    destruct (flush_keeps a s s1 W E) as [W1 K1]. destruct (IH s1 W1 Hs) as (W2&K2&R2).
    split; [done|]. split; [by transitivity s1|done].
Qed.

(** ** Programs of calls *)

(** What one call of the virtual machine does to the state: changes, and calls
    inside calls, each in a snapshot of its own to which it reverts when it
    fails. *)
#[local] Set Warnings "-register-all".
Inductive op :=
| OAddBalance (a : string) (x : Z)
| OSubBalance (a : string) (x : Z)
| OSetBalance (a : string) (x : Z)
| OSetNonce (a : string) (n : Z)
| OSetCode (a : string) (c : string)
| OCreateAccount (a : string)
| OAddRefund (g : Z)
| OSuicide (a : string)
| OCall (body : list op) (fails : bool).

Fixpoint exec (o : op) : MS unit :=
  match o with
  | OAddBalance a x => AddBalance a x
  | OSubBalance a x => SubBalance a x
  | OSetBalance a x => SetBalance a x
  | OSetNonce a n => SetNonce a n
  | OSetCode a c => SetCode a c
  | OCreateAccount a => CreateAccount a
  | OAddRefund g => AddRefund g
  | OSuicide a => Suicide a ;; ret tt
  | OCall body fails =>
      id <- Snapshot ;;
      (fix execAll (l : list op) : MS unit :=
         match l with [] => ret tt | o :: l' => exec o ;; execAll l' end) body ;;
      when fails (RevertToSnapshot id)
  end.

Fixpoint execAll (l : list op) : MS unit :=
  match l with [] => ret tt | o :: l' => exec o ;; execAll l' end.

Lemma exec_call body fails :
  exec (OCall body fails) = (id <- Snapshot ;; execAll body ;; when fails (RevertToSnapshot id)).
Proof. done. Qed.

Definition isCall (o : op) : bool := match o with OCall _ _ => true | _ => false end.

(** Induction over operations with calls inside calls. *)
Lemma op_nested_ind (P : op -> Prop) :
  (forall body fails, Forall P body -> P (OCall body fails)) ->
  (forall o, isCall o = false -> P o) -> forall o, P o.
Proof.
  intros Hcall Hbase. fix IH 1. intros o. destruct (isCall o) eqn:E; [|by apply Hbase].
  destruct o; try discriminate. apply Hcall. clear E. revert body. fix all 1. intros [|o l];
    [constructor|constructor; [apply IH|apply all]].
Qed.

Lemma acts_wf {A} (m : MS A) s r s' : acts m s r s' -> sdb_wf s'.
Proof. by intros (_&?&_). Qed.

(** A call is balanced: it can be run from every state, and its journal leads back. *)
Definition balanced (m : MS unit) : Prop := forall s, sdb_wf s -> exists s', acts m s tt s'.

Lemma base_balanced o : isCall o = false -> balanced (exec o).
Proof.
  intros Hb s W. destruct o; try done; cbn.
  - destruct (AddBalance_acts a x s W) as (s'&?&_). by exists s'.
  - destruct (SubBalance_acts a x s W) as (s'&?&_). by exists s'.
  - destruct (SetBalance_acts a x s W) as (s'&?&_). by exists s'.
  - destruct (SetNonce_acts a n s W) as (s'&?&_). by exists s'.
  - destruct (SetCode_acts a c s W) as (s'&?&_). by exists s'.
  - destruct (CreateAccount_acts a s W) as (s'&?&_). by exists s'.
  - destruct (AddRefund_acts g s W) as (s'&?&_). by exists s'.
  - destruct (Suicide_acts a s W) as (s'&r&A&_). exists s'. eapply acts_bind; [exact A|].
    apply acts_silent; [done|done|done|by eapply acts_wf].
Qed.

Lemma execAll_balanced l : Forall (fun o => balanced (exec o)) l -> balanced (execAll l).
Proof.
  induction 1 as [|o l Ho _ IH]; intros s W; cbn.
  - exists s. by apply acts_silent.
  - destruct (Ho s W) as (s1&A1). destruct (IH s1 (acts_wf _ _ _ _ A1)) as (s2&A2).
    exists s2. by eapply acts_bind.
Qed.

(** The state after [Snapshot]. *)
Definition snapped (s : StateDB) : StateDB :=
  s <| sdb_revisions ::= fun r => r ++ [(sdb_next s, length (sdb_journal s))] |>
    <| sdb_next := S (sdb_next s) |>.

Lemma Snapshot_acts s : sdb_wf s -> acts Snapshot s (sdb_next s) (snapped s).
Proof.
  intros [W1 W2]. split; [done|]. split; [|split; [done|]].
  - split; [exact W1|]. cbn. apply Forall_app. split; [eapply Forall_impl; [exact W2|cbn; lia]|].
    constructor; [cbn; lia|done].
  - exists [], [(sdb_next s, length (sdb_journal s))]. split_and!; [done|by apply undoes_ret|done| |cbn; lia].
    constructor; [cbn; lia|done].
Qed.

(** Reverting to the snapshot taken before a journaled action. *)
Lemma revert_snapped m s s2 : sdb_wf s -> acts m (snapped s) tt s2 ->
  exists s3, RevertToSnapshot (sdb_next s) s2 = (Ret tt, s3) /\ sdb_wf s3 /\ s3 ≡ s /\
    sdb_journal s3 = sdb_journal s /\ sdb_revisions s3 = sdb_revisions s /\
    (sdb_next s <= sdb_next s3)%nat.
Proof.
  intros [W1 W2] (E&W&T&J&R&EJ&V&ER&F&N). unfold RevertToSnapshot, get, bind at 1.
  assert (list_find (fun r => (sdb_next s <= r.1)%nat) (sdb_revisions s2)
          = Some (length (sdb_revisions s), (sdb_next s, length (sdb_journal s)))) as ->.
  { rewrite ER. cbn [snapped]. change (sdb_revisions (snapped s))
      with (sdb_revisions s ++ [(sdb_next s, length (sdb_journal s))]).
    rewrite <- app_assoc. apply list_find_Some. split_and!.
    - by rewrite lookup_app_r, Nat.sub_diag by lia.
    - cbn. lia.
    - intros j y Hj Hlt. rewrite lookup_app_l in Hj by done. cbn.
      pose proof (proj1 (Forall_lookup _ _) W2 j y Hj) as Hy. cbn in Hy. lia. }
  rewrite decide_True by done. rewrite EJ, length_app. change (sdb_journal (snapped s)) with (sdb_journal s).
  rewrite Nat.add_sub, take_app_length.
  destruct (V s2 W (reflexivity s2)) as (t&Et&Wt&Qt&(L1&L2&L3)). unfold bind. rewrite Et. cbn.
  eexists. split; [done|]. split_and!.
  - split; [apply Wt|]. cbn. rewrite L2, ER, L3. change (sdb_revisions (snapped s))
      with (sdb_revisions s ++ [(sdb_next s, length (sdb_journal s))]).
    rewrite <- app_assoc, take_app_length. eapply Forall_impl; [exact W2|]. cbn in N |- *. lia.
  - exact Qt.
  - cbn. rewrite L1, EJ. change (sdb_journal (snapped s)) with (sdb_journal s).
    by rewrite length_app, Nat.add_sub, drop_app_length.
  - cbn. rewrite L2, ER. change (sdb_revisions (snapped s))
      with (sdb_revisions s ++ [(sdb_next s, length (sdb_journal s))]).
    by rewrite <- app_assoc, take_app_length.
  - cbn in N |- *. rewrite L3. lia.
Qed.

Lemma revert_run m s s2 s3 :
  acts m (snapped s) tt s2 -> RevertToSnapshot (sdb_next s) s2 = (Ret tt, s3) ->
  (id <- Snapshot ;; m ;; RevertToSnapshot id) s = (Ret tt, s3).
Proof.
  intros [E2 _] E3.
  change ((id <- Snapshot ;; m ;; RevertToSnapshot id) s)
    with ((m ;; RevertToSnapshot (sdb_next s)) (snapped s)).
  unfold bind. by rewrite E2.
Qed.

Lemma exec_balanced o : balanced (exec o).
Proof.
  induction o as [body fails IH|o Hb] using op_nested_ind; [|by apply base_balanced].
  intros s W. rewrite exec_call. pose proof (Snapshot_acts s W) as A0.
  destruct (execAll_balanced body IH _ (acts_wf _ _ _ _ A0)) as (s2&A2). destruct fails; cbn.
  - destruct (revert_snapped _ s s2 W A2) as (s3&E3&W3&Q3&J3&R3&N3). exists s3.
    split; [|split; [done|split; [apply Q3|]]].
    + by eapply revert_run.
    + exists [], []. rewrite app_nil_r. split_and!; [done|by apply undoes_ret|done|done|done].
  - exists s2. eapply acts_bind; [exact A0|]. eapply acts_bind; [exact A2|].
    apply acts_silent; [done|done|done|by eapply acts_wf].
Qed.

(** C29: reverting undoes everything: whatever the journaled changes and the calls
    inside calls made since a snapshot, [RevertToSnapshot] returns, and leaves
    every account, the refund, the journal and the revisions as they were. *)
Theorem revert_restores (s : StateDB) (body : list op) :
  sdb_wf s ->
  exists s3, (id <- Snapshot ;; execAll body ;; RevertToSnapshot id) s = (Ret tt, s3) /\
    (forall a, view s3 a = view s a) /\ sdb_refund s3 = sdb_refund s /\
    sdb_journal s3 = sdb_journal s /\ sdb_revisions s3 = sdb_revisions s.
Proof.
  intros W. pose proof (Snapshot_acts s W) as A0.
  destruct (execAll_balanced body (Forall_true _ _ exec_balanced) _ (acts_wf _ _ _ _ A0)) as (s2&A2).
  destruct (revert_snapped _ s s2 W A2) as (s3&E3&_&(_&Qr&Qv)&J3&R3&_).
  exists s3. split_and!; [by eapply revert_run|done..].
Qed.

Lemma New_wf trie : sdb_wf (New trie).
Proof. split; [intros a o H; cbn in H; by rewrite lookup_empty in H|constructor]. Qed.

Lemma revert_restores_witness :
  let s := New {[ "a" := mkAccount 0 100 zeroHash EmptyString ]} in
  let body := [OSubBalance "a" 30; OCall [OCreateAccount "b"; OAddBalance "b" 30; OSuicide "b"] true;
               OCall [OSetNonce "a" 7; OSetCode "b" "code"; OAddRefund 5] false] in
  exists s3, (id <- Snapshot ;; execAll body ;; RevertToSnapshot id) s = (Ret tt, s3) /\
    (forall a, view s3 a = view s a) /\ sdb_refund s3 = 0 /\
    sdb_journal s3 = [] /\ sdb_revisions s3 = [].
Proof.
  apply (revert_restores (New {[ "a" := mkAccount 0 100 zeroHash EmptyString ]})
    [OSubBalance "a" 30; OCall [OCreateAccount "b"; OAddBalance "b" 30; OSuicide "b"] true;
     OCall [OSetNonce "a" 7; OSetCode "b" "code"; OAddRefund 5] false]).
  apply New_wf.
Defined.
