(* ===== verification/StateRoot.v ===== *)
(** * StateRoot: the intermediate root is stable

    What [IntermediateRoot] of StateDB.v writes to the trie, and that computing it
    again changes nothing: the miner and the validator of a block both compute it
    more than once. *)
From S2P Require Import Prelude.
From S2P Require Import StateDB.

(** What [flush] makes of the account at an address. *)
Definition flushed (e : bool) (o : stateObject) : option Account :=
  if so_suicided o || (e && empty o) then None else Some (so_data o).

(** Objects that differ in the mark of deletion only. *)
Definition same_object (o o' : stateObject) : Prop := o' = o \/ o' = o <| so_deleted := true |>.

Lemma same_flushed e o o' : same_object o o' -> flushed e o' = flushed e o.
Proof. by intros [->| ->]. Qed.

Definition flushable (e : bool) (s : StateDB) (a : string) : Prop :=
  exists o, sdb_objects s !! a = Some o /\ (flushed e o = None \/ 0 <= ac_Balance (so_data o)).
Definition flushed_at (e : bool) (s : StateDB) (a : string) : option Account :=
  sdb_objects s !! a ≫= flushed e.

(** What a state and one after some flushes have in common. *)
Record flushes (e : bool) (l : list string) (s s1 : StateDB) : Prop := {
  fl_trie : forall k, sdb_trie s1 !! k = if decide (k ∈ l) then flushed_at e s k else sdb_trie s !! k;
  fl_objects : forall k, option_Forall2 same_object (sdb_objects s !! k) (sdb_objects s1 !! k);
  fl_dirty : sdb_dirty s1 = sdb_dirty s;
}.

Lemma flush_inv e a s s1 : flush e a s = (Ret tt, s1) ->
  exists o, sdb_objects s !! a = Some o /\ (forall k, sdb_trie s1 !! k = if decide (k = a) then flushed e o else sdb_trie s !! k) /\
    (forall k, sdb_objects s1 !! k = if decide (k = a /\ flushed e o = None) then Some (o <| so_deleted := true |>)
                                     else sdb_objects s !! k) /\
    (flushed e o = None \/ 0 <= ac_Balance (so_data o)) /\ sdb_dirty s1 = sdb_dirty s.
Proof.
  unfold flush. rewrite bind_get. destruct (sdb_objects s !! a) as [o|] eqn:Eo; [|done].
  intros H. exists o. split; [done|]. unfold flushed. destruct (so_suicided o || (e && empty o)).
  - assert (sdb_trie s1 = delete a (sdb_trie s) /\ sdb_dirty s1 = sdb_dirty s /\
      sdb_objects s1 = alter (fun o => o <| so_deleted := true |>) a (sdb_objects s)) as (->&->&->) by by injection H as <-.
    split_and!; [| |by left|done].
    + intros k. case_decide as E; [subst; by rewrite lookup_delete_eq|by rewrite lookup_delete_ne].
    + intros k. case_decide as E; [destruct E as [-> _]; by rewrite lookup_alter_eq, Eo|].
      rewrite lookup_alter_ne; [done|]. intros ->. by destruct E.
  - unfold updateStateObject in H. destruct (Z.ltb_spec (ac_Balance (so_data o)) 0); [done|].
    assert (sdb_trie s1 = <[a := so_data o]> (sdb_trie s) /\ sdb_dirty s1 = sdb_dirty s /\
      sdb_objects s1 = sdb_objects s) as (->&->&->) by by injection H as <-.
    split_and!; [| |by right|done].
    + intros k. case_decide as E; [subst; by rewrite lookup_insert_eq|by rewrite lookup_insert_ne].
    + intros k. case_decide as E; [by destruct E|done].
Qed.
Lemma same_flushed_at e s s1 k : option_Forall2 same_object (sdb_objects s !! k) (sdb_objects s1 !! k) ->
  flushed_at e s1 k = flushed_at e s k /\ (flushable e s k -> flushable e s1 k).
Proof.
  unfold flushed_at, flushable. destruct 1 as [o o' Ho|]; [|done]. cbn. rewrite (same_flushed e o o' Ho).
  split; [done|]. intros (o0&[= <-]&Hb). exists o'. rewrite (same_flushed e o o' Ho). by destruct Ho as [->| ->].
Qed.

Instance same_object_trans : Transitive same_object.
Proof. unfold same_object. intros o1 o2 o3 [->| ->] [->| ->]; auto. Qed.

Lemma flush_flushes e a s s1 : flush e a s = (Ret tt, s1) -> flushes e [a] s s1 /\ flushable e s a.
Proof.
  intros (o&Eo&Ht&Ho&Hb&Hd)%flush_inv. split; [|by exists o]. split; [| |done].
  - intros k. rewrite Ht. unfold flushed_at. case_decide as E.
    + subst. rewrite decide_True by by left. by rewrite Eo.
    + rewrite decide_False; [done|]. by rewrite list_elem_of_singleton.
  - intros k. rewrite Ho. case_decide as E; [destruct E as [-> _]; rewrite Eo; constructor; by right|].
    destruct (sdb_objects s !! k); constructor. by left.
Qed.

Lemma flushes_trans e l1 l2 s s1 s2 : flushes e l1 s s1 -> flushes e l2 s1 s2 -> flushes e (l1 ++ l2) s s2.
Proof.
  intros [T1 O1 D1] [T2 O2 D2]. split; [| |congruence].
  - intros k. rewrite T2, T1. destruct (same_flushed_at e s s1 k (O1 k)) as [-> _].
    destruct (decide (k ∈ l2)) as [H2|H2]; [rewrite decide_True; [done|]; apply elem_of_app; by right|].
    apply decide_ext. rewrite elem_of_app. naive_solver.
  - intros k. by etrans.
Qed.

Lemma flush_all e l s s1 : for_each l (flush e) s = (Ret tt, s1) -> flushes e l s s1 /\ Forall (flushable e s) l.
Proof.
  revert s. induction l as [|a l IH]; intros s; cbn [for_each].
  - intros [= <-]. split; [|constructor]. split; [|intros k; destruct (sdb_objects s !! k); constructor; by left|done].
    intros k. rewrite decide_False; [done|]. apply not_elem_of_nil.
  - intros ([]&s2&[F1 Ha]%flush_flushes&[F2 Hl]%IH)%bind_inv. split; [by apply (flushes_trans e [a] l s s2)|].
    constructor; [done|]. eapply Forall_impl; [exact Hl|]. intros k (o&Eo&Hb). unfold flushable.
    pose proof (fl_objects _ _ _ _ F1 k) as Hk. rewrite Eo in Hk. inversion Hk as [o0 ? Ho E1 E2|]; subst. exists o0.
    split; [done|]. rewrite <- (same_flushed e o0 o Ho). by destruct Ho as [->| ->].
Qed.

Lemma flush_runs e l s : Forall (flushable e s) l -> exists s1, for_each l (flush e) s = (Ret tt, s1).
Proof.
  revert s. induction l as [|a l IH]; intros s Hl; [by exists s|]. apply Forall_cons in Hl as [Ha Hl].
  assert (exists s1, flush e a s = (Ret tt, s1)) as [s1 E1].
  { destruct Ha as (o&Eo&Hb). unfold flush. rewrite bind_get, Eo. unfold flushed in Hb.
    destruct (so_suicided o || (e && empty o)); [by eexists|]. unfold updateStateObject.
    destruct Hb as [?|Hb]; [done|]. rewrite (proj2 (Z.ltb_ge _ _)) by done. by eexists. }
  destruct (IH s1) as [s2 E2].
  { eapply Forall_impl; [exact Hl|]. intros k. apply same_flushed_at.
    by destruct (flush_flushes e a s s1 E1) as [[] _]. }
  exists s2. cbn [for_each]. by rewrite (bind_eq _ _ _ _ _ E1).
Qed.

(** The intermediate root of a state that has just computed it is the same. *)
Lemma IntermediateRoot_again e s s1 : IntermediateRoot e s = (Ret tt, s1) ->
  exists s2, IntermediateRoot e s1 = (Ret tt, s2) /\ sdb_trie s2 = sdb_trie s1.
Proof.
  unfold IntermediateRoot at 1. rewrite bind_get. intros ([]&s0&[F1 Hl]%flush_all&H)%bind_inv. injection H as <-.
  set (l := elements (sdb_dirty s)) in *.
  destruct (flush_runs e l s0) as [s2 E2].
  { eapply Forall_impl; [exact Hl|]. intros k. apply same_flushed_at. by destruct F1. }
  set (s1 := ((s0 <| sdb_journal := [] |>) <| sdb_revisions := [] |>) <| sdb_refund := 0 |>).
  assert (Forall (flushable e s1) l) as Hl1.
  { eapply Forall_impl; [exact Hl|]. intros k Hk. pose proof (fl_objects _ _ _ _ F1 k) as Ho.
    by apply (same_flushed_at e s s1 k Ho). }
  destruct (flush_runs e l s1 Hl1) as [s3 E3]. destruct (flush_all e l s1 s3 E3) as [F3 _].
  eexists. split.
  - unfold IntermediateRoot. rewrite bind_get. change (sdb_dirty s1) with (sdb_dirty s0). rewrite (fl_dirty _ _ _ _ F1).
    rewrite (bind_eq _ _ _ _ _ E3). done.
  - change (sdb_trie s3 = sdb_trie s0). apply map_eq. intros k. pose proof (fl_trie _ _ _ _ F1 k) as Hk.
    rewrite (fl_trie _ _ _ _ F3). change (sdb_trie s1 !! k) with (sdb_trie s0 !! k).
    destruct (same_flushed_at e s s1 k) as [-> _]; [exact (fl_objects _ _ _ _ F1 k)|].
    by destruct (decide (k ∈ l)).
Qed.

(** Computing a root ends, if with a panic. *)
Lemma IntermediateRoot_ends e st : (IntermediateRoot e st).1 <> OutOfFuel.
Proof.
  unfold IntermediateRoot. rewrite bind_get.
  assert (forall l s, (for_each l (flush e) s).1 <> OutOfFuel) as H.
  { induction l as [|a l IH]; intros s; [done|]. cbn [for_each]. unfold bind.
    assert ((flush e a s).1 <> OutOfFuel) as Hf.
    { unfold flush. rewrite bind_get. destruct (sdb_objects s !! a) as [o|]; [|done].
      destruct (so_suicided o || _); [done|]. unfold updateStateObject. by destruct (_ <? _). }
    destruct (flush e a s) as [[]]; [apply IH|done|done]. }
  unfold bind. specialize (H (elements (sdb_dirty st)) st). by destruct (for_each _ _ st) as [[]].
Qed.
