(* ===== verification/Tx.v ===== *)
(** * Tx: transactions, their hashes and their senders

    Models [core/types/transaction.go] and [transaction_signing.go]: the data of a
    transaction, the types and codes the project adds, the hash that identifies a
    transaction, and the derivation of its sender by the signer of its type, with
    the cache a transaction keeps of the sender derived last. RLP hashing, the
    hash of [libsnark] and the recovery of public keys are parameters. *)
From S2P Require Import Prelude.
From S2P Require Import Messages.
From S2P Require Import StateDB.

(** ** Constants *)

Definition TxNormal : Z := 0.
Definition TxDhibe : Z := 1.
Definition TxHeader : Z := 2.
Definition TxCrossChain : Z := 3.
Definition TxZK : Z := 4.

Definition TxConvert : Z := 1.
Definition TxRedeem : Z := 2.
Definition TxDeposit : Z := 3.
Definition TxWithdraw : Z := 4.

(** ** Byte strings *)

(** The first [n] bytes of [s]: [s[:n]]. *)
Fixpoint take_bytes (n : nat) (s : string) : string :=
  match n, s with
  | S n', String c s' => String c (take_bytes n' s')
  | _, _ => EmptyString
  end.

(** A string of [n] bytes [c]. *)
Fixpoint repeat_byte (c : Ascii.ascii) (n : nat) : string :=
  match n with O => EmptyString | S n' => String c (repeat_byte c n') end.

(** The last [n] bytes of a number, the most significant first. *)
Fixpoint be_bytes (n : nat) (z : Z) : string :=
  match n with
  | O => EmptyString
  | S n' => String.append (be_bytes n' (z / 256)) (String (Ascii.ascii_of_N (Z.to_N (z mod 256))) EmptyString)
  end.

(** [copy(addr[:], b)] into a zero address: the first 20 bytes. *)
Definition copyAddress (b : string) : string :=
  let b := take_bytes AddressLength b in
  String.append b (zeros (AddressLength - String.length b)).

Definition byte_of (z : Z) : Z := z mod 256.

(** The address of 20 bytes [0xff], and the one [StringToAddress] makes of forty
    letters [f]. *)
Definition RootAccount : string := repeat_byte (Ascii.ascii_of_nat 255) 20.
Definition letters_f : string := repeat_byte (Ascii.ascii_of_nat 102) 20.

(** ** The data of a transaction *)

(** [txdata]; pointers are options. *)
Record Transaction := mkTransaction {
  tx_TxCode : Z;
  tx_ZKCMTbal : string;
  tx_ZKCMTfd : string;
  tx_ZKValue : Z;
  tx_ZKSN : string;
  tx_ZKProof : string;
  tx_AccountNonce : Z;
  tx_TxType : Z;
  tx_Price : Z;
  tx_GasLimit : Z;
  tx_Sender : option string;
  tx_Recipient : option string;
  tx_Amount : Z;
  tx_Payload : string;
  tx_Level : Z;
  tx_Headers : list string;
  tx_ZKHeader : string;
  tx_CrossTxProof : list string;
  tx_V : Z;
  tx_R : Z;
  tx_S : Z;
  tx_CrossChainSender : string;
  tx_CrossChainRecipient : string;
  tx_HibeSig : option string;
}.
#[export] Instance Transaction_eta : Eta Transaction := fun r =>
  mkTransaction (tx_TxCode r) (tx_ZKCMTbal r) (tx_ZKCMTfd r) (tx_ZKValue r) (tx_ZKSN r) (tx_ZKProof r)
    (tx_AccountNonce r) (tx_TxType r) (tx_Price r) (tx_GasLimit r) (tx_Sender r) (tx_Recipient r)
    (tx_Amount r) (tx_Payload r) (tx_Level r) (tx_Headers r) (tx_ZKHeader r) (tx_CrossTxProof r)
    (tx_V r) (tx_R r) (tx_S r) (tx_CrossChainSender r) (tx_CrossChainRecipient r) (tx_HibeSig r).
#[export] Instance Transaction_eq : EqDecision Transaction.
Proof. solve_decision. Defined.

(** [Cost]: amount + price * gas limit. *)
Definition Cost (tx : Transaction) : Z := tx_Price tx * tx_GasLimit tx + tx_Amount tx.

(** [newTransaction]. *)
Definition newTransaction (nonce : Z) (to : option string) (amount gasLimit gasPrice : Z) (data : string) : Transaction :=
  mkTransaction 0 (zeros 32) (zeros 32) 0 (zeros 32) EmptyString nonce 0 gasPrice gasLimit None to
    amount data 0 [] (zeros 32) [] 0 0 0 (zeros 20) (zeros 20) None.

(** [NewHeaderTransaction], given the random recipient it draws. *)
Definition NewHeaderTransaction (random : string) (nonce : Z) (headers : list (option string))
    (addr : option string) (level : Z) : Transaction :=
  (newTransaction nonce addr 0 0 0 EmptyString)
    <| tx_Headers := omap id headers |> <| tx_TxType := TxHeader |> <| tx_Sender := addr |>
    <| tx_Recipient := Some random |> <| tx_Level := level |> <| tx_GasLimit := 90000 |>.

(** [SetCrossAddress] and [SetRequestCrossAddress]: a cross-chain transaction goes
    through the root account on both chains. *)
Definition SetCrossAddress (tx : Transaction) : option Transaction :=
  to ← tx_Recipient tx; from ← tx_Sender tx;
  Some (tx <| tx_CrossChainRecipient := to |> <| tx_Recipient := Some RootAccount |>
           <| tx_CrossChainSender := from |>).
Definition SetRequestCrossAddress (tx : Transaction) : option Transaction :=
  from ← tx_Sender tx; to ← tx_Recipient tx;
  Some (tx <| tx_CrossChainSender := from |> <| tx_Sender := Some RootAccount |>
           <| tx_CrossChainRecipient := to |>).

(** The bytes of an identity up to the first zero byte, at most [n]. *)
Fixpoint idBytes (n : nat) (b : string) : string :=
  match n, b with
  | S n', String c b' => if decide (c = Ascii.zero) then EmptyString else String c (idBytes n' b')
  | _, _ => EmptyString
  end.

(** [Transaction.ID]: the node an address stands for. *)
Definition ID (tx : Transaction) : option string :=
  if (tx_TxType tx =? TxCrossChain) && negb (bool_decide (tx_Recipient tx = None))
     && negb (bool_decide (tx_Recipient tx = Some RootAccount))
  then idBytes 18 <$> tx_Recipient tx
  else if (tx_TxType tx =? TxCrossChain) && bool_decide (tx_Recipient tx = None) then None
  else idBytes 18 <$> tx_Sender tx.

(** [Address.ID] of [common/types.go] and [PID]: the parent drops two bytes. *)
Definition addressID (a : string) : string := idBytes 16 a.
Definition PID (id : string) : option string :=
  if decide (0 < String.length id)%nat then
    if decide (2 <= String.length id)%nat then Some (take_bytes (String.length id - 2) id) else None
  else Some EmptyString.

(** ** Hashes *)

(** The values [rlpHash] is applied to. *)
#[local] Set Warnings "-register-all".
Inductive rlpVal :=
| RInt (z : Z)
| RBytes (s : string)
| RNil
| RList (l : list rlpVal).

Definition RPtr (p : option string) : rlpVal := match p with Some s => RBytes s | None => RNil end.

(** What is not modelled: Keccak over RLP, the [hash] of the C++ library on the
    hexadecimal digits of the bytes, public key recovery, HIBE verification under
    the keys of the node, and the length of the RLP encoding. *)
Class TxEnv := {
  rlpHash : list rlpVal -> string;
  zkHash : string -> string;
  Ecrecover : string -> string -> option string;
  hibeVerify : string -> string -> Z -> string -> bool;
  txSize : Transaction -> Z;
}.

Section Hashes.
Context `{TE : TxEnv}.

Definition noHeader : string := repeat_byte (Ascii.ascii_of_nat 255) 32.

(** [ZKHashTx], which [Hash] returns; without a sender it panics. *)
Definition ZKHashTx (tx : Transaction) : option string :=
  from ← tx_Sender tx;
  Some (zkHash (tx_ZKSN tx +:+ tx_ZKCMTbal tx +:+ default noHeader (head (tx_Headers tx)) +:+ from)).

(** The fields a payment signs, without and with the chain identifier. *)
Definition payment (tx : Transaction) : list rlpVal :=
  [RInt (tx_AccountNonce tx); RInt (tx_Price tx); RInt (tx_GasLimit tx); RPtr (tx_Recipient tx);
   RInt (tx_Amount tx); RBytes (tx_Payload tx)].

(** [HibeHash]. *)
Definition HibeHash (tx : Transaction) : string :=
  if tx_TxType tx =? TxDhibe then
    rlpHash (payment tx ++ [RInt (tx_TxType tx); RInt (tx_Level tx); RPtr (tx_Sender tx)])
  else if tx_TxType tx =? TxHeader then
    rlpHash [RList (map RBytes (tx_Headers tx)); RInt (tx_TxType tx); RInt (tx_Level tx);
             RPtr (tx_Sender tx); RPtr (tx_Recipient tx)]
  else if tx_TxType tx =? TxCrossChain then
    rlpHash (payment tx ++ [RInt (tx_TxType tx); RInt (tx_Level tx); RPtr (tx_Sender tx);
                            RBytes (tx_CrossChainSender tx); RBytes (tx_CrossChainRecipient tx)])
  else zeros 32.
End Hashes.

(** ** Signers *)

Inductive Signer :=
| ZKSigner
| DHibeSigner
| EIP155Signer (chainId : Z)
| HomesteadSigner
| FrontierSigner.

(** [Equal] of the cached signer; that of [ZKSinger] is always true. *)
Definition signer_Equal (s s2 : Signer) : bool :=
  match s, s2 with
  | ZKSigner, _ => true
  | DHibeSigner, DHibeSigner => true
  | EIP155Signer c, EIP155Signer c2 => c2 =? c
  | HomesteadSigner, HomesteadSigner => true
  | FrontierSigner, FrontierSigner => true
  | _, _ => false
  end.

Inductive sigErr := ErrInvalidSig | ErrInvalidChainId | errInvalidPublicKey | errRecover.

(** [isProtectedV], [deriveChainId] and [deriveSigner]. *)
Definition isProtectedV (v : Z) : bool :=
  if v <? 256 then negb (v =? 27) && negb (v =? 28) else true.

Definition deriveChainId (v : Z) : Z :=
  if v <? two64 then if (v =? 27) || (v =? 28) then 0 else u64 (v - 35) / 2
  else (v - 35) / 2.

Definition deriveSigner (v : Z) : Signer :=
  if negb (v =? 0) && isProtectedV v then EIP155Signer (deriveChainId v) else HomesteadSigner.

Definition Protected (tx : Transaction) : bool := isProtectedV (tx_V tx).

(** [crypto.ValidateSignatureValues]. *)
Definition secp256k1_N : Z := 0xfffffffffffffffffffffffffffffffebaaedce6af48a03bbfd25e8cd0364141.
Definition secp256k1_halfN : Z := secp256k1_N / 2.
Definition ValidateSignatureValues (v r s : Z) (homestead : bool) : bool :=
  if (r <? 1) || (s <? 1) then false
  else if homestead && (secp256k1_halfN <? s) then false
  else (r <? secp256k1_N) && (s <? secp256k1_N) && ((v =? 0) || (v =? 1)).

Section Signers.
Context `{TE : TxEnv}.

(** [Hash] of the signers that recover a key. *)
Definition signer_Hash (s : Signer) (tx : Transaction) : string :=
  match s with
  | EIP155Signer c => rlpHash (payment tx ++ [RInt c; RInt 0; RInt 0])
  | _ => rlpHash (payment tx)
  end.

(** The common part of the three ECDSA signers: the key recovered from the
    signature values, of which [v] is a byte. *)
Definition recoverKey (hash : string) (v r s : Z) (homestead : bool) : sigErr + string :=
  if negb (ValidateSignatureValues v r s homestead) then inl ErrInvalidSig
  else
    match Ecrecover hash (be_bytes 32 r +:+ be_bytes 32 s +:+ be_bytes 1 v) with
    | None => inl errRecover
    | Some pub =>
        match pub with
        | String c _ => if decide (c = Ascii.ascii_of_nat 4) then inr pub else inl errInvalidPublicKey
        | EmptyString => inl errInvalidPublicKey
        end
    end.

Definition homesteadKey (tx : Transaction) : sigErr + string :=
  if 256 <=? tx_V tx then inl ErrInvalidSig
  else recoverKey (signer_Hash HomesteadSigner tx) (byte_of (tx_V tx - 27)) (tx_R tx) (tx_S tx) true.

(** [PublicKey] of each signer; the key of a HIBE or a zero-knowledge transaction
    is the sender it names. *)
Definition PublicKey (sg : Signer) (tx : Transaction) : outcome (sigErr + string) :=
  match sg with
  | ZKSigner =>
      if (tx_TxCode tx =? TxConvert) || (tx_TxCode tx =? TxRedeem) || (tx_TxCode tx =? TxDeposit)
         || (tx_TxCode tx =? TxWithdraw)
      then match tx_Sender tx with Some a => Ret (inr a) | None => Panic end
      else Ret (inr letters_f)
  | DHibeSigner =>
      match ID tx, tx_HibeSig tx with
      | Some id, Some sig =>
          if hibeVerify id (HibeHash tx) (tx_Level tx) sig
          then match tx_Sender tx with Some a => Ret (inr a) | None => Panic end
          else Ret (inl ErrInvalidSig)
      | _, _ => Panic
      end
  | EIP155Signer chainId =>
      if negb (Protected tx) then Ret (homesteadKey tx)
      else if negb (deriveChainId (tx_V tx) =? chainId) then Ret (inl ErrInvalidChainId)
      else Ret (recoverKey (signer_Hash sg tx) (byte_of (u64 (Z.abs (tx_V tx - chainId * 2)) - 35))
                  (tx_R tx) (tx_S tx) true)
  | HomesteadSigner => Ret (homesteadKey tx)
  | FrontierSigner =>
      if 256 <=? tx_V tx then Ret (inl ErrInvalidSig)
      else Ret (recoverKey (signer_Hash FrontierSigner tx) (byte_of (tx_V tx - 27)) (tx_R tx) (tx_S tx) false)
  end.

(** What a transaction remembers of the last derivation. *)
Definition sigCache : Type := option (Signer * string).

(** [Sender]. *)
Definition Sender (sg : Signer) (tx : Transaction) : M sigCache (sigErr + string) :=
  sc <- get ;;
  let derive :=
    match PublicKey sg tx with
    | Ret (inl e) => ret (inl e)
    | Ret (inr key) =>
        let a := copyAddress key in
        modify (fun _ => Some (sg, a)) ;; ret (inr a)
    | _ => panic
    end in
  match sc with
  | Some (csg, from) => if signer_Equal csg sg then ret (inr from) else derive
  | None => derive
  end.

(** The signer every consumer picks from the type of the transaction; with another
    type the variable stays nil, and its use panics. *)
Definition typeSigner (normal : Signer) (tx : Transaction) : option Signer :=
  if tx_TxType tx =? TxNormal then Some normal
  else if (tx_TxType tx =? TxDhibe) || (tx_TxType tx =? TxHeader) || (tx_TxType tx =? TxCrossChain)
  then Some DHibeSigner
  else if tx_TxType tx =? TxZK then Some ZKSigner
  else None.

(** [MakeSigner], given which forks are active. *)
Definition MakeSigner (isEIP155 isHomestead : bool) (chainId : Z) : Signer :=
  if isEIP155 then EIP155Signer chainId else if isHomestead then HomesteadSigner else FrontierSigner.

(** [TxDifference]: the transactions of [a] whose hash no transaction of [b] has. *)
Definition TxDifference (a b : list Transaction) : list Transaction :=
  List.filter (fun tx => negb (bool_decide (ZKHashTx tx ∈ map ZKHashTx b))) a.

(** ** The cache is transparent *)

(** The sender a signer derives from a transaction. *)
Definition derive (sg : Signer) (tx : Transaction) : outcome (sigErr + string) :=
  match PublicKey sg tx with
  | Ret (inr key) => Ret (inr (copyAddress key))
  | Ret (inl e) => Ret (inl e)
  | Panic => Panic
  | OutOfFuel => Panic
  end.

(** What every derivation leaves in the cache. *)
Definition cached_ok (tx : Transaction) (sc : sigCache) : Prop :=
  match sc with Some (sg, a) => derive sg tx = Ret (inr a) | None => True end.

Lemma signer_Equal_eq s s2 : s <> ZKSigner -> signer_Equal s s2 = true -> s = s2.
Proof. destruct s, s2; cbn; try done. by intros _ ->%Z.eqb_eq. Qed.

(** A cached sender is that of the signer asked for, unless a [ZKSinger] derived
    it, which claims to equal every signer. *)
Lemma Sender_derive sg tx sc : cached_ok tx sc -> (forall a, sc <> Some (ZKSigner, a)) ->
  exists sc', Sender sg tx sc = (derive sg tx, sc') /\ cached_ok tx sc'.
Proof.
  intros Hok Hzk. unfold Sender. rewrite bind_get.
  assert (forall sc0, cached_ok tx sc0 -> exists sc',
    (match PublicKey sg tx with Ret (inl e) => ret (inl e) | Ret (inr key) =>
       let a := copyAddress key in modify (fun _ => Some (sg, a)) ;; ret (inr a) | _ => panic end) sc0
    = (derive sg tx, sc') /\ cached_ok tx sc') as Hd.
  { intros sc0 H0. destruct (PublicKey sg tx) as [[e|key]| |] eqn:E; unfold derive; rewrite E;
      [by exists sc0| |by exists sc0|by exists sc0].
    eexists. split; [done|]. cbn. unfold derive. by rewrite E. }
  destruct sc as [[csg from]|]; [|by apply Hd]. destruct (signer_Equal csg sg) eqn:E; [|by apply Hd].
  apply signer_Equal_eq in E as <-; [|intros ->; by destruct (Hzk from)]. exists (Some (csg, from)).
  cbn in Hok. by rewrite Hok.
Qed.

Lemma Sender_zk sg tx a : Sender sg tx (Some (ZKSigner, a)) = (Ret (inr a), Some (ZKSigner, a)).
Proof. done. Qed.
End Signers.
