(* ===== verification/ZkTx.v ===== *)
(** * ZkTx: transactions with hidden balances

    Models [core/state_transition.go] and [core/state_processor.go] with the parts
    of [core/types/transaction.go], [core/gaspool.go], [core/evm.go] and
    [core/vm/evm.go] they call: a transaction may convert part of the sender's
    balance into a commitment ([TxConvert]), redeem it ([TxRedeem]), put a fund
    commitment into the block ([TxDeposit]) or claim one ([TxWithdraw]).  The
    proof verifiers of [zktx/zktx.go] call a C++ library and are parameters.  So are
    the virtual machine on code and the precompiled contracts ([vm_run]) and the
    addresses of the latter ([precompiled]): they stand for [core/vm] of go-ethereum,
    which the repository contains as it is.  A call looks for a precompiled contract at
    the address first; at another address without code the interpreter returns at
    once. *)
From S2P Require Import Prelude.
From S2P Require Import Messages.
From S2P Require Import StateDB.
From S2P Require Import Tx.

(** ** Constants *)

Definition TxGas : Z := 21000.
Definition TxGasContractCreation : Z := 53000.
Definition TxDataZeroGas : Z := 4.
Definition TxDataNonZeroGas : Z := 68.
Definition CreateDataGas : Z := 200.
Definition MaxCodeSize : Z := 24576.

(** ** Messages *)

Record Message := mkMessage {
  m_to : option string;
  m_from : string;
  m_nonce : Z;
  m_amount : Z;
  m_price : Z;
  m_gasLimit : Z;
  m_data : string;
  m_checkNonce : bool;
  m_txCode : Z;
  m_cmt : string;
  m_zkValue : Z;
}.

(** [AsMessage]: the signer it is given is not used, the sender is the one the
    transaction names; without one the dereference panics. *)
Definition AsMessage (tx : Transaction) : option Message :=
  match tx_Sender tx with
  | None => None
  | Some sender =>
      Some (mkMessage (tx_Recipient tx) sender (tx_AccountNonce tx) (tx_Amount tx) (tx_Price tx)
              (tx_GasLimit tx) (tx_Payload tx) true (tx_TxCode tx) (tx_ZKCMTbal tx) (tx_ZKValue tx))
  end.

(** The errors of the state transition. *)
Inductive txErr :=
| ErrOutOfGas | errInsufficientBalanceForGas | ErrGasLimitReached | ErrInvalidNonce
| ErrInsufficientBalance | ErrCodeStoreOutOfGas | ErrSnUsed | ErrInvalidProof
| ErrFundsCount | ErrVM.
#[export] Instance txErr_eq : EqDecision txErr.
Proof. solve_decision. Defined.

(** The blocks from which the rules of a fork apply. *)
Record ChainConfig := mkChainConfig {
  cc_HomesteadBlock : option Z;
  cc_EIP158Block : option Z;
}.

Definition isForked (s : option Z) (head : Z) : bool :=
  match s with None => false | Some b => b <=? head end.

(** What is not modelled: the verifiers of [zktx]; the addresses of precompiled
    contracts, and what these and the interpreter do; and the address of a new
    contract. *)
Class ZkEnv := {
  VerifyConvertProof : string -> string -> string -> Z -> string -> bool;
  VerifyRedeemProof : string -> string -> string -> Z -> string -> bool;
  VerifyDepositProof : string -> string -> string -> string -> string -> bool;
  VerifyWithdrawProof : string -> string -> string -> string -> string -> string -> bool;
  precompiled : string -> bool;
  (* code address, code, input, gas, value: output, gas left and error *)
  vm_run : string -> string -> string -> Z -> Z -> M StateDB (string * Z * option txErr);
  CreateAddress : string -> Z -> string;
}.

(** ** The state of a transition *)

(** The account state and the gas pool of the block. *)
Record World := mkWorld { w_db : StateDB; w_gp : Z }.
#[export] Instance World_eta : Eta World := fun r => mkWorld (w_db r) (w_gp r).

Local Abbreviation MW := (M World).

Definition db {A} (m : M StateDB A) : MW A := fun w =>
  let '(r, s) := m (w_db w) in (r, w <| w_db := s |>).

(** A computation that may return an error. *)
Definition try {A B} (m : MW (txErr + A)) (k : A -> MW (txErr + B)) : MW (txErr + B) :=
  r <- m ;; match r with inl e => ret (inl e) | inr a => k a end.
Notation "x <-? m ;; k" := (try m (fun x => k))
  (at level 100, m at next level, k at level 200, right associativity) : go_scope.
Definition fail {A} (e : txErr) : MW (txErr + A) := ret (inl e).
Definition ok {A} (a : A) : MW (txErr + A) := ret (inr a).

(** [GasPool.SubGas] and [AddGas]. *)
Definition SubGas (amount : Z) : MW (txErr + unit) :=
  w <- get ;;
  if w_gp w <? amount then fail ErrGasLimitReached
  else modify (fun w => w <| w_gp := w_gp w - amount |>) ;; ok tt.
Definition AddGas (amount : Z) : MW unit := modify (fun w => w <| w_gp := w_gp w + amount |>).

(** ** The virtual machine around the interpreter *)

Section Transition.
Context `{ZE : ZkEnv} (config : ChainConfig) (number : Z) (coinbase : string).

Definition homestead : bool := isForked (cc_HomesteadBlock config) number.
Definition eip158 : bool := isForked (cc_EIP158Block config) number.

(** [run]: a precompiled contract, or the interpreter, which returns at once
    without code. *)
Definition run (a code input : string) (gas value : Z) : M StateDB (string * Z * option txErr) :=
  if negb (precompiled a) && bool_decide (code = EmptyString) then ret (EmptyString, gas, None)
  else vm_run a code input gas value.

Definition CanTransfer (a : string) (amount : Z) : M StateDB bool :=
  b <- GetBalance a ;; ret (amount <=? b).

Definition Transfer (sender recipient : string) (amount : Z) : M StateDB unit :=
  SubBalance sender amount ;; AddBalance recipient amount.

(** [EVM.Call] at depth 0: the gas left and the error. *)
Definition Call (caller a : string) (input : string) (gas value : Z) : M StateDB (Z * option txErr) :=
  can <- CanTransfer caller value ;;
  if negb can then ret (gas, Some ErrInsufficientBalance)
  else
    snapshot <- Snapshot ;;
    ex <- Exist a ;;
    if negb ex && negb (precompiled a) && eip158 && (value =? 0) then ret (gas, None)
    else
      when (negb ex) (CreateAccount a) ;;
      Transfer caller a value ;;
      code <- GetCode a ;;
      r <- run a code input gas value ;;
      let '(_, rest, err) := r in
      match err with
      | Some e => RevertToSnapshot snapshot ;; ret (0, Some e)
      | None => ret (rest, None)
      end.

(** [EVM.Create] at depth 0. *)
Definition Create (caller code : string) (gas value : Z) : M StateDB (Z * option txErr) :=
  can <- CanTransfer caller value ;;
  if negb can then ret (gas, Some ErrInsufficientBalance)
  else
    nonce <- GetNonce caller ;;
    SetNonce caller (u64 (nonce + 1)) ;;
    snapshot <- Snapshot ;;
    let contractAddr := CreateAddress caller nonce in
    CreateAccount contractAddr ;;
    when eip158 (SetNonce contractAddr 1) ;;
    Transfer caller contractAddr value ;;
    r <- run contractAddr code EmptyString gas value ;;
    let '(out, rest, err) := r in
    let size := Z.of_nat (String.length out) in
    let tooBig := MaxCodeSize <? size in
    let dataGas := u64 (size * CreateDataGas) in
    stored <-
      (if bool_decide (err = None) && negb tooBig then
         if rest <? dataGas then ret (rest, Some ErrCodeStoreOutOfGas)
         else SetCode contractAddr out ;; ret (rest - dataGas, None)
       else ret (rest, err)) ;;
    let '(rest, err) := stored in
    if tooBig || (negb (bool_decide (err = None))
                  && (homestead || negb (bool_decide (err = Some ErrCodeStoreOutOfGas))))
    then RevertToSnapshot snapshot ;; ret (0, err)
    else ret (rest, err).

(** ** [StateTransition] *)

(** [IntrinsicGas]. *)
Fixpoint nonZeroBytes (data : string) : Z :=
  match data with
  | EmptyString => 0
  | String c data' => (if decide (c = Ascii.zero) then 0 else 1) + nonZeroBytes data'
  end.

Definition IntrinsicGas (data : string) (contractCreation homestead : bool) : Z :=
  let nz := nonZeroBytes data in
  (if contractCreation && homestead then TxGasContractCreation else TxGas)
  + nz * TxDataNonZeroGas + (Z.of_nat (String.length data) - nz) * TxDataZeroGas.

(** [from] and [to]: the account is created if it does not exist. *)
Definition ensure (a : string) : M StateDB unit :=
  ex <- Exist a ;; when (negb ex) (CreateAccount a).

(** [buyGas]: the gas of the transition, which is also [initialGas]. *)
Definition buyGas (msg : Message) : MW (txErr + Z) :=
  let mgas := m_gasLimit msg in
  if two64 <=? Z.abs mgas then fail ErrOutOfGas
  else
    let mgval := mgas * m_price msg in
    db (ensure (m_from msg)) ;;
    b <- db (GetBalance (m_from msg)) ;;
    if b <? mgval then fail errInsufficientBalanceForGas
    else
      _ <-? SubGas mgas ;;
      db (SubBalance (m_from msg) mgval) ;;
      ok mgas.

(** [preCheck]. *)
Definition preCheck (msg : Message) : MW (txErr + Z) :=
  db (ensure (m_from msg)) ;;
  n <- db (GetNonce (m_from msg)) ;;
  if m_checkNonce msg && negb (n =? m_nonce msg) then fail ErrInvalidNonce
  else buyGas msg.

(** [refundGas]: the gas left with the refund.  The product with the price is
    computed in place, which changes the refund counter when it is the smaller
    number; nothing reads it before [clearJournalAndRefund]. *)
Definition refundGas (msg : Message) (initialGas gas : Z) : MW Z :=
  db (ensure (m_from msg)) ;;
  db (AddBalance (m_from msg) (gas * m_price msg)) ;;
  s <- db get ;;
  let refund := Z.min ((initialGas - gas) / 2) (sdb_refund s) in
  let gas := u64 (gas + refund) in
  db (AddBalance (m_from msg) (refund * m_price msg)) ;;
  AddGas gas ;;
  ret gas.

(** The codes that set the commitment of the sender. *)
Definition setsCMT (code : Z) : bool :=
  (code =? TxConvert) || (code =? TxRedeem) || (code =? TxDeposit) || (code =? TxWithdraw).

(** The change of the plain balance that a code stands for. *)
Definition settle (msg : Message) : M StateDB unit :=
  let v := int64_of_u64 (m_zkValue msg) in
  when (m_txCode msg =? TxConvert) (SubBalance (m_from msg) v) ;;
  when (m_txCode msg =? TxRedeem) (AddBalance (m_from msg) v) ;;
  when (m_txCode msg =? TxWithdraw) (AddBalance (m_from msg) v).

(** The call or the creation of [TransitionDb]. *)
Definition execute (msg : Message) (gas : Z) : M StateDB (Z * option txErr) :=
  match m_to msg with
  | None => Create (m_from msg) (m_data msg) gas (m_amount msg)
  | Some to =>
      n <- GetNonce (m_from msg) ;;
      SetNonce (m_from msg) (u64 (n + 1)) ;;
      ensure to ;;
      r <- Call (m_from msg) to (m_data msg) gas (m_amount msg) ;;
      when (setsCMT (m_txCode msg)) (SetCMT (m_from msg) (m_cmt msg)) ;;
      ret r
  end.

(** [TransitionDb], as [ApplyMessage] uses it: the used gas. *)
Definition TransitionDb (msg : Message) : MW (txErr + Z) :=
  initialGas <-? preCheck msg ;;
  db (ensure (m_from msg)) ;;
  let intrinsicGas := IntrinsicGas (m_data msg) (bool_decide (m_to msg = None)) homestead in
  if two64 <=? intrinsicGas then fail ErrOutOfGas
  else if initialGas <? intrinsicGas then fail ErrOutOfGas
  else
    r <- db (execute msg (initialGas - intrinsicGas)) ;;
    let '(gas, vmerr) := r in
    if bool_decide (vmerr = Some ErrInsufficientBalance) then fail ErrInsufficientBalance
    else
      gas <- refundGas msg initialGas gas ;;
      db (AddBalance coinbase ((initialGas - gas) * m_price msg)) ;;
      db (settle msg) ;;
      ok (initialGas - gas).

(** ** [StateProcessor] *)

(** The serial number's address, whose account marks it as used. *)
Definition snAddress (tx : Transaction) : string := BytesToAddress (tx_ZKSN tx).

(** The proof a code asks for; the value of a withdrawal is not among the
    arguments of its verifier. *)
Definition verifyProof (tx : Transaction) (from cmtbalance : string) : bool :=
  if tx_TxCode tx =? TxConvert
  then VerifyConvertProof cmtbalance (tx_ZKSN tx) (tx_ZKCMTbal tx) (tx_ZKValue tx) (tx_ZKProof tx)
  else if tx_TxCode tx =? TxRedeem
  then VerifyRedeemProof cmtbalance (tx_ZKSN tx) (tx_ZKCMTbal tx) (tx_ZKValue tx) (tx_ZKProof tx)
  else if tx_TxCode tx =? TxDeposit
  then VerifyDepositProof (tx_ZKSN tx) (tx_ZKCMTfd tx) (tx_ZKProof tx) cmtbalance (tx_ZKCMTbal tx)
  else VerifyWithdrawProof from (tx_ZKHeader tx) cmtbalance (tx_ZKSN tx) (tx_ZKCMTbal tx) (tx_ZKProof tx).

(** The checks of [ApplyTransaction] on a zero-knowledge transaction. *)
Definition checkZK (tx : Transaction) (from : string) : M StateDB (txErr + unit) :=
  if negb (setsCMT (tx_TxCode tx)) then ret (inr tt)
  else
    ex <- Exist (snAddress tx) ;;
    if ex && negb (bool_decide (tx_ZKSN tx = zeroHash)) then ret (inl ErrSnUsed)
    else
      cmtbalance <- GetCMTBalance from ;;
      if negb (verifyProof tx from cmtbalance) then ret (inl ErrInvalidProof)
      else
        CreateAccount (snAddress tx) ;;
        SetNonce (snAddress tx) 1 ;;
        ret (inr tt).

(** [ApplyTransaction]: the gas used. *)
Definition ApplyTransaction (tx : Transaction) : MW (txErr + Z) :=
  match AsMessage tx with
  | None => panic
  | Some msg =>
      _ <-? (if tx_TxType tx =? TxZK then db (checkZK tx (m_from msg)) else ok tt) ;;
      gas <-? TransitionDb msg ;;
      db (IntermediateRoot eip158) ;;
      ok gas
  end.

(** The loop of [Process]: the gas used and the fund commitments, in order. *)
Fixpoint applyAll (txs : list Transaction) : MW (txErr + (Z * list string)) :=
  match txs with
  | [] => ok (0, [])
  | tx :: txs' =>
      gas <-? ApplyTransaction tx ;;
      r <-? applyAll txs' ;;
      ok (gas + r.1, if tx_TxCode tx =? TxDeposit then tx_ZKCMTfd tx :: r.2 else r.2)
  end.

(** [Process], without the DAO fork: the number of fund commitments must be that
    of the header; that their contents differ is only printed.  [Finalize]
    computes the root. *)
Definition Process (txs : list Transaction) (zkFunds : list string) : MW (txErr + Z) :=
  r <-? applyAll txs ;;
  if negb (length r.2 =? length zkFunds)%nat then fail ErrFundsCount
  else db (IntermediateRoot eip158) ;; ok r.1.

(** ** The miner *)

(** The parts of [Work] of [miner/worker.go] that [commitTransaction] changes;
    the receipts and the gas used are left out. *)
Record Work := mkWork {
  wk_world : World;
  wk_txs : list Transaction;
  wk_zkfunds : list string;
}.
#[export] Instance Work_eta : Eta Work := fun r => mkWork (wk_world r) (wk_txs r) (wk_zkfunds r).

Definition inWorld {A} (m : MW A) : M Work A := fun k =>
  let '(r, w) := m (wk_world k) in (r, k <| wk_world := w |>).

(** [Work.commitTransaction]: a failed transaction is undone by reverting to the
    snapshot taken before it. *)
Definition commitTransaction (tx : Transaction) : M Work (option txErr) :=
  snap <- inWorld (db Snapshot) ;;
  r <- inWorld (ApplyTransaction tx) ;;
  match r with
  | inl e => inWorld (db (RevertToSnapshot snap)) ;; ret (Some e)
  | inr _ =>
      modify (fun k => k <| wk_txs ::= fun l => l ++ [tx] |>) ;;
      when (tx_TxCode tx =? TxDeposit)
        (modify (fun k => k <| wk_zkfunds ::= fun l => l ++ [tx_ZKCMTfd tx] |>)) ;;
      ret None
  end.
End Transition.
