(* ===== verification/ZkEffects.v ===== *)
(** * ZkEffects: what a transaction does to the accounts

    The functional behaviour of [TransitionDb] on a call of an account without
    code, which is what a zero-knowledge transaction is, and what follows from it
    for the conversion between plain and hidden balances. *)
From S2P Require Import Prelude.
From S2P Require Import Messages.
From S2P Require Import StateDB.
From S2P Require Import Tx.
From S2P Require Import ZkTx.

(** ** Runs of the account state *)

(** [runs m s r s']: [m] returns [r] and leads to the well-formed state [s']. *)
Definition runs {A} (m : M StateDB A) (s : StateDB) (r : A) (s' : StateDB) : Prop :=
  m s = (Ret r, s') /\ sdb_wf s'.

Lemma runsD_bind {A B} (m : M StateDB A) (f : A -> M StateDB B) s r s1 r2 s2 :
  runs m s r s1 -> runs (f r) s1 r2 s2 -> runs (bind m f) s r2 s2.
Proof. intros [E1 _] [E2 W]. split; [|done]. unfold bind. by rewrite E1. Qed.

Lemma acts_runs {A} (m : M StateDB A) s r s' : acts m s r s' -> runs m s r s'.
Proof. by intros (E&W&_). Qed.

(** Nothing is refunded and nothing suicided on the way from [s] to [s']. *)
Definition calm (s s' : StateDB) : Prop :=
  sdb_refund s' = sdb_refund s /\ forall a, (account s' a).2 = (account s a).2.
#[export] Instance calm_po : PreOrder calm.
Proof. split; [by intros s|]. intros s t u [R1 V1] [R2 V2]. split; [congruence|]. intros a. by rewrite V2. Qed.

(** The accounts of [s'] are those of [s] changed by [f]. *)
Definition changes (f : string -> Account -> Account) (s s' : StateDB) : Prop :=
  calm s s' /\ forall a, (account s' a).1 = f a (account s a).1.

Definition shift (x : Z) (d : Account) : Account :=
  mkAccount (ac_Nonce d) (ac_Balance d + x) (ac_CMT d) (ac_Code d).

(** The balances change by [f], nothing else does. *)
Definition shifts (f : string -> Z) : StateDB -> StateDB -> Prop :=
  changes (fun a => shift (f a)).

(** The amount [x] at the address [a]. *)
Definition at_ (a : string) (x : Z) (b : string) : Z := if decide (a = b) then x else 0.

Lemma shift_0 d : shift 0 d = d.
Proof. unfold shift. rewrite Z.add_0_r. by destruct d. Qed.

Lemma shift_shift x y d : shift y (shift x d) = shift (x + y) d.
Proof. unfold shift. cbn. by rewrite Z.add_assoc. Qed.

Lemma changes_trans f g s s1 s2 :
  changes f s s1 -> changes g s1 s2 -> changes (fun a d => g a (f a d)) s s2.
Proof. intros [R1 E1] [R2 E2]. split; [by etrans|]. intros a. by rewrite E2, E1. Qed.

Lemma shifts_trans f g s s1 s2 : shifts f s s1 -> shifts g s1 s2 -> shifts (fun a => f a + g a) s s2.
Proof.
  intros H1 H2. destruct (changes_trans _ _ _ _ _ H1 H2) as [R E]. split; [done|]. intros a.
  by rewrite E, shift_shift.
Qed.

Lemma shifts_same s s' : sdb_refund s' = sdb_refund s -> (forall a, view s' a = view s a) -> shifts (fun _ => 0) s s'.
Proof.
  intros R V. split; [split; [done|]|]; intros a; unfold account; by rewrite V, ?shift_0.
Qed.

Lemma updates_changes a d s s' f :
  updates a d s s' -> d = (f (account s a).1, (account s a).2) ->
  changes (fun b => if decide (a = b) then f else fun x => x) s s'.
Proof.
  intros [R V] ->. split; [split; [done|]|]; intros b; unfold account; rewrite V; case_decide; by subst.
Qed.

Lemma shifts_at a x s s' d :
  updates a d s s' -> d = (shift x (account s a).1, (account s a).2) -> shifts (at_ a x) s s'.
Proof.
  intros U Hd. destruct (updates_changes _ _ _ _ (shift x) U Hd) as [R E]. split; [done|].
  intros b. rewrite E. unfold at_. case_decide; [done|]. by rewrite shift_0.
Qed.

(** ** The operations *)

Lemma read_run {A} a (f : Account -> A) s : sdb_wf s ->
  exists s', runs (read a f (f emptyAccount)) s (f (account s a).1) s' /\ shifts (fun _ => 0) s s' /\ s' ≡ s.
Proof.
  intros W. destruct (acts_read a s W) as (s'&A1&Q&L). exists s'. split; [|split; [|done]].
  - eapply runsD_bind; [by apply acts_runs|]. split; [|by apply A1]. unfold account.
    destruct (view s a) as [d|]; [|done]. by destruct (L d eq_refl) as (o&->&_&<-).
  - apply shifts_same; [by destruct Q as (_&?&_)|apply Q].
Qed.

Lemma Exist_run a s : sdb_wf s ->
  exists s', runs (Exist a) s (bool_decide (is_Some (view s a))) s' /\ s' ≡ s.
Proof.
  intros W. destruct (acts_read a s W) as (s'&A1&Q&L). exists s'. split; [|done].
  eapply runsD_bind; [by apply acts_runs|]. split; [|by apply A1].
  destruct (view s a) as [d|]; [|done]. by destruct (L d eq_refl) as (o&->&_).
Qed.

Lemma AddBalance_run a x s : sdb_wf s ->
  exists s', runs (AddBalance a x) s tt s' /\ shifts (at_ a x) s s'.
Proof.
  intros W. destruct (AddBalance_acts a x s W) as (s'&A&U). exists s'. split; [by apply acts_runs|].
  eapply shifts_at; [exact U|]. done.
Qed.

Lemma SubBalance_run a x s : sdb_wf s ->
  exists s', runs (SubBalance a x) s tt s' /\ shifts (at_ a (- x)) s s'.
Proof.
  intros W. destruct (SubBalance_acts a x s W) as (s'&A&U). exists s'. split; [by apply acts_runs|].
  eapply shifts_at; [exact U|]. done.
Qed.

Lemma ensure_run a s : sdb_wf s -> exists s', runs (ensure a) s tt s' /\ shifts (fun _ => 0) s s'.
Proof.
  intros W. destruct (Exist_run a s W) as (s1&R1&Q1). assert (sdb_wf s1) as W1 by apply R1.
  assert (shifts (fun _ => 0) s s1) as H1 by (apply shifts_same; [by destruct Q1 as (_&?&_)|apply Q1]).
  destruct (view s a) as [d|] eqn:Ea; cbn in R1.
  - exists s1. split; [|done]. by eapply runsD_bind.
  - destruct (CreateAccount_acts a s1 W1) as (s2&A2&U2). exists s2.
    split; [eapply runsD_bind; [exact R1|by apply acts_runs]|].
    assert (shifts (at_ a 0) s1 s2) as H2.
    { eapply shifts_at; [exact U2|]. unfold account. rewrite (proj2 (proj2 Q1) a), Ea. done. }
    destruct (shifts_trans _ _ _ _ _ H1 H2) as [R E]. split; [done|]. intros b. rewrite E.
    unfold at_. by case_decide.
Qed.

Section Effects.
Context `{ZE : ZkEnv} (config : ChainConfig) (number : Z) (coinbase : string).

(** A call of an account without code moves the value. *)
Lemma Call_run caller a input gas value s :
  sdb_wf s -> precompiled a = false -> ac_Code (account s a).1 = EmptyString ->
  value <= ac_Balance (account s caller).1 ->
  exists s', runs (Call config number caller a input gas value) s (gas, None) s' /\
             shifts (fun b => at_ caller (- value) b + at_ a value b) s s'.
Proof.
  intros W Hp Hc Hb. unfold Call.
  destruct (read_run caller ac_Balance s W) as (s1&R1&H1&Q1).
  assert (runs (CanTransfer caller value) s true s1) as R1'.
  { eapply runsD_bind; [exact R1|]. split; [|apply R1]. unfold ret. by rewrite (proj2 (Z.leb_le _ _) Hb). }
  pose proof (Snapshot_acts s1 (proj2 R1)) as A2.
  assert (shifts (fun _ => 0) s1 (snapped s1)) as H2 by (by apply shifts_same).
  destruct (Exist_run a _ (acts_wf _ _ _ _ A2)) as (s3&R3&Q3).
  assert (shifts (fun _ => 0) (snapped s1) s3) as H3 by (apply shifts_same; [by destruct Q3 as (_&?&_)|apply Q3]).
  pose proof (shifts_trans _ _ _ _ _ (shifts_trans _ _ _ _ _ H1 H2) H3) as H13.
  set (ex := bool_decide (is_Some (view (snapped s1) a))) in *.
  destruct (negb ex && negb (precompiled a) && eip158 config number && (value =? 0)) eqn:Ez.
  { exists s3. split.
    - eapply runsD_bind; [exact R1'|]. eapply runsD_bind; [by apply acts_runs|]. eapply runsD_bind; [exact R3|].
      cbv beta. rewrite Ez. by split; [|apply R3].
    - apply andb_true_iff in Ez as [_ Ez]. apply Z.eqb_eq in Ez. subst value.
      destruct H13 as [R E]. split; [done|]. intros b. rewrite E. unfold at_. by do 2 case_decide. }
  assert (exists s4, runs (when (negb ex) (CreateAccount a)) s3 tt s4 /\ shifts (fun _ => 0) s3 s4) as (s4&R4&H4).
  { unfold ex. destruct (view (snapped s1) a) as [d|] eqn:Ea; cbn.
    - exists s3. split; [by split; [|apply R3]|]. by apply shifts_same.
    - destruct (CreateAccount_acts a s3 (proj2 R3)) as (s4&A4&U4). exists s4. split; [by apply acts_runs|].
      assert (shifts (at_ a 0) s3 s4) as [R E].
      { eapply shifts_at; [exact U4|]. unfold account. by rewrite (proj2 (proj2 Q3) a), Ea. }
      split; [done|]. intros b. rewrite E. unfold at_. by case_decide. }
  destruct (SubBalance_run caller value s4 (proj2 R4)) as (s5&R5&H5).
  destruct (AddBalance_run a value s5 (proj2 R5)) as (s6&R6&H6).
  destruct (read_run a ac_Code s6 (proj2 R6)) as (s7&R7&H7&Q7).
  pose proof (shifts_trans _ _ _ _ _ (shifts_trans _ _ _ _ _ (shifts_trans _ _ _ _ _ H13 H4) H5) H6) as H16.
  exists s7. split.
  - eapply runsD_bind; [exact R1'|]. eapply runsD_bind; [by apply acts_runs|]. eapply runsD_bind; [exact R3|].
    cbv beta. fold ex. rewrite Ez. eapply runsD_bind; [exact R4|].
    eapply runsD_bind; [eapply runsD_bind; [exact R5|exact R6]|]. eapply runsD_bind; [exact R7|].
    destruct H16 as [_ E]. rewrite E. cbn. unfold run. rewrite Hp, Hc. cbn. by split; [|apply R7].
  - destruct (shifts_trans _ _ _ _ _ H16 H7) as [R E]. split; [done|]. intros b. rewrite E. f_equal. lia.
Qed.

(** *** Runs of a transition *)

Definition runsW {A} (m : M World A) (w : World) (r : A) (w' : World) : Prop :=
  m w = (Ret r, w') /\ sdb_wf (w_db w').

Lemma runsW_bind {A B} (m : M World A) (f : A -> M World B) w r w1 r2 w2 :
  runsW m w r w1 -> runsW (f r) w1 r2 w2 -> runsW (bind m f) w r2 w2.
Proof. intros [E1 _] [E2 W]. split; [|done]. unfold bind. by rewrite E1. Qed.

Lemma runsW_try {A B} (m : M World (txErr + A)) (k : A -> M World (txErr + B)) w a w1 r w2 :
  runsW m w (inr a) w1 -> runsW (k a) w1 r w2 -> runsW (try m k) w r w2.
Proof. intros H1 H2. by eapply runsW_bind. Qed.

Lemma runsW_db {A} (m : M StateDB A) w r s' :
  runs m (w_db w) r s' -> runsW (db m) w r (mkWorld s' (w_gp w)).
Proof. intros [E W]. split; [|done]. unfold db. by rewrite E. Qed.

Lemma runsW_ret {A} (a : A) w : sdb_wf (w_db w) -> runsW (ret a) w a w.
Proof. by split. Qed.

(** What a transaction needs to be carried out: its nonce, its gas and its funds. *)
Record payable (msg : Message) (w : World) : Prop := {
  pay_nonce : m_checkNonce msg = true -> m_nonce msg = ac_Nonce (account (w_db w) (m_from msg)).1;
  pay_gas : 0 <= m_gasLimit msg < two64;
  pay_pool : m_gasLimit msg <= w_gp w;
  pay_price : 0 <= m_price msg;
  pay_funds : m_gasLimit msg * m_price msg + m_amount msg
              <= ac_Balance (account (w_db w) (m_from msg)).1;
  pay_amount : 0 <= m_amount msg;
}.

Lemma shifts_account f s s' a : shifts f s s' -> (account s' a).1 = shift (f a) (account s a).1.
Proof. intros [_ E]. apply E. Qed.

Lemma buyGas_run msg w :
  sdb_wf (w_db w) -> payable msg w ->
  exists s', runsW (buyGas msg) w (inr (m_gasLimit msg)) (mkWorld s' (w_gp w - m_gasLimit msg)) /\
             shifts (at_ (m_from msg) (- (m_gasLimit msg * m_price msg))) (w_db w) s'.
Proof.
  intros W [Hn Hg Hp Hpr Hf Ha].
  destruct (ensure_run (m_from msg) _ W) as (s1&R1&H1).
  destruct (read_run (m_from msg) ac_Balance s1 (proj2 R1)) as (s2&R2&H2&_).
  destruct (SubBalance_run (m_from msg) (m_gasLimit msg * m_price msg) s2 (proj2 R2)) as (s3&R3&H3).
  pose proof (shifts_trans _ _ _ _ _ (shifts_trans _ _ _ _ _ H1 H2) H3) as H13.
  exists s3. split.
  - unfold buyGas. rewrite (proj2 (Z.leb_gt _ _)) by lia.
    eapply runsW_bind; [by apply runsW_db|]. eapply runsW_bind; [apply (runsW_db _ (mkWorld s1 _)); exact R2|].
    cbv beta. rewrite (proj2 (Z.ltb_ge _ _)) by (rewrite (shifts_account _ _ _ _ H1); cbn; lia).
    eapply (runsW_try _ _ _ tt (mkWorld s2 (w_gp w - m_gasLimit msg))).
    { split; [|apply R2]. unfold SubGas, bind, get, modify. cbn. by rewrite (proj2 (Z.ltb_ge _ _)) by lia. }
    eapply runsW_bind; [apply (runsW_db _ (mkWorld s2 _)); exact R3|]. by apply runsW_ret, R3.
  - destruct H13 as [R E]. split; [done|]. intros b. rewrite E. done.
Qed.

Lemma preCheck_run msg w :
  sdb_wf (w_db w) -> payable msg w ->
  exists s', runsW (preCheck msg) w (inr (m_gasLimit msg)) (mkWorld s' (w_gp w - m_gasLimit msg)) /\
             shifts (at_ (m_from msg) (- (m_gasLimit msg * m_price msg))) (w_db w) s'.
Proof.
  intros W P. destruct (ensure_run (m_from msg) _ W) as (s1&R1&H1).
  destruct (read_run (m_from msg) ac_Nonce s1 (proj2 R1)) as (s2&R2&H2&_).
  pose proof (shifts_trans _ _ _ _ _ H1 H2) as H12.
  assert (payable msg (mkWorld s2 (w_gp w))) as P2.
  { destruct P as [Hn Hg Hp Hpr Hf Ha]. split; cbn; try done; rewrite (shifts_account _ _ _ _ H12); cbn; [done|lia]. }
  destruct (buyGas_run msg (mkWorld s2 (w_gp w)) (proj2 R2) P2) as (s3&R3&H3). exists s3. split.
  - unfold preCheck. eapply runsW_bind; [by apply runsW_db|].
    eapply runsW_bind; [apply (runsW_db _ (mkWorld s1 _)); exact R2|]. cbv beta.
    replace (m_checkNonce msg && _) with false; [exact R3|]. symmetry. apply andb_false_iff.
    destruct (m_checkNonce msg) eqn:Ec; [right|by left]. apply negb_false_iff, Z.eqb_eq.
    by rewrite (pay_nonce _ _ P Ec), (shifts_account _ _ _ _ H1).
  - destruct (shifts_trans _ _ _ _ _ H12 H3) as [R E]. split; [done|]. intros b. rewrite E. done.
Qed.

(** The part of the account at [from] that [execute] changes besides the balances. *)
Definition stamped (msg : Message) (a : string) (d : Account) : Account :=
  if decide (m_from msg = a) then
    mkAccount (u64 (ac_Nonce d + 1)) (ac_Balance d)
      (if setsCMT (m_txCode msg) then m_cmt msg else ac_CMT d) (ac_Code d)
  else d.

Definition moved (msg : Message) (to : string) (b : string) : Z :=
  at_ (m_from msg) (- m_amount msg) b + at_ to (m_amount msg) b.

Lemma when_SetCMT_run b a c s : sdb_wf s ->
  exists s', runs (when b (SetCMT a c)) s tt s' /\
    changes (fun x d => if decide (a = x) then (if b then d <| ac_CMT := c |> else d) else d) s s'.
Proof.
  intros W. destruct b; cbn.
  - destruct (SetCMT_run a c s W) as (s'&E&W'&U). exists s'. split; [done|].
    destruct (updates_changes _ _ _ _ (fun d => d <| ac_CMT := c |>) U) as [R V]; [done|].
    split; [done|]. intros x. rewrite V. by case_decide.
  - exists s. split; [done|]. split; [done|]. intros x. by case_decide.
Qed.

Lemma execute_run msg to gas s :
  sdb_wf s -> m_to msg = Some to -> precompiled to = false -> ac_Code (account s to).1 = EmptyString ->
  m_amount msg <= ac_Balance (account s (m_from msg)).1 ->
  exists s', runs (execute config number msg gas) s (gas, None) s' /\
    changes (fun a d => shift (moved msg to a) (stamped msg a d)) s s'.
Proof.
  intros W Hto Hp Hc Hb. unfold execute. rewrite Hto.
  destruct (read_run (m_from msg) ac_Nonce s W) as (s1&R1&H1&_).
  destruct (SetNonce_acts (m_from msg) (u64 (ac_Nonce (account s (m_from msg)).1 + 1)) s1 (proj2 R1)) as (s2&A2&U2).
  pose proof (updates_changes _ _ _ _ (fun d => d <| ac_Nonce := u64 (ac_Nonce d + 1) |>) U2) as H2.
  destruct (ensure_run to s2 (acts_wf _ _ _ _ A2)) as (s3&R3&H3).
  pose proof (changes_trans _ _ _ _ _ (changes_trans _ _ _ _ _ H1
    (H2 ltac:(cbn; by rewrite (shifts_account _ _ _ _ H1)))) H3) as H13.
  destruct (Call_run (m_from msg) to (m_data msg) gas (m_amount msg) s3 (proj2 R3) Hp) as (s4&R4&H4).
  { destruct H13 as [_ ->]. cbn. by case_decide. }
  { destruct H13 as [_ ->]. cbn. rewrite decide_True by done. cbn. lia. }
  destruct (when_SetCMT_run (setsCMT (m_txCode msg)) (m_from msg) (m_cmt msg) s4 (proj2 R4)) as (s5&R5&H5).
  exists s5. split.
  - eapply runsD_bind; [exact R1|]. eapply runsD_bind; [by apply acts_runs|]. eapply runsD_bind; [exact R3|].
    eapply runsD_bind; [exact R4|]. eapply runsD_bind; [exact R5|]. split; [done|apply R5].
  - destruct (changes_trans _ _ _ _ _ (changes_trans _ _ _ _ _ H13 H4) H5) as [R E]. split; [done|].
    intros a. rewrite E. unfold stamped, moved, shift. case_decide; cbn; rewrite ?Z.add_0_r; [|done].
    by destruct (setsCMT _).
Qed.

Lemma refundGas_run msg initialGas gas w :
  sdb_wf (w_db w) -> sdb_refund (w_db w) = 0 -> is_u64 gas -> gas <= initialGas ->
  exists s', runsW (refundGas msg initialGas gas) w gas (mkWorld s' (w_gp w + gas)) /\
             shifts (at_ (m_from msg) (gas * m_price msg)) (w_db w) s'.
Proof.
  intros W Hr Hu Hg. destruct (ensure_run (m_from msg) _ W) as (s1&R1&H1).
  destruct (AddBalance_run (m_from msg) (gas * m_price msg) s1 (proj2 R1)) as (s2&R2&H2).
  pose proof (shifts_trans _ _ _ _ _ H1 H2) as H12.
  destruct (AddBalance_run (m_from msg) 0 s2 (proj2 R2)) as (s3&R3&H3).
  destruct (shifts_trans _ _ _ _ _ H12 H3) as [R E]. exists s3. split.
  - unfold refundGas. eapply runsW_bind; [by apply runsW_db|].
    eapply runsW_bind; [apply (runsW_db _ (mkWorld s1 _)); exact R2|].
    eapply runsW_bind; [apply (runsW_db _ (mkWorld s2 _)); by split; [|apply R2]|]. cbv zeta beta. cbn.
    destruct H12 as [[-> _] _]. rewrite Hr, Z.min_r, Z.add_0_r, u64_small by (done || (apply Z.div_pos; lia)).
    eapply runsW_bind; [apply (runsW_db _ (mkWorld s2 _)); exact R3|]. by split; [|apply R3].
  - split; [done|]. intros b. rewrite E. f_equal. unfold at_. case_decide; lia.
Qed.

(** The change of the plain balance that a code stands for. *)
Definition settlement (msg : Message) : Z :=
  let v := int64_of_u64 (m_zkValue msg) in
  if m_txCode msg =? TxConvert then - v
  else if (m_txCode msg =? TxRedeem) || (m_txCode msg =? TxWithdraw) then v else 0.

Lemma when_shift_run b (m : M StateDB unit) f s :
  sdb_wf s -> (exists s', runs m s tt s' /\ shifts f s s') ->
  exists s', runs (when b m) s tt s' /\ shifts (fun a => if b then f a else 0) s s'.
Proof. intros W H. destruct b; [exact H|]. exists s. split; [done|]. by apply shifts_same. Qed.

Lemma settle_run msg s : sdb_wf s ->
  exists s', runs (settle msg) s tt s' /\ shifts (at_ (m_from msg) (settlement msg)) s s'.
Proof.
  intros W. set (a := m_from msg). set (v := int64_of_u64 (m_zkValue msg)).
  destruct (when_shift_run (m_txCode msg =? TxConvert) _ _ s W (SubBalance_run a v s W)) as (s1&R1&H1).
  destruct (when_shift_run (m_txCode msg =? TxRedeem) _ _ s1 (proj2 R1) (AddBalance_run a v s1 (proj2 R1))) as (s2&R2&H2).
  destruct (when_shift_run (m_txCode msg =? TxWithdraw) _ _ s2 (proj2 R2) (AddBalance_run a v s2 (proj2 R2))) as (s3&R3&H3).
  exists s3. split; [eapply runsD_bind; [exact R1|]; eapply runsD_bind; [exact R2|]; exact R3|].
  destruct (shifts_trans _ _ _ _ _ (shifts_trans _ _ _ _ _ H1 H2) H3) as [R E]. split; [done|].
  intros b. rewrite E. f_equal. unfold settlement, at_. fold a v. case_decide.
  - unfold TxConvert, TxRedeem, TxWithdraw. destruct (Z.eqb_spec (m_txCode msg) 1), (Z.eqb_spec (m_txCode msg) 2),
      (Z.eqb_spec (m_txCode msg) 4); cbn; lia.
  - by do 3 destruct (_ =? _).
Qed.

(** What the account of [a] is after the transaction has run with [used] gas. *)
Definition effect (msg : Message) (to : string) (used : Z) (a : string) (d : Account) : Account :=
  shift (at_ (m_from msg) (settlement msg - used * m_price msg) a
         + moved msg to a + at_ coinbase (used * m_price msg) a) (stamped msg a d).

(** The run of a transaction to an account without code. *)
Lemma transition_run (msg : Message) (to : string) (w : World) :
  sdb_wf (w_db w) -> sdb_refund (w_db w) = 0 -> payable msg w ->
  m_to msg = Some to -> precompiled to = false -> ac_Code (account (w_db w) to).1 = EmptyString ->
  let used := IntrinsicGas (m_data msg) false (homestead config number) in
  0 <= used <= m_gasLimit msg ->
  exists s', runsW (TransitionDb config number coinbase msg) w (inr used) (mkWorld s' (w_gp w - used)) /\
    changes (effect msg to used) (w_db w) s'.
Proof.
  intros W Hr P Hto Hp Hc used Hu.
  destruct (preCheck_run msg w W P) as (s1&R1&H1).
  destruct (ensure_run (m_from msg) s1 (proj2 R1)) as (s2&R2&H2).
  pose proof (shifts_trans _ _ _ _ _ H1 H2) as H12.
  destruct (execute_run msg to (m_gasLimit msg - used) s2 (proj2 R2) Hto Hp) as (s3&R3&H3).
  { rewrite (shifts_account _ _ _ _ H12). exact Hc. }
  { rewrite (shifts_account _ _ _ _ H12). cbn. unfold at_. rewrite decide_True by done.
    pose proof (pay_funds _ _ P). lia. }
  pose proof (changes_trans _ _ _ _ _ H12 H3) as H13. pose proof (pay_gas _ _ P) as Hg.
  destruct (refundGas_run msg (m_gasLimit msg) (m_gasLimit msg - used)
              (mkWorld s3 (w_gp w - m_gasLimit msg)) (proj2 R3)) as (s4&R4&H4).
  { cbn. destruct H13 as [[-> _] _]. done. }
  { split; lia. }
  { lia. }
  cbn in R4, H4.
  destruct (AddBalance_run coinbase (used * m_price msg) s4 (proj2 R4)) as (s5&R5&H5).
  destruct (settle_run msg s5 (proj2 R5)) as (s6&R6&H6).
  destruct (changes_trans _ _ _ _ _ (changes_trans _ _ _ _ _ (changes_trans _ _ _ _ _ H13 H4) H5) H6) as [K E].
  exists s6. split.
  - unfold TransitionDb. eapply runsW_try; [exact R1|]. cbv beta.
    eapply runsW_bind; [apply (runsW_db _ (mkWorld s1 _)); exact R2|]. rewrite Hto. cbn [w_gp].
    rewrite (bool_decide_false (Some to = None)) by done. fold used.
    rewrite (proj2 (Z.leb_gt _ _)), (proj2 (Z.ltb_ge _ _)) by lia.
    eapply runsW_bind; [apply (runsW_db _ (mkWorld s2 _)); exact R3|]. cbn [w_gp].
    rewrite bool_decide_false by done. eapply runsW_bind; [exact R4|].
    replace (m_gasLimit msg - (m_gasLimit msg - used)) with used by lia.
    eapply runsW_bind; [apply (runsW_db _ (mkWorld s4 _)); exact R5|].
    eapply runsW_bind; [apply (runsW_db _ (mkWorld s5 _)); exact R6|]. split; [|apply R6].
    unfold ok, ret. cbn. do 3 f_equal. lia.
  - split; [done|]. intros a. rewrite E. unfold effect, shift, stamped, at_. case_decide; cbn; f_equal; lia.
Qed.

(** C30: the effect of a transaction to an account without code: with its nonce,
    gas and funds in order it succeeds, uses exactly the intrinsic gas, and
    changes exactly this: the amount moves from the sender to the recipient, the
    fee from the sender to the coinbase, the plain balance of the sender by the
    value its code converts, redeems or withdraws, the sender's nonce by one and
    its commitment to the new one if its code has one. *)
Theorem transition_effect (msg : Message) (to : string) (w : World) :
  sdb_wf (w_db w) -> sdb_refund (w_db w) = 0 -> payable msg w ->
  m_to msg = Some to -> precompiled to = false -> ac_Code (account (w_db w) to).1 = EmptyString ->
  let used := IntrinsicGas (m_data msg) false (homestead config number) in
  0 <= used <= m_gasLimit msg ->
  exists s', TransitionDb config number coinbase msg w = (Ret (inr used), mkWorld s' (w_gp w - used)) /\
    forall a, (account s' a).1 = effect msg to used a (account (w_db w) a).1.
Proof.
  intros W Hr P Hto Hp Hc used Hu. destruct (transition_run msg to w W Hr P Hto Hp Hc Hu) as (s'&[E _]&[_ Ha]).
  by exists s'.
Qed.
End Effects.
