(* ===== verification/ZkSafety.v ===== *)
(** * ZkSafety: a serial number is spent once

    Every zero-knowledge transaction names a serial number, and its proof shows
    that the number belongs to the commitment it spends.  That the same number is
    not used twice rests on the account state alone: the first use creates an
    account at the address the number is truncated to.  What is shown here is that
    no later step of a block removes such an account, whatever contracts run. *)
From S2P Require Import Prelude.
From S2P Require Import Messages.
From S2P Require Import StateDB.
From S2P Require Import Tx.
From S2P Require Import ZkTx.
From S2P Require Import ZkEffects.

Lemma try_inv {A B} (m : M World (txErr + A)) (k : A -> M World (txErr + B)) w b w2 :
  try m k w = (Ret (inr b), w2) ->
  exists a w1, m w = (Ret (inr a), w1) /\ k a w1 = (Ret (inr b), w2).
Proof. intros H. apply bind_inv in H as ([e|a]&w1&E&H); [done|by exists a, w1]. Qed.

Lemma try_try {A B C} (m : M World (txErr + A)) (k : A -> M World (txErr + B)) (k2 : B -> M World (txErr + C)) w :
  try (try m k) k2 w = try m (fun a => try (k a) k2) w.
Proof. unfold try, bind. by destruct (m w) as [[[e|a]| |] w1]. Qed.

Lemma db_inv {A} (m : M StateDB A) w r w' :
  db m w = (Ret r, w') -> exists s', m (w_db w) = (Ret r, s') /\ w' = mkWorld s' (w_gp w).
Proof. unfold db. destruct (m (w_db w)) as [o s']. intros [= -> <-]. by exists s'. Qed.

(** ** Keeping marked accounts *)

Section Keeps.
Context (mark : string -> Prop).

Definition keeps (s s' : StateDB) : Prop := forall a, mark a -> spent s a -> spent s' a.
#[export] Instance keeps_po : PreOrder keeps.
Proof. split; [by intros s a|]. intros s t u H1 H2 a Ha. auto. Qed.

Lemma keepsSpent_keeps s s' : keepsSpent s s' -> keeps s s'.
Proof. intros H a _. apply H. Qed.

Lemma equiv_keeps s s' : s' ≡ s -> keeps s s'.
Proof. intros Q a _. by rewrite Q. Qed.

(** A journaled action that keeps the marked accounts. *)
Definition kacts {A} (m : M StateDB A) (s : StateDB) (r : A) (s' : StateDB) : Prop :=
  acts m s r s' /\ keeps s s'.

Lemma kacts_bind {A B} (m : M StateDB A) (f : A -> M StateDB B) s r s1 r2 s2 :
  kacts m s r s1 -> kacts (f r) s1 r2 s2 -> kacts (bind m f) s r2 s2.
Proof. intros [A1 K1] [A2 K2]. split; [by eapply acts_bind|by transitivity s1]. Qed.

Lemma kacts_ret {A} (r : A) s : sdb_wf s -> kacts (ret r) s r s.
Proof. intros W. split; [by apply acts_silent|done]. Qed.

Lemma kacts_eq {A} (m : M StateDB A) s r s' : kacts m s r s' -> m s = (Ret r, s').
Proof. by intros [[E _] _]. Qed.

Lemma kacts_wf {A} (m : M StateDB A) s r s' : kacts m s r s' -> sdb_wf s'.
Proof. intros [A1 _]. by eapply acts_wf. Qed.

Lemma updates_keeps a d s s' :
  updates a d s s' ->
  (mark a -> spent s a -> d.2 = false /\ ac_Nonce d.1 <> 0 /\ ac_Code d.1 = EmptyString) -> keeps s s'.
Proof.
  intros [_ U] Hd b Hm Hb. unfold spent. rewrite U. case_decide; [|exact Hb]. subst b.
  destruct (Hd Hm Hb) as (H1&H2&H3). destruct d as [d ?]. cbn in *. subst. by exists d.
Qed.

Lemma kacts_get a s : sdb_wf s ->
  exists s', kacts (getStateObject a) s (match view s a with Some _ => sdb_objects s' !! a | None => None end) s'
    /\ s' ≡ s
    /\ (forall d, view s a = Some d ->
         exists o, sdb_objects s' !! a = Some o /\ so_deleted o = false /\ (so_data o, so_suicided o) = d).
Proof.
  intros W. destruct (acts_read a s W) as (s'&A&Q&L). exists s'. split; [|done]. split; [done|by apply equiv_keeps].
Qed.

Lemma kacts_read {A} a (f : Account -> A) s : sdb_wf s ->
  exists s', kacts (read a f (f emptyAccount)) s (f (account s a).1) s' /\ s' ≡ s.
Proof.
  intros W. destruct (kacts_get a s W) as (s'&A1&Q&L). exists s'. split; [|done].
  eapply kacts_bind; [exact A1|]. replace (f (account s a).1)
    with (match match view s a with Some _ => sdb_objects s' !! a | None => None end with
          | Some o => f (so_data o) | None => f emptyAccount end); [by eapply kacts_ret, kacts_wf|].
  unfold account. destruct (view s a) as [d|]; [|done]. by destruct (L d eq_refl) as (o&->&_&<-).
Qed.

Lemma kacts_Exist a s : sdb_wf s ->
  exists s', kacts (Exist a) s (bool_decide (is_Some (view s a))) s' /\ s' ≡ s.
Proof.
  intros W. destruct (kacts_get a s W) as (s'&A1&Q&L). exists s'. split; [|done].
  eapply kacts_bind; [exact A1|]. replace (bool_decide (is_Some (view s a)))
    with (match match view s a with Some _ => sdb_objects s' !! a | None => None end with
          | Some _ => true | None => false end); [by eapply kacts_ret, kacts_wf|].
  destruct (view s a) as [d|]; [|done]. by destruct (L d eq_refl) as (o&->&_).
Qed.

(** Every setter either leaves what is spent, or is not applied to a marked account. *)
Lemma kacts_updates m a d s : (exists s', acts m s tt s' /\ updates a d s s') ->
  (mark a -> spent s a -> d.2 = false /\ ac_Nonce d.1 <> 0 /\ ac_Code d.1 = EmptyString) ->
  exists s', kacts m s tt s' /\ updates a d s s'.
Proof.
  intros (s'&A&U) Hd. exists s'. split; [split; [done|]|done]. by eapply updates_keeps.
Qed.

Lemma kacts_AddBalance a x s : sdb_wf s -> exists s', kacts (AddBalance a x) s tt s'.
Proof.
  intros W. destruct (kacts_updates _ _ _ _ (AddBalance_acts a x s W)) as (s'&K&_); [|by exists s'].
  intros _ Hs. by apply spent_account in Hs.
Qed.

Lemma kacts_SubBalance a x s : sdb_wf s -> exists s', kacts (SubBalance a x) s tt s'.
Proof.
  intros W. destruct (kacts_updates _ _ _ _ (SubBalance_acts a x s W)) as (s'&K&_); [|by exists s'].
  intros _ Hs. by apply spent_account in Hs.
Qed.

Lemma kacts_SetNonce a n s : n <> 0 -> sdb_wf s ->
  exists s', kacts (SetNonce a n) s tt s' /\
    updates a ((account s a).1 <| ac_Nonce := n |>, (account s a).2) s s'.
Proof.
  intros Hn W. apply kacts_updates; [by apply SetNonce_acts|]. intros _ Hs. by apply spent_account in Hs as (?&?&?).
Qed.

Lemma kacts_SetCode a c s : ~ mark a -> sdb_wf s -> exists s', kacts (SetCode a c) s tt s'.
Proof.
  intros Hm W. destruct (kacts_updates _ _ _ _ (SetCode_acts a c s W)) as (s'&K&_); [done|by exists s'].
Qed.

Lemma kacts_CreateAccount a s : (mark a -> ~ spent s a) -> sdb_wf s ->
  exists s', kacts (CreateAccount a) s tt s' /\
    updates a (mkAccount 0 (ac_Balance (account s a).1) (ac_CMT (account s a).1) EmptyString, false) s s'.
Proof.
  intros Hm W. apply kacts_updates; [by apply CreateAccount_acts|]. intros Ha Hs. by destruct (Hm Ha).
Qed.

Lemma kacts_when b m s : sdb_wf s -> (exists s', kacts m s tt s') -> exists s', kacts (when b m) s tt s'.
Proof. intros W H. destruct b; [done|]. exists s. by apply kacts_ret. Qed.

Lemma kacts_seq (m1 m2 : M StateDB unit) s :
  (exists s1, kacts m1 s tt s1) -> (forall s1, sdb_wf s1 -> exists s2, kacts m2 s1 tt s2) ->
  exists s', kacts (m1 ;; m2) s tt s'.
Proof.
  intros [s1 K1] H. destruct (H s1 (kacts_wf _ _ _ _ K1)) as [s2 K2]. exists s2. by eapply kacts_bind.
Qed.

(** Some journaled action leads from [s] to [s']. *)
Definition steps (s s' : StateDB) : Prop := exists m : M StateDB unit, kacts m s tt s'.

Lemma kacts_steps {A} (m : M StateDB A) s r s' : kacts m s r s' -> steps s s'.
Proof.
  intros K. exists (m ;; ret tt). eapply kacts_bind; [exact K|]. eapply kacts_ret, kacts_wf, K.
Qed.

#[export] Instance steps_trans : Transitive steps.
Proof. intros s t u [m1 K1] [m2 K2]. exists (m1 ;; m2). by eapply kacts_bind. Qed.

Lemma Exist_spent a s s' : s' ≡ s -> bool_decide (is_Some (view s a)) = false -> ~ spent s' a.
Proof.
  intros Q E Hs. rewrite Q in Hs. destruct Hs as (d&Hv&_). apply bool_decide_eq_false in E. apply E. by rewrite Hv.
Qed.

(** The account is created where there is none. *)
Lemma kacts_create_new a s s1 : s1 ≡ s -> sdb_wf s1 ->
  exists s2, kacts (when (negb (bool_decide (is_Some (view s a)))) (CreateAccount a)) s1 tt s2.
Proof.
  intros Q W. destruct (bool_decide (is_Some (view s a))) eqn:E; cbn; [exists s1; by apply kacts_ret|].
  destruct (kacts_CreateAccount a s1) as (s2&K&_); [|done|by exists s2].
  intros _. by apply (Exist_spent a s).
Qed.

Lemma kacts_ensure a s : sdb_wf s -> exists s', kacts (ensure a) s tt s'.
Proof.
  intros W. destruct (kacts_Exist a s W) as (s1&K1&Q1).
  destruct (kacts_create_new a s s1 Q1 (kacts_wf _ _ _ _ K1)) as (s2&K2). exists s2. by eapply kacts_bind.
Qed.
End Keeps.

(** Changes of balances and commitments keep what is spent. *)
Lemma changes_keeps mark f s s' :
  changes f s s' ->
  (forall a d, ac_Nonce d <> 0 -> ac_Nonce (f a d) <> 0 /\ ac_Code (f a d) = ac_Code d) -> keeps mark s s'.
Proof.
  intros [[_ Hs] Ha] Hf a _ Hsp. pose proof (spent_account _ _ Hsp) as (S1&N1&C1).
  destruct (Hf a _ N1) as [N2 C2]. rewrite <- Ha in N2, C2. specialize (Hs a). rewrite S1 in Hs.
  unfold spent, account in *. destruct (view s' a) as [[d b]|]; cbn in *; [|done]. subst b. exists d. split_and!; congruence.
Qed.

Lemma shifts_keeps mark f s s' : shifts f s s' -> keeps mark s s'.
Proof. intros H. by apply (changes_keeps _ _ _ _ H). Qed.

(** ** The virtual machine *)

Section Machine.
Context `{ZE : ZkEnv} (config : ChainConfig) (number : Z) (coinbase : string) (mark : string -> Prop).

(** What is assumed of the interpreter: it changes the state through the
    journaled operations, and neither suicides nor resets a marked account, which
    has no code and is not the address of a new contract. *)
Class ZkLaws : Prop := {
  create_unmarked : forall c n, ~ mark (CreateAddress c n);
  vm_law : forall a code input gas value s r s', sdb_wf s ->
    (mark a -> spent s a -> precompiled a = true) ->
    vm_run a code input gas value s = (Ret r, s') ->
    kacts mark (vm_run a code input gas value) s r s';
}.
Context `{LZ : ZkLaws}.

Lemma run_kacts a code input gas value s r s' :
  sdb_wf s -> (mark a -> spent s a -> code = EmptyString) ->
  run a code input gas value s = (Ret r, s') -> kacts mark (run a code input gas value) s r s'.
Proof.
  intros W Hc. unfold run. destruct (negb (precompiled a) && bool_decide (code = EmptyString)) eqn:E.
  - intros [= <- <-]. by apply kacts_ret.
  - apply vm_law; [done|]. intros Hm Hs. specialize (Hc Hm Hs). subst code.
    rewrite bool_decide_true, andb_true_r in E by done. by apply negb_false_iff in E.
Qed.

(** Reverting to the snapshot keeps what was spent before it. *)
Lemma reverted_keeps s s1 s2 :
  sdb_wf s -> steps mark (snapped s) s1 -> RevertToSnapshot (sdb_next s) s1 = (Ret tt, s2) ->
  sdb_wf s2 /\ keeps mark s s2.
Proof.
  intros W (m&Hm&_) E. destruct (revert_snapped _ s s1 W Hm) as (s3&E3&W3&Q3&_).
  rewrite E3 in E. injection E as <-. split; [done|by apply equiv_keeps].
Qed.

(** The steps of [Call] between its snapshot and its end. *)
Lemma Call_keeps caller a input gas value s r s' :
  sdb_wf s -> Call config number caller a input gas value s = (Ret r, s') ->
  sdb_wf s' /\ keeps mark s s'.
Proof.
  intros W. unfold Call, CanTransfer.
  destruct (kacts_read mark caller ac_Balance s W) as (s1&K1&Q1).
  assert (kacts mark (CanTransfer caller value) s (value <=? ac_Balance (account s caller).1) s1) as K1'.
  { eapply kacts_bind; [exact K1|]. eapply kacts_ret, kacts_wf, K1. }
  pose proof (kacts_wf _ _ _ _ _ K1) as W1.
  assert (keeps mark s s1) as H1 by apply K1.
  unfold CanTransfer in K1'. rewrite (bind_eq _ _ _ _ _ (kacts_eq _ _ _ _ _ K1')).
  destruct (negb _); [intros [=]; subst; by split|].
  rewrite (bind_eq _ _ _ _ _ (proj1 (Snapshot_acts s1 W1))).
  pose proof (acts_wf _ _ _ _ (Snapshot_acts s1 W1)) as Ws.
  destruct (kacts_Exist mark a _ Ws) as (s2&K2&Q2). rewrite (bind_eq _ _ _ _ _ (kacts_eq _ _ _ _ _ K2)).
  set (ex := bool_decide _) in *. pose proof (kacts_wf _ _ _ _ _ K2) as W2.
  assert (keeps mark s s2) as H2.
  { etrans; [exact H1|]. transitivity (snapped s1); [|apply K2]. by intros b _ Hs. }
  destruct (negb ex && negb (precompiled a) && eip158 config number && (value =? 0)); [intros [= <- <-]; by split|].
  destruct (kacts_create_new mark a _ s2 Q2 W2) as (s3&K3). fold ex in K3.
  destruct (kacts_seq mark (SubBalance caller value) (AddBalance a value) s3) as (s4&K4).
  { eapply kacts_SubBalance, kacts_wf, K3. } { intros ?. apply kacts_AddBalance. }
  destruct (kacts_read mark a ac_Code s4) as (s5&K5&Q5); [eapply kacts_wf, K4|].
  rewrite (bind_eq _ _ _ _ _ (kacts_eq _ _ _ _ _ K3)), (bind_eq _ _ _ _ _ (kacts_eq _ _ _ _ _ K4)),
    (bind_eq _ _ _ _ _ (kacts_eq _ _ _ _ _ K5)).
  intros H. apply bind_inv in H as ([[out rest] err]&s6&E6&H).
  assert (kacts mark (run a (ac_Code (account s4 a).1) input gas value) s5 (out, rest, err) s6) as K6.
  { apply run_kacts; [eapply kacts_wf, K5| |done]. intros _ Hs. rewrite Q5 in Hs. by apply spent_account in Hs as (_&_&?). }
  assert (steps mark (snapped s1) s6) as K.
  { etrans; [eapply kacts_steps, K2|]. etrans; [eapply kacts_steps, K3|].
    etrans; [eapply kacts_steps, K4|]. etrans; [eapply kacts_steps, K5|]. eapply kacts_steps, K6. }
  destruct err as [e|].
  - apply bind_inv in H as ([]&s7&E7&[= <- <-]).
    destruct (reverted_keeps _ _ _ W1 K E7) as [W7 K7]. split; [done|]. by transitivity s1.
  - injection H as <- <-. destruct K as [m K]. split; [by eapply kacts_wf|].
    transitivity (snapped s1); [exact H1|apply K].
Qed.

Lemma CanTransfer_kacts caller value s : sdb_wf s ->
  exists s', kacts mark (CanTransfer caller value) s (value <=? ac_Balance (account s caller).1) s' /\ s' ≡ s.
Proof.
  intros W. destruct (kacts_read mark caller ac_Balance s W) as (s1&K1&Q1). exists s1. split; [|done].
  eapply kacts_bind; [exact K1|]. eapply kacts_ret, kacts_wf, K1.
Qed.

Lemma Transfer_kacts caller a value s : sdb_wf s -> exists s', kacts mark (Transfer caller a value) s tt s'.
Proof.
  intros W. apply kacts_seq; [by apply kacts_SubBalance|]. intros ?. apply kacts_AddBalance.
Qed.

(** The last part of [Create]: the code is stored, or the state reverted. *)
Definition finishCreate (addr : string) (id : nat) (r : string * Z * option txErr) : M StateDB (Z * option txErr) :=
  let '(out, rest, err) := r in
  let size := Z.of_nat (String.length out) in
  let tooBig := MaxCodeSize <? size in
  let dataGas := u64 (size * CreateDataGas) in
  stored <-
    (if bool_decide (err = None) && negb tooBig then
       if rest <? dataGas then ret (rest, Some ErrCodeStoreOutOfGas)
       else SetCode addr out ;; ret (rest - dataGas, None)
     else ret (rest, err)) ;;
  let '(rest, err) := stored in
  if tooBig || (negb (bool_decide (err = None))
                && (homestead config number || negb (bool_decide (err = Some ErrCodeStoreOutOfGas))))
  then RevertToSnapshot id ;; ret (0, err)
  else ret (rest, err).

Lemma finishCreate_keeps addr r0 s s1 r s' :
  ~ mark addr -> sdb_wf s -> sdb_wf s1 -> steps mark (snapped s) s1 ->
  finishCreate addr (sdb_next s) r0 s1 = (Ret r, s') -> sdb_wf s' /\ keeps mark s s'.
Proof.
  intros Hm W W1 K. destruct r0 as [[out rest] err]. unfold finishCreate. intros H.
  apply bind_inv in H as ([rest' err']&s2&E2&H).
  assert (sdb_wf s2 /\ steps mark (snapped s) s2) as [W2 K2].
  { clear H. repeat case_match; try (unfold ret in E2; simplify_eq; done).
    apply bind_inv in E2 as ([]&s3&E3&[= <- <- <-]).
    destruct (kacts_SetCode mark addr out s1 Hm W1) as (s4&K4). rewrite (kacts_eq _ _ _ _ _ K4) in E3.
    injection E3 as <-. split; [by eapply kacts_wf|]. etrans; [exact K|eapply kacts_steps, K4]. }
  case_match.
  - apply bind_inv in H as ([]&s3&E3&[= <- <-]). by eapply reverted_keeps.
  - injection H as <- <-. split; [done|]. destruct K2 as [m K2]. transitivity (snapped s); [|apply K2].
    by intros b _ Hs.
Qed.

Lemma Create_keeps caller code gas value s r s' :
  sdb_wf s -> u64 (ac_Nonce (account s caller).1 + 1) <> 0 ->
  Create config number caller code gas value s = (Ret r, s') -> sdb_wf s' /\ keeps mark s s'.
Proof.
  intros W Hn. unfold Create.
  destruct (CanTransfer_kacts caller value s W) as (s1&K1&Q1). rewrite (bind_eq _ _ _ _ _ (kacts_eq _ _ _ _ _ K1)).
  destruct (negb _); [intros [= <- <-]; split; [by eapply kacts_wf|apply K1]|].
  destruct (kacts_read mark caller ac_Nonce s1 (kacts_wf _ _ _ _ _ K1)) as (s2&K2&Q2).
  rewrite (bind_eq _ _ _ _ _ (kacts_eq _ _ _ _ _ K2)).
  destruct (kacts_SetNonce mark caller (u64 (ac_Nonce (account s1 caller).1 + 1)) s2) as (s3&K3&_);
    [by unfold account; rewrite Q1|by eapply kacts_wf|]. rewrite (bind_eq _ _ _ _ _ (kacts_eq _ _ _ _ _ K3)).
  pose proof (kacts_wf _ _ _ _ _ K3) as W3.
  rewrite (bind_eq _ _ _ _ _ (proj1 (Snapshot_acts s3 W3))). cbv zeta.
  set (addr := CreateAddress caller _). assert (~ mark addr) as Hm by apply create_unmarked.
  destruct (kacts_CreateAccount mark addr (snapped s3)) as (s4&K4&_); [done|by eapply acts_wf, Snapshot_acts|].
  destruct (kacts_when mark (eip158 config number) (SetNonce addr 1) s4 (kacts_wf _ _ _ _ _ K4)) as (s5&K5).
  { destruct (kacts_SetNonce mark addr 1 s4 ltac:(done) (kacts_wf _ _ _ _ _ K4)) as (s5&K5&_). by exists s5. }
  destruct (Transfer_kacts caller addr value s5 (kacts_wf _ _ _ _ _ K5)) as (s6&K6).
  rewrite (bind_eq _ _ _ _ _ (kacts_eq _ _ _ _ _ K4)), (bind_eq _ _ _ _ _ (kacts_eq _ _ _ _ _ K5)),
    (bind_eq _ _ _ _ _ (kacts_eq _ _ _ _ _ K6)).
  intros H. apply bind_inv in H as (r0&s7&E7&H).
  assert (kacts mark (run addr code EmptyString gas value) s6 r0 s7) as K7.
  { apply run_kacts; [by eapply kacts_wf|done|done]. }
  destruct (finishCreate_keeps addr r0 s3 s7 r s' Hm W3 (kacts_wf _ _ _ _ _ K7)) as [W' K']; [|exact H|].
  - etrans; [eapply kacts_steps, K4|]. etrans; [eapply kacts_steps, K5|].
    etrans; [eapply kacts_steps, K6|]. eapply kacts_steps, K7.
  - split; [done|]. transitivity s1; [apply K1|]. transitivity s2; [apply K2|]. transitivity s3; [apply K3|exact K'].
Qed.

(** ** The state transition *)

(** [msg]'s nonce can be increased. *)
Definition nonce_ok (msg : Message) : Prop := m_checkNonce msg = true /\ 0 <= m_nonce msg < two64 - 1.

Lemma nonce_ok_next msg n : nonce_ok msg -> n = m_nonce msg -> u64 (n + 1) <> 0.
Proof. intros [_ ?] ->. rewrite u64_small by (unfold is_u64; lia). lia. Qed.

(** A step of the transition that keeps the marked accounts and the nonces. *)
Definition mild (w w' : World) : Prop := sdb_wf (w_db w') /\ exists f, shifts f (w_db w) (w_db w').

Lemma mild_refl w : sdb_wf (w_db w) -> mild w w.
Proof. split; [done|]. exists (fun _ => 0). by apply shifts_same. Qed.

Lemma mild_trans w1 w2 w3 : mild w1 w2 -> mild w2 w3 -> mild w1 w3.
Proof. intros [_ [f Hf]] [W [g Hg]]. split; [done|]. eexists. by eapply shifts_trans. Qed.

Lemma mild_db {A} (m : M StateDB A) w r w' f :
  (exists r0 s', runs m (w_db w) r0 s' /\ shifts f (w_db w) s') ->
  db m w = (Ret r, w') -> mild w w'.
Proof.
  intros (r0&s'&[E W]&H) Hm. apply db_inv in Hm as (s2&E2&->). rewrite E in E2. injection E2 as <- <-.
  split; [done|by exists f].
Qed.

Lemma mild_nonce w w' a : mild w w' -> ac_Nonce (account (w_db w') a).1 = ac_Nonce (account (w_db w) a).1.
Proof. intros [_ [f [_ E]]]. by rewrite E. Qed.

Lemma mild_keeps w w' : mild w w' -> sdb_wf (w_db w') /\ keeps mark (w_db w) (w_db w').
Proof. intros [W [f H]]. split; [done|by eapply shifts_keeps]. Qed.

Lemma mild_ensure a w r w' : sdb_wf (w_db w) -> db (ensure a) w = (Ret r, w') -> mild w w'.
Proof. intros W. apply (mild_db _ _ _ _ (fun _ => 0)). exists tt. by apply ensure_run. Qed.

Lemma mild_read {A} a (f : Account -> A) w r w' :
  sdb_wf (w_db w) -> db (read a f (f emptyAccount)) w = (Ret r, w') ->
  r = f (account (w_db w) a).1 /\ mild w w'.
Proof.
  intros W Hm. destruct (read_run a f (w_db w) W) as (s'&R&H&_). split.
  - apply db_inv in Hm as (s2&E2&->). destruct R as [E _]. rewrite E in E2. by injection E2.
  - eapply mild_db; [|exact Hm]. eauto.
Qed.

Lemma mild_AddBalance a x w r w' : sdb_wf (w_db w) -> db (AddBalance a x) w = (Ret r, w') -> mild w w'.
Proof. intros W. apply (mild_db _ _ _ _ (at_ a x)). exists tt. by apply AddBalance_run. Qed.

Lemma mild_SubBalance a x w r w' : sdb_wf (w_db w) -> db (SubBalance a x) w = (Ret r, w') -> mild w w'.
Proof. intros W. apply (mild_db _ _ _ _ (at_ a (- x))). exists tt. by apply SubBalance_run. Qed.

Lemma mild_settle msg w r w' : sdb_wf (w_db w) -> db (settle msg) w = (Ret r, w') -> mild w w'.
Proof. intros W. apply (mild_db _ _ _ _ (at_ (m_from msg) (settlement msg))). exists tt. by apply settle_run. Qed.

Lemma preCheck_mild msg w g w' :
  sdb_wf (w_db w) -> preCheck msg w = (Ret (inr g), w') ->
  mild w w' /\ (m_checkNonce msg = true -> ac_Nonce (account (w_db w') (m_from msg)).1 = m_nonce msg).
Proof.
  intros W H. unfold preCheck in H. apply bind_inv in H as ([]&w1&E1&H). apply mild_ensure in E1; [|done].
  apply bind_inv in H as (n&w2&E2&H). apply mild_read in E2 as [-> E2]; [|apply E1].
  destruct (m_checkNonce msg && _) eqn:Ec; [done|]. cut (mild w2 w').
  { intros E3. pose proof (mild_trans _ _ _ E1 (mild_trans _ _ _ E2 E3)) as E. split; [done|].
    intros Hc. rewrite Hc in Ec. cbn in Ec. apply negb_false_iff, Z.eqb_eq in Ec.
    by rewrite (mild_nonce _ _ _ (mild_trans _ _ _ E2 E3)), Ec. }
  unfold buyGas in H. case_match; [done|]. apply bind_inv in H as ([]&w3&E3&H).
  apply mild_ensure in E3; [|apply E2]. apply bind_inv in H as (b&w4&E4&H).
  apply mild_read in E4 as [_ E4]; [|apply E3]. case_match; [done|].
  apply try_inv in H as ([]&w5&E5&H).
  assert (w_db w5 = w_db w4) as Q5.
  { unfold SubGas, bind, get, modify in E5. cbn in E5. case_match; [done|]. by injection E5 as <-. }
  apply bind_inv in H as ([]&w6&E6&H). apply mild_SubBalance in E6; [|rewrite Q5; apply E4].
  injection H as _ <-. eapply mild_trans; [exact E3|].
  eapply mild_trans; [exact E4|]. unfold mild in *. by rewrite Q5 in E6.
Qed.

Lemma refundGas_mild msg i g w r w' :
  sdb_wf (w_db w) -> refundGas msg i g w = (Ret r, w') -> mild w w'.
Proof.
  intros W H. unfold refundGas in H. apply bind_inv in H as ([]&w1&E1&H). apply mild_ensure in E1; [|done].
  apply bind_inv in H as ([]&w2&E2&H). apply mild_AddBalance in E2; [|apply E1].
  apply bind_inv in H as (s&w3&E3&H). injection E3 as _ <-.
  apply bind_inv in H as ([]&w4&E4&H). apply mild_AddBalance in E4; [|apply E2].
  injection H as _ <-. eapply mild_trans; [exact E1|]. eapply mild_trans; [exact E2|]. exact E4.
Qed.

Lemma execute_keeps msg gas s r s' :
  sdb_wf s -> nonce_ok msg -> ac_Nonce (account s (m_from msg)).1 = m_nonce msg ->
  execute config number msg gas s = (Ret r, s') -> sdb_wf s' /\ keeps mark s s'.
Proof.
  intros W Hn Hm. pose proof (nonce_ok_next _ _ Hn Hm) as Hu. unfold execute. destruct (m_to msg) as [to|];
    [|by apply Create_keeps].
  destruct (kacts_read mark (m_from msg) ac_Nonce s W) as (s1&K1&Q1). rewrite (bind_eq _ _ _ _ _ (kacts_eq _ _ _ _ _ K1)).
  destruct (kacts_SetNonce mark (m_from msg) _ s1 Hu (kacts_wf _ _ _ _ _ K1)) as (s2&K2&_).
  destruct (kacts_ensure mark to s2 (kacts_wf _ _ _ _ _ K2)) as (s3&K3).
  rewrite (bind_eq _ _ _ _ _ (kacts_eq _ _ _ _ _ K2)), (bind_eq _ _ _ _ _ (kacts_eq _ _ _ _ _ K3)).
  intros H. apply bind_inv in H as (r1&s4&E4&H). apply Call_keeps in E4 as [W4 H4]; [|by eapply kacts_wf].
  destruct (when_SetCMT_run (setsCMT (m_txCode msg)) (m_from msg) (m_cmt msg) s4 W4) as (s5&[E5 W5]&H5).
  rewrite (bind_eq _ _ _ _ _ E5) in H. injection H as _ <-. split; [done|].
  transitivity s1; [apply K1|]. transitivity s2; [apply K2|]. transitivity s3; [apply K3|].
  transitivity s4; [done|]. apply (changes_keeps _ _ _ _ H5). intros a d. by case_decide; [case_match|].
Qed.

Lemma TransitionDb_keeps msg w g w' :
  sdb_wf (w_db w) -> nonce_ok msg -> TransitionDb config number coinbase msg w = (Ret (inr g), w') ->
  sdb_wf (w_db w') /\ keeps mark (w_db w) (w_db w').
Proof.
  intros W Hn H. unfold TransitionDb in H. apply try_inv in H as (ig&w1&E1&H).
  apply preCheck_mild in E1 as [E1 Hm]; [|done]. apply bind_inv in H as ([]&w2&E2&H).
  apply mild_ensure in E2; [|apply E1]. case_match; [done|]. case_match; [done|].
  apply bind_inv in H as ([gas err]&w3&E3&H). apply db_inv in E3 as (s3&E3&->).
  apply execute_keeps in E3 as [W3 K3]; [|apply E2|done|by rewrite (mild_nonce _ _ _ E2); apply Hm, Hn].
  case_match; [done|]. apply bind_inv in H as (g4&w4&E4&H). apply refundGas_mild in E4; [|done].
  apply bind_inv in H as ([]&w5&E5&H). apply mild_AddBalance in E5; [|apply E4].
  apply bind_inv in H as ([]&w6&E6&H). apply mild_settle in E6; [|apply E5]. injection H as _ <-.
  apply mild_keeps in E1 as [_ K1]. apply mild_keeps in E2 as [_ K2].
  apply mild_keeps in E4 as [_ K4]. apply mild_keeps in E5 as [_ K5]. apply mild_keeps in E6 as [W6 K6].
  split; [done|]. cbn in K4. etrans; [exact K1|]. etrans; [exact K2|]. etrans; [exact K3|].
  etrans; [exact K4|]. etrans; [exact K5|exact K6].
Qed.

(** ** Blocks *)

(** The serial-number addresses a transaction uses up; the zero number, which
    marks nothing, is exempt. *)
Definition snOf (tx : Transaction) : list string :=
  if (tx_TxType tx =? TxZK) && setsCMT (tx_TxCode tx) && negb (bool_decide (tx_ZKSN tx = zeroHash))
  then [snAddress tx] else [].

Definition spentSNs (txs : list Transaction) : list string := flat_map snOf txs.

Lemma checkZK_keeps tx from s s' :
  sdb_wf s -> checkZK tx from s = (Ret (inr tt), s') ->
  sdb_wf s' /\ keeps mark s s' /\
  (setsCMT (tx_TxCode tx) = true -> tx_ZKSN tx <> zeroHash ->
     ~ spent s (snAddress tx) /\ spent s' (snAddress tx)).
Proof.
  intros W. unfold checkZK. destruct (setsCMT (tx_TxCode tx)); cbn [negb]; [|by intros [= <-]].
  destruct (kacts_Exist mark (snAddress tx) s W) as (s1&K1&Q1). rewrite (bind_eq _ _ _ _ _ (kacts_eq _ _ _ _ _ K1)).
  destruct (bool_decide (is_Some (view s (snAddress tx))) && _) eqn:Eu; [done|].
  change (GetCMTBalance from) with (read from ac_CMT (ac_CMT emptyAccount)).
  destruct (kacts_read mark from ac_CMT s1 (kacts_wf _ _ _ _ _ K1)) as (s2&K2&Q2).
  rewrite (bind_eq _ _ _ _ _ (kacts_eq _ _ _ _ _ K2)). destruct (negb (verifyProof _ _ _)); [done|].
  destruct (CreateAccount_acts (snAddress tx) s2 (kacts_wf _ _ _ _ _ K2)) as (s3&A3&U3).
  destruct (SetNonce_acts (snAddress tx) 1 s3 (acts_wf _ _ _ _ A3)) as (s4&A4&U4).
  rewrite (bind_eq _ _ _ _ _ (proj1 A3)), (bind_eq _ _ _ _ _ (proj1 A4)). intros [= <-].
  set (d := (_, _)) in U3. set (d' := (_, _)) in U4.
  assert (d' = (d.1 <| ac_Nonce := 1 |>, false)) as Ed.
  { unfold d', account. destruct U3 as [_ V]. rewrite V, decide_True by done. done. }
  assert (updates (snAddress tx) d' s2 s4) as U.
  { destruct U3 as [R3 V3], U4 as [R4 V4]. split; [congruence|]. intros b. rewrite V4.
    destruct (decide (snAddress tx = b)); [done|]. rewrite V3. by rewrite decide_False. }
  split; [by eapply acts_wf|]. split.
  - transitivity s1; [apply K1|]. transitivity s2; [apply K2|]. eapply updates_keeps; [exact U|]. by rewrite Ed.
  - intros _ Hz. split.
    + intros (d0&Hv&_). rewrite Hv in Eu. cbn in Eu. by rewrite bool_decide_false in Eu.
    + exists d'.1. destruct U as [_ V]. rewrite V, decide_True by done. by rewrite Ed.
Qed.

(** A transaction before the root of the state that it leaves is computed. *)
Definition beforeRoot (tx : Transaction) : M World (txErr + Z) :=
  match AsMessage tx with
  | None => panic
  | Some msg =>
      _ <-? (if tx_TxType tx =? TxZK then db (checkZK tx (m_from msg)) else ok tt) ;;
      TransitionDb config number coinbase msg
  end.

Lemma ApplyTransaction_split tx w : ApplyTransaction config number coinbase tx w =
  (gas <-? beforeRoot tx ;; db (IntermediateRoot (eip158 config number)) ;; ok gas) w.
Proof.
  unfold ApplyTransaction, beforeRoot. destruct (AsMessage tx) as [msg|]; [|done]. by rewrite try_try.
Qed.

Lemma beforeRoot_keeps tx w g w' :
  sdb_wf (w_db w) -> 0 <= tx_AccountNonce tx < two64 - 1 ->
  beforeRoot tx w = (Ret (inr g), w') ->
  sdb_wf (w_db w') /\ keeps mark (w_db w) (w_db w') /\
  forall a, a ∈ snOf tx -> ~ spent (w_db w) a /\ (mark a -> spent (w_db w') a).
Proof.
  intros W Hn H. unfold beforeRoot, AsMessage in H. destruct (tx_Sender tx) as [from|]; [|done].
  apply try_inv in H as ([]&w1&E1&H). set (msg := mkMessage _ _ _ _ _ _ _ _ _ _ _) in H.
  assert (sdb_wf (w_db w1) /\ keeps mark (w_db w) (w_db w1) /\
    forall a, a ∈ snOf tx -> ~ spent (w_db w) a /\ spent (w_db w1) a) as (W1&K1&S1).
  { unfold snOf. destruct (tx_TxType tx =? TxZK); cbn [andb].
    - apply db_inv in E1 as (s1&E1&->). apply checkZK_keeps in E1 as (W1&K1&S1); [|done].
      split; [done|]. split; [done|]. intros a. destruct (setsCMT _); [|by intros []%elem_of_nil].
      case_bool_decide; [by intros []%elem_of_nil|]. intros ->%list_elem_of_singleton. by apply S1.
    - injection E1 as <-. split; [done|]. split; [done|]. by intros a []%elem_of_nil. }
  apply TransitionDb_keeps in H as [W2 K2]; [|done|by split].
  split; [done|]. split; [by etrans|]. intros a Ha. destruct (S1 a Ha) as [N1 P1].
  split; [done|]. intros Hm. by apply K2.
Qed.

(** One transaction of a block. *)
Lemma ApplyTransaction_keeps tx w g w' :
  eip158 config number = true -> sdb_wf (w_db w) -> 0 <= tx_AccountNonce tx < two64 - 1 ->
  (forall a, a ∈ snOf tx -> mark a) ->
  ApplyTransaction config number coinbase tx w = (Ret (inr g), w') ->
  sdb_wf (w_db w') /\ keeps mark (w_db w) (w_db w') /\
  forall a, a ∈ snOf tx -> ~ spent (w_db w) a /\ spent (w_db w') a.
Proof.
  intros He W Hn Hmk H. rewrite ApplyTransaction_split in H. apply try_inv in H as (g2&w2&E2&H).
  apply beforeRoot_keeps in E2 as (W2&K2&S2); [|done..].
  apply bind_inv in H as ([]&w3&E3&H). injection H as _ <-. apply db_inv in E3 as (s3&E3&->).
  rewrite He in E3. apply IntermediateRoot_keeps in E3 as (W3&K3%(keepsSpent_keeps mark)&_); [|done].
  split; [done|]. cbn in *. split; [by etrans|]. intros a Ha. destruct (S2 a Ha) as [N2 P2].
  split; [done|]. apply K3; [by apply Hmk|]. by apply P2, Hmk.
Qed.

Lemma snOf_NoDup tx : NoDup (snOf tx).
Proof. unfold snOf. case_match; [apply NoDup_singleton|constructor]. Qed.

Lemma applyAll_keeps txs w r w' :
  eip158 config number = true -> sdb_wf (w_db w) ->
  Forall (fun tx => 0 <= tx_AccountNonce tx < two64 - 1) txs ->
  (forall a, a ∈ spentSNs txs -> mark a) ->
  applyAll config number coinbase txs w = (Ret (inr r), w') ->
  sdb_wf (w_db w') /\ keeps mark (w_db w) (w_db w') /\ NoDup (spentSNs txs) /\
  forall a, a ∈ spentSNs txs -> ~ spent (w_db w) a /\ spent (w_db w') a.
Proof.
  intros He W Hn. revert w r w' W. induction Hn as [|tx txs Hn _ IH]; intros w r w' W Hmk H; cbn [applyAll] in H.
  - injection H as _ <-. split_and!; [done|done|constructor|]. by intros a []%elem_of_nil.
  - apply try_inv in H as (g&w1&E1&H). apply try_inv in H as (r2&w2&E2&H). injection H as _ <-.
    cbn [spentSNs flat_map] in Hmk |- *. fold (spentSNs txs) in Hmk |- *.
    apply ApplyTransaction_keeps in E1 as (W1&K1&S1); [|done..|by intros a Ha; apply Hmk, elem_of_app; left].
    apply IH in E2 as (W2&K2&N2&S2); [|done|by intros a Ha; apply Hmk, elem_of_app; right].
    split; [done|]. split; [by etrans|]. split.
    + apply NoDup_app. split; [apply snOf_NoDup|]. split; [|done]. intros a Ha Hb.
      destruct (S2 a Hb) as [N _]. apply N, S1, Ha.
    + intros a [Ha|Ha]%elem_of_app.
      * destruct (S1 a Ha) as [N P]. split; [done|]. apply K2; [|done]. by apply Hmk, elem_of_app; left.
      * destruct (S2 a Ha) as [N P]. split; [|done]. intros Hs. apply N, K1; [|done]. by apply Hmk, elem_of_app; right.
Qed.
End Machine.

(** No serial number is spent twice: when [Process] accepts a block, the
    serial numbers its zero-knowledge transactions use up have pairwise different
    addresses, none of which was marked as spent before the block and all of
    which are after it, whatever contracts the block runs. *)
Theorem sn_spent_once `{ZE : ZkEnv} (config : ChainConfig) (number : Z) (coinbase : string)
    (txs : list Transaction) (zkFunds : list string) (w : World) (gas : Z) (w' : World) :
  ZkLaws (fun a => a ∈ spentSNs txs) -> eip158 config number = true -> sdb_wf (w_db w) ->
  Forall (fun tx => 0 <= tx_AccountNonce tx < two64 - 1) txs ->
  Process config number coinbase txs zkFunds w = (Ret (inr gas), w') ->
  NoDup (spentSNs txs) /\
  forall a, a ∈ spentSNs txs -> ~ spent (w_db w) a /\ spent (w_db w') a.
Proof.
  intros LZ He W Hn H. unfold Process in H. apply try_inv in H as (r&w1&E1&H).
  destruct (applyAll_keeps _ _ _ _ _ _ _ _ He W Hn (fun a Ha => Ha) E1) as (W1&_&N&S1).
  split; [done|]. case_match; [done|]. apply bind_inv in H as ([]&w2&E2&H). injection H as _ <-.
  apply db_inv in E2 as (s2&E2&->). rewrite He in E2. apply IntermediateRoot_keeps in E2 as (_&K2&_); [|done].
  intros a Ha. destruct (S1 a Ha) as [NS PS]. split; [done|]. by apply K2.
Qed.
