(* ===== verification/StateQuiet.v ===== *)
(** * StateQuiet: states without suicides

    As long as no contract destroys itself, no object of a state is marked as
    suicided, whatever is reverted; and accounts that were dirty stay so when calls
    are reverted that began later.  Stated as a program logic for the operations of
    StateDB.v, with the journal as part of the invariant. *)
From S2P Require Import Prelude.
From S2P Require Import StateDB.
From S2P Require Import StateRoot.

Abbreviation anyState := (fun _ : StateDB => True).

Section Calm.
(** The accounts that are pinned, to stay in the set of dirty ones; the journal that
    is not reverted any more; and the trie, which is written with the root only. *)
Context (A : string -> Prop) (base : list journalEntry) (trie : gmap string Account).

(** An entry whose undoing neither restores a suicide nor unpins an account. *)
Definition entry_calm (e : journalEntry) : Prop :=
  match e with
  | createObjectChange a => ~ A a
  | resetObjectChange a prev => ~ A a /\ so_suicided prev = false
  | suicideChange _ prev _ => prev = false
  | touchChange a _ prevDirty => A a -> prevDirty = true
  | _ => True
  end.

(** The object of a pinned account: it is live and has reported itself dirty. *)
Definition object_calm (a : string) (o : stateObject) : Prop :=
  so_suicided o = false /\ (A a -> so_watched o = false /\ so_deleted o = false).

Record calm (s : StateDB) : Prop := {
  cm_objects : map_Forall object_calm (sdb_objects s);
  cm_pinned : forall a, A a -> a ∈ sdb_dirty s /\ is_Some (sdb_objects s !! a);
  cm_journal : exists J, sdb_journal s = J ++ base /\ Forall entry_calm J;
  cm_revisions : Forall (fun r => (length base <= r.2)%nat) (sdb_revisions s);
  cm_trie : sdb_trie s = trie;
}.

(** An operation that keeps states calm, ends, and whose result and state are as
    told. *)
Definition tame {X} (P : StateDB -> Prop) (m : M StateDB X) (Q : X -> StateDB -> Prop) : Prop := forall s, calm s -> P s ->
  match m s with
  | (Ret x, s') => calm s' /\ Q x s'
  | (Panic, _) => True
  | (OutOfFuel, _) => False
  end.

Abbreviation tamed m := (tame anyState m (fun _ _ => True)).

Lemma tame_bind {X Y} P (m : M StateDB X) Q (f : X -> M StateDB Y) R :
  tame P m Q -> (forall x, tame (Q x) (f x) R) -> tame P (bind m f) R.
Proof.
  intros Hm Hf s Hs HP. specialize (Hm s Hs HP). unfold bind. destruct (m s) as [[x| |] s1]; [|done|done].
  destruct Hm as [Hs1 HQ]. by apply Hf.
Qed.

Lemma tame_seq {X Y} (m : M StateDB X) (f : X -> M StateDB Y) Q :
  tamed m -> (forall x, tame anyState (f x) Q) -> tame anyState (bind m f) Q.
Proof. apply tame_bind. Qed.

Lemma tame_weaken {X} P P' (m : M StateDB X) Q Q' : tame P m Q -> (forall s, P' s -> P s) ->
  (forall x s, Q x s -> Q' x s) -> tame P' m Q'.
Proof.
  intros Hm HP HQ s Hs HP'. specialize (Hm s Hs (HP s HP')). destruct (m s) as [[x| |] s1]; [|done|done].
  destruct Hm as [? ?]. split; [done|by apply HQ].
Qed.

Lemma tame_any {X} P (m : M StateDB X) : tamed m -> tame P m (fun _ _ => True).
Proof. intros H. by eapply tame_weaken; [exact H| |]. Qed.

Lemma tame_ret {X} P (x : X) Q : (forall s, P s -> Q x s) -> tame P (ret x) Q.
Proof. intros H s Hs HP. split; [done|by apply H]. Qed.

Lemma tame_panic {X} P (Q : X -> StateDB -> Prop) : tame P panic Q.
Proof. done. Qed.

Lemma tame_get {Y} P (f : StateDB -> M StateDB Y) Q :
  (forall s0, calm s0 -> tame (fun s => P s /\ s = s0) (f s0) Q) -> tame P (s <- get ;; f s) Q.
Proof. intros H s Hs HP. rewrite bind_get. by apply (H s Hs). Qed.

Lemma tame_modify P f (Q : unit -> StateDB -> Prop) : (forall s, calm s -> P s -> calm (f s) /\ Q tt (f s)) ->
  tame P (modify f) Q.
Proof. intros H s Hs HP. by apply H. Qed.

Lemma tame_when P b m : (b = true -> tame P m (fun _ _ => True)) -> tame P (when b m) (fun _ _ => True).
Proof. intros H. destruct b; [by apply H|by apply tame_ret]. Qed.

Lemma tame_for_each {X} (l : list X) body : Forall (fun x => tamed (body x)) l -> tamed (for_each l body).
Proof.
  induction 1 as [|x l Hx _ IH]; [by apply tame_ret|]. cbn [for_each]. by apply tame_seq.
Qed.

(** ** The operations on objects *)

Definition mildly (f : stateObject -> stateObject) : Prop := forall o, so_suicided o = false ->
  so_suicided (f o) = false /\ (so_watched o = false -> so_watched (f o) = false) /\ so_deleted (f o) = so_deleted o.

Lemma tame_alterObject a f : mildly f -> tamed (alterObject a f).
Proof.
  intros Hf. apply tame_modify. intros s [H1 H2 H3 H4 H5] _. split; [|done]. split; [| |done..].
  - intros b o. change (alter f a (sdb_objects s) !! b = Some o -> object_calm b o).
    destruct (decide (b = a)) as [->|Hne]; [|rewrite lookup_alter_ne by done; apply H1].
    rewrite lookup_alter_eq. destruct (sdb_objects s !! a) as [o0|] eqn:E; [|done]. intros [= <-].
    destruct (H1 a o0 E) as [Hs Hp]. destruct (Hf o0 Hs) as (F1&F2&F3). split; [done|]. intros Ha.
    destruct (Hp Ha) as [? ?]. split; [by apply F2|by rewrite F3].
  - intros b Hb. destruct (H2 b Hb) as [Hd Ho]. split; [done|].
    change (is_Some (alter f a (sdb_objects s) !! b)). by rewrite lookup_alter_is_Some.
Qed.

Lemma mildly_data f : mildly (fun o => o <| so_data ::= f |>).
Proof. done. Qed.

Lemma tame_dirty a : tamed (modify (fun s => s <| sdb_dirty ::= fun d => {[a]} ∪ d |>)).
Proof.
  apply tame_modify. intros s [H1 H2 H3 H4 H5] _. split; [|done]. split; [done| |done..].
  intros b Hb. destruct (H2 b Hb) as [Hd Ho]. split; [|done]. change (b ∈ {[a]} ∪ sdb_dirty s). set_solver.
Qed.

Lemma tame_onDirty a : tamed (onDirty a).
Proof.
  apply tame_get. intros s0 _. destruct (sdb_objects s0 !! a) as [o|]; [|by apply tame_ret].
  apply tame_when. intros _. apply tame_any, tame_seq; [apply tame_dirty|]. intros _. by apply tame_alterObject.
Qed.

Lemma tame_setter a f : tamed (alterData a f ;; onDirty a).
Proof. apply tame_seq; [by apply tame_alterObject|]. intros _. apply tame_onDirty. Qed.

Lemma tame_log e : entry_calm e -> tamed (log e).
Proof. 
  intros He. apply tame_modify. intros s [H1 H2 (J&EJ&HJ) H4 H5] _. split; [|done]. split; [done|done| |done|done].
  exists (e :: J). change (sdb_journal (s <| sdb_journal ::= cons e |>)) with (e :: sdb_journal s). rewrite EJ. split; [done|by constructor].
Qed.

(** A live object. *)
Lemma tame_setStateObject a o : object_calm a o -> tamed (setStateObject a o).
Proof.
  intros Ho. apply tame_modify. intros s [H1 H2 H3 H4 H5] _. split; [|done]. split; [| |done..].
  - by apply map_Forall_insert_2.
  - intros b Hb. destruct (H2 b Hb) as [Hd Hs]. split; [done|].
    change (is_Some (<[a := o]> (sdb_objects s) !! b)). rewrite lookup_insert_is_Some.
    destruct (decide (a = b)); [by left|by right].
Qed.

Lemma object_calm_free a o : ~ A a -> so_suicided o = false -> object_calm a o.
Proof. intros Ha Hs. by split. Qed.

Lemma tame_getStateObject a : tame anyState (getStateObject a) (fun r _ => match r with
  | Some o => so_suicided o = false | None => ~ A a end).
Proof.
  intros s Hs _. unfold getStateObject. rewrite bind_get. destruct (sdb_objects s !! a) as [o|] eqn:E.
  - destruct (cm_objects s Hs a o E) as [H1 H2]. split; [done|]. destruct (so_deleted o); [|done].
    intros Ha. by destruct (H2 Ha).
  - assert (~ A a) as Ha by (intros Ha; destruct (cm_pinned s Hs a Ha) as [_ [o Ho]]; congruence).
    destruct (sdb_trie s !! a) as [d|]; [|done]. unfold setStateObject. rewrite bind_modify. split; [|done].
    by destruct (tame_setStateObject a (newObject d) (object_calm_free a (newObject d) Ha eq_refl) s Hs I) as [? _].
Qed.

Lemma tame_read {X} a (f : Account -> X) d : tamed (read a f d).
Proof. eapply tame_bind; [apply tame_getStateObject|]. intros o. by apply tame_ret. Qed.

Lemma tame_Exist a : tame anyState (Exist a) (fun b _ => b = false -> ~ A a).
Proof. eapply tame_bind; [apply tame_getStateObject|]. intros [o|]; apply tame_ret; [done|by intros s Hs _]. Qed.

Lemma tame_createObject a : ~ A a -> tame anyState (createObject a) (fun _ _ => True).
Proof.
  intros Ha. eapply tame_bind; [apply tame_getStateObject|]. intros p s Hs Hp.
  apply (tame_seq _ _ (fun _ _ => True) (tame_dirty a)); [|done|done]. intros _.
  apply tame_seq; [apply tame_log; destruct p; [by split|done]|]. intros _.
  apply tame_seq; [by apply tame_setStateObject, object_calm_free|]. intros _. by apply tame_ret.
Qed.

Lemma tame_GetOrNewStateObject a : tamed (GetOrNewStateObject a).
Proof.
  eapply tame_bind; [apply tame_getStateObject|]. intros [o|]; [by apply tame_ret|]. intros s Hs Ha.
  apply (tame_seq (createObject a) (fun _ => ret tt) (fun _ _ => True)); [by apply tame_createObject| |done|done].
  intros _. by apply tame_ret.
Qed.

Lemma tame_CreateAccount a : ~ A a -> tamed (CreateAccount a).
Proof.
  intros Ha. apply tame_seq; [by apply tame_createObject|]. intros [p|]; [|by apply tame_ret].
  apply tame_seq; [apply tame_setter|]. intros _. by apply tame_alterObject.
Qed.

Lemma tame_onObject a k : (forall o, object_calm a o -> tamed (k o)) -> tamed (onObject a k).
Proof.
  intros Hk. apply tame_seq; [apply tame_GetOrNewStateObject|]. intros _. apply tame_get. intros s0 Hs0.
  destruct (sdb_objects s0 !! a) as [o|] eqn:E; [|apply tame_panic]. apply tame_any, Hk.
  by apply (cm_objects s0 Hs0).
Qed.

Lemma tame_SetBalance_object a x o : tamed (SetBalance_object a x o).
Proof. apply tame_seq; [by apply tame_log|]. intros _. apply tame_setter. Qed.

Lemma tame_touch a o : object_calm a o -> tamed (touch a o).
Proof.
  intros [_ Ho]. apply tame_seq; [apply tame_log; intros Ha; by destruct (Ho Ha) as [-> _]|]. intros _.
  apply tame_seq; [apply tame_onDirty|]. intros _. by apply tame_alterObject.
Qed.

Lemma tame_AddBalance a x : tamed (AddBalance a x).
Proof.
  apply tame_onObject. intros o Ho. destruct (_ =? _); [|apply tame_SetBalance_object].
  apply tame_when. intros _. by apply tame_touch.
Qed.
Lemma tame_SubBalance a x : tamed (SubBalance a x).
Proof. apply tame_onObject. intros o Ho. destruct (_ =? _); [by apply tame_ret|apply tame_SetBalance_object]. Qed.
Lemma tame_SetNonce a n : tamed (SetNonce a n).
Proof. apply tame_onObject. intros o Ho. apply tame_seq; [by apply tame_log|]. intros _. apply tame_setter. Qed.
Lemma tame_SetCode a c : tamed (SetCode a c).
Proof. apply tame_onObject. intros o Ho. apply tame_seq; [by apply tame_log|]. intros _. apply tame_setter. Qed.
Lemma tame_SetCMT a c : tamed (SetCMT a c).
Proof. apply tame_onObject. intros o Ho. by apply tame_alterObject. Qed.

(** ** Reverting *)

Lemma tame_Snapshot : tamed Snapshot.
Proof.
  apply tame_get. intros s0 _. apply tame_any, tame_seq; [|intros _; by apply tame_ret].
  apply tame_modify. intros s [H1 H2 (J&EJ&HJ) H4 H5] _. split; [|done]. split; [done|done|by exists J| |done].
  apply Forall_app. split; [done|]. constructor; [|done]. cbn [snd]. rewrite EJ, length_app. lia.
Qed.

Lemma tame_liveObject a k : tamed k -> tamed (liveObject a k).
Proof.
  intros Hk. eapply tame_bind; [apply tame_getStateObject|]. intros [o|]; [by apply tame_any|apply tame_panic].
Qed.

Lemma tame_undirty a : ~ A a -> tamed (modify (fun s => s <| sdb_dirty ::= fun d => d ∖ {[a]} |>)).
Proof.
  intros Ha. apply tame_modify. intros s [H1 H2 H3 H4 H5] _. split; [|done]. split; [done| |done..].
  intros b Hb. destruct (H2 b Hb) as [Hd Ho]. split; [|done]. change (b ∈ sdb_dirty s ∖ {[a]}).
  assert (b <> a) by by intros ->. set_solver.
Qed.

Lemma tame_undo e : entry_calm e -> tamed (undo e).
Proof.
  destruct e as [a|a prev|a prev bal|a bal|a n|a c|g|a prev prevDirty]; intros He; cbn [undo].
  - apply tame_modify. intros s [H1 H2 H3 H4 H5] _. split; [|done]. split; [| |done..].
    + intros b o. change (delete a (sdb_objects s) !! b = Some o -> object_calm b o). intros [_ H]%lookup_delete_Some. by apply H1.
    + intros b Hb. assert (a <> b) by by intros ->. destruct (H2 b Hb) as [Hd Ho].
      change (b ∈ sdb_dirty s ∖ {[a]} /\ is_Some (delete a (sdb_objects s) !! b)). rewrite lookup_delete_ne by done. set_solver.
  - destruct He as [Ha Hs]. by apply tame_setStateObject, object_calm_free.
  - cbn in He. subst prev. eapply tame_bind; [apply tame_getStateObject|]. intros [o|]; [|by apply tame_ret].
    apply tame_any. apply tame_seq; [by apply tame_alterObject|]. intros _. apply tame_seq; [apply tame_setter|]. intros _.
    apply tame_modify. intros s [H1 H2 H3 H4 H5] _. by split.
  - apply tame_liveObject, tame_setter.
  - apply tame_liveObject, tame_setter.
  - apply tame_liveObject, tame_setter.
  - apply tame_modify. intros s [H1 H2 H3 H4 H5] _. by split.
  - apply tame_when. intros _. apply tame_seq; [by apply tame_liveObject, tame_alterObject|]. intros _.
    apply tame_when. intros Hd. apply negb_true_iff in Hd. apply tame_undirty. intros Ha. by rewrite (He Ha) in Hd.
Qed.

Lemma drop_keeps {X} (J B : list X) n : (length B <= n)%nat ->
  drop (length (J ++ B) - n) (J ++ B) = drop (length (J ++ B) - n) J ++ B /\
  take (length (J ++ B) - n) (J ++ B) = take (length (J ++ B) - n) J.
Proof.
  intros Hn. rewrite length_app. split; [by rewrite drop_app_le by lia|by rewrite take_app_le by lia].
Qed.

Lemma tame_RevertToSnapshot id : tamed (RevertToSnapshot id).
Proof.
  apply tame_get. intros s0 Hs0. destruct (list_find _ _) as [[idx [id' n]]|] eqn:E; [|apply tame_panic].
  destruct (decide _); [|apply tame_panic]. apply list_find_Some in E as (E&_&_).
  pose proof (Forall_lookup_1 _ _ _ _ (cm_revisions s0 Hs0) E) as Hn. cbn [snd] in Hn.
  destruct (cm_journal s0 Hs0) as (J0&EJ0&HJ0). rewrite EJ0.
  destruct (drop_keeps J0 base n Hn) as [_ ->]. apply tame_any, tame_seq.
  - apply tame_for_each. eapply Forall_impl; [by apply Forall_take|]. exact tame_undo.
  - intros _. apply tame_modify. intros s [H1 H2 (J&EJ&HJ) H4 H5] _. split; [|done]. split; [done|done| |by apply Forall_take|done].
    exists (drop (length (J ++ base) - n) J). split; [|by apply Forall_drop].
    destruct (drop_keeps J base n Hn) as [<- _]. cbn. by rewrite EJ.
Qed.
End Calm.
Abbreviation tamed A base trie m := (tame A base trie anyState m (fun _ _ => True)).

Lemma calm_ext A A' base trie s : (forall a, A a <-> A' a) -> calm A base trie s -> calm A' base trie s.
Proof.
  intros H [H1 H2 (J&EJ&HJ) H4 H5]. split; [| | |done|done].
  - intros a o Ho. destruct (H1 a o Ho) as [Hs Hp]. split; [done|]. intros Ha. by apply Hp, H.
  - intros a Ha. by apply H2, H.
  - exists J. split; [done|]. eapply Forall_impl; [exact HJ|]. intros e. destruct e; cbn; rewrite <- ?H; done.
Qed.
