(* ===== verification/ZkQuiet.v ===== *)
(** * ZkQuiet: transactions over calm states

    The operations of ZkTx.v in the program logic of StateQuiet.v: processing a block
    ends, leaves no suicided account, and what marks a serial number as used is in
    the trie that the block is committed with. *)
From S2P Require Import Prelude.
From S2P Require Import Messages.
From S2P Require Import StateDB.
From S2P Require Import StateRoot.
From S2P Require Import Tx.
From S2P Require Import ZkTx.
From S2P Require Import ZkEffects.
From S2P Require Import ZkSafety.
From S2P Require Import StateQuiet.

Abbreviation nowhere := (fun _ : string => False).

Section Quiet.
Context `{ZE : ZkEnv} (config : ChainConfig) (number : Z) (coinbase : string) (mark : string -> Prop).

(** What is assumed of the interpreter: it ends; no contract destroys itself; it
    reverts only to snapshots of its own; and it does not reset the account of a
    serial number, which is not the address of a new contract. *)
Class CalmVM : Prop := {
  calm_create : forall c n, ~ mark (CreateAddress c n);
  calm_vm : forall A base trie a code input gas value, (forall b, A b -> mark b) ->
    tamed A base trie (vm_run a code input gas value);
}.
Context `{CV : CalmVM}.

Section Operations.
Context (A : string -> Prop) (base : list journalEntry) (trie : gmap string Account) (HA : forall b, A b -> mark b).

Local Abbreviation tamed m := (tame A base trie anyState m (fun _ _ => True)).

Lemma tame_pure {X} P (m : M StateDB X) Q : (forall s, P s -> tame A base trie anyState m Q) -> tame A base trie P m Q.
Proof. intros H s Hs Hp. by apply (H s Hp s Hs). Qed.

Lemma tame_run a code input gas value : tamed (run a code input gas value).
Proof. unfold run. destruct (_ && _); [by apply tame_ret|by apply calm_vm]. Qed.

Lemma tame_CanTransfer a x : tamed (CanTransfer a x).
Proof. apply tame_seq; [apply tame_read|]. intros b. by apply tame_ret. Qed.

Lemma tame_Transfer a b x : tamed (Transfer a b x).
Proof. apply tame_seq; [apply tame_SubBalance|]. intros _. apply tame_AddBalance. Qed.

Lemma tame_create_new a ex : (ex = false -> ~ A a) -> tamed (when (negb ex) (CreateAccount a)).
Proof. intros H. apply tame_when. intros E%negb_true_iff. by apply tame_any, tame_CreateAccount, H. Qed.

Lemma tame_ensure a : tamed (ensure a).
Proof.
  eapply tame_bind; [apply tame_Exist|]. intros ex. apply tame_pure. intros _. by apply tame_create_new.
Qed.

Lemma tame_Call caller a input gas value : tamed (Call config number caller a input gas value).
Proof.
  apply tame_seq; [apply tame_CanTransfer|]. intros can. destruct (negb can); [by apply tame_ret|].
  apply tame_seq; [apply tame_Snapshot|]. intros id. eapply tame_bind; [apply tame_Exist|]. intros ex. apply tame_pure. intros _ Hex.
  destruct (_ && _); [by apply tame_ret|]. apply tame_seq; [by apply tame_create_new|]. intros _.
  apply tame_seq; [apply tame_Transfer|]. intros _. apply tame_seq; [apply tame_read|]. intros code.
  apply tame_seq; [apply tame_run|]. intros [[out rest] [e|]]; [|by apply tame_ret].
  apply tame_seq; [apply tame_RevertToSnapshot|]. intros _. by apply tame_ret.
Qed.

Lemma tame_Create caller code gas value : tamed (Create config number caller code gas value).
Proof.
  apply tame_seq; [apply tame_CanTransfer|]. intros can. destruct (negb can); [by apply tame_ret|].
  apply tame_seq; [apply tame_read|]. intros n. apply tame_seq; [apply tame_SetNonce|]. intros _.
  apply tame_seq; [apply tame_Snapshot|]. intros id. cbv zeta. set (addr := CreateAddress caller n).
  apply tame_seq; [apply tame_CreateAccount; intros Ha%HA; by apply calm_create in Ha|]. intros _.
  apply tame_seq; [apply tame_when; intros _; apply tame_SetNonce|]. intros _.
  apply tame_seq; [apply tame_Transfer|]. intros _. apply tame_seq; [apply tame_run|]. intros [[out rest] err].
  apply tame_seq.
  { destruct (_ && _); [|by apply tame_ret]. destruct (_ <? _); [by apply tame_ret|].
    apply tame_seq; [apply tame_SetCode|]. intros _. by apply tame_ret. }
  intros [rest' err']. destruct (_ || _); [|by apply tame_ret].
  apply tame_seq; [apply tame_RevertToSnapshot|]. intros _. by apply tame_ret.
Qed.

Lemma tame_execute msg gas : tamed (execute config number msg gas).
Proof.
  unfold execute. destruct (m_to msg) as [to|]; [|apply tame_Create].
  apply tame_seq; [apply tame_read|]. intros n. apply tame_seq; [apply tame_SetNonce|]. intros _.
  apply tame_seq; [apply tame_ensure|]. intros _. apply tame_seq; [apply tame_Call|]. intros r.
  apply tame_seq; [apply tame_when; intros _; apply tame_SetCMT|]. intros _. by apply tame_ret.
Qed.

Lemma tame_settle msg : tamed (settle msg).
Proof.
  apply tame_seq; [apply tame_when; intros _; apply tame_SubBalance|]. intros _.
  apply tame_seq; [apply tame_when; intros _; apply tame_AddBalance|]. intros _.
  apply tame_when. intros _. apply tame_AddBalance.
Qed.

(** ** Worlds *)

Definition wtamed {X} (m : M World X) : Prop := forall w, calm A base trie (w_db w) ->
  match m w with
  | (Ret _, w') => calm A base trie (w_db w')
  | (Panic, _) => True
  | (OutOfFuel, _) => False
  end.

Lemma wtamed_bind {X Y} (m : M World X) (f : X -> M World Y) : wtamed m -> (forall x, wtamed (f x)) -> wtamed (bind m f).
Proof.
  intros Hm Hf w Hw. specialize (Hm w Hw). unfold bind. destruct (m w) as [[x| |] w1]; [by apply Hf|done|done].
Qed.
Lemma wtamed_ret {X} (x : X) : wtamed (ret x).
Proof. by intros w Hw. Qed.
Lemma wtamed_try {X Y} (m : M World (txErr + X)) (k : X -> M World (txErr + Y)) :
  wtamed m -> (forall x, wtamed (k x)) -> wtamed (try m k).
Proof. intros Hm Hk. apply wtamed_bind; [done|]. intros [e|x]; [apply wtamed_ret|apply Hk]. Qed.
Lemma wtamed_db {X} (m : M StateDB X) : tamed m -> wtamed (db m).
Proof.
  intros Hm w Hw. specialize (Hm _ Hw I). unfold db. destruct (m (w_db w)) as [[x| |] s]; [by destruct Hm|done|done].
Qed.

Lemma wtamed_buyGas msg : wtamed (buyGas msg).
Proof.
  unfold buyGas. destruct (_ <=? _); [apply wtamed_ret|]. apply wtamed_bind; [apply wtamed_db, tame_ensure|]. intros _.
  apply wtamed_bind; [apply wtamed_db, tame_read|]. intros b. destruct (_ <? _); [apply wtamed_ret|].
  apply wtamed_try; [intros w Hw; unfold SubGas; rewrite bind_get; by destruct (_ <? _)|]. intros _.
  apply wtamed_bind; [apply wtamed_db, tame_SubBalance|]. intros _. apply wtamed_ret.
Qed.

Lemma wtamed_preCheck msg : wtamed (preCheck msg).
Proof.
  apply wtamed_bind; [apply wtamed_db, tame_ensure|]. intros _. apply wtamed_bind; [apply wtamed_db, tame_read|]. intros n.
  destruct (_ && _); [apply wtamed_ret|apply wtamed_buyGas].
Qed.

Lemma wtamed_refundGas msg i g : wtamed (refundGas msg i g).
Proof.
  apply wtamed_bind; [apply wtamed_db, tame_ensure|]. intros _. apply wtamed_bind; [apply wtamed_db, tame_AddBalance|]. intros _.
  apply wtamed_bind; [by intros w Hw|]. intros s. apply wtamed_bind; [apply wtamed_db, tame_AddBalance|]. intros _.
  apply wtamed_bind; [by intros w Hw|]. intros _. apply wtamed_ret.
Qed.

Lemma wtamed_TransitionDb msg : wtamed (TransitionDb config number coinbase msg).
Proof.
  apply wtamed_try; [apply wtamed_preCheck|]. intros ig. apply wtamed_bind; [apply wtamed_db, tame_ensure|]. intros _.
  cbv zeta. destruct (_ <=? _); [apply wtamed_ret|]. destruct (_ <? _); [apply wtamed_ret|].
  apply wtamed_bind; [apply wtamed_db, tame_execute|]. intros [gas err]. destruct (bool_decide _); [apply wtamed_ret|].
  apply wtamed_bind; [apply wtamed_refundGas|]. intros g. apply wtamed_bind; [apply wtamed_db, tame_AddBalance|]. intros _.
  apply wtamed_bind; [apply wtamed_db, tame_settle|]. intros _. apply wtamed_ret.
Qed.
End Operations.

(** ** Between roots *)

(** A state whose root has just been computed. *)
Record clean (s : StateDB) : Prop := {
  cl_calm : calm nowhere [] (sdb_trie s) s;
  cl_journal : sdb_journal s = [];
  cl_revisions : sdb_revisions s = [];
}.

Lemma New_clean trie : clean (New trie).
Proof.
  split; [|done|done]. split; [|done|by exists []|constructor|done]. intros a o H. cbn in H. by rewrite lookup_empty in H.
Qed.

(** The trie after the root, by account. *)
Lemma IntermediateRoot_clean A base trie e s s' : calm A base trie s -> IntermediateRoot e s = (Ret tt, s') ->
  clean s' /\ (forall a, sdb_trie s' !! a = if decide (a ∈ sdb_dirty s) then flushed_at e s a else trie !! a) /\
  (forall a, a ∈ sdb_dirty s -> is_Some (sdb_objects s !! a)).
Proof.
  intros [C1 C2 C3 C4 C5]. unfold IntermediateRoot. rewrite bind_get. intros ([]&s0&[F Hl]%flush_all&H)%bind_inv. injection H as <-.
  split_and!.
  - split; [|done|done]. split; [|done|by exists []|constructor|done]. intros a o Eo.
    pose proof (fl_objects _ _ _ _ F a) as Hk. cbn in Eo. rewrite Eo in Hk. inversion Hk as [o0 ? Hso E1 E2|]; subst.
    destruct (C1 a o0) as [Hs _]; [done|]. split; [|done]. by destruct Hso as [->| ->].
  - intros a. change (sdb_trie s0 !! a = if decide (a ∈ sdb_dirty s) then flushed_at e s a else trie !! a).
    rewrite (fl_trie _ _ _ _ F), C5. apply decide_ext. apply elem_of_elements.
  - intros a Ha. rewrite Forall_forall in Hl. destruct (Hl a) as (o&Eo&_); [by apply elem_of_elements|]. by exists o.
Qed.

(** A new account is pinned. *)
Lemma createObject_pins base trie a s p s' : calm nowhere base trie s -> sdb_revisions s = [] ->
  createObject a s = (Ret p, s') -> calm (eq a) (sdb_journal s') trie s'.
Proof.
  intros Hs Hr H. pose proof (tame_createObject nowhere base trie a (fun H => H) s Hs I) as Hc. rewrite H in Hc.
  destruct Hc as [[C1 C2 C3 C4 C5] _]. unfold createObject in H. apply bind_inv in H as (q&s0&E0&H).
  assert (sdb_revisions s0 = []) as Hr0.
  { unfold getStateObject in E0. rewrite bind_get in E0. destruct (sdb_objects s !! a); [by injection E0 as <- <-|].
    destruct (sdb_trie s !! a); [|by injection E0 as <- <-]. unfold setStateObject in E0. rewrite bind_modify in E0.
    by injection E0 as <- <-. }
  injection H as <- <-. set (o := (newObject emptyAccount) <| so_watched := false |>) in *.
  split; [| |by exists []| |done].
  - intros b o' Eo. destruct (C1 b o' Eo) as [Hu _]. split; [done|]. intros <-. cbn in Eo. rewrite lookup_insert_eq in Eo.
    by injection Eo as <-.
  - intros b <-. split; [apply elem_of_union_l; by apply elem_of_singleton|]. exists o. apply lookup_insert_eq.
  - cbn. rewrite Hr0. constructor.
Qed.

Lemma CreateAccount_pins base trie a s s' : calm nowhere base trie s -> sdb_revisions s = [] ->
  CreateAccount a s = (Ret tt, s') -> exists base', calm (eq a) base' trie s'.
Proof.
  intros Hs Hr H. apply bind_inv in H as (p&s1&E1&H). pose proof (createObject_pins _ _ _ _ _ _ Hs Hr E1) as Hp.
  exists (sdb_journal s1). destruct p as [p|]; [|by injection H as <-].
  assert (tamed (eq a) (sdb_journal s1) trie (setBalance a (ac_Balance (so_data p)) ;; setCMT a (ac_CMT (so_data p)))) as Ht
    by (apply tame_seq; [apply tame_setter|]; intros _; by apply tame_alterObject).
  specialize (Ht s1 Hp I). rewrite H in Ht. by destruct Ht.
Qed.

Lemma tame_runs {X} A base trie (m : M StateDB X) s : tamed A base trie m -> calm A base trie s ->
  match m s with (Ret _, s1) => calm A base trie s1 | (Panic, _) => True | (OutOfFuel, _) => False end.
Proof. intros Hm Hs. specialize (Hm s Hs I). destruct (m s) as [[x| |] s1]; [by destruct Hm|done|done]. Qed.

Lemma read_revisions {X} a (f : Account -> X) d s s1 r : read a f d s = (Ret r, s1) -> sdb_revisions s1 = sdb_revisions s.
Proof.
  intros H. apply bind_inv in H as (o&s2&E&[= _ <-]). unfold getStateObject in E. rewrite bind_get in E.
  destruct (sdb_objects s !! a); [by injection E as _ <-|]. destruct (sdb_trie s !! a); [|by injection E as _ <-].
  unfold setStateObject in E. rewrite bind_modify in E. by injection E as _ <-.
Qed.

(** The check of a zero-knowledge transaction pins what marks its serial number. *)
Definition usesUp (tx : Transaction) : list string :=
  if setsCMT (tx_TxCode tx) && negb (bool_decide (tx_ZKSN tx = zeroHash)) then [snAddress tx] else [].

Lemma checkZK_runs tx from s : clean s -> match checkZK tx from s with
  | (Ret (inr _), s1) => calm nowhere [] (sdb_trie s) s1 /\
      exists base, calm (fun a => a ∈ usesUp tx) base (sdb_trie s) s1
  | (OutOfFuel, _) => False
  | _ => True
  end.
Proof.
  intros [Hc Hj Hr]. unfold checkZK, usesUp. destruct (setsCMT (tx_TxCode tx)); cbn [negb andb]; cycle 1.
  { split; [done|]. exists []. eapply calm_ext; [|exact Hc]. intros a. by rewrite elem_of_nil. }
  pose proof (tame_runs _ _ _ (read (snAddress tx) (fun _ => true) false) s (tame_read _ _ _ _ _ _) Hc) as H1.
  change (Exist (snAddress tx)) with (read (snAddress tx) (fun _ => true) false). unfold bind at 1.
  destruct (read (snAddress tx) (fun _ => true) false s) as [[ex| |] s1] eqn:E1; [|done|done].
  apply read_revisions in E1. destruct (ex && _); [done|].
  pose proof (tame_runs _ _ _ (GetCMTBalance from) s1 (tame_read _ _ _ _ _ _) H1) as H2. unfold bind at 1.
  destruct (GetCMTBalance from s1) as [[cmt| |] s2] eqn:E2; [|done|done].
  apply read_revisions in E2. destruct (negb _); [done|].
  pose proof (tame_runs _ _ _ (CreateAccount (snAddress tx)) s2 (tame_CreateAccount _ _ _ _ (fun H => H)) H2) as H3. unfold bind at 1.
  destruct (CreateAccount (snAddress tx) s2) as [[[]| |] s3] eqn:E3; [|done|done].
  apply (CreateAccount_pins [] (sdb_trie s)) in E3 as [base Hp]; [|done|congruence].
  pose proof (tame_runs _ _ _ _ s3 (tame_SetNonce _ _ _ (snAddress tx) 1) Hp) as H4.
  pose proof (tame_runs _ _ _ _ s3 (tame_SetNonce _ _ _ (snAddress tx) 1) H3) as H5. unfold bind at 1.
  destruct (SetNonce (snAddress tx) 1 s3) as [[[]| |] s4]; [|done|done]. split; [done|].
  destruct (bool_decide (tx_ZKSN tx = zeroHash)); cbn [negb].
  - exists []. eapply calm_ext; [|exact H5]. intros a. by rewrite elem_of_nil.
  - exists base. eapply calm_ext; [|exact H4]. intros a. rewrite list_elem_of_singleton. by split.
Qed.

Lemma beforeRoot_runs tx w : clean (w_db w) -> match beforeRoot config number coinbase tx w with
  | (Ret (inr _), w1) => calm nowhere [] (sdb_trie (w_db w)) (w_db w1) /\
      ((forall a, a ∈ snOf tx -> mark a) -> exists base, calm (fun a => a ∈ snOf tx) base (sdb_trie (w_db w)) (w_db w1))
  | (OutOfFuel, _) => False
  | _ => True
  end.
Proof.
  intros Hc. unfold beforeRoot. destruct (AsMessage tx) as [msg|]; [|done].
  assert (match (if tx_TxType tx =? TxZK then db (checkZK tx (m_from msg)) else ok tt) w with
    | (Ret (inr _), w1) => calm nowhere [] (sdb_trie (w_db w)) (w_db w1) /\
        exists base, calm (fun a => a ∈ snOf tx) base (sdb_trie (w_db w)) (w_db w1)
    | (OutOfFuel, _) => False
    | _ => True
    end) as H1.
  { unfold snOf. destruct (tx_TxType tx =? TxZK); cbn [andb].
    - pose proof (checkZK_runs tx (m_from msg) (w_db w) Hc) as H. unfold db.
      by destruct (checkZK tx (m_from msg) (w_db w)) as [[[e|[]]| |] s1].
    - split; [apply Hc|]. exists []. eapply calm_ext; [|apply Hc]. intros a. by rewrite elem_of_nil. }
  unfold try, bind. destruct ((if tx_TxType tx =? TxZK then _ else ok tt) w) as [[[e|[]]| |] w1]; [done| |done|done].
  destruct H1 as [H1 [base Hp]].
  pose proof (wtamed_TransitionDb nowhere [] (sdb_trie (w_db w)) (fun _ H => False_ind _ H) msg w1 H1) as H2.
  pose proof (fun Hm => wtamed_TransitionDb _ base (sdb_trie (w_db w)) Hm msg w1 Hp) as H3.
  destruct (TransitionDb config number coinbase msg w1) as [[[e|g]| |] w2]; [done| |done|done].
  split; [done|]. intros Hm. exists base. by apply H3.
Qed.

Lemma ApplyTransaction_runs tx w : clean (w_db w) -> match ApplyTransaction config number coinbase tx w with
  | (Ret (inr _), w') => clean (w_db w')
  | (OutOfFuel, _) => False
  | _ => True
  end.
Proof.
  intros Hc. rewrite ApplyTransaction_split. pose proof (beforeRoot_runs tx w Hc) as H. unfold try, bind.
  destruct (beforeRoot config number coinbase tx w) as [[[e|g]| |] w1]; [done| |done|done].
  destruct H as [H _]. unfold db. pose proof (IntermediateRoot_ends (eip158 config number) (w_db w1)) as Hf.
  destruct (IntermediateRoot _ (w_db w1)) as [[[]| |] s2] eqn:E; [|done|done].
  by destruct (IntermediateRoot_clean _ _ _ _ _ _ H E) as [Hc2 _].
Qed.

Lemma applyAll_runs txs w : clean (w_db w) -> match applyAll config number coinbase txs w with
  | (Ret (inr _), w') => clean (w_db w')
  | (OutOfFuel, _) => False
  | _ => True
  end.
Proof.
  revert w. induction txs as [|tx txs IH]; intros w Hc; [done|]. cbn [applyAll].
  pose proof (ApplyTransaction_runs tx w Hc) as H1.
  unfold try at 1, bind at 1. destruct (ApplyTransaction config number coinbase tx w) as [[[e|g]| |] w1]; [done| |done|done].
  pose proof (IH w1 H1) as H2. unfold try, bind.
  by destruct (applyAll config number coinbase txs w1) as [[[e|r]| |] w2].
Qed.

(** ** Serial numbers in the trie *)

Definition trieSpent (trie : gmap string Account) (a : string) : Prop :=
  exists d, trie !! a = Some d /\ ac_Nonce d <> 0 /\ ac_Code d = EmptyString.
(** Used according to the state, and still so when it is read back from its trie. *)
Definition durable (s : StateDB) (a : string) : Prop := spent s a /\ trieSpent (sdb_trie s) a.

Lemma New_durable trie a : trieSpent trie a -> durable (New trie) a.
Proof.
  intros (d&Ed&H). split; [|by exists d]. exists d. split; [|done]. unfold view. cbn. by rewrite lookup_empty, Ed.
Qed.

Lemma New_spent trie a : spent (New trie) a -> trieSpent trie a.
Proof.
  intros (d&Hv&H). exists d. split; [|done]. unfold view in Hv. cbn in Hv. rewrite lookup_empty in Hv.
  destruct (trie !! a); [by injection Hv as ->|done].
Qed.

Lemma spent_flushed s a : spent s a -> is_Some (sdb_objects s !! a) -> exists d, flushed_at true s a = Some d /\
  ac_Nonce d <> 0 /\ ac_Code d = EmptyString.
Proof.
  intros (d&Hv&Hn&Hcode) [o Eo]. unfold view in Hv. rewrite Eo in Hv. destruct (so_deleted o); [done|]. injection Hv as Hd Hs.
  exists d. split; [|done]. unfold flushed_at, flushed. rewrite Eo. cbn. rewrite Hs. unfold empty. rewrite Hd.
  destruct (Z.eqb_spec (ac_Nonce d) 0); [done|]. done.
Qed.

(** The root writes what is used. *)
Lemma root_durable A base trie s s' a : calm A base trie s -> sdb_wf s -> IntermediateRoot true s = (Ret tt, s') ->
  spent s a -> A a \/ trieSpent trie a -> durable s' a.
Proof.
  intros Hc W E Hs Ha. destruct (IntermediateRoot_keeps s s' W E) as (_&K&_). split; [by apply K|].
  destruct (IntermediateRoot_clean _ _ _ _ _ _ Hc E) as (_&Ht&Ho). unfold trieSpent. rewrite Ht.
  destruct (decide (a ∈ sdb_dirty s)) as [Hd|Hd]; [by apply spent_flushed, Ho|].
  destruct Ha as [Ha|Ha]; [|done]. by destruct (cm_pinned _ _ _ _ Hc a Ha).
Qed.

Context `{LZ : !ZkLaws mark}.

Lemma ApplyTransaction_durable tx w g w' a : eip158 config number = true -> clean (w_db w) -> sdb_wf (w_db w) ->
  0 <= tx_AccountNonce tx < two64 - 1 -> (forall b, b ∈ snOf tx -> mark b) ->
  ApplyTransaction config number coinbase tx w = (Ret (inr g), w') ->
  mark a -> durable (w_db w) a \/ a ∈ snOf tx -> durable (w_db w') a.
Proof.
  intros He Hc W Hn Hm H Ha Hd. rewrite ApplyTransaction_split in H. apply try_inv in H as (g2&w2&E2&H).
  pose proof (beforeRoot_runs tx w Hc) as Hb. rewrite E2 in Hb. destruct Hb as [_ Hb]. destruct (Hb Hm) as [base Hb'].
  apply (beforeRoot_keeps config number coinbase mark) in E2 as (W2&K2&S2); [|done..].
  apply bind_inv in H as ([]&w3&E3&H). injection H as _ <-. apply db_inv in E3 as (s3&E3&->). rewrite He in E3.
  cbn [w_db]. eapply root_durable; [exact Hb'|done|exact E3| |].
  - destruct Hd as [[Hd _]|Hd]; [by apply K2|by apply S2].
  - destruct Hd as [[_ Hd]|Hd]; [by right|by left].
Qed.

Lemma applyAll_durable txs w r w' a : eip158 config number = true -> clean (w_db w) -> sdb_wf (w_db w) ->
  Forall (fun tx => 0 <= tx_AccountNonce tx < two64 - 1) txs -> (forall b, b ∈ spentSNs txs -> mark b) ->
  applyAll config number coinbase txs w = (Ret (inr r), w') ->
  mark a -> durable (w_db w) a \/ a ∈ spentSNs txs -> durable (w_db w') a.
Proof.
  intros He Hc W Hn Hm H Ha. revert w r w' Hc W H. induction Hn as [|tx txs Hn0 Hn IH]; intros w r w' Hc W H Hd; cbn [applyAll] in H.
  - injection H as _ <-. destruct Hd as [?|Hd]; [done|by apply not_elem_of_nil in Hd].
  - apply try_inv in H as (g&w1&E1&H). apply try_inv in H as (r2&w2&E2&H). injection H as _ <-.
    assert (forall b, b ∈ snOf tx -> mark b) as Hm1 by (intros b Hb; apply Hm, elem_of_app; by left).
    assert (forall b, b ∈ spentSNs txs -> mark b) as Hm2 by (intros b Hb; apply Hm, elem_of_app; by right).
    pose proof (ApplyTransaction_runs tx w Hc) as Hc1. rewrite E1 in Hc1.
    destruct (ApplyTransaction_keeps config number coinbase mark tx w g w1 He W Hn0 Hm1 E1) as (W1&_&_).
    apply (IH Hm2 w1 r2 w2 Hc1 W1 E2). destruct Hd as [Hd|[Hd|Hd]%elem_of_app]; [| |by right]; left;
      apply (ApplyTransaction_durable tx w g w1 a He Hc W Hn0 Hm1 E1 Ha); [by left|by right].
Qed.
End Quiet.
