(* ===== verification/ZkScenarios.v ===== *)
(** * ZkScenarios: concrete transactions with hidden balances

    A sample environment, in which the verifiers accept the proof ["valid"] and no
    address has code, the instances of the general theorems in it, and runs that
    show where the state transition does not protect the plain balances. *)
From S2P Require Import Prelude.
From S2P Require Import Messages.
From S2P Require Import StateDB.
From S2P Require Import Tx.
From S2P Require Import ZkTx.
From S2P Require Import ZkEffects.
From S2P Require Import ZkSafety.

(** ** Checked proofs *)

(** What the chain accepts as a proof of a transaction by [from], whose account has
    commitment [cmt]: for each code, the verifier of this code on the commitment, the
    serial number, the new commitment and what else the code is about. *)
Inductive proved `{ZE : ZkEnv} (tx : Transaction) (from cmt : string) : Prop :=
| proved_convert : tx_TxCode tx = TxConvert ->
    VerifyConvertProof cmt (tx_ZKSN tx) (tx_ZKCMTbal tx) (tx_ZKValue tx) (tx_ZKProof tx) = true -> proved tx from cmt
| proved_redeem : tx_TxCode tx = TxRedeem ->
    VerifyRedeemProof cmt (tx_ZKSN tx) (tx_ZKCMTbal tx) (tx_ZKValue tx) (tx_ZKProof tx) = true -> proved tx from cmt
| proved_deposit : tx_TxCode tx = TxDeposit ->
    VerifyDepositProof (tx_ZKSN tx) (tx_ZKCMTfd tx) (tx_ZKProof tx) cmt (tx_ZKCMTbal tx) = true -> proved tx from cmt
| proved_withdraw : tx_TxCode tx = TxWithdraw ->
    VerifyWithdrawProof from (tx_ZKHeader tx) cmt (tx_ZKSN tx) (tx_ZKCMTbal tx) (tx_ZKProof tx) = true -> proved tx from cmt.

Lemma verifyProof_proved `{ZE : ZkEnv} tx from cmt :
  setsCMT (tx_TxCode tx) = true -> verifyProof tx from cmt = true -> proved tx from cmt.
Proof.
  unfold setsCMT, verifyProof. intros Hc.
  destruct (Z.eqb_spec (tx_TxCode tx) TxConvert); [by apply proved_convert|].
  destruct (Z.eqb_spec (tx_TxCode tx) TxRedeem); [by apply proved_redeem|].
  destruct (Z.eqb_spec (tx_TxCode tx) TxDeposit); [by apply proved_deposit|].
  destruct (Z.eqb_spec (tx_TxCode tx) TxWithdraw); [by apply proved_withdraw|]. done.
Qed.

(** C31: No proof, no effect: when a transaction of the zero-knowledge type has one of the
    four codes that set a commitment, it is only carried out if its proof is accepted by
    the verifier of its code (of conversions, redemptions, deposits or withdrawals)
    against the commitment the sender has at that point (in a well-formed state), and if its serial number,
    unless zero, has no account yet.  A transaction of another type with such a code is
    carried out without a proof; see [unverified_code_mints]. *)
Theorem zk_proof_checked `{ZE : ZkEnv} config number coinbase (tx : Transaction) (w w' : World) (gas : Z) :
  sdb_wf (w_db w) -> tx_TxType tx = TxZK -> setsCMT (tx_TxCode tx) = true ->
  ApplyTransaction config number coinbase tx w = (Ret (inr gas), w') ->
  exists from, tx_Sender tx = Some from /\
    proved tx from (ac_CMT (account (w_db w) from).1) /\
    (tx_ZKSN tx <> zeroHash -> view (w_db w) (snAddress tx) = None).
Proof.
  intros W Ht Hc H. unfold ApplyTransaction, AsMessage in H. destruct (tx_Sender tx) as [from|]; [|done].
  exists from. split; [done|]. apply try_inv in H as ([]&w1&E1&_). rewrite Ht in E1. cbn [Z.eqb TxZK Pos.eqb] in E1.
  apply db_inv in E1 as (s1&E1&_). unfold checkZK in E1. rewrite Hc in E1. cbn [negb m_from] in E1.
  apply bind_inv in E1 as (ex&s2&E2&H).
  destruct (Exist_run (snAddress tx) (w_db w) W) as (s2'&[E2' W2]&Q2). rewrite E2' in E2. injection E2 as <- <-.
  destruct (bool_decide (is_Some _) && _) eqn:Eu; [done|].
  apply bind_inv in H as (cmt&s3&E3&H).
  destruct (read_run from ac_CMT s2' W2) as (s3'&[E3' _]&_).
  change (GetCMTBalance from) with (read from ac_CMT (ac_CMT emptyAccount)) in E3. rewrite E3' in E3. injection E3 as <- _.
  destruct (verifyProof _ _ _) eqn:Ev in H; [|done]. split.
  - apply verifyProof_proved; [done|]. unfold account in Ev |- *. by rewrite Q2 in Ev.
  - intros Hz. destruct (view (w_db w) (snAddress tx)); [|done]. cbn [bool_decide] in Eu.
    rewrite bool_decide_true in Eu by done. by rewrite bool_decide_false in Eu.
Qed.

(** ** Codes without proofs *)

(** The codes are not tied to the transaction type: in a transaction that is
    not a zero-knowledge one the code still takes effect, and the state processor
    asks for no proof.  Whatever the verifiers say, the redeem and the withdraw
    codes add the value to the plain balance of the sender. *)
Theorem unverified_code_mints `{ZE : ZkEnv} config number coinbase (tx : Transaction) (msg : Message) (to : string) (w : World) :
  tx_TxType tx <> TxZK -> AsMessage tx = Some msg -> tx_TxCode tx = TxRedeem \/ tx_TxCode tx = TxWithdraw ->
  sdb_wf (w_db w) -> sdb_refund (w_db w) = 0 -> payable msg w ->
  m_to msg = Some to -> precompiled to = false -> ac_Code (account (w_db w) to).1 = EmptyString ->
  let used := IntrinsicGas (m_data msg) false (homestead config number) in
  0 <= used <= m_gasLimit msg -> m_from msg <> to -> m_from msg <> coinbase ->
  exists s', ApplyTransaction config number coinbase tx w
             = (db (IntermediateRoot (eip158 config number)) ;; ok used) (mkWorld s' (w_gp w - used)) /\
    ac_Balance (account s' (m_from msg)).1
    = ac_Balance (account (w_db w) (m_from msg)).1 - used * m_price msg - m_amount msg
      + int64_of_u64 (tx_ZKValue tx).
Proof.
  intros Ht Hm Hc W Hr P Hto Hp Hco used Hu Hft Hfc.
  destruct (transition_run config number coinbase msg to w W Hr P Hto Hp Hco Hu) as (s'&[E _]&[_ A]). fold used in E, A.
  exists s'. split.
  - unfold ApplyTransaction. rewrite Hm. apply Z.eqb_neq in Ht. rewrite Ht. unfold try, ok at 1.
    unfold bind at 1, ret at 1. unfold bind at 1. by rewrite E.
  - rewrite A. unfold effect, shift, stamped, moved, at_. rewrite !(decide_True (P := m_from msg = m_from msg)) by done.
    rewrite !decide_False by congruence. cbn. unfold settlement.
    assert (m_txCode msg = tx_TxCode tx /\ m_zkValue msg = tx_ZKValue tx) as [-> ->].
    { unfold AsMessage in Hm. destruct (tx_Sender tx); [|done]. by injection Hm as <-. }
    destruct Hc as [-> | ->]; cbn; lia.
Qed.

(** ** A sample environment *)

Definition accepts (proof : string) : bool := bool_decide (proof = "valid"%string).

#[local] Instance sample_zk : ZkEnv := {
  VerifyConvertProof := fun _ _ _ _ p => accepts p;
  VerifyRedeemProof := fun _ _ _ _ p => accepts p;
  VerifyDepositProof := fun _ _ p _ _ => accepts p;
  VerifyWithdrawProof := fun _ _ _ _ _ p => accepts p;
  precompiled := fun _ => false;
  vm_run := fun _ _ _ _ _ => ret (EmptyString, 0, Some ErrVM);
  CreateAddress := fun c _ => String.append "contract of " c;
}.

Definition forks : ChainConfig := mkChainConfig (Some 0) (Some 0).
Definition alice : string := BytesToAddress "alice".
Definition bob : string := BytesToAddress "bob".
Definition sealer : string := BytesToAddress "sealer".

Definition genesis : World :=
  mkWorld (New {[ alice := mkAccount 0 100000 zeroHash EmptyString ]}) 1000000.

Definition zkTx (txtype code value amount nonce : Z) (sn : string) : Transaction :=
  mkTransaction code (BytesToHash "newcmt") (BytesToHash "fund") value (BytesToHash sn) "valid" nonce
    txtype 1 30000 (Some alice) (Some bob) amount EmptyString 0 [] zeroHash [] 0 0 0 (zeros 20) (zeros 20) None.

Definition msgOf (tx : Transaction) : Message :=
  default (mkMessage None EmptyString 0 0 0 0 EmptyString false 0 EmptyString 0) (AsMessage tx).

Lemma genesis_payable tx :
  payable (msgOf (zkTx tx.1.1 tx.1.2 tx.2 7 0 "sn")) genesis.
Proof. by split. Qed.

Lemma transition_effect_witness :
  exists s', TransitionDb forks 1 sealer (msgOf (zkTx TxZK TxConvert 500 7 0 "sn")) genesis
             = (Ret (inr 21000), mkWorld s' 979000) /\
    forall a, (account s' a).1
      = effect sealer (msgOf (zkTx TxZK TxConvert 500 7 0 "sn")) bob 21000 a (account (w_db genesis) a).1.
Proof.
  apply (transition_effect forks 1 sealer (msgOf (zkTx TxZK TxConvert 500 7 0 "sn")) bob genesis).
  - apply New_wf.
  - done.
  - apply (genesis_payable (TxZK, TxConvert, 500)).
  - done.
  - done.
  - done.
  - by vm_compute.
Defined.

Lemma unverified_code_mints_witness :
  exists s', ApplyTransaction forks 1 sealer (zkTx TxNormal TxRedeem 5000000 7 0 "sn") genesis
             = (db (IntermediateRoot true) ;; ok 21000) (mkWorld s' 979000) /\
    ac_Balance (account s' alice).1 = 5078993.
Proof.
  apply (unverified_code_mints forks 1 sealer (zkTx TxNormal TxRedeem 5000000 7 0 "sn")
           (msgOf (zkTx TxNormal TxRedeem 5000000 7 0 "sn")) bob genesis).
  - done.
  - reflexivity.
  - by left.
  - apply New_wf.
  - done.
  - apply (genesis_payable (TxNormal, TxRedeem, 5000000)).
  - done.
  - done.
  - done.
  - by vm_compute.
  - done.
  - done.
Defined.

Definition redeem : Transaction := zkTx TxZK TxRedeem 500 7 0 "sn".

Lemma zk_proof_checked_witness :
  exists from, tx_Sender redeem = Some from /\
    proved redeem from (ac_CMT (account (w_db genesis) from).1) /\
    (tx_ZKSN redeem <> zeroHash -> view (w_db genesis) (snAddress redeem) = None).
Proof.
  apply (zk_proof_checked forks 1 sealer redeem genesis (ApplyTransaction forks 1 sealer redeem genesis).2 21000).
  - apply New_wf.
  - done.
  - done.
  - by vm_compute.
Defined.

(** Two redemptions with different serial numbers make up a block. *)
Definition block : list Transaction :=
  [zkTx TxZK TxRedeem 500 7 0 "sn1"; zkTx TxZK TxRedeem 500 7 1 "sn2"].

Lemma sample_laws : ZkLaws (fun a => a ∈ spentSNs block).
Proof.
  split.
  - intros c n H. change (spentSNs block) with (map (fun sn => BytesToAddress (BytesToHash sn)) ["sn1"; "sn2"]%string) in H.
    unfold map in H. rewrite !elem_of_cons, elem_of_nil in H. by destruct H as [H|[H|[]]].
  - intros a code input gas value s r s' W _ H. injection H as <- <-. by apply kacts_ret.
Qed.

Lemma sn_spent_once_witness :
  NoDup (spentSNs block) /\
  forall a, a ∈ spentSNs block ->
    ~ spent (w_db genesis) a /\ spent (w_db (Process forks 1 sealer block [] genesis).2) a.
Proof.
  apply (sn_spent_once forks 1 sealer block [] genesis 42000 (Process forks 1 sealer block [] genesis).2).
  - exact sample_laws.
  - done.
  - apply New_wf.
  - by repeat constructor.
  - by vm_compute.
Defined.

(** ** Unprotected balances *)

(** A conversion can overdraw: it subtracts its value from the plain balance
    without comparing the two, the proof being about the commitments.  The balance
    goes below zero, which RLP cannot encode, and the panic of the encoder stops
    the node: every node that processes the block. *)
Example convert_overdraft_panics :
  (ApplyTransaction forks 1 sealer (zkTx TxZK TxConvert 80000 7 0 "sn") genesis).1 = Panic.
Proof. by vm_compute. Qed.

(** The miner's work on the sample state. *)
Definition work0 : Work := mkWork genesis [] [].

Definition trieOf (w : World) : gmap string Account := sdb_trie (w_db w).

(** A failed transaction can leave its commitment behind, and then the miner's
    block is wrong: the miner undoes a failed transaction by reverting to the
    snapshot taken before it, but [SetCMT] has no journal entry and runs although
    the call has failed.  The accounts the miner arrives at with the next
    transaction are not those [Process] computes from the transactions of the
    block: no other node accepts the state root of the miner. *)
Example failed_tx_spoils_block :
  let mine := r1 <- commitTransaction forks 1 sealer (zkTx TxZK TxConvert 500 90000 0 "sn") ;;
              r2 <- commitTransaction forks 1 sealer (zkTx TxNormal 0 0 7 0 "sn") ;;
              ret (r1, r2) in
  let '(r, k) := mine work0 in
  let '(r', w) := Process forks 1 sealer (wk_txs k) (wk_zkfunds k) genesis in
  r = Ret (Some ErrInsufficientBalance, None) /\ r' = Ret (inr 21000) /\
  ac_CMT <$> trieOf (wk_world k) !! alice = Some (BytesToHash "newcmt") /\
  ac_CMT <$> trieOf w !! alice = Some zeroHash.
Proof. vm_compute. by split_and!. Qed.
