(* ===== verification/GoHeap.v ===== *)
(** * GoHeap: binary heaps in a slice

    The algorithms of Go's [container/heap] ([Init], [Push], [Pop], [Remove] and
    [Fix] over [up] and [down]), which [core/tx_list.go] and
    [core/types/transaction.go] instantiate three times, over any comparison
    [less].  Each operation keeps the elements and the heap order; the root of a
    heap is least. *)
From S2P Require Import Prelude.

Local Open Scope nat_scope.

Section Heap.
Context {A : Type} (less : A -> A -> bool).

(** ** The algorithms *)

(** The methods [Swap] and [Less] of a slice, on indices inside it. *)
Definition swap (l : list A) (i j : nat) : list A :=
  match l !! i, l !! j with
  | Some x, Some y => <[i := y]> (<[j := x]> l)
  | _, _ => l
  end.

Definition lessAt (l : list A) (i j : nat) : bool :=
  match l !! i, l !! j with
  | Some x, Some y => less x y
  | _, _ => false
  end.

(** [up(h, j)]; the index gets smaller in every turn. *)
Fixpoint up (fuel : nat) (l : list A) (j : nat) : list A :=
  match fuel with
  | O => l
  | S fuel' =>
      let i := (j - 1) / 2 in
      if (i =? j) || negb (lessAt l j i) then l else up fuel' (swap l i j) i
  end.

(** [down(h, i, n)]: the slice and the index reached; it gets larger in every
    turn and stays below [n]. *)
Fixpoint down (fuel : nat) (l : list A) (i n : nat) : list A * nat :=
  match fuel with
  | O => (l, i)
  | S fuel' =>
      let j1 := 2 * i + 1 in
      if n <=? j1 then (l, i)
      else
        let j2 := j1 + 1 in
        let j := if (j2 <? n) && lessAt l j2 j1 then j2 else j1 in
        if negb (lessAt l j i) then (l, i) else down fuel' (swap l i j) j n
  end.

Definition heap_up (l : list A) (j : nat) : list A := up j l j.
Definition heap_down (l : list A) (i n : nat) : list A * bool :=
  let '(l', i') := down n l i n in (l', i <? i').

(** [Init]: from the last inner node to the root. *)
Fixpoint heapify (l : list A) (k : nat) : list A :=
  match k with O => l | S k' => heapify (heap_down l k' (length l)).1 k' end.
Definition heap_Init (l : list A) : list A := heapify l (length l / 2).

Definition heap_Push (l : list A) (x : A) : list A := heap_up (l ++ [x]) (length l).

(** The [Pop] method of the slices: the last element and the rest. *)
Definition slice_Pop (l : list A) : option (A * list A) :=
  match last l with Some x => Some (x, take (length l - 1) l) | None => None end.

(** [Pop]; on an empty slice it panics. *)
Definition heap_Pop (l : list A) : option (A * list A) :=
  let n := length l - 1 in slice_Pop (heap_down (swap l 0 n) 0 n).1.

(** [Fix] and [Remove]. *)
Definition settle_at (l : list A) (i n : nat) : list A :=
  let '(l', moved) := heap_down l i n in if moved then l' else heap_up l' i.
Definition heap_Fix (l : list A) (i : nat) : list A := settle_at l i (length l).
Definition heap_Remove (l : list A) (i : nat) : option (A * list A) :=
  let n := length l - 1 in
  slice_Pop (if n =? i then l else settle_at (swap l i n) i n).

(** ** Swaps *)

Lemma swap_length l i j : length (swap l i j) = length l.
Proof. unfold swap. repeat case_match; by rewrite ?length_insert. Qed.

Lemma swap_lookup l i j k : i < length l -> j < length l ->
  swap l i j !! k = if decide (k = i) then l !! j else if decide (k = j) then l !! i else l !! k.
Proof.
  intros Hi Hj. apply lookup_lt_is_Some in Hi as [x Ex]. apply lookup_lt_is_Some in Hj as [y Ey].
  unfold swap. rewrite Ex, Ey. pose proof (lookup_lt_Some _ _ _ Ex). pose proof (lookup_lt_Some _ _ _ Ey).
  destruct (decide (k = i)) as [->|Hki].
  - by rewrite list_lookup_insert_eq by (by rewrite length_insert).
  - rewrite list_lookup_insert_ne by done. destruct (decide (k = j)) as [->|Hkj].
    + by rewrite list_lookup_insert_eq.
    + by rewrite list_lookup_insert_ne.
Qed.

Lemma swap_perm l i j : swap l i j ≡ₚ l.
Proof. unfold swap. repeat case_match; try done. by apply Permutation_insert_swap. Qed.

(** ** What the operations keep *)

Lemma up_perm fuel l j : up fuel l j ≡ₚ l.
Proof.
  revert l j. induction fuel as [|fuel IH]; intros l j; cbn [up]; [done|]. cbv zeta.
  case_match; [done|]. by rewrite IH, swap_perm.
Qed.

Lemma down_perm fuel l i n : (down fuel l i n).1 ≡ₚ l.
Proof.
  revert l i. induction fuel as [|fuel IH]; intros l i; cbn [down]; [done|]. cbv zeta.
  case_match; [done|]. case_match; [done|]. by rewrite IH, swap_perm.
Qed.

Lemma heap_down_fst l i n : (heap_down l i n).1 = (down n l i n).1.
Proof. unfold heap_down. by destruct (down n l i n). Qed.

Lemma heap_down_perm l i n : (heap_down l i n).1 ≡ₚ l.
Proof. rewrite heap_down_fst. apply down_perm. Qed.

Lemma settle_perm l i n : settle_at l i n ≡ₚ l.
Proof.
  unfold settle_at. pose proof (heap_down_perm l i n) as H. destruct (heap_down l i n) as [l' []]; [done|].
  unfold heap_up. by rewrite up_perm.
Qed.

Lemma heapify_perm l k : heapify l k ≡ₚ l.
Proof. revert l. induction k as [|k IH]; intros l; cbn; [done|]. by rewrite IH, heap_down_perm. Qed.

Lemma Init_perm l : heap_Init l ≡ₚ l.
Proof. apply heapify_perm. Qed.

Lemma Push_perm l x : heap_Push l x ≡ₚ x :: l.
Proof. unfold heap_Push, heap_up. rewrite up_perm. by rewrite Permutation_app_comm. Qed.

Lemma Fix_perm l i : heap_Fix l i ≡ₚ l.
Proof. apply settle_perm. Qed.

Lemma slice_Pop_app l x l' : slice_Pop l = Some (x, l') -> l = l' ++ [x].
Proof.
  unfold slice_Pop. destruct (last l) as [z|] eqn:E; [|done]. intros [= -> <-].
  apply last_Some in E as [l1 ->]. rewrite length_app. cbn. by rewrite Nat.add_sub, take_app_length.
Qed.

Lemma slice_Pop_perm l x l' : slice_Pop l = Some (x, l') -> l ≡ₚ x :: l'.
Proof. intros ->%slice_Pop_app. by rewrite Permutation_app_comm. Qed.

Lemma slice_Pop_is_Some l : l <> [] -> is_Some (slice_Pop l).
Proof. intros H. unfold slice_Pop. destruct (last l) eqn:E; [by eexists|]. by apply last_None in E. Qed.

(** ** Heap order *)

Section Order.
Context (less_trans : forall x y z, less y x = false -> less z y = false -> less z x = false).
Context (less_asym : forall x y, less x y = true -> less y x = false).

(** [c] is a child of [p]; [le x y] when [y] is not less than [x]. *)
Definition child (p c : nat) : Prop := c = 2 * p + 1 \/ c = 2 * p + 2.
Definition le (x y : A) : Prop := less y x = false.

Lemma le_trans x y z : le x y -> le y z -> le x z.
Proof using less_trans. unfold le. eauto. Qed.
Lemma le_refl x : le x x.
Proof using less_asym. unfold le. destruct (less x x) eqn:E; [|done]. by rewrite (less_asym _ _ E) in E. Qed.
Lemma le_total x y : less x y = true -> le x y.
Proof using less_asym. apply less_asym. Qed.

(** The order holds between every node below [n] from [r] on and its children,
    except at the node [hole], whose parent and children are in order. *)
Definition ordered_at (l : list A) (p c : nat) : Prop :=
  forall x y, l !! p = Some x -> l !! c = Some y -> le x y.

Definition heap_range (l : list A) (r n : nat) : Prop :=
  forall p c, r <= p -> child p c -> c < n -> ordered_at l p c.

Definition heap (l : list A) : Prop := heap_range l 0 (length l).

(** Only the order of [hole] to its children may fail. *)
Definition hole_down (l : list A) (r n hole : nat) : Prop :=
  (forall p c, r <= p -> child p c -> c < n -> p <> hole -> ordered_at l p c) /\
  (forall p c, r <= p -> child p hole -> child hole c -> c < n -> ordered_at l p c).

(** Only the order of [hole] to its parent may fail. *)
Definition hole_up (l : list A) (n hole : nat) : Prop :=
  (forall p c, child p c -> c < n -> c <> hole -> ordered_at l p c) /\
  (forall p c, child p hole -> child hole c -> c < n -> ordered_at l p c).

(** Both may fail. *)
Definition hole_both (l : list A) (r n hole : nat) : Prop :=
  (forall p c, r <= p -> child p c -> c < n -> c <> hole -> p <> hole -> ordered_at l p c) /\
  (forall p c, r <= p -> child p hole -> child hole c -> c < n -> ordered_at l p c).

Lemma child_lt p c : child p c -> p < c.
Proof using Type. intros [-> | ->]; lia. Qed.
Lemma child_parent_inj p p' c : child p c -> child p' c -> p = p'.
Proof using Type. intros [-> | ->] [E|E]; lia. Qed.
Lemma child_parent c : 0 < c -> child ((c - 1) / 2) c.
Proof using Type.
  intros H. unfold child. pose proof (Nat.div_mod_eq (c - 1) 2). pose proof (Nat.mod_upper_bound (c - 1) 2). lia.
Qed.

Lemma lessAt_false l i j : lessAt l j i = false -> ordered_at l i j.
Proof using Type. unfold lessAt. intros H x y Hx Hy. by rewrite Hx, Hy in H. Qed.

Lemma lessAt_true l i j : lessAt l j i = true ->
  exists x y, l !! i = Some x /\ l !! j = Some y /\ less y x = true /\ i < length l /\ j < length l.
Proof using Type.
  unfold lessAt. intros H. destruct (l !! j) as [y|] eqn:Ey, (l !! i) as [x|] eqn:Ex; try done.
  exists x, y. split_and!; eauto using lookup_lt_Some.
Qed.

(** Sifting up repairs the order to the parents. *)
Lemma up_heap fuel l n j : j <= fuel -> n <= length l -> j < n -> hole_up l n j ->
  heap_range (up fuel l j) 0 n.
Proof using less_asym less_trans.
  revert l j. induction fuel as [|fuel IH]; intros l j Hf Hn Hj [H1 H2]; cbn [up]; cbv zeta.
  { assert (j = 0) as -> by lia. intros p c _ Hc Hcn. apply H1; [done|done|]. apply child_lt in Hc. lia. }
  destruct (decide (j = 0)) as [->|Hj0].
  { cbn. intros p c _ Hc Hcn. apply H1; [done|done|]. apply child_lt in Hc. lia. }
  pose proof (child_parent j ltac:(lia)) as Hpar. set (i := (j - 1) / 2) in *. pose proof (child_lt _ _ Hpar) as Hij.
  destruct ((i =? j) || negb (lessAt l j i)) eqn:E.
  { apply orb_true_iff in E as [E%Nat.eqb_eq|E%negb_true_iff]; [lia|]. intros p c _ Hc Hcn.
    destruct (decide (c = j)) as [->|Hcj]; [|by apply H1].
    rewrite (child_parent_inj _ _ _ Hc Hpar). by apply lessAt_false. }
  apply orb_false_iff in E as [_ E%negb_false_iff].
  destruct (lessAt_true _ _ _ E) as (x & y & Ex & Ey & Hxy & Hil & Hjl).
  apply IH; [lia|by rewrite swap_length|lia|]. split.
  - intros p c Hc Hcn Hci u v Hu Hv. rewrite !swap_lookup in Hu, Hv by done. pose proof (child_lt _ _ Hc).
    rewrite (decide_False (P := c = i)) in Hv by done.
    destruct (decide (c = j)) as [->|Hcj].
    + assert (p = i) as -> by eauto using child_parent_inj. rewrite decide_True in Hu by done.
      simplify_eq. by apply le_total.
    + destruct (decide (p = i)) as [->|Hpi].
      * simplify_eq. apply le_trans with x; [by apply le_total|]. by apply (H1 i c Hc Hcn Hcj).
      * destruct (decide (p = j)) as [->|Hpj]; [|by apply (H1 p c Hc Hcn Hcj)].
        simplify_eq. by apply (H2 i c Hpar Hc Hcn).
  - intros p c Hp Hc Hcn u v Hu Hv. rewrite !swap_lookup in Hu, Hv by done.
    pose proof (child_lt _ _ Hc). pose proof (child_lt _ _ Hp).
    rewrite (decide_False (P := p = i)), (decide_False (P := p = j)) in Hu by lia.
    rewrite (decide_False (P := c = i)) in Hv by lia.
    assert (le u x) as Hux by (apply (H1 p i Hp); [lia|lia|done|done]).
    destruct (decide (c = j)) as [->|Hcj]; [congruence|].
    apply le_trans with x; [done|]. by apply (H1 i c Hc Hcn Hcj).
Qed.

(** The smaller child that [down] looks at. *)
Definition minChild (l : list A) (i n : nat) : nat :=
  if (2 * i + 2 <? n) && lessAt l (2 * i + 2) (2 * i + 1) then 2 * i + 2 else 2 * i + 1.

Lemma down_unfold fuel l i n :
  down (S fuel) l i n =
  if (n <=? 2 * i + 1) || negb (lessAt l (minChild l i n) i) then (l, i)
  else down fuel (swap l i (minChild l i n)) (minChild l i n) n.
Proof using Type.
  cbn [down]. cbv zeta. unfold minChild. replace (2 * i + 1 + 1) with (2 * i + 2) by lia.
  destruct (n <=? 2 * i + 1); cbn [orb]; [done|]. done.
Qed.

Lemma minChild_child l i n : 2 * i + 1 < n -> child i (minChild l i n) /\ minChild l i n < n.
Proof using Type.
  intros Hn. unfold minChild, child. destruct (Nat.ltb_spec (2 * i + 2) n); cbn [andb]; [|lia].
  case_match; lia.
Qed.

Lemma minChild_least l i n c : n <= length l -> child i c -> c < n -> ordered_at l (minChild l i n) c.
Proof using less_asym.
  intros Hl Hc Hcn x y Hx Hy. unfold minChild in Hx.
  destruct ((2 * i + 2 <? n) && lessAt l (2 * i + 2) (2 * i + 1)) eqn:E.
  - apply andb_true_iff in E as [_ E]. destruct Hc as [-> | ->]; [|simplify_eq; apply le_refl].
    unfold lessAt in E. rewrite Hx, Hy in E. by apply le_total.
  - destruct Hc as [-> | ->]; [simplify_eq; apply le_refl|]. rewrite (proj2 (Nat.ltb_lt _ _) Hcn) in E.
    cbn [andb] in E. unfold lessAt in E. by rewrite Hx, Hy in E.
Qed.

(** A turn that goes on leaves only the order below the child at fault. *)
Lemma down_turn l r n i : n <= length l -> r <= i -> hole_both l r n i ->
  2 * i + 1 < n -> lessAt l (minChild l i n) i = true ->
  hole_down (swap l i (minChild l i n)) r n (minChild l i n).
Proof using less_asym less_trans.
  intros Hn Hr [H1 H2] Hi E. destruct (minChild_child l i n Hi) as [Hj Hjn].
  set (j := minChild l i n) in *. pose proof (child_lt _ _ Hj).
  destruct (lessAt_true _ _ _ E) as (x & y & Ex & Ey & Hyx & Hil & Hjl). split.
  - intros p c Hp Hc Hcn Hpj u v Hu Hv. rewrite !swap_lookup in Hu, Hv by done. pose proof (child_lt _ _ Hc).
    rewrite (decide_False (P := p = j)) in Hu by done.
    destruct (decide (c = i)) as [->|Hci].
    + rewrite decide_False in Hu by lia. simplify_eq. by apply (H2 p j Hp Hc Hj Hjn).
    + destruct (decide (c = j)) as [->|Hcj].
      * assert (p = i) as -> by eauto using child_parent_inj. rewrite decide_True in Hu by done.
        simplify_eq. by apply le_total.
      * destruct (decide (p = i)) as [->|Hpi].
        -- simplify_eq. by apply (minChild_least l i n c Hn Hc Hcn).
        -- by apply (H1 p c Hp Hc Hcn Hci Hpi).
  - intros p c Hp Hpj Hc Hcn u v Hu Hv. assert (p = i) as -> by eauto using child_parent_inj.
    rewrite !swap_lookup in Hu, Hv by done. pose proof (child_lt _ _ Hc).
    rewrite decide_True in Hu by done. rewrite !decide_False in Hv by lia. simplify_eq.
    by apply (H1 j c ltac:(lia) Hc Hcn ltac:(lia) ltac:(lia)).
Qed.

(** A turn that stops has found the order. *)
Lemma down_stop l n i c : n <= length l ->
  (n <=? 2 * i + 1) || negb (lessAt l (minChild l i n) i) = true ->
  child i c -> c < n -> ordered_at l i c.
Proof using less_asym less_trans.
  intros Hn E Hc Hcn x y Hx Hy. apply orb_true_iff in E as [E%Nat.leb_le|E%negb_true_iff].
  { destruct Hc as [-> | ->]; lia. }
  assert (2 * i + 1 < n) as Hi by (destruct Hc as [-> | ->]; lia).
  destruct (minChild_child l i n Hi) as [Hj Hjn].
  destruct (lookup_lt_is_Some_2 l (minChild l i n) ltac:(lia)) as [z Hz].
  apply le_trans with z; [by apply (lessAt_false _ _ _ E)|].
  by apply (minChild_least l i n c Hn Hc Hcn).
Qed.

Lemma hole_down_both l r n i : hole_down l r n i -> hole_both l r n i.
Proof using Type. intros [H1 H2]. split; [|done]. intros p c Hp Hc Hcn _ Hpi. by apply H1. Qed.

(** Sifting down repairs the order to the children. *)
Lemma down_heap fuel l r n i : n <= length l -> n <= fuel + i -> r <= i -> hole_down l r n i ->
  heap_range (down fuel l i n).1 r n.
Proof using less_asym less_trans.
  revert l i. induction fuel as [|fuel IH]; intros l i Hn Hf Hr H.
  { cbn. intros p c Hp Hc Hcn. apply (proj1 H); [done..|]. apply child_lt in Hc. lia. }
  rewrite down_unfold. destruct ((n <=? 2 * i + 1) || _) eqn:E.
  - cbn. intros p c Hp Hc Hcn. destruct (decide (p = i)) as [->|Hpi]; [by apply (down_stop l n i)|].
    by apply (proj1 H).
  - apply orb_false_iff in E as [E1%Nat.leb_gt E2%negb_false_iff].
    destruct (minChild_child l i n E1) as [Hj Hjn]. pose proof (child_lt _ _ Hj).
    apply IH; [by rewrite swap_length|lia|lia|]. apply down_turn; try done. by apply hole_down_both.
Qed.

Lemma down_index fuel l i n : i <= (down fuel l i n).2.
Proof using Type.
  revert l i. induction fuel as [|fuel IH]; intros l i; [done|]. rewrite down_unfold. case_match; [done|].
  etrans; [|apply IH]. unfold minChild. case_match; lia.
Qed.

Lemma down_index_moved fuel l i n :
  (n <=? 2 * i + 1) || negb (lessAt l (minChild l i n) i) = false -> i < (down (S fuel) l i n).2.
Proof using Type.
  intros E. rewrite down_unfold, E. eapply Nat.lt_le_trans; [|apply down_index]. unfold minChild. case_match; lia.
Qed.

(** [Fix] repairs a heap one element of which has changed. *)
Lemma settle_heap l n i : n <= length l -> i < n -> hole_both l 0 n i -> heap_range (settle_at l i n) 0 n.
Proof using less_asym less_trans.
  intros Hn Hi H. unfold settle_at, heap_down. destruct n as [|n]; [lia|]. set (m := S n) in *.
  destruct (down m l i m) as [l' i'] eqn:Ed.
  destruct ((m <=? 2 * i + 1) || negb (lessAt l (minChild l i m) i)) eqn:E.
  - unfold m in Ed at 1. rewrite down_unfold, E in Ed. injection Ed as <- <-. rewrite Nat.ltb_irrefl.
    apply up_heap; [done|done|done|]. split.
    + intros p c Hc Hcn Hci. destruct (decide (p = i)) as [->|Hpi]; [by apply (down_stop l m i)|].
      apply (proj1 H); [lia|done..].
    + intros p c Hp Hc Hcn. apply (proj2 H); [lia|done..].
  - assert (i < i') as Hlt%Nat.ltb_lt.
    { pose proof (down_index_moved n l i m E) as Hm. fold m in Hm. by rewrite Ed in Hm. }
    rewrite Hlt. apply orb_false_iff in E as [E1%Nat.leb_gt E2%negb_false_iff].
    destruct (minChild_child l i m E1) as [Hj Hjn]. pose proof (child_lt _ _ Hj).
    replace l' with (down n (swap l i (minChild l i m)) (minChild l i m) m).1.
    + apply down_heap; [by rewrite swap_length|lia|lia|]. by apply down_turn; [| |done|..]; try lia.
    + unfold m in Ed at 1. rewrite down_unfold in Ed. rewrite (proj2 (Nat.leb_gt _ _) E1), E2 in Ed.
      cbn [orb negb] in Ed. by rewrite Ed.
Qed.

(** ** The operations on heaps *)

Lemma heap_nil : heap [].
Proof using Type. intros p c _ _ Hc. cbn in Hc. lia. Qed.

(** The root is least. *)
Lemma heap_root l x y : heap l -> l !! 0 = Some x -> y ∈ l -> le x y.
Proof using less_asym less_trans.
  intros H Hx [i Hi]%list_elem_of_lookup. revert y Hi. induction (lt_wf i) as [i _ IH]. intros y Hi.
  destruct (decide (i = 0)) as [->|Hi0]; [simplify_eq; apply le_refl|].
  pose proof (child_parent i ltac:(lia)) as Hc. pose proof (child_lt _ _ Hc).
  pose proof (lookup_lt_Some _ _ _ Hi).
  destruct (lookup_lt_is_Some_2 l ((i - 1) / 2) ltac:(lia)) as [z Hz].
  apply le_trans with z; [by eapply IH|]. by apply (H _ i ltac:(lia) Hc).
Qed.

Lemma heap_range_weaken l r n n' : n' <= n -> heap_range l r n -> heap_range l r n'.
Proof using Type. intros Hn H p c Hp Hc Hcn. apply H; [done..|lia]. Qed.

Lemma heap_range_take l n : heap_range l 0 n -> n <= length l -> heap (take n l).
Proof using Type.
  intros H Hn p c Hp Hc Hcn x y Hx Hy. rewrite length_take in Hcn. rewrite lookup_take_lt in Hy by lia.
  pose proof (child_lt _ _ Hc). rewrite lookup_take_lt in Hx by lia. by apply (H p c Hp Hc ltac:(lia)).
Qed.

Lemma heapify_heap l k : k <= length l -> heap_range l k (length l) -> heap (heapify l k).
Proof using less_asym less_trans.
  revert l. induction k as [|k IH]; intros l Hk H; cbn [heapify]; [done|].
  assert (length (heap_down l k (length l)).1 = length l) as El by (apply Permutation_length, heap_down_perm).
  apply IH; [lia|]. rewrite El, heap_down_fst. apply down_heap; [done|lia|done|]. split.
  - intros p c Hp Hc Hcn Hpk. apply H; [lia|done..].
  - intros p c Hp Hpk. apply child_lt in Hpk. lia.
Qed.

Lemma Init_heap l : heap (heap_Init l).
Proof using less_asym less_trans.
  pose proof (Nat.div_mod_eq (length l) 2). pose proof (Nat.mod_upper_bound (length l) 2).
  apply heapify_heap; [lia|]. intros p c Hp Hc Hcn. destruct Hc; lia.
Qed.

Lemma Push_heap l x : heap l -> heap (heap_Push l x).
Proof using less_asym less_trans.
  intros H. unfold heap_Push, heap_up, heap. rewrite (Permutation_length (up_perm _ _ _)).
  rewrite length_app. cbn. apply up_heap; [done|rewrite length_app; cbn; lia|lia|]. split.
  - intros p c Hc Hcn Hci u v Hu Hv. pose proof (child_lt _ _ Hc).
    rewrite lookup_app_l in Hu, Hv by lia. by apply (H p c ltac:(lia) Hc ltac:(lia)).
  - intros p c _ Hc Hcn. apply child_lt in Hc. lia.
Qed.

Lemma Fix_heap l i x : heap l -> i < length l -> heap (heap_Fix (<[i := x]> l) i).
Proof using less_asym less_trans.
  intros H Hi. unfold heap_Fix, heap. rewrite (Permutation_length (settle_perm _ _ _)).
  apply settle_heap; [done|by rewrite length_insert|]. rewrite length_insert. split.
  - intros p c _ Hc Hcn Hci Hpi u v Hu Hv. rewrite list_lookup_insert_ne in Hu, Hv by done.
    by apply (H p c ltac:(lia) Hc Hcn).
  - intros p c _ Hp Hc Hcn u v Hu Hv. pose proof (child_lt _ _ Hp). pose proof (child_lt _ _ Hc).
    rewrite list_lookup_insert_ne in Hu, Hv by lia.
    destruct (lookup_lt_is_Some_2 l i Hi) as [z Hz]. apply le_trans with z.
    + by apply (H p i ltac:(lia) Hp Hi).
    + by apply (H i c ltac:(lia) Hc Hcn).
Qed.

(** The hole a swap with the last element makes. *)
Lemma swap_hole l i : heap l -> i < length l - 1 -> hole_both (swap l i (length l - 1)) 0 (length l - 1) i.
Proof using less_asym less_trans.
  intros H Hi. set (n := length l - 1) in *. split.
  - intros p c _ Hc Hcn Hci Hpi u v Hu Hv. pose proof (child_lt _ _ Hc).
    rewrite !swap_lookup in Hu, Hv by lia. rewrite !decide_False in Hu by lia. rewrite !decide_False in Hv by lia.
    by apply (H p c ltac:(lia) Hc ltac:(lia)).
  - intros p c _ Hp Hc Hcn u v Hu Hv. pose proof (child_lt _ _ Hp). pose proof (child_lt _ _ Hc).
    rewrite !swap_lookup in Hu, Hv by lia. rewrite !decide_False in Hu by lia. rewrite !decide_False in Hv by lia.
    destruct (lookup_lt_is_Some_2 l i ltac:(lia)) as [z Hz]. apply le_trans with z.
    + by apply (H p i ltac:(lia) Hp ltac:(lia)).
    + by apply (H i c ltac:(lia) Hc ltac:(lia)).
Qed.

(** Sifting below [n] does not touch the places from [n] on. *)
Lemma swap_above l i j n k : n <= length l -> i < n -> j < n -> n <= k -> swap l i j !! k = l !! k.
Proof using Type. intros Hl Hi Hj Hk. rewrite swap_lookup by lia. by rewrite !decide_False by lia. Qed.

Lemma up_above fuel l j n k : n <= length l -> j < n -> n <= k -> up fuel l j !! k = l !! k.
Proof using Type.
  revert l j. induction fuel as [|fuel IH]; intros l j Hl Hj Hk; cbn [up]; cbv zeta; [done|].
  case_match; [done|]. pose proof (Nat.Div0.div_le_upper_bound (j - 1) 2 j ltac:(lia)).
  rewrite IH by (rewrite ?swap_length; lia). apply (swap_above _ _ _ n); lia.
Qed.

Lemma down_above fuel l i n k : n <= length l -> i < n -> n <= k ->
  (down fuel l i n).1 !! k = l !! k.
Proof using Type.
  revert l i. induction fuel as [|fuel IH]; intros l i Hl Hi Hk; [done|]. rewrite down_unfold.
  destruct ((n <=? 2 * i + 1) || _) eqn:E; [done|]. apply orb_false_iff in E as [E1%Nat.leb_gt _].
  destruct (minChild_child l i n E1) as [Hj Hjn].
  rewrite IH by (rewrite ?swap_length; lia). apply (swap_above _ _ _ n); lia.
Qed.

Lemma settle_above l i n k : n <= length l -> i < n -> n <= k -> settle_at l i n !! k = l !! k.
Proof using Type.
  intros Hl Hi Hk. unfold settle_at, heap_down. pose proof (down_above n l i n k Hl Hi Hk) as Hd.
  pose proof (down_perm n l i n) as Hp%Permutation_length. destruct (down n l i n) as [l' i']. cbn in Hd, Hp.
  case_match; [done|]. unfold heap_up. rewrite (up_above _ _ _ n) by lia. done.
Qed.

Lemma slice_Pop_last l x : l !! (length l - 1) = Some x -> slice_Pop l = Some (x, take (length l - 1) l).
Proof using Type. intros H. unfold slice_Pop. by rewrite last_lookup, <- Nat.sub_1_r, H. Qed.

(** [Pop] removes the least element. *)
Lemma Pop_spec l x : heap l -> l !! 0 = Some x ->
  exists l', heap_Pop l = Some (x, l') /\ l ≡ₚ x :: l' /\ heap l'.
Proof using less_asym less_trans.
  intros H Hx. pose proof (lookup_lt_Some _ _ _ Hx) as Hl. set (n := length l - 1).
  set (l1 := (heap_down (swap l 0 n) 0 n).1).
  assert (l1 ≡ₚ l) as Hp by (unfold l1; by rewrite heap_down_perm, swap_perm).
  pose proof (Permutation_length Hp) as Hlen.
  assert (l1 !! n = Some x) as Hn.
  { unfold l1. rewrite heap_down_fst. destruct (decide (n = 0)) as [E|E].
    - rewrite E. cbn. unfold swap. rewrite Hx. rewrite list_insert_insert_eq, list_insert_id; done.
    - rewrite (down_above n _ 0 n n) by (rewrite ?swap_length; lia). rewrite swap_lookup by lia.
      by rewrite decide_False, decide_True by lia. }
  assert (slice_Pop l1 = Some (x, take n l1)) as E.
  { assert (n = length l1 - 1) as En by (unfold n; lia). rewrite En. apply slice_Pop_last. by rewrite <- En. }
  exists (take n l1). split; [|split].
  - exact E.
  - etrans; [symmetry; exact Hp|by apply slice_Pop_perm].
  - apply heap_range_take; [|lia]. unfold l1. rewrite heap_down_fst. destruct (decide (n = 0)) as [->|Hn0].
    { intros p c _ _ Hc. lia. }
    apply down_heap; [rewrite swap_length; lia|lia|lia|].
    destruct (swap_hole l 0 H ltac:(lia)) as [H1 H2]. split; [|exact H2].
    intros p c Hp0 Hc Hcn Hp1. apply H1; try done. apply child_lt in Hc. lia.
Qed.

(** [Remove] removes the element at an index. *)
Lemma Remove_spec l i x : heap l -> l !! i = Some x ->
  exists l', heap_Remove l i = Some (x, l') /\ l ≡ₚ x :: l' /\ heap l'.
Proof using less_asym less_trans.
  intros H Hx. pose proof (lookup_lt_Some _ _ _ Hx) as Hl. set (n := length l - 1).
  set (l1 := if n =? i then l else settle_at (swap l i n) i n).
  assert (l1 ≡ₚ l) as Hp by (unfold l1; case_match; [done|]; by rewrite settle_perm, swap_perm).
  pose proof (Permutation_length Hp) as Hlen.
  assert (l1 !! n = Some x /\ heap_range l1 0 n) as [Hn Hh].
  { unfold l1. destruct (Nat.eqb_spec n i) as [<-|Hni].
    - split; [done|]. eapply heap_range_weaken; [|exact H]. lia.
    - split.
      + rewrite settle_above by (rewrite ?swap_length; lia). rewrite swap_lookup by lia.
        by rewrite decide_False, decide_True by lia.
      + apply settle_heap; [rewrite swap_length; lia|lia|]. by apply swap_hole; [|lia]. }
  assert (slice_Pop l1 = Some (x, take n l1)) as E.
  { assert (n = length l1 - 1) as En by (unfold n; lia). rewrite En. apply slice_Pop_last. by rewrite <- En. }
  exists (take n l1). split; [|split].
  - exact E.
  - etrans; [symmetry; exact Hp|by apply slice_Pop_perm].
  - apply heap_range_take; [done|lia].
Qed.
End Order.
End Heap.

#[global] Arguments heap_Init {_} _ _ : simpl never.
#[global] Arguments heap_Push {_} _ _ _ : simpl never.
#[global] Arguments heap_Pop {_} _ _ : simpl never.
#[global] Arguments heap_Fix {_} _ _ _ : simpl never.
#[global] Arguments heap_Remove {_} _ _ _ : simpl never.
