(* ===== verification/TxList.v ===== *)
(** * TxList: the transactions of one account

    Models [txSortedMap] and [txList] of [core/tx_list.go]: a map from nonces to
    transactions with a heap of the nonces and a cache of the sorted
    transactions, and on top of it the list of an account, which accepts
    replacements for a higher price and filters by cost.  The refinement: every
    operation does to the map of nonces what its comment promises, and keeps heap
    and cache consistent with it. *)
From S2P Require Import Prelude.
From S2P Require Import Messages.
From S2P Require Import Tx.
From S2P Require Import GoHeap.

(** ** [txSortedMap] *)

Record txSortedMap := mkSortedMap {
  sm_items : gmap Z Transaction;
  sm_index : list Z;
  sm_cache : option (list Transaction);
}.
#[export] Instance txSortedMap_eta : Eta txSortedMap := fun r =>
  mkSortedMap (sm_items r) (sm_index r) (sm_cache r).

Definition newTxSortedMap : txSortedMap := mkSortedMap ∅ [] None.

Local Abbreviation MS := (M txSortedMap).

(** The methods of [nonceHeap] and [TxByNonce]. *)
Definition nonceLess : Z -> Z -> bool := Z.ltb.
Definition byNonce (a b : Transaction) : Prop := tx_AccountNonce a <= tx_AccountNonce b.
#[export] Instance byNonce_dec a b : Decision (byNonce a b).
Proof. unfold byNonce. apply _. Defined.

(** A loop that appends what its turns return. *)
Fixpoint collect {W A B} (l : list A) (body : A -> M W (list B)) : M W (list B) :=
  match l with
  | [] => ret []
  | x :: l' => r <- body x ;; rs <- collect l' body ;; ret (r ++ rs)
  end.

Definition sm_Get (nonce : Z) : MS (option Transaction) := gets (fun m => sm_items m !! nonce).

Definition sm_Put (tx : Transaction) : MS unit :=
  let nonce := tx_AccountNonce tx in
  modify (fun m =>
    (match sm_items m !! nonce with
     | None => m <| sm_index ::= fun h => heap_Push nonceLess h nonce |>
     | Some _ => m
     end) <| sm_items ::= <[nonce := tx]> |> <| sm_cache := None |>).

(** The transaction at a nonce of the index, taken out of the map; a missing one
    is a nil pointer, which every caller dereferences. *)
Definition sm_take (nonce : Z) : MS (list Transaction) :=
  m <- get ;;
  match sm_items m !! nonce with
  | Some tx => modify (fun m => m <| sm_items ::= delete nonce |>) ;; ret [tx]
  | None => panic
  end.

Definition sm_pop : MS Z :=
  m <- get ;;
  match heap_Pop nonceLess (sm_index m) with
  | Some (nonce, h) => modify (fun m => m <| sm_index := h |>) ;; ret nonce
  | None => panic
  end.

Fixpoint forwardLoop (fuel : nat) (threshold : Z) : MS (list Transaction) :=
  m <- get ;;
  match fuel, sm_index m with
  | S fuel', n0 :: _ =>
      if n0 <? threshold then
        nonce <- sm_pop ;; r <- sm_take nonce ;; rs <- forwardLoop fuel' threshold ;; ret (r ++ rs)
      else ret []
  | _, _ => ret []
  end.

(** [Forward]; the cache is shifted by a slice expression. *)
Definition sm_Forward (threshold : Z) : MS (list Transaction) :=
  m <- get ;;
  removed <- forwardLoop (length (sm_index m)) threshold ;;
  modify (fun m => m <| sm_cache ::= fmap (drop (length removed)) |>) ;;
  ret removed.

(** [Filter]; [t] and [S t] number its two loops over the map. *)
Definition sm_Filter `{GoRange} (t : nat) (f : Transaction -> bool) : MS (list Transaction) :=
  m <- get ;;
  let removed := List.filter (fun e => f e.2) (go_range t (sm_items m)) in
  let left := base.filter (fun e => f e.2 = false) (sm_items m) in
  modify (fun m => m <| sm_items := left |>) ;;
  when (negb (bool_decide (removed = [])))
    (modify (fun m => m <| sm_index := heap_Init nonceLess (go_range (S t) left).*1 |>
                        <| sm_cache := None |>)) ;;
  ret removed.*2.

(** [Cap]; the index is sorted in place, its nonces differ. *)
Definition sm_Cap (threshold : Z) : MS (list Transaction) :=
  m <- get ;;
  let len := size (sm_items m) in
  if Z.of_nat len <=? threshold then ret []
  else if threshold <? 0 then panic
  else
    let th := Z.to_nat threshold in
    let idx := merge_sort Z.le (sm_index m) in
    drops <- collect (reverse (seq th (len - th)))
      (fun k => match idx !! k with Some nonce => sm_take nonce | None => panic end) ;;
    modify (fun m => m <| sm_index := heap_Init nonceLess (take th idx) |>
                       <| sm_cache ::= fmap (fun c => take (length c - length drops) c) |>) ;;
    ret drops.

(** [Remove]. *)
Definition sm_Remove (nonce : Z) : MS bool :=
  m <- get ;;
  match sm_items m !! nonce with
  | None => ret false
  | Some _ =>
      match list_find (fun n => n = nonce) (sm_index m) with
      | Some (i, _) =>
          match heap_Remove nonceLess (sm_index m) i with
          | Some (_, h) => modify (fun m => m <| sm_index := h |>)
          | None => panic
          end
      | None => ret tt
      end ;;
      modify (fun m => m <| sm_items ::= delete nonce |> <| sm_cache := None |>) ;;
      ret true
  end.

Fixpoint readyLoop (fuel : nat) (next : Z) : MS (list Transaction) :=
  m <- get ;;
  match fuel, sm_index m with
  | S fuel', n0 :: _ =>
      if n0 =? next then
        r <- sm_take next ;; sm_pop ;; rs <- readyLoop fuel' (u64 (next + 1)) ;; ret (r ++ rs)
      else ret []
  | _, _ => ret []
  end.

(** [Ready]. *)
Definition sm_Ready (start : Z) : MS (list Transaction) :=
  m <- get ;;
  match sm_index m with
  | [] => ret []
  | n0 :: _ =>
      if start <? n0 then ret []
      else
        ready <- readyLoop (length (sm_index m)) n0 ;;
        modify (fun m => m <| sm_cache := None |>) ;;
        ret ready
  end.

Definition sm_Len : MS Z := gets (fun m => Z.of_nat (size (sm_items m))).

(** [Flatten]. *)
Definition sm_Flatten `{GoRange} (t : nat) : MS (list Transaction) :=
  m <- get ;;
  match sm_cache m with
  | Some c => ret c
  | None =>
      let c := merge_sort byNonce (go_range t (sm_items m)).*2 in
      modify (fun m => m <| sm_cache := Some c |>) ;; ret c
  end.

(** ** [txList] *)

Record txList := mkTxList {
  tl_strict : bool;
  tl_txs : txSortedMap;
  tl_costcap : Z;
  tl_gascap : Z;
}.
#[export] Instance txList_eta : Eta txList := fun r =>
  mkTxList (tl_strict r) (tl_txs r) (tl_costcap r) (tl_gascap r).

Definition newTxList (strict : bool) : txList := mkTxList strict newTxSortedMap 0 0.

Local Abbreviation ML := (M txList).

Definition inTxs {A} (m : MS A) : ML A := fun l =>
  let '(r, s) := m (tl_txs l) in (r, l <| tl_txs := s |>).

Definition tl_Overlaps (tx : Transaction) : ML bool :=
  o <- inTxs (sm_Get (tx_AccountNonce tx)) ;; ret (bool_decide (is_Some o)).

(** The price a replacement must exceed. *)
Definition bumped (price priceBump : Z) : Z := price * i64 (100 + int64_of_u64 priceBump) / 100.

(** [Add]: whether the transaction was inserted, and the one it replaced. *)
Definition tl_Add (tx : Transaction) (priceBump : Z) : ML (bool * option Transaction) :=
  old <- inTxs (sm_Get (tx_AccountNonce tx)) ;;
  if match old with Some o => tx_Price tx <=? bumped (tx_Price o) priceBump | None => false end
  then ret (false, None)
  else
    inTxs (sm_Put tx) ;;
    modify (fun l => l <| tl_costcap ::= fun c => if c <? Cost tx then Cost tx else c |>
                       <| tl_gascap ::= fun c => if c <? tx_GasLimit tx then tx_GasLimit tx else c |>) ;;
    ret (true, old).

Definition tl_Forward (threshold : Z) : ML (list Transaction) := inTxs (sm_Forward threshold).

Definition lowestNonce (txs : list Transaction) : Z :=
  foldl (fun lowest tx => if tx_AccountNonce tx <? lowest then tx_AccountNonce tx else lowest) (two64 - 1) txs.

(** [Filter]: what costs too much, and in strict mode what comes after it. *)
Definition tl_Filter `{GoRange} (t : nat) (costLimit gasLimit : Z) : ML (list Transaction * list Transaction) :=
  l <- get ;;
  if (tl_costcap l <=? costLimit) && (tl_gascap l <=? gasLimit) then ret ([], [])
  else
    modify (fun l => l <| tl_costcap := costLimit |> <| tl_gascap := gasLimit |>) ;;
    removed <- inTxs (sm_Filter t (fun tx => (costLimit <? Cost tx) || (gasLimit <? tx_GasLimit tx))) ;;
    if tl_strict l && negb (bool_decide (removed = [])) then
      let lowest := lowestNonce removed in
      invalids <- inTxs (sm_Filter (t + 2) (fun tx => lowest <? tx_AccountNonce tx)) ;;
      ret (removed, invalids)
    else ret (removed, []).

Definition tl_Cap (threshold : Z) : ML (list Transaction) := inTxs (sm_Cap threshold).

(** [Remove]: whether it was found, and what is not executable without it. *)
Definition tl_Remove `{GoRange} (t : nat) (tx : Transaction) : ML (bool * list Transaction) :=
  let nonce := tx_AccountNonce tx in
  found <- inTxs (sm_Remove nonce) ;;
  if negb found then ret (false, [])
  else
    l <- get ;;
    if tl_strict l then
      invalids <- inTxs (sm_Filter t (fun tx => nonce <? tx_AccountNonce tx)) ;;
      ret (true, invalids)
    else ret (true, []).

Definition tl_Ready (start : Z) : ML (list Transaction) := inTxs (sm_Ready start).
Definition tl_Len : ML Z := inTxs sm_Len.
Definition tl_Empty : ML bool := n <- tl_Len ;; ret (n =? 0).
Definition tl_Flatten `{GoRange} (t : nat) : ML (list Transaction) := inTxs (sm_Flatten t).

(** ** The abstract map and its sorted transactions *)

Section Refinement.

(** Every transaction is stored under its nonce. *)
Definition keyed (items : gmap Z Transaction) : Prop :=
  map_Forall (fun n tx => tx_AccountNonce tx = n) items.

Definition values (items : gmap Z Transaction) : list Transaction := (map_to_list items).*2.

(** The transactions by increasing nonce. *)
Definition flat (items : gmap Z Transaction) : list Transaction := merge_sort byNonce (values items).

Definition nonces (l : list Transaction) : list Z := tx_AccountNonce <$> l.

#[local] Instance byNonce_total : Total byNonce.
Proof. intros a b. unfold byNonce. lia. Qed.
#[local] Instance byNonce_trans : Transitive byNonce.
Proof. intros a b c. unfold byNonce. lia. Qed.

Lemma values_elem items tx : keyed items -> tx ∈ values items <-> items !! tx_AccountNonce tx = Some tx.
Proof.
  intros Hk. unfold values. rewrite list_elem_of_fmap. split.
  - intros ([n tx']&->&H%elem_of_map_to_list). cbn. by rewrite (Hk _ _ H).
  - intros H. exists (tx_AccountNonce tx, tx). split; [done|]. by apply elem_of_map_to_list.
Qed.

Lemma flat_perm items : flat items ≡ₚ values items.
Proof. apply merge_sort_Permutation. Qed.

Lemma flat_sorted items : StronglySorted byNonce (flat items).
Proof. apply StronglySorted_merge_sort; apply _. Qed.

Lemma flat_elem items tx : keyed items -> tx ∈ flat items <-> items !! tx_AccountNonce tx = Some tx.
Proof. intros Hk. rewrite flat_perm. by apply values_elem. Qed.

(** A sorted list of the transactions is [flat]. *)
Lemma flat_unique items l : keyed items -> l ≡ₚ values items -> StronglySorted byNonce l -> l = flat items.
Proof.
  intros Hk Hp Hs. apply (StronglySorted_unique_strong byNonce); [|done|apply flat_sorted|by rewrite Hp, flat_perm].
  intros x y Hx Hy Hxy Hyx. rewrite Hp, values_elem in Hx by done. rewrite flat_elem in Hy by done.
  unfold byNonce in *. replace (tx_AccountNonce x) with (tx_AccountNonce y) in Hx by lia. congruence.
Qed.

Lemma keys_nonces items : keyed items -> (map_to_list items).*1 = nonces (values items).
Proof.
  intros Hk. unfold nonces, values. rewrite <- list_fmap_compose. apply list_fmap_ext.
  intros i [n tx] Hi%list_elem_of_lookup_2%elem_of_map_to_list. cbn. symmetry. by apply Hk.
Qed.

Lemma nonces_flat_sorted items : StronglySorted Z.le (nonces (flat items)).
Proof.
  pose proof (flat_sorted items) as H. induction H as [|x l _ IH Hx]; cbn; [constructor|].
  constructor; [done|]. by apply Forall_fmap.
Qed.

Lemma nonces_flat_NoDup items : keyed items -> NoDup (nonces (flat items)).
Proof.
  intros Hk. unfold nonces. rewrite flat_perm. fold (nonces (values items)). rewrite <- keys_nonces by done.
  apply NoDup_fst_map_to_list.
Qed.

Lemma length_flat items : length (flat items) = size items.
Proof. rewrite (Permutation_length (flat_perm items)). unfold values. by rewrite length_fmap, length_map_to_list. Qed.

Lemma keyed_filter (P : Z * Transaction -> Prop) `{!forall e, Decision (P e)} items :
  keyed items -> keyed (base.filter P items).
Proof. intros Hk n tx [Hn _]%map_lookup_filter_Some. by apply Hk. Qed.

Lemma keyed_delete n items : keyed items -> keyed (delete n items).
Proof. intros Hk n' tx [_ H]%lookup_delete_Some. by apply Hk. Qed.

Lemma keyed_insert tx items : keyed items -> keyed (<[tx_AccountNonce tx := tx]> items).
Proof. intros Hk n tx' [[<- <-]|[_ H]]%lookup_insert_Some; [done|by apply Hk]. Qed.

(** The transactions below and from a nonce on. *)
Definition below (th : Z) (items : gmap Z Transaction) := base.filter (fun e => e.1 < th) items.
Definition above (th : Z) (items : gmap Z Transaction) := base.filter (fun e => ~ e.1 < th) items.

Lemma values_split (P : Z * Transaction -> Prop) `{!forall e, Decision (P e)} items :
  values items ≡ₚ values (base.filter P items) ++ values (base.filter (fun e => ~ P e) items).
Proof.
  unfold values. rewrite <- fmap_app. apply fmap_Permutation, NoDup_Permutation.
  - apply NoDup_map_to_list.
  - apply NoDup_app. split; [apply NoDup_map_to_list|]. split; [|apply NoDup_map_to_list].
    intros [n tx]. rewrite !elem_of_map_to_list, !map_lookup_filter_Some. tauto.
  - intros [n tx]. rewrite elem_of_app, !elem_of_map_to_list, !map_lookup_filter_Some.
    destruct (decide (P (n, tx))); tauto.
Qed.

Lemma flat_split th items : keyed items -> flat items = flat (below th items) ++ flat (above th items).
Proof.
  intros Hk. symmetry. apply flat_unique; [done| |].
  - rewrite !flat_perm. symmetry. apply values_split.
  - apply StronglySorted_app. split; [|split; apply flat_sorted]. intros x y Hx Hy.
    rewrite flat_elem in Hx, Hy by (by apply keyed_filter).
    apply map_lookup_filter_Some in Hx as [_ Hx], Hy as [_ Hy]. cbn in *. unfold byNonce. lia.
Qed.

(** The least nonce comes first. *)
Lemma flat_least items n tx : keyed items -> items !! n = Some tx ->
  (forall n', is_Some (items !! n') -> n <= n') -> flat items = tx :: flat (delete n items).
Proof.
  intros Hk Hn Hl. symmetry. apply flat_unique; [done| |].
  - rewrite flat_perm. unfold values. by rewrite <- (map_to_list_delete items n tx).
  - constructor; [apply flat_sorted|]. apply Forall_forall. intros y Hy.
    rewrite flat_elem in Hy by (by apply keyed_delete). apply lookup_delete_Some in Hy as [_ Hy].
    unfold byNonce. rewrite (Hk _ _ Hn). apply Hl. by rewrite Hy.
Qed.

(** ** Well-formedness *)

(** The map and its index agree. *)
Record sm_core (m : txSortedMap) : Prop := {
  core_keyed : keyed (sm_items m);
  core_heap : heap nonceLess (sm_index m);
  core_index : sm_index m ≡ₚ nonces (values (sm_items m));
}.

(** The cache, if there is one, is up to date. *)
Record sm_wf (m : txSortedMap) : Prop := {
  wf_core :> sm_core m;
  wf_cache : forall c, sm_cache m = Some c -> c = flat (sm_items m);
}.

Lemma nonceLess_trans x y z : nonceLess y x = false -> nonceLess z y = false -> nonceLess z x = false.
Proof. unfold nonceLess. rewrite !Z.ltb_ge. lia. Qed.
Lemma nonceLess_asym x y : nonceLess x y = true -> nonceLess y x = false.
Proof. unfold nonceLess. rewrite Z.ltb_lt, Z.ltb_ge. lia. Qed.

Lemma index_elem m n : sm_core m -> n ∈ sm_index m <-> is_Some (sm_items m !! n).
Proof.
  intros [Hk _ Hi]. rewrite Hi. unfold nonces. rewrite list_elem_of_fmap. split.
  - intros (tx&->&H). rewrite values_elem in H by done. by rewrite H.
  - intros [tx H]. exists tx. rewrite values_elem by done. rewrite (Hk _ _ H). by split.
Qed.

Lemma index_sorted m : sm_core m -> merge_sort Z.le (sm_index m) = nonces (flat (sm_items m)).
Proof.
  intros [Hk _ Hi]. apply (StronglySorted_unique Z.le).
  - apply StronglySorted_merge_sort; apply _.
  - apply nonces_flat_sorted.
  - rewrite merge_sort_Permutation, Hi. unfold nonces. by rewrite flat_perm.
Qed.

Lemma index_length m : sm_core m -> length (sm_index m) = size (sm_items m).
Proof.
  intros [_ _ Hi]. rewrite (Permutation_length Hi). unfold nonces, values.
  by rewrite !length_fmap, length_map_to_list.
Qed.

(** The root of the index is the least nonce. *)
Lemma index_root m n0 h : sm_core m -> sm_index m = n0 :: h ->
  exists tx, sm_items m !! n0 = Some tx /\ forall n', is_Some (sm_items m !! n') -> n0 <= n'.
Proof.
  intros Hc E. destruct (proj1 (index_elem m n0 Hc)) as [tx Htx]; [rewrite E; by left|].
  exists tx. split; [done|]. intros n' Hn'. apply (index_elem m n' Hc) in Hn'.
  assert (le nonceLess n0 n') as Hle.
  { apply (heap_root _ nonceLess_trans nonceLess_asym (sm_index m)); [apply Hc|by rewrite E|done]. }
  unfold le, nonceLess in Hle. by apply Z.ltb_ge in Hle.
Qed.

(** ** The operations *)

Lemma new_wf : sm_wf newTxSortedMap.
Proof. split; [split; [done|apply heap_nil|done]|done]. Qed.

Lemma core_with_items items idx c :
  keyed items -> heap nonceLess idx -> idx ≡ₚ nonces (values items) -> sm_core (mkSortedMap items idx c).
Proof. by split. Qed.

Lemma sm_Put_spec tx m : sm_wf m ->
  exists m', sm_Put tx m = (Ret tt, m') /\ sm_wf m' /\
    sm_items m' = <[tx_AccountNonce tx := tx]> (sm_items m).
Proof.
  destruct m as [items idx c]. intros [[Hk Hh Hi] _]. cbn in *. unfold sm_Put, modify. cbn.
  set (n := tx_AccountNonce tx).
  destruct (items !! n) as [old|] eqn:E; (eexists; split; [done|]); cbn.
  - split; [|done]. split; [|done]. split; cbn; [by apply keyed_insert|done|].
    rewrite Hi, <- !keys_nonces by (done || by apply keyed_insert).
    rewrite <- (insert_delete_eq items n tx), map_to_list_insert by apply lookup_delete_eq.
    rewrite <- (map_to_list_delete _ _ _ E). done.
  - split; [|done]. split; [|done]. split; cbn; [by apply keyed_insert|by apply (Push_heap _ nonceLess_trans nonceLess_asym)|].
    rewrite Push_perm, Hi, <- !keys_nonces by (done || by apply keyed_insert).
    by rewrite map_to_list_insert.
Qed.

(** Popping the least nonce and taking its transaction. *)
Lemma pop_least m n0 h tx : sm_core m -> sm_index m = n0 :: h -> sm_items m !! n0 = Some tx ->
  exists h', heap_Pop nonceLess (sm_index m) = Some (n0, h') /\
    sm_core (mkSortedMap (delete n0 (sm_items m)) h' (sm_cache m)) /\ length (sm_index m) = S (length h').
Proof.
  intros [Hk Hh Hi] E Htx. destruct (Pop_spec nonceLess nonceLess_trans nonceLess_asym (sm_index m) n0 Hh)
    as (h'&EP&Hp&Hh'); [by rewrite E|]. exists h'. split; [done|]. split; [|by rewrite (Permutation_length Hp)].
  apply core_with_items; [by apply keyed_delete|done|]. apply (Permutation_cons_inv (a := n0)). rewrite <- Hp, Hi.
  rewrite <- !keys_nonces by (done || by apply keyed_delete). by rewrite <- (map_to_list_delete _ _ _ Htx).
Qed.

Lemma pop_eq m n h : heap_Pop nonceLess (sm_index m) = Some (n, h) ->
  sm_pop m = (Ret n, m <| sm_index := h |>).
Proof. unfold sm_pop, bind, get. by intros ->. Qed.

Lemma take_eq m n tx : sm_items m !! n = Some tx ->
  sm_take n m = (Ret [tx], m <| sm_items ::= delete n |>).
Proof. unfold sm_take, bind, get. by intros ->. Qed.

Lemma above_all th items : (forall n, is_Some (items !! n) -> th <= n) -> below th items = ∅ /\ above th items = items.
Proof.
  intros H. split; apply map_eq; intros n; apply option_eq; intros tx.
  - rewrite lookup_empty. unfold below. rewrite map_lookup_filter_Some. split; [|done].
    intros [Hn Hlt]. assert (th <= n) by (apply H; eauto). cbn in Hlt. lia.
  - unfold above. rewrite map_lookup_filter_Some. split; [by intros [? _]|]. intros Hn. split; [done|].
    assert (th <= n) by (apply H; eauto). cbn. lia.
Qed.

Lemma forwardLoop_spec fuel th m : sm_core m -> (length (sm_index m) <= fuel)%nat ->
  exists m', forwardLoop fuel th m = (Ret (flat (below th (sm_items m))), m') /\ sm_core m' /\
    sm_items m' = above th (sm_items m) /\ sm_cache m' = sm_cache m.
Proof.
  revert m. induction fuel as [|fuel IH]; intros m Hc Hf.
  - destruct (sm_index m) as [|] eqn:E; [|cbn in Hf; lia]. destruct (above_all th (sm_items m)) as [-> Ha].
    { intros n Hn. apply (index_elem m n Hc) in Hn. rewrite E in Hn. by apply elem_of_nil in Hn. }
    exists m. cbn. by rewrite Ha.
  - cbn [forwardLoop]. unfold get, bind at 1. destruct (sm_index m) as [|n0 h] eqn:E.
    { destruct (above_all th (sm_items m)) as [-> Ha].
      { intros n Hn. apply (index_elem m n Hc) in Hn. rewrite E in Hn. by apply elem_of_nil in Hn. }
      exists m. by rewrite Ha. }
    destruct (index_root m n0 h Hc E) as (tx&Htx&Hl). destruct (Z.ltb_spec n0 th) as [Hlt|Hge].
    + destruct (pop_least m n0 h tx Hc E Htx) as (h'&EP&Hc'&Hlen). rewrite E in Hlen. cbn in Hlen, Hf.
      destruct (IH _ Hc' ltac:(cbn; lia)) as (m'&EL&Hm'&Hi'&Hca').
      exists m'. split; [|split; [done|]].
      * rewrite (bind_eq _ _ _ _ _ (pop_eq m n0 h' EP)). cbv beta. erewrite bind_eq by (apply take_eq; exact Htx).
        cbv beta. erewrite bind_eq by exact EL. cbn. do 2 f_equal.
        rewrite (flat_least (below th (sm_items m)) n0 tx).
        -- unfold below. by rewrite map_filter_delete.
        -- by apply keyed_filter, Hc.
        -- by apply map_lookup_filter_Some.
        -- intros n' [tx' [Hn' _]%map_lookup_filter_Some]. apply Hl. by rewrite Hn'.
      * rewrite Hi', Hca'. split; [|done]. cbn. unfold above. rewrite map_filter_delete_not; [done|].
        intros tx' _. cbn. lia.
    + destruct (above_all th (sm_items m)) as [-> Ha]; [intros n Hn; specialize (Hl n Hn); lia|].
      exists m. by rewrite Ha.
Qed.

(** [Forward] removes what is below the threshold, by increasing nonce. *)
Lemma sm_Forward_spec th m : sm_wf m ->
  exists m', sm_Forward th m = (Ret (flat (below th (sm_items m))), m') /\ sm_wf m' /\
    sm_items m' = above th (sm_items m).
Proof.
  intros [Hc Hca]. destruct (forwardLoop_spec (length (sm_index m)) th m Hc ltac:(done)) as (m1&E&Hc1&Hi1&Hca1).
  eexists. split; [|split].
  - unfold sm_Forward, bind at 1, get. unfold bind at 1. rewrite E. done.
  - split; [by destruct Hc1|]. cbn. rewrite Hca1. intros c (c0&E0&->)%fmap_Some.
    rewrite (Hca c0 E0), (flat_split th (sm_items m)) by apply Hc. rewrite Hi1. by rewrite drop_app_length.
  - exact Hi1.
Qed.

(** The map without the transactions a test picks. *)
Definition without (f : Transaction -> bool) (items : gmap Z Transaction) :=
  base.filter (fun e => f e.2 = false) items.

Lemma range_values `{GoRange} t items : (go_range t items).*2 ≡ₚ values items.
Proof. unfold values. by rewrite go_range_perm. Qed.

Lemma core_rebuilt `{GoRange} t items c : keyed items ->
  sm_core (mkSortedMap items (heap_Init nonceLess (go_range t items).*1) c).
Proof.
  intros Hk. apply core_with_items; [done|apply (Init_heap _ nonceLess_trans nonceLess_asym)|].
  by rewrite Init_perm, go_range_perm, keys_nonces.
Qed.

Lemma filtered_none `{GoRange} t (f : Transaction -> bool) items :
  List.filter (fun e => f e.2) (go_range t items) = [] -> without f items = items.
Proof.
  intros E. apply map_eq. intros n. apply option_eq. intros tx. unfold without.
  rewrite map_lookup_filter_Some. split; [by intros []|]. intros Hn. split; [done|]. cbn.
  apply not_true_iff_false. intros Hf. assert ((n, tx) ∈ List.filter (fun e => f e.2) (go_range t items)) as Hin.
  { apply list_elem_of_In, filter_In. split; [|done]. apply list_elem_of_In. by apply go_range_elem. }
  rewrite E in Hin. by apply elem_of_nil in Hin.
Qed.

(** [Filter] removes what the test picks, in an arbitrary order. *)
Lemma sm_Filter_spec `{GoRange} t f m : sm_wf m ->
  exists removed m', sm_Filter t f m = (Ret removed, m') /\ sm_wf m' /\
    removed ≡ₚ List.filter f (values (sm_items m)) /\ sm_items m' = without f (sm_items m) /\
    (removed = [] -> m' = m).
Proof.
  destruct m as [items idx c]. intros [[Hk Hh Hi] Hca]. cbn [sm_items] in *.
  set (r := List.filter (fun e => f e.2) (go_range t items)).
  assert (r.*2 ≡ₚ List.filter f (values items)) as Hr.
  { rewrite <- range_values with (t := t). unfold r. generalize (go_range t items) as l.
    induction l as [|[n tx] l IH]; cbn; [done|]. destruct (f tx); cbn; by rewrite IH. }
  assert (sm_Filter t f (mkSortedMap items idx c) =
    (when (negb (bool_decide (r = [])))
      (modify (fun m => m <| sm_index := heap_Init nonceLess (go_range (S t) (without f items)).*1 |> <| sm_cache := None |>)) ;;
     ret r.*2) (mkSortedMap (without f items) idx c)) as -> by reflexivity.
  destruct (decide (r = [])) as [E|E].
  - rewrite bool_decide_true by done. cbn. rewrite E in *. pose proof (filtered_none t f items E) as Hw.
    rewrite Hw. eexists _, _. split; [done|]. by split_and!; [split|..].
  - rewrite bool_decide_false by done. cbn. eexists _, _. split; [done|]. split_and!; [|done|done|].
    + split; [|done]. apply core_rebuilt. by apply keyed_filter.
    + intros E'. destruct r; [done|discriminate].
Qed.

(** Taking out the transactions at a list of nonces. *)
Lemma collect_take ns txs m : Forall2 (fun n tx => sm_items m !! n = Some tx) ns txs -> NoDup ns ->
  collect ns sm_take m = (Ret txs, m <| sm_items ::= base.filter (fun e => e.1 ∉ ns) |>).
Proof.
  revert txs m. induction ns as [|n ns IH]; intros txs m H Hnd.
  - apply Forall2_nil_inv_l in H as ->. destruct m as [items idx c]. cbn. unfold ret. f_equal.
    change (mkSortedMap items idx c = mkSortedMap (base.filter (fun e => e.1 ∉ []) items) idx c). f_equal.
    symmetry. apply map_filter_id. intros. apply not_elem_of_nil.
  - apply Forall2_cons_inv_l in H as (tx&txs'&Hn&Hf&->). apply NoDup_cons in Hnd as [Hnin Hnd].
    set (m1 := m <| sm_items ::= delete n |>).
    assert (Forall2 (fun n tx => sm_items m1 !! n = Some tx) ns txs') as Hf'.
    { apply Forall2_same_length_lookup_2; [exact (Forall2_length _ _ _ Hf)|]. intros i x y Hx Hy.
      change (delete n (sm_items m) !! x = Some y). rewrite lookup_delete_ne.
      - exact (Forall2_lookup_lr _ _ _ i _ _ Hf Hx Hy).
      - intros <-. apply Hnin. by eapply list_elem_of_lookup_2. }
    cbn [collect]. erewrite bind_eq by (apply take_eq; exact Hn). cbv beta.
    erewrite bind_eq by (exact (IH txs' m1 Hf' Hnd)). unfold ret. f_equal.
    destruct m as [items idx c]. unfold m1.
    change (mkSortedMap (base.filter (fun e => e.1 ∉ ns) (delete n items)) idx c
            = mkSortedMap (base.filter (fun e => e.1 ∉ n :: ns) items) idx c). f_equal. apply map_eq. intros n'. apply option_eq. intros tx'.
    rewrite !map_lookup_filter_Some, lookup_delete_Some. cbn. rewrite not_elem_of_cons.
    split; [intros [[? ?] ?]|intros [? [? ?]]]; auto.
Qed.

Lemma collect_index (idx : list Z) ks ns m :
  Forall2 (fun k n => idx !! k = Some n) ks ns ->
  collect ks (fun k => match idx !! k with Some nonce => sm_take nonce | None => panic end) m
  = collect ns sm_take m.
Proof.
  intros H. revert m. induction H as [|k n ks ns Hk _ IH]; intros m; [done|]. cbn [collect]. rewrite Hk.
  unfold bind. destruct (sm_take n m) as [[r| |] m1]; [|done|done]. by rewrite IH.
Qed.

Lemma reverse_seq_lookup (idx : list Z) th :
  Forall2 (fun k n => idx !! k = Some n) (reverse (seq th (length idx - th))) (reverse (drop th idx)).
Proof.
  apply Forall2_reverse, Forall2_same_length_lookup_2.
  - by rewrite length_seq, length_drop.
  - intros i k n [-> _]%lookup_seq Hn. by rewrite lookup_drop in Hn.
Qed.

(** [Cap] drops the highest nonces, the highest first. *)
Lemma sm_Cap_spec th m : sm_wf m -> 0 <= th ->
  exists m', sm_Cap th m = (Ret (reverse (drop (Z.to_nat th) (flat (sm_items m)))), m') /\ sm_wf m' /\
    flat (sm_items m') = take (Z.to_nat th) (flat (sm_items m)) /\ sm_items m' ⊆ sm_items m.
Proof.
  intros [Hc Hca] Hth. pose proof (core_keyed _ Hc) as Hk. unfold sm_Cap. rewrite bind_get.
  pose proof (length_flat (sm_items m)) as Hlen. destruct (Z.leb_spec (Z.of_nat (size (sm_items m))) th) as [Hle|Hgt].
  { exists m. rewrite drop_ge, take_ge by lia. by split_and!. }
  rewrite (proj2 (Z.ltb_ge _ _)) by lia. cbv zeta. rewrite index_sorted by done. set (n := Z.to_nat th) in *.
  set (fl := flat (sm_items m)) in *. set (ns := reverse (drop n (nonces fl))).
  assert (NoDup (nonces fl)) as Hnd by (by apply nonces_flat_NoDup).
  assert (Forall2 (fun k tx => sm_items m !! k = Some tx) ns (reverse (drop n fl))) as Hf.
  { unfold ns, nonces. rewrite <- fmap_drop, <- fmap_reverse. apply Forall2_fmap_l, Forall_Forall2_diag.
    apply Forall_forall. intros tx Htx%elem_of_reverse%subseteq_drop. by apply flat_elem in Htx; [|done]. }
  erewrite bind_eq.
  2:{ replace (size (sm_items m)) with (length (nonces fl)) by (unfold nonces; rewrite length_fmap; lia).
      rewrite (collect_index _ _ _ m (reverse_seq_lookup (nonces fl) n)). apply collect_take; [exact Hf|].
      unfold ns. rewrite reverse_Permutation. rewrite <- (take_drop n (nonces fl)) in Hnd. by apply NoDup_app in Hnd as (?&_&?). }
  eexists. split; [done|].
  set (items' := base.filter (fun e => e.1 ∉ ns) (sm_items m)).
  assert (keyed items') as Hk' by (by apply keyed_filter).
  assert (take n fl ≡ₚ values items') as Hp.
  { apply NoDup_Permutation.
    - apply (NoDup_fmap_1 tx_AccountNonce). rewrite fmap_take. fold (nonces fl).
      rewrite <- (take_drop n (nonces fl)) in Hnd. by apply NoDup_app in Hnd as (?&_&?).
    - apply (NoDup_fmap_1 tx_AccountNonce). fold (nonces (values items')). rewrite <- keys_nonces by done.
      apply NoDup_fst_map_to_list.
    - intros tx. rewrite values_elem by done. unfold items'. rewrite map_lookup_filter_Some. cbn.
      unfold ns. rewrite elem_of_reverse. rewrite <- (take_drop n (nonces fl)) in Hnd.
      apply NoDup_app in Hnd as (_&Hd&_). split.
      + intros Htx. split.
        * apply flat_elem; [done|]. by apply subseteq_take in Htx.
        * apply Hd. unfold nonces. rewrite <- fmap_take. by apply list_elem_of_fmap_2.
      + intros [Hi Hn]. apply flat_elem in Hi; [|done]. fold fl in Hi. rewrite <- (take_drop n fl) in Hi.
        apply elem_of_app in Hi as [Hi|Hi]; [done|]. destruct Hn. unfold nonces. rewrite <- fmap_drop.
        by apply list_elem_of_fmap_2. }
  assert (take n fl = flat items') as Ef.
  { apply flat_unique; [done|done|]. pose proof (flat_sorted (sm_items m)) as Hs. fold fl in Hs.
    rewrite <- (take_drop n fl) in Hs. by apply StronglySorted_app in Hs as (_&?&_). }
  split_and!.
  - split; [split|].
    + exact Hk'.
    + apply (Init_heap _ nonceLess_trans nonceLess_asym).
    + cbn. rewrite Init_perm. unfold nonces. rewrite <- fmap_take. by rewrite Hp.
    + cbn. intros c (c0&E0&->)%fmap_Some. rewrite (Hca c0 E0).
      change (take (length fl - length (reverse (drop n fl))) fl = flat items'). rewrite <- Ef.
      rewrite length_reverse, length_drop. f_equal. lia.
  - by change (flat items' = take n fl).
  - cbn. apply map_filter_subseteq.
Qed.

(** [Remove] takes out a nonce. *)
Lemma sm_Remove_spec n m : sm_wf m ->
  exists m', sm_Remove n m = (Ret (bool_decide (is_Some (sm_items m !! n))), m') /\ sm_wf m' /\
    sm_items m' = delete n (sm_items m) /\ (sm_items m !! n = None -> m' = m).
Proof.
  intros Hw. pose proof Hw as [Hc _]. unfold sm_Remove. rewrite bind_get.
  destruct (sm_items m !! n) as [tx|] eqn:E.
  2:{ exists m. rewrite delete_id by done. by split_and!. }
  assert (n ∈ sm_index m) as Hn by (apply index_elem; [done|by rewrite E]).
  destruct (list_find_elem_of (fun k => k = n) (sm_index m) n Hn eq_refl) as [[i n'] Hf]. rewrite Hf.
  apply list_find_Some in Hf as (Hi&->&_). pose proof Hc as [Hk Hh Hp].
  destruct (Remove_spec nonceLess nonceLess_trans nonceLess_asym (sm_index m) i n Hh Hi) as (h&ER&Hph&Hhh).
  rewrite ER. eexists. split; [done|]. split_and!; [|done|done]. split; [|done].
  change (sm_core (mkSortedMap (delete n (sm_items m)) h None)).
  apply core_with_items; [by apply keyed_delete|done|]. apply (Permutation_cons_inv (a := n)).
  rewrite <- Hph, Hp, <- !keys_nonces by (done || by apply keyed_delete).
  by rewrite <- (map_to_list_delete _ _ _ E).
Qed.

(** [Flatten] is the sorted list. *)
Lemma sm_Flatten_spec `{GoRange} t m : sm_wf m ->
  exists m', sm_Flatten t m = (Ret (flat (sm_items m)), m') /\ sm_wf m' /\ sm_items m' = sm_items m.
Proof.
  intros [Hc Hca]. unfold sm_Flatten. rewrite bind_get. destruct (sm_cache m) as [c|] eqn:E.
  { exists m. rewrite (Hca c) by done. split_and!; [done| |done]. split; [done|]. by rewrite E. }
  assert (merge_sort byNonce (go_range t (sm_items m)).*2 = flat (sm_items m)) as ->.
  { apply flat_unique; [apply Hc|by rewrite merge_sort_Permutation, range_values|].
    apply StronglySorted_merge_sort; apply _. }
  eexists. split; [done|]. split; [|done]. split; [|by intros c [= <-]]. by destruct Hc.
Qed.

(** A run of transactions starts at [next] and has consecutive nonces. *)
Definition run (next : Z) (l : list Transaction) : Prop := nonces l = seqZ next (Z.of_nat (length l)).

(** What [Ready] leaves behind. *)
Record ready_rest (next : Z) (rs : list Transaction) (items items' : gmap Z Transaction) : Prop := {
  rest_run : run next rs;
  rest_ready : rs = flat (below (next + Z.of_nat (length rs)) items);
  rest_items : items' = above (next + Z.of_nat (length rs)) items;
  rest_gap : items !! (next + Z.of_nat (length rs)) = None;
}.

Lemma run_cons tx l : run (tx_AccountNonce tx + 1) l -> run (tx_AccountNonce tx) (tx :: l).
Proof.
  unfold run, nonces. cbn [length]. intros H. rewrite fmap_cons, H, Nat2Z.inj_succ, (seqZ_cons (tx_AccountNonce tx)) by lia.
  do 2 f_equal; lia.
Qed.

(** One more transaction in front of a run. *)
Lemma rest_cons tx rs items items' : keyed items -> items !! tx_AccountNonce tx = Some tx ->
  (forall n', is_Some (items !! n') -> tx_AccountNonce tx <= n') ->
  ready_rest (tx_AccountNonce tx + 1) rs (delete (tx_AccountNonce tx) items) items' ->
  ready_rest (tx_AccountNonce tx) (tx :: rs) items items'.
Proof.
  set (n := tx_AccountNonce tx). intros Hk Hn Hl [H1 H2 H3 H4].
  assert (n + Z.of_nat (length (tx :: rs)) = n + 1 + Z.of_nat (length rs)) as E by (cbn [length]; lia).
  split; rewrite ?E; [by apply run_cons| | |].
  - rewrite (flat_least _ n tx).
    + f_equal. rewrite H2 at 1. unfold below. by rewrite map_filter_delete.
    + by apply keyed_filter.
    + apply map_lookup_filter_Some. split; [done|]. cbn. lia.
    + intros n' [tx' [Hn' _]%map_lookup_filter_Some]. apply Hl. by rewrite Hn'.
  - rewrite H3. unfold above. apply map_filter_delete_not. intros ? ?. cbn. lia.
  - rewrite lookup_delete_ne in H4 by lia. done.
Qed.

Lemma rest_nil next items : (forall n', is_Some (items !! n') -> next < n') -> ready_rest next [] items items.
Proof.
  intros Hl. destruct (above_all next items) as [Hb Ha]; [intros n' Hn'; specialize (Hl n' Hn'); lia|].
  split; rewrite ?Z.add_0_r; [done|by rewrite Hb|done|]. apply eq_None_not_Some. intros Hn. specialize (Hl _ Hn). lia.
Qed.

Lemma readyLoop_spec fuel next m : 0 <= next -> sm_core m -> (length (sm_index m) <= fuel)%nat ->
  (forall n', is_Some (sm_items m !! n') -> next <= n' < two64) ->
  exists rs m', readyLoop fuel next m = (Ret rs, m') /\ sm_core m' /\
    ready_rest next rs (sm_items m) (sm_items m').
Proof.
  revert next m. induction fuel as [|fuel IH]; intros next m H0 Hc Hf Hl.
  { exists [], m. split_and!; [done|done|]. apply rest_nil. intros n' Hn'%(index_elem m n' Hc).
    destruct (sm_index m); [by apply elem_of_nil in Hn'|cbn in Hf; lia]. }
  cbn [readyLoop]. rewrite bind_get. destruct (sm_index m) as [|n0 h] eqn:E.
  { exists [], m. split_and!; [done|done|]. apply rest_nil. intros n' Hn'%(index_elem m n' Hc).
    rewrite E in Hn'. by apply elem_of_nil in Hn'. }
  destruct (index_root m n0 h Hc E) as (tx&Htx&Hmin). destruct (Z.eqb_spec n0 next) as [->|Hne].
  2:{ exists [], m. split_and!; [done|done|]. apply rest_nil. intros n' Hn'. pose proof (Hl n' Hn').
      specialize (Hmin n' Hn'). destruct (Hl n0); [by eexists|]. lia. }
  pose proof (core_keyed _ Hc _ _ Htx) as En. destruct (pop_least m next h tx Hc E Htx) as (h'&EP&Hc'&Hlen).
  set (m1 := mkSortedMap (delete next (sm_items m)) h' (sm_cache m)) in *.
  assert (forall n', is_Some (sm_items m1 !! n') -> next + 1 <= n' < two64) as Hl1.
  { intros n' [tx' Hn']. cbn in Hn'. apply lookup_delete_Some in Hn' as [Hd Hn']. destruct (Hl n'); [by eexists|]. lia. }
  rewrite E in Hlen. cbn in Hlen, Hf.
  assert (exists rs m', readyLoop fuel (u64 (next + 1)) m1 = (Ret rs, m') /\ sm_core m' /\
    ready_rest (next + 1) rs (sm_items m1) (sm_items m')) as (rs&m'&EL&Hm'&Hr).
  { destruct (decide (next + 1 < two64)) as [Hlt|Hge].
    - rewrite u64_small by (unfold is_u64; lia). apply IH; [lia|done|cbn; lia|done].
    - assert (sm_index m1 = []) as E1.
      { destruct (sm_index m1) as [|n' ?] eqn:E1; [done|]. destruct (Hl1 n'); [|lia].
        apply index_elem; [done|]. rewrite E1. by left. }
      exists [], m1. split_and!; [|done|apply rest_nil; intros n' Hn'; specialize (Hl1 _ Hn'); lia].
      destruct fuel; cbn [readyLoop]; rewrite bind_get; [done|by rewrite E1]. }
  exists (tx :: rs), m'. split_and!; [|done|].
  - erewrite bind_eq by (apply take_eq; exact Htx). cbv beta.
    erewrite bind_eq by (apply pop_eq; exact EP). cbv beta.
    erewrite bind_eq by exact EL. done.
  - change (sm_items m1) with (delete next (sm_items m)) in Hr. clear - Hc En Htx Hmin Hr. rewrite <- En in Htx, Hmin, Hr |- *. by apply rest_cons; [apply Hc|..].
Qed.

(** [Ready] takes the run of consecutive nonces that starts at the least nonce,
    if that is not after [start]. *)
Lemma sm_Ready_spec start m : sm_wf m -> (forall n, is_Some (sm_items m !! n) -> is_u64 n) ->
  exists rs m', sm_Ready start m = (Ret rs, m') /\ sm_wf m' /\
    ((rs = [] /\ m' = m /\ forall n, is_Some (sm_items m !! n) -> start < n) \/
     exists first, first <= start /\ is_Some (sm_items m !! first) /\
       (forall n, is_Some (sm_items m !! n) -> first <= n) /\
       ready_rest first rs (sm_items m) (sm_items m')).
Proof.
  intros Hw Hu. pose proof Hw as [Hc _]. unfold sm_Ready. rewrite bind_get.
  destruct (sm_index m) as [|n0 h] eqn:E.
  { exists [], m. split_and!; [done|done|]. left. split_and!; [done|done|]. intros n' Hn'%(index_elem m n' Hc).
    rewrite E in Hn'. by apply elem_of_nil in Hn'. }
  destruct (index_root m n0 h Hc E) as (tx&Htx&Hmin). destruct (Z.ltb_spec start n0) as [Hlt|Hge].
  { exists [], m. split_and!; [done|done|]. left. split_and!; [done|done|]. intros n Hn. specialize (Hmin n Hn). lia. }
  destruct (readyLoop_spec (length (sm_index m)) n0 m) as (rs&m1&EL&Hc1&Hr); [by apply Hu; rewrite Htx|done|done| |].
  { intros n Hn. specialize (Hmin n Hn). specialize (Hu n Hn). unfold is_u64 in Hu. lia. }
  rewrite E in EL. exists rs, (m1 <| sm_cache := None |>). split_and!.
  - by erewrite bind_eq by exact EL.
  - split; [|done]. by destruct Hc1.
  - right. exists n0. split_and!; [done|by rewrite Htx|done|exact Hr].
Qed.
End Refinement.
