(* ===== verification/TxListSpec.v ===== *)
(** * TxListSpec: what the list of an account promises

    The abstract list is the finite map from nonces to transactions.  [spec]
    states for every operation of [txList] ([core/tx_list.go]) the value it may
    return and the map it leaves, and the theorems show that the list with its
    heap, cache and cost caps implements it in every sequence of operations. *)
From S2P Require Import Prelude.
From S2P Require Import Messages.
From S2P Require Import Tx.
From S2P Require Import GoHeap.
From S2P Require Import TxList.

Local Abbreviation ML := (M txList).

Definition tl_items (l : txList) : gmap Z Transaction := sm_items (tl_txs l).

(** The caps bound every transaction, so that [Filter] may stop early. *)
Record tl_wf (l : txList) : Prop := {
  tl_sm : sm_wf (tl_txs l);
  tl_caps : map_Forall (fun _ tx => Cost tx <= tl_costcap l /\ tx_GasLimit tx <= tl_gascap l) (tl_items l);
  tl_u64 : map_Forall (fun n _ => is_u64 n) (tl_items l);
}.

(** A transaction above the limits of [Filter]. *)
Definition costly (costLimit gasLimit : Z) (tx : Transaction) : bool :=
  (costLimit <? Cost tx) || (gasLimit <? tx_GasLimit tx).

(** No costly transaction comes before nonce [n]. *)
Definition before_costly (costLimit gasLimit : Z) (items : gmap Z Transaction) (n : Z) : Prop :=
  map_Forall (fun n' tx' => costly costLimit gasLimit tx' = true -> n < n') items.

(** ** The operations and what they promise *)

Inductive op :=
  | OAdd (tx : Transaction) (priceBump : Z)
  | OForward (threshold : Z)
  | OFilter (costLimit gasLimit : Z)
  | OCap (threshold : Z)
  | ORemove (tx : Transaction)
  | OReady (start : Z)
  | OFlatten.

(** What an operation returns: the flag, the transactions and the invalidated
    ones, where it returns them. *)
Record answer := mkAnswer { ok : bool; txs : list Transaction; invalids : list Transaction }.

Definition run_op `{GoRange} (t : nat) (o : op) : ML answer :=
  match o with
  | OAdd tx b => r <- tl_Add tx b ;; ret (mkAnswer r.1 (option_list r.2) [])
  | OForward th => r <- tl_Forward th ;; ret (mkAnswer true r [])
  | OFilter c g => r <- tl_Filter t c g ;; ret (mkAnswer true r.1 r.2)
  | OCap th => r <- tl_Cap th ;; ret (mkAnswer true r [])
  | ORemove tx => r <- tl_Remove t tx ;; ret (mkAnswer r.1 [] r.2)
  | OReady start => r <- tl_Ready start ;; ret (mkAnswer true r [])
  | OFlatten => r <- tl_Flatten t ;; ret (mkAnswer true r [])
  end.

(** [rest] is what [items] holds besides [gone]. *)
Definition splits (items rest : gmap Z Transaction) (gone : list Transaction) : Prop :=
  values items ≡ₚ gone ++ values rest /\ rest ⊆ items.

Inductive spec (strict : bool) (items : gmap Z Transaction) : op -> answer -> gmap Z Transaction -> Prop :=
  | spec_Add_cheap tx b old :
      items !! tx_AccountNonce tx = Some old -> tx_Price tx <= bumped (tx_Price old) b ->
      spec strict items (OAdd tx b) (mkAnswer false [] []) items
  | spec_Add tx b :
      (forall old, items !! tx_AccountNonce tx = Some old -> bumped (tx_Price old) b < tx_Price tx) ->
      spec strict items (OAdd tx b) (mkAnswer true (option_list (items !! tx_AccountNonce tx)) [])
        (<[tx_AccountNonce tx := tx]> items)
  | spec_Forward th : spec strict items (OForward th) (mkAnswer true (flat (below th items)) []) (above th items)
  | spec_Filter c g removed invalid rest :
      removed ≡ₚ List.filter (costly c g) (values items) ->
      splits items rest (removed ++ invalid) ->
      (forall n tx, rest !! n = Some tx <->
         items !! n = Some tx /\ costly c g tx = false /\ (strict = true -> before_costly c g items n)) ->
      spec strict items (OFilter c g) (mkAnswer true removed invalid) rest
  | spec_Cap th rest : 0 <= th -> flat rest = take (Z.to_nat th) (flat items) -> rest ⊆ items ->
      spec strict items (OCap th) (mkAnswer true (reverse (drop (Z.to_nat th) (flat items))) []) rest
  | spec_Remove_none tx : items !! tx_AccountNonce tx = None ->
      spec strict items (ORemove tx) (mkAnswer false [] []) items
  | spec_Remove tx old invalid rest :
      items !! tx_AccountNonce tx = Some old ->
      splits items rest (old :: invalid) ->
      (forall n tx', rest !! n = Some tx' <->
         items !! n = Some tx' /\ n <> tx_AccountNonce tx /\ (strict = true -> n < tx_AccountNonce tx)) ->
      spec strict items (ORemove tx) (mkAnswer true [] invalid) rest
  | spec_Ready_none start : (forall n, is_Some (items !! n) -> start < n) ->
      spec strict items (OReady start) (mkAnswer true [] []) items
  | spec_Ready start first rs rest :
      first <= start -> is_Some (items !! first) -> (forall n, is_Some (items !! n) -> first <= n) ->
      ready_rest first rs items rest ->
      spec strict items (OReady start) (mkAnswer true rs []) rest
  | spec_Flatten : spec strict items OFlatten (mkAnswer true (flat items) []) items.

(** ** The list implements it *)

Lemma new_tl_wf strict : tl_wf (newTxList strict).
Proof. split; [apply new_wf|apply map_Forall_empty|apply map_Forall_empty]. Qed.

Lemma inTxs_eq {A} (m : M txSortedMap A) l r s : m (tl_txs l) = (r, s) ->
  inTxs m l = (r, l <| tl_txs := s |>).
Proof. unfold inTxs. by intros ->. Qed.

Lemma bind_ret_eq {W A B} (m : M W A) (f : A -> B) a s s' :
  m s = (Ret a, s') -> (r <- m ;; ret (f r)) s = (Ret (f a), s').
Proof. intros H. by rewrite (bind_eq _ _ _ _ _ H). Qed.

(** A list that holds less, under the same caps or higher ones. *)
Lemma tl_wf_sub l l' : tl_wf l -> sm_wf (tl_txs l') -> tl_items l' ⊆ tl_items l ->
  tl_costcap l <= tl_costcap l' -> tl_gascap l <= tl_gascap l' -> tl_wf l'.
Proof.
  intros [Hs Hc Hu] Hs' Hsub H1 H2. split; [done| |].
  - intros n tx Hn. destruct (Hc n tx); [by eapply lookup_weaken|]. lia.
  - intros n tx Hn. apply (Hu n tx). by eapply lookup_weaken.
Qed.

Lemma values_NoDup items : keyed items -> NoDup (values items).
Proof.
  intros Hk. apply (NoDup_fmap_1 tx_AccountNonce). fold (nonces (values items)). rewrite <- keys_nonces by done.
  apply NoDup_fst_map_to_list.
Qed.

Lemma filter_elem {A} (f : A -> bool) l x : x ∈ List.filter f l <-> x ∈ l /\ f x = true.
Proof. rewrite !list_elem_of_In. apply filter_In. Qed.

Lemma without_elem f items tx : keyed items ->
  tx ∈ values (without f items) <-> tx ∈ values items /\ f tx = false.
Proof.
  intros Hk. rewrite !values_elem by (done || by apply keyed_filter). unfold without. by rewrite map_lookup_filter_Some.
Qed.

(** What a filter removes and what it leaves. *)
Lemma without_split (f : Transaction -> bool) items gone : keyed items ->
  gone ≡ₚ List.filter f (values items) -> splits items (without f items) gone.
Proof.
  intros Hk Hg. split; [|apply map_filter_subseteq]. rewrite Hg. apply NoDup_Permutation.
  - by apply values_NoDup.
  - apply NoDup_app. split_and!.
    + apply NoDup_ListNoDup, List.NoDup_filter, NoDup_ListNoDup. by apply values_NoDup.
    + intros tx [_ H]%filter_elem. rewrite without_elem by done. intros [_ H']. congruence.
    + by apply values_NoDup, keyed_filter.
  - intros tx. rewrite elem_of_app, filter_elem, without_elem by done. destruct (f tx); naive_solver.
Qed.

Lemma splits_refl items : splits items items [].
Proof. by split. Qed.

Lemma splits_trans items r1 r2 g1 g2 : splits items r1 g1 -> splits r1 r2 g2 -> splits items r2 (g1 ++ g2).
Proof. intros [H1 S1] [H2 S2]. split; [by rewrite H1, H2, app_assoc|by etrans]. Qed.

Lemma splits_delete items n tx : items !! n = Some tx -> splits items (delete n items) [tx].
Proof. intros Hn. split; [|apply delete_subseteq]. unfold values. by rewrite <- (map_to_list_delete items n tx). Qed.

(** The least nonce of what was removed. *)
Lemma lowestNonce_spec txs n : (forall tx, tx ∈ txs -> is_u64 (tx_AccountNonce tx)) -> txs <> [] ->
  n <= lowestNonce txs <-> forall tx, tx ∈ txs -> n <= tx_AccountNonce tx.
Proof.
  intros Hu Hne.
  assert (forall acc, n <= foldl (fun lowest tx => if tx_AccountNonce tx <? lowest then tx_AccountNonce tx else lowest) acc txs
    <-> n <= acc /\ forall tx, tx ∈ txs -> n <= tx_AccountNonce tx) as H.
  { clear Hu Hne. induction txs as [|tx txs IH]; intros acc; cbn [foldl].
    - split; [|by intros []]. intros. split; [done|]. intros ? []%elem_of_nil.
    - rewrite IH. setoid_rewrite elem_of_cons. destruct (Z.ltb_spec (tx_AccountNonce tx) acc); split.
      + intros [H1 H2]. split; [lia|]. intros ? [->|?]; auto.
      + intros [H1 H2]. split; auto.
      + intros [H1 H2]. split; [done|]. intros ? [->|?]; [lia|auto].
      + intros [H1 H2]. split; auto. }
  unfold lowestNonce. rewrite H. split; [by intros []|]. intros Hall. split; [|done].
  destruct txs as [|tx txs]; [done|]. specialize (Hall tx ltac:(by left)). specialize (Hu tx ltac:(by left)).
  unfold is_u64 in Hu. lia.
Qed.

Section Operations.
Context `{GoRange}.
Implicit Type l : txList.

(** An operation behaves: it returns an answer that the specification allows and
    leaves a well-formed list. *)
Definition behaves (t : nat) (o : op) l : Prop :=
  exists a l', run_op t o l = (Ret a, l') /\ tl_wf l' /\ tl_strict l' = tl_strict l /\
    spec (tl_strict l) (tl_items l) o a (tl_items l').

Lemma Add_behaves t tx b l : tl_wf l -> is_u64 (tx_AccountNonce tx) -> behaves t (OAdd tx b) l.
Proof.
  intros Hw Hu. pose proof Hw as [Hs Hc Hn]. unfold behaves, run_op, tl_Add.
  assert (inTxs (sm_Get (tx_AccountNonce tx)) l = (Ret (tl_items l !! tx_AccountNonce tx), l)) as EG by (by destruct l).
  set (o := tl_items l !! tx_AccountNonce tx) in *.
  destruct (match o with Some old => tx_Price tx <=? bumped (tx_Price old) b | None => false end) eqn:E.
  - eexists _, l. split; [apply (bind_ret_eq _ _ (false, None)); by rewrite (bind_eq _ _ _ _ _ EG), E|].
    split_and!; [done|done|]. destruct o as [old|] eqn:Eo; [|done]. apply Z.leb_le in E. by apply spec_Add_cheap with old.
  - destruct (sm_Put_spec tx (tl_txs l) Hs) as (m'&EP&Hm'&Hi').
    eexists (mkAnswer true (option_list o) []), _. split.
    + apply (bind_ret_eq _ (fun r => mkAnswer r.1 (option_list r.2) []) (true, o)). rewrite (bind_eq _ _ _ _ _ EG), E.
      erewrite bind_eq by (apply inTxs_eq; exact EP). reflexivity.
    + split_and!; [|by destruct l|].
      * split; [by destruct l| |]; destruct l as [st ts cc gc]; unfold tl_items; cbn; rewrite Hi'.
        -- apply map_Forall_insert_2; [repeat case_match; lia|]. intros n tx' Htx'. specialize (Hc n tx' Htx').
           cbn in Hc. repeat case_match; lia.
        -- by apply map_Forall_insert_2.
      * destruct l as [st ts cc gc]; unfold tl_items in *; cbn in *. rewrite Hi'. apply spec_Add.
        intros old Hold. unfold o in E. rewrite Hold in E. by apply Z.leb_gt in E.
Qed.

(** The operations that only call the sorted map. *)
Lemma sm_behaves {A} t o (m : M txSortedMap A) (f : A -> answer) l r s :
  tl_wf l -> run_op t o = (r <- inTxs m ;; ret (f r)) -> m (tl_txs l) = (Ret r, s) -> sm_wf s ->
  sm_items s ⊆ tl_items l -> spec (tl_strict l) (tl_items l) o (f r) (sm_items s) -> behaves t o l.
Proof.
  intros Hw Er Em Hs Hsub Hsp. eexists (f r), (l <| tl_txs := s |>). split; [|split_and!].
  - rewrite Er. by erewrite bind_eq by (apply inTxs_eq; exact Em).
  - apply tl_wf_sub with l; by destruct l.
  - by destruct l.
  - by destruct l.
Qed.

Lemma Forward_behaves t th l : tl_wf l -> behaves t (OForward th) l.
Proof.
  intros Hw. destruct (sm_Forward_spec th (tl_txs l)) as (s&E&Hs&Hi); [apply Hw|].
  eapply sm_behaves; [done|reflexivity|exact E|done|..]; rewrite Hi; [apply map_filter_subseteq|apply spec_Forward].
Qed.

Lemma Cap_behaves t th l : tl_wf l -> 0 <= th -> behaves t (OCap th) l.
Proof.
  intros Hw Hth. destruct (sm_Cap_spec th (tl_txs l)) as (s&E&Hs&Hi&Hsub); [apply Hw|done|].
  eapply sm_behaves; [done|reflexivity|exact E|done|done|by apply spec_Cap].
Qed.

Lemma Flatten_behaves t l : tl_wf l -> behaves t OFlatten l.
Proof.
  intros Hw. destruct (sm_Flatten_spec t (tl_txs l)) as (s&E&Hs&Hi); [apply Hw|].
  eapply sm_behaves; [done|reflexivity|exact E|done|..]; rewrite Hi; [done|apply spec_Flatten].
Qed.

Lemma Ready_behaves t start l : tl_wf l -> behaves t (OReady start) l.
Proof.
  intros Hw. destruct (sm_Ready_spec start (tl_txs l)) as (rs&s&E&Hs&Hr); [apply Hw| |].
  { intros n [tx Hn]. by apply (tl_u64 l Hw n tx). }
  eapply sm_behaves; [done|reflexivity|exact E|done|..].
  - destruct Hr as [(_&->&_)|(first&_&_&_&Hr)]; [done|]. rewrite (rest_items _ _ _ _ Hr). apply map_filter_subseteq.
  - destruct Hr as [(->&->&Hr)|(first&?&?&?&Hr)]; [by apply spec_Ready_none|by apply spec_Ready with first].
Qed.

Lemma Remove_behaves t tx l : tl_wf l -> behaves t (ORemove tx) l.
Proof.
  intros Hw. pose proof Hw as [Hs Hc Hn]. unfold behaves, run_op, tl_Remove.
  destruct (sm_Remove_spec (tx_AccountNonce tx) (tl_txs l) Hs) as (m1&E&Hm1&Hi1&Hnone).
  fold (tl_items l) in *. destruct (tl_items l !! tx_AccountNonce tx) as [old|] eqn:Eo.
  2:{ rewrite (Hnone eq_refl) in E. eexists _, l. split.
      - apply (bind_ret_eq _ _ (false, [])). erewrite bind_eq by (apply inTxs_eq; exact E).
        destruct l. reflexivity.
      - split_and!; [done|done|by apply spec_Remove_none]. }
  destruct (sm_Filter_spec t (fun tx' => tx_AccountNonce tx <? tx_AccountNonce tx') m1 Hm1)
    as (inv&m2&EF&Hm2&Hinv&Hi2&_).
  pose proof (splits_delete _ _ _ Eo) as Hsp. pose proof (core_keyed _ Hs) as Hk.
  destruct (tl_strict l) eqn:Est.
  - eexists (mkAnswer true [] inv), (l <| tl_txs := m2 |>). split; [|split_and!].
    + apply (bind_ret_eq _ (fun r => mkAnswer r.1 [] r.2) (true, inv)). erewrite bind_eq by (apply inTxs_eq; exact E). cbv beta.
      rewrite bool_decide_true by done. cbn [negb]. rewrite bind_get. set (l1 := l <| tl_txs := m1 |>).
      change (tl_strict l1) with (tl_strict l). rewrite Est.
      erewrite bind_eq by (apply (inTxs_eq _ l1); exact EF). reflexivity.
    + apply tl_wf_sub with l; [done|by destruct l| |by destruct l|by destruct l].
      change (sm_items m2 ⊆ tl_items l). rewrite Hi2, Hi1. etrans; [apply map_filter_subseteq|apply delete_subseteq].
    + by destruct l.
    + change (spec true (tl_items l) (ORemove tx) (mkAnswer true [] inv) (sm_items m2)). rewrite Hi2, Hi1.
      apply spec_Remove with old; [done| |].
      * apply (splits_trans _ _ _ [old] inv Hsp). apply without_split; [by apply keyed_delete|]. by rewrite Hinv, Hi1.
      * intros n tx'. unfold without. rewrite map_lookup_filter_Some, lookup_delete_Some. cbn. rewrite Z.ltb_ge.
        split.
        -- intros [[Hne Htx'] Hle]. rewrite (Hk _ _ Htx') in Hle. split_and!; [done|done|lia].
        -- intros (Htx'&Hne&Hlt). rewrite (Hk _ _ Htx'). specialize (Hlt eq_refl). split_and!; [lia|done|lia].
  - eexists (mkAnswer true [] []), (l <| tl_txs := m1 |>). split; [|split_and!].
    + apply (bind_ret_eq _ (fun r => mkAnswer r.1 [] r.2) (true, [])). erewrite bind_eq by (apply inTxs_eq; exact E). cbv beta.
      rewrite bool_decide_true by done. cbn [negb]. rewrite bind_get. set (l1 := l <| tl_txs := m1 |>).
      change (tl_strict l1) with (tl_strict l). by rewrite Est.
    + apply tl_wf_sub with l; [done|by destruct l| |by destruct l|by destruct l].
      change (sm_items m1 ⊆ tl_items l). rewrite Hi1. apply delete_subseteq.
    + by destruct l.
    + change (spec false (tl_items l) (ORemove tx) (mkAnswer true [] []) (sm_items m1)). rewrite Hi1.
      apply spec_Remove with old; [done|done|]. intros n tx'. rewrite lookup_delete_Some. naive_solver.
Qed.

(** Without a cap above the limits, nothing is costly. *)
Lemma caps_free c g l : tl_wf l -> tl_costcap l <= c -> tl_gascap l <= g ->
  map_Forall (fun _ tx => costly c g tx = false) (tl_items l).
Proof.
  intros [_ Hc _] H1 H2 n tx Hn. destruct (Hc n tx Hn). unfold costly. apply orb_false_iff. rewrite !Z.ltb_ge. lia.
Qed.

Lemma costly_left c g items n tx : without (costly c g) items !! n = Some tx <->
  items !! n = Some tx /\ costly c g tx = false.
Proof. unfold without. by rewrite map_lookup_filter_Some. Qed.

(** The lists of the two filters, in strict mode. *)
Lemma strict_left c g items removed n tx : keyed items -> map_Forall (fun n _ => is_u64 n) items ->
  removed ≡ₚ List.filter (costly c g) (values items) -> removed <> [] ->
  without (fun tx => lowestNonce removed <? tx_AccountNonce tx) (without (costly c g) items) !! n = Some tx <->
  items !! n = Some tx /\ costly c g tx = false /\ before_costly c g items n.
Proof.
  intros Hk Hu Hr Hne. unfold without at 1. rewrite map_lookup_filter_Some, costly_left. cbn. rewrite Z.ltb_ge.
  assert (forall tx', tx' ∈ removed <-> items !! tx_AccountNonce tx' = Some tx' /\ costly c g tx' = true) as Hin.
  { intros tx'. rewrite Hr, filter_elem, values_elem by done. done. }
  rewrite lowestNonce_spec; [|intros tx' [Htx' _]%Hin; by apply (Hu _ _ Htx')|done]. split.
  - intros [[Hn Hc] Hle]. split_and!; [done|done|]. intros n' tx' Hn' Hc'. rewrite <- (Hk _ _ Hn), <- (Hk _ _ Hn').
    rewrite <- (Hk _ _ Hn') in Hn'. specialize (Hle tx' (proj2 (Hin tx') (conj Hn' Hc'))).
    destruct (decide (tx_AccountNonce tx = tx_AccountNonce tx')) as [E|]; [|lia].
    rewrite <- (Hk _ _ Hn), E, Hn' in Hn. simplify_eq. congruence.
  - intros (Hn&Hc&Hb). split; [done|]. intros tx' [Htx' Hc']%Hin. rewrite (Hk _ _ Hn).
    specialize (Hb _ _ Htx' Hc'). lia.
Qed.

Lemma none_filter (f : Transaction -> bool) items : keyed items ->
  map_Forall (fun _ tx => f tx = false) items -> List.filter f (values items) = [].
Proof.
  intros Hk Hf. destruct (List.filter f (values items)) as [|tx r] eqn:E; [done|].
  assert (tx ∈ List.filter f (values items)) as Hin by (rewrite E; by left).
  apply filter_elem in Hin as [Hin Htx]. apply values_elem in Hin; [|done]. by rewrite (Hf _ _ Hin) in Htx.
Qed.

(** The list after [Filter] has set the caps to the limits. *)
Lemma tl_wf_capped c g l s : tl_wf l -> sm_wf s -> sm_items s ⊆ tl_items l ->
  map_Forall (fun _ tx => costly c g tx = false) (sm_items s) -> tl_wf (mkTxList (tl_strict l) s c g).
Proof.
  intros [_ _ Hu] Hs Hsub Hf. split; [done| |].
  - intros n tx Hn. specialize (Hf n tx Hn). unfold costly in Hf. apply orb_false_iff in Hf.
    rewrite !Z.ltb_ge in Hf. done.
  - intros n tx Hn. apply (Hu n tx). by eapply lookup_weaken.
Qed.

Lemma Filter_runs t c g l : tl_wf l -> ~ (tl_costcap l <= c /\ tl_gascap l <= g) ->
  exists removed inv s, tl_Filter t c g l = (Ret (removed, inv), mkTxList (tl_strict l) s c g) /\ sm_wf s /\
    removed ≡ₚ List.filter (costly c g) (values (tl_items l)) /\
    splits (tl_items l) (sm_items s) (removed ++ inv) /\
    if tl_strict l && negb (bool_decide (removed = []))
    then sm_items s = without (fun tx => lowestNonce removed <? tx_AccountNonce tx) (without (costly c g) (tl_items l))
    else sm_items s = without (costly c g) (tl_items l).
Proof.
  intros Hw Hcap. pose proof Hw as [Hs Hc Hn]. pose proof (core_keyed _ Hs) as Hk. unfold tl_Filter. rewrite bind_get.
  replace ((tl_costcap l <=? c) && (tl_gascap l <=? g)) with false
    by (symmetry; apply andb_false_iff; rewrite !Z.leb_gt; lia).
  rewrite bind_modify. set (l1 := l <| tl_costcap := c |> <| tl_gascap := g |>).
  destruct (sm_Filter_spec t (costly c g) (tl_txs l) Hs) as (removed&s1&E1&Hs1&Hr&Hi1&_).
  erewrite bind_eq by (apply (inTxs_eq _ l1); exact E1). cbv beta.
  pose proof (without_split (costly c g) (tl_items l) removed Hk Hr) as Hsp1.
  destruct (tl_strict l && negb (bool_decide (removed = []))) eqn:Est.
  - destruct (sm_Filter_spec (t + 2) (fun tx => lowestNonce removed <? tx_AccountNonce tx) s1 Hs1)
      as (inv&s2&E2&Hs2&Hinv&Hi2&_).
    exists removed, inv, s2. split_and!; [|done|done| |by rewrite Est, Hi2, Hi1].
    + erewrite bind_eq by (apply (inTxs_eq _ (l1 <| tl_txs := s1 |>)); exact E2). reflexivity.
    + rewrite Hi2, Hi1. apply (splits_trans _ _ _ removed inv Hsp1). apply without_split; [by apply keyed_filter|].
      rewrite Hinv, Hi1. done.
  - exists removed, [], s1. split_and!; [reflexivity|done|done| |by rewrite Est, Hi1]. by rewrite Hi1, app_nil_r.
Qed.

Lemma Filter_behaves t c g l : tl_wf l -> behaves t (OFilter c g) l.
Proof.
  intros Hw. pose proof Hw as [Hs Hc Hn]. pose proof (core_keyed _ Hs) as Hk.
  destruct (decide (tl_costcap l <= c /\ tl_gascap l <= g)) as [[H1 H2]|Hcap].
  { eexists (mkAnswer true [] []), l. split; [|split_and!; [done|done|]].
    - apply (bind_ret_eq _ (fun r => mkAnswer true r.1 r.2) ([], [])). unfold tl_Filter. rewrite bind_get.
      by rewrite (proj2 (Z.leb_le _ _) H1), (proj2 (Z.leb_le _ _) H2).
    - pose proof (caps_free c g l Hw H1 H2) as Hf. apply spec_Filter; [|apply splits_refl|].
      + by rewrite none_filter.
      + intros n tx. split; [|by intros []]. intros Htx. split_and!; [done|by apply (Hf n)|].
        intros _ n' tx' Htx' E. by rewrite (Hf n' tx' Htx') in E. }
  destruct (Filter_runs t c g l Hw Hcap) as (removed&inv&s&E&Hws&Hr&Hsp&Hif).
  assert (forall n tx, sm_items s !! n = Some tx <->
    tl_items l !! n = Some tx /\ costly c g tx = false /\ (tl_strict l = true -> before_costly c g (tl_items l) n)) as Hrest.
  { intros n tx. destruct (tl_strict l && negb (bool_decide (removed = []))) eqn:Est; rewrite Hif.
    - apply andb_true_iff in Est as [-> Hne%negb_true_iff%bool_decide_eq_false]. rewrite strict_left by done. naive_solver.
    - rewrite costly_left. split; [|by intros (?&?&?)]. intros [Htx Hco]. split_and!; [done|done|]. intros Hst.
      rewrite Hst in Est. apply negb_false_iff, bool_decide_eq_true in Est as ->. intros n' tx' Hn' Hc'.
      assert (tx' ∈ List.filter (costly c g) (values (tl_items l))) as Hin.
      { apply filter_elem. split; [|done]. apply values_elem; [done|]. by rewrite (Hk _ _ Hn'). }
      rewrite <- Hr in Hin. by apply elem_of_nil in Hin. }
  exists (mkAnswer true removed inv), (mkTxList (tl_strict l) s c g). split_and!.
  - by apply (bind_ret_eq _ (fun r => mkAnswer true r.1 r.2) (removed, inv)).
  - apply tl_wf_capped; [done|done|apply Hsp|]. intros n tx Htx. by apply Hrest in Htx as (_&?&_).
  - done.
  - by apply spec_Filter.
Qed.
End Operations.

(** ** What the users of a list rely on *)

(** A well-formed list that lacks [gone]. *)
Record shrinks (l l' : txList) (gone : list Transaction) : Prop := {
  shrinks_wf : tl_wf l';
  shrinks_strict : tl_strict l' = tl_strict l;
  shrinks_splits : splits (tl_items l) (tl_items l') gone;
}.

Lemma below_above th items : keyed items -> splits items (above th items) (flat (below th items)).
Proof.
  intros Hk. split; [|apply map_filter_subseteq]. rewrite flat_perm. apply (values_split (fun e => e.1 < th)).
Qed.

Section Runs.
Context `{GoRange}.
Implicit Type l : txList.

Lemma ret_inv {A B} (m : ML A) (f : A -> B) l b l' :
  (r <- m ;; ret (f r)) l = (Ret b, l') -> exists a, m l = (Ret a, l') /\ f a = b.
Proof. intros (a&l1&E&[= <- <-])%bind_inv. by exists a. Qed.

Lemma Add_runs tx b l : tl_wf l -> is_u64 (tx_AccountNonce tx) ->
  exists ins old l', tl_Add tx b l = (Ret (ins, old), l') /\ tl_wf l' /\ tl_strict l' = tl_strict l /\
    if ins : bool
    then old = tl_items l !! tx_AccountNonce tx /\ tl_items l' = <[tx_AccountNonce tx := tx]> (tl_items l)
    else is_Some (tl_items l !! tx_AccountNonce tx) /\ tl_items l' = tl_items l.
Proof.
  intros Hw Hu. destruct (Add_behaves 0 tx b l Hw Hu) as (a&l'&E&Hw'&Hst&Hsp).
  apply ret_inv in E as ([ins old]&E&<-). exists ins, old, l'. split_and!; try done. cbn [fst snd] in Hsp.
  inversion Hsp; subst; [split; [by eexists|done]|].
  split; [|congruence]. destruct old, (tl_items l !! tx_AccountNonce tx); cbn in *; congruence.
Qed.

Lemma Forward_runs th l : tl_wf l -> exists gone l', tl_Forward th l = (Ret gone, l') /\ shrinks l l' gone.
Proof.
  intros Hw. destruct (Forward_behaves 0 th l Hw) as (a&l'&E&Hw'&Hst&Hsp). apply ret_inv in E as (gone&E&<-).
  exists gone, l'. split; [done|]. split; [done|done|]. inversion Hsp; subst.
  apply below_above, (core_keyed _ (tl_sm _ Hw)).
Qed.

Lemma Filter_runs_split t c g l : tl_wf l ->
  exists gone inv l', tl_Filter t c g l = (Ret (gone, inv), l') /\ shrinks l l' (gone ++ inv).
Proof.
  intros Hw. destruct (Filter_behaves t c g l Hw) as (a&l'&E&Hw'&Hst&Hsp). apply ret_inv in E as ([gone inv]&E&<-).
  exists gone, inv, l'. split; [done|]. split; [done|done|]. by inversion Hsp; subst.
Qed.

Lemma Cap_runs th l : tl_wf l -> 0 <= th -> exists gone l', tl_Cap th l = (Ret gone, l') /\ shrinks l l' gone /\
  size (tl_items l') = Nat.min (Z.to_nat th) (size (tl_items l)).
Proof.
  intros Hw Hth. destruct (Cap_behaves 0 th l Hw Hth) as (a&l'&E&Hw'&Hst&Hsp). apply ret_inv in E as (gone&E&<-).
  exists gone, l'. split; [done|]. inversion Hsp; subst. split.
  - split; [done|done|]. split; [|done]. rewrite reverse_Permutation, <- !flat_perm, H3.
    by rewrite Permutation_app_comm, take_drop.
  - by rewrite <- !length_flat, H3, length_take.
Qed.

Lemma Remove_runs t tx l : tl_wf l ->
  exists found inv l', tl_Remove t tx l = (Ret (found, inv), l') /\
    if found : bool
    then exists old, tl_items l !! tx_AccountNonce tx = Some old /\ shrinks l l' (old :: inv)
    else tl_items l !! tx_AccountNonce tx = None /\ inv = [] /\ tl_wf l' /\ tl_strict l' = tl_strict l /\ tl_items l' = tl_items l.
Proof.
  intros Hw. destruct (Remove_behaves t tx l Hw) as (a&l'&E&Hw'&Hst&Hsp). apply ret_inv in E as ([found inv]&E&<-).
  exists found, inv, l'. split; [done|]. cbn [fst snd] in Hsp. inversion Hsp; subst; [by split_and!|].
  exists old. split; [done|]. by split.
Qed.

Lemma Ready_runs start l : tl_wf l -> exists rs l', tl_Ready start l = (Ret rs, l') /\ shrinks l l' rs.
Proof.
  intros Hw. destruct (Ready_behaves 0 start l Hw) as (a&l'&E&Hw'&Hst&Hsp). apply ret_inv in E as (rs&E&<-).
  exists rs, l'. split; [done|]. split; [done|done|]. inversion Hsp; subst; [apply splits_refl|].
  pose proof (below_above (first + Z.of_nat (length rs)) (tl_items l) (core_keyed _ (tl_sm _ Hw))) as Hb.
  by rewrite <- (rest_items _ _ _ _ H5), <- (rest_ready _ _ _ _ H5) in Hb.
Qed.

Lemma Flatten_runs t l : tl_wf l ->
  exists l', tl_Flatten t l = (Ret (flat (tl_items l)), l') /\ tl_wf l' /\ tl_strict l' = tl_strict l /\ tl_items l' = tl_items l.
Proof.
  intros Hw. destruct (Flatten_behaves t l Hw) as (a&l'&E&Hw'&Hst&Hsp). apply ret_inv in E as (fl&E&<-).
  inversion Hsp; subst. exists l'. by split_and!.
Qed.

Lemma Len_runs l : tl_Len l = (Ret (Z.of_nat (size (tl_items l))), l).
Proof. by destruct l. Qed.

Lemma Empty_runs l : tl_Empty l = (Ret (Z.of_nat (size (tl_items l)) =? 0), l).
Proof. unfold tl_Empty. by rewrite (bind_eq _ _ _ _ _ (Len_runs l)). Qed.

Lemma Overlaps_runs tx l : tl_Overlaps tx l = (Ret (bool_decide (is_Some (tl_items l !! tx_AccountNonce tx))), l).
Proof. by destruct l. Qed.
End Runs.

(** ** Sequences of operations *)

(** The arguments the pool passes: nonces are 64-bit, limits not negative. *)
Definition op_ok (o : op) : Prop :=
  match o with OAdd tx _ => is_u64 (tx_AccountNonce tx) | OCap th => 0 <= th | _ => True end.

Fixpoint run_ops `{GoRange} (t : nat) (os : list op) : ML (list answer) :=
  match os with
  | [] => ret []
  | o :: os' => a <- run_op t o ;; r <- run_ops (t + 4) os' ;; ret (a :: r)
  end.

Inductive spec_run (strict : bool) : gmap Z Transaction -> list op -> list answer -> gmap Z Transaction -> Prop :=
  | spec_done items : spec_run strict items [] [] items
  | spec_more items o os a r items' items'' :
      spec strict items o a items' -> spec_run strict items' os r items'' ->
      spec_run strict items (o :: os) (a :: r) items''.

Lemma op_behaves `{GoRange} t o l : tl_wf l -> op_ok o -> behaves t o l.
Proof.
  destruct o; cbn [op_ok]; intros Hw Ho.
  - by apply Add_behaves.
  - by apply Forward_behaves.
  - by apply Filter_behaves.
  - by apply Cap_behaves.
  - by apply Remove_behaves.
  - by apply Ready_behaves.
  - by apply Flatten_behaves.
Qed.

Lemma run_behaves `{GoRange} t os l : tl_wf l -> Forall op_ok os ->
  exists r l', run_ops t os l = (Ret r, l') /\ tl_wf l' /\ spec_run (tl_strict l) (tl_items l) os r (tl_items l').
Proof.
  intros Hw Hos. revert t l Hw. induction Hos as [|o os Ho _ IH]; intros t l Hw.
  { exists [], l. by split_and!; [|done|constructor]. }
  destruct (op_behaves t o l Hw Ho) as (a&l1&E1&Hw1&Hst&Hsp).
  destruct (IH (t + 4)%nat l1 Hw1) as (r&l'&E2&Hw'&Hr). exists (a :: r), l'. split_and!; [|done|].
  - cbn [run_ops]. rewrite (bind_eq _ _ _ _ _ E1). cbv beta. by rewrite (bind_eq _ _ _ _ _ E2).
  - rewrite Hst in Hr. by eapply spec_more.
Qed.

(** ** Gaps *)

(** The nonces of the list have no gap. *)
Definition gapless (items : gmap Z Transaction) : Prop :=
  forall a b c, a <= b <= c -> is_Some (items !! a) -> is_Some (items !! c) -> is_Some (items !! b).

(** Keeping a lower or an upper part makes no gap. *)
Lemma gapless_down items rest : gapless items -> rest ⊆ items ->
  (forall a c, a <= c -> is_Some (items !! a) -> is_Some (rest !! c) -> is_Some (rest !! a)) -> gapless rest.
Proof.
  intros Hg Hsub Hd a b c Habc Ha Hc. apply Hd with c; [lia| |done].
  apply Hg with a c; [done|by eapply lookup_weaken_is_Some..].
Qed.

Lemma gapless_above th items : gapless items -> gapless (above th items).
Proof.
  unfold above. intros Hg a b c Habc [x [Ha Hlt]%map_lookup_filter_Some] [y [Hc _]%map_lookup_filter_Some].
  destruct (Hg a b c Habc) as [z Hz]; [by eexists..|]. exists z. apply map_lookup_filter_Some. split; [done|].
  cbn in *. lia.
Qed.

(** A prefix of the sorted transactions is a lower part. *)
Lemma flat_prefix_down n items rest : keyed items -> rest ⊆ items -> flat rest = take n (flat items) ->
  forall a c, a <= c -> is_Some (items !! a) -> is_Some (rest !! c) -> is_Some (rest !! a).
Proof.
  intros Hk Hsub Hf a c Hac [x Ha] [y Hc].
  assert (keyed rest) as Hkr by (intros k tx Hk'; apply Hk; by eapply lookup_weaken).
  assert (y ∈ take n (flat items)) as Hy by (rewrite <- Hf; apply flat_elem; [done|]; by rewrite (Hkr _ _ Hc)).
  assert (x ∈ flat items) as Hx by (apply flat_elem; [done|]; by rewrite (Hk _ _ Ha)).
  exists x. rewrite <- (take_drop n (flat items)) in Hx. apply elem_of_app in Hx as [Hx|Hx].
  - rewrite <- Hf, flat_elem in Hx by done. by rewrite (Hk _ _ Ha) in Hx.
  - pose proof (flat_sorted items) as Hs. rewrite <- (take_drop n (flat items)) in Hs.
    apply StronglySorted_app in Hs as (Hs&_&_). specialize (Hs y x Hy Hx). unfold byNonce in Hs.
    rewrite (Hk _ _ Ha), (Hkr _ _ Hc) in Hs. assert (a = c) as -> by lia.
    pose proof (lookup_weaken _ _ _ _ Hc Hsub). congruence.
Qed.

Lemma spec_gapless items o a items' : keyed items -> spec true items o a items' ->
  (forall tx b, o <> OAdd tx b) -> gapless items -> gapless items'.
Proof.
  intros Hk Hsp Hne Hg. destruct Hsp as [| |th|c g removed invalid rest _ [_ Hsub] Hrest|th rest _ Hf Hsub| |
    tx old invalid rest _ [_ Hsub] Hrest| |start first rs rest _ _ _ Hr|];
    try (by destruct (Hne _ _ eq_refl)); try done.
  - by apply gapless_above.
  - apply (gapless_down items); [done|done|]. intros x z Hxz [tx Hx] [tx' (Hz&_&Hb)%Hrest].
    exists tx. apply Hrest. split_and!; [done| |intros _ n' tx'' Hn' Hc''; specialize (Hb eq_refl n' tx'' Hn' Hc''); lia].
    destruct (costly c g tx) eqn:E; [|done]. specialize (Hb eq_refl x tx Hx E). lia.
  - by apply (gapless_down items), (flat_prefix_down (Z.to_nat th)).
  - apply (gapless_down items); [done|done|]. intros x z Hxz [tx0 Hx] [tx' (Hz&_&Hb)%Hrest].
    specialize (Hb eq_refl). exists tx0. apply Hrest. split_and!; [done|lia|intros; lia].
  - rewrite (rest_items _ _ _ _ Hr). by apply gapless_above.
Qed.

(** ** Theorems *)

(** C18: an account's list, with its heap, cache and caps, refines the map from
    nonces to transactions: from the empty list, every sequence of operations
    returns, with answers that the specification allows, and leaves the map that
    the specification says. *)
Theorem txList_refines_spec `{GoRange} (strict : bool) t os : Forall op_ok os ->
  exists answers l, run_ops t os (newTxList strict) = (Ret answers, l) /\
    spec_run strict ∅ os answers (tl_items l).
Proof.
  intros Hos. destruct (run_behaves t os _ (new_tl_wf strict) Hos) as (r&l&E&_&Hr). by exists r, l.
Qed.

(** Nothing but an insertion can open a gap in the nonces of a strict list:
    what filtering, capping and removing would cut off goes with them. *)
Theorem strict_list_stays_gapless `{GoRange} t o l : tl_wf l -> op_ok o -> tl_strict l = true ->
  (forall tx b, o <> OAdd tx b) -> gapless (tl_items l) ->
  exists a l', run_op t o l = (Ret a, l') /\ gapless (tl_items l').
Proof.
  intros Hw Ho Hst Hne Hg. destruct (op_behaves t o l Hw Ho) as (a&l'&E&_&_&Hsp). exists a, l'. split; [done|].
  rewrite Hst in Hsp. eapply spec_gapless; [|done..]. apply (core_keyed _ (tl_sm _ Hw)).
Qed.

(** A transaction replaces another of its nonce only for a higher price, if
    the configured bump is in range. *)
Theorem replacement_pays_more tx b old l l' : 0 <= b < two64 / 2 - 100 -> 0 <= tx_Price old ->
  tl_Add tx b l = (Ret (true, Some old), l') -> tx_Price old < tx_Price tx.
Proof.
  intros Hb Hold. unfold tl_Add.
  rewrite (bind_eq _ _ l (tl_items l !! tx_AccountNonce tx) l) by (by destruct l).
  destruct (tl_items l !! tx_AccountNonce tx) as [o|] eqn:E; [|by destruct l].
  destruct (Z.leb_spec (tx_Price tx) (bumped (tx_Price o) b)) as [|Hlt]; [done|]. intros E'.
  change ((Ret (true, Some o), (inTxs (sm_Put tx) l).2
    <| tl_costcap ::= fun c => if c <? Cost tx then Cost tx else c |>
    <| tl_gascap ::= fun c => if c <? tx_GasLimit tx then tx_GasLimit tx else c |>)
    = (Ret (true, Some old), l')) in E'. assert (o = old) as -> by congruence. clear E'.
  unfold bumped in Hlt. rewrite int64_of_u64_small in Hlt by lia.
  assert (i64 (100 + b) = 100 + b) as Ei by (apply i64_small; change (two64 / 2) with 9223372036854775808 in *; lia).
  rewrite Ei in Hlt. apply Z.le_lt_trans with (2 := Hlt). apply Z.div_le_lower_bound; nia.
Qed.

(** ** Concrete lists *)

Definition priced (nonce price : Z) : Transaction := newTransaction nonce None 1 21000 price EmptyString.
Definition someOps : list op :=
  [OAdd (priced 2 5) 10; OAdd (priced 0 5) 10; OAdd (priced 1 7) 10; OAdd (priced 1 8) 10; OFlatten;
   OFilter 200000 30000; OCap 2; OReady 0].

Lemma txList_refines_spec_witness :
  exists answers l, run_ops 0 someOps (newTxList true) = (Ret answers, l) /\
    spec_run true ∅ someOps answers (tl_items l).
Proof. apply (txList_refines_spec true 0 someOps). by repeat constructor. Defined.

Definition gaplessList : txList := (run_ops 0 (take 3 someOps) (newTxList true)).2.

Lemma gaplessList_wf : tl_wf gaplessList /\ tl_strict gaplessList = true.
Proof.
  destruct (run_behaves 0 (take 3 someOps) _ (new_tl_wf true)) as (r&l&E&Hw&_); [by repeat constructor|].
  unfold gaplessList. rewrite E. split; [done|].
  assert (run_ops 0 (take 3 someOps) (newTxList true) = (Ret r, gaplessList)) as E' by (by rewrite E; unfold gaplessList; rewrite E).
  assert ((run_ops 0 (take 3 someOps) (newTxList true)).2 = l) as <- by by rewrite E. done.
Qed.

Lemma strict_list_stays_gapless_witness :
  exists a l', run_op 0 (ORemove (priced 1 7)) gaplessList = (Ret a, l') /\ gapless (tl_items l').
Proof.
  apply (strict_list_stays_gapless 0 (ORemove (priced 1 7)) gaplessList).
  - apply gaplessList_wf.
  - done.
  - done.
  - done.
  - assert (tl_items gaplessList = {[ 0 := priced 0 5; 1 := priced 1 7; 2 := priced 2 5 ]}) as -> by by vm_compute.
    intros a b c Habc [x Hx] [y Hy]. rewrite !lookup_insert_Some, lookup_singleton_Some in Hx, Hy.
    assert (b = 0 \/ b = 1 \/ b = 2) as [-> | [-> | ->] ] by lia; by eexists.
Defined.

Lemma replacement_pays_more_witness : 5 < 8.
Proof.
  apply (replacement_pays_more (priced 1 8) 10 (priced 1 5) ((tl_Add (priced 1 5) 10 (newTxList true)).2)
           (tl_Add (priced 1 8) 10 (tl_Add (priced 1 5) 10 (newTxList true)).2).2).
  - done.
  - done.
  - by vm_compute.
Defined.
