(* ===== verification/Merkle.v ===== *)
(** * Merkle: the trees behind the roots of a block

    Models the incremental Merkle tree and its witness of
    [libsnark-vnt/src/withdraw/IncrementalMerkleTree.tcc], the two uses of it in
    [withdrawcgo.cpp], and the Go side that calls it: [merkleTree/merkle.go] and
    [core/types/derive_sha.go].  The reference is the complete binary tree
    [mroot], which the incremental tree computes without storing the leaves. *)
From S2P Require Import Prelude.
From S2P Require Import Messages.
From S2P Require Import Tx.

Local Open Scope nat_scope.

Section Tree.
Context {H : Type} (combine : H -> H -> H) (null : H).

(** ** The incremental tree *)

(** [EmptyMerkleRoots]. *)
Fixpoint empty_root (d : nat) : H :=
  match d with O => null | S d' => combine (empty_root d') (empty_root d') end.

(** [IncrementalMerkleTree]. *)
Record Tree := mkTree { t_left : option H; t_right : option H; t_parents : list (option H) }.

Definition newTree : Tree := mkTree None None [].

(** [is_complete]. *)
Definition is_complete (depth : nat) (t : Tree) : bool :=
  match t_left t, t_right t with
  | Some _, Some _ =>
      (length (t_parents t) =? depth - 1) && forallb (fun p => match p with Some _ => true | None => false end) (t_parents t)
  | _, _ => false
  end.

(** The loop of [append]: [combined] moves up to the first free parent. *)
Fixpoint propagate (combined : H) (parents : list (option H)) : list (option H) :=
  match parents with
  | [] => [Some combined]
  | Some p :: ps => None :: propagate (combine p combined) ps
  | None :: ps => Some combined :: ps
  end.

(** [append]; [None] when it throws. *)
Definition append (depth : nat) (obj : H) (t : Tree) : option Tree :=
  if is_complete depth t then None
  else
    match t_left t, t_right t with
    | None, r => Some (mkTree (Some obj) r (t_parents t))
    | Some l, None => Some (mkTree (Some l) (Some obj) (t_parents t))
    | Some l, Some r => Some (mkTree (Some obj) None (propagate (combine l r) (t_parents t)))
    end.

Fixpoint appends (depth : nat) (objs : list H) (t : Tree) : option Tree :=
  match objs with
  | [] => Some t
  | o :: os => t' ← append depth o t; appends depth os t'
  end.

(** [PathFiller.next]. *)
Definition next (d : nat) (q : list H) : H * list H :=
  match q with h :: q' => (h, q') | [] => (empty_root d, []) end.

Definition filled_or (o : option H) (d : nat) (q : list H) : H * list H :=
  match o with Some h => (h, q) | None => next d q end.

(** The two loops of [root]. *)
Fixpoint rest_root (n d : nat) (r : H) (q : list H) : H :=
  match n with
  | O => r
  | S n' => let '(f, q') := next d q in rest_root n' (S d) (combine r f) q'
  end.

Fixpoint parents_root (depth d : nat) (ps : list (option H)) (r : H) (q : list H) : H :=
  match ps with
  | Some p :: ps' => parents_root depth (S d) ps' (combine p r) q
  | None :: ps' => let '(f, q') := next d q in parents_root depth (S d) ps' (combine r f) q'
  | [] => rest_root (depth - d) d r q
  end.

(** [root]. *)
Definition root (depth : nat) (q : list H) (t : Tree) : H :=
  let '(l, q1) := filled_or (t_left t) 0 q in
  let '(r, q2) := filled_or (t_right t) 0 q1 in
  parents_root depth 1 (t_parents t) (combine l r) q2.

(** [next_depth]. *)
Fixpoint parents_next (d skip : nat) (ps : list (option H)) : nat :=
  match ps with
  | [] => d + skip
  | Some _ :: ps' => parents_next (S d) skip ps'
  | None :: ps' => match skip with O => d | S skip' => parents_next (S d) skip' ps' end
  end.

Definition next_depth (skip : nat) (t : Tree) : nat :=
  match t_left t, skip with
  | None, O => 0
  | l, _ =>
      let skip := match l with None => skip - 1 | Some _ => skip end in
      match t_right t, skip with
      | None, O => 0
      | r, _ => parents_next 1 (match r with None => skip - 1 | Some _ => skip end) (t_parents t)
      end
  end.

(** [path], from the leaf up: each sibling with whether it is the left one.  The
    code turns both lists around for the circuit. *)
Fixpoint parents_path (depth d : nat) (ps : list (option H)) (q : list H) : list (H * bool) :=
  match ps with
  | Some p :: ps' => (p, true) :: parents_path depth (S d) ps' q
  | None :: ps' => let '(f, q') := next d q in (f, false) :: parents_path depth (S d) ps' q'
  | [] => (fix rest n d q := match n with O => [] | S n' => let '(f, q') := next d q in (f, false) :: rest n' (S d) q' end)
            (depth - d) d q
  end.

Definition path (depth : nat) (q : list H) (t : Tree) : option (list (H * bool)) :=
  match t_left t, t_right t with
  | None, _ => None
  | Some l, Some _ => Some ((l, true) :: parents_path depth 1 (t_parents t) q)
  | Some _, None => let '(f, q') := next 0 q in Some ((f, false) :: parents_path depth 1 (t_parents t) q')
  end.

(** ** The witness *)

(** [IncrementalWitness]; the cursor comes with its depth. *)
Record Witness := mkWitness { w_tree : Tree; w_filled : list H; w_cursor : option (Tree * nat) }.

Definition witness (t : Tree) : Witness := mkWitness t [] None.

Definition partial_path (w : Witness) : list H :=
  w_filled w ++ match w_cursor w with Some (c, d) => [root d [] c] | None => [] end.

Definition w_root (depth : nat) (w : Witness) : H := root depth (partial_path w) (w_tree w).
Definition w_path (depth : nat) (w : Witness) : option (list (H * bool)) := path depth (partial_path w) (w_tree w).

(** [IncrementalWitness.append]; the cursor is a tree of the full depth. *)
Definition w_append (depth : nat) (obj : H) (w : Witness) : option Witness :=
  match w_cursor w with
  | Some (c, d) =>
      c' ← append depth obj c;
      Some (if is_complete d c' then mkWitness (w_tree w) (w_filled w ++ [root d [] c']) None
            else mkWitness (w_tree w) (w_filled w) (Some (c', d)))
  | None =>
      let d := next_depth (length (w_filled w)) (w_tree w) in
      if depth <=? d then None
      else if d =? 0 then Some (mkWitness (w_tree w) (w_filled w ++ [obj]) None)
      else c ← append depth obj newTree; Some (mkWitness (w_tree w) (w_filled w) (Some (c, d)))
  end.

Fixpoint w_appends (depth : nat) (objs : list H) (w : Witness) : option Witness :=
  match objs with
  | [] => Some w
  | o :: os => w' ← w_append depth o w; w_appends depth os w'
  end.

(** ** The reference tree *)

(** The root of the complete tree of depth [d] over the leaves, padded with
    [null]. *)
Fixpoint mroot (d : nat) (l : list H) : H :=
  match d with
  | O => default null (head l)
  | S d' => combine (mroot d' (take (2 ^ d') l)) (mroot d' (drop (2 ^ d') l))
  end.

(** The root a path leads to. *)
Fixpoint climb (leaf : H) (p : list (H * bool)) : H :=
  match p with
  | [] => leaf
  | (s, true) :: p' => climb (combine s leaf) p'
  | (s, false) :: p' => climb (combine leaf s) p'
  end.

(** The position a path stands for. *)
Fixpoint position (p : list (H * bool)) : nat :=
  match p with
  | [] => 0
  | (_, b) :: p' => (if b then 1 else 0) + 2 * position p'
  end.

(** ** Roots of the reference tree *)

Lemma mroot_nil d : mroot d [] = empty_root d.
Proof. induction d as [|d IH]; [done|]. cbn [mroot empty_root]. by rewrite take_nil, drop_nil, IH. Qed.

Lemma mroot_app d l1 l2 : length l1 = 2 ^ d -> mroot (S d) (l1 ++ l2) = combine (mroot d l1) (mroot d l2).
Proof. intros E. cbn [mroot]. by rewrite <- E, take_app_length, drop_app_length. Qed.

Lemma mroot_short d l : length l <= 2 ^ d -> mroot (S d) l = combine (mroot d l) (empty_root d).
Proof. intros E. cbn [mroot]. by rewrite take_ge, drop_ge, mroot_nil by done. Qed.

(** ** What a tree stands for *)

(** The parents from depth [d] on hold the complete subtrees of the leaves before
    the last ones. *)
Inductive prep : nat -> list (option H) -> list H -> Prop :=
  | prep_nil d : prep d [] []
  | prep_none d ps l : prep (S d) ps l -> prep d (None :: ps) l
  | prep_some d ps l1 l2 : prep (S d) ps l1 -> length l2 = 2 ^ d ->
      prep d (Some (mroot d l2) :: ps) (l1 ++ l2).

Definition canon (ps : list (option H)) : Prop := last ps <> Some None.

Inductive rep : Tree -> list H -> Prop :=
  | rep_empty : rep newTree []
  | rep_left a ps l : prep 1 ps l -> canon ps -> rep (mkTree (Some a) None ps) (l ++ [a])
  | rep_both a b ps l : prep 1 ps l -> canon ps -> rep (mkTree (Some a) (Some b) ps) (l ++ [a; b]).

Lemma propagate_prep d ps l c : prep d ps l -> length c = 2 ^ d -> prep d (propagate (mroot d c) ps) (l ++ c).
Proof.
  intros Hp. revert c. induction Hp as [d|d ps l Hp IH|d ps l1 l2 Hp IH Hl]; intros c Hc; cbn [propagate].
  - rewrite app_nil_l. apply (prep_some d [] [] c); [constructor|done].
  - by constructor.
  - rewrite <- mroot_app, <- app_assoc by done. constructor. apply IH. rewrite length_app. cbn [Nat.pow]. lia.
Qed.

Lemma propagate_not_nil c ps : propagate c ps <> [].
Proof. destruct ps as [|[]]; done. Qed.

Lemma propagate_canon c ps : canon ps -> canon (propagate c ps).
Proof.
  unfold canon. revert c. induction ps as [|[p|] ps IH]; intros c Hc; cbn [propagate]; [done| |].
  - destruct (propagate (combine p c) ps) eqn:E; [by destruct (propagate_not_nil _ _ E)|].
    rewrite last_cons_cons, <- E. apply IH. destruct ps; [done|by rewrite last_cons_cons in Hc].
  - destruct ps; [done|]. by rewrite last_cons_cons in *.
Qed.

Definition some (p : option H) : bool := match p with Some _ => true | None => false end.

(** How many leaves the parents hold. *)
Lemma prep_le d ps l : prep d ps l ->
  length l + 2 ^ d <= 2 ^ (d + length ps) /\ (length l + 2 ^ d = 2 ^ (d + length ps) <-> forallb some ps = true).
Proof.
  induction 1 as [d|d ps l Hp [IH1 IH2]|d ps l1 l2 Hp [IH1 IH2] Hl]; cbn [length forallb some andb].
  - rewrite Nat.add_0_r. cbn. split; [lia|done].
  - rewrite <- Nat.add_succ_comm. cbn [Nat.pow] in *. pose proof (Nat.pow_nonzero 2 d). split; [lia|]. split; [lia|done].
  - rewrite <- Nat.add_succ_comm, length_app. cbn [Nat.pow] in *. split; [lia|]. rewrite <- IH2. lia.
Qed.

Lemma prep_ge d ps l : prep d ps l -> canon ps -> ps <> [] -> 2 ^ (d + length ps) <= 2 * length l.
Proof.
  induction 1 as [d|d ps l Hp IH|d ps l1 l2 Hp IH Hl]; intros Hc Hne; [done|..]; cbn [length].
  - destruct ps as [|p ps]; [done|]. unfold canon in *. rewrite last_cons_cons in Hc. rewrite <- Nat.add_succ_comm. by apply IH.
  - rewrite length_app. destruct ps as [|p ps].
    + inversion Hp; subst. cbn. rewrite Nat.add_1_r. cbn. lia.
    + unfold canon in *. rewrite last_cons_cons in Hc. rewrite <- Nat.add_succ_comm. specialize (IH Hc ltac:(done)). lia.
Qed.

(** The tree does not outgrow its depth. *)
Lemma rep_depth depth t l : 1 <= depth -> rep t l -> length l <= 2 ^ depth -> 1 + length (t_parents t) <= depth.
Proof.
  intros Hd Hr Hl. assert (forall ps l0, prep 1 ps l0 -> canon ps -> length l0 < 2 ^ depth -> 1 + length ps <= depth) as Hps.
  { intros ps l0 Hp Hc Hl0. destruct (decide (ps = [])) as [->|Hne]; [cbn; lia|].
    pose proof (prep_ge 1 ps l0 Hp Hc Hne) as Hge. cbn [Nat.add Nat.pow] in Hge.
    destruct (Nat.le_gt_cases depth (length ps)) as [Hle|]; [|lia].
    pose proof (Nat.pow_le_mono_r 2 _ _ ltac:(lia) Hle). lia. }
  destruct Hr as [|a ps l0 Hp Hc|a b ps l0 Hp Hc]; cbn [t_parents newTree length] in *; [lia|..];
    rewrite length_app in Hl; cbn in Hl; apply (Hps _ l0); auto; lia.
Qed.

Lemma is_complete_spec depth t l : 1 <= depth -> rep t l -> length l <= 2 ^ depth ->
  is_complete depth t = true <-> length l = 2 ^ depth.
Proof.
  intros Hd Hr Hl. pose proof (rep_depth depth t l Hd Hr Hl) as Hsz. pose proof (Nat.pow_nonzero 2 depth).
  destruct Hr as [|a ps l0 Hp Hc|a b ps l0 Hp Hc]; unfold is_complete; cbn [t_left t_right t_parents newTree] in *.
  - cbn. lia.
  - rewrite length_app in *. cbn [length] in *. destruct (prep_le _ _ _ Hp) as [Hle _]. cbn [Nat.pow] in Hle.
    assert (2 ^ (1 + length ps) <= 2 ^ depth) by (apply Nat.pow_le_mono_r; lia). split; [done|lia].
  - rewrite length_app in *. cbn [length] in *. destruct (prep_le _ _ _ Hp) as [Hle Heq]. cbn [Nat.pow] in Hle, Heq.
    assert (2 ^ (1 + length ps) <= 2 ^ depth) by (apply Nat.pow_le_mono_r; lia).
    rewrite andb_true_iff, Nat.eqb_eq. fold some. split.
    + intros [E Hall%Heq]. replace (1 + length ps) with depth in Hall by lia. lia.
    + intros E. assert (1 + length ps = depth) as Ed.
      { destruct (Nat.lt_ge_cases (1 + length ps) depth) as [Hlt|]; [|lia].
        pose proof (Nat.pow_lt_mono_r 2 _ _ ltac:(lia) Hlt). lia. }
      split; [lia|]. apply Heq. rewrite Ed. lia.
Qed.

(** [append] adds a leaf while there is room. *)
Lemma append_spec depth o t l : 1 <= depth -> rep t l -> length l < 2 ^ depth ->
  exists t', append depth o t = Some t' /\ rep t' (l ++ [o]).
Proof.
  intros Hd Hr Hl. unfold append. destruct (is_complete depth t) eqn:E.
  { apply (is_complete_spec depth t l Hd Hr) in E; lia. }
  destruct Hr as [|a ps l0 Hp Hc|a b ps l0 Hp Hc]; cbn [t_left t_right t_parents newTree].
  - eexists. split; [done|]. apply (rep_left o [] []); [constructor|done].
  - eexists. split; [done|]. rewrite <- app_assoc. by constructor.
  - eexists. split; [done|]. constructor; [|by apply propagate_canon].
    apply (propagate_prep 1 ps l0 [a; b]); done.
Qed.

Lemma appends_spec depth os t l : 1 <= depth -> rep t l -> length (l ++ os) <= 2 ^ depth ->
  exists t', appends depth os t = Some t' /\ rep t' (l ++ os).
Proof.
  intros Hd. revert t l. induction os as [|o os IH]; intros t l Hr Hl; cbn [appends].
  { exists t. by rewrite app_nil_r. }
  rewrite length_app in Hl. cbn [length] in Hl.
  destruct (append_spec depth o t l Hd Hr ltac:(lia)) as (t1&->&Hr1). cbn [mbind option_bind].
  destruct (IH t1 (l ++ [o]) Hr1) as (t'&E&Hr').
  { rewrite !length_app. cbn [length]. lia. }
  exists t'. split; [done|]. by rewrite <- app_assoc in Hr'.
Qed.

Lemma append_full depth o t l : 1 <= depth -> rep t l -> length l = 2 ^ depth -> append depth o t = None.
Proof. intros Hd Hr Hl. unfold append. by rewrite (proj2 (is_complete_spec depth t l Hd Hr ltac:(lia)) Hl). Qed.

(** ** Roots with fillers *)

(** Leaves that fill a subtree of depth [d], or the last ones. *)
Definition fits (d : nat) (l : list H) (q : list H) : Prop := length l = 2 ^ d \/ (length l <= 2 ^ d /\ q = []).

(** The fillers are the roots of the leaves that follow, cut into subtrees of the
    depths of the open slots. *)
Inductive feeds : list H -> list nat -> list H -> Prop :=
  | feeds_nil ds : feeds [] ds []
  | feeds_cons d ds blk q more : fits d blk q -> feeds q ds more ->
      feeds (mroot d blk :: q) (d :: ds) (blk ++ more).

(** The depths at which the tree asks for a filler. *)
Fixpoint pslots (depth d : nat) (ps : list (option H)) : list nat :=
  match ps with
  | [] => seq d (depth - d)
  | Some _ :: ps' => pslots depth (S d) ps'
  | None :: ps' => d :: pslots depth (S d) ps'
  end.

Definition lslot (o : option H) : list nat := match o with Some _ => [] | None => [0] end.
Definition tslots (depth : nat) (t : Tree) : list nat :=
  lslot (t_left t) ++ lslot (t_right t) ++ pslots depth 1 (t_parents t).

Lemma next_feeds d ds q more : feeds q (d :: ds) more ->
  exists blk more' q', next d q = (mroot d blk, q') /\ more = blk ++ more' /\ fits d blk q' /\ feeds q' ds more'.
Proof.
  inversion 1 as [|? ? blk q' more' Hf Hr]; subst.
  - exists [], [], []. cbn [next]. rewrite mroot_nil. split_and!; [done|done| |constructor].
    right. cbn. split; [lia|done].
  - by exists blk, more', q'.
Qed.

(** One level up, with the next filler on the right. *)
Lemma step_feeds d ds q tail more : fits d tail q -> feeds q (d :: ds) more ->
  exists f q' tail' more', next d q = (f, q') /\ combine (mroot d tail) f = mroot (S d) tail' /\
    tail ++ more = tail' ++ more' /\ fits (S d) tail' q' /\ feeds q' ds more'.
Proof.
  intros Ht Hf. pose proof (Nat.pow_nonzero 2 d). inversion Hf as [|? ? blk q' more' Hb Hr]; subst.
  - exists (empty_root d), [], tail, []. split_and!; [done| |done| |constructor].
    + rewrite mroot_short; [done|]. destruct Ht as [|[]]; lia.
    + right. cbn [Nat.pow]. destruct Ht as [|[]]; split; (done || lia).
  - destruct Ht as [Ht|[_ Ht]]; [|done]. exists (mroot d blk), q', (tail ++ blk), more'. split_and!; [done| | | |done].
    + by rewrite mroot_app.
    + by rewrite app_assoc.
    + unfold fits in *. rewrite length_app. cbn [Nat.pow]. destruct Hb as [Hb|[Hb ->]]; [left; lia|right; split; [lia|done]].
Qed.

Lemma rest_root_spec n d q tail more : fits d tail q -> feeds q (seq d n) more ->
  rest_root n d (mroot d tail) q = mroot (d + n) (tail ++ more).
Proof.
  revert d q tail more. induction n as [|n IH]; intros d q tail more Ht Hf; cbn [rest_root].
  - inversion Hf; subst. by rewrite Nat.add_0_r, app_nil_r.
  - cbn [seq] in Hf. destruct (step_feeds _ _ _ _ _ Ht Hf) as (f&q'&tail'&more'&->&->&->&Ht'&Hf').
    rewrite (IH (S d) q' tail' more') by done. f_equal. lia.
Qed.

Lemma parents_root_spec depth d ps l q tail more : d + length ps <= depth -> prep d ps l -> fits d tail q ->
  feeds q (pslots depth d ps) more ->
  parents_root depth d ps (mroot d tail) q = mroot depth (l ++ tail ++ more).
Proof.
  intros Hd Hp. revert q tail more Hd.
  induction Hp as [d|d ps l Hp IH|d ps l1 l2 Hp IH Hl]; intros q tail more Hd Ht Hf; cbn [parents_root pslots length] in *.
  - rewrite (rest_root_spec (depth - d) d q tail more) by done. f_equal. lia.
  - destruct (step_feeds _ _ _ _ _ Ht Hf) as (f&q'&tail'&more'&->&->&->&Ht'&Hf'). apply IH; [lia|done|done].
  - rewrite <- mroot_app by done. rewrite <- app_assoc. rewrite (IH q (l2 ++ tail) more); [|lia| |done].
    + by rewrite !app_assoc.
    + unfold fits in *. rewrite length_app. cbn [Nat.pow]. destruct Ht as [|[? ->]]; [left; lia|right; split; [lia|done]].
Qed.

Lemma fits_leaf a q : fits 0 [a] q.
Proof. by left. Qed.

(** The root with fillers is the root of all the leaves. *)
Lemma root_spec depth q t l more : 1 + length (t_parents t) <= depth -> rep t l -> feeds q (tslots depth t) more ->
  root depth q t = mroot depth (l ++ more).
Proof.
  intros Hd Hr Hf. destruct Hr as [|a ps l Hp Hc|a b ps l Hp Hc]; unfold root, tslots in *;
    cbn [t_left t_right t_parents newTree lslot filled_or app] in *.
  - destruct (next_feeds _ _ _ _ Hf) as (blk&more'&q'&->&->&Ht&Hf').
    destruct (step_feeds _ _ _ _ _ Ht Hf') as (f&q''&tail'&more''&->&->&->&Ht'&Hf'').
    by apply (parents_root_spec depth 1 [] []); [|constructor|..].
  - destruct (step_feeds 0 _ q [a] more (fits_leaf a q) Hf) as (f&q'&tail'&more'&->&E&E2&Ht'&Hf').
    change (combine a f = mroot 1 tail') in E. rewrite E, <- app_assoc, E2. by apply parents_root_spec.
  - change (combine a b) with (mroot 1 [a; b]). rewrite <- app_assoc. apply parents_root_spec; [done|done| |done].
    by left.
Qed.

(** ** The slots *)

Lemma pslots_next depth d skip ps : d + length ps <= depth ->
  (skip < length (pslots depth d ps) -> pslots depth d ps !! skip = Some (parents_next d skip ps)) /\
  (length (pslots depth d ps) <= skip -> depth <= parents_next d skip ps).
Proof.
  revert d skip. induction ps as [|[p|] ps IH]; intros d skip Hd; cbn [pslots parents_next length] in *.
  - rewrite length_seq. split; intros; [|lia]. by rewrite lookup_seq_lt.
  - apply IH. lia.
  - destruct skip as [|skip]; cbn [lookup list_lookup]; [split; [done|cbn; lia]|].
    destruct (IH (S d) skip) as [H1 H2]; [lia|]. split; intros; [apply H1|apply H2]; lia.
Qed.

Lemma tslots_next depth skip t : 1 + length (t_parents t) <= depth ->
  (skip < length (tslots depth t) -> tslots depth t !! skip = Some (next_depth skip t)) /\
  (length (tslots depth t) <= skip -> depth <= next_depth skip t).
Proof.
  intros Hd. pose proof (fun s => pslots_next depth 1 s (t_parents t) Hd) as Hp.
  unfold tslots, next_depth. destruct (t_left t), (t_right t); cbn [lslot app length].
  - apply Hp.
  - destruct skip as [|skip]; [split; [done|cbn; lia]|]. cbn [Nat.sub lookup list_lookup]. rewrite Nat.sub_0_r.
    destruct (Hp skip). split; intros; auto with lia.
  - destruct skip as [|skip]; [split; [done|cbn; lia]|]. cbn [Nat.sub lookup list_lookup]. rewrite Nat.sub_0_r.
    destruct (Hp skip). split; intros; auto with lia.
  - destruct skip as [|[|skip]]; [split; [done|cbn; lia]|split; [done|cbn; lia]|]. cbn [Nat.sub lookup list_lookup].
    rewrite ?Nat.sub_0_r. destruct (Hp skip). split; intros; auto with lia.
Qed.

(** ** The witness stands for the leaves before and after its position *)

(** Complete subtrees in the first slots. *)
Inductive blocks : list H -> list nat -> list H -> Prop :=
  | blocks_nil : blocks [] [] []
  | blocks_cons d ds blk q more : length blk = 2 ^ d -> blocks q ds more ->
      blocks (mroot d blk :: q) (d :: ds) (blk ++ more).

Lemma blocks_length q ds more : blocks q ds more -> length q = length ds.
Proof. induction 1; cbn; lia. Qed.

Lemma blocks_snoc q ds more d blk : blocks q ds more -> length blk = 2 ^ d ->
  blocks (q ++ [mroot d blk]) (ds ++ [d]) (more ++ blk).
Proof.
  intros Hb Hl. induction Hb as [|d' ds blk' q more Hl' Hb IH]; cbn [app].
  - pose proof (blocks_cons d [] blk [] [] Hl blocks_nil) as Hx. by rewrite app_nil_r in Hx.
  - rewrite <- app_assoc. by constructor.
Qed.

Lemma blocks_feeds q ds more q' ds' more' : blocks q ds more -> feeds q' ds' more' ->
  feeds (q ++ q') (ds ++ ds') (more ++ more').
Proof.
  intros Hb Hf. induction Hb as [|d ds blk q more Hl Hb IH]; [done|]. cbn [app]. rewrite <- app_assoc.
  constructor; [by left|done].
Qed.

(** All slots filled: the tree is complete. *)
Lemma pblocks_sum depth d ps l q more : d + length ps <= depth -> prep d ps l ->
  blocks q (pslots depth d ps) more -> length l + 2 ^ d + length more = 2 ^ depth.
Proof.
  intros Hd Hp. revert q more Hd. induction Hp as [d|d ps l Hp IH|d ps l1 l2 Hp IH Hl]; intros q more Hd Hb; cbn [pslots length] in *.
  - rewrite Nat.add_0_r in Hd. replace (2 ^ depth) with (2 ^ (d + (depth - d))) by (f_equal; lia). revert Hb. generalize (depth - d) as n.
    clear Hd. intros n. revert d q more. induction n as [|n IH]; intros d q more Hb; inversion Hb; subst.
    + cbn. rewrite !Nat.add_0_r. lia.
    + rewrite length_app. specialize (IH (S d) _ _ H5). rewrite <- Nat.add_succ_comm. cbn [Nat.pow] in *. lia.
  - inversion Hb; subst. specialize (IH _ _ ltac:(lia) H5). rewrite length_app. cbn [Nat.pow] in *. lia.
  - specialize (IH _ _ ltac:(lia) Hb). rewrite length_app. cbn [Nat.pow] in *. lia.
Qed.

Lemma tblocks_sum depth t l q more : 1 + length (t_parents t) <= depth -> rep t l ->
  blocks q (tslots depth t) more -> length l + length more = 2 ^ depth.
Proof.
  intros Hd Hr Hb. destruct Hr as [|a ps l Hp Hc|a b ps l Hp Hc]; unfold tslots in Hb;
    cbn [t_left t_right t_parents newTree lslot app length] in *.
  - inversion Hb as [|? ? ? ? ? Hl1 Hb1]; subst. inversion Hb1 as [|? ? ? ? ? Hl2 Hb2]; subst.
    pose proof (pblocks_sum depth 1 [] [] _ _ Hd (prep_nil 1) Hb2) as Hs. rewrite !length_app. cbn in *. lia.
  - inversion Hb as [|? ? ? ? ? Hl1 Hb1]; subst. pose proof (pblocks_sum depth 1 _ _ _ _ Hd Hp Hb1) as Hs.
    rewrite !length_app. cbn in *. lia.
  - pose proof (pblocks_sum depth 1 _ _ _ _ Hd Hp Hb) as Hs. rewrite !length_app. cbn in *. lia.
Qed.

Inductive wrep (depth : nat) : Witness -> list H -> list H -> Prop :=
  | wrep_idle t l q ds ds' more :
      rep t l -> tslots depth t = ds ++ ds' -> blocks q ds more ->
      wrep depth (mkWitness t q None) l more
  | wrep_cursor t l q ds d ds' more c cur :
      rep t l -> tslots depth t = ds ++ d :: ds' -> blocks q ds more ->
      rep c cur -> 1 <= d -> cur <> [] -> length cur < 2 ^ d ->
      wrep depth (mkWitness t q (Some (c, d))) l (more ++ cur).

(** The fillers a witness passes to its tree. *)
Lemma partial_feeds depth w l more : wrep depth w l more ->
  feeds (partial_path w) (tslots depth (w_tree w)) more.
Proof.
  intros Hw. destruct Hw as [t l q ds ds' more Hr Hs Hb|t l q ds d ds' more c cur Hr Hs Hb Hc Hd Hne Hl];
    unfold partial_path; cbn [w_filled w_cursor w_tree]; rewrite Hs.
  - rewrite <- (app_nil_r more). apply blocks_feeds; [done|constructor].
  - apply blocks_feeds; [done|].
    rewrite (root_spec d [] c cur []); [|by apply (rep_depth d c cur); [..|lia]|done|constructor].
    rewrite app_nil_r. rewrite <- (app_nil_r cur) at 2. constructor; [|constructor]. right. split; [lia|done].
Qed.

Lemma w_root_spec depth w l more : 1 + length (t_parents (w_tree w)) <= depth -> wrep depth w l more ->
  w_root depth w = mroot depth (l ++ more).
Proof.
  intros Hd Hw. apply root_spec; [done| |by apply (partial_feeds depth w l)]. by destruct Hw.
Qed.

Lemma slot_small depth t d : 1 + length (t_parents t) <= depth -> d ∈ tslots depth t -> d < depth.
Proof.
  assert (forall e ps, e + length ps <= depth -> d ∈ pslots depth e ps -> d < depth) as Hp.
  { intros e ps. revert e. induction ps as [|[p|] ps IH]; intros e He; cbn [pslots length] in *.
    - rewrite elem_of_seq. lia.
    - apply IH. lia.
    - intros [->|Hin]%elem_of_cons; [lia|]. revert Hin. apply IH. lia. }
  intros Hd. unfold tslots. rewrite !elem_of_app. unfold lslot. intros [Hin|[Hin|Hin]]; [..|by apply (Hp 1 _ Hd)];
    case_match; apply list_elem_of_In in Hin; cbn in Hin; lia.
Qed.

Lemma w_append_spec depth o w l more : 1 <= depth -> wrep depth w l more -> length (l ++ more) < 2 ^ depth ->
  exists w', w_append depth o w = Some w' /\ wrep depth w' l (more ++ [o]) /\ w_tree w' = w_tree w.
Proof.
  intros Hd Hw Hl. rewrite length_app in Hl.
  destruct Hw as [t l q ds ds' more Hr Hs Hb|t l q ds d ds' more c cur Hr Hs Hb Hc Hd1 Hne Hcur].
  - assert (1 + length (t_parents t) <= depth) as Hsz by (apply (rep_depth depth t l); [done..|lia]).
    destruct ds' as [|d ds'].
    { rewrite app_nil_r in Hs. rewrite <- Hs in Hb. pose proof (tblocks_sum _ _ _ _ _ Hsz Hr Hb). lia. }
    assert (tslots depth t !! length q = Some d) as Hd'.
    { rewrite Hs, (blocks_length _ _ _ Hb). by apply list_lookup_middle. }
    pose proof (proj1 (tslots_next depth (length q) t Hsz) (lookup_lt_Some _ _ _ Hd')) as Hn.
    rewrite Hd' in Hn. injection Hn as En.
    pose proof (slot_small depth t d Hsz ltac:(by eapply list_elem_of_lookup_2)) as Hlt.
    unfold w_append. cbn [w_cursor w_filled w_tree]. rewrite <- En, (proj2 (Nat.leb_gt _ _) Hlt).
    destruct (Nat.eqb_spec d 0) as [->|Hd0].
    + eexists. split_and!; [done| |done]. apply (wrep_idle depth t l _ (ds ++ [0]) ds'); [done| |].
      * by rewrite <- app_assoc.
      * by apply (blocks_snoc q ds more 0 [o]).
    + destruct (append_spec depth o newTree [] Hd (rep_empty) ltac:(cbn; pose proof (Nat.pow_nonzero 2 depth); lia))
        as (c&->&Hrc). cbn [mbind option_bind]. eexists. split_and!; [done| |done].
      apply (wrep_cursor depth t l q ds d ds' more c [o]); try done; [lia|]. cbn.
      pose proof (Nat.pow_le_mono_r 2 1 d). cbn in *. lia.
  - assert (1 + length (t_parents t) <= depth) as Hsz by (apply (rep_depth depth t l); [done..|lia]).
    assert (d < depth) as Hlt.
    { apply (slot_small depth t d Hsz). rewrite Hs. apply elem_of_app. right. by left. }
    pose proof (Nat.pow_lt_mono_r 2 _ _ ltac:(lia) Hlt) as Hpow.
    destruct (append_spec depth o c cur Hd Hc ltac:(lia)) as (c'&E&Hc').
    unfold w_append. cbn [w_cursor w_filled w_tree]. rewrite E. cbn [mbind option_bind].
    assert (length (cur ++ [o]) <= 2 ^ d) as Hle by (rewrite length_app; cbn; lia).
    rewrite <- app_assoc. destruct (is_complete d c') eqn:Ec.
    + apply (is_complete_spec d c' _ Hd1 Hc' Hle) in Ec. eexists. split_and!; [done| |done].
      rewrite (root_spec d [] c' (cur ++ [o]) []); [|by apply (rep_depth d c' (cur ++ [o])); [..|lia]|done|constructor].
      rewrite app_nil_r. apply (wrep_idle depth t l _ (ds ++ [d]) ds'); [done| |].
      * by rewrite <- app_assoc.
      * by apply blocks_snoc.
    + eexists. split_and!; [done| |done]. apply (wrep_cursor depth t l q ds d ds' more c' (cur ++ [o])); try done.
      * by destruct cur.
      * assert (length (cur ++ [o]) <> 2 ^ d); [|lia]. intros Hx.
        apply (is_complete_spec d c' _ Hd1 Hc' Hle) in Hx. congruence.
Qed.

Lemma w_appends_spec depth os w l more : 1 <= depth -> wrep depth w l more -> length (l ++ more ++ os) <= 2 ^ depth ->
  exists w', w_appends depth os w = Some w' /\ wrep depth w' l (more ++ os) /\ w_tree w' = w_tree w.
Proof.
  intros Hd. revert w more. induction os as [|o os IH]; intros w more Hw Hl; cbn [w_appends].
  { exists w. by rewrite app_nil_r. }
  rewrite !length_app in Hl. cbn [length] in Hl.
  destruct (w_append_spec depth o w l more Hd Hw) as (w1&->&Hw1&Ht1); [rewrite length_app; lia|].
  cbn [mbind option_bind]. destruct (IH w1 (more ++ [o]) Hw1) as (w'&E&Hw'&Ht').
  { rewrite !length_app. cbn [length]. lia. }
  exists w'. split_and!; [done|by rewrite <- app_assoc in Hw'|congruence].
Qed.

Lemma witness_wrep depth t l : rep t l -> wrep depth (witness t) l [].
Proof. intros Hr. apply (wrep_idle depth t l [] [] (tslots depth t)); [done|done|constructor]. Qed.

(** ** Paths *)

Lemma parents_path_climb depth d ps r q : climb r (parents_path depth d ps q) = parents_root depth d ps r q.
Proof.
  revert d r q. induction ps as [|[p|] ps IH]; intros d r q; cbn [parents_path parents_root].
  - generalize (depth - d) as n. intros n. revert d r q. induction n as [|n IH]; intros d r q; [done|]. cbn [rest_root].
    destruct (next d q). apply IH.
  - apply IH.
  - destruct (next d q). apply IH.
Qed.

Lemma parents_path_position depth d ps l q : prep d ps l -> 2 ^ d * position (parents_path depth d ps q) = length l.
Proof.
  intros Hp. revert q. induction Hp as [d|d ps l Hp IH|d ps l1 l2 Hp IH Hl]; intros q; cbn [parents_path].
  - assert (forall n d q, position ((fix rest n d q := match n with O => []
      | S n' => let '(f, q') := next d q in (f, false) :: rest n' (S d) q' end) n d q) = 0) as E.
    { clear. induction n as [|n IH]; intros d q; [done|]. destruct (next d q). cbn [position]. by rewrite IH. }
    rewrite E. cbn. lia.
  - destruct (next d q) as [f q']. cbn [position]. rewrite <- (IH q'). cbn [Nat.pow]. lia.
  - cbn [position]. rewrite length_app, <- (IH q). cbn [Nat.pow]. lia.
Qed.

Lemma parents_path_length depth d ps q : d + length ps <= depth -> length (parents_path depth d ps q) = depth - d.
Proof.
  revert d q. induction ps as [|[p|] ps IH]; intros d q Hd; cbn [parents_path length] in *.
  - generalize (depth - d) as n. clear Hd. intros n. revert d q. induction n as [|n IH]; intros d q; [done|].
    destruct (next d q). cbn [length]. by rewrite IH.
  - rewrite IH; lia.
  - destruct (next d q). cbn [length]. rewrite IH; lia.
Qed.

(** The path of the last leaf: it has the height of the tree, leads from the leaf
    to the root and tells the position of the leaf. *)
Lemma path_spec depth q t l a : 1 + length (t_parents t) <= depth -> rep t (l ++ [a]) ->
  exists p, path depth q t = Some p /\ length p = depth /\ climb a p = root depth q t /\ position p = length l.
Proof.
  intros Hd Hr. inversion Hr as [E|x ps l0 Hp Hc Et E|x y ps l0 Hp Hc Et E]; subst; cbn [t_parents] in Hd.
  - by destruct l.
  - apply app_inj_tail in E as [-> ->]. unfold path, root. cbn [t_left t_right t_parents filled_or].
    destruct (next 0 q) as [f q']. eexists. split; [done|]. cbn [length climb position]. split_and!.
    + rewrite parents_path_length by lia. lia.
    + apply parents_path_climb.
    + pose proof (parents_path_position depth 1 ps l q' Hp). cbn in *. lia.
  - assert (l0 ++ [x; y] = (l0 ++ [x]) ++ [y]) as E1 by by rewrite <- app_assoc.
    rewrite E1 in E. apply app_inj_tail in E as [<- ->]. unfold path, root. cbn [t_left t_right t_parents filled_or].
    eexists. split; [done|]. cbn [length climb position]. split_and!.
    + rewrite parents_path_length by lia. lia.
    + apply parents_path_climb.
    + pose proof (parents_path_position depth 1 ps l0 q Hp). rewrite length_app. cbn in *. lia.
Qed.

(** ** A root binds its leaves *)

Section Binding.
Context (collision_free : forall a b c d, combine a b = combine c d -> a = c /\ b = d).

Lemma climb_snoc leaf p s b : climb leaf (p ++ [(s, b)]) = if b then combine s (climb leaf p) else combine (climb leaf p) s.
Proof using Type. revert leaf. induction p as [|[s' []] p IH]; intros leaf; cbn; [by destruct b|apply IH..]. Qed.

Lemma position_snoc p s b : position (p ++ [(s, b)]) = position p + (if b then 2 ^ length p else 0).
Proof using Type.
  induction p as [|[s' b'] p IH]; cbn [app position length Nat.pow]; [destruct b; cbn; lia|]. rewrite IH. destruct b; lia.
Qed.

Lemma position_lt p : position p < 2 ^ length p.
Proof using Type. induction p as [|[s []] p IH]; cbn [position length Nat.pow]; lia. Qed.

(** A path that leads to the root of some leaves starts at one of them. *)
Lemma climb_sound leaf p l : climb leaf p = mroot (length p) l -> default null (l !! position p) = leaf.
Proof using collision_free.
  revert l. induction p as [|[s b] p IH] using rev_ind; intros l; [by destruct l|].
  pose proof (position_lt p) as Hlt.
  rewrite climb_snoc, position_snoc, length_app, Nat.add_1_r. cbn [mroot]. destruct b.
  - intros [_ E]%collision_free. apply IH in E. rewrite lookup_drop in E. by rewrite Nat.add_comm.
  - intros [E _]%collision_free. apply IH in E. rewrite lookup_take_lt in E by done. by rewrite Nat.add_0_r.
Qed.

Lemma mroot_inj d l1 l2 : mroot d l1 = mroot d l2 -> forall i, i < 2 ^ d -> default null (l1 !! i) = default null (l2 !! i).
Proof using collision_free.
  revert l1 l2. induction d as [|d IH]; intros l1 l2 E i Hi; cbn [mroot Nat.pow] in *.
  - assert (i = 0) as -> by lia. by destruct l1, l2.
  - apply collision_free in E as [E1 E2]. destruct (Nat.lt_ge_cases i (2 ^ d)) as [Hlt|Hge].
    + specialize (IH _ _ E1 i Hlt). by rewrite !lookup_take_lt in IH.
    + specialize (IH _ _ E2 (i - 2 ^ d) ltac:(lia)). rewrite !lookup_drop in IH.
      by replace (2 ^ d + (i - 2 ^ d)) with i in IH by lia.
Qed.
End Binding.

(** ** The loop of the withdrawal proof *)

(** [genWithdrawproof1] builds a witness for the commitment [cmtS] over the
    commitments of a block; a tree that is full makes it throw. *)
Fixpoint witnessLoop `{EqDecision H} (depth : nat) (cmtS : H) (cs : list H) (find_cmtS : bool)
    (tree : Tree) (wit : Witness) : option Witness :=
  match cs with
  | [] => Some wit
  | c :: cs' =>
      wt ← (if find_cmtS then w ← w_append depth c wit; Some (tree, w)
            else t ← append depth c tree; Some (t, wit));
      if decide (c = cmtS) then witnessLoop depth cmtS cs' true wt.1 (witness wt.1)
      else witnessLoop depth cmtS cs' find_cmtS wt.1 wt.2
  end.

Definition withdrawWitness `{EqDecision H} (depth : nat) (cmtS : H) (cs : list H) : option Witness :=
  witnessLoop depth cmtS cs false newTree (witness newTree).

Section Withdraw.
Context `{EqDecision H} (depth : nat) (cmtS : H).
Context (depth_pos : 1 <= depth).

(** Before the commitment the tree grows, after it the witness. *)
Lemma loop_before cs rest t l w : cmtS ∉ cs -> rep t l -> length (l ++ cs) <= 2 ^ depth ->
  exists t', witnessLoop depth cmtS (cs ++ rest) false t w = witnessLoop depth cmtS rest false t' w /\ rep t' (l ++ cs).
Proof using depth_pos.
  revert t l. induction cs as [|c cs IH]; intros t l Hn Hr Hl.
  { exists t. by rewrite app_nil_r. }
  apply not_elem_of_cons in Hn as [Hc Hn]. rewrite length_app in Hl. cbn [length] in Hl.
  destruct (append_spec depth c t l depth_pos Hr ltac:(lia)) as (t1&E&Hr1). cbn [app witnessLoop].
  rewrite E. cbn [mbind option_bind fst snd]. rewrite decide_False by done.
  destruct (IH t1 (l ++ [c]) Hn Hr1) as (t'&Et&Hr'); [rewrite !length_app; cbn [length]; lia|].
  exists t'. by rewrite <- app_assoc in Hr'.
Qed.

Lemma loop_found cs rest t w : cmtS ∉ cs ->
  witnessLoop depth cmtS (cs ++ rest) true t w = (w' ← w_appends depth cs w; witnessLoop depth cmtS rest true t w').
Proof using Type.
  revert w. induction cs as [|c cs IH]; intros w Hn; [done|].
  apply not_elem_of_cons in Hn as [Hc Hn]. cbn [app witnessLoop w_appends].
  destruct (w_append depth c w) as [w1|]; [|done]. cbn [mbind option_bind fst snd].
  rewrite decide_False by done. by apply IH.
Qed.

(** The commitment itself starts the witness. *)
Lemma loop_at l rest : cmtS ∉ l -> length l < 2 ^ depth ->
  exists t, withdrawWitness depth cmtS (l ++ cmtS :: rest) = witnessLoop depth cmtS rest true t (witness t) /\
    rep t (l ++ [cmtS]).
Proof using depth_pos.
  intros Hn Hl. destruct (loop_before l (cmtS :: rest) newTree [] (witness newTree) Hn rep_empty) as (t&E&Hr); [cbn; lia|].
  destruct (append_spec depth cmtS t l depth_pos Hr Hl) as (t1&Ea&Hr1). exists t1. split; [|done].
  unfold withdrawWitness. rewrite E. cbn [witnessLoop]. rewrite Ea. cbn [mbind option_bind fst snd].
  by rewrite decide_True by done.
Qed.

(** What the loop returns once the rest of the commitments is appended. *)
Lemma found_spec t l more : rep t (l ++ [cmtS]) -> length (l ++ cmtS :: more) <= 2 ^ depth ->
  exists w p, w_appends depth more (witness t) = Some w /\ w_root depth w = mroot depth (l ++ cmtS :: more) /\
    w_path depth w = Some p /\ length p = depth /\ climb cmtS p = mroot depth (l ++ cmtS :: more) /\
    position p = length l.
Proof using depth_pos.
  intros Hr Hl. assert (l ++ cmtS :: more = (l ++ [cmtS]) ++ more) as El by by rewrite <- app_assoc.
  rewrite El in *.
  destruct (w_appends_spec depth more (witness t) (l ++ [cmtS]) [] depth_pos) as (w&E&Hw&Ht);
    [by apply witness_wrep|by rewrite app_nil_l|].
  assert (1 + length (t_parents t) <= depth) as Hsz.
  { apply (rep_depth depth t (l ++ [cmtS])); [done..|]. rewrite length_app in Hl. lia. }
  assert (w_tree w = t) as Hwt by done. rewrite <- Hwt in Hsz, Hr.
  destruct (path_spec depth (partial_path w) (w_tree w) l cmtS Hsz Hr) as (p&Ep&Hlp&Hcl&Hpos).
  pose proof (w_root_spec depth w (l ++ [cmtS]) more Hsz Hw) as Hroot.
  exists w, p. split_and!; try done. rewrite Hcl. exact Hroot.
Qed.
End Withdraw.
End Tree.

(** ** The roots of a block *)

(** The compression function of the tree, which is not modelled, on the bytes of a
    [uint256]; [uint256S] and [ToString] turn the bytes around. *)
Class MerkleEnv := { shaCombine : string -> string -> string }.

Definition rev_bytes (s : string) : string := String.string_of_list_ascii (rev (String.list_ascii_of_string s)).

Definition TxMerkleNODES : nat := 16.
Definition ZkfundsMerkleNODES : nat := 16.
Definition INCREMENTAL_MERKLE_TREE_DEPTH : nat := 4.
Definition emptynode : string := noHeader.

Section Roots.
Context `{ME : MerkleEnv}.

(** [genRoot] of [withdrawcgo.cpp], which [GenRT] calls; [None] when the tree is
    full and the C++ code throws. *)
Definition genRoot (cmtarray : list string) : option string :=
  t ← appends shaCombine INCREMENTAL_MERKLE_TREE_DEPTH (map rev_bytes cmtarray) newTree;
  Some (rev_bytes (root shaCombine (zeros 32) INCREMENTAL_MERKLE_TREE_DEPTH [] t)).
Definition GenRT (CMTSForMerkle : list string) : option string := genRoot CMTSForMerkle.

(** [GenTxRoot] and [GenZKfundsRoot]; too many nodes have the zero root. *)
Definition GenTxRoot (nodes : list string) : option string :=
  if TxMerkleNODES <? length nodes then Some (zeros 32)
  else GenRT (nodes ++ replicate (TxMerkleNODES - length nodes) emptynode).
Definition GenZKfundsRoot (nodes : list string) : option string :=
  if ZkfundsMerkleNODES <? length nodes then Some (zeros 32)
  else GenRT (nodes ++ replicate (ZkfundsMerkleNODES - length nodes) emptynode).

(** [DeriveShaTx] and [DeriveShaZkfunds]. *)
Definition DeriveShaTx `{TxEnv} (txs : list Transaction) : option string :=
  hashes ← mapM ZKHashTx txs; GenTxRoot hashes.
Definition DeriveShaZkfunds (zkfunds : list string) : option string := GenZKfundsRoot zkfunds.

(** [ZKHashBlock], the hash of a header: of three of its fields. *)
Definition ZKHashBlock `{TxEnv} (TxHash Root RootCMTfd : string) : string :=
  zkHash (TxHash +:+ Root +:+ RootCMTfd).

Lemma rev_bytes_involutive s : rev_bytes (rev_bytes s) = s.
Proof.
  unfold rev_bytes. by rewrite String.list_ascii_of_string_of_list_ascii, rev_involutive,
    String.string_of_list_ascii_of_string.
Qed.

Lemma rev_bytes_inj a b : rev_bytes a = rev_bytes b -> a = b.
Proof. intros E. by rewrite <- (rev_bytes_involutive a), E, rev_bytes_involutive. Qed.

(** The sixteen leaves under a root. *)
Definition leaves (nodes : list string) : list string :=
  map rev_bytes (nodes ++ replicate (16 - length nodes) emptynode).

Lemma genRoot_spec nodes : length nodes <= 16 ->
  genRoot nodes = Some (rev_bytes (mroot shaCombine (zeros 32) 4 (map rev_bytes nodes))).
Proof.
  intros Hl. unfold genRoot, INCREMENTAL_MERKLE_TREE_DEPTH.
  destruct (appends_spec shaCombine (zeros 32) 4 (map rev_bytes nodes) newTree [] ltac:(lia) (rep_empty _ _))
    as (t&->&Hr); [cbn [app]; rewrite length_map; done|].
  cbn [mbind option_bind]. do 2 f_equal. rewrite <- (app_nil_r (map rev_bytes nodes)) at 1.
  apply root_spec; [|by rewrite app_nil_l in Hr|constructor].
  apply (rep_depth shaCombine (zeros 32) 4 t _ ltac:(lia) Hr). cbn [app]. by rewrite length_map.
Qed.

Lemma GenTxRoot_spec nodes : length nodes <= 16 ->
  GenTxRoot nodes = Some (rev_bytes (mroot shaCombine (zeros 32) 4 (leaves nodes))).
Proof.
  intros Hl. unfold GenTxRoot, GenRT, TxMerkleNODES. rewrite (proj2 (Nat.ltb_ge _ _)) by done.
  apply genRoot_spec. rewrite length_app, length_replicate. lia.
Qed.

(** Nodes other than the padding can be read off their leaves. *)
Lemma leaves_inj a b : length a <= 16 -> length b <= 16 -> Forall (fun h => h <> emptynode) a ->
  Forall (fun h => h <> emptynode) b ->
  (forall i, i < 16 -> default (zeros 32) (leaves a !! i) = default (zeros 32) (leaves b !! i)) -> a = b.
Proof.
  assert (forall nodes i, length nodes <= 16 -> i < 16 ->
    leaves nodes !! i = Some (rev_bytes (default emptynode (nodes !! i)))) as Hget.
  { intros nodes i Hn Hi. unfold leaves. rewrite list_lookup_fmap. destruct (nodes !! i) as [h|] eqn:E.
    - by rewrite lookup_app_l_Some with (x := h).
    - apply lookup_ge_None in E. rewrite lookup_app_r, lookup_replicate_2 by lia. done. }
  intros Ha Hb Fa Fb Hall. apply list_eq. intros i. destruct (Nat.lt_ge_cases i 16) as [Hi|Hi].
  2:{ by rewrite !lookup_ge_None_2 by lia. }
  specialize (Hall i Hi). rewrite !Hget in Hall by done. cbn in Hall. apply rev_bytes_inj in Hall.
  destruct (a !! i) as [x|] eqn:Ex, (b !! i) as [y|] eqn:Ey; cbn in Hall; subst; try done.
  - by destruct (Forall_lookup_1 _ _ _ _ Fa Ex).
  - by destruct (Forall_lookup_1 _ _ _ _ Fb Ey).
Qed.
End Roots.

(** ** Theorems *)

(** C27: the incremental tree, which keeps one hash per level, computes the root of
    the complete binary tree over the leaves, padded with null hashes, and refuses
    the leaf after the last. *)
Theorem incremental_tree_is_merkle_tree {H} (combine : H -> H -> H) null depth l :
  1 <= depth -> length l <= 2 ^ depth ->
  exists t, appends combine depth l newTree = Some t /\
    root combine null depth [] t = mroot combine null depth l /\
    (length l = 2 ^ depth -> forall o, append combine depth o t = None).
Proof.
  intros Hd Hl. destruct (appends_spec combine null depth l newTree [] Hd (rep_empty _ _)) as (t&E&Hr); [done|].
  rewrite app_nil_l in Hr. exists t. split_and!; [done| |].
  - rewrite <- (app_nil_r l) at 1. apply root_spec; [|done|constructor]. by apply (rep_depth combine null depth t l).
  - intros Hf o. by apply (append_full combine null depth o t l).
Qed.

(** C26: for a commitment that occurs exactly once among commitments that fit the tree,
    the loop of the withdrawal proof returns a witness for the root of the tree over the
    commitments it is given, padded with the null leaf, and a path as long as the tree
    is deep that leads from the commitment to this root and tells its position.  (The
    root in the header is that of the tree padded to sixteen leaves with [emptynode],
    another one unless the block has sixteen funds; a commitment that occurs twice has
    the root of a shorter block.) *)
Theorem withdraw_path_correct {H} `{EqDecision H} (combine : H -> H -> H) null depth cmtS l more :
  1 <= depth -> length (l ++ cmtS :: more) <= 2 ^ depth -> cmtS ∉ l -> cmtS ∉ more ->
  exists w p, withdrawWitness combine null depth cmtS (l ++ cmtS :: more) = Some w /\
    w_root combine null depth w = mroot combine null depth (l ++ cmtS :: more) /\
    w_path combine null depth w = Some p /\ length p = depth /\
    climb combine cmtS p = mroot combine null depth (l ++ cmtS :: more) /\ position p = length l.
Proof.
  intros Hd Hl Hn1 Hn2. destruct (loop_at combine null depth cmtS Hd l more Hn1) as (t&E&Hr).
  { rewrite length_app in Hl. cbn [length] in Hl. lia. }
  destruct (found_spec combine null depth cmtS Hd t l more Hr Hl) as (w&p&Ew&Hrest). exists w, p. split; [|done].
  rewrite E. pose proof (loop_found combine null depth cmtS more [] t (witness t) Hn2) as Ef.
  rewrite app_nil_r in Ef. by rewrite Ef, Ew.
Qed.

(** If the commitment occurs a second time, the witness starts over from the
    tree that ends at its first occurrence: the root is that of a block without the
    commitments after the first up to the second occurrence. *)
Theorem withdraw_duplicate_loses_leaves {H} `{EqDecision H} (combine : H -> H -> H) null depth cmtS l mid more :
  1 <= depth -> length (l ++ cmtS :: mid ++ cmtS :: more) <= 2 ^ depth -> cmtS ∉ l -> cmtS ∉ mid -> cmtS ∉ more ->
  exists w, withdrawWitness combine null depth cmtS (l ++ cmtS :: mid ++ cmtS :: more) = Some w /\
    w_root combine null depth w = mroot combine null depth (l ++ cmtS :: more).
Proof.
  intros Hd Hl Hn1 Hn2 Hn3. rewrite !length_app in Hl. cbn [length] in Hl. rewrite length_app in Hl. cbn [length] in Hl.
  destruct (loop_at combine null depth cmtS Hd l (mid ++ cmtS :: more) Hn1) as (t&E&Hr); [lia|].
  destruct (found_spec combine null depth cmtS Hd t l more Hr) as (w&p&Ew&Hroot&_).
  { rewrite length_app. cbn [length]. lia. }
  exists w. split; [|done]. rewrite E, loop_found by done.
  destruct (w_appends_spec combine null depth (mid ++ [cmtS]) (witness t) (l ++ [cmtS]) [] Hd) as (w1&E1&_).
  { by apply witness_wrep. }
  { rewrite !length_app. cbn [length]. lia. }
  assert (forall a b w0, w_appends combine null depth (a ++ b) w0
    = (w' ← w_appends combine null depth a w0; w_appends combine null depth b w')) as Happ.
  { intros a. induction a as [|x a IH]; intros b w0; [done|]. cbn [app w_appends].
    destruct (w_append combine null depth x w0); [|done]. apply IH. }
  rewrite Happ in E1. destruct (w_appends combine null depth mid (witness t)) as [w2|]; [|done].
  cbn [mbind option_bind w_appends] in E1 |- *. cbn [witnessLoop].
  destruct (w_append combine null depth cmtS w2) as [w3|]; [|done]. cbn [mbind option_bind fst snd].
  rewrite decide_True by done.
  pose proof (loop_found combine null depth cmtS more [] t (witness t) Hn3) as Ef. rewrite app_nil_r in Ef.
  by rewrite Ef, Ew.
Qed.

(** The transaction root binds the transactions' hashes: if the compression
    function has no collisions and no hash is the padding, two lists of at most
    sixteen transactions have the same root only if their hashes agree. *)
Theorem tx_root_binds_hashes `{MerkleEnv} `{TxEnv} (a b : list Transaction) (r : string) :
  (forall x y z w, shaCombine x y = shaCombine z w -> x = z /\ y = w) ->
  (length a <= 16)%nat -> (length b <= 16)%nat ->
  Forall (fun tx => ZKHashTx tx <> Some emptynode) a -> Forall (fun tx => ZKHashTx tx <> Some emptynode) b ->
  DeriveShaTx a = Some r -> DeriveShaTx b = Some r -> map ZKHashTx a = map ZKHashTx b.
Proof.
  intros Hcf Ha Hb Fa Fb. unfold DeriveShaTx.
  destruct (mapM ZKHashTx a) as [ha|] eqn:Ea, (mapM ZKHashTx b) as [hb|] eqn:Eb; try done. cbn [mbind option_bind].
  apply mapM_Some in Ea, Eb. pose proof (Forall2_length _ _ _ Ea) as La. pose proof (Forall2_length _ _ _ Eb) as Lb.
  rewrite !GenTxRoot_spec by lia. intros [= E1] [= E2]. rewrite <- E2 in E1. apply rev_bytes_inj in E1.
  assert (forall txs hs, Forall2 (fun tx h => ZKHashTx tx = Some h) txs hs ->
    Forall (fun tx => ZKHashTx tx <> Some emptynode) txs ->
    map ZKHashTx txs = map Some hs /\ Forall (fun h => h <> emptynode) hs) as Hmap.
  { intros txs hs Hf. induction Hf as [|tx h txs hs Eh Hf IH]; intros Fx; [done|]. apply Forall_cons in Fx as [Hx Fx].
    destruct (IH Fx) as [Em Fh]. cbn [map]. rewrite Em, Eh. split; [done|]. constructor; [|done]. intros ->. by destruct Hx. }
  destruct (Hmap a ha Ea Fa) as [-> Fha], (Hmap b hb Eb Fb) as [-> Fhb].
  f_equal. apply leaves_inj; [lia|lia|done|done|]. exact (mroot_inj shaCombine (zeros 32) Hcf 4 _ _ E1).
Qed.

(** All lists of more than sixteen transactions with senders have the zero
    root: a block with them does not bind its transactions. *)
Theorem large_blocks_share_a_root `{MerkleEnv} `{TxEnv} (txs : list Transaction) :
  (16 < length txs)%nat -> Forall (fun tx => is_Some (tx_Sender tx)) txs -> DeriveShaTx txs = Some (zeros 32).
Proof.
  intros Hl Hs. unfold DeriveShaTx. destruct (mapM ZKHashTx txs) as [hs|] eqn:E.
  - apply mapM_Some, Forall2_length in E. cbn [mbind option_bind]. unfold GenTxRoot, TxMerkleNODES.
    by rewrite (proj2 (Nat.ltb_lt _ _)) by lia.
  - apply mapM_None in E. apply Exists_exists in E as (tx&Hin&E). rewrite Forall_forall in Hs.
    destruct (Hs tx Hin) as [s Es]. unfold ZKHashTx in E. by rewrite Es in E.
Qed.

(** ** Concrete inputs *)

Local Open Scope string_scope.

(** A compression function without collisions: the first argument's length in
    unary, a bar, and both arguments. *)
Definition one : Ascii.ascii := Eval compute in Ascii.ascii_of_nat 49.
Definition pairing (a b : string) : string :=
  repeat_byte one (String.length a) +:+ "|" +:+ a +:+ b.
Definition pairingEnv : MerkleEnv := {| shaCombine := pairing |}.

Lemma append_same_length a b c d : String.length a = String.length c -> a +:+ b = c +:+ d -> a = c /\ b = d.
Proof.
  revert c. induction a as [|x a IH]; intros [|y c]; cbn; try done. intros [= Hl] [= -> E].
  destruct (IH c Hl E) as [-> ->]. done.
Qed.

Lemma unary_inj n m x y :
  repeat_byte one n +:+ "|" +:+ x = repeat_byte one m +:+ "|" +:+ y -> n = m /\ x = y.
Proof.
  revert m. induction n as [|n IH]; intros [|m]; cbn; try done.
  - intros [= E]. split; [done|exact E].
  - intros [= E]. destruct (IH m E) as [-> ->]. done.
Qed.

Lemma pairing_inj a b c d : pairing a b = pairing c d -> a = c /\ b = d.
Proof. unfold pairing. intros [El E]%unary_inj. by apply append_same_length. Qed.

(** Hashes that are the hashed bytes themselves. *)
Definition plainEnv : TxEnv := {|
  rlpHash := fun _ => "";
  zkHash := fun s => s;
  Ecrecover := fun _ _ => None;
  hibeVerify := fun _ _ _ _ => true;
  txSize := fun _ => 0%Z |}.

Definition plainTx (sender : string) : Transaction :=
  (newTransaction 0 None 0 0 0 "") <| tx_Sender := Some sender |>.

Lemma incremental_tree_is_merkle_tree_witness :
  exists t, appends pairing 4 ["a"; "b"; "c"] newTree = Some t /\
    root pairing "0" 4 [] t = mroot pairing "0" 4 ["a"; "b"; "c"].
Proof.
  destruct (incremental_tree_is_merkle_tree pairing "0" 4 ["a"; "b"; "c"]) as (t&E&R&_);
    [repeat constructor|cbn; lia|]. exists t. split; [exact E|exact R].
Defined.

Lemma withdraw_path_correct_witness :
  exists w, withdrawWitness pairing "0" 4 "b" ["a"; "b"; "c"; "d"] = Some w /\
    w_root pairing "0" 4 w = mroot pairing "0" 4 ["a"; "b"; "c"; "d"].
Proof.
  destruct (withdraw_path_correct pairing "0" 4 "b" ["a"] ["c"; "d"]) as (w&p&E&R&_);
    [repeat constructor|cbn; lia|set_solver|set_solver|]. exists w. split; [exact E|exact R].
Defined.

Lemma withdraw_duplicate_loses_leaves_witness :
  exists w, withdrawWitness pairing "0" 4 "b" ["a"; "b"; "x"; "b"; "c"] = Some w /\
    w_root pairing "0" 4 w = mroot pairing "0" 4 ["a"; "b"; "c"] /\
    w_root pairing "0" 4 w <> mroot pairing "0" 4 ["a"; "b"; "x"; "b"; "c"].
Proof.
  destruct (withdraw_duplicate_loses_leaves pairing "0" 4 "b" ["a"] ["x"] ["c"]) as (w&E&R);
    [repeat constructor|cbn; lia|set_solver|set_solver|set_solver|]. exists w.
  split; [exact E|split; [exact R|]]. rewrite R. by vm_compute.
Defined.

Lemma tx_root_binds_hashes_witness :
  map (@ZKHashTx plainEnv) [plainTx "alice"; plainTx "bob"] = map (@ZKHashTx plainEnv) [plainTx "alice"; plainTx "bob"].
Proof.
  destruct (@DeriveShaTx pairingEnv plainEnv [plainTx "alice"; plainTx "bob"]) as [r|] eqn:E; [|by vm_compute in E].
  apply (@tx_root_binds_hashes pairingEnv plainEnv _ _ r);
    [apply pairing_inj|cbn; lia|cbn; lia| | |exact E|exact E]; repeat constructor; by vm_compute.
Defined.

Lemma large_blocks_share_a_root_witness :
  @DeriveShaTx pairingEnv plainEnv (replicate 17 (plainTx "alice")) = Some (zeros 32).
Proof. apply (@large_blocks_share_a_root pairingEnv plainEnv); [cbn; lia|repeat constructor; by eexists]. Defined.
