(* ===== verification/Header.v ===== *)
(** * Header: block headers, their hash and their seal

    Models the header of [core/types/block.go], its hash, and the part of
    [consensus/pbft/pbft.go] that signs headers: [sigHash] and [ecrecover] with its
    cache of recovered signers. *)
From S2P Require Import Prelude.
From S2P Require Import Messages.
From S2P Require Import Tx.
From S2P Require Import Merkle.

(** Addresses and hashes are byte strings; Go compares them bytewise. *)
Definition Address := string.

Record Header := mkHeader {
  hd_ParentHash : string;
  hd_UncleHash : string;
  hd_Coinbase : Address;
  hd_Root : string;
  hd_RootCMTfd : string;
  hd_ZKFunds : list string;
  hd_TxHash : string;
  hd_ReceiptHash : string;
  hd_Bloom : string;
  hd_Difficulty : option Z;      (* [*big.Int]s; numbers fit in 64 bits *)
  hd_Number : option Z;
  hd_GasLimit : Z;
  hd_GasUsed : Z;
  hd_Time : Z;
  hd_Extra : list Ascii.ascii;
  hd_MixDigest : string;
  hd_Nonce : string;
}.
#[export] Instance Header_eta : Eta Header := fun r =>
  mkHeader (hd_ParentHash r) (hd_UncleHash r) (hd_Coinbase r) (hd_Root r) (hd_RootCMTfd r) (hd_ZKFunds r)
    (hd_TxHash r) (hd_ReceiptHash r) (hd_Bloom r) (hd_Difficulty r) (hd_Number r) (hd_GasLimit r)
    (hd_GasUsed r) (hd_Time r) (hd_Extra r) (hd_MixDigest r) (hd_Nonce r).

(** [header.Number.Uint64()]. *)
Definition hnum (h : Header) : Z := u64 (default 0 (hd_Number h)).

Inductive verr :=
| errUnknownBlock | errInvalidCheckpointBeneficiary | errInvalidVote | errInvalidCheckpointVote
| errMissingVanity | errMissingSignature | errExtraSigners | errInvalidCheckpointSigners
| errInvalidMixDigest | errInvalidUncleHash | errInvalidDifficulty | ErrInvalidTimestamp
| errInvalidVotingChain | errUnauthorized | ErrFutureBlock | ErrUnknownAncestor | errRecover
| errNotVP | ErrNotPrimary | errSign | errUnclesNotAllowed.

(** What is not modelled: Keccak, and the JSON of the packages that store. *)
Class HashEnv := { Keccak256 : string -> string }.

Definition extraVanity : nat := 32.
Definition extraSeal : nat := 65.

(** The bytes of a slice as a string. *)
Definition bytesOf (l : list Ascii.ascii) : string := String.string_of_list_ascii l.

(** A Go slice of an extra-data field: [Extra[:len-65]] and [Extra[len-65:]]. *)
Definition unsealed (extra : list Ascii.ascii) : list Ascii.ascii := take (length extra - extraSeal) extra.
Definition sealOf (extra : list Ascii.ascii) : string := bytesOf (drop (length extra - extraSeal) extra).

Section Seals.
Context `{TE : TxEnv} `{HA : HashEnv}.

(** [Header.Hash]. *)
Definition hdr_hash (h : Header) : string := ZKHashBlock (hd_TxHash h) (hd_Root h) (hd_RootCMTfd h).

(** [sigHash] of a header; it panics if the extra data holds no seal. *)
Definition sigHash (h : Header) : option string :=
  if (length (hd_Extra h) <? extraSeal)%nat then None
  else Some (rlpHash
    [RBytes (hd_ParentHash h); RBytes (hd_UncleHash h); RBytes (hd_Coinbase h); RBytes (hd_Root h);
     RBytes (hd_TxHash h); RBytes (hd_ReceiptHash h); RBytes (hd_Bloom h);
     RInt (default 0 (hd_Difficulty h)); RInt (default 0 (hd_Number h)); RInt (hd_GasLimit h);
     RInt (hd_GasUsed h); RInt (hd_Time h); RBytes (bytesOf (unsealed (hd_Extra h)));
     RBytes (hd_MixDigest h); RBytes (hd_Nonce h)]).

(** The address of a public key. *)
Definition pubkeyAddress (pub : string) : Address := copyAddress (drop_bytes 12 (Keccak256 (drop_bytes 1 pub))).

(** [ecrecover] without its cache. *)
Definition recoverSeal (h : Header) : verr + Address :=
  match sigHash h with
  | None => inl errMissingSignature
  | Some hash =>
      match Ecrecover hash (sealOf (hd_Extra h)) with
      | None => inl errRecover
      | Some pub => inr (pubkeyAddress pub)
      end
  end.

(** The cache of signers by the hash of the header, of which nothing is evicted
    here; the theorems hold for every content. *)
Definition Signatures : Type := gmap string Address.

(** [ecrecover]. *)
Definition ecrecover (h : Header) : M Signatures (verr + Address) :=
  sigcache <- get ;;
  match sigcache !! hdr_hash h with
  | Some address => ret (inr address)
  | None =>
      match recoverSeal h with
      | inl e => ret (inl e)
      | inr signer => modify (<[hdr_hash h := signer]>) ;; ret (inr signer)
      end
  end.

(** ** What the seal covers *)

(** The cache holds signers of headers with the hash they are found under. *)
Definition sealed_alike (hash : string) (signer : Address) : Prop :=
  exists h, hdr_hash h = hash /\ recoverSeal h = inr signer.
Definition signatures_ok (c : Signatures) : Prop := map_Forall sealed_alike c.

Lemma ecrecover_runs h c : exists r c', ecrecover h c = (Ret r, c') /\
  (signatures_ok c -> signatures_ok c' /\ forall a, r = inr a -> sealed_alike (hdr_hash h) a).
Proof.
  unfold ecrecover. rewrite bind_get. destruct (c !! hdr_hash h) as [a|] eqn:Ec.
  { exists (inr a), c. split; [done|]. intros Hok. split; [done|]. intros ? [= <-]. by apply (Hok _ _ Ec). }
  destruct (recoverSeal h) as [e|a] eqn:Er; [by exists (inl e), c|].
  eexists _, _. split; [done|]. intros Hok.
  assert (sealed_alike (hdr_hash h) a) as Ha by by exists h.
  split; [by apply map_Forall_insert_2|]. by intros ? [= <-].
Qed.

(** A signer that was recovered is in the cache. *)
Lemma ecrecover_cached h c a c' : ecrecover h c = (Ret (inr a), c') -> c' !! hdr_hash h = Some a.
Proof.
  unfold ecrecover. rewrite bind_get. destruct (c !! hdr_hash h) as [x|] eqn:E; [by intros [= <- <-]|].
  destruct (recoverSeal h) as [e|x]; [done|]. rewrite bind_modify. intros [= <- <-]. apply lookup_insert_eq.
Qed.

Lemma ecrecover_known h c a : c !! hdr_hash h = Some a -> ecrecover h c = (Ret (inr a), c).
Proof. intros Ec. unfold ecrecover. by rewrite bind_get, Ec. Qed.

Lemma ecrecover_fresh h c a : c !! hdr_hash h = None -> recoverSeal h = inr a ->
  ecrecover h c = (Ret (inr a), <[hdr_hash h := a]> c).
Proof. intros Ec Er. unfold ecrecover. by rewrite bind_get, Ec, Er. Qed.

(** The seal is over neither the root nor the list of fund commitments. *)
Lemma seal_without_funds h root funds :
  recoverSeal (h <| hd_RootCMTfd := root |> <| hd_ZKFunds := funds |>) = recoverSeal h.
Proof. done. Qed.

(** [copy(header.Extra[len(header.Extra)-extraSeal:], sig)]. *)
Definition copyOver (dst src : list Ascii.ascii) : list Ascii.ascii := take (length dst) src ++ drop (length src) dst.
Definition withSeal (h : Header) (sig : string) : Header :=
  let e := hd_Extra h in
  h <| hd_Extra := unsealed e ++ copyOver (drop (length e - extraSeal) e) (String.list_ascii_of_string sig) |>.

Lemma withSeal_extra h sig : (extraSeal <= length (hd_Extra h))%nat -> String.length sig = extraSeal ->
  length (hd_Extra (withSeal h sig)) = length (hd_Extra h) /\
  unsealed (hd_Extra (withSeal h sig)) = unsealed (hd_Extra h) /\ sealOf (hd_Extra (withSeal h sig)) = sig.
Proof.
  intros Hl Hs. set (e := hd_Extra h) in *.
  assert (length (String.list_ascii_of_string sig) = extraSeal) as Hsl.
  { rewrite <- Hs. clear. induction sig; cbn; congruence. }
  assert (hd_Extra (withSeal h sig) = unsealed e ++ String.list_ascii_of_string sig) as ->.
  { cbn [withSeal]. change (hd_Extra (withSeal h sig)) with
      (unsealed e ++ copyOver (drop (length e - extraSeal) e) (String.list_ascii_of_string sig)).
    unfold copyOver. rewrite Hsl, length_drop. replace (length e - (length e - extraSeal))%nat with extraSeal by lia.
    rewrite drop_drop, take_ge, (drop_ge e) by (rewrite ?Hsl; lia). by rewrite app_nil_r. }
  assert (length (unsealed e) = length e - extraSeal)%nat as Hu by (unfold unsealed; rewrite length_take; lia).
  assert (length (unsealed e ++ String.list_ascii_of_string sig) = length e) as Hlen by (rewrite length_app; lia).
  split_and!; [done|..].
  - unfold unsealed at 1. rewrite Hlen, <- Hu. by rewrite take_app_length.
  - unfold sealOf, bytesOf. rewrite Hlen, <- Hu, drop_app_length. apply String.string_of_list_ascii_of_string.
Qed.

Lemma sigHash_withSeal h sig : (extraSeal <= length (hd_Extra h))%nat -> String.length sig = extraSeal ->
  sigHash (withSeal h sig) = sigHash h.
Proof.
  intros Hl Hs. destruct (withSeal_extra h sig Hl Hs) as (El&Eu&_). unfold sigHash. rewrite El, Eu. done.
Qed.

Lemma recoverSeal_withSeal h sig hash pub : sigHash h = Some hash -> String.length sig = extraSeal ->
  Ecrecover hash sig = Some pub -> recoverSeal (withSeal h sig) = inr (pubkeyAddress pub).
Proof.
  intros Eh Hs Er. assert (extraSeal <= length (hd_Extra h))%nat as Hl.
  { unfold sigHash in Eh. destruct (_ <? _)%nat eqn:E; [done|]. by apply Nat.ltb_ge in E. }
  destruct (withSeal_extra h sig Hl Hs) as (_&_&Es).
  unfold recoverSeal. by rewrite sigHash_withSeal, Eh, Es, Er.
Qed.
End Seals.
