(* ===== verification/Snapshot.v ===== *)
(** * Snapshot: the authorised signers

    Models [consensus/pbft/snapshot.go]: the votes that change the set of signers,
    their tally, who may sign when, and the snapshots of the database. JSON is a
    parameter. *)
From S2P Require Import Prelude.
From S2P Require Import Messages.
From S2P Require Import Tx.
From S2P Require Import Merkle.
From S2P Require Import Header.

Definition checkpointInterval : Z := 1024.
Definition diffInTurn : Z := 2.
Definition diffNoTurn : Z := 1.

Fixpoint repeatByte (n : nat) (c : Ascii.ascii) : string :=
  match n with O => EmptyString | S n' => String c (repeatByte n' c) end.
Definition nonceAuthVote : string := repeatByte 8 (Ascii.ascii_of_nat 255).
Definition nonceDropVote : string := repeatByte 8 Ascii.zero.
Definition zeroAddr : Address := repeatByte 20 Ascii.zero.
Definition zeroHash : string := repeatByte 32 Ascii.zero.

Record Vote := mkVote {
  v_Signer : Address;
  v_Block : Z;
  v_Address : Address;
  v_Authorize : bool;
}.

Record Tally := mkTally { ta_Authorize : bool; ta_Votes : Z }.

Record Snapshot := mkSnapshot {
  s_Number : Z;
  s_Hash : string;
  s_Signers : gset Address;
  s_Votes : list Vote;
  s_Tally : gmap Address Tally;
}.

#[export] Instance Snapshot_eta : Eta Snapshot := fun r =>
  mkSnapshot (s_Number r) (s_Hash r) (s_Signers r) (s_Votes r) (s_Tally r).

(** [newSnapshot]. *)
Definition newSnapshot (number : Z) (hash : string) (signers : list Address) : Snapshot :=
  mkSnapshot number hash (list_to_set signers) [] ∅.

(** [validVote]. *)
Definition validVote (s : Snapshot) (address : Address) (authorize : bool) : bool :=
  let signer := bool_decide (address ∈ s_Signers s) in
  (signer && negb authorize) || (negb signer && authorize).

(** [cast]: whether the vote was counted, and the snapshot after it. *)
Definition cast (s : Snapshot) (address : Address) (authorize : bool) : bool * Snapshot :=
  if negb (validVote s address authorize) then (false, s)
  else match s_Tally s !! address with
       | Some _ => (false, s)
       | None => (true, s <| s_Tally ::= <[address := mkTally authorize 1]> |>)
       end.

(** [uncast]. *)
Definition uncast (s : Snapshot) (address : Address) (authorize : bool) : bool * Snapshot :=
  match s_Tally s !! address with
  | None => (false, s)
  | Some tally =>
      if negb (Bool.eqb (ta_Authorize tally) authorize) then (false, s)
      else (true, s <| s_Tally ::= delete address |>)
  end.

(** The first loop of [apply] over the votes: the previous vote of the signer on
    the same account is withdrawn; at most one. *)
Fixpoint discardPrevious (signer coinbase : Address) (seen rest : list Vote) (s : Snapshot) : Snapshot :=
  match rest with
  | [] => s
  | vote :: rest' =>
      if decide (v_Signer vote = signer /\ v_Address vote = coinbase)
      then (uncast s (v_Address vote) (v_Authorize vote)).2 <| s_Votes := seen ++ rest' |>
      else discardPrevious signer coinbase (seen ++ [vote]) rest' s
  end.

(** The loop that withdraws every vote of a deauthorised signer. *)
Fixpoint discardOfSigner (coinbase : Address) (seen rest : list Vote) (s : Snapshot) : Snapshot :=
  match rest with
  | [] => s <| s_Votes := seen |>
  | vote :: rest' =>
      if decide (v_Signer vote = coinbase)
      then discardOfSigner coinbase seen rest' (uncast s (v_Address vote) (v_Authorize vote)).2
      else discardOfSigner coinbase (seen ++ [vote]) rest' s
  end.

(** What is not modelled: the configuration of the engine, the hash of no uncles,
    and JSON. *)
Class HeaderEnv := {
  CalcUncleHash : list Header -> string;
  cfg_Epoch : Z;
  cfg_Period : Z;
  marshalSnapshot : Snapshot -> string;
  unmarshalSnapshot : string -> option Snapshot;
  snapshot_json s : unmarshalSnapshot (marshalSnapshot s) = Some s;
}.

Definition uncleHash `{HeaderEnv} : string := CalcUncleHash [].

(** [loadSnapshot] and [store], on the keys and values of the database. *)
Definition snapshotKey (hash : string) : string := "pbft-" +:+ hash.
Definition loadSnapshot `{HeaderEnv} (db : gmap string string) (hash : string) : option Snapshot :=
  db !! snapshotKey hash ≫= unmarshalSnapshot.
Definition store `{HeaderEnv} (s : Snapshot) (db : gmap string string) : gmap string string :=
  <[snapshotKey (s_Hash s) := marshalSnapshot s]> db.

Lemma snapshotKey_inj a b : snapshotKey a = snapshotKey b -> a = b.
Proof. intros E. by injection E. Qed.

(** What is stored is loaded, and nothing else changes. *)
Lemma load_store `{HeaderEnv} s db hash :
  loadSnapshot (store s db) hash = if decide (hash = s_Hash s) then Some s else loadSnapshot db hash.
Proof.
  unfold loadSnapshot, store. case_decide as E.
  - subst hash. rewrite lookup_insert_eq. apply snapshot_json.
  - rewrite lookup_insert_ne; [done|]. intros Ek%snapshotKey_inj. congruence.
Qed.

Section Apply.
Context `{TE : TxEnv} `{HA : HashEnv} `{HE : HeaderEnv}.

(** The vote a header's nonce stands for. *)
Definition nonceVote (h : Header) : option bool :=
  if decide (hd_Nonce h = nonceAuthVote) then Some true
  else if decide (hd_Nonce h = nonceDropVote) then Some false
  else None.

(** The update of the signers by a tally that has a vote. *)
Definition passVote (snap : Snapshot) (coinbase : Address) : Snapshot :=
  match s_Tally snap !! coinbase with
  | None => snap
  | Some tally =>
      let snap :=
        if ta_Authorize tally then snap <| s_Signers ::= fun S => {[coinbase]} ∪ S |>
        else let snap := snap <| s_Signers ::= fun S => S ∖ {[coinbase]} |> in
             discardOfSigner coinbase [] (s_Votes snap) snap in
      snap <| s_Votes ::= List.filter (fun v => negb (bool_decide (v_Address v = coinbase))) |>
           <| s_Tally ::= delete coinbase |>
  end.

(** The loop body of [apply] for one header: the votes are dropped at the start of
    an epoch, and the vote of the signer is counted. *)
Definition resetVotes (snap : Snapshot) (number : Z) : Snapshot :=
  if number mod cfg_Epoch =? 0 then snap <| s_Votes := [] |> <| s_Tally := ∅ |> else snap.

Definition countVote (snap : Snapshot) (header : Header) (signer : Address) : verr + Snapshot :=
  if negb (bool_decide (signer ∈ s_Signers snap)) then inl errUnauthorized
  else
    let snap := discardPrevious signer (hd_Coinbase header) [] (s_Votes snap) snap in
    match nonceVote header with
    | None => inl errInvalidVote
    | Some authorize =>
        let '(ok, snap) := cast snap (hd_Coinbase header) authorize in
        let snap := if ok
                    then snap <| s_Votes ::= fun l =>
                           l ++ [mkVote signer (hnum header) (hd_Coinbase header) authorize] |>
                    else snap in
        inr (passVote snap (hd_Coinbase header))
    end.

Definition applyHeader (snap : Snapshot) (header : Header) : M Signatures (verr + Snapshot) :=
  let snap := resetVotes snap (hnum header) in
  r <- ecrecover header ;;
  match r with
  | inl e => ret (inl e)
  | inr signer => ret (countVote snap header signer)
  end.

Fixpoint applyHeaders (snap : Snapshot) (headers : list Header) : M Signatures (verr + Snapshot) :=
  match headers with
  | [] => ret (inr snap)
  | h :: hs =>
      r <- applyHeader snap h ;;
      match r with
      | inl e => ret (inl e)
      | inr snap' => applyHeaders snap' hs
      end
  end.

(** The check that the headers are consecutive. *)
Fixpoint contiguous (headers : list Header) : bool :=
  match headers with
  | h :: ((h' :: _) as hs) => (hnum h' =? u64 (hnum h + 1)) && contiguous hs
  | _ => true
  end.

(** [apply]; the copy it works on is a value here. *)
Definition apply (s : Snapshot) (headers : list Header) : M Signatures (verr + Snapshot) :=
  match headers with
  | [] => ret (inr s)
  | h0 :: _ =>
      if negb (contiguous headers) then ret (inl errInvalidVotingChain)
      else if negb (hnum h0 =? u64 (s_Number s + 1)) then ret (inl errInvalidVotingChain)
      else
        r <- applyHeaders s headers ;;
        match r with
        | inl e => ret (inl e)
        | inr snap =>
            ret (inr (snap <| s_Number ::= fun n => u64 (n + Z.of_nat (length headers)) |>
                           <| s_Hash := hdr_hash (List.last headers h0) |>))
        end
  end.
End Apply.

(** ** The signers in order *)

(** Bytewise comparison, as [bytes.Compare] on addresses of equal length. *)
Definition addr_gtb (a b : Address) : bool :=
  match String.compare a b with Gt => true | _ => false end.

(** One turn of the outer loop of [signers]: the smallest element goes to the
    front, by exchanges. *)
Fixpoint exchangePass (x : Address) (l : list Address) : Address * list Address :=
  match l with
  | [] => (x, [])
  | y :: l' =>
      if addr_gtb x y then let '(m, r) := exchangePass y l' in (m, x :: r)
      else let '(m, r) := exchangePass x l' in (m, y :: r)
  end.

Fixpoint exchangeSort (fuel : nat) (l : list Address) : list Address :=
  match fuel, l with
  | S fuel', x :: l' => let '(m, r) := exchangePass x l' in m :: exchangeSort fuel' r
  | _, _ => l
  end.

(** [signers], on the signers in the order of the map iteration. *)
Definition signersFrom (l : list Address) : list Address := exchangeSort (length l) l.
Definition signers (s : Snapshot) : list Address := signersFrom (elements (s_Signers s)).

(** The position of a signer, the length when absent. *)
Fixpoint offsetOf (signer : Address) (l : list Address) : Z :=
  match l with
  | [] => 0
  | x :: l' => if decide (x = signer) then 0 else 1 + offsetOf signer l'
  end.

(** [inturn]; a remainder by zero panics. *)
Definition inturn (s : Snapshot) (number : Z) (signer : Address) : option bool :=
  let l := signers s in
  let len := Z.of_nat (length l) in
  if len =? 0 then None else Some (number mod len =? offsetOf signer l).

(** ** The order of the signers *)

Section Order.
Abbreviation addr_le := (strings.String.le).

Lemma addr_gtb_le a b : addr_gtb a b = false <-> addr_le a b.
Proof.
  unfold addr_gtb, strings.String.le, Strings.String.leb. destruct (String.compare a b) eqn:E; split; try done.
Qed.

Lemma exchangePass_spec x l m r :
  exchangePass x l = (m, r) -> x :: l ≡ₚ m :: r /\ Forall (addr_le m) r.
Proof.
  revert x m r. induction l as [|y l IH]; intros x m r; cbn; [by intros [= <- <-]|].
  destruct (addr_gtb x y) eqn:E.
  - destruct (exchangePass y l) as [m' r'] eqn:Ep. intros [= <- <-].
    destruct (IH _ _ _ Ep) as [Hp Hf]. split; [by rewrite Hp, Permutation_swap|].
    constructor; [|done]. assert (m' ∈ y :: l) as Hm by (rewrite Hp; by left).
    assert (addr_le y x) as Hyx.
    { destruct (total addr_le x y) as [H%addr_gtb_le|]; [congruence|done]. }
    assert (addr_le m' y) as Hmy.
    { assert (y ∈ m' :: r') as Hy by (rewrite <- Hp; by left).
      apply elem_of_cons in Hy as [->|Hy]; [done|]. rewrite Forall_forall in Hf. by apply Hf. }
    by etransitivity.
  - destruct (exchangePass x l) as [m' r'] eqn:Ep. intros [= <- <-].
    destruct (IH _ _ _ Ep) as [Hp Hf]. split; [by rewrite Permutation_swap, Hp, Permutation_swap|].
    constructor; [|done]. apply addr_gtb_le in E.
    assert (addr_le m' x) as Hmx.
    { assert (x ∈ m' :: r') as Hx by (rewrite <- Hp; by left).
      apply elem_of_cons in Hx as [->|Hx]; [done|]. rewrite Forall_forall in Hf. by apply Hf. }
    by etransitivity.
Qed.

Lemma exchangeSort_spec n l :
  length l = n -> exchangeSort n l ≡ₚ l /\ StronglySorted addr_le (exchangeSort n l).
Proof.
  revert l. induction n as [|n IH]; intros [|x l]; cbn; try done.
  - intros _. split; [done|constructor].
  - intros [= Hl]. destruct (exchangePass x l) as [m r] eqn:E.
    destruct (exchangePass_spec _ _ _ _ E) as [Hp Hf].
    assert (length r = n) as Hr.
    { apply Permutation_length in Hp. cbn in Hp. lia. }
    destruct (IH r Hr) as [Hp' Hs]. split; [by rewrite Hp'|].
    constructor; [done|]. by rewrite Hp'.
Qed.

(** [signers] returns every signer once, in ascending order, and the same
    list whatever the order in which the map of signers is visited, so all
    replicas agree on it. *)
Theorem signers_sorted (s : Snapshot) (l : list Address) :
  l ≡ₚ elements (s_Signers s) ->
  signersFrom l = signers s /\ signers s ≡ₚ elements (s_Signers s) /\
  StronglySorted addr_le (signers s) /\ NoDup (signers s).
Proof.
  intros Hl. unfold signers, signersFrom.
  destruct (exchangeSort_spec _ l eq_refl) as [P1 S1].
  destruct (exchangeSort_spec _ (elements (s_Signers s)) eq_refl) as [P2 S2]. split_and!.
  - apply (StronglySorted_unique addr_le); [done|done|]. by rewrite P1, P2.
  - done.
  - done.
  - rewrite P2. apply NoDup_elements.
Qed.

Lemma offsetOf_nth l i x :
  NoDup l -> l !! i = Some x -> offsetOf x l = Z.of_nat i.
Proof.
  revert i. induction l as [|y l IH]; intros i Hnd Hi; [done|].
  apply NoDup_cons in Hnd as [Hy Hnd]. destruct i as [|i]; cbn in *.
  - injection Hi as ->. by rewrite decide_True.
  - rewrite decide_False.
    + rewrite (IH i) by done. lia.
    + intros ->. apply Hy. by eapply list_elem_of_lookup_2.
Qed.

Lemma offsetOf_absent l x : x ∉ l -> offsetOf x l = Z.of_nat (length l).
Proof.
  induction l as [|y l IH]; intros Hx; [done|]. cbn [offsetOf length].
  rewrite decide_False by set_solver. rewrite IH by set_solver. lia.
Qed.

(** At every block number, exactly one of the signers is in turn, and no
    other address is; without signers the check divides by zero. *)
Theorem inturn_unique (s : Snapshot) number :
  (s_Signers s <> ∅ ->
     exists a, a ∈ s_Signers s /\ forall b, inturn s number b = Some (bool_decide (b = a))) /\
  (s_Signers s = ∅ -> forall b, inturn s number b = None).
Proof.
  destruct (exchangeSort_spec _ (elements (s_Signers s)) eq_refl) as [Hp _].
  change (signers s ≡ₚ elements (s_Signers s)) in Hp. split.
  - intros Hne.
    assert (NoDup (signers s)) as Hnd by (rewrite Hp; apply NoDup_elements).
    assert (0 < Z.of_nat (length (signers s))) as Hpos.
    { destruct (signers s) as [|x l] eqn:E; [|cbn; lia]. exfalso. apply Hne.
      apply leibniz_equiv, elements_empty_iff. by apply Permutation_nil_r. }
    set (k := number mod Z.of_nat (length (signers s))).
    assert (0 <= k < Z.of_nat (length (signers s))) as Hk by (by apply Z.mod_pos_bound).
    destruct (lookup_lt_is_Some_2 (signers s) (Z.to_nat k)) as [a Ha]; [lia|].
    assert (a ∈ signers s) as Hin by (by eapply list_elem_of_lookup_2).
    exists a. split; [by apply elem_of_elements; rewrite <- Hp|]. intros b. unfold inturn. cbv zeta.
    destruct (Z.of_nat (length (signers s)) =? 0) eqn:E; [exfalso; lia|]. fold k. f_equal.
    destruct (decide (b = a)) as [->|Hba].
    + rewrite (offsetOf_nth _ _ _ Hnd Ha), bool_decide_true by done.
      apply Z.eqb_eq. lia.
    + rewrite bool_decide_false by done. destruct (decide (b ∈ signers s)) as [Hb|Hb].
      * apply list_elem_of_lookup in Hb as [j Hj]. rewrite (offsetOf_nth _ _ _ Hnd Hj).
        apply Z.eqb_neq. intros Hkj. apply Hba. rewrite Hkj, Nat2Z.id in Ha. congruence.
      * rewrite offsetOf_absent by done. apply Z.eqb_neq. lia.
  - intros He b. unfold inturn. rewrite He, elements_empty in Hp.
    apply Permutation_nil_r in Hp. by rewrite Hp.
Qed.
End Order.

(** ** What the votes do *)

Section Votes.
Context `{TE : TxEnv} `{HA : HashEnv} `{HE : HeaderEnv}.

(** The specification: a header of a signer, with a valid nonce, adds its
    beneficiary to the signers or removes it. *)
Definition specVote (S : gset Address) (ha : Header * Address) : option (gset Address) :=
  if decide (ha.2 ∈ S) then
    match nonceVote ha.1 with
    | Some true => Some ({[hd_Coinbase ha.1]} ∪ S)
    | Some false => Some (S ∖ {[hd_Coinbase ha.1]})
    | None => None
    end
  else None.

Fixpoint specVotes (S : gset Address) (l : list (Header * Address)) : option (gset Address) :=
  match l with
  | [] => Some S
  | ha :: l' => match specVote S ha with Some S' => specVotes S' l' | None => None end
  end.

(** The signers that [ecrecover] returns for a list of headers, one after another. *)
Inductive recovered : Signatures -> list (Header * Address) -> Signatures -> Prop :=
| recovered_nil c : recovered c [] c
| recovered_cons c c1 c2 h a l :
    ecrecover h c = (Ret (inr a), c1) -> recovered c1 l c2 -> recovered c ((h, a) :: l) c2.

(** The votes of headers whose signers are known. *)
Definition voteBy (s : Snapshot) (ha : Header * Address) : verr + Snapshot :=
  countVote (resetVotes s (hnum ha.1)) ha.1 ha.2.
Fixpoint votesBy (s : Snapshot) (l : list (Header * Address)) : verr + Snapshot :=
  match l with
  | [] => inr s
  | ha :: l' => match voteBy s ha with inl e => inl e | inr s' => votesBy s' l' end
  end.

(** No vote is pending. *)
Definition idle (s : Snapshot) : Prop := s_Votes s = [] /\ s_Tally s = ∅.

Lemma passVote_idle s cb auth v :
  s_Votes s = [v] -> v_Address v = cb -> v_Authorize v = auth ->
  s_Tally s = {[cb := mkTally auth 1]} ->
  let s' := passVote s cb in
  idle s' /\ s_Signers s' = (if auth then {[cb]} ∪ s_Signers s else s_Signers s ∖ {[cb]}) /\
  s_Number s' = s_Number s /\ s_Hash s' = s_Hash s.
Proof.
  intros Hv Ha Hau Ht. unfold passVote, idle. rewrite Ht, lookup_singleton_eq.
  destruct auth; cbn; rewrite ?Hv, ?Ht.
  - cbn. rewrite bool_decide_true by done. cbn. by rewrite delete_singleton_eq.
  - cbn. destruct (decide (v_Signer v = cb)); cbn.
    + unfold uncast. cbn. rewrite Ha, Ht, lookup_singleton_eq. cbn. rewrite Hau. cbn.
      rewrite Ht, delete_singleton_eq. by rewrite delete_empty.
    + rewrite bool_decide_true by done. cbn. by rewrite Ht, delete_singleton_eq.
Qed.

(** One header on a snapshot without pending votes. *)
Lemma voteBy_spec s ha :
  idle s ->
  match voteBy s ha with
  | inr s' => idle s' /\ specVote (s_Signers s) ha = Some (s_Signers s') /\
              s_Number s' = s_Number s /\ s_Hash s' = s_Hash s
  | inl _ => specVote (s_Signers s) ha = None
  end.
Proof.
  intros [Hv Ht]. destruct ha as [h signer]. unfold voteBy, countVote, specVote. cbn [fst snd].
  assert (resetVotes s (hnum h) = s) as ->.
  { unfold resetVotes. destruct (_ =? 0); [|done]. destruct s; cbn in *; by subst. }
  destruct (decide (signer ∈ s_Signers s)) as [Hin|Hin].
  2: by rewrite bool_decide_false by done.
  rewrite bool_decide_true by done. cbn [negb]. rewrite Hv. cbn [discardPrevious].
  destruct (nonceVote h) as [auth|]; [|done].
  unfold cast. destruct (validVote s (hd_Coinbase h) auth) eqn:Evv; cbn [negb].
  - rewrite Ht, lookup_empty. set (s1 := (s <| s_Tally ::= _ |>) <| s_Votes ::= _ |>).
    destruct (passVote_idle s1 (hd_Coinbase h) auth
                (mkVote signer (hnum h) (hd_Coinbase h) auth)) as (Hi & Hs & Hn & Hh); try done.
    { unfold s1. cbn. by rewrite Hv. }
    { unfold s1. cbn. by rewrite Ht. }
    split_and!; [done| |by rewrite Hn|by rewrite Hh]. rewrite Hs. by destruct auth.
  - unfold passVote. rewrite Ht, lookup_empty. split_and!; try done.
    unfold validVote in Evv.
    destruct auth, (bool_decide (hd_Coinbase h ∈ s_Signers s)) eqn:Eb; try done; f_equal.
    + apply bool_decide_eq_true in Eb. set_solver.
    + apply bool_decide_eq_false in Eb. set_solver.
Qed.

Lemma votesBy_spec s l :
  idle s ->
  match votesBy s l with
  | inr s' => idle s' /\ specVotes (s_Signers s) l = Some (s_Signers s') /\
              s_Number s' = s_Number s /\ s_Hash s' = s_Hash s
  | inl _ => specVotes (s_Signers s) l = None
  end.
Proof.
  revert s. induction l as [|ha l IH]; intros s Hi; cbn; [done|].
  pose proof (voteBy_spec s ha Hi) as H1. destruct (voteBy s ha) as [e|s1].
  - by rewrite H1.
  - destruct H1 as (Hi1 & -> & Hn & Hh). specialize (IH s1 Hi1).
    destruct (votesBy s1 l); [done|]. destruct IH as (? & ? & ? & ?).
    split_and!; [done|done|congruence|congruence].
Qed.

(** The loop over the headers is the loop over the headers with their signers. *)
Lemma applyHeaders_runs s hs c : exists r c', applyHeaders s hs c = (Ret r, c') /\
  (signatures_ok c -> signatures_ok c') /\
  match r with
  | inr s' => exists l, l.*1 = hs /\ recovered c l c' /\ votesBy s l = inr s'
  | inl _ => forall l c1, l.*1 = hs -> recovered c l c1 -> exists e, votesBy s l = inl e
  end.
Proof.
  revert s c. induction hs as [|h hs IH]; intros s c; cbn [applyHeaders].
  { exists (inr s), c. split_and!; [done|done|]. exists []. split_and!; [done|constructor|done]. }
  destruct (ecrecover_runs h c) as (r&c1&E&Hok). unfold applyHeader, bind. rewrite E.
  destruct r as [e|a]; cbn [ret].
  { exists (inl e), c1. split_and!; [done|by intros Hc; apply Hok|]. intros l c2 El Hl.
    inversion Hl as [|? ? ? h' a l' E' _]; subst; [done|]. cbn in El. injection El as -> _. congruence. }
  change (countVote (resetVotes s (hnum h)) h a) with (voteBy s (h, a)). destruct (voteBy s (h, a)) as [e|s1] eqn:Ev.
  { exists (inl e), c1. split_and!; [done|by intros Hc; apply Hok|]. intros l c2 El Hl.
    inversion Hl as [|? ? ? h' a' l' E' _]; subst; [done|]. cbn in El. injection El as -> _.
    rewrite E in E'. injection E' as -> ->. exists e. cbn [votesBy]. by rewrite Ev. }
  destruct (IH s1 c1) as (r&c2&E2&Hok2&Hr). exists r, c2. split_and!; [done|by intros Hc; apply Hok2, Hok|].
  destruct r as [e|s'].
  - intros l c3 El Hl. inversion Hl as [|? c1' ? h' a' l' E' Hl']; subst; [done|]. cbn in El. injection El as -> El.
    rewrite E in E'. injection E' as -> ->. cbn [votesBy]. rewrite Ev. by apply (Hr l' c3).
  - destruct Hr as (l&El&Hl&Hs). exists ((h, a) :: l). split_and!; [by cbn; rewrite El|by econstructor|].
    cbn [votesBy]. by rewrite Ev.
Qed.

Lemma u64_add_l a b : u64 (u64 a + b) = u64 (a + b).
Proof. unfold u64. by rewrite Zplus_mod_idemp_l. Qed.

(** Headers with the numbers after [n], one after another. *)
Definition consecutive (n : Z) (hs : list Header) : Prop :=
  forall i h, hs !! i = Some h -> hnum h = u64 (n + 1 + Z.of_nat i).

Lemma consecutive_cons n h hs : consecutive n (h :: hs) <-> hnum h = u64 (n + 1) /\ consecutive (n + 1) hs.
Proof.
  unfold consecutive. split.
  - intros H. split; [rewrite (H 0%nat h eq_refl); f_equal; lia|].
    intros i k Hk. rewrite (H (S i) k Hk). f_equal. lia.
  - intros [Hh H] [|i] k Hk; [injection Hk as <-; rewrite Hh; f_equal; lia|].
    rewrite (H i k Hk). f_equal. lia.
Qed.

Lemma contiguous_consecutive n h hs :
  contiguous (h :: hs) = true /\ hnum h = u64 (n + 1) <-> consecutive n (h :: hs).
Proof.
  revert n h. induction hs as [|k hs IH]; intros n h.
  - rewrite consecutive_cons. split; intros [? ?]; [split; [done|]; by intros i k Hk; rewrite lookup_nil in Hk|by split].
  - rewrite consecutive_cons, <- (IH (n + 1) k).
    change (contiguous (h :: k :: hs)) with ((hnum k =? u64 (hnum h + 1)) && contiguous (k :: hs)).
    rewrite andb_true_iff, Z.eqb_eq. split.
    + intros [[Hk Hc] Hh]. rewrite Hh, u64_add_l in Hk. done.
    + intros [Hh [Hc Hk]]. rewrite Hh, u64_add_l. done.
Qed.

Lemma last_List_last {A} (x : A) l d : last (x :: l) = Some (List.last (x :: l) d).
Proof. revert x. induction l as [|y l IH]; intros x; [done|exact (IH y)]. Qed.

(** C35: [apply] refines the specification in which every valid header of a signer adds
    or removes its beneficiary at once.  On a snapshot without pending votes it
    succeeds only if the headers have the numbers after that of the snapshot, and
    each is by a signer of its time with a valid nonce; the result has the signers of the
    specification and the number and hash of the last header.  It fails only if one
    of these conditions fails.  No vote is ever left pending, so that a single signer
    changes the set of signers alone. *)
Theorem apply_refines (s : Snapshot) (hs : list Header) c :
  idle s ->
  exists r c', apply s hs c = (Ret r, c') /\
  match r with
  | inr s' => idle s' /\ consecutive (s_Number s) hs /\
              (exists l, l.*1 = hs /\ recovered c l c' /\ specVotes (s_Signers s) l = Some (s_Signers s')) /\
              (hs = [] /\ s' = s \/
               exists h, last hs = Some h /\ s_Hash s' = hdr_hash h /\ s_Number s' = u64 (s_Number s + Z.of_nat (length hs)))
  | inl e => (forall l c1, l.*1 = hs -> recovered c l c1 -> specVotes (s_Signers s) l = None) \/
             e = errInvalidVotingChain /\ ~ consecutive (s_Number s) hs
  end.
Proof.
  intros Hi. destruct hs as [|h hs].
  { exists (inr s), c. split_and!; [done|done|by intros i h Hi'; rewrite lookup_nil in Hi'| |by left]. exists []. split_and!; [done|constructor|done]. }
  unfold apply. pose proof (contiguous_consecutive (s_Number s) h hs) as Hcc.
  destruct (contiguous (h :: hs)) eqn:Ec; cbn [negb].
  2:{ eexists _, c. split; [done|]. right. split; [done|]. intros [? _]%Hcc. done. }
  destruct (Z.eqb_spec (hnum h) (u64 (s_Number s + 1))) as [En|En]; cbn [negb].
  2:{ eexists _, c. split; [done|]. right. split; [done|]. intros [_ ?]%Hcc. done. }
  destruct (applyHeaders_runs s (h :: hs) c) as (r&c'&E&_&Hr). unfold bind. rewrite E.
  destruct r as [e|s']; eexists _, c'; (split; [done|]).
  - left. intros l c1 El Hl. destruct (Hr l c1 El Hl) as [e' Ev].
    pose proof (votesBy_spec s l Hi) as Ha. by rewrite Ev in Ha.
  - destruct Hr as (l&El&Hl&Ev). pose proof (votesBy_spec s l Hi) as Ha. rewrite Ev in Ha.
    destruct Ha as (Hi'&Hs&Hn&_). split_and!; [exact Hi'|by apply Hcc|by exists l|].
    right. exists (List.last (h :: hs) h). split_and!; [apply last_List_last|done|].
    cbn -[length u64 Z.of_nat]. by rewrite Hn.
Qed.

(** ** Applying headers in batches *)

Lemma votesBy_app s l1 l2 :
  votesBy s (l1 ++ l2) = match votesBy s l1 with inl e => inl e | inr s1 => votesBy s1 l2 end.
Proof.
  revert s. induction l1 as [|ha l IH]; intros s; [done|]. cbn. destruct (voteBy s ha); auto.
Qed.

Lemma last_default {A} (x : A) l d d' : List.last (x :: l) d = List.last (x :: l) d'.
Proof. revert x. induction l as [|y l IH]; intros x; [done|exact (IH y)]. Qed.

Lemma contiguous_app h hs h' hs' :
  contiguous ((h :: hs) ++ h' :: hs') =
  contiguous (h :: hs) && (hnum h' =? u64 (hnum (List.last (h :: hs) h) + 1)) && contiguous (h' :: hs').
Proof.
  revert h. induction hs as [|k hs IH]; intros h; [done|].
  change ((h :: k :: hs) ++ h' :: hs') with (h :: ((k :: hs) ++ h' :: hs')).
  change (contiguous (h :: (k :: hs) ++ h' :: hs'))
    with ((hnum k =? u64 (hnum h + 1)) && contiguous ((k :: hs) ++ h' :: hs')).
  change (contiguous (h :: k :: hs)) with ((hnum k =? u64 (hnum h + 1)) && contiguous (k :: hs)).
  rewrite IH, <- !andb_assoc.
  change (List.last (h :: k :: hs) h) with (List.last (k :: hs) h).
  by rewrite (last_default k hs k h).
Qed.

Lemma contiguous_last n h hs :
  contiguous (h :: hs) = true -> hnum h = u64 (n + 1) ->
  hnum (List.last (h :: hs) h) = u64 (n + Z.of_nat (length (h :: hs))).
Proof.
  revert n h. induction hs as [|k hs IH]; intros n h Hc Hn.
  - cbn. by rewrite Hn.
  - change (contiguous (h :: k :: hs)) with ((hnum k =? u64 (hnum h + 1)) && contiguous (k :: hs)) in Hc.
    apply andb_true_iff in Hc as [Hk Hc]. apply Z.eqb_eq in Hk.
    rewrite Hn, u64_add_l in Hk. specialize (IH (n + 1) k Hc Hk).
    change (List.last (h :: k :: hs) h) with (List.last (k :: hs) h).
    rewrite (last_default k hs h k), IH. cbn [length]. f_equal. lia.
Qed.

(** The handling of votes does not look at the number and hash of the snapshot. *)
Definition stamp (n : Z) (x : string) (s : Snapshot) : Snapshot :=
  s <| s_Number := n |> <| s_Hash := x |>.

Lemma set_number s f v : f (s_Number s) = v -> s <| s_Number ::= f |> = s <| s_Number := v |>.
Proof. intros <-. by destruct s. Qed.

Lemma stamp_self s : stamp (s_Number s) (s_Hash s) s = s.
Proof. by destruct s. Qed.

Lemma uncast_stamp n x s a b : (uncast (stamp n x s) a b).2 = stamp n x (uncast s a b).2.
Proof. unfold uncast. cbn. repeat case_match; by destruct s. Qed.

Lemma discardPrevious_stamp n x signer cb seen rest s :
  discardPrevious signer cb seen rest (stamp n x s) = stamp n x (discardPrevious signer cb seen rest s).
Proof.
  revert seen. induction rest as [|v rest IH]; intros seen; cbn [discardPrevious]; [done|].
  destruct (decide _); [|apply IH]. by rewrite uncast_stamp.
Qed.

Lemma discardOfSigner_stamp n x cb seen rest s :
  discardOfSigner cb seen rest (stamp n x s) = stamp n x (discardOfSigner cb seen rest s).
Proof.
  revert seen s. induction rest as [|v rest IH]; intros seen s; cbn [discardOfSigner]; [done|].
  destruct (decide _); [|apply IH]. by rewrite uncast_stamp.
Qed.

Lemma passVote_stamp n x s cb : passVote (stamp n x s) cb = stamp n x (passVote s cb).
Proof.
  unfold passVote. change (s_Tally (stamp n x s)) with (s_Tally s).
  destruct (s_Tally s !! cb) as [t|]; [|done]. destruct (ta_Authorize t); [done|]. cbv zeta.
  change ((stamp n x s) <| s_Signers ::= _ |>) with (stamp n x (s <| s_Signers ::= fun S => S ∖ {[cb]} |>)).
  change (s_Votes (stamp n x (s <| s_Signers ::= fun S => S ∖ {[cb]} |>)))
    with (s_Votes (s <| s_Signers ::= fun S => S ∖ {[cb]} |>)).
  by rewrite discardOfSigner_stamp.
Qed.

Definition stampR (n : Z) (x : string) (r : verr + Snapshot) : verr + Snapshot :=
  match r with inl e => inl e | inr s => inr (stamp n x s) end.

Lemma voteBy_stamp n x s ha : voteBy (stamp n x s) ha = stampR n x (voteBy s ha).
Proof.
  destruct ha as [h signer]. unfold voteBy, countVote. cbn [fst snd]. cbv zeta.
  assert (resetVotes (stamp n x s) (hnum h) = stamp n x (resetVotes s (hnum h))) as -> by (unfold resetVotes; by case_match).
  set (s0 := resetVotes s _). change (s_Signers (stamp n x s0)) with (s_Signers s0).
  destruct (negb _); [done|]. change (s_Votes (stamp n x s0)) with (s_Votes s0).
  rewrite discardPrevious_stamp. set (s1 := discardPrevious _ _ _ _ _).
  destruct (nonceVote h) as [auth|]; [|done]. unfold cast.
  change (validVote (stamp n x s1)) with (validVote s1).
  change (s_Tally (stamp n x s1)) with (s_Tally s1).
  destruct (validVote s1 _ _); cbn [negb]; [|by rewrite passVote_stamp].
  destruct (s_Tally s1 !! _); [by rewrite passVote_stamp|]. cbn [stampR]. f_equal.
  rewrite <- passVote_stamp. done.
Qed.

Lemma votesBy_stamp n x s l : votesBy (stamp n x s) l = stampR n x (votesBy s l).
Proof.
  revert s. induction l as [|ha l IH]; intros s; cbn; [done|].
  rewrite voteBy_stamp. destruct (voteBy s ha); cbn; auto.
Qed.

(** [apply] on headers with their signers. *)
Definition applyBy (s : Snapshot) (l : list (Header * Address)) (s' : Snapshot) : Prop :=
  match l with
  | [] => s' = s
  | (h, _) :: _ =>
      contiguous l.*1 = true /\ hnum h = u64 (s_Number s + 1) /\
      exists sn, votesBy s l = inr sn /\
        s' = stamp (u64 (s_Number s + Z.of_nat (length l))) (hdr_hash (List.last l.*1 h)) sn
  end.

Lemma stamped_number s l sn n : votesBy s l = inr sn -> u64 (s_Number sn + n) = u64 (s_Number s + n).
Proof.
  intros Ev. pose proof (votesBy_stamp (s_Number s) (s_Hash s) s l) as Hst. rewrite stamp_self, Ev in Hst.
  cbn in Hst. injection Hst as ->. done.
Qed.

Lemma apply_runs s hs c : exists r c', apply s hs c = (Ret r, c') /\ (signatures_ok c -> signatures_ok c') /\
  forall s', r = inr s' -> exists l, l.*1 = hs /\ recovered c l c' /\ applyBy s l s'.
Proof.
  destruct hs as [|h hs].
  { exists (inr s), c. split_and!; [done|done|]. intros s' [= ->]. exists []. split_and!; [done|constructor|done]. }
  unfold apply. destruct (contiguous (h :: hs)) eqn:Ec; cbn [negb]; [|by eexists _, c].
  destruct (hnum h =? u64 (s_Number s + 1)) eqn:En; cbn [negb]; [|by eexists _, c].
  destruct (applyHeaders_runs s (h :: hs) c) as (r&c'&E&Hok&Hr). unfold bind. rewrite E.
  destruct r as [e|sn]; [by eexists _, c'|]. eexists _, c'. split_and!; [done|done|]. intros s' [= <-].
  destruct Hr as (l&El&Hl&Ev). exists l. split_and!; [done|done|].
  destruct l as [|[h' a] l]; [done|]. cbn [fmap list_fmap fst] in El. injection El as -> El.
  unfold applyBy. cbn [fmap list_fmap fst]. rewrite El. apply Z.eqb_eq in En. split_and!; [done|done|].
  exists sn. split; [done|].
  assert (length (h :: hs) = length ((h, a) :: l)) as Hlen by (rewrite <- El; cbn; by rewrite length_fmap).
  change (S (length hs)) with (length (h :: hs)). rewrite Hlen. unfold stamp. f_equal. apply set_number. by apply (stamped_number s ((h, a) :: l)).
Qed.

(** The headers of one recovery have hashes that their signers have sealed. *)
Lemma recovered_alike c l c' : recovered c l c' -> signatures_ok c ->
  Forall (fun ha => sealed_alike (hdr_hash ha.1) ha.2) l.
Proof.
  induction 1 as [|c c1 c2 h a l E Hl IH]; intros Hc; [constructor|].
  destruct (ecrecover_runs h c) as (r&c1'&E'&Hok). rewrite E in E'. injection E' as <- <-.
  destruct (Hok Hc) as [Hc1 Ha]. constructor; [by apply Ha|auto].
Qed.

(** Applying headers in two batches is applying them at once: a snapshot
    may be taken from the cache or the disk at any ancestor. *)
Lemma applyBy_app (s s1 s' : Snapshot) (l1 l2 : list (Header * Address)) :
  applyBy s l1 s1 -> applyBy s1 l2 s' -> applyBy s (l1 ++ l2) s'.
Proof.
  destruct l1 as [|[h1 a1] l1]; [by intros ->|].
  destruct l2 as [|[h2 a2] l2]; [intros H ->; by rewrite app_nil_r|].
  intros (C1 & H1 & sn & Ha & ->) (C2 & H2 & sn2 & Ha2 & ->).
  set (L1 := (h1, a1) :: l1) in *. set (L2 := (h2, a2) :: l2) in *.
  change (L1 ++ L2) with ((h1, a1) :: (l1 ++ L2)). unfold applyBy.
  change ((h1, a1) :: (l1 ++ L2)) with (L1 ++ L2). rewrite fmap_app.
  change (L1.*1) with (h1 :: l1.*1) in *. change (L2.*1) with (h2 :: l2.*1) in *.
  pose proof (contiguous_last _ _ _ C1 H1) as Hlast.
  assert (length (h1 :: l1.*1) = length L1) as Hl1 by (unfold L1; cbn; by rewrite length_fmap). rewrite Hl1 in Hlast.
  split_and!; [|done|].
  - rewrite contiguous_app, C1, C2, andb_true_r. cbn [andb]. apply Z.eqb_eq. rewrite H2, Hlast. done.
  - rewrite votesBy_stamp in Ha2. destruct (votesBy sn L2) as [|s2] eqn:E2; [done|]. cbn [stampR] in Ha2.
    injection Ha2 as <-. exists s2. rewrite votesBy_app, Ha. split; [done|].
    assert (List.last ((h1 :: l1.*1) ++ h2 :: l2.*1) h1 = List.last (h2 :: l2.*1) h2) as ->.
    { rewrite (last_default h2 _ h2 h1). generalize (h1 :: l1.*1). intros l.
      induction l as [|x l IH]; [done|]. cbn [app]. rewrite <- IH. by destruct l. }
    cbn [stamp s_Number upd]. change (s_Number (stamp ?n ?x sn)) with n. rewrite u64_add_l, length_app.
    rewrite <- Z.add_assoc, <- Nat2Z.inj_add. done.
Qed.
End Votes.
