(* ===== verification/HeaderRules.v ===== *)
(** * HeaderRules: the checks of a block header

    Models the consensus-engine side of [consensus/pbft/pbft.go]: [verifyHeader],
    [verifyCascadingFields], [verifySeal], [VerifyHeaders] and [snapshot], over the
    snapshots of Snapshot.v. The headers of the chain are looked up through
    [chain_GetHeader]; the engine keeps snapshots in memory and in its database and
    the signers of headers it has seen. *)
From stdpp Require Import pretty.
From S2P Require Import Prelude.
From S2P Require Import Messages.
From S2P Require Import StateDB.
From S2P Require Import Tx.
From S2P Require Import Merkle.
From S2P Require Import Header.
From S2P Require Import Snapshot.

(** The chain a check runs against, which starts with a genesis block. *)
Class ChainEnv := {
  chain_GetHeader : string -> Z -> option Header;
  chain_genesis : Header;
  genesis_number : hnum chain_genesis = 0;
  now : Z;
}.

(** [PBFT]: the snapshots in memory ([recents]) and in the database, the known
    signatures, the proposals to vote for, the signer and the id of the node. *)
Record Engine := mkEngine {
  en_recents : gmap string Snapshot;
  en_db : gmap string string;
  en_signatures : Signatures;
  en_proposals : gmap Address bool;
  en_signer : Address;
  en_id : Z;
}.
#[export] Instance Engine_eta : Eta Engine := fun r =>
  mkEngine (en_recents r) (en_db r) (en_signatures r) (en_proposals r) (en_signer r) (en_id r).

Local Abbreviation ME := (M Engine).

Definition onSignatures {A} (m : M Signatures A) : ME A := fun en =>
  let '(r, c) := m (en_signatures en) in (r, en <| en_signatures := c |>).

Section Rules.
Context `{TE : TxEnv} `{HA : HashEnv} `{HE : HeaderEnv} `{CE : ChainEnv}.

(** The checks of [verifyHeader] that look at the header only. *)
Definition verifyStandalone (h : Header) : option verr :=
  match hd_Number h with
  | None => Some errUnknownBlock
  | Some _ =>
      let number := hnum h in
      let checkpoint := number mod cfg_Epoch =? 0 in
      let signersBytes := (length (hd_Extra h) - extraVanity - extraSeal)%nat in
      if now <? hd_Time h then Some ErrFutureBlock
      else if checkpoint && negb (bool_decide (hd_Coinbase h = zeroAddr))
      then Some errInvalidCheckpointBeneficiary
      else if negb (bool_decide (hd_Nonce h = nonceAuthVote))
              && negb (bool_decide (hd_Nonce h = nonceDropVote)) then Some errInvalidVote
      else if checkpoint && negb (bool_decide (hd_Nonce h = nonceDropVote))
      then Some errInvalidCheckpointVote
      else if (length (hd_Extra h) <? extraVanity)%nat then Some errMissingVanity
      else if (length (hd_Extra h) <? extraVanity + extraSeal)%nat then Some errMissingSignature
      else if negb checkpoint && negb (signersBytes =? 0)%nat then Some errExtraSigners
      else if checkpoint && negb (signersBytes mod AddressLength =? 0)%nat
      then Some errInvalidCheckpointSigners
      else if negb (bool_decide (hd_MixDigest h = zeroHash)) then Some errInvalidMixDigest
      else if negb (bool_decide (hd_UncleHash h = uncleHash)) then Some errInvalidUncleHash
      else if (0 <? number)
              && match hd_Difficulty h with
                 | None => true
                 | Some d => negb (d =? diffInTurn) && negb (d =? diffNoTurn)
                 end
      then Some errInvalidDifficulty
      else None
  end.

(** The list of addresses in the extra data of the genesis block. *)
Definition genesisSigners (extra : list Ascii.ascii) : list Address :=
  (fun i => bytesOf (take AddressLength (drop (extraVanity + i * AddressLength) extra)))
    <$> seq 0 ((length extra - extraVanity - extraSeal) / AddressLength).

(** The header that the walk back takes next: the last of the parents, which must
    be the one asked for, or one of the chain. *)
Definition nextHeader (number : Z) (hash : string) (parents : list Header) : option Header :=
  match List.rev parents with
  | [] => chain_GetHeader hash number
  | p :: _ => if bool_decide (hdr_hash p = hash) && (hnum p =? number) then Some p else None
  end.

(** The loop of [snapshot] that walks back to a known snapshot, gathering the
    headers on the way in ascending order. [VerifyHeader] of the genesis block
    stops after the checks on the header alone. *)
Fixpoint walkBack (fuel : nat) (number : Z) (hash : string) (parents headers : list Header)
    : ME (verr + (Snapshot * list Header)) :=
  match fuel with
  | O => fun en => (OutOfFuel, en)
  | S fuel' =>
      en <- get ;;
      match en_recents en !! hash with
      | Some s => ret (inr (s, headers))
      | None =>
          match (if number mod checkpointInterval =? 0 then loadSnapshot (en_db en) hash else None) with
          | Some s => ret (inr (s, headers))
          | None =>
              if number =? 0 then
                match verifyStandalone chain_genesis with
                | Some e => ret (inl e)
                | None =>
                    let snap := newSnapshot 0 (hdr_hash chain_genesis)
                                  (genesisSigners (hd_Extra chain_genesis)) in
                    modify (fun en => en <| en_db ::= store snap |>) ;;
                    ret (inr (snap, headers))
                end
              else
                match nextHeader number hash parents with
                | None => ret (inl ErrUnknownAncestor)
                | Some h => walkBack fuel' (number - 1) (hd_ParentHash h) (removelast parents) (h :: headers)
                end
          end
      end
  end.

(** [snapshot]; the walk ends at block 0. *)
Definition snapshot (number : Z) (hash : string) (parents : list Header) : ME (verr + Snapshot) :=
  r <- walkBack (S (Z.to_nat number)) number hash parents [] ;;
  match r with
  | inl e => ret (inl e)
  | inr (snap0, headers) =>
      r <- onSignatures (apply snap0 headers) ;;
      match r with
      | inl e => ret (inl e)
      | inr snap =>
          modify (fun en => en <| en_recents ::= <[s_Hash snap := snap]> |>) ;;
          when ((s_Number snap mod checkpointInterval =? 0) && negb (bool_decide (headers = [])))
            (modify (fun en => en <| en_db ::= store snap |>)) ;;
          ret (inr snap)
      end
  end.

(** [verifySeal]; it would panic on an empty set of signers or without a
    difficulty. *)
Definition verifySeal (h : Header) (parents : list Header) : ME (option verr) :=
  if hnum h =? 0 then ret (Some errUnknownBlock)
  else
    r <- snapshot (hnum h - 1) (hd_ParentHash h) parents ;;
    match r with
    | inl e => ret (Some e)
    | inr snap =>
        r <- onSignatures (ecrecover h) ;;
        match r with
        | inl e => ret (Some e)
        | inr signer =>
            if negb (bool_decide (signer ∈ s_Signers snap)) then ret (Some errUnauthorized)
            else
              match inturn snap (hnum h) signer, hd_Difficulty h with
              | Some turn, Some d =>
                  ret (if d =? (if turn then diffInTurn else diffNoTurn) then None else Some errInvalidDifficulty)
              | _, _ => panic
              end
        end
    end.

(** The bytes of the signers, in order, as a checkpoint block lists them. *)
Definition signersBytes (snap : Snapshot) : string := String.concat EmptyString (signers snap).

(** [verifyCascadingFields]. *)
Definition verifyCascadingFields (h : Header) (parents : list Header) : ME (option verr) :=
  let number := hnum h in
  if number =? 0 then ret None
  else
    match (match List.rev parents with
           | p :: _ => Some p
           | [] => chain_GetHeader (hd_ParentHash h) (number - 1)
           end) with
    | None => ret (Some ErrUnknownAncestor)
    | Some p =>
        if negb (hnum p =? number - 1) || negb (bool_decide (hdr_hash p = hd_ParentHash h))
        then ret (Some ErrUnknownAncestor)
        else if u64 (hd_Time h) <? u64 (u64 (hd_Time p) + cfg_Period) then ret (Some ErrInvalidTimestamp)
        else
          r <- snapshot (number - 1) (hd_ParentHash h) parents ;;
          match r with
          | inl e => ret (Some e)
          | inr snap =>
              let suffix := bytesOf (drop extraVanity (unsealed (hd_Extra h))) in
              if (number mod cfg_Epoch =? 0) && negb (bool_decide (suffix = signersBytes snap))
              then ret (Some errInvalidCheckpointSigners)
              else verifySeal h parents
          end
    end.

(** [verifyHeader], and [VerifyHeader] without parents. *)
Definition verifyHeader (h : Header) (parents : list Header) : ME (option verr) :=
  match verifyStandalone h with
  | Some e => ret (Some e)
  | None => verifyCascadingFields h parents
  end.

(** [VerifyHeaders]: the results in order, each header with those before it as
    parents. *)
Fixpoint verifyHeaders (parents headers : list Header) : ME (list (option verr)) :=
  match headers with
  | [] => ret []
  | h :: hs =>
      r <- verifyHeader h parents ;;
      rs <- verifyHeaders (parents ++ [h]) hs ;;
      ret (r :: rs)
  end.
Definition VerifyHeaders (headers : list Header) : ME (list (option verr)) := verifyHeaders [] headers.
End Rules.

(** ** Snapshots come from the chain *)

Section Canonical.
Context `{TE : TxEnv} `{HA : HashEnv} `{HE : HeaderEnv} `{CE : ChainEnv}.

Definition genesisSnapshot : Snapshot :=
  newSnapshot 0 (hdr_hash chain_genesis) (genesisSigners (hd_Extra chain_genesis)).

(** Headers linked by their parent hashes, the last of which has a hash. *)
Inductive linked : string -> list Header -> Prop :=
| linked_nil hash : linked hash []
| linked_snoc hash h hs :
    hdr_hash h = hash -> linked (hd_ParentHash h) hs -> linked hash (hs ++ [h]).

(** [s] is the snapshot at [hash]: linked headers up to [hash], with the numbers from one
    on, applied to that of genesis, each with an address that has sealed a header of
    the same hash. *)
Definition canonical (hash : string) (s : Snapshot) : Prop :=
  s_Hash s = hash /\
  exists l, linked hash l.*1 /\ Forall (fun ha => sealed_alike (hdr_hash ha.1) ha.2) l /\
    applyBy genesisSnapshot l s.

(** What is returned for [hash] at [number]; at number 0 nobody compares [hash] with the
    genesis block. *)
Definition snapshotAt (number : Z) (hash : string) (s : Snapshot) : Prop :=
  canonical hash s \/ number = 0 /\ s = genesisSnapshot.

Record coherent (en : Engine) : Prop := {
  co_recents : map_Forall canonical (en_recents en);
  co_db : forall hash s, loadSnapshot (en_db en) hash = Some s -> canonical hash s;
  co_signatures : signatures_ok (en_signatures en);
}.

(** The database returns a header by its hash. *)
Definition chain_ok : Prop :=
  forall hash n h, chain_GetHeader hash n = Some h -> hdr_hash h = hash.

Lemma linked_hash hash h hs : linked hash (hs ++ [h]) -> hdr_hash h = hash /\ linked (hd_ParentHash h) hs.
Proof.
  inversion 1 as [hash' E|hash' h' hs' Hh Hl E1 E2]; [by destruct hs|].
  apply app_inj_tail in E2 as [<- <-]. done.
Qed.

Lemma applyBy_canonical hash l s : linked hash l.*1 -> Forall (fun ha => sealed_alike (hdr_hash ha.1) ha.2) l ->
  applyBy genesisSnapshot l s -> (l = [] -> s_Hash s = hash) -> canonical hash s.
Proof.
  intros Hl Ha Hs H0. split; [|by exists l]. destruct l as [|[h0 a0] l]; [by apply H0|].
  destruct Hs as (_&_&sn&_&->). set (hs := ((h0, a0) :: l).*1) in *. change (hdr_hash (List.last hs h0) = hash).
  assert (hs <> []) as Hne by done. clearbody hs. destruct hs as [|h hs _] using rev_ind; [done|].
  apply linked_hash in Hl as [Hh _]. by rewrite last_last.
Qed.

Lemma genesis_canonical : canonical (s_Hash genesisSnapshot) genesisSnapshot.
Proof. split; [done|]. exists []. split_and!; [constructor|constructor|done]. Qed.

(** Either way the snapshot is the one at its own hash. *)
Lemma snapshotAt_self number hash s : snapshotAt number hash s -> canonical (s_Hash s) s.
Proof. intros [[<- H]|[_ ->]]; [by split|apply genesis_canonical]. Qed.

Lemma coherent_recents en s : canonical (s_Hash s) s -> coherent en ->
  coherent (en <| en_recents ::= <[s_Hash s := s]> |>).
Proof. intros Hs [H1 H2 H3]. split; [by apply map_Forall_insert_2|done|done]. Qed.

Lemma coherent_store en s : canonical (s_Hash s) s -> coherent en -> coherent (en <| en_db ::= store s |>).
Proof.
  intros Hs [H1 H2 H3]. split; [done| |done]. intros hash s'. cbn [en_db upd]. rewrite load_store.
  case_decide as E; [|apply H2]. intros [= <-]. by rewrite E.
Qed.

(** The walk back ends, and returns a snapshot of the chain and the headers after
    it. *)
Lemma walkBack_runs fuel en number hash parents headers0 :
  chain_ok -> coherent en -> 0 <= number -> (S (Z.to_nat number) <= fuel)%nat ->
  exists r en', walkBack fuel number hash parents headers0 en = (Ret r, en') /\ coherent en' /\
    en_signatures en' = en_signatures en /\ en_proposals en' = en_proposals en /\
    en_signer en' = en_signer en /\ en_id en' = en_id en /\
    forall s headers, r = inr (s, headers) -> exists l0 hs1, headers = hs1 ++ headers0 /\
      linked hash (l0.*1 ++ hs1) /\ Forall (fun ha => sealed_alike (hdr_hash ha.1) ha.2) l0 /\
      applyBy genesisSnapshot l0 s /\ (hs1 = [] -> snapshotAt number hash s).
Proof.
  intros Hc. revert en number hash parents headers0.
  induction fuel as [|fuel IH]; intros en number hash parents headers0 Hen Hn Hf; [lia|].
  cbn [walkBack]. rewrite bind_get.
  assert (forall s0, canonical hash s0 -> forall s headers,
    (inr (s0, headers0) : verr + _) = inr (s, headers) -> exists l0 hs1, headers = hs1 ++ headers0 /\
      linked hash (l0.*1 ++ hs1) /\ Forall (fun ha => sealed_alike (hdr_hash ha.1) ha.2) l0 /\
      applyBy genesisSnapshot l0 s /\ (hs1 = [] -> snapshotAt number hash s)) as Hdone.
  { intros s0 Hs0 s headers [= <- <-]. destruct (id Hs0) as (_ & l & Hl & Ha & Hs). exists l, [].
    rewrite app_nil_r. split_and!; [done|done|done|done|by left]. }
  destruct (en_recents en !! hash) as [s0|] eqn:E1.
  { eexists _, en. split_and!; try done. apply Hdone. by apply (co_recents en Hen). }
  destruct (if number mod checkpointInterval =? 0 then loadSnapshot (en_db en) hash else None) as [s0|] eqn:E2.
  { eexists _, en. split_and!; try done. apply Hdone.
    destruct (number mod checkpointInterval =? 0); [by apply (co_db en Hen)|done]. }
  destruct (Z.eqb_spec number 0) as [E0|E0].
  - destruct (verifyStandalone chain_genesis); [by eexists _, en|].
    eexists _, _. split; [done|]. split_and!; try done.
    + apply coherent_store; [apply genesis_canonical|done].
    + intros s headers [= <- <-]. exists [], []. split_and!; [done|constructor|constructor|done|by right].
  - destruct (nextHeader number hash parents) as [h|] eqn:Eh; [|by eexists _, en].
    assert (hdr_hash h = hash) as Hh.
    { unfold nextHeader in Eh. destruct (List.rev parents) as [|p ps]; [by eapply Hc|].
      destruct (bool_decide _ && _) eqn:Eb; [|done]. injection Eh as <-.
      apply andb_true_iff in Eb as [Eb _]. by apply bool_decide_eq_true in Eb. }
    destruct (IH en (number - 1) (hd_ParentHash h) (removelast parents) (h :: headers0))
      as (r&en'&E&Hen'&Es&Ep&Eg&Ei&Hr); [done|lia|lia|].
    exists r, en'. split_and!; try done. intros s headers Er.
    destruct (Hr s headers Er) as (l0&hs1&->&Hl&Ha&Hs&_). exists l0, (hs1 ++ [h]). rewrite <- app_assoc.
    split_and!; [done| |done|done|by destruct hs1]. rewrite app_assoc. by constructor.
Qed.

Lemma onSignatures_runs {A} (m : M Signatures A) en a c : m (en_signatures en) = (Ret a, c) ->
  onSignatures m en = (Ret a, en <| en_signatures := c |>).
Proof. unfold onSignatures. by intros ->. Qed.

(** What the reading of snapshots leaves alone. *)
Record same_node (en en' : Engine) : Prop := {
  sn_proposals : en_proposals en' = en_proposals en;
  sn_signer : en_signer en' = en_signer en;
  sn_id : en_id en' = en_id en;
}.

Lemma snapshot_runs en number hash parents : chain_ok -> coherent en -> 0 <= number ->
  exists r en', snapshot number hash parents en = (Ret r, en') /\ coherent en' /\ same_node en en' /\
    forall s, r = inr s -> snapshotAt number hash s.
Proof.
  intros Hc Hen Hn.
  destruct (walkBack_runs (S (Z.to_nat number)) en number hash parents [] Hc Hen Hn)
    as (r&en1&E1&Hen1&_&Ep&Eg&Ei&Hr); [lia|].
  unfold snapshot. rewrite (bind_eq _ _ _ _ _ E1). destruct r as [e|[s0 headers]].
  { eexists _, en1. by split_and!. }
  destruct (Hr s0 headers eq_refl) as (l0&hs1&->&Hl&Ha&Hs&H0). rewrite app_nil_r in *.
  destruct (apply_runs s0 hs1 (en_signatures en1)) as (r&c&E2&Hok&Hap).
  rewrite (bind_eq _ _ _ _ _ (onSignatures_runs _ _ _ _ E2)).
  set (en2 := en1 <| en_signatures := c |>).
  assert (coherent en2) as Hen2 by (destruct Hen1 as [? ? Hsig]; split; [done|done|by apply Hok]).
  destruct r as [e|s]; [eexists _, en2; by split_and!|].
  destruct (Hap s eq_refl) as (l1&El1&Hrec&Hs1).
  assert (snapshotAt number hash s) as Hcan.
  { destruct hs1 as [|h1 hs1]; [destruct l1; [|done]; rewrite Hs1; by apply H0|].
    left. apply (applyBy_canonical hash (l0 ++ l1)); [by rewrite fmap_app, El1| |by eapply applyBy_app|].
    - apply Forall_app. split; [done|]. apply (recovered_alike _ _ _ Hrec). apply Hen1.
    - intros [_ ->]%app_eq_nil. done. }
  pose proof (snapshotAt_self number hash s Hcan) as Hself. rewrite bind_modify.
  pose proof (coherent_recents en2 s Hself Hen2) as Hen3.
  destruct (_ && _); cbn [when].
  - rewrite bind_modify. eexists _, _. split; [done|]. split_and!; [by apply coherent_store|done|].
    by intros s' [= <-].
  - rewrite bind_ret. eexists _, _. split; [done|]. split_and!; [done|done|]. by intros s' [= <-].
Qed.

(** C25: A snapshot comes from the chain.  When the lookup of headers returns headers by
    their hash, and the caches hold, under their hashes, snapshots of the chain and
    signers of headers of that hash, [snapshot] returns, with an error or with a snapshot that
    bears the requested hash and is that of genesis updated by headers with the numbers
    from one on, linked by their parent hashes up to the requested one, each counted as a
    vote of an address that has sealed a header of its hash; and it leaves the
    caches in that state.  Only at number 0, where the hash is not compared with that of
    the genesis block, it may be the snapshot of genesis whatever the hash. *)
Theorem snapshot_canonical en number hash parents :
  chain_ok -> coherent en -> 0 <= number ->
  exists r en', snapshot number hash parents en = (Ret r, en') /\ coherent en' /\
    forall s, r = inr s -> snapshotAt number hash s.
Proof.
  intros Hc Hen Hn. destruct (snapshot_runs en number hash parents Hc Hen Hn) as (r&en'&E&H1&_&H2). by exists r, en'.
Qed.

(** What the acceptance of the seal says: the signer that the cache now has for the
    hash of the header is one of the snapshot of its parent, and the difficulty tells
    whether it is in turn; the extra data of a checkpoint lists the signers. *)
Definition sealed_by_signer (en : Engine) (h : Header) : Prop :=
  exists snap signer turn, snapshotAt (hnum h - 1) (hd_ParentHash h) snap /\
    en_signatures en !! hdr_hash h = Some signer /\
    signer ∈ s_Signers snap /\ inturn snap (hnum h) signer = Some turn /\
    hd_Difficulty h = Some (if turn then diffInTurn else diffNoTurn).

Definition lists_signers (h : Header) : Prop :=
  hnum h mod cfg_Epoch = 0 -> exists snap, snapshotAt (hnum h - 1) (hd_ParentHash h) snap /\
    bytesOf (drop extraVanity (unsealed (hd_Extra h))) = signersBytes snap.

Lemma inturn_signer s n a : a ∈ s_Signers s -> is_Some (inturn s n a).
Proof.
  intros Ha. unfold inturn. cbv zeta. destruct (Z.of_nat (length (signers s)) =? 0) eqn:E; [|by eexists].
  exfalso. destruct (exchangeSort_spec _ (elements (s_Signers s)) eq_refl) as [Hp _].
  apply Permutation_length in Hp.
  assert (length (elements (s_Signers s)) = 0%nat) as H0.
  { rewrite <- Hp. change (length (signers s) = 0%nat). lia. }
  apply nil_length_inv, elements_empty_inv in H0. set_solver.
Qed.

Lemma coherent_signatures en c : coherent en -> signatures_ok c -> coherent (en <| en_signatures := c |>).
Proof. intros [? ? ?] Hc. by split. Qed.

Lemma verifySeal_runs en h parents : chain_ok -> coherent en -> is_Some (hd_Difficulty h) ->
  exists r en', verifySeal h parents en = (Ret r, en') /\ coherent en' /\ same_node en en' /\
    (r = None -> sealed_by_signer en' h).
Proof.
  intros Hc Hen [d Ed]. unfold verifySeal. destruct (Z.eqb_spec (hnum h) 0) as [E0|E0].
  { eexists _, en. by split_and!. }
  assert (0 <= hnum h) by apply u64_range.
  destruct (snapshot_runs en (hnum h - 1) (hd_ParentHash h) parents Hc Hen) as (r&en1&E&Hen1&Hs1&Hcan); [lia|].
  rewrite (bind_eq _ _ _ _ _ E). destruct r as [e|snap]; [eexists _, en1; by split_and!|].
  destruct (ecrecover_runs h (en_signatures en1)) as (r&c&E2&Hok).
  rewrite (bind_eq _ _ _ _ _ (onSignatures_runs _ _ _ _ E2)).
  destruct (Hok (co_signatures _ Hen1)) as [Hc2 Hal].
  set (en2 := en1 <| en_signatures := c |>).
  assert (coherent en2) as Hen2 by by apply coherent_signatures.
  assert (same_node en en2) as Hs2 by (destruct Hs1; by split).
  destruct r as [e|signer]; [eexists _, en2; by split_and!|].
  destruct (decide (signer ∈ s_Signers snap)) as [Hin|Hin]; cycle 1.
  { rewrite bool_decide_false by done. eexists _, en2. by split_and!. }
  rewrite bool_decide_true by done. cbn [negb].
  destruct (inturn_signer snap (hnum h) signer Hin) as [turn Et]. rewrite Et, Ed.
  eexists _, en2. split_and!; [done|done|done|].
  destruct (Z.eqb_spec d (if turn then diffInTurn else diffNoTurn)) as [->|]; [|done].
  intros _. exists snap, signer, turn. pose proof (ecrecover_cached _ _ _ _ E2). split_and!; auto.
Qed.

(** What a header must be like by itself. *)
Record wellFormed (h : Header) : Prop := {
  wf_number : is_Some (hd_Number h);
  wf_time : hd_Time h <= now;
  wf_nonce : hd_Nonce h = nonceAuthVote \/ hd_Nonce h = nonceDropVote;
  wf_extra : (extraVanity + extraSeal <= length (hd_Extra h))%nat;
  wf_plain : hnum h mod cfg_Epoch <> 0 -> length (hd_Extra h) = (extraVanity + extraSeal)%nat;
  wf_checkpoint : hnum h mod cfg_Epoch = 0 -> hd_Coinbase h = zeroAddr /\ hd_Nonce h = nonceDropVote /\
    ((length (hd_Extra h) - extraVanity - extraSeal) mod AddressLength = 0)%nat;
  wf_mixDigest : hd_MixDigest h = zeroHash;
  wf_uncles : hd_UncleHash h = uncleHash;
  wf_difficulty : 0 < hnum h -> hd_Difficulty h = Some diffInTurn \/ hd_Difficulty h = Some diffNoTurn;
}.

Lemma standalone_wellFormed h : verifyStandalone h = None -> wellFormed h.
Proof.
  unfold verifyStandalone. destruct (hd_Number h) as [n|] eqn:En; [|done]. cbv zeta.
  repeat (match goal with |- context [if ?b then Some _ else _] => destruct b eqn:?; [done|] end). intros _.
  repeat match goal with
  | H : _ && _ = false |- _ => apply andb_false_iff in H
  | H : negb _ = false |- _ => apply negb_false_iff in H
  | H : bool_decide _ = true |- _ => apply bool_decide_eq_true in H
  end.
  assert (extraVanity + extraSeal <= length (hd_Extra h))%nat as Hx by by apply Nat.ltb_ge.
  split; [by eexists|by apply Z.ltb_ge| |done| | |done|done|].
  - destruct Heqb1 as [H%negb_false_iff|H%negb_false_iff]; apply bool_decide_eq_true in H; auto.
  - intros Hm%Z.eqb_neq. rewrite Hm in Heqb5. destruct Heqb5 as [H|H%negb_false_iff]; [done|].
    apply Nat.eqb_eq in H. clear -H Hx. lia.
  - intros Hm%Z.eqb_eq. rewrite Hm in Heqb0, Heqb2, Heqb6.
    destruct Heqb0 as [|H0%negb_false_iff]; [done|]. destruct Heqb2 as [|H2%negb_false_iff]; [done|].
    destruct Heqb6 as [|H6%negb_false_iff]; [done|]. apply bool_decide_eq_true in H0, H2. by apply Nat.eqb_eq in H6.
  - intros Hp%Z.ltb_lt. rewrite Hp in Heqb9. destruct Heqb9 as [|H9]; [done|].
    destruct (hd_Difficulty h) as [d|]; [|done].
    apply andb_false_iff in H9 as [H|H]; apply negb_false_iff, Z.eqb_eq in H; subst d; auto.
Qed.

Lemma standalone_difficulty h :
  verifyStandalone h = None -> hnum h <> 0 -> is_Some (hd_Difficulty h).
Proof.
  intros Hs%standalone_wellFormed Hn. assert (0 <= hnum h) by apply u64_range.
  destruct (wf_difficulty h Hs) as [->| ->]; [lia|by eexists|by eexists].
Qed.

(** The header a header is built on: the last of the parents, or without parents one of
    the chain. *)
Definition parentHeader (parents : list Header) (h : Header) : option Header :=
  match last parents with Some p => Some p | None => chain_GetHeader (hd_ParentHash h) (hnum h - 1) end.

Definition timely_child (parents : list Header) (h : Header) : Prop :=
  exists p, parentHeader parents h = Some p /\ hdr_hash p = hd_ParentHash h /\ hnum p = hnum h - 1 /\
    u64 (u64 (hd_Time p) + cfg_Period) <= u64 (hd_Time h).

Lemma last_rev {A} (l : list A) : match List.rev l with [] => None | x :: _ => Some x end = last l.
Proof. destruct l as [|x l _] using rev_ind; [done|]. by rewrite rev_unit, last_snoc. Qed.

(** A header above genesis that is accepted. *)
Definition sound_child (en : Engine) (parents : list Header) (h : Header) : Prop :=
  timely_child parents h /\ lists_signers h /\ sealed_by_signer en h.

Lemma verifyHeader_runs en h parents : chain_ok -> coherent en ->
  exists r en', verifyHeader h parents en = (Ret r, en') /\ coherent en' /\ same_node en en' /\
    (r = None -> wellFormed h /\ (hnum h <> 0 -> sound_child en' parents h)).
Proof.
  intros Hc Hen. unfold verifyHeader. destruct (verifyStandalone h) as [e|] eqn:Est; [by eexists _, en|].
  pose proof (standalone_wellFormed h Est) as Hwf.
  unfold verifyCascadingFields. cbv zeta. destruct (Z.eqb_spec (hnum h) 0) as [E0|E0].
  { eexists _, en. by split_and!. }
  assert ((match List.rev parents with p :: _ => Some p | [] => chain_GetHeader (hd_ParentHash h) (hnum h - 1) end)
    = parentHeader parents h) as -> by (unfold parentHeader; rewrite <- last_rev; by destruct (List.rev parents)).
  destruct (parentHeader parents h) as [p|] eqn:Epar; [|by eexists _, en].
  destruct (negb (hnum p =? _) || _) eqn:Ep; [by eexists _, en|].
  destruct (u64 (hd_Time h) <? _) eqn:Et; [by eexists _, en|].
  assert (0 <= hnum h) by apply u64_range.
  destruct (snapshot_runs en (hnum h - 1) (hd_ParentHash h) parents Hc Hen) as (r&en1&E&Hen1&Hs1&Hsn); [lia|].
  rewrite (bind_eq _ _ _ _ _ E). destruct r as [e|snap]; [eexists _, en1; by split_and!|].
  destruct (_ && _) eqn:Ech; [eexists _, en1; by split_and!|].
  destruct (verifySeal_runs en1 h parents Hc Hen1 (standalone_difficulty h Est E0)) as (r&en2&E2&Hen2&Hs2&Hr).
  exists r, en2. split_and!; [done|done|destruct Hs1, Hs2; split; congruence|].
  intros -> . split; [done|]. intros _. apply orb_false_iff in Ep as [Ep1 Ep2]. apply negb_false_iff in Ep1, Ep2.
  apply bool_decide_eq_true in Ep2. split_and!; [|intros Hm; exists snap; split; [by apply Hsn|]|by apply Hr].
  - exists p. split_and!; [done|done|lia|lia].
  - rewrite (proj2 (Z.eqb_eq _ 0) Hm) in Ech. by apply negb_false_iff, bool_decide_eq_true in Ech.
Qed.

(** C24: The verification of a header returns, on any header, when the lookup of headers
    returns headers by their hash and the caches agree with the chain.  A header that it
    accepts has the fields that a header of its number must have by itself.  Above genesis,
    the last of the parents given, or else the header that the chain has for its parent
    hash, has that hash, the number before and a time at least the block period earlier; a
    checkpoint lists the signers of the snapshot of its parent; and the signer that the
    cache has in the end for the hash of the header is one of this snapshot and has the
    difficulty that tells whether it is in turn.  That this signer has sealed the
    header itself does not follow, only that it has sealed one with the same hash;
    see [EngineProofs.seal_reused]. *)
Theorem verifyHeader_sound en h parents :
  chain_ok -> coherent en ->
  exists r en', verifyHeader h parents en = (Ret r, en') /\ coherent en' /\
    (r = None -> wellFormed h /\ (hnum h <> 0 -> sound_child en' parents h)).
Proof.
  intros Hc Hen. destruct (verifyHeader_runs en h parents Hc Hen) as (r&en'&E&H1&_&H2). by exists r, en'.
Qed.

(** All headers of a batch get a result. *)
Lemma verifyHeaders_runs en parents hs : chain_ok -> coherent en ->
  exists rs en', verifyHeaders parents hs en = (Ret rs, en') /\ coherent en' /\ length rs = length hs.
Proof.
  intros Hc. revert en parents. induction hs as [|h hs IH]; intros en parents Hen; cbn [verifyHeaders].
  { by eexists _, en. }
  destruct (verifyHeader_runs en h parents Hc Hen) as (r&en1&E1&Hen1&_&_).
  rewrite (bind_eq _ _ _ _ _ E1). destruct (IH en1 (parents ++ [h]) Hen1) as (rs&en2&E2&Hen2&Hl).
  rewrite (bind_eq _ _ _ _ _ E2). eexists _, en2. split_and!; [done|done|by cbn; rewrite Hl].
Qed.
End Canonical.

(** ** Instances *)

(** A chain of two headers of signer "alice", in a world where a signature is an
    address and a checksum of what it signs. *)
Section Sample.
Local Open Scope string_scope.

(** Eight bytes; each byte of a text is added without carry to one of them, in turn,
    which is rotated. *)
Definition mixByte (a c : Ascii.ascii) : Ascii.ascii :=
  match a, c with
  | Ascii.Ascii a0 a1 a2 a3 a4 a5 a6 a7, Ascii.Ascii c0 c1 c2 c3 c4 c5 c6 c7 =>
      Ascii.Ascii (xorb a7 c0) (xorb a0 c1) (xorb a1 c2) (xorb a2 c3) (xorb a3 c4) (xorb a4 c5) (xorb a5 c6) (xorb a6 c7)
  end.
Fixpoint mixBytes (l : list Ascii.ascii) (s : string) : string :=
  match s, l with
  | String c s, a :: l => mixBytes (l ++ [mixByte a c]) s
  | _, _ => String.string_of_list_ascii l
  end.
Definition checksum (s : string) : string := mixBytes (repeat Ascii.one 8) s.
Fixpoint render (v : rlpVal) : string :=
  match v with
  | RInt z => pretty z +:+ ","
  | RBytes s => s +:+ ";"
  | RNil => "-"
  | RList l => "[" +:+ String.concat "" (map render l) +:+ "]"
  end.
Definition pad (n : nat) (s : string) : string := take_bytes n (s +:+ repeatByte (n - String.length s) Ascii.zero).
Definition sampleSign (a : Address) (hash : string) : string := a +:+ pad 45 hash.

#[local] Instance sealEnv : TxEnv := {|
  rlpHash l := checksum (render (RList l));
  zkHash := checksum;
  Ecrecover hash sig :=
    if bool_decide (drop_bytes 20 sig = pad 45 hash) then Some (String (Ascii.ascii_of_nat 4) (take_bytes 20 sig)) else None;
  hibeVerify _ _ _ _ := true;
  txSize _ := 100 |}.
#[local] Instance sealHash : HashEnv := {| Keccak256 s := zeros 12 +:+ s |}.
Definition checksumEnv : MerkleEnv := {| shaCombine a b := checksum (a +:+ b) |}.

Definition alice : Address := pad 20 "alice".
Definition bob : Address := pad 20 "bob".
Definition extraOf (mid : string) : list Ascii.ascii :=
  String.list_ascii_of_string (repeatByte 32 Ascii.zero +:+ mid +:+ repeatByte 65 Ascii.zero).

(** A header with the three roots its hash is over. *)
Definition headerOf (number time : Z) (parent roots coinbase nonce mid : string) : Header :=
  mkHeader parent "uncles" coinbase ("root" +:+ roots) ("funds" +:+ roots) [] ("txs" +:+ roots) "receipts" "bloom"
    (Some 2) (Some number) 4000000 0 time (extraOf mid) zeroHash nonce.
Definition hashOf (roots : string) : string := checksum ("txs" +:+ roots +:+ "root" +:+ roots +:+ "funds" +:+ roots).
Definition sealed (a : Address) (h : Header) : Header := withSeal h (sampleSign a (default "" (sigHash h))).

Definition sampleGenesis : Header := headerOf 0 0 zeroHash "0" zeroAddr nonceDropVote alice.
(* alice adds bob, alone *)
Definition sampleHeader1 : Header := sealed alice (headerOf 1 100 (hashOf "0") "1" bob nonceAuthVote "").
(** She removes herself. *)
Definition sampleHeader2 : Header :=
  sealed alice ((headerOf 2 200 (hashOf "1") "2" alice nonceDropVote "") <| hd_Difficulty := Some 2 |>).

#[local] Instance Vote_eq : EqDecision Vote. Proof. solve_decision. Defined.
#[local] Instance Vote_countable : Countable Vote.
Proof.
  apply (inj_countable' (fun v => (v_Signer v, v_Block v, v_Address v, v_Authorize v))
    (fun '(a, b, c, d) => mkVote a b c d)). by intros [].
Defined.
#[local] Instance Tally_eq : EqDecision Tally. Proof. solve_decision. Defined.
#[local] Instance Tally_countable : Countable Tally.
Proof.
  apply (inj_countable' (fun t => (ta_Authorize t, ta_Votes t)) (fun '(a, b) => mkTally a b)). by intros [].
Defined.
#[local] Instance Snapshot_eq : EqDecision Snapshot. Proof. solve_decision. Defined.
#[local] Instance Snapshot_countable : Countable Snapshot.
Proof.
  apply (inj_countable' (fun s => (s_Number s, s_Hash s, s_Signers s, s_Votes s, s_Tally s))
    (fun '(a, b, c, d, e) => mkSnapshot a b c d e)). by intros [].
Defined.

#[local] Program Instance sampleConfig : HeaderEnv := {|
  CalcUncleHash _ := "uncles";
  cfg_Epoch := 30000%Z;
  cfg_Period := 15%Z;
  marshalSnapshot s := digits (encode s);
  unmarshalSnapshot b := decode (undigits b) |}.
Next Obligation. intros s. cbn. by rewrite undigits_digits, decode_encode. Qed.

#[local] Program Instance sampleChain : ChainEnv := {|
  chain_GetHeader hash n :=
    if decide (hash = hashOf "0" /\ n = 0%Z) then Some sampleGenesis
    else if decide (hash = hashOf "1" /\ n = 1%Z) then Some sampleHeader1 else None;
  chain_genesis := sampleGenesis;
  now := 1000%Z |}.
Next Obligation. done. Qed.

Definition freshEngine : Engine := mkEngine ∅ ∅ ∅ ∅ alice 0.

Lemma sampleChain_ok : chain_ok.
Proof.
  intros hash n h. unfold chain_GetHeader, sampleChain. repeat case_decide; [| |done].
  all: destruct_and?; subst; intros [= <-]; vm_compute; reflexivity.
Qed.

Lemma freshEngine_coherent : coherent freshEngine.
Proof. split; [apply map_Forall_empty|by intros hash s|apply map_Forall_empty]. Qed.

(** What alice's two headers do to the genesis snapshot. *)
Lemma apply_refines_witness :
  exists s' c', apply genesisSnapshot [sampleHeader1; sampleHeader2] ∅ = (Ret (inr s'), c') /\
    idle s' /\ consecutive 0 [sampleHeader1; sampleHeader2] /\ s_Hash s' = hdr_hash sampleHeader2 /\
    exists l, l.*1 = [sampleHeader1; sampleHeader2] /\ specVotes (s_Signers genesisSnapshot) l = Some (s_Signers s').
Proof.
  destruct (apply_refines genesisSnapshot [sampleHeader1; sampleHeader2] ∅) as (r&c'&E&Hr); [by split|].
  assert (match (apply genesisSnapshot [sampleHeader1; sampleHeader2] ∅).1 with Ret (inr _) => true | _ => false end = true)
    as Hok by (vm_compute; reflexivity).
  rewrite E in Hok. destruct r as [e|s']; [discriminate Hok|].
  destruct Hr as (Hi&Hc&(l&El&_&Hs)&[[[=] _]|(h&Eh&Ehh&_)]). injection Eh as <-. exists s', c'.
  split_and!; [exact E|exact Hi|exact Hc|exact Ehh|].
  exists l. split; [exact El|exact Hs].
Defined.

Lemma signers_sorted_witness :
  let s := newSnapshot 0 "block0" [bob; alice] in
  signersFrom [alice; bob] = signers s /\ signers s ≡ₚ elements (s_Signers s) /\
  StronglySorted strings.String.le (signers s) /\ NoDup (signers s).
Proof.
  apply (signers_sorted (newSnapshot 0 "block0" [bob; alice]) [alice; bob]).
  apply (bool_decide_unpack _). vm_compute. exact I.
Defined.

Lemma snapshot_canonical_witness :
  exists s en', snapshot 1 (hashOf "1") [] freshEngine = (Ret (inr s), en') /\
    snapshotAt 1 (hashOf "1") s /\ s_Hash s = hashOf "1" /\ coherent en'.
Proof.
  destruct (snapshot_canonical freshEngine 1 (hashOf "1") []) as (r&en'&E&H1&H2);
    [apply sampleChain_ok|apply freshEngine_coherent|done|].
  assert (match (snapshot 1 (hashOf "1") [] freshEngine).1 with Ret (inr _) => true | _ => false end = true)
    as Hok by (vm_compute; reflexivity).
  rewrite E in Hok. destruct r as [e|s]; [discriminate Hok|].
  exists s, en'. destruct (H2 s eq_refl) as [Hs|[[=] _]]. split_and!; [exact E|by left|apply Hs|exact H1].
Defined.

Lemma verifyHeader_sound_witness :
  exists en', verifyHeader sampleHeader2 [] freshEngine = (Ret None, en') /\
    wellFormed sampleHeader2 /\ sound_child en' [] sampleHeader2.
Proof.
  assert ((verifyHeader sampleHeader2 [] freshEngine).1 = Ret None) as Hv by (vm_compute; reflexivity).
  destruct (verifyHeader_sound freshEngine sampleHeader2 [] sampleChain_ok freshEngine_coherent) as (r&en'&E&_&Hr).
  rewrite E in Hv. injection Hv as ->. exists en'. destruct (Hr eq_refl) as [H1 H2].
  split_and!; [exact E|exact H1|apply H2; vm_compute; congruence].
Defined.
End Sample.
