(* ===== verification/Engine.v ===== *)
(** * Engine: the making and the import of blocks

    Models what else the consensus engine of [consensus/pbft/pbft.go] does with
    headers and blocks ([Prepare], [Finalize], [Seal], [Authorize],
    [VerifyUncles]), its RPC interface [consensus/pbft/api.go], the block of
    [core/types/block.go], and [core/block_validator.go]. *)
From S2P Require Import Prelude.
From S2P Require Import Messages.
From S2P Require Import PbftState.
From S2P Require Import StateDB.
From S2P Require Import Tx.
From S2P Require Import ZkTx.
From S2P Require Import Merkle.
From S2P Require Import Header.
From S2P Require Import Snapshot.
From S2P Require Import HeaderRules.

Local Abbreviation ME := (M Engine).

(** The byte slice of an address. *)
Definition bytesList (s : string) : list Ascii.ascii := String.list_ascii_of_string s.
Definition zeroBytes (n : nat) : list Ascii.ascii := replicate n Ascii.zero.

(** [DefaultPbftID]: a node that takes no part in the agreement. *)
Definition DefaultPbftID : Z := 1000.

Record Block := mkBlock { b_header : Header; b_transactions : list Transaction; b_uncles : list Header }.

(** What is not modelled: the hash of the account trie, the trie and the bloom
    filter of receipts, which are here their encodings, and the key store. *)
Class BlockEnv := {
  trieRoot : gmap string Account -> string;
  receiptRoot : list string -> string;
  createBloom : list string -> string;
  signFn : Address -> string -> option string;
}.

Section Engine.
Context `{TE : TxEnv} `{HA : HashEnv} `{HE : HeaderEnv} `{CE : ChainEnv} `{MK : MerkleEnv} `{BE : BlockEnv}.

(** ** Making a block *)

(** The proposals that [Prepare] votes on: the [choice]-th of those that make
    sense. *)
Definition pickProposal (snap : Snapshot) (proposals : gmap Address bool) (choice : nat) : option (Address * bool) :=
  let votable := List.filter (fun e => validVote snap e.1 e.2) (map_to_list proposals) in
  votable !! (choice mod length votable)%nat.

(** The extra data: the vanity of 32 bytes, the signers at the start of an epoch,
    and room for the seal. *)
Definition prepareExtra (extra : list Ascii.ascii) (listed : list Address) : list Ascii.ascii :=
  take extraVanity (extra ++ zeroBytes (extraVanity - length extra)) ++ concat (map bytesList listed)
  ++ zeroBytes extraSeal.

(** [Prepare] at a time and with a random choice: the error, and the header, which
    is changed in place. *)
Definition Prepare (time : Z) (choice : nat) (header : Header) : ME (option verr * Header) :=
  let h := header <| hd_Coinbase := zeroAddr |> <| hd_Nonce := nonceDropVote |> in
  let number := hnum h in
  r <- snapshot (u64 (number - 1)) (hd_ParentHash h) [] ;;
  match r with
  | inl e => ret (Some e, h)
  | inr snap =>
      en <- get ;;
      let checkpoint := number mod cfg_Epoch =? 0 in
      let h :=
        match (if checkpoint then None else pickProposal snap (en_proposals en) choice) with
        | Some (address, authorize) =>
            h <| hd_Coinbase := address |> <| hd_Nonce := if authorize then nonceAuthVote else nonceDropVote |>
        | None => h
        end in
      match inturn snap number (en_signer en) with
      | None => panic
      | Some turn =>
          let h := h <| hd_Difficulty := Some (if turn then diffInTurn else diffNoTurn) |>
                     <| hd_Extra := prepareExtra (hd_Extra h) (if checkpoint then signers snap else []) |>
                     <| hd_MixDigest := zeroHash |> in
          match chain_GetHeader (hd_ParentHash h) (u64 (number - 1)) with
          | None => ret (Some ErrUnknownAncestor, h)
          | Some parent =>
              let t := hd_Time parent + cfg_Period in
              ret (None, h <| hd_Time := if int64_of_u64 (u64 t) <? time then time else t |>)
          end
      end
  end.

(** [CopyHeader]: a number that is nil becomes zero. *)
Definition CopyHeader (h : Header) : Header :=
  h <| hd_Difficulty := Some (default 0 (hd_Difficulty h)) |> <| hd_Number := Some (default 0 (hd_Number h)) |>.

(** The hashes of no transactions, receipts and uncles. *)
Definition EmptyTxRootHash : option string := DeriveShaTx [].
Definition EmptyRootHash : string := receiptRoot [].
Definition EmptyUncleHash : string := CalcUncleHash [].

(** [NewBlock]; hashing a transaction without a sender panics. *)
Definition NewBlock (header : Header) (txs : list Transaction) (uncles : list Header) (receipts : list string)
    : option Block :=
  txHash ← (if decide (txs = []) then EmptyTxRootHash else DeriveShaTx txs);
  let h := CopyHeader header <| hd_TxHash := txHash |> in
  let h := if decide (receipts = []) then h <| hd_ReceiptHash := EmptyRootHash |>
           else h <| hd_ReceiptHash := receiptRoot receipts |> <| hd_Bloom := createBloom receipts |> in
  let h := h <| hd_UncleHash := if decide (uncles = []) then EmptyUncleHash else CalcUncleHash uncles |> in
  Some (mkBlock h txs (map CopyHeader uncles)).

(** [Finalize]: the block over the state it leaves; uncles are dropped. *)
Definition Finalize (eip158 : bool) (header : Header) (txs : list Transaction) (receipts zkfunds : list string)
    : M StateDB Block :=
  IntermediateRoot eip158 ;;
  s <- get ;;
  match DeriveShaZkfunds zkfunds with
  | None => panic
  | Some rootCMTfd =>
      let h := header <| hd_Root := trieRoot (sdb_trie s) |> <| hd_UncleHash := CalcUncleHash [] |>
                      <| hd_ZKFunds := zkfunds |> <| hd_RootCMTfd := rootCMTfd |> in
      match NewBlock h txs [] receipts with
      | None => panic
      | Some b => ret b
      end
  end.

(** [Seal] up to the block that it hands over to the agreement, on a node with the
    configuration [cfg] in a view; the wait for the time of the block and for the
    agreement is left out. *)
Definition Seal (cfg : Config) (view : Z) (block : Block) : ME (verr + Block) :=
  en <- get ;;
  if en_id en =? DefaultPbftID then ret (inl errNotVP)
  else if negb (primary cfg view =? cfg_id cfg) then ret (inl ErrNotPrimary)
  else
    let header := CopyHeader (b_header block) in
    if hnum header =? 0 then ret (inl errUnknownBlock)
    else
      let signer := en_signer en in
      r <- snapshot (hnum header - 1) (hd_ParentHash header) [] ;;
      match r with
      | inl e => ret (inl e)
      | inr snap =>
          if negb (bool_decide (signer ∈ s_Signers snap)) then ret (inl errUnauthorized)
          else
            match sigHash header with
            | None => panic
            | Some hash =>
                match signFn signer hash with
                | None => ret (inl errSign)
                | Some sighash =>
                    ret (inr (mkBlock (withSeal header sighash) (b_transactions block) (b_uncles block)))
                end
            end
      end.

(** [Authorize]. *)
Definition Authorize (signer : Address) : ME unit := modify (fun en => en <| en_signer := signer |>).

(** ** The RPC interface *)

Definition GetSnapshot (header : option Header) : ME (verr + Snapshot) :=
  match header with
  | None => ret (inl errUnknownBlock)
  | Some h => snapshot (hnum h) (hdr_hash h) []
  end.
Definition GetSigners (header : option Header) : ME (verr + list Address) :=
  match header with
  | None => ret (inl errUnknownBlock)
  | Some h =>
      r <- snapshot (hnum h) (hdr_hash h) [] ;;
      match r with inl e => ret (inl e) | inr snap => ret (inr (signers snap)) end
  end.
Definition Proposals : ME (gmap Address bool) := gets en_proposals.
Definition Propose (address : Address) (auth : bool) : ME unit :=
  en <- get ;;
  if en_id en =? DefaultPbftID then ret tt
  else modify (fun en => en <| en_proposals ::= <[address := auth]> |>).
Definition Discard (address : Address) : ME unit :=
  en <- get ;;
  if en_id en =? DefaultPbftID then ret tt
  else modify (fun en => en <| en_proposals ::= delete address |>).

(** ** Validating a block *)

Inductive blockErr :=
| ErrKnownBlock | errParentUnknown | errUncles | errUncleRoot | errTxRoot | errGasUsed | errBloom
| errReceiptRoot | errStateRoot.

(** [VerifyUncles]. *)
Definition VerifyUncles (block : Block) : option blockErr :=
  if decide (b_uncles block = []) then None else Some errUncles.

(** [ValidateBody], given which blocks are known with their state; [None] when the
    hash of a transaction panics. *)
Definition ValidateBody (HasBlockAndState : string -> bool) (block : Block) : option (option blockErr) :=
  let header := CopyHeader (b_header block) in
  if HasBlockAndState (hdr_hash header) then Some (Some ErrKnownBlock)
  else if negb (HasBlockAndState (hd_ParentHash header)) then Some (Some errParentUnknown)
  else
    match VerifyUncles block with
    | Some e => Some (Some e)
    | None =>
        if negb (bool_decide (CalcUncleHash (b_uncles block) = hd_UncleHash header)) then Some (Some errUncleRoot)
        else
          txHash ← DeriveShaTx (b_transactions block);
          Some (if bool_decide (txHash = hd_TxHash header) then None else Some errTxRoot)
    end.

(** [ValidateState]. *)
Definition ValidateState (eip158 : bool) (block : Block) (receipts : list string) (usedGas : Z)
    : M StateDB (option blockErr) :=
  let header := CopyHeader (b_header block) in
  if negb (hd_GasUsed header =? usedGas) then ret (Some errGasUsed)
  else if negb (bool_decide (createBloom receipts = hd_Bloom header)) then ret (Some errBloom)
  else if negb (bool_decide (receiptRoot receipts = hd_ReceiptHash header)) then ret (Some errReceiptRoot)
  else
    IntermediateRoot eip158 ;;
    s <- get ;;
    ret (if bool_decide (hd_Root header = trieRoot (sdb_trie s)) then None else Some errStateRoot).
End Engine.

(** [CalcGasLimit], of the gas that the parent used and its limit. *)
Definition GasLimitBoundDivisor : Z := 1024.
Definition MinGasLimit : Z := 5000.
Definition TargetGasLimit : Z := 4712388.
Definition CalcGasLimit (parentGasUsed parentGasLimit : Z) : Z :=
  let contrib := parentGasUsed * 3 / 2 / GasLimitBoundDivisor in
  let decay := parentGasLimit / GasLimitBoundDivisor - 1 in
  let gl := Z.max (parentGasLimit - decay + contrib) MinGasLimit in
  if gl <? TargetGasLimit then Z.min (parentGasLimit + decay) TargetGasLimit else gl.
