(* ===== verification/EngineProofs.v ===== *)
(** * EngineProofs: blocks that are made are accepted, and which others are

    The header that [Prepare], [Finalize] and [Seal] make passes the checks of the
    engine and of the block validator; and what these checks do not see. *)
From S2P Require Import Prelude.
From S2P Require Import Messages.
From S2P Require Import PbftState.
From S2P Require Import StateDB.
From S2P Require Import StateRoot.
From S2P Require Import Tx.
From S2P Require Import ZkTx.
From S2P Require Import Merkle.
From S2P Require Import Header.
From S2P Require Import Snapshot.
From S2P Require Import HeaderRules.
From S2P Require Import Engine.

Section Proofs.
Context `{TE : TxEnv} `{HA : HashEnv} `{HE : HeaderEnv} `{CE : ChainEnv} `{MK : MerkleEnv} `{BE : BlockEnv}.

(** ** Snapshots are found under their hash *)

Record keyed (en : Engine) : Prop := {
  ky_recents : map_Forall (fun hash s => s_Hash s = hash) (en_recents en);
  ky_db : forall hash s, loadSnapshot (en_db en) hash = Some s -> s_Hash s = hash;
}.

(** The headers of the chain are found by number and hash, and the genesis block is
    the first. *)
Record chain_laws : Prop := {
  cl_hash : chain_ok;
  cl_number : forall hash n h, chain_GetHeader hash n = Some h -> hnum h = n;
  cl_genesis : forall hash h, chain_GetHeader hash 0 = Some h -> h = chain_genesis;
}.

Lemma keyed_recents en s : keyed en -> keyed (en <| en_recents ::= <[s_Hash s := s]> |>).
Proof. intros [H1 H2]. split; [by apply map_Forall_insert_2|done]. Qed.
Lemma keyed_store en s : keyed en -> keyed (en <| en_db ::= store s |>).
Proof.
  intros [H1 H2]. split; [done|]. intros hash s'. cbn [en_db upd]. rewrite load_store.
  case_decide as E; [|apply H2]. intros [= <-]. by rewrite E.
Qed.

(** The walk back returns the snapshot at the hash, or headers that end there. *)
Lemma walkBack_keyed fuel number hash headers0 en s headers en' : chain_ok -> keyed en ->
  walkBack fuel number hash [] headers0 en = (Ret (inr (s, headers)), en') ->
  keyed en' /\
  (headers = headers0 /\ (s_Hash s = hash \/ number = 0 /\ s = genesisSnapshot) \/
   exists hs h, headers = hs ++ h :: headers0 /\ hdr_hash h = hash).
Proof.
  intros Hc. revert number hash headers0 en. induction fuel as [|fuel IH]; intros number hash headers0 en Hk; [done|].
  cbn [walkBack]. rewrite bind_get.
  destruct (en_recents en !! hash) as [s0|] eqn:E1.
  { intros [= <- <- <-]. split; [done|]. left. split; [done|]. left. by apply (ky_recents en Hk). }
  destruct (if number mod checkpointInterval =? 0 then loadSnapshot (en_db en) hash else None) as [s0|] eqn:E2.
  { intros [= <- <- <-]. split; [done|]. left. split; [done|]. left.
    destruct (number mod checkpointInterval =? 0); [by apply (ky_db en Hk)|done]. }
  destruct (Z.eqb_spec number 0) as [->|E0].
  - destruct (verifyStandalone chain_genesis); [done|]. cbv zeta. rewrite bind_modify. intros [= <- <- <-].
    split; [by apply keyed_store|]. left. split; [done|]. by right.
  - destruct (nextHeader number hash []) as [h|] eqn:Eh; [|done]. cbn in Eh.
    intros (Hk'&Hr)%IH; [|done]. split; [done|]. right. pose proof (Hc _ _ _ Eh) as Hh.
    destruct Hr as [[-> _]|(hs&h'&->&_)]; [by exists [], h|].
    exists (hs ++ [h']), h. by rewrite <- app_assoc.
Qed.

Lemma onSignatures_inv {A} (m : M Signatures A) en o en' : onSignatures m en = (o, en') ->
  exists c, m (en_signatures en) = (o, c) /\ en' = en <| en_signatures := c |>.
Proof. unfold onSignatures. destruct (m (en_signatures en)) as [o' c]. intros [= <- <-]. by exists c. Qed.

(** A snapshot read once is kept under its hash. *)
Lemma snapshot_keyed number hash en s en' : chain_ok -> keyed en -> number <> 0 \/ hash = hdr_hash chain_genesis ->
  snapshot number hash [] en = (Ret (inr s), en') ->
  keyed en' /\ s_Hash s = hash /\ en_recents en' !! hash = Some s.
Proof.
  intros Hc Hk H0. unfold snapshot. intros (r&en1&E1&H)%bind_inv. destruct r as [e|[s0 headers]]; [done|].
  apply (walkBack_keyed _ _ _ _ _ _ _ _ Hc Hk) in E1 as [Hk1 Hs0].
  apply bind_inv in H as (r&en2&E2&H). apply onSignatures_inv in E2 as (c&Ea&->).
  destruct r as [e|snap]; [done|]. rewrite bind_modify in H.
  assert (s_Hash snap = hash) as Hh.
  { destruct (apply_runs s0 headers (en_signatures en1)) as (r&c'&E'&_&Hap). rewrite Ea in E'. injection E' as <- <-.
    destruct (Hap snap eq_refl) as (l&El&_&Hs). destruct Hs0 as [[-> Hs0]|(hs&h&->&Hh)].
    - apply fmap_nil_inv in El as ->. cbn in Hs. subst snap. destruct Hs0 as [?|[-> ->]]; [done|].
      by destruct H0 as [? | ->].
    - destruct l as [|[h0 a0] l]; [by destruct hs|]. destruct Hs as (_&_&sn&_&->).
      change (hdr_hash (List.last ((h0, a0) :: l).*1 h0) = hash). rewrite El. by rewrite last_last. }
  set (en3 := (en1 <| en_signatures := c |>) <| en_recents ::= <[s_Hash snap := snap]> |>) in H.
  assert (keyed en3) as Hk3 by (apply (keyed_recents (en1 <| en_signatures := c |>)); destruct Hk1; by split).
  assert (en_recents en3 !! hash = Some snap) as Hin by (rewrite <- Hh; apply lookup_insert_eq).
  destruct (_ && _); cbn [when] in H.
  - rewrite bind_modify in H. injection H as <- <-. split_and!; [by apply keyed_store|done|done].
  - rewrite bind_ret in H. by injection H as <- <-.
Qed.

(** Reading it again changes nothing. *)
Lemma snapshot_known number hash parents en s : en_recents en !! hash = Some s -> s_Hash s = hash ->
  snapshot number hash parents en = (Ret (inr s), en).
Proof.
  intros E <-. unfold snapshot. cbn [walkBack]. unfold bind at 1. rewrite bind_get, E. cbn [ret].
  unfold bind at 1, onSignatures. cbn [apply ret].
  assert (en <| en_signatures := en_signatures en |> = en) as -> by by destruct en.
  rewrite bind_modify, bool_decide_true by done. rewrite andb_false_r. cbn [when]. rewrite bind_ret.
  assert (en <| en_recents ::= <[s_Hash s := s]> |> = en) as ->; [|done].
  destruct en as [r d c p g i]. change (mkEngine (<[s_Hash s := s]> r) d c p g i = mkEngine r d c p g i).
  by rewrite insert_id.
Qed.

(** ** The extra data *)

Lemma bytesOf_app a b : bytesOf (a ++ b) = bytesOf a +:+ bytesOf b.
Proof. unfold bytesOf. induction a as [|c a IH]; [done|]. cbn. by rewrite IH. Qed.

Lemma bytesOf_concat l : bytesOf (concat (map bytesList l)) = String.concat EmptyString l.
Proof.
  induction l as [|s l IH]; [done|]. cbn [map concat]. rewrite bytesOf_app, IH.
  unfold bytesOf at 1, bytesList. rewrite String.string_of_list_ascii_of_string.
  destruct l as [|s' l]; [|done]. clear. induction s as [|c s IHs]; [done|]. exact (f_equal (String c) IHs).
Qed.

Lemma length_bytesList s : length (bytesList s) = String.length s.
Proof. unfold bytesList. induction s; cbn; congruence. Qed.

Lemma prepareExtra_parts extra listed : let e := prepareExtra extra listed in
  length e = (extraVanity + length (concat (map bytesList listed)) + extraSeal)%nat /\
  drop extraVanity (unsealed e) = concat (map bytesList listed).
Proof.
  set (v := take extraVanity (extra ++ zeroBytes (extraVanity - length extra))).
  assert (length v = extraVanity) as Hv.
  { unfold v, zeroBytes. rewrite length_take, length_app, length_replicate. lia. }
  intros e. assert (e = (v ++ concat (map bytesList listed)) ++ zeroBytes extraSeal) as -> by exact (app_assoc v _ _).
  assert (length (zeroBytes extraSeal) = extraSeal) as Hz by apply length_replicate.
  split; [rewrite !length_app, Hz; lia|]. unfold unsealed. rewrite length_app, Hz, Nat.add_sub, take_app_length.
  by rewrite <- Hv, drop_app_length.
Qed.

(** ** What [Prepare] leaves *)

(** A header ready to be filled and sealed by the signer of the engine, with the
    snapshot and the header of its parent. *)
Record prepared (en : Engine) (h : Header) (snap : Snapshot) (turn : bool) (p : Header) : Prop := {
  pp_keyed : keyed en;
  pp_snapshot : en_recents en !! hd_ParentHash h = Some snap;
  pp_hash : s_Hash snap = hd_ParentHash h;
  pp_parent : chain_GetHeader (hd_ParentHash h) (hnum h - 1) = Some p;
  pp_turn : inturn snap (hnum h) (en_signer en) = Some turn;
  pp_difficulty : hd_Difficulty h = Some (if turn then diffInTurn else diffNoTurn);
  pp_time : exists time, let t := hd_Time p + cfg_Period in
    hd_Time h = if int64_of_u64 (u64 t) <? time then time else t;
  pp_nonce : hd_Nonce h = nonceAuthVote \/ hd_Nonce h = nonceDropVote;
  pp_checkpoint : hnum h mod cfg_Epoch = 0 -> hd_Coinbase h = zeroAddr /\ hd_Nonce h = nonceDropVote;
  pp_extra : exists extra, hd_Extra h = prepareExtra extra (if hnum h mod cfg_Epoch =? 0 then signers snap else []);
  pp_mix : hd_MixDigest h = zeroHash;
}.

Lemma Prepare_prepared time choice header en h en' : chain_laws -> keyed en -> 0 < hnum header ->
  Prepare time choice header en = (Ret (None, h), en') ->
  exists snap turn p, prepared en' h snap turn p /\ hd_Number h = hd_Number header /\
    hd_ParentHash h = hd_ParentHash header.
Proof.
  intros Hcl Hk Hn. unfold Prepare. set (h0 := (header <| hd_Coinbase := zeroAddr |>) <| hd_Nonce := _ |>).
  change (hnum h0) with (hnum header). change (hd_ParentHash h0) with (hd_ParentHash header).
  assert (u64 (hnum header - 1) = hnum header - 1) as ->.
  { pose proof (u64_range (default 0 (hd_Number header))) as Hr. apply u64_small. unfold is_u64, hnum in *. lia. }
  intros (r&en1&E1&H)%bind_inv. destruct r as [e|snap]; [done|]. rewrite bind_get in H.
  set (ck := hnum header mod cfg_Epoch =? 0) in *. cbv zeta in H.
  set (h1 := match _ with Some _ => _ | None => h0 end) in H.
  assert (hd_Number h1 = hd_Number header /\ hd_ParentHash h1 = hd_ParentHash header /\
          (hd_Nonce h1 = nonceAuthVote \/ hd_Nonce h1 = nonceDropVote) /\
          (ck = true -> hd_Coinbase h1 = zeroAddr /\ hd_Nonce h1 = nonceDropVote)) as (En&Epa&Hno&Hck).
  { unfold h1. destruct ck; [split_and!; [done|done|by right|done]|].
    destruct (pickProposal _ _ _) as [[a [] ]|]; (split_and!; [done|done| |done]); [by left|by right|by right]. }
  clearbody h1. destruct (inturn snap (hnum header) (en_signer en1)) as [turn|] eqn:Et; [|done].
  destruct (chain_GetHeader (hd_ParentHash _) (hnum header - 1)) as [p|] eqn:Ep; [|done].
  injection H as <- <-.
  assert (hnum h1 = hnum header) as Eh1 by (unfold hnum; by rewrite En).
  cbn [hd_ParentHash upd] in Ep. rewrite Epa in Ep.
  destruct (snapshot_keyed (hnum header - 1) (hd_ParentHash header) en snap en1) as (Hk1&Hs&Hin);
    [apply Hcl|done| |done|].
  { destruct (Z.eqb_spec (hnum header - 1) 0) as [E0|]; [right|by left].
    rewrite E0 in Ep. rewrite <- (cl_genesis Hcl _ _ Ep). symmetry. by eapply (cl_hash Hcl). }
  eexists snap, turn, p. split; [|done].
  split; cbn [upd hd_ParentHash hd_Difficulty hd_Nonce hd_Coinbase hd_Extra hd_MixDigest hd_Time];
    rewrite ?Epa; try done.
  - change (hnum _) with (hnum h1). by rewrite Eh1.
  - change (hnum _) with (hnum h1). by rewrite Eh1.
  - by exists time.
  - change (hnum _) with (hnum h1). rewrite Eh1. intros E. apply Hck. unfold ck. by rewrite E.
  - change (hnum _) with (hnum h1). rewrite Eh1. by exists (hd_Extra h1).
Qed.

(** ** The header is accepted *)

(** The block's header is the prepared one but for what [Finalize] and the
    transactions fill in. *)
Record filled (h hf : Header) : Prop := {
  fi_parent : hd_ParentHash hf = hd_ParentHash h;
  fi_number : hd_Number hf = hd_Number h;
  fi_coinbase : hd_Coinbase hf = hd_Coinbase h;
  fi_nonce : hd_Nonce hf = hd_Nonce h;
  fi_difficulty : hd_Difficulty hf = hd_Difficulty h;
  fi_time : hd_Time hf = hd_Time h;
  fi_extra : hd_Extra hf = hd_Extra h;
  fi_mix : hd_MixDigest hf = hd_MixDigest h;
  fi_uncles : hd_UncleHash hf = uncleHash;
}.

(** Addresses are arrays of 20 bytes. *)
Definition addresses (snap : Snapshot) : Prop := forall a, a ∈ s_Signers snap -> String.length a = AddressLength.

Lemma length_signers snap : addresses snap ->
  length (concat (map bytesList (signers snap))) = (AddressLength * length (signers snap))%nat.
Proof.
  intros Ha. assert (Forall (fun a => String.length a = AddressLength) (signers snap)) as Hall.
  { destruct (signers_sorted snap (elements (s_Signers snap)) (reflexivity _)) as (_&Hp&_&_).
    rewrite Hp. apply Forall_forall. intros a Hin. apply Ha. by apply elem_of_elements. }
  induction Hall as [|a l Hl _ IH]; [done|]. cbn [map concat]. rewrite length_app, length_bytesList, IH, Hl.
  cbn [length]. lia.
Qed.

Lemma filled_extra en h snap turn p hf sig : prepared en h snap turn p -> filled h hf -> addresses snap ->
  String.length sig = extraSeal ->
  let e := hd_Extra (withSeal hf sig) in let checkpoint := hnum h mod cfg_Epoch =? 0 in
  exists n, length e = (extraVanity + n + extraSeal)%nat /\ (checkpoint = false -> n = 0%nat) /\
    (checkpoint = true -> (n mod AddressLength = 0)%nat) /\
    (checkpoint = true -> bytesOf (drop extraVanity (unsealed e)) = signersBytes snap).
Proof.
  intros Hp Hf Ha Hs e ck. destruct (pp_extra _ _ _ _ _ Hp) as [extra Ee]. fold ck in Ee.
  destruct (prepareExtra_parts extra (if ck then signers snap else [])) as [Hl Hd]. rewrite <- Ee in Hl, Hd.
  destruct (withSeal_extra hf sig) as (El&Eu&_); [rewrite (fi_extra _ _ Hf), Hl; lia|done|].
  fold e in El, Eu. rewrite (fi_extra _ _ Hf) in El, Eu.
  eexists. split; [by rewrite El|]. split_and!.
  - by intros ->.
  - intros ->. rewrite length_signers by done. by rewrite Nat.mul_comm, Nat.Div0.mod_mul.
  - intros E. rewrite Eu, Hd, E. apply bytesOf_concat.
Qed.

Lemma filled_standalone en h snap turn p hf sig : prepared en h snap turn p -> filled h hf -> addresses snap ->
  String.length sig = extraSeal -> is_Some (hd_Number h) -> hd_Time hf <= now ->
  verifyStandalone (withSeal hf sig) = None.
Proof.
  intros Hp Hf Ha Hs [n En] Ht. destruct (filled_extra _ _ _ _ _ _ _ Hp Hf Ha Hs) as (m&Hl&H0&Hmod&_).
  set (hs := withSeal hf sig) in *. destruct Hf as [F1 F2 F3 F4 F5 F6 F7 F8 F9].
  unfold verifyStandalone.
  change (hd_Number hs) with (hd_Number hf). change (hd_Time hs) with (hd_Time hf).
  change (hd_Coinbase hs) with (hd_Coinbase hf). change (hd_Nonce hs) with (hd_Nonce hf).
  change (hd_MixDigest hs) with (hd_MixDigest hf). change (hd_UncleHash hs) with (hd_UncleHash hf).
  change (hd_Difficulty hs) with (hd_Difficulty hf).
  assert (hnum hs = hnum h) as -> by (change (hnum hs) with (hnum hf); unfold hnum; by rewrite F2).
  rewrite F2, En, Hl, F3, F4, F5, F8, F9. set (ck := hnum h mod cfg_Epoch =? 0) in *.
  rewrite (proj2 (Z.ltb_ge _ _)) by done.
  assert (forall a b : nat, (a + b <? a)%nat = false) as Hlt by (intros; apply Nat.ltb_ge; lia).
  replace (extraVanity + m + extraSeal <? extraVanity)%nat with false by (symmetry; apply Nat.ltb_ge; lia).
  replace (extraVanity + m + extraSeal <? extraVanity + extraSeal)%nat with false by (symmetry; apply Nat.ltb_ge; lia).
  replace (extraVanity + m + extraSeal - extraVanity - extraSeal)%nat with m by lia.
  rewrite (pp_mix _ _ _ _ _ Hp), (pp_difficulty _ _ _ _ _ Hp), (bool_decide_true (zeroHash = zeroHash)) by done.
  rewrite (bool_decide_true (uncleHash = uncleHash)) by done. cbn [negb].
  assert ((0 <? hnum h) && (negb ((if turn then diffInTurn else diffNoTurn) =? diffInTurn)
    && negb ((if turn then diffInTurn else diffNoTurn) =? diffNoTurn)) = false) as -> by (by destruct turn, (0 <? hnum h)).
  assert (negb (bool_decide (hd_Nonce h = nonceAuthVote)) && negb (bool_decide (hd_Nonce h = nonceDropVote)) = false) as ->.
  { destruct (pp_nonce _ _ _ _ _ Hp) as [->| ->]; [by rewrite bool_decide_true|].
    rewrite (bool_decide_true (nonceDropVote = nonceDropVote)) by done. apply andb_false_r. }
  destruct ck eqn:Eck; cbn [andb negb].
  - destruct (pp_checkpoint _ _ _ _ _ Hp) as [-> ->]; [by apply Z.eqb_eq|]. rewrite !bool_decide_true by done. cbn [negb].
    by rewrite Hmod.
  - by rewrite H0.
Qed.
(** The clock is within the range of seconds that the code computes with. *)
Definition timely (p : Header) : Prop :=
  0 <= cfg_Period /\ 0 <= hd_Time p /\ hd_Time p + cfg_Period < two64 / 2 /\ now < two64.

Lemma filled_accepted en h snap turn p hf sig hash pub : chain_laws -> prepared en h snap turn p -> filled h hf ->
  addresses snap -> timely p -> 0 < hnum h -> hd_Time hf <= now ->
  sigHash hf = Some hash -> String.length sig = extraSeal -> Ecrecover hash sig = Some pub ->
  pubkeyAddress pub = en_signer en -> en_signer en ∈ s_Signers snap ->
  en_signatures en !! hdr_hash hf = None \/ en_signatures en !! hdr_hash hf = Some (en_signer en) ->
  exists en', verifyHeader (withSeal hf sig) [] en = (Ret None, en').
Proof.
  intros Hcl Hp Hf Ha Ht Hn Hnow Eh Hs Er Epub Hin Hc.
  assert (is_Some (hd_Number h)) as Hnum.
  { destruct (hd_Number h) eqn:E; [by eexists|]. unfold hnum in Hn. rewrite E in Hn. by vm_compute in Hn. }
  pose proof (recoverSeal_withSeal hf sig hash pub Eh Hs Er) as Erec. rewrite Epub in Erec.
  destruct (filled_extra _ _ _ _ _ _ _ Hp Hf Ha Hs) as (m&_&_&_&Hsig).
  unfold verifyHeader. rewrite (filled_standalone _ _ _ _ _ _ _ Hp Hf Ha Hs Hnum Hnow).
  set (hs := withSeal hf sig) in *. pose proof Hf as [F1 F2 F3 F4 F5 F6 F7 F8 F9].
  assert (hnum hs = hnum h) as En by (change (hnum hs) with (hnum hf); unfold hnum; by rewrite F2).
  assert (hdr_hash hs = hdr_hash hf) as Ehash by done.
  assert (hd_ParentHash hs = hd_ParentHash h) as Epar by done.
  assert (hd_Time hs = hd_Time hf /\ hd_Difficulty hs = hd_Difficulty hf) as [Etime Ediff] by done.
  clearbody hs. destruct Hp as [Hk Hrec Hsh Hpar Htu Hdi [time Hti] _ _ _ _].
  assert (forall q, snapshot q (hd_ParentHash h) [] en = (Ret (inr snap), en)) as Hsn by (intros q; by apply snapshot_known).
  unfold verifyCascadingFields. rewrite En, Epar. destruct (Z.eqb_spec (hnum h) 0); [lia|]. cbn [List.rev].
  rewrite Hpar, (cl_number Hcl _ _ _ Hpar), Z.eqb_refl, (cl_hash Hcl _ _ _ Hpar), bool_decide_true by done.
  cbn [negb orb].
  assert ((u64 (hd_Time hs) <? u64 (u64 (hd_Time p) + cfg_Period)) = false) as ->.
  { destruct Ht as (H1&H2&H3&H4). apply Z.ltb_ge. assert (two64 / 2 * 2 = two64) by done.
    rewrite (u64_small (hd_Time p)) by (unfold is_u64; lia). rewrite (u64_small (_ + _)) by (unfold is_u64; lia).
    cbv zeta in Hti. rewrite (u64_small (_ + _)), int64_of_u64_small in Hti by (unfold is_u64; lia).
    destruct (Z.ltb_spec (hd_Time p + cfg_Period) time); rewrite u64_small; unfold is_u64; rewrite Etime, F6 in *; lia. }
  unfold bind at 1. rewrite Hsn.
  assert ((hnum h mod cfg_Epoch =? 0) && negb (bool_decide (bytesOf (drop extraVanity (unsealed (hd_Extra hs))) = signersBytes snap)) = false) as ->.
  { destruct (hnum h mod cfg_Epoch =? 0); [|done]. by rewrite Hsig, bool_decide_true. }
  unfold verifySeal. rewrite En, Epar. destruct (Z.eqb_spec (hnum h) 0); [lia|]. unfold bind at 1. rewrite Hsn.
  assert (exists c, ecrecover hs (en_signatures en) = (Ret (inr (en_signer en)), c)) as [c Ec].
  { rewrite <- Ehash in Hc. destruct Hc as [Hc|Hc]; [eexists; by apply ecrecover_fresh|eexists; by apply ecrecover_known]. }
  rewrite (bind_eq _ _ _ _ _ (onSignatures_runs _ _ _ _ Ec)), bool_decide_true by done. cbn [negb].
  rewrite Htu, Ediff, F5, Hdi, Z.eqb_refl. by eexists.
Qed.
(** ** Blocks *)

(** The header of the block that [Finalize] makes of [h]. *)
Record finalized (h : Header) (txs : list Transaction) (receipts zkfunds : list string) (st : StateDB) (hb : Header) : Prop := {
  fz_parent : hd_ParentHash hb = hd_ParentHash h;
  fz_uncles : hd_UncleHash hb = uncleHash;
  fz_coinbase : hd_Coinbase hb = hd_Coinbase h;
  fz_root : hd_Root hb = trieRoot (sdb_trie st);
  fz_funds : hd_ZKFunds hb = zkfunds;
  fz_rootCMTfd : DeriveShaZkfunds zkfunds = Some (hd_RootCMTfd hb);
  fz_txHash : DeriveShaTx txs = Some (hd_TxHash hb);
  fz_receipts : hd_ReceiptHash hb = receiptRoot receipts;
  fz_bloom : hd_Bloom hb = if decide (receipts = []) then hd_Bloom h else createBloom receipts;
  fz_difficulty : hd_Difficulty hb = Some (default 0 (hd_Difficulty h));
  fz_number : hd_Number hb = Some (default 0 (hd_Number h));
  fz_gasUsed : hd_GasUsed hb = hd_GasUsed h;
  fz_time : hd_Time hb = hd_Time h;
  fz_extra : hd_Extra hb = hd_Extra h;
  fz_mix : hd_MixDigest hb = hd_MixDigest h;
  fz_nonce : hd_Nonce hb = hd_Nonce h;
}.

Lemma Finalize_block eip158 h txs receipts zkfunds st b st' :
  Finalize eip158 h txs receipts zkfunds st = (Ret b, st') ->
  IntermediateRoot eip158 st = (Ret tt, st') /\
  exists hb, b = mkBlock hb txs [] /\ finalized h txs receipts zkfunds st' hb.
Proof.
  unfold Finalize. intros ([]&s1&Ei&H)%bind_inv. rewrite bind_get in H.
  destruct (DeriveShaZkfunds zkfunds) as [root|] eqn:Ez; [|done]. cbv zeta in H. unfold NewBlock in H.
  assert ((if decide (txs = []) then EmptyTxRootHash else DeriveShaTx txs) = DeriveShaTx txs) as Et
    by (destruct (decide (txs = [])) as [->|]; reflexivity).
  rewrite Et in H. destruct (DeriveShaTx txs) as [txHash|] eqn:Etx; [|done]. cbn [mbind option_bind] in H.
  injection H as <- <-. split; [done|]. eexists. split; [reflexivity|].
  destruct (decide (receipts = [])) as [->|]; split; first [reflexivity|exact Ez|exact Etx|by rewrite decide_False].
Qed.

Lemma CopyHeader_id h : is_Some (hd_Difficulty h) -> is_Some (hd_Number h) -> CopyHeader h = h.
Proof. destruct h. cbn. by intros [? ->] [? ->]. Qed.

(** What is asked of the key store: a signature of 65 bytes from which the key of
    its account is recovered. *)
Definition signing : Prop := forall a hash sig, signFn a hash = Some sig ->
  String.length sig = extraSeal /\ exists pub, Ecrecover hash sig = Some pub /\ pubkeyAddress pub = a.

Lemma Seal_block cfg view b en b' en' : Seal cfg view b en = (Ret (inr b'), en') ->
  en_id en <> DefaultPbftID /\ primary cfg view = cfg_id cfg /\
  let h := CopyHeader (b_header b) in hnum h <> 0 /\
  exists snap hash sig, snapshot (hnum h - 1) (hd_ParentHash h) [] en = (Ret (inr snap), en') /\
    en_signer en ∈ s_Signers snap /\ sigHash h = Some hash /\ signFn (en_signer en) hash = Some sig /\
    b' = mkBlock (withSeal h sig) (b_transactions b) (b_uncles b).
Proof.
  unfold Seal. rewrite bind_get. destruct (Z.eqb_spec (en_id en) DefaultPbftID); [done|].
  destruct (Z.eqb_spec (primary cfg view) (cfg_id cfg)); cbn [negb]; [|done]. cbv zeta.
  destruct (Z.eqb_spec (hnum (CopyHeader (b_header b))) 0); [done|]. intros (r&en1&Es&H)%bind_inv.
  destruct r as [er|snap]; [done|]. destruct (decide (en_signer en ∈ s_Signers snap)); cycle 1.
  { by rewrite bool_decide_false in H. }
  rewrite bool_decide_true in H by done. cbn [negb] in H.
  destruct (sigHash (CopyHeader (b_header b))) as [hash|] eqn:Eh; [|done].
  destruct (signFn (en_signer en) hash) as [sig|] eqn:Esig; [|done]. injection H as <- <-.
  split_and!; [done|done|done|]. by exists snap, hash, sig.
Qed.

(** C23: the blocks that the engine makes pass the checks it makes: if [Prepare]
    succeeds on a header, [Finalize] completes it with transactions and [Seal]
    signs it, the same engine verifies the sealed header, unless another signer is
    known for its hash or its time has not come, and the validator of blocks
    accepts its body over a known parent and the state it leaves. *)
Theorem made_block_accepted time choice header en h en1 gas eip158 txs receipts zkfunds st b st' cfg view b' en2 :
  chain_laws -> signing -> keyed en -> 0 < hnum header ->
  (forall p, chain_GetHeader (hd_ParentHash header) (hnum header - 1) = Some p -> timely p) ->
  (forall snap, en_recents en1 !! hd_ParentHash header = Some snap -> addresses snap) ->
  Prepare time choice header en = (Ret (None, h), en1) ->
  Finalize eip158 (h <| hd_GasUsed := gas |>) txs receipts zkfunds st = (Ret b, st') ->
  Seal cfg view b en1 = (Ret (inr b'), en2) ->
  let hash := hdr_hash (b_header b') in
  (hd_Time h <= now -> en_signatures en1 !! hash = None \/ en_signatures en1 !! hash = Some (en_signer en1) ->
     exists en3, verifyHeader (b_header b') [] en2 = (Ret None, en3)) /\
  (forall known, known (hd_ParentHash header) = true -> known hash = false -> ValidateBody known b' = Some None) /\
  ((receipts = [] -> hd_Bloom h = createBloom []) ->
     exists st2, ValidateState eip158 b' receipts gas st' = (Ret None, st2)).
Proof.
  intros Hcl Hsign Hk Hn Hti Had EP EF ES hash.
  destruct (Prepare_prepared _ _ _ _ _ _ Hcl Hk Hn EP) as (snap&turn&p&Hp&En&Epar).
  assert (hnum h = hnum header) as Ehn by (unfold hnum; by rewrite En).
  destruct (hd_Number h) as [n|] eqn:Ehnum; [|unfold hnum in Hn; rewrite <- En in Hn; by vm_compute in Hn].
  apply Finalize_block in EF as (Ei&hb&->&Hz). cbn [b_header] in *.
  assert (filled h hb) as Hf.
  { destruct Hz as [Z1 Z2 Z3 _ _ _ _ _ _ Z4 Z5 _ Z6 Z7 Z8 Z9]. split; try done.
    - rewrite Z5. change (hd_Number (h <| hd_GasUsed := gas |>)) with (hd_Number h). by rewrite Ehnum.
    - rewrite Z4. change (hd_Difficulty (h <| hd_GasUsed := gas |>)) with (hd_Difficulty h).
      by rewrite (pp_difficulty _ _ _ _ _ Hp). }
  assert (CopyHeader hb = hb) as Ecopy by (apply CopyHeader_id; [rewrite (fz_difficulty _ _ _ _ _ _ Hz)|rewrite (fz_number _ _ _ _ _ _ Hz)]; by eexists).
  assert (forall sig, CopyHeader (withSeal hb sig) = withSeal hb sig) as Ecopys.
  { intros sig. apply CopyHeader_id; [change (is_Some (hd_Difficulty hb)); rewrite (fz_difficulty _ _ _ _ _ _ Hz)|
      change (is_Some (hd_Number hb)); rewrite (fz_number _ _ _ _ _ _ Hz)]; by eexists. }
  apply Seal_block in ES as (_&_&ES). cbn [b_header] in ES. rewrite Ecopy in ES.
  destruct ES as (_&snap'&sh&sig&Es&Hin&Esh&Esig&->). destruct (Hsign _ _ _ Esig) as (Hlen&pub&Erec&Epub).
  pose proof (fi_parent _ _ Hf) as Epb. rewrite Epb in Es.
  rewrite (snapshot_known _ _ _ _ snap (pp_snapshot _ _ _ _ _ Hp) (pp_hash _ _ _ _ _ Hp)) in Es. injection Es as <- <-.
  cbn [b_header b_transactions b_uncles] in *. subst hash. change (hdr_hash (withSeal hb sig)) with (hdr_hash hb).
  split_and!.
  - intros Hnow Hc. rewrite <- Ehn, <- Epar in Hti.
    apply (filled_accepted en1 h snap turn p hb sig sh pub); try done.
    + apply Had. rewrite <- Epar. exact (pp_snapshot _ _ _ _ _ Hp).
    + apply Hti. exact (pp_parent _ _ _ _ _ Hp).
    + by rewrite Ehn.
    + by rewrite (fi_time _ _ Hf).
  - intros known Hkp Hkh. unfold ValidateBody. cbn [b_header b_transactions b_uncles]. rewrite Ecopys.
    change (hdr_hash (withSeal hb sig)) with (hdr_hash hb). rewrite Hkh.
    change (hd_ParentHash (withSeal hb sig)) with (hd_ParentHash hb).
    rewrite Epb, Epar, Hkp. cbn [negb]. unfold VerifyUncles. cbn [b_uncles]. rewrite decide_True by done.
    change (hd_UncleHash (withSeal hb sig)) with (hd_UncleHash hb). rewrite (fz_uncles _ _ _ _ _ _ Hz).
    rewrite bool_decide_true by done. cbn [negb]. rewrite (fz_txHash _ _ _ _ _ _ Hz). cbn [mbind option_bind].
    by rewrite bool_decide_true.
  - intros Hb. destruct (IntermediateRoot_again _ _ _ Ei) as (st2&Ei2&Etr). exists st2. unfold ValidateState.
    cbn [b_header]. rewrite Ecopys.
    change (hd_GasUsed (withSeal hb sig)) with (hd_GasUsed hb). change (hd_Bloom (withSeal hb sig)) with (hd_Bloom hb).
    change (hd_ReceiptHash (withSeal hb sig)) with (hd_ReceiptHash hb). change (hd_Root (withSeal hb sig)) with (hd_Root hb).
    destruct Hz as [_ _ _ Z1 _ _ _ Z2 Z3 _ _ Z4 _ _ _ _].
    rewrite Z4, Z2, Z3, Z1. change (hd_GasUsed (h <| hd_GasUsed := gas |>)) with gas.
    change (hd_Bloom (h <| hd_GasUsed := gas |>)) with (hd_Bloom h). rewrite Z.eqb_refl. cbn [negb].
    assert (createBloom receipts = if decide (receipts = []) then hd_Bloom h else createBloom receipts) as <-
      by (destruct (decide (receipts = [])) as [->|]; [by rewrite Hb|done]).
    rewrite bool_decide_true by done. rewrite bool_decide_true by done. cbn [negb].
    rewrite (bind_eq _ _ _ _ _ Ei2), bind_get, Etr. by rewrite bool_decide_true.
Qed.
(** ** What the checks do not see *)

Definition withFunds (b : Block) (root : string) (funds : list string) : Block :=
  mkBlock ((b_header b) <| hd_RootCMTfd := root |> <| hd_ZKFunds := funds |>) (b_transactions b) (b_uncles b).

(** The root of the fund commitments is checked by nobody: a block whose root and
    commitments are replaced by others, as many, passes the verification of its
    header, the validation of its body, the processing of its transactions and the
    validation of its state if the block does. *)
Theorem fund_root_unchecked `{ZE : ZkEnv} b root funds en snap config number coinbase :
  let h := b_header b in let b' := withFunds b root funds in
  en_recents en !! hd_ParentHash h = Some snap -> s_Hash snap = hd_ParentHash h ->
  en_signatures en !! hdr_hash h = None -> en_signatures en !! hdr_hash (b_header b') = None ->
  length funds = length (hd_ZKFunds h) ->
  (verifyHeader (b_header b') [] en).1 = (verifyHeader h [] en).1 /\
  (forall known, known (hdr_hash h) = known (hdr_hash (b_header b')) -> ValidateBody known b' = ValidateBody known b) /\
  (forall w, Process config number coinbase (b_transactions b') (hd_ZKFunds (b_header b')) w
             = Process config number coinbase (b_transactions b) (hd_ZKFunds h) w) /\
  (forall eip158 receipts gas st, ValidateState eip158 b' receipts gas st = ValidateState eip158 b receipts gas st).
Proof.
  intros h b' Hrec Hs Hc Hc' Hlen.
  assert (forall q, snapshot q (hd_ParentHash h) [] en = (Ret (inr snap), en)) as Hsn by (intros q; by apply snapshot_known).
  split_and!; [| | |done].
  - unfold verifyHeader. change (verifyStandalone (b_header b')) with (verifyStandalone h).
    destruct (verifyStandalone h); [done|]. unfold verifyCascadingFields.
    change (hnum (b_header b')) with (hnum h). change (hd_ParentHash (b_header b')) with (hd_ParentHash h).
    change (hd_Time (b_header b')) with (hd_Time h). change (hd_Extra (b_header b')) with (hd_Extra h).
    destruct (hnum h =? 0) eqn:E0; [done|]. cbn [List.rev].
    destruct (chain_GetHeader _ _) as [p|]; [|done]. destruct (_ || _); [done|]. destruct (_ <? _); [done|].
    rewrite !(bind_eq _ _ _ _ _ (Hsn _)). destruct (_ && _); [done|]. unfold verifySeal.
    change (hnum (b_header b')) with (hnum h). change (hd_ParentHash (b_header b')) with (hd_ParentHash h).
    change (hd_Difficulty (b_header b')) with (hd_Difficulty h). rewrite E0. rewrite !(bind_eq _ _ _ _ _ (Hsn _)).
    unfold bind, onSignatures, ecrecover. unfold bind, get. rewrite Hc, Hc'.
    change (recoverSeal (b_header b')) with (recoverSeal h). destruct (recoverSeal h) as [e|a]; [done|]. cbn [modify ret].
    destruct (negb _); [done|]. by destruct (inturn snap (hnum h) a), (hd_Difficulty h).
  - intros known Hkn. unfold ValidateBody. cbn [b_header b' withFunds b_transactions b_uncles].
    change (hdr_hash (CopyHeader (b_header b))) with (hdr_hash h).
    change (hdr_hash (CopyHeader _)) with (hdr_hash (b_header b')). by rewrite <- Hkn.
  - intros w. unfold Process, try, bind. cbn [b_transactions b' withFunds].
    destruct (applyAll config number coinbase (b_transactions b) w) as [[[e|r]| |] w']; try done.
    change (hd_ZKFunds (b_header b')) with funds. by rewrite Hlen.
Qed.

(** A signer that is known for a hash stays known. *)
Definition signatures_grow (en en' : Engine) : Prop := en_signatures en ⊆ en_signatures en'.
#[local] Instance signatures_grow_preorder : PreOrder signatures_grow.
Proof. split; unfold signatures_grow; [by intros en|]. intros e1 e2 e3. by etrans. Qed.

Lemma modify_grows f : (forall en, en_signatures (f en) = en_signatures en) -> stable signatures_grow (modify f).
Proof. intros Hf. apply (stable_modify _). intros en. unfold signatures_grow. by rewrite Hf. Qed.

Lemma ecrecover_grows h : stable (⊆) (ecrecover h).
Proof.
  intros c. unfold stable_at, ecrecover. rewrite bind_get. destruct (c !! hdr_hash h) eqn:E; [done|].
  destruct (recoverSeal h); [done|]. by apply insert_subseteq.
Qed.

Lemma applyHeaders_grows s hs : stable (⊆) (applyHeaders s hs).
Proof.
  revert s. induction hs as [|h hs IH]; intros s; cbn [applyHeaders]; [by apply (stable_ret _)|].
  apply (stable_bind _); [|intros [e|s']; [by apply (stable_ret _)|apply IH]].
  apply (stable_bind _); [apply ecrecover_grows|]. intros [e|a]; apply (stable_ret _).
Qed.

Lemma apply_grows s hs : stable (⊆) (apply s hs).
Proof.
  destruct hs as [|h hs]; [by apply (stable_ret _)|]. unfold apply. destruct (negb _); [by apply (stable_ret _)|].
  destruct (negb _); [by apply (stable_ret _)|]. apply (stable_bind _); [apply applyHeaders_grows|].
  intros [e|s']; apply (stable_ret _).
Qed.

Lemma onSignatures_grows {A} (m : M Signatures A) : stable (⊆) m -> stable signatures_grow (onSignatures m).
Proof. intros Hm en. unfold stable_at, onSignatures. specialize (Hm (en_signatures en)).
  unfold stable_at in Hm. destruct (m (en_signatures en)). exact Hm. Qed.

Lemma walkBack_grows fuel number hash parents headers : stable signatures_grow (walkBack fuel number hash parents headers).
Proof.
  revert number hash parents headers. induction fuel as [|fuel IH]; intros; cbn [walkBack];
    [intros en; unfold stable_at; cbn; reflexivity|].
  apply (stable_bind _); [apply (stable_get _)|]. intros en.
  destruct (en_recents en !! hash); [apply (stable_ret _)|].
  destruct (if number mod checkpointInterval =? 0 then _ else None); [apply (stable_ret _)|].
  destruct (number =? 0).
  - destruct (verifyStandalone chain_genesis); [apply (stable_ret _)|]. cbv zeta.
    apply (stable_bind _); [by apply modify_grows|intros; apply (stable_ret _)].
  - destruct (nextHeader _ _ _); [apply IH|apply (stable_ret _)].
Qed.

Lemma snapshot_grows number hash parents : stable signatures_grow (snapshot number hash parents).
Proof.
  unfold snapshot. apply (stable_bind _); [apply walkBack_grows|]. intros [e|[s0 hs]]; [apply (stable_ret _)|].
  apply (stable_bind _); [apply onSignatures_grows, apply_grows|]. intros [e|s]; [apply (stable_ret _)|].
  apply (stable_bind _); [by apply modify_grows|]. intros _.
  apply (stable_bind _); [apply (stable_when _); by apply modify_grows|intros; apply (stable_ret _)].
Qed.

(** C40: the seal is not looked at when a signer is known for the hash: any signature in
    its place gives the same result.  The hash is over the three roots only, so the
    signer may be known from another header of the same roots. *)
Theorem seal_reused en h sig a parents :
  (extraSeal <= length (hd_Extra h))%nat -> String.length sig = extraSeal ->
  en_signatures en !! hdr_hash h = Some a ->
  verifyHeader (withSeal h sig) parents en = verifyHeader h parents en.
Proof.
  intros Hl Hs Ha. destruct (withSeal_extra h sig Hl Hs) as (El&Eu&_). set (h' := withSeal h sig) in *.
  assert (forall f g : Snapshot -> M Engine (option verr), (forall snap en1, en_signatures en1 !! hdr_hash h = Some a ->
     f snap en1 = g snap en1) -> forall q en0, en_signatures en0 !! hdr_hash h = Some a ->
    (r <- snapshot q (hd_ParentHash h) parents ;; match r with inl e => ret (Some e) | inr snap => f snap end) en0 =
    (r <- snapshot q (hd_ParentHash h) parents ;; match r with inl e => ret (Some e) | inr snap => g snap end) en0) as Hsnap.
  { intros f g Hfg q en0 H0. unfold bind. pose proof (snapshot_grows q (hd_ParentHash h) parents en0) as Hg.
    unfold stable_at in Hg. destruct (snapshot q (hd_ParentHash h) parents en0) as [[[e|snap]| |] en1]; try done.
    apply Hfg. by apply (lookup_weaken _ _ _ _ H0). }
  unfold verifyHeader. assert (verifyStandalone h' = verifyStandalone h) as ->.
  { unfold verifyStandalone. rewrite El. reflexivity. }
  destruct (verifyStandalone h); [done|]. unfold verifyCascadingFields. rewrite Eu.
  change (hnum h') with (hnum h). change (hd_ParentHash h') with (hd_ParentHash h). change (hd_Time h') with (hd_Time h).
  destruct (hnum h =? 0) eqn:E0; [done|]. destruct (match List.rev parents with [] => _ | _ :: _ => _ end) as [p|]; [|done].
  destruct (_ || _); [done|]. destruct (_ <? _); [done|]. apply Hsnap; [|done]. intros snap en1 H1.
  destruct (_ && _); [done|]. unfold verifySeal. change (hnum h') with (hnum h).
  change (hd_ParentHash h') with (hd_ParentHash h). rewrite E0. apply Hsnap; [|done]. intros snap2 en2 H2.
  change (hd_Difficulty h') with (hd_Difficulty h).
  pose proof (onSignatures_runs _ _ _ _ (ecrecover_known h _ _ H2)) as R.
  pose proof (onSignatures_runs _ _ _ _ (ecrecover_known h' _ _ H2)) as R'.
  by rewrite (bind_eq _ _ _ _ _ R), (bind_eq _ _ _ _ _ R').
Qed.

(** A block without transactions over the state of its parent has the same hash as
    its parent, if that has none either: the validator takes it for a block that is
    known, and the chain cannot grow by it. *)
Theorem empty_block_known eip158 h1 h2 st b1 st1 b2 st2 known :
  Finalize eip158 h1 [] [] [] st = (Ret b1, st1) ->
  Finalize eip158 h2 [] [] [] (New (sdb_trie st1)) = (Ret b2, st2) ->
  known (hdr_hash (b_header b1)) = true -> ValidateBody known b2 = Some (Some ErrKnownBlock).
Proof.
  intros (_&hb1&->&Z1)%Finalize_block (Ei&hb2&->&Z2)%Finalize_block Hkn.
  assert (sdb_trie st2 = sdb_trie st1) as Etr.
  { unfold IntermediateRoot, New in Ei. rewrite bind_get in Ei. cbn [sdb_dirty] in Ei. rewrite elements_empty in Ei.
    by injection Ei as <-. }
  unfold ValidateBody. cbn [b_header] in *. change (hdr_hash (CopyHeader hb2)) with (hdr_hash hb2).
  assert (hdr_hash hb2 = hdr_hash hb1) as ->; [|by rewrite Hkn].
  unfold hdr_hash. pose proof (fz_rootCMTfd _ _ _ _ _ _ Z1) as F1. rewrite (fz_rootCMTfd _ _ _ _ _ _ Z2) in F1.
  pose proof (fz_txHash _ _ _ _ _ _ Z1) as T1. rewrite (fz_txHash _ _ _ _ _ _ Z2) in T1.
  injection F1 as ->. injection T1 as ->. by rewrite (fz_root _ _ _ _ _ _ Z1), (fz_root _ _ _ _ _ _ Z2), Etr.
Qed.

(** The gas limit moves by at most a thousandth at a block, and not below the
    minimum. *)
Theorem gas_limit_bounded used limit : 0 <= used <= limit -> MinGasLimit <= limit ->
  let gl := CalcGasLimit used limit in
  MinGasLimit <= gl /\ limit - limit / GasLimitBoundDivisor < gl <= limit + limit / GasLimitBoundDivisor.
Proof.
  intros Hu Hl. unfold CalcGasLimit, GasLimitBoundDivisor, MinGasLimit, TargetGasLimit in *.
  set (d := limit / 1024). pose proof (Z.div_mod limit 1024) as Ed. pose proof (Z.mod_pos_bound limit 1024) as Er. fold d in Ed.
  assert (0 <= used * 3 / 2 / 1024 < 2 * d) as Hc.
  { rewrite Z.div_div by lia. split; [apply Z.div_pos; lia|]. apply Z.div_lt_upper_bound; lia. }
  cbv zeta. destruct (Z.ltb_spec (Z.max (limit - (d - 1) + used * 3 / 2 / 1024) 5000) 4712388); lia.
Qed.
End Proofs.
