(* ===== verification/EngineScenarios.v ===== *)
(** * EngineScenarios: making and importing blocks, in cases

    The theorems of [EngineProofs] at work on the sample chain of [HeaderRules],
    and what becomes of a chain in which two blocks have the same roots. *)
From stdpp Require Import pretty.
From S2P Require Import Prelude.
From S2P Require Import Messages.
From S2P Require Import PbftState.
From S2P Require Import PbftSample.
From S2P Require Import StateDB.
From S2P Require Import Tx.
From S2P Require Import ZkTx.
From S2P Require Import ZkScenarios.
From S2P Require Import Merkle.
From S2P Require Import Header.
From S2P Require Import Snapshot.
From S2P Require Import HeaderRules.
From S2P Require Import Engine.
From S2P Require Import EngineProofs.

Local Open Scope string_scope.

#[local] Existing Instances sealEnv sealHash sampleConfig sampleChain checksumEnv.

(** The key store holds the keys of alice and bob; the root of a state is the list
    of its balances. *)
#[local] Instance sampleBlocks : BlockEnv := {|
  trieRoot t := String.concat "," (map (fun e => e.1 +:+ "=" +:+ pretty (ac_Balance e.2)) (map_to_list t));
  receiptRoot l := "receipts" +:+ String.concat "," l;
  createBloom l := String.concat "" l;
  signFn a hash := if decide (a = alice \/ a = bob) then Some (HeaderRules.sampleSign a hash) else None |}.

Lemma length_append a b : String.length (a +:+ b) = (String.length a + String.length b)%nat.
Proof. induction a as [|c a IH]; [done|]. exact (f_equal S IH). Qed.

Lemma length_take_bytes n s : (n <= String.length s)%nat -> String.length (take_bytes n s) = n.
Proof. revert s. induction n as [|n IH]; intros [|c s]; cbn; [done..|lia|]. intros H. rewrite IH; lia. Qed.

Lemma length_repeatByte n c : String.length (repeatByte n c) = n.
Proof. induction n; cbn; congruence. Qed.

Lemma length_pad n s : String.length (pad n s) = n.
Proof.
  unfold pad. apply length_take_bytes. rewrite length_append, length_repeatByte. lia.
Qed.

Lemma sampleSigning : signing.
Proof.
  intros a hash sig. cbn [signFn sampleBlocks]. destruct (decide _) as [Ha|]; [|done]. intros [= <-].
  assert (String.length a = 20%nat) as Hl by (destruct Ha as [->| ->]; reflexivity).
  assert (drop_bytes 20 (HeaderRules.sampleSign a hash) = pad 45 hash) as Ed by (destruct Ha as [->| ->]; reflexivity).
  split; [unfold HeaderRules.sampleSign; by rewrite length_append, length_pad, Hl|].
  eexists. split; [cbn [Ecrecover sealEnv]; by rewrite bool_decide_true|].
  destruct Ha as [->| ->]; vm_compute; reflexivity.
Qed.

Lemma sampleChain_laws : chain_laws.
Proof.
  split; [apply sampleChain_ok| |].
  - intros hash n h. cbn [chain_GetHeader sampleChain]. repeat case_decide; destruct_and?; subst; [| |done];
      intros [= <-]; vm_compute; reflexivity.
  - intros hash h. cbn [chain_GetHeader sampleChain]. repeat case_decide; destruct_and?; subst; [|done|done].
    by intros [= <-].
Qed.

Lemma freshEngine_keyed : keyed freshEngine.
Proof. split; [apply map_Forall_empty|done]. Qed.

(** ** Alice makes the second block *)

(** The header that the miner starts from, over the block in which alice added
    bob. *)
Definition draft : Header :=
  mkHeader (hashOf "1") "" "" "" "" [] "" "" "" None (Some 2%Z) 4000000 0 0 [] "" "".

Definition prepareRun := Prepare 500 0 draft freshEngine.
Definition preparedHeader : Header := match prepareRun.1 with Ret (_, h) => h | _ => draft end.

(** A state in which bob has been paid, and one fund commitment. *)
Definition paid : StateDB := (AddBalance bob 5 (New ∅)).2.
Definition finalRun := Finalize false (preparedHeader <| hd_GasUsed := 0 |>) [] [] ["fund"] paid.
Definition madeBlock : Block := match finalRun.1 with Ret b => b | _ => mkBlock draft [] [] end.
Definition sealRun := Seal (sample_cfg 0) 0 madeBlock prepareRun.2.
Definition sealedBlock : Block := match sealRun.1 with Ret (inr b) => b | _ => madeBlock end.

Lemma known_addresses (r : option Snapshot) :
  bool_decide (set_Forall (fun a => String.length a = AddressLength) (from_option s_Signers ∅ r)) = true ->
  forall snap, r = Some snap -> addresses snap.
Proof. intros H snap ->. exact (bool_decide_eq_true_1 _ H). Qed.

Lemma made_block_accepted_witness :
  let hash := hdr_hash (b_header sealedBlock) in
  (exists en3, verifyHeader (b_header sealedBlock) [] sealRun.2 = (Ret None, en3)) /\
  ValidateBody (fun hash => bool_decide (hash = hashOf "1")) sealedBlock = Some None /\
  exists st2, ValidateState false sealedBlock [] 0 finalRun.2 = (Ret None, st2).
Proof.
  destruct (made_block_accepted 500 0 draft freshEngine preparedHeader prepareRun.2 0 false [] [] ["fund"] paid
    madeBlock finalRun.2 (sample_cfg 0) 0 sealedBlock sealRun.2) as (H1&H2&H3).
  - exact sampleChain_laws.
  - exact sampleSigning.
  - exact freshEngine_keyed.
  - vm_compute. reflexivity.
  - intros p. assert (chain_GetHeader (hd_ParentHash draft) (hnum draft - 1) = Some sampleHeader1) as -> by (vm_compute; reflexivity).
    intros [= <-]. repeat split; vm_compute; discriminate || reflexivity.
  - apply known_addresses. vm_compute. reflexivity.
  - vm_compute. reflexivity.
  - vm_compute. reflexivity.
  - vm_compute. reflexivity.
  - split_and!; [apply H1; [vm_compute; congruence|left; vm_compute; reflexivity]|apply H2; vm_compute; reflexivity|].
    apply H3. intros _. vm_compute. reflexivity.
Defined.

(** ** What a neighbour can change of it *)

#[local] Existing Instance ZkScenarios.sample_zk.

(** Other fund commitments under another root: the hash is another one, the verdict
    of the checks is the same. *)
Definition forgedBlock : Block := withFunds sealedBlock "another root" ["forged fund"].

Lemma fund_root_unchecked_witness :
  hdr_hash (b_header forgedBlock) <> hdr_hash (b_header sealedBlock) /\
  (verifyHeader (b_header forgedBlock) [] sealRun.2).1 = (verifyHeader (b_header sealedBlock) [] sealRun.2).1 /\
  (verifyHeader (b_header sealedBlock) [] sealRun.2).1 = Ret None.
Proof.
  split; [apply (bool_decide_unpack _); vm_compute; exact I|]. split; [|vm_compute; reflexivity].
  destruct (fund_root_unchecked sealedBlock "another root" ["forged fund"] sealRun.2
    (default genesisSnapshot (en_recents sealRun.2 !! hd_ParentHash (b_header sealedBlock))) ZkScenarios.forks 2 "") as [H _];
    [vm_compute; reflexivity..|exact H].
Defined.

(** Once alice's header is verified, one with the same roots needs no seal. *)
Definition unsealedHeader : Header := withSeal (b_header sealedBlock) (repeatByte 65 Ascii.zero).

Lemma seal_reused_witness :
  (verifyHeader unsealedHeader [] sealRun.2).1 <> Ret None /\
  (verifyHeader unsealedHeader [] (verifyHeader (b_header sealedBlock) [] sealRun.2).2).1 = Ret None.
Proof.
  split; [vm_compute; discriminate|]. unfold unsealedHeader.
  rewrite (seal_reused _ _ _ alice); [vm_compute; reflexivity|vm_compute; lia|reflexivity|vm_compute; reflexivity].
Defined.

Lemma hashes_differ (x y : option string) : bool_decide (x = y) = false -> x <> y.
Proof. apply bool_decide_eq_false_1. Qed.

(** Nor does one of another time and coinbase, which casts a vote in her name. *)
Definition otherHeader : Header := unsealedHeader <| hd_Coinbase := bob |> <| hd_Time := 900 |>.

Example seal_reused_by_other :
  sigHash otherHeader <> sigHash unsealedHeader /\
  (verifyHeader otherHeader [] (verifyHeader (b_header sealedBlock) [] sealRun.2).2).1 = Ret None.
Proof.
  split.
  - apply hashes_differ. vm_compute. reflexivity.
  - vm_compute. reflexivity.
Qed.

(** ** Two empty blocks *)

Definition emptyRun := Finalize false preparedHeader [] [] [] paid.
Definition emptyBlock : Block := match emptyRun.1 with Ret b => b | _ => madeBlock end.
Definition laterHeader : Header := preparedHeader <| hd_ParentHash := hdr_hash (b_header emptyBlock) |> <| hd_Number := Some 3 |>.
Definition laterRun := Finalize false laterHeader [] [] [] (New (sdb_trie emptyRun.2)).
Definition laterBlock : Block := match laterRun.1 with Ret b => b | _ => madeBlock end.

Lemma empty_block_known_witness :
  ValidateBody (fun hash => bool_decide (hash = hdr_hash (b_header emptyBlock))) laterBlock = Some (Some ErrKnownBlock).
Proof.
  apply (empty_block_known false preparedHeader laterHeader paid emptyBlock emptyRun.2 laterBlock laterRun.2);
    [vm_compute; reflexivity|vm_compute; reflexivity|by apply bool_decide_true].
Defined.

Lemma gas_limit_bounded_witness : 5000 <= CalcGasLimit 21000 4712388.
Proof.
  destruct (gas_limit_bounded 21000 4712388) as [H _]; [lia|vm_compute; congruence|exact H].
Defined.
