(* ===== verification/ChainDB.v ===== *)
(** * ChainDB: the database of the chain and the header chain

    Models [core/database_util.go], the lookups of [core/headerchain.go] with their
    caches, those of [core/blockchain.go] for blocks, [CommitTo] of
    [core/state/statedb.go], and the genesis block of [core/genesis.go].  The
    prefixes of the keys keep the maps below apart; what RLP encodes is decoded
    to the same; the keys of older databases, which this code never writes, are
    left out. *)
From S2P Require Import Prelude.
From S2P Require Import StateDB.
From S2P Require Import Tx.
From S2P Require Import ZkTx.
From S2P Require Import Merkle.
From S2P Require Import Header.
From S2P Require Import Snapshot.
From S2P Require Import HeaderRules.
From S2P Require Import Engine.

(** ** The database *)

(** Headers, bodies, total difficulties and receipts by number and hash; the
    number of a hash; the hash of a number of the canonical chain; the heads; where
    a transaction and a header of a child chain are found; and the account tries by
    their roots. *)
Record ChainDB := mkChainDB {
  db_headers : gmap (Z * string) Header;
  db_bodies : gmap (Z * string) (list Transaction * list Header);
  db_tds : gmap (Z * string) Z;
  db_receipts : gmap (Z * string) (list string);
  db_numbers : gmap string Z;
  db_canonical : gmap Z string;
  db_headHeader : string;
  db_headBlock : string;
  db_headFast : string;
  db_lookups : gmap string (string * Z * Z);
  db_headerTxs : gmap string (string * Z * string * Z);
  db_states : gmap string (gmap string Account);
}.
#[export] Instance ChainDB_eta : Eta ChainDB := fun r =>
  mkChainDB (db_headers r) (db_bodies r) (db_tds r) (db_receipts r) (db_numbers r) (db_canonical r)
    (db_headHeader r) (db_headBlock r) (db_headFast r) (db_lookups r) (db_headerTxs r) (db_states r).

(** [missingNumber]. *)
Definition missingNumber : Z := two64 - 1.

Definition dbBlockNumber (d : ChainDB) (hash : string) : Z := default missingNumber (db_numbers d !! hash).
Definition dbCanonicalHash (d : ChainDB) (number : Z) : string := default zeroHash (db_canonical d !! number).

(** [NewBlockWithHeader] and [WithBody]. *)
Definition withBody (header : Header) (body : list Transaction * list Header) : Block :=
  mkBlock (CopyHeader header) body.1 (map CopyHeader body.2).

(** [GetBlock] of the database: it needs the header and the body. *)
Definition dbBlock (d : ChainDB) (hash : string) (number : Z) : option Block :=
  header ← db_headers d !! (number, hash);
  body ← db_bodies d !! (number, hash);
  Some (withBody header body).

(** The number and the difficulty of a block; its header has both. *)
Definition bnum (b : Block) : Z := hnum (b_header b).
Definition difficulty (b : Block) : Z := default 0 (hd_Difficulty (b_header b)).

Section DB.
Context `{TE : TxEnv} `{BE : BlockEnv}.

(** [Hash] of a block. *)
Definition bhash (b : Block) : string := hdr_hash (b_header b).

Definition dbWriteTd (hash : string) (number td : Z) (d : ChainDB) : ChainDB :=
  d <| db_tds ::= <[(number, hash) := td]> |>.
Definition dbWriteCanonicalHash (hash : string) (number : Z) (d : ChainDB) : ChainDB :=
  d <| db_canonical ::= <[number := hash]> |>.

(** [WriteHeader], [WriteBody] and [WriteBlock]. *)
Definition dbWriteHeader (header : Header) (d : ChainDB) : ChainDB :=
  d <| db_numbers ::= <[hdr_hash header := hnum header]> |>
    <| db_headers ::= <[(hnum header, hdr_hash header) := header]> |>.
Definition dbWriteBody (hash : string) (number : Z) (body : list Transaction * list Header) (d : ChainDB) : ChainDB :=
  d <| db_bodies ::= <[(number, hash) := body]> |>.
Definition dbWriteBlock (b : Block) (d : ChainDB) : ChainDB :=
  dbWriteHeader (CopyHeader (b_header b))
    (dbWriteBody (bhash b) (bnum b) (b_transactions b, b_uncles b) d).
Definition dbWriteBlockReceipts (hash : string) (number : Z) (receipts : list string) (d : ChainDB) : ChainDB :=
  d <| db_receipts ::= <[(number, hash) := receipts]> |>.

(** A trie that is written to the database is found under its root. *)
Definition dbWriteState (trie : gmap string Account) (d : ChainDB) : ChainDB :=
  d <| db_states ::= <[trieRoot trie := trie]> |>.

(** [WriteTransactions] from the [i]-th on: where each is, and for a transaction of
    headers where these are. *)
Definition dbWriteTransaction (b : Block) (i : Z) (hash : string) (tx : Transaction) (d : ChainDB) : ChainDB :=
  let d := d <| db_lookups ::= <[hash := (bhash b, bnum b, i)]> |> in
  if tx_TxType tx =? TxHeader
  then foldl (fun d h => d <| db_headerTxs ::= <[h := (bhash b, bnum b, hash, i)]> |>) d (tx_Headers tx)
  else d.
Fixpoint dbWriteTransactions (b : Block) (i : Z) (txs : list Transaction) (d : ChainDB) : option ChainDB :=
  match txs with
  | [] => Some d
  | tx :: txs' =>
      hash ← ZKHashTx tx;
      dbWriteTransactions b (i + 1) txs' (dbWriteTransaction b i hash tx d)
  end.

(** ** [CommitTo] of a state *)

(** What it does with the object at an address; the code it writes is part of the
    account here. *)
Definition commitObject (deleteEmptyObjects : bool) (a : string) : M StateDB unit :=
  s <- get ;;
  match sdb_objects s !! a with
  | None => ret tt
  | Some o =>
      let isDirty := bool_decide (a ∈ sdb_dirty s) in
      (if so_suicided o || (isDirty && deleteEmptyObjects && empty o) then deleteStateObject a
       else when isDirty (updateStateObject a o)) ;;
      modify (fun s => s <| sdb_dirty ::= fun d => d ∖ {[a]} |>)
  end.
Definition CommitTo (deleteEmptyObjects : bool) : M StateDB (gmap string Account) :=
  s <- get ;;
  for_each (map_to_list (sdb_objects s)).*1 (commitObject deleteEmptyObjects) ;;
  clearJournalAndRefund ;;
  gets sdb_trie.
End DB.
