(* ===== verification/Blockchain.v ===== *)
(** * Blockchain: importing blocks

    Models [core/blockchain.go]: the lookups with their caches (those of
    [core/headerchain.go] among them), [insert], [reorg], [WriteBlock],
    [InsertChain], [procFutureBlocks], and the genesis block of [core/genesis.go].
    The caches do not evict by themselves here; that an entry may be lost at any
    time is the relation [evicted] of the proofs.  Events, logs, the mipmaps of blooms,
    preimages and statistics are left out. *)
From S2P Require Import Prelude.
From S2P Require Import Messages.
From S2P Require Import StateDB.
From S2P Require Import Tx.
From S2P Require Import ZkTx.
From S2P Require Import Merkle.
From S2P Require Import Header.
From S2P Require Import Snapshot.
From S2P Require Import HeaderRules.
From S2P Require Import Engine.
From S2P Require Import ChainDB.

(** [BlockChain] with its [HeaderChain]. *)
Record BlockChain := mkBlockChain {
  bc_db : ChainDB;
  hc_currentHeader : Header;
  hc_headerCache : gmap string Header;
  hc_tdCache : gmap string Z;
  hc_numberCache : gmap string Z;
  bc_currentBlock : Block;
  bc_currentFastBlock : Block;
  bc_blockCache : gmap string Block;
  bc_futureBlocks : gmap string Block;
  bc_badBlocks : gmap string Header;
  bc_procInterrupt : bool;
}.
#[export] Instance BlockChain_eta : Eta BlockChain := fun r =>
  mkBlockChain (bc_db r) (hc_currentHeader r) (hc_headerCache r) (hc_tdCache r) (hc_numberCache r)
    (bc_currentBlock r) (bc_currentFastBlock r) (bc_blockCache r) (bc_futureBlocks r) (bc_badBlocks r)
    (bc_procInterrupt r).

Local Abbreviation MB := (M BlockChain).

(** What stops an import. *)
Inductive chainErr :=
| errNonContiguous | ErrBlacklistedHash | errHeader (e : verr) | errBody (e : blockErr) | errTooFarAhead
| errMissingState | errProcess (e : txErr) | errState (e : blockErr) | errUnknownParent
| errInvalidOldChain | errInvalidNewChain.

Inductive WriteStatus := CanonStatTy | SideStatTy.

(** The interface [Processor]: the receipts, encoded, and the gas used. *)
Class Processor := { process : Block -> M StateDB (txErr + (list string * Z)) }.

(** The configuration that the chain reads: the fork of EIP 158. *)
Class ChainParams := { isEIP158 : Block -> bool; BadHashes : gset string }.

Definition onDB (f : ChainDB -> ChainDB) : MB unit := modify (fun s => s <| bc_db ::= f |>).

(** Work on a state of accounts of its own. *)
Definition onState {A} (m : M StateDB A) (st : StateDB) : MB (A * StateDB) := fun s =>
  match m st with
  | (Ret a, st') => (Ret (a, st'), s)
  | (Panic, _) => (Panic, s)
  | (OutOfFuel, _) => (OutOfFuel, s)
  end.

Section Chain.
Context `{TE : TxEnv} `{HA : HashEnv} `{HE : HeaderEnv} `{MK : MerkleEnv} `{BE : BlockEnv} `{PR : Processor} `{CP : ChainParams}.

(** ** Lookups *)

Definition GetBlockNumber (hash : string) : MB Z :=
  s <- get ;;
  match hc_numberCache s !! hash with
  | Some n => ret n
  | None =>
      let number := dbBlockNumber (bc_db s) hash in
      when (negb (number =? missingNumber)) (modify (fun s => s <| hc_numberCache ::= <[hash := number]> |>)) ;;
      ret number
  end.

(** [GetHeader] and [GetTd]: what is cached under the hash is returned whatever the
    number. *)
Definition GetHeader (hash : string) (number : Z) : MB (option Header) :=
  s <- get ;;
  match hc_headerCache s !! hash with
  | Some h => ret (Some h)
  | None =>
      match db_headers (bc_db s) !! (number, hash) with
      | None => ret None
      | Some h => modify (fun s => s <| hc_headerCache ::= <[hash := h]> |>) ;; ret (Some h)
      end
  end.
Definition GetTd (hash : string) (number : Z) : MB (option Z) :=
  s <- get ;;
  match hc_tdCache s !! hash with
  | Some td => ret (Some td)
  | None =>
      match db_tds (bc_db s) !! (number, hash) with
      | None => ret None
      | Some td => modify (fun s => s <| hc_tdCache ::= <[hash := td]> |>) ;; ret (Some td)
      end
  end.
Definition WriteTd (hash : string) (number td : Z) : MB unit :=
  onDB (dbWriteTd hash number td) ;;
  modify (fun s => s <| hc_tdCache ::= <[hash := td]> |>).

Definition GetBlock (hash : string) (number : Z) : MB (option Block) :=
  s <- get ;;
  match bc_blockCache s !! hash with
  | Some b => ret (Some b)
  | None =>
      match dbBlock (bc_db s) hash number with
      | None => ret None
      | Some b => modify (fun s => s <| bc_blockCache ::= <[bhash b := b]> |>) ;; ret (Some b)
      end
  end.
Definition GetBlockByHash (hash : string) : MB (option Block) :=
  number <- GetBlockNumber hash ;;
  GetBlock hash number.
Definition GetBlockByNumber (number : Z) : MB (option Block) :=
  s <- get ;;
  let hash := dbCanonicalHash (bc_db s) number in
  if bool_decide (hash = zeroHash) then ret None else GetBlock hash number.

(** [HasBlockAndState]: the trie of the block is in the database. *)
Definition HasBlockAndState (hash : string) : MB bool :=
  b <- GetBlockByHash hash ;;
  match b with
  | None => ret false
  | Some b => gets (fun s => bool_decide (is_Some (db_states (bc_db s) !! hd_Root (b_header b))))
  end.

(** ** Writing blocks *)

Definition SetCurrentHeader (head : Header) : MB unit :=
  onDB (fun d => d <| db_headHeader := hdr_hash head |>) ;;
  modify (fun s => s <| hc_currentHeader := head |>).

(** [insert]: the new head; the heads of headers and of the fast synchronisation
    follow unless the block is the canonical one of its number already. *)
Definition insert_block (block : Block) : MB unit :=
  s <- get ;;
  let updateHeads := negb (bool_decide (dbCanonicalHash (bc_db s) (bnum block) = bhash block)) in
  onDB (dbWriteCanonicalHash (bhash block) (bnum block)) ;;
  onDB (fun d => d <| db_headBlock := bhash block |>) ;;
  modify (fun s => s <| bc_currentBlock := block |>) ;;
  when updateHeads
    (SetCurrentHeader (CopyHeader (b_header block)) ;;
     onDB (fun d => d <| db_headFast := bhash block |>) ;;
     modify (fun s => s <| bc_currentFastBlock := block |>)).

Definition WriteTransactions (block : Block) : MB unit :=
  s <- get ;;
  match dbWriteTransactions block 0 (b_transactions block) (bc_db s) with
  | None => panic
  | Some d => onDB (fun _ => d)
  end.

(** The parent of a block. *)
Definition parentOf (b : Block) : MB (option Block) :=
  GetBlock (hd_ParentHash (b_header b)) (u64 (bnum b - 1)).

(** The loops that reduce the higher chain: the blocks passed, and where it ends. *)
Fixpoint reduce (fuel : nat) (b : option Block) (number : Z) : MB (option Block * list Block) :=
  match fuel with
  | O => fun s => (OutOfFuel, s)
  | S fuel =>
      match b with
      | None => ret (None, [])
      | Some b =>
          if bnum b =? number then ret (Some b, [])
          else
            p <- parentOf b ;;
            r <- reduce fuel p number ;;
            ret (r.1, b :: r.2)
      end
  end.

(** The loop that walks both chains back to a common block. *)
Fixpoint commonBlock (fuel : nat) (old new : Block) : MB (chainErr + (list Block * list Block)) :=
  match fuel with
  | O => fun s => (OutOfFuel, s)
  | S fuel =>
      if bool_decide (bhash old = bhash new) then ret (inr ([], []))
      else
        o <- parentOf old ;;
        n <- parentOf new ;;
        match o, n with
        | None, _ => ret (inl errInvalidOldChain)
        | _, None => ret (inl errInvalidNewChain)
        | Some o, Some n =>
            r <- commonBlock fuel o n ;;
            ret (match r with inl e => inl e | inr (os, ns) => inr (old :: os, new :: ns) end)
        end
  end.

(** The deletion of the transactions that are not in the new chain. *)
Definition DeleteTransactions (deleted added : list Transaction) : MB unit :=
  match mapM ZKHashTx deleted, mapM ZKHashTx added with
  | Some ds, Some adds =>
      onDB (fun d => d <| db_lookups ::= fun m => foldl (fun m h => delete h m) m (List.filter (fun h => negb (bool_decide (h ∈ adds))) ds) |>)
  | _, _ => panic
  end.

(** [reorg]; the steps of its loops are bounded by the numbers of the blocks. *)
Definition reorg (oldBlock newBlock : Block) : MB (option chainErr) :=
  let fuel := S (S (Z.to_nat (Z.max (bnum oldBlock) (bnum newBlock)))) in
  r <- (if bnum newBlock <? bnum oldBlock
        then r <- reduce fuel (Some oldBlock) (bnum newBlock) ;; ret (r.1, r.2, Some newBlock, [])
        else r <- reduce fuel (Some newBlock) (bnum oldBlock) ;; ret (Some oldBlock, [], r.1, r.2)) ;;
  match r with
  | (None, _, _, _) => ret (Some errInvalidOldChain)
  | (_, _, None, _) => ret (Some errInvalidNewChain)
  | (Some old, olds, Some new, news) =>
      r <- commonBlock fuel old new ;;
      match r with
      | inl e => ret (Some e)
      | inr (os, ns) =>
          let oldChain := olds ++ os in
          let newChain := news ++ ns in
          for_each newChain (fun b => insert_block b ;; WriteTransactions b) ;;
          DeleteTransactions (concat (map b_transactions oldChain)) (concat (map b_transactions newChain)) ;;
          ret None
      end
  end.

(** [WriteBlock], with the outcome of the coin it tosses between equal chains. *)
Definition WriteBlock (coin : bool) (block : Block) : MB (chainErr + WriteStatus) :=
  ptd <- GetTd (hd_ParentHash (b_header block)) (u64 (bnum block - 1)) ;;
  match ptd with
  | None => ret (inl errUnknownParent)
  | Some ptd =>
      s <- get ;;
      localTd <- GetTd (bhash (bc_currentBlock s)) (bnum (bc_currentBlock s)) ;;
      let externTd := difficulty block + ptd in
      WriteTd (bhash block) (bnum block) externTd ;;
      onDB (dbWriteBlock block) ;;
      match localTd with
      | None => panic
      | Some localTd =>
          r <- (if (localTd <? externTd) || ((externTd =? localTd) && coin)
                then
                  s <- get ;;
                  r <- (if bool_decide (hd_ParentHash (b_header block) = bhash (bc_currentBlock s)) then ret None
                        else reorg (bc_currentBlock s) block) ;;
                  match r with
                  | Some e => ret (inl e)
                  | None => insert_block block ;; ret (inr CanonStatTy)
                  end
                else ret (inr SideStatTy)) ;;
          match r with
          | inl e => ret (inl e)
          | inr st => modify (fun s => s <| bc_futureBlocks ::= delete (bhash block) |>) ;; ret (inr st)
          end
      end
  end.

(** ** Importing a block *)

Definition reportBlock (b : Block) : MB unit :=
  modify (fun s => s <| bc_badBlocks ::= <[bhash b := CopyHeader (b_header b)]> |>).
Definition addFuture (b : Block) : MB unit :=
  modify (fun s => s <| bc_futureBlocks ::= <[bhash b := b]> |>).

(** [ValidateBody] of [Engine] over this chain: it asks for the block and, if that is
    unknown, for its parent. *)
Definition validateBody (b : Block) : MB (option blockErr) :=
  known <- HasBlockAndState (bhash b) ;;
  linked <- (if known then ret false else HasBlockAndState (hd_ParentHash (b_header b))) ;;
  match ValidateBody (fun hash => if bool_decide (hash = bhash b) then known else linked) b with
  | None => panic
  | Some r => ret r
  end.

(** Processing a block over the state of its parent, validating the state it leaves,
    and writing both. *)
Definition executeBlock (coin : bool) (parent block : Block) : MB (option chainErr) :=
  s <- get ;;
  match db_states (bc_db s) !! hd_Root (b_header parent) with
  | None => ret (Some errMissingState)
  | Some trie =>
      r <- onState (process block) (New trie) ;;
      match r with
      | (inl e, _) => reportBlock block ;; ret (Some (errProcess e))
      | (inr (receipts, usedGas), st) =>
          r <- onState (ValidateState (isEIP158 block) block receipts usedGas) st ;;
          match r with
          | (Some e, _) => reportBlock block ;; ret (Some (errState e))
          | (None, st) =>
              r <- onState (CommitTo (isEIP158 block)) st ;;
              onDB (dbWriteState r.1) ;;
              onDB (dbWriteBlockReceipts (bhash block) (bnum block) receipts) ;;
              w <- WriteBlock coin block ;;
              match w with
              | inl e => ret (Some e)
              | inr CanonStatTy => WriteTransactions block ;; ret None
              | inr SideStatTy => ret None
              end
          end
      end
  end.

(** What the loop of [InsertChain] does with a block whose header has been verified:
    an error stops it. *)
Definition importBlock (now : Z) (coin : bool) (prev : option Block) (block : Block) (result : option verr) :
    MB (option chainErr) :=
  if bool_decide (bhash block ∈ BadHashes) then reportBlock block ;; ret (Some ErrBlacklistedHash)
  else
    err <- (match result with
            | Some e => ret (Some (errHeader e))
            | None => e <- validateBody block ;; ret (errBody <$> e)
            end) ;;
    match err with
    | Some (errBody ErrKnownBlock) => ret None
    | Some (errHeader ErrFutureBlock) =>
        if now + 30 <? hd_Time (b_header block) then ret (Some errTooFarAhead) else addFuture block ;; ret None
    | Some e =>
        s <- get ;;
        if (match e with errHeader ErrUnknownAncestor | errBody errParentUnknown => true | _ => false end)
           && bool_decide (is_Some (bc_futureBlocks s !! hd_ParentHash (b_header block)))
        then addFuture block ;; ret None
        else reportBlock block ;; ret (Some e)
    | None =>
        parent <- (match prev with Some p => ret (Some p) | None => parentOf block end) ;;
        match parent with
        | None => panic
        | Some parent => executeBlock coin parent block
        end
    end.

(** The loop: the index of the block that failed and the error. *)
Fixpoint importLoop (now : Z) (coin : nat -> bool) (i : nat) (prev : option Block) (chain : list (Block * option verr)) :
    MB (option (nat * chainErr)) :=
  match chain with
  | [] => ret None
  | (block, result) :: chain =>
      s <- get ;;
      if bc_procInterrupt s then ret None
      else
        e <- importBlock now (coin i) prev block result ;;
        match e with
        | Some e => ret (Some (i, e))
        | None => importLoop now coin (S i) (Some block) chain
        end
  end.

(** What [wait] of the miner does with a block of its own, whose state it has at
    hand: it is not validated again. *)
Definition commitMined (coin : bool) (block : Block) (state : StateDB) : MB bool :=
  r <- onState (CommitTo (isEIP158 block)) state ;;
  onDB (dbWriteState r.1) ;;
  w <- WriteBlock coin block ;;
  match w with
  | inl _ => ret false
  | inr CanonStatTy => WriteTransactions block ;; ret true
  | inr SideStatTy => ret true
  end.

(** The chain that is imported is linked by number and hash. *)
Fixpoint contiguousBlocks (chain : list Block) : bool :=
  match chain with
  | a :: (b :: _) as chain' =>
      (bnum b =? u64 (bnum a + 1)) && bool_decide (hd_ParentHash (b_header b) = bhash a) && contiguousBlocks chain'
  | _ => true
  end.
End Chain.

(** ** The genesis block *)

Record GenesisAccount := mkGenesisAccount { ga_Code : string; ga_Balance : Z; ga_Nonce : Z }.
Record Genesis := mkGenesis {
  gs_Nonce : Z;
  gs_Timestamp : Z;
  gs_ExtraData : list Ascii.ascii;
  gs_GasLimit : Z;
  gs_Difficulty : option Z;
  gs_Mixhash : string;
  gs_Coinbase : Address;
  gs_Alloc : list (Address * GenesisAccount);
  gs_Number : Z;
  gs_GasUsed : Z;
  gs_ParentHash : string;
}.

(** [EncodeNonce]: eight bytes, the highest first. *)
Fixpoint bigEndian (n : nat) (z : Z) : string :=
  match n with
  | O => EmptyString
  | S n => bigEndian n (z / 256) +:+ String (Ascii.ascii_of_N (Z.to_N (z mod 256))) EmptyString
  end.
Definition EncodeNonce (i : Z) : string := bigEndian 8 i.

Definition GenesisGasLimit : Z := 4712388.
Definition GenesisDifficulty : Z := 131072.

(** [zktx.GenCMT]: the commitment to a value with a serial number and a random. *)
Class CommitEnv := { GenCMT : Z -> string -> string -> string }.

Section Start.
Context `{TE : TxEnv} `{HA : HashEnv} `{HE : HeaderEnv} `{MK : MerkleEnv} `{BE : BlockEnv} `{CM : CommitEnv}.

(** [ToBlock]; the storage of contracts is left out, as in [StateDB]. *)
Definition allocate (e : Address * GenesisAccount) : M StateDB unit :=
  AddBalance e.1 (ga_Balance e.2) ;;
  SetCode e.1 (ga_Code e.2) ;;
  SetNonce e.1 (ga_Nonce e.2) ;;
  SetCMT e.1 (GenCMT 0 zeroHash zeroHash).
Definition ToBlock (g : Genesis) : M StateDB Block :=
  for_each (gs_Alloc g) allocate ;;
  IntermediateRoot false ;;
  s <- get ;;
  let head := mkHeader (gs_ParentHash g) zeroHash (gs_Coinbase g) (trieRoot (sdb_trie s)) EmptyRootHash []
    zeroHash zeroHash (zeros 256) (Some (default GenesisDifficulty (gs_Difficulty g))) (Some (gs_Number g))
    (if gs_GasLimit g =? 0 then GenesisGasLimit else gs_GasLimit g) (gs_GasUsed g) (gs_Timestamp g)
    (gs_ExtraData g) (gs_Mixhash g) (EncodeNonce (gs_Nonce g)) in
  match NewBlock head [] [] [] with None => panic | Some b => ret b end.

Definition emptyDB : ChainDB := mkChainDB ∅ ∅ ∅ ∅ ∅ ∅ zeroHash zeroHash zeroHash ∅ ∅ ∅.

(** [Commit] of a genesis to an empty database, which fails for a number that is not
    zero; an encoding of no difficulty is read back as zero. *)
Definition Commit (g : Genesis) : option ChainDB :=
  match ToBlock g (New ∅) with
  | (Ret b, st) =>
      if negb (bnum b =? 0) then None
      else
        match CommitTo false st with
        | (Ret trie, _) =>
            let d := dbWriteTd (bhash b) (bnum b) (default 0 (gs_Difficulty g)) (dbWriteState trie emptyDB) in
            let d := dbWriteBlockReceipts (bhash b) (bnum b) [] (dbWriteBlock b d) in
            let d := dbWriteCanonicalHash (bhash b) (bnum b) d in
            Some (d <| db_headBlock := bhash b |> <| db_headHeader := bhash b |>)
        | _ => None
        end
  | _ => None
  end.

(** [NewBlockChain] with [NewHeaderChain] and [loadLastState] over a database: the
    genesis block and the heads are read from it; without them the chain does not
    open here.  [Reset], to which [loadLastState] resorts when the head block or its
    state is missing, is left out, and so is the rewinding of chains with a bad
    hash. *)
Definition noBlock : Block :=
  mkBlock (mkHeader zeroHash zeroHash zeroAddr zeroHash zeroHash [] zeroHash zeroHash (zeros 256) None None 0 0 0 []
    zeroHash nonceDropVote) [] [].
Definition openDB (d : ChainDB) : BlockChain :=
  mkBlockChain d (b_header noBlock) ∅ ∅ ∅ noBlock noBlock ∅ ∅ ∅ false.
Definition GetHeaderByHash (hash : string) : MB (option Header) :=
  number <- GetBlockNumber hash ;;
  GetHeader hash number.
Definition GetHeaderByNumber (number : Z) : MB (option Header) :=
  s <- get ;;
  let hash := dbCanonicalHash (bc_db s) number in
  if bool_decide (hash = zeroHash) then ret None else GetHeader hash number.

(** [NewHeaderChain], which needs genesis. *)
Definition NewHeaderChain : MB bool :=
  g <- GetHeaderByNumber 0 ;;
  match g with
  | None => ret false
  | Some g =>
      modify (fun s => s <| hc_currentHeader := g |>) ;;
      s <- get ;;
      let head := db_headBlock (bc_db s) in
      h <- (if bool_decide (head = zeroHash) then ret None else GetHeaderByHash head) ;;
      match h with
      | None => ret true
      | Some h => modify (fun s => s <| hc_currentHeader := h |>) ;; ret true
      end
  end.

(** [loadLastState]; the difficulties are read for the log. *)
Definition loadLastState : MB bool :=
  s <- get ;;
  let head := db_headBlock (bc_db s) in
  b <- (if bool_decide (head = zeroHash) then ret None else GetBlockByHash head) ;;
  match b with
  | None => ret false
  | Some b =>
      if negb (bool_decide (is_Some (db_states (bc_db s) !! hd_Root (b_header b)))) then ret false
      else
        modify (fun s => s <| bc_currentBlock := b |>) ;;
        h <- (if bool_decide (db_headHeader (bc_db s) = zeroHash) then ret None
              else GetHeaderByHash (db_headHeader (bc_db s))) ;;
        let currentHeader := default (CopyHeader (b_header b)) h in
        SetCurrentHeader currentHeader ;;
        f <- (if bool_decide (db_headFast (bc_db s) = zeroHash) then ret None
              else GetBlockByHash (db_headFast (bc_db s))) ;;
        let fast := default b f in
        modify (fun s => s <| bc_currentFastBlock := fast |>) ;;
        GetTd (hdr_hash currentHeader) (hnum currentHeader) ;;
        GetTd (bhash b) (bnum b) ;;
        GetTd (bhash fast) (bnum fast) ;;
        ret true
  end.
Definition NewBlockChain (d : ChainDB) : option BlockChain :=
  match (ok <- NewHeaderChain ;;
         if negb ok then ret false
         else
           g <- GetBlockByNumber 0 ;;
           match g with None => ret false | Some _ => loadLastState end) (openDB d) with
  | (Ret true, s) => Some s
  | _ => None
  end.
End Start.

(** ** The chain and its engine *)

(** The genesis block that the node was set up with. *)
Class GenesisBlock := { genesis : Block; genesis_zero : bnum genesis = 0 }.

Record Node := mkNode { nd_chain : BlockChain; nd_engine : Engine }.
#[export] Instance Node_eta : Eta Node := fun r => mkNode (nd_chain r) (nd_engine r).

Definition onChain {A} (m : MB A) : M Node A := fun nd =>
  let '(r, s) := m (nd_chain nd) in (r, nd <| nd_chain := s |>).
Definition onEngine {A} (m : M Engine A) : M Node A := fun nd =>
  let '(r, en) := m (nd_engine nd) in (r, nd <| nd_engine := en |>).

Section Importing.
Context `{TE : TxEnv} `{HA : HashEnv} `{HE : HeaderEnv} `{MK : MerkleEnv} `{BE : BlockEnv} `{PR : Processor} `{CP : ChainParams}.
Context `{GN : GenesisBlock}.

(** The chain as the engine reads it, at a time. *)
Definition readHeader (s : BlockChain) (hash : string) (number : Z) : option Header :=
  match (GetHeader hash number s).1 with Ret h => h | _ => None end.
Definition chainEnv (t : Z) (s : BlockChain) : ChainEnv := {|
  chain_GetHeader := readHeader s;
  chain_genesis := b_header genesis;
  genesis_number := genesis_zero;
  now := t |}.

(** [InsertChain] at a time, with the outcomes of the coins: the headers are verified
    in a goroutine, which here has finished when the loop starts.  What the engine
    reads is not added to the cache of headers. *)
Definition InsertChain (t : Z) (coin : nat -> bool) (chain : list Block) : M Node (option (nat * chainErr)) :=
  if negb (contiguousBlocks chain) then ret (Some (0%nat, errNonContiguous))
  else
    nd <- get ;;
    results <- onEngine (VerifyHeaders (CE := chainEnv t (nd_chain nd)) (map (fun b => CopyHeader (b_header b)) chain)) ;;
    onChain (importLoop t coin 0 None (zip chain results)).

(** [procFutureBlocks]: one by one, in the order of their numbers. *)
Definition byNumber (a b : Block) : Prop := bnum a <= bnum b.
#[local] Instance byNumber_dec a b : Decision (byNumber a b) := Z.le_dec _ _.
Definition procFutureBlocks `{GoRange} (t : Z) (coin : nat -> bool) : M Node unit :=
  nd <- get ;;
  let blocks := merge_sort byNumber (go_range 0 (bc_futureBlocks (nd_chain nd))).*2 in
  for_each (zip (seq 0 (length blocks)) blocks) (fun e => InsertChain t (fun _ => coin e.1) [e.2] ;; ret tt).
End Importing.
