(* ===== verification/BlockchainProofs.v ===== *)
(** * BlockchainProofs: the chain that the imports build

    The invariant of the database, its caches and the head, which the writing of a
    block keeps, reorganisations included. *)
From S2P Require Import Prelude.
From S2P Require Import Messages.
From S2P Require Import StateDB.
From S2P Require Import Tx.
From S2P Require Import ZkTx.
From S2P Require Import Merkle.
From S2P Require Import Header.
From S2P Require Import Snapshot.
From S2P Require Import HeaderRules.
From S2P Require Import Engine.
From S2P Require Import ChainDB.
From S2P Require Import Blockchain.

Section Proofs.
Context `{TE : TxEnv} `{HA : HashEnv} `{HE : HeaderEnv} `{MK : MerkleEnv} `{BE : BlockEnv} `{PR : Processor} `{CP : ChainParams}.
Context `{GN : GenesisBlock}.

(** ** The invariant of the database *)

Definition hashable (b : Block) : Prop := Forall (fun tx => is_Some (ZKHashTx tx)) (b_transactions b).

(** What every block in the database is. *)
Record proper (b : Block) : Prop := {
  pr_header : CopyHeader (b_header b) = b_header b;
  pr_uncles : b_uncles b = [];
  pr_hashable : hashable b;
}.

Definition parent_of (d : ChainDB) (b : Block) : option Block :=
  dbBlock d (hd_ParentHash (b_header b)) (bnum b - 1).
Definition td_of (d : ChainDB) (b : Block) : option Z := db_tds d !! (bnum b, bhash b).

(** Headers come with bodies, numbers and difficulties; no hash has two numbers; the
    only block of number zero is genesis, every other has its parent in the database;
    and a state is found under its root. *)
Record stored (d : ChainDB) : Prop := {
  sd_block : forall hash n h, db_headers d !! (n, hash) = Some h -> exists b, dbBlock d hash n = Some b;
  sd_proper : forall hash n b, dbBlock d hash n = Some b ->
    proper b /\ bhash b = hash /\ bnum b = n /\ db_numbers d !! hash = Some n;
  sd_number : forall hash n, db_numbers d !! hash = Some n -> exists b, dbBlock d hash n = Some b;
  sd_td : forall hash n td, db_tds d !! (n, hash) = Some td -> exists b, dbBlock d hash n = Some b;
  sd_genesis : dbBlock d (bhash genesis) 0 = Some genesis /\ is_Some (td_of d genesis);
  sd_zero : forall hash b, dbBlock d hash 0 = Some b -> b = genesis;
  sd_parent : forall hash n b, dbBlock d hash n = Some b -> n <> 0 -> exists p td,
    parent_of d b = Some p /\ td_of d p = Some td /\ td_of d b = Some (difficulty b + td);
  sd_roots : forall root t, db_states d !! root = Some t -> trieRoot t = root;
}.

Definition inDB (d : ChainDB) (b : Block) : Prop := dbBlock d (bhash b) (bnum b) = Some b.

Section Stored.
Context (d : ChainDB) (SD : stored d).

Lemma dbBlock_inDB hash n b : dbBlock d hash n = Some b -> inDB d b /\ bhash b = hash /\ bnum b = n.
Proof. intros H. destruct (sd_proper d SD _ _ _ H) as (_&Eh&En&_). unfold inDB. by rewrite Eh, En. Qed.

Lemma number_unique hash n n' b b' : dbBlock d hash n = Some b -> dbBlock d hash n' = Some b' -> n' = n /\ b' = b.
Proof.
  intros H H'. destruct (sd_proper d SD _ _ _ H) as (_&_&_&E), (sd_proper d SD _ _ _ H') as (_&_&_&E').
  rewrite E in E'. injection E' as <-. rewrite H in H'. by injection H' as <-.
Qed.

Lemma inDB_hash b b' : inDB d b -> inDB d b' -> bhash b = bhash b' -> b = b'.
Proof. unfold inDB. intros H H' E. rewrite <- E in H'. by destruct (number_unique _ _ _ _ _ H H') as [_ ->]. Qed.

Lemma genesis_inDB : inDB d genesis.
Proof. unfold inDB. rewrite genesis_zero. apply SD. Qed.

Lemma inDB_td b : inDB d b -> is_Some (td_of d b).
Proof.
  intros H. destruct (decide (bnum b = 0)) as [E|E].
  - unfold inDB in H. rewrite E in H. rewrite (sd_zero d SD _ _ H). apply SD.
  - destruct (sd_parent d SD _ _ _ H E) as (p&td&_&_&->). by eexists.
Qed.

Lemma parent_inDB b p : parent_of d b = Some p -> inDB d p /\ bhash p = hd_ParentHash (b_header b) /\ bnum p = bnum b - 1.
Proof. apply dbBlock_inDB. Qed.

Lemma inDB_parent b : inDB d b -> bnum b <> 0 -> exists p, parent_of d b = Some p.
Proof. intros H Hn. destruct (sd_parent d SD _ _ _ H Hn) as (p&_&E&_). by exists p. Qed.
End Stored.

(** ** Caches *)

Record cached (s : BlockChain) : Prop := {
  ca_numbers : forall hash n, hc_numberCache s !! hash = Some n -> db_numbers (bc_db s) !! hash = Some n;
  ca_headers : forall hash h, hc_headerCache s !! hash = Some h ->
    exists n b, dbBlock (bc_db s) hash n = Some b /\ b_header b = CopyHeader h;
  ca_tds : forall hash td, hc_tdCache s !! hash = Some td -> exists n, db_tds (bc_db s) !! (n, hash) = Some td;
  ca_blocks : forall hash b, bc_blockCache s !! hash = Some b -> exists n, dbBlock (bc_db s) hash n = Some b;
}.

(** What a lookup leaves alone: all but the caches. *)
Record reads (s s' : BlockChain) : Prop := {
  rd_db : bc_db s' = bc_db s;
  rd_head : bc_currentBlock s' = bc_currentBlock s;
  rd_future : bc_futureBlocks s' = bc_futureBlocks s;
}.
#[export] Instance reads_preorder : PreOrder reads.
Proof. split; [by intros s|]. intros s1 s2 s3 [] []. split; congruence. Qed.

(** The database block behind a header. *)
Lemma stored_header d hash n h : stored d -> db_headers d !! (n, hash) = Some h ->
  exists b, dbBlock d hash n = Some b /\ b_header b = CopyHeader h.
Proof.
  intros SD H. destruct (sd_block d SD _ _ _ H) as [b Hb]. exists b. split; [done|]. unfold dbBlock in Hb.
  rewrite H in Hb. cbn in Hb. destruct (db_bodies d !! (n, hash)); [|done]. by injection Hb as <-.
Qed.

Lemma dbBlock_td d hash n b : stored d -> dbBlock d hash n = Some b -> is_Some (db_tds d !! (n, hash)).
Proof.
  intros SD H. destruct (dbBlock_inDB d SD _ _ _ H) as (Hin&<-&<-). exact (inDB_td d SD b Hin).
Qed.

(** ** Lookups *)

Section Lookups.
Context (s : BlockChain) (SD : stored (bc_db s)) (CA : cached s).

Lemma GetBlockNumber_reads hash : exists n s', GetBlockNumber hash s = (Ret n, s') /\ reads s s' /\ cached s' /\
  (forall n', db_numbers (bc_db s) !! hash = Some n' -> n = n') /\
  (db_numbers (bc_db s) !! hash = None -> n = missingNumber).
Proof.
  unfold GetBlockNumber. rewrite bind_get. destruct (hc_numberCache s !! hash) as [n|] eqn:E.
  { exists n, s. pose proof (ca_numbers s CA _ _ E) as E'. split_and!; [done|done|done| |]; rewrite E'; intros; congruence. }
  unfold dbBlockNumber. destruct (db_numbers (bc_db s) !! hash) as [n|] eqn:En; cbn [default from_option].
  - destruct (negb _); cbn [when].
    + rewrite bind_modify. eexists n, _. split; [done|]. split_and!; [by split| |by intros n' [= ->]|done].
      destruct CA as [C1 C2 C3 C4]. split; [|done..]. intros hash' n' H.
      destruct (decide (hash = hash')) as [<-|Hne].
      * change (<[hash := n]> (hc_numberCache s) !! hash = Some n') in H. rewrite lookup_insert_eq in H. injection H as <-. exact En.
      * change (<[hash := n]> (hc_numberCache s) !! hash' = Some n') in H. rewrite lookup_insert_ne in H by done. by apply C1.
    + rewrite bind_ret. exists n, s. split_and!; [done|done|done|by intros n' [= ->]|done].
  - exists missingNumber, s. split_and!; done.
Qed.

Lemma GetBlock_reads hash n : exists r s', GetBlock hash n s = (Ret r, s') /\ reads s s' /\ cached s' /\
  (forall b, r = Some b -> exists n', dbBlock (bc_db s) hash n' = Some b) /\
  (forall b, dbBlock (bc_db s) hash n = Some b -> r = Some b).
Proof.
  unfold GetBlock. rewrite bind_get. destruct (bc_blockCache s !! hash) as [b|] eqn:E.
  { destruct (ca_blocks s CA _ _ E) as [n' Hn']. exists (Some b), s. split_and!; [done|done|done| |].
    - intros b' [= <-]. by exists n'.
    - intros b' Hb'. by destruct (number_unique _ SD _ _ _ _ _ Hb' Hn') as [_ ->]. }
  destruct (dbBlock (bc_db s) hash n) as [b|] eqn:Eb; [|by exists None, s].
  rewrite bind_modify. eexists (Some b), _. split; [done|]. destruct (sd_proper _ SD _ _ _ Eb) as (_&Eh&_&_).
  split_and!; [by split| |intros b' [= <-]; by exists n|by intros b' [= <-]].
  destruct CA as [C1 C2 C3 C4]. split; [done..|]. intros hash' b' H.
  change (<[bhash b := b]> (bc_blockCache s) !! hash' = Some b') in H. rewrite Eh in H.
  destruct (decide (hash = hash')) as [<-|Hne]; [rewrite lookup_insert_eq in H; injection H as <-; by exists n|].
  rewrite lookup_insert_ne in H by done. by apply C4.
Qed.

Lemma GetTd_reads hash n : exists r s', GetTd hash n s = (Ret r, s') /\ reads s s' /\ cached s' /\
  (forall td, r = Some td -> exists n', db_tds (bc_db s) !! (n', hash) = Some td) /\
  (forall td, db_tds (bc_db s) !! (n, hash) = Some td -> r = Some td).
Proof.
  unfold GetTd. rewrite bind_get. destruct (hc_tdCache s !! hash) as [td|] eqn:E.
  { destruct (ca_tds s CA _ _ E) as [n' Hn']. exists (Some td), s. split_and!; [done|done|done| |].
    - intros td' [= <-]. by exists n'.
    - intros td' Htd'. destruct (sd_td _ SD _ _ _ Hn') as [b Hb], (sd_td _ SD _ _ _ Htd') as [b' Hb'].
      destruct (number_unique _ SD _ _ _ _ _ Hb Hb') as [-> _]. congruence. }
  destruct (db_tds (bc_db s) !! (n, hash)) as [td|] eqn:Eb; [|by exists None, s].
  rewrite bind_modify. eexists (Some td), _. split; [done|].
  split_and!; [by split| |intros td' [= <-]; by exists n|by intros td' [= <-]].
  destruct CA as [C1 C2 C3 C4]. split; [done..| |done]. intros hash' td' H.
  change (<[hash := td]> (hc_tdCache s) !! hash' = Some td') in H.
  destruct (decide (hash = hash')) as [<-|Hne]; [rewrite lookup_insert_eq in H; injection H as <-; by exists n|].
  rewrite lookup_insert_ne in H by done. by apply C3.
Qed.

(** The header read under a hash is that of the block with it. *)
Lemma readHeader_block hash n h : readHeader s hash n = Some h ->
  exists n' b, dbBlock (bc_db s) hash n' = Some b /\ b_header b = CopyHeader h.
Proof.
  unfold readHeader, GetHeader. rewrite bind_get. destruct (hc_headerCache s !! hash) as [h'|] eqn:E.
  - intros [= <-]. by apply (ca_headers s CA).
  - destruct (db_headers (bc_db s) !! (n, hash)) as [h'|] eqn:Eh; [|done]. intros [= <-].
    destruct (stored_header _ _ _ _ SD Eh) as (b&Hb&Hh). by exists n, b.
Qed.
End Lookups.

Lemma reads_cached s s' : reads s s' -> bc_db s' = bc_db s.
Proof. by destruct 1. Qed.

(** The block, if it is in the database with a state. *)
Lemma GetBlockByHash_reads s hash : stored (bc_db s) -> cached s ->
  exists r s', GetBlockByHash hash s = (Ret r, s') /\ reads s s' /\ cached s' /\
    (forall b, r = Some b -> exists n, dbBlock (bc_db s) hash n = Some b) /\
    (forall n b, dbBlock (bc_db s) hash n = Some b -> r = Some b).
Proof.
  intros SD CA. unfold GetBlockByHash. destruct (GetBlockNumber_reads s CA hash) as (n&s1&E1&R1&C1&Hn&_).
  rewrite (bind_eq _ _ _ _ _ E1). pose proof (rd_db _ _ R1) as Ed.
  destruct (GetBlock_reads s1) with (hash := hash) (n := n) as (r&s2&E2&R2&C2&H1&H2); [by rewrite Ed|done|].
  rewrite Ed in H1, H2. exists r, s2. split_and!; [done|by etrans|done|done|].
  intros n' b Hb. apply H2. destruct (sd_proper _ SD _ _ _ Hb) as (_&_&_&En). by rewrite (Hn _ En).
Qed.

Lemma HasBlockAndState_reads s hash : stored (bc_db s) -> cached s ->
  exists r s', HasBlockAndState hash s = (Ret r, s') /\ reads s s' /\ cached s' /\
    (r = true <-> exists n b t, dbBlock (bc_db s) hash n = Some b /\ db_states (bc_db s) !! hd_Root (b_header b) = Some t).
Proof.
  intros SD CA. unfold HasBlockAndState. destruct (GetBlockByHash_reads s hash SD CA) as (r&s1&E1&R1&C1&H1&H2).
  rewrite (bind_eq _ _ _ _ _ E1). destruct r as [b|].
  - eexists _, s1. split; [done|]. split_and!; [done|done|]. rewrite (rd_db _ _ R1). destruct (H1 b eq_refl) as [n Hn].
    rewrite bool_decide_eq_true. split.
    + intros [t Ht]. by exists n, b, t.
    + intros (n'&b'&t&Hb'&Ht). destruct (number_unique _ SD _ _ _ _ _ Hn Hb') as [_ ->]. by exists t.
  - exists false, s1. split_and!; [done|done|done|]. split; [done|]. intros (n&b&t&Hb&_). by specialize (H2 _ _ Hb).
Qed.

(** ** Writing to the database *)

(** The blocks are the same. *)
Record same_blocks (d d' : ChainDB) : Prop := {
  sb_headers : db_headers d' = db_headers d;
  sb_bodies : db_bodies d' = db_bodies d;
  sb_tds : db_tds d' = db_tds d;
  sb_numbers : db_numbers d' = db_numbers d;
}.
#[export] Instance same_blocks_preorder : PreOrder same_blocks.
Proof. split; [by intros d|]. intros d1 d2 d3 [] []. split; congruence. Qed.

Lemma same_dbBlock d d' hash n : same_blocks d d' -> dbBlock d' hash n = dbBlock d hash n.
Proof. intros [E1 E2 _ _]. unfold dbBlock. by rewrite E1, E2. Qed.

Lemma stored_same d d' : same_blocks d d' -> (forall root t, db_states d' !! root = Some t -> trieRoot t = root) ->
  stored d -> stored d'.
Proof.
  intros S Hr SD. pose proof (fun hash n => same_dbBlock d d' hash n S) as Eb. destruct S as [E1 E2 E3 E4].
  destruct SD as [S1 S2 S3 S4 S5 S6 S7 _]. split.
  - intros hash n h. rewrite E1. intros H. destruct (S1 _ _ _ H) as [b Hb]. exists b. by rewrite Eb.
  - intros hash n b. rewrite Eb, E4. apply S2.
  - intros hash n. rewrite E4. intros H. destruct (S3 _ _ H) as [b Hb]. exists b. by rewrite Eb.
  - intros hash n td. rewrite E3. intros H. destruct (S4 _ _ _ H) as [b Hb]. exists b. by rewrite Eb.
  - unfold td_of. by rewrite Eb, E3.
  - intros hash b. rewrite Eb. apply S6.
  - intros hash n b. rewrite Eb. intros H Hn. destruct (S7 _ _ _ H Hn) as (p&td&H1&H2&H3).
    exists p, td. unfold parent_of, td_of in *. by rewrite Eb, E3.
  - done.
Qed.

Lemma cached_same s s' : same_blocks (bc_db s) (bc_db s') -> hc_numberCache s' = hc_numberCache s ->
  hc_headerCache s' = hc_headerCache s -> hc_tdCache s' = hc_tdCache s -> bc_blockCache s' = bc_blockCache s ->
  cached s -> cached s'.
Proof.
  intros S E1 E2 E3 E4 [C1 C2 C3 C4]. pose proof (fun hash n => same_dbBlock _ _ hash n S) as Eb.
  destruct S as [_ _ Et En]. split.
  - intros hash n. rewrite E1, En. apply C1.
  - intros hash h. rewrite E2. intros H. destruct (C2 _ _ H) as (n&b&?&?). exists n, b. by rewrite Eb.
  - intros hash td. rewrite E3, Et. apply C3.
  - intros hash b. rewrite E4. intros H. destruct (C4 _ _ H) as [n Hn]. exists n. by rewrite Eb.
Qed.

(** A new block over a parent in the database. *)
Record linkable (d : ChainDB) (b p : Block) (td : Z) : Prop := {
  li_proper : proper b;
  li_fresh : db_numbers d !! bhash b = None;
  li_number : bnum b <> 0;
  li_parent : parent_of d b = Some p;
  li_td : td_of d p = Some td;
}.

Definition addBlock (b : Block) (td : Z) (d : ChainDB) : ChainDB := dbWriteBlock b (dbWriteTd (bhash b) (bnum b) td d).

Lemma fresh_dbBlock d b p td n : stored d -> linkable d b p td -> dbBlock d (bhash b) n = None.
Proof.
  intros SD HL. destruct (dbBlock d (bhash b) n) eqn:E; [|done].
  destruct (sd_proper d SD _ _ _ E) as (_&_&_&En). by rewrite (li_fresh _ _ _ _ HL) in En.
Qed.

Lemma addBlock_dbBlock d b td hash n : proper b ->
  dbBlock (addBlock b td d) hash n = if decide ((n, hash) = (bnum b, bhash b)) then Some b else dbBlock d hash n.
Proof.
  intros [Hh Hu _]. unfold dbBlock.
  change (db_headers (addBlock b td d)) with (<[(bnum b, bhash b) := CopyHeader (b_header b)]> (db_headers d)).
  change (db_bodies (addBlock b td d)) with (<[(bnum b, bhash b) := (b_transactions b, b_uncles b)]> (db_bodies d)).
  case_decide as E; [rewrite E, !lookup_insert_eq|by rewrite !lookup_insert_ne by congruence].
  cbn [mbind option_bind]. f_equal. unfold withBody. destruct b as [h txs us]. cbn in *. by rewrite !Hh, Hu.
Qed.

Lemma addBlock_td d b td hash n :
  db_tds (addBlock b td d) !! (n, hash) = if decide ((n, hash) = (bnum b, bhash b)) then Some td else db_tds d !! (n, hash).
Proof.
  change (db_tds (addBlock b td d)) with (<[(bnum b, bhash b) := td]> (db_tds d)).
  case_decide as E; [by rewrite E, lookup_insert_eq|by rewrite lookup_insert_ne].
Qed.

Lemma addBlock_number d b td hash :
  db_numbers (addBlock b td d) !! hash = if decide (hash = bhash b) then Some (bnum b) else db_numbers d !! hash.
Proof.
  change (db_numbers (addBlock b td d)) with (<[bhash b := bnum b]> (db_numbers d)).
  case_decide as E; [by rewrite E, lookup_insert_eq|by rewrite lookup_insert_ne].
Qed.

(** What is in the database stays there. *)
Definition extends (d d' : ChainDB) : Prop :=
  (forall hash n b, dbBlock d hash n = Some b -> dbBlock d' hash n = Some b) /\
  (forall k td, db_tds d !! k = Some td -> db_tds d' !! k = Some td) /\
  (forall hash n, db_numbers d !! hash = Some n -> db_numbers d' !! hash = Some n).

Lemma same_extends d d' : same_blocks d d' -> extends d d'.
Proof.
  intros S. pose proof (fun hash n => same_dbBlock d d' hash n S) as Eb. destruct S as [_ _ E3 E4].
  split_and!; [intros hash n b; by rewrite Eb|by rewrite E3|by rewrite E4].
Qed.

Lemma addBlock_extends d b p td td' : stored d -> linkable d b p td -> extends d (addBlock b td' d).
Proof.
  intros SD HL. split_and!.
  - intros hash n b' H. rewrite addBlock_dbBlock by apply HL. case_decide as E; [|done].
    injection E as -> ->. by rewrite (fresh_dbBlock _ _ _ _ _ SD HL) in H.
  - intros [n hash] td0 H. rewrite addBlock_td. case_decide as E; [|done]. injection E as -> ->.
    destruct (sd_td d SD _ _ _ H) as [b' Hb']. by rewrite (fresh_dbBlock _ _ _ _ _ SD HL) in Hb'.
  - intros hash n H. rewrite addBlock_number. case_decide as E; [|done]. subst hash.
    by rewrite (li_fresh _ _ _ _ HL) in H.
Qed.

Lemma extends_parent d d' b p : extends d d' -> parent_of d b = Some p -> parent_of d' b = Some p.
Proof. intros [H _]. apply H. Qed.
Lemma extends_inDB d d' b : extends d d' -> inDB d b -> inDB d' b.
Proof. intros [H _]. apply H. Qed.
Lemma extends_td d d' b td : extends d d' -> td_of d b = Some td -> td_of d' b = Some td.
Proof. intros (_&H&_). apply H. Qed.

Lemma addBlock_inDB d b td : proper b -> inDB (addBlock b td d) b.
Proof. intros Hp. unfold inDB. rewrite addBlock_dbBlock by done. by rewrite decide_True. Qed.
Lemma addBlock_td_of d b td : td_of (addBlock b td d) b = Some td.
Proof. unfold td_of. rewrite addBlock_td. by rewrite decide_True. Qed.

Lemma addBlock_stored d b p td : stored d -> linkable d b p td -> stored (addBlock b (difficulty b + td) d).
Proof.
  intros SD HL. pose proof (addBlock_extends d b p td (difficulty b + td) SD HL) as Hx.
  pose proof (li_proper _ _ _ _ HL) as Hp. split.
  - intros hash n h H. destruct (decide ((n, hash) = (bnum b, bhash b))) as [E|E].
    + exists b. rewrite addBlock_dbBlock by done. by rewrite decide_True.
    + change (db_headers (addBlock b (difficulty b + td) d))
        with (<[(bnum b, bhash b) := CopyHeader (b_header b)]> (db_headers d)) in H.
      rewrite lookup_insert_ne in H by congruence.
      destruct (sd_block d SD _ _ _ H) as [b' Hb']. exists b'. by apply Hx.
  - intros hash n b'. rewrite addBlock_dbBlock, addBlock_number by done. case_decide as E.
    + injection E as -> ->. intros [= <-]. by rewrite decide_True.
    + intros H. destruct (sd_proper d SD _ _ _ H) as (H1&H2&H3&H4). split_and!; [done..|].
      rewrite decide_False; [done|]. intros ->. by rewrite (li_fresh _ _ _ _ HL) in H4.
  - intros hash n. rewrite addBlock_number. case_decide as E.
    + intros [= <-]. subst. exists b. rewrite addBlock_dbBlock by done. by rewrite decide_True.
    + intros H. destruct (sd_number d SD _ _ H) as [b' Hb']. exists b'. by apply Hx.
  - intros hash n td0. rewrite addBlock_td. case_decide as E.
    + intros _. exists b. rewrite addBlock_dbBlock by done. by rewrite decide_True.
    + intros H. destruct (sd_td d SD _ _ _ H) as [b' Hb']. exists b'. by apply Hx.
  - destruct (sd_genesis d SD) as [H1 [td0 H2]]. split; [by apply Hx|]. exists td0. by apply (extends_td d).
  - intros hash b'. rewrite addBlock_dbBlock by done. case_decide as E; [|apply SD].
    injection E as E _. by destruct (li_number _ _ _ _ HL).
  - intros hash n b'. rewrite addBlock_dbBlock by done. case_decide as E.
    + intros [= <-] _. exists p, td. split_and!; [by eapply extends_parent, HL|by eapply extends_td, HL|apply addBlock_td_of].
    + intros H Hn. destruct (sd_parent d SD _ _ _ H Hn) as (p'&td'&H1&H2&H3). exists p', td'.
      split_and!; [by eapply extends_parent|by eapply extends_td|by eapply extends_td].
  - apply SD.
Qed.

(** ** Walking back *)

Lemma parentOf_reads s b : stored (bc_db s) -> cached s -> inDB (bc_db s) b -> bnum b <> 0 ->
  exists p s', parentOf b s = (Ret (Some p), s') /\ reads s s' /\ cached s' /\ parent_of (bc_db s) b = Some p.
Proof.
  intros SD CA Hb Hn. destruct (inDB_parent _ SD b Hb Hn) as [p Hp].
  assert (u64 (bnum b - 1) = bnum b - 1) as Eu.
  { pose proof (u64_range (default 0 (hd_Number (b_header b)))) as Hr. apply u64_small. unfold is_u64, bnum, hnum in *. lia. }
  destruct (GetBlock_reads s SD CA (hd_ParentHash (b_header b)) (bnum b - 1)) as (r&s'&E&R&C&_&H2).
  exists p, s'. unfold parentOf. rewrite Eu, E, (H2 p Hp). by split_and!.
Qed.

(** [bs] leads from [b] down to [a]. *)
Inductive path (d : ChainDB) : Block -> list Block -> Block -> Prop :=
| path_nil b : path d b [] b
| path_cons b p bs a : parent_of d b = Some p -> path d p bs a -> path d b (b :: bs) a.

Lemma path_trans d a bs b cs c : path d a bs b -> path d b cs c -> path d a (bs ++ cs) c.
Proof. induction 1 as [|a p bs b Hp _ IH]; [done|]. intros Hc. cbn. econstructor; [done|by apply IH]. Qed.

Lemma path_extends d d' a bs b : extends d d' -> path d a bs b -> path d' a bs b.
Proof. intros Hx. induction 1; [constructor|]. econstructor; [by eapply extends_parent|done]. Qed.

Lemma bnum_range b : 0 <= bnum b.
Proof. apply u64_range. Qed.

(** The numbers go down along a path. *)
Lemma path_numbers d b bs a : stored d -> inDB d b -> path d b bs a ->
  inDB d a /\ bnum a <= bnum b /\ Forall (fun x => inDB d x /\ bnum a < bnum x <= bnum b) bs /\ NoDup (map bnum bs).
Proof.
  intros SD Hb H. revert Hb. induction H as [b|b p bs a Hp _ IH]; intros Hb.
  - split_and!; [done|lia|constructor|constructor].
  - destruct (parent_inDB d SD b p Hp) as (Hin&_&Hn). destruct (IH Hin) as (Ha&Hle&Hall&Hnd).
    split_and!; [done|lia| |].
    + constructor; [split; [done|lia]|]. eapply Forall_impl; [exact Hall|]. intros x [? ?]. split; [done|lia].
    + cbn. constructor; [|done]. rewrite list_elem_of_In, in_map_iff. intros (x&Ex&Hx).
      rewrite <- list_elem_of_In in Hx. rewrite Forall_forall in Hall. destruct (Hall x Hx) as [_ ?]. lia.
Qed.

Lemma reduce_reads fuel s b number : stored (bc_db s) -> cached s -> inDB (bc_db s) b -> 0 <= number <= bnum b ->
  (Z.to_nat (bnum b - number) < fuel)%nat ->
  exists a bs s', reduce fuel (Some b) number s = (Ret (Some a, bs), s') /\ reads s s' /\ cached s' /\
    path (bc_db s) b bs a /\ bnum a = number.
Proof.
  revert s b. induction fuel as [|fuel IH]; intros s b SD CA Hb Hn Hf; [lia|]. cbn [reduce].
  destruct (Z.eqb_spec (bnum b) number) as [E|E].
  { exists b, [], s. split_and!; [done|done|done|constructor|done]. }
  destruct (parentOf_reads s b SD CA Hb) as (p&s1&E1&R1&C1&Hp); [lia|]. rewrite (bind_eq _ _ _ _ _ E1).
  destruct (parent_inDB _ SD b p Hp) as (Hin&_&Hpn). pose proof (rd_db _ _ R1) as Ed.
  destruct (IH s1 p) as (a&bs&s2&E2&R2&C2&Hpath&Ha); [by rewrite Ed|done|by rewrite Ed|lia|lia|].
  rewrite (bind_eq _ _ _ _ _ E2). rewrite Ed in Hpath. exists a, (b :: bs), s2.
  split_and!; [done|by etrans|done|by econstructor|done].
Qed.

Lemma commonBlock_reads fuel s old new : stored (bc_db s) -> cached s -> inDB (bc_db s) old -> inDB (bc_db s) new ->
  bnum old = bnum new -> (Z.to_nat (bnum old) < fuel)%nat ->
  exists os ns c s', commonBlock fuel old new s = (Ret (inr (os, ns)), s') /\ reads s s' /\ cached s' /\
    path (bc_db s) old os c /\ path (bc_db s) new ns c.
Proof.
  revert s old new. induction fuel as [|fuel IH]; intros s old new SD CA Ho Hn En Hf; [lia|]. cbn [commonBlock].
  destruct (decide (bhash old = bhash new)) as [Eh|Eh].
  { rewrite bool_decide_true by done. exists [], [], old, s. rewrite <- (inDB_hash _ SD _ _ Ho Hn Eh).
    split_and!; [done|done|done|constructor|constructor]. }
  rewrite bool_decide_false by done.
  assert (bnum old <> 0) as Hne.
  { intros E0. unfold inDB in Ho, Hn. rewrite <- En, E0 in Hn. rewrite E0 in Ho.
    rewrite (sd_zero _ SD _ _ Ho), (sd_zero _ SD _ _ Hn) in Eh. done. }
  destruct (parentOf_reads s old SD CA Ho Hne) as (o&s1&E1&R1&C1&Hpo). rewrite (bind_eq _ _ _ _ _ E1).
  pose proof (rd_db _ _ R1) as Ed1.
  destruct (parentOf_reads s1 new) as (n&s2&E2&R2&C2&Hpn); [by rewrite Ed1|done|by rewrite Ed1|by rewrite <- En|].
  rewrite (bind_eq _ _ _ _ _ E2). rewrite Ed1 in Hpn. pose proof (rd_db _ _ R2) as Ed2. rewrite Ed1 in Ed2.
  destruct (parent_inDB _ SD _ _ Hpo) as (Hino&_&Hno), (parent_inDB _ SD _ _ Hpn) as (Hinn&_&Hnn).
  destruct (IH s2 o n) as (os&ns&c&s3&E3&R3&C3&P1&P2); [by rewrite Ed2|done|by rewrite Ed2|by rewrite Ed2|lia| |].
  { pose proof (bnum_range o). lia. }
  rewrite (bind_eq _ _ _ _ _ E3). rewrite Ed2 in P1, P2. exists (old :: os), (new :: ns), c, s3.
  split_and!; [done|etrans; [done|by etrans]|done|by econstructor|by econstructor].
Qed.

(** ** The canonical chain *)

(** The blocks from [b] down to genesis. *)
Definition ancestor (d : ChainDB) (b a : Block) : Prop := exists bs, path d b bs a.

(** Every number up to that of the head has the hash of its ancestor. *)
Definition canonical (d : ChainDB) (head : Block) : Prop :=
  forall a, ancestor d head a -> db_canonical d !! bnum a = Some (bhash a).

(** What the rewriting of the canonical chain for some blocks does. *)
Record rewritten (bs : list Block) (s s' : BlockChain) : Prop := {
  rw_blocks : same_blocks (bc_db s) (bc_db s');
  rw_states : db_states (bc_db s') = db_states (bc_db s);
  rw_numberCache : hc_numberCache s' = hc_numberCache s;
  rw_headerCache : hc_headerCache s' = hc_headerCache s;
  rw_tdCache : hc_tdCache s' = hc_tdCache s;
  rw_blockCache : bc_blockCache s' = bc_blockCache s;
  rw_future : bc_futureBlocks s' = bc_futureBlocks s;
  rw_canonical : forall b, b ∈ bs -> db_canonical (bc_db s') !! bnum b = Some (bhash b);
  rw_others : forall i, i ∉ map bnum bs -> db_canonical (bc_db s') !! i = db_canonical (bc_db s) !! i;
}.

Lemma insert_block_runs s b : exists s', insert_block b s = (Ret tt, s') /\ rewritten [b] s s' /\
  bc_currentBlock s' = b /\ db_headBlock (bc_db s') = bhash b.
Proof.
  unfold insert_block. rewrite bind_get. destruct (negb _); eexists; (split; [reflexivity|]);
    (split; [|done]); split; try done.
  all: intros x Hx; first
    [apply list_elem_of_singleton in Hx as ->; exact (lookup_insert_eq _ _ _)
    |apply (lookup_insert_ne (db_canonical (bc_db s))); intros <-; apply Hx; by left].
Qed.

Lemma rewritten_nil s : rewritten [] s s.
Proof. split; try done. intros b Hb. by apply not_elem_of_nil in Hb. Qed.

Lemma rewritten_cons b bs s s1 s2 : rewritten [b] s s1 -> rewritten bs s1 s2 -> NoDup (map bnum (b :: bs)) ->
  rewritten (b :: bs) s s2.
Proof.
  intros [A1 A2 A3 A4 A5 A6 A7 A8 A9] [B1 B2 B3 B4 B5 B6 B7 B8 B9] [Hb _]%NoDup_cons.
  split; try congruence; [by etrans| |].
  - intros x [->|Hx]%elem_of_cons; [|by apply B8]. rewrite (B9 _ Hb). apply A8. by left.
  - intros i [Hi1 Hi2]%not_elem_of_cons. rewrite (B9 _ Hi2). apply A9. change (i ∉ [bnum b]). by rewrite list_elem_of_singleton.
Qed.

(** Looking transactions up: the blocks are the same. *)
Record relooked (s s' : BlockChain) : Prop := {
  rl_rewritten : rewritten [] s s';
  rl_current : bc_currentBlock s' = bc_currentBlock s;
  rl_head : db_headBlock (bc_db s') = db_headBlock (bc_db s);
}.

Lemma dbWriteTransaction_same b i hash tx d : let d' := dbWriteTransaction b i hash tx d in
  same_blocks d d' /\ db_states d' = db_states d /\ db_canonical d' = db_canonical d /\ db_headBlock d' = db_headBlock d.
Proof.
  unfold dbWriteTransaction. destruct (_ =? _); [|done].
  set (d0 := d <| db_lookups ::= _ |>). assert (same_blocks d d0 /\ db_states d0 = db_states d /\
    db_canonical d0 = db_canonical d /\ db_headBlock d0 = db_headBlock d) as H0 by done.
  clearbody d0. revert d0 H0. induction (tx_Headers tx) as [|h hs IH]; intros d0 H0; [done|]. cbn [foldl].
  apply IH. destruct H0 as ([]&?&?&?). by split_and!.
Qed.

Lemma WriteTransactions_runs s b : hashable b -> exists s', WriteTransactions b s = (Ret tt, s') /\ relooked s s'.
Proof.
  intros Hh. unfold WriteTransactions. rewrite bind_get.
  assert (forall txs i d, Forall (fun tx => is_Some (ZKHashTx tx)) txs -> exists d', dbWriteTransactions b i txs d = Some d' /\
    same_blocks d d' /\ db_states d' = db_states d /\ db_canonical d' = db_canonical d /\ db_headBlock d' = db_headBlock d) as H.
  { induction txs as [|tx txs IH]; intros i d Hf; [by exists d|]. apply Forall_cons in Hf as [[h Eh] Hf].
    cbn [dbWriteTransactions]. rewrite Eh. cbn [mbind option_bind].
    destruct (IH (i + 1) (dbWriteTransaction b i h tx d) Hf) as (d'&E&H1&H2&H3&H4).
    destruct (dbWriteTransaction_same b i h tx d) as (G1&G2&G3&G4). exists d'.
    split_and!; [done|by etrans|congruence|congruence|congruence]. }
  destruct (H (b_transactions b) 0 (bc_db s) Hh) as (d'&->&H1&H2&H3&H4). eexists. split; [reflexivity|].
  split; [|done|done]. split; try done; [intros x Hx; by apply not_elem_of_nil in Hx|]. intros i _. cbn. by rewrite H3.
Qed.

Lemma rewritten_relooked bs s s1 s2 : rewritten bs s s1 -> relooked s1 s2 -> rewritten bs s s2.
Proof.
  intros [A1 A2 A3 A4 A5 A6 A7 A8 A9] [[B1 B2 B3 B4 B5 B6 B7 B8 B9] _ _]. split; try congruence; [by etrans| |].
  - intros b Hb. rewrite B9 by apply not_elem_of_nil. by apply A8.
  - intros i Hi. rewrite B9 by apply not_elem_of_nil. by apply A9.
Qed.

Lemma insert_all_runs bs s : Forall hashable bs -> NoDup (map bnum bs) ->
  exists s', for_each bs (fun b => insert_block b ;; WriteTransactions b) s = (Ret tt, s') /\ rewritten bs s s'.
Proof.
  revert s. induction bs as [|b bs IH]; intros s Hh Hn; [by exists s; split; [|apply rewritten_nil]|].
  apply Forall_cons in Hh as [Hb Hh]. cbn [for_each].
  destruct (insert_block_runs s b) as (s1&E1&R1&_&_), (WriteTransactions_runs s1 b Hb) as (s2&E2&R2).
  pose proof (rewritten_relooked _ _ _ _ R1 R2) as R.
  assert ((insert_block b ;; WriteTransactions b) s = (Ret tt, s2)) as E by (rewrite (bind_eq _ _ _ _ _ E1); exact E2).
  rewrite (bind_eq _ _ _ _ _ E). destruct (IH s2 Hh) as (s3&E3&R3); [by apply NoDup_cons in Hn as [_ ?]|].
  exists s3. split; [done|]. by apply (rewritten_cons b bs s s2 s3).
Qed.

Lemma mapM_hashes txs : Forall (fun tx => is_Some (ZKHashTx tx)) txs -> exists hs, mapM ZKHashTx txs = Some hs.
Proof. intros H. by apply mapM_is_Some_2 in H as [hs ->]; exists hs. Qed.

Lemma DeleteTransactions_runs s ds adds : Forall (fun tx => is_Some (ZKHashTx tx)) ds ->
  Forall (fun tx => is_Some (ZKHashTx tx)) adds -> exists s', DeleteTransactions ds adds s = (Ret tt, s') /\ relooked s s'.
Proof.
  intros [hs E1]%mapM_hashes [hs' E2]%mapM_hashes. unfold DeleteTransactions. rewrite E1, E2. eexists.
  split; [reflexivity|]. split; [|done|done]. split; try done. intros x Hx. by apply not_elem_of_nil in Hx.
Qed.

Lemma inDB_hashable d bs : stored d -> Forall (inDB d) bs ->
  Forall hashable bs /\ Forall (fun tx => is_Some (ZKHashTx tx)) (concat (map b_transactions bs)).
Proof.
  intros SD. induction 1 as [|b bs Hb _ [IH1 IH2]]; [by split; constructor|].
  destruct (sd_proper d SD _ _ _ Hb) as ([_ _ Hp]&_). split; [by constructor|]. cbn. by apply Forall_app.
Qed.

Lemma path_inDB d b bs a : stored d -> inDB d b -> path d b bs a -> Forall (inDB d) bs.
Proof.
  intros SD Hb Hp. destruct (path_numbers d b bs a SD Hb Hp) as (_&_&Hall&_).
  eapply Forall_impl; [exact Hall|]. by intros x [? _].
Qed.

(** A reorganisation succeeds: the two blocks have a common ancestor, and the
    canonical chain is rewritten for the blocks above it. *)
Lemma reorg_runs s old new : stored (bc_db s) -> cached s -> inDB (bc_db s) old -> inDB (bc_db s) new ->
  exists s1 s' os ns c, reorg old new s = (Ret None, s') /\ reads s s1 /\ cached s1 /\ rewritten ns s1 s' /\
    path (bc_db s) old os c /\ path (bc_db s) new ns c.
Proof.
  intros SD CA Ho Hn. unfold reorg. set (fuel := S (S (Z.to_nat (Z.max (bnum old) (bnum new))))).
  pose proof (bnum_range old). pose proof (bnum_range new).
  assert (exists o olds n news s1, (if bnum new <? bnum old
     then r <- reduce fuel (Some old) (bnum new) ;; ret (r.1, r.2, Some new, [])
     else r <- reduce fuel (Some new) (bnum old) ;; ret (Some old, [], r.1, r.2)) s
     = (Ret (Some o, olds, Some n, news), s1) /\ reads s s1 /\ cached s1 /\
     path (bc_db s) old olds o /\ path (bc_db s) new news n /\ bnum o = bnum n)
    as (o&olds&n&news&s1&E1&R1&C1&Po&Pn&En).
  { destruct (Z.ltb_spec (bnum new) (bnum old)).
    - destruct (reduce_reads fuel s old (bnum new) SD CA Ho) as (a&bs&s1&E1&R1&C1&P1&Ea); [lia|lia|].
      exists a, bs, new, [], s1. rewrite (bind_eq _ _ _ _ _ E1). split_and!; [done|done|done|done|constructor|done].
    - destruct (reduce_reads fuel s new (bnum old) SD CA Hn) as (a&bs&s1&E1&R1&C1&P1&Ea); [lia|lia|].
      exists old, [], a, bs, s1. rewrite (bind_eq _ _ _ _ _ E1). split_and!; [done|done|done|constructor|done|done]. }
  rewrite (bind_eq _ _ _ _ _ E1). pose proof (rd_db _ _ R1) as Ed1.
  destruct (path_numbers _ _ _ _ SD Ho Po) as (Hoi&Hole&_), (path_numbers _ _ _ _ SD Hn Pn) as (Hni&_&_).
  destruct (commonBlock_reads fuel s1 o n) as (os&ns&c&s2&E2&R2&C2&P1&P2);
    [by rewrite Ed1|done|by rewrite Ed1|by rewrite Ed1|done|lia|].
  rewrite (bind_eq _ _ _ _ _ E2). cbv beta iota zeta. rewrite Ed1 in P1, P2.
  pose proof (path_trans _ _ _ _ _ _ Po P1) as PO. pose proof (path_trans _ _ _ _ _ _ Pn P2) as PN.
  destruct (inDB_hashable _ _ SD (path_inDB _ _ _ _ SD Ho PO)) as [_ HO].
  destruct (inDB_hashable _ _ SD (path_inDB _ _ _ _ SD Hn PN)) as [HN1 HN2].
  destruct (path_numbers _ _ _ _ SD Hn PN) as (_&_&_&Hnd).
  destruct (insert_all_runs (news ++ ns) s2 HN1 Hnd) as (s3&E3&R3).
  destruct (DeleteTransactions_runs s3 _ _ HO HN2) as (s4&E4&R4).
  exists s2, s4, (olds ++ os), (news ++ ns), c. split_and!; [|by etrans|done|by eapply rewritten_relooked|done|done].
  rewrite (bind_eq _ _ _ _ _ E3). by rewrite (bind_eq _ _ _ _ _ E4).
Qed.

(** ** The head *)

Record headed (s : BlockChain) : Prop := {
  hd_inDB : inDB (bc_db s) (bc_currentBlock s);
  hd_canonical : canonical (bc_db s) (bc_currentBlock s);
  hd_heaviest : forall b td td', inDB (bc_db s) b -> td_of (bc_db s) b = Some td ->
    td_of (bc_db s) (bc_currentBlock s) = Some td' -> td <= td';
  hd_stored : db_headBlock (bc_db s) = bhash (bc_currentBlock s);
}.

Lemma same_path d d' b bs a : same_blocks d d' -> path d' b bs a <-> path d b bs a.
Proof.
  intros S. assert (forall b, parent_of d' b = parent_of d b) as E by (intros x; apply same_dbBlock, S).
  split; induction 1; econstructor; eauto; [by rewrite <- E|by rewrite E].
Qed.

Lemma same_inDB d d' b : same_blocks d d' -> inDB d' b <-> inDB d b.
Proof. intros S. unfold inDB. by rewrite (same_dbBlock d d'). Qed.
Lemma same_td d d' b : same_blocks d d' -> td_of d' b = td_of d b.
Proof. intros S. unfold td_of. by rewrite (sb_tds _ _ S). Qed.

(** The ancestors of a block on a path: on it, or below it. *)
Lemma path_ancestor d b bs c a : path d b bs c -> ancestor d b a -> a ∈ bs \/ ancestor d c a.
Proof.
  intros H. induction H as [b|b p bs c Hp _ IH]; [by right|]. intros [cs Hcs].
  inversion Hcs as [|? p' cs' ? Hp' Hc]; subst; [left; by left|].
  rewrite Hp in Hp'. injection Hp' as <-. destruct IH as [?|?]; [by exists cs'|left; by right|by right].
Qed.

(** The canonical chain of a new head that has the common ancestor [c] with the old
    one. *)
Lemma canonical_switch d d' old new os ns c : stored d -> inDB d new -> canonical d old ->
  path d old os c -> path d new ns c -> same_blocks d d' ->
  (forall b, b ∈ ns -> db_canonical d' !! bnum b = Some (bhash b)) ->
  (forall i, i ∉ map bnum ns -> db_canonical d' !! i = db_canonical d !! i) -> canonical d' new.
Proof.
  intros SD Hn Hc Po Pn S H1 H2 a [as_ Ha]. apply (same_path d d' _ _ _ S) in Ha.
  destruct (path_ancestor d new ns c a Pn) as [Hin|[cs Hcs]]; [by exists as_|by apply H1|].
  destruct (path_numbers d new ns c SD Hn Pn) as (Hic&_&Hall&_).
  destruct (path_numbers d c cs a SD Hic Hcs) as (_&Hle&_&_).
  rewrite H2; [apply Hc; exists (os ++ cs); by eapply path_trans|].
  rewrite list_elem_of_In, in_map_iff. intros (x&Ex&Hx). rewrite <- list_elem_of_In in Hx.
  rewrite Forall_forall in Hall. destruct (Hall x Hx) as [_ ?]. lia.
Qed.

(** Writing the canonical hash of a block that has it already. *)
Lemma canonical_again s s' b : canonical (bc_db s) b -> rewritten [b] s s' -> canonical (bc_db s') b.
Proof.
  intros Hc [S _ _ _ _ _ _ H1 H2] a [bs Ha]. apply (same_path _ _ _ _ _ S) in Ha.
  assert (db_canonical (bc_db s) !! bnum a = Some (bhash a)) as Ea by (apply Hc; by exists bs).
  destruct (decide (bnum a = bnum b)) as [E|E].
  - assert (db_canonical (bc_db s) !! bnum b = Some (bhash b)) as Eb by (apply Hc; exists []; constructor).
    rewrite E in Ea |- *. rewrite Ea in Eb. injection Eb as ->. apply H1. by left.
  - rewrite H2; [done|]. change (bnum a ∉ [bnum b]). by rewrite list_elem_of_singleton.
Qed.

Lemma canonical_reads s s' b : reads s s' -> canonical (bc_db s) b -> canonical (bc_db s') b.
Proof. intros []. by rewrite rd_db0. Qed.

Lemma rewritten_cached bs s s' : rewritten bs s s' -> cached s -> cached s'.
Proof. intros []. by apply cached_same. Qed.

(** What [WriteBlock] has written before it decides on the head. *)
Definition written (b : Block) (td : Z) (s : BlockChain) : BlockChain :=
  (s <| bc_db ::= dbWriteTd (bhash b) (bnum b) td |>) <| hc_tdCache ::= <[bhash b := td]> |> <| bc_db ::= dbWriteBlock b |>.

Lemma written_cached s b p td td' : stored (bc_db s) -> cached s -> linkable (bc_db s) b p td -> cached (written b td' s).
Proof.
  intros SD [C1 C2 C3 C4] HL. destruct (addBlock_extends _ _ _ _ td' SD HL) as (X1&X2&X3).
  assert (bc_db (written b td' s) = addBlock b td' (bc_db s)) as Ed by done.
  split; rewrite Ed.
  - intros hash n H. apply X3. by apply C1.
  - intros hash h H. destruct (C2 _ _ H) as (n&b'&?&?). exists n, b'. split; [by apply X1|done].
  - intros hash td0 H. change (<[bhash b := td']> (hc_tdCache s) !! hash = Some td0) in H.
    destruct (decide (hash = bhash b)) as [->|Hne].
    + rewrite lookup_insert_eq in H. injection H as <-. exists (bnum b). rewrite addBlock_td. by rewrite decide_True.
    + rewrite lookup_insert_ne in H by done. destruct (C3 _ _ H) as [n Hn]. exists n. by apply X2.
  - intros hash b' H. destruct (C4 _ _ H) as [n Hn]. exists n. by apply X1.
Qed.

(** A head that is the heaviest. *)
Lemma addBlock_heaviest d b p td head : stored d -> linkable d b p td -> inDB d head ->
  (forall x t t', inDB d x -> td_of d x = Some t -> td_of d head = Some t' -> t <= t') ->
  forall td0, td_of d head = Some td0 -> let d' := addBlock b (difficulty b + td) d in
  forall x t, inDB d' x -> td_of d' x = Some t -> t <= Z.max td0 (difficulty b + td).
Proof.
  intros SD HL Hh Hmax td0 Etd d' x t Hx Et. unfold inDB, d' in Hx. rewrite addBlock_dbBlock in Hx by apply HL.
  case_decide as E.
  - injection Hx as <-. unfold d' in Et. rewrite addBlock_td_of in Et. injection Et as <-. lia.
  - assert (td_of d x = Some t) as Et'.
    { unfold td_of, d' in *. rewrite addBlock_td in Et. by rewrite decide_False in Et. }
    pose proof (Hmax x t td0 Hx Et' Etd). lia.
Qed.

Record grown (b : Block) (d d' : ChainDB) : Prop := {
  gr_extends : extends d d';
  gr_new : inDB d' b;
  gr_only : forall hash n x, dbBlock d' hash n = Some x -> dbBlock d hash n = Some x \/ x = b;
  gr_states : db_states d' = db_states d;
}.

Lemma addBlock_grown d b p td td' : stored d -> linkable d b p td -> grown b d (addBlock b td' d).
Proof.
  intros SD HL. split; [by eapply addBlock_extends|by apply addBlock_inDB, HL| |done].
  intros hash n x. rewrite addBlock_dbBlock by apply HL. case_decide; [intros [= <-]; by right|by left].
Qed.

Lemma grown_same b d d1 d2 : grown b d d1 -> same_blocks d1 d2 -> db_states d2 = db_states d1 -> grown b d d2.
Proof.
  intros [[X1 [X2 X3]] G2 G3 G4] S E. pose proof (same_extends _ _ S) as (Y1&Y2&Y3). split.
  - split_and!; intros; eauto.
  - by apply (same_inDB d1 d2).
  - intros hash n x. rewrite (same_dbBlock d1 d2) by done. apply G3.
  - congruence.
Qed.

(** The new head: [s3] is what [written] leaves, [s4] a state with the chain up to
    the block rewritten, [s5] the one after its insertion. *)
Lemma headed_new s3 s4 s5 b td0 : same_blocks (bc_db s3) (bc_db s4) -> canonical (bc_db s4) b -> inDB (bc_db s3) b ->
  td_of (bc_db s3) b = Some td0 -> (forall x t, inDB (bc_db s3) x -> td_of (bc_db s3) x = Some t -> t <= td0) ->
  rewritten [b] s4 s5 -> bc_currentBlock s5 = b -> db_headBlock (bc_db s5) = bhash b -> headed s5.
Proof.
  intros S Hc Hb Htd Hmax R E1 E2. assert (same_blocks (bc_db s3) (bc_db s5)) as S5 by (etrans; [done|apply R]).
  split; rewrite ?E1.
  - by apply (same_inDB (bc_db s3) (bc_db s5)).
  - by apply (canonical_again s4).
  - intros x t t'. rewrite (same_inDB _ _ x S5), !(same_td _ _ _ S5), Htd. intros Hx Et [= <-]. by eapply Hmax.
  - done.
Qed.

Record sound_chain (s : BlockChain) : Prop := {
  sc_stored : stored (bc_db s);
  sc_cached : cached s;
  sc_headed : headed s;
}.

Lemma sound_reads s s' : reads s s' -> cached s' -> sound_chain s -> sound_chain s'.
Proof.
  intros [Ed Eh Ef] C [SD _ [H1 H2 H3 H4]]. split; [by rewrite Ed|done|]. split; by rewrite ?Ed, ?Eh.
Qed.

(** The canonical chain is not changed by a new block, which no block has as its
    parent. *)
Lemma written_canonical s b p td td' : stored (bc_db s) -> linkable (bc_db s) b p td ->
  inDB (bc_db s) (bc_currentBlock s) -> canonical (bc_db s) (bc_currentBlock s) ->
  canonical (bc_db (written b td' s)) (bc_currentBlock s).
Proof.
  intros SD HL Hh Hc a [bs Ha]. apply Hc. exists bs. set (d := bc_db s) in *.
  assert (bc_db (written b td' s) = addBlock b td' d) as Ed by done. rewrite Ed in Ha.
  revert Hh Ha. generalize (bc_currentBlock s). intros x Hx Ha.
  induction Ha as [x|x q ys z Hq _ IH]; [constructor|].
  assert (parent_of d x = Some q) as Hq'.
  { unfold parent_of in Hq |- *. rewrite addBlock_dbBlock in Hq by apply HL. case_decide as E; [|done].
    injection Hq as <-. injection E as En Eh. destruct (decide (bnum x = 0)) as [E0|E0].
    { pose proof (bnum_range b). lia. }
    destruct (inDB_parent _ SD x Hx E0) as [q' Hq']. unfold parent_of in Hq'. rewrite Eh in Hq'.
    by rewrite (fresh_dbBlock _ _ _ _ _ SD HL) in Hq'. }
  econstructor; [done|]. apply IH. by destruct (parent_inDB _ SD _ _ Hq').
Qed.

(** The chain is ready for its new head: either the new head is a child of the old one,
    or the canonical chain has been rewritten. *)
Lemma moveHead_runs s3 old b p : stored (bc_db s3) -> cached s3 -> inDB (bc_db s3) old -> inDB (bc_db s3) b ->
  canonical (bc_db s3) old -> parent_of (bc_db s3) b = Some p ->
  exists s4, (if bool_decide (hd_ParentHash (b_header b) = bhash old) then ret None else reorg old b) s3
    = (Ret None, s4) /\ cached s4 /\ same_blocks (bc_db s3) (bc_db s4) /\
    db_states (bc_db s4) = db_states (bc_db s3) /\ bc_futureBlocks s4 = bc_futureBlocks s3 /\
    forall s5, rewritten [b] s4 s5 -> exists s4', same_blocks (bc_db s3) (bc_db s4') /\ canonical (bc_db s4') b /\
      rewritten [b] s4' s5.
Proof.
  intros SD CA Ho Hb Hc Hp. destruct (decide (hd_ParentHash (b_header b) = bhash old)) as [Ep|Ep].
  - rewrite bool_decide_true by done. exists s3. split_and!; try done. intros s5 R5.
    exists s5. split_and!; [apply R5| |].
    + assert (p = old) as -> by (destruct (parent_inDB _ SD _ _ Hp) as (Hip&Ehp&_); apply (inDB_hash _ SD); [done|done|congruence]).
      apply (canonical_switch (bc_db s3) _ old b [] [b] old); [done|done|done|constructor| |apply R5|apply R5|apply R5].
      econstructor; [done|constructor].
    + destruct R5 as [_ _ _ _ _ _ _ R8 _]. by split.
  - rewrite bool_decide_false by done. destruct (reorg_runs s3 old b SD CA Ho Hb) as (s3'&s4&os&ns&c&E4&R3&C3&R4&Po&Pn).
    exists s4. pose proof (rd_db _ _ R3) as Ed. destruct R4 as [W1 W2 W3 W4 W5 W6 W7 W8 W9].
    rewrite Ed in W1, W2, W9. split_and!; [done|by eapply cached_same; [rewrite Ed| | | | |]|done|done|by rewrite W7; apply R3|].
    intros s5 R5. exists s4. split_and!; [done| |done]. by apply (canonical_switch (bc_db s3) _ old b os ns c).
Qed.

(** The decision of [WriteBlock] on the head. *)
Definition chooseHead (coin : bool) (block : Block) (localTd externTd : Z) : M BlockChain (chainErr + WriteStatus) :=
  if (localTd <? externTd) || ((externTd =? localTd) && coin)
  then
    s <- get ;;
    r <- (if bool_decide (hd_ParentHash (b_header block) = bhash (bc_currentBlock s)) then ret None
          else reorg (bc_currentBlock s) block) ;;
    match r with
    | Some e => ret (inl e)
    | None => insert_block block ;; ret (inr CanonStatTy)
    end
  else ret (inr SideStatTy).

Lemma chooseHead_runs coin s b p td td0 : sound_chain s -> linkable (bc_db s) b p td ->
  td_of (bc_db s) (bc_currentBlock s) = Some td0 -> let externTd := difficulty b + td in
  exists st s', chooseHead coin b td0 externTd (written b externTd s) = (Ret (inr st), s') /\
    headed s' /\ cached s' /\ same_blocks (addBlock b externTd (bc_db s)) (bc_db s') /\
    db_states (bc_db s') = db_states (bc_db s) /\ bc_futureBlocks s' = bc_futureBlocks s.
Proof.
  intros [SD CA HD] HL Etd0 ext. set (s3 := written b ext s).
  pose proof (addBlock_stored _ _ _ _ SD HL) as SD3. fold ext in SD3.
  pose proof (written_cached s b p td ext SD CA HL) as CA3. fold s3 in CA3.
  assert (bc_db s3 = addBlock b ext (bc_db s)) as Ed3 by done. rewrite <- Ed3 in SD3 |- *.
  assert (inDB (bc_db s3) b) as Hb3 by (rewrite Ed3; apply addBlock_inDB, HL).
  assert (td_of (bc_db s3) b = Some ext) as Etd3 by (rewrite Ed3; apply addBlock_td_of).
  pose proof (addBlock_extends _ _ _ _ ext SD HL) as Hx. rewrite <- Ed3 in Hx.
  destruct HD as [H1 H2 H3 H4].
  pose proof (addBlock_heaviest _ b p td _ SD HL H1 H3 td0 Etd0) as Hmax. cbv zeta in Hmax. fold ext in Hmax. rewrite <- Ed3 in Hmax.
  assert (inDB (bc_db s3) (bc_currentBlock s)) as Hh3 by by eapply extends_inDB.
  pose proof (written_canonical s b p td ext SD HL H1 H2) as Hc3. fold s3 in Hc3.
  unfold chooseHead. destruct ((td0 <? ext) || ((ext =? td0) && coin)) eqn:Edec.
  - rewrite bind_get. change (bc_currentBlock s3) with (bc_currentBlock s).
    destruct (moveHead_runs s3 (bc_currentBlock s) b p SD3 CA3 Hh3 Hb3 Hc3) as (s4&E4&C4&S4&St4&F4&Hcan);
      [by eapply extends_parent, HL|].
    rewrite (bind_eq _ _ _ _ _ E4). cbv beta iota. destruct (insert_block_runs s4 b) as (s5&E5&R5&Eb5&Eh5).
    rewrite (bind_eq _ _ _ _ _ E5). exists CanonStatTy, s5. split; [done|].
    destruct (Hcan s5 R5) as (s4'&S4'&Hc4'&R5'). split_and!.
    + apply (headed_new s3 s4' s5 b ext); try done. intros x t Hx' Et. pose proof (Hmax x t Hx' Et). lia.
    + eapply rewritten_cached; [exact R5|done].
    + transitivity (bc_db s4); [exact S4|apply R5].
    + rewrite (rw_states _ _ _ R5), St4. done.
    + rewrite (rw_future _ _ _ R5), F4. done.
  - exists SideStatTy, s3. split; [done|]. split_and!; try done. split; [done|done| |done].
    intros x t t' Hx' Et Et'. pose proof (extends_td _ _ _ _ Hx Etd0) as Etd0'.
    change (bc_currentBlock s3) with (bc_currentBlock s) in Et'. rewrite Etd0' in Et'. injection Et' as <-.
    pose proof (Hmax x t Hx' Et). lia.
Qed.

Lemma linkable_parent s b p td : linkable (bc_db s) b p td -> stored (bc_db s) ->
  u64 (bnum b - 1) = bnum b - 1 /\ db_tds (bc_db s) !! (bnum b - 1, hd_ParentHash (b_header b)) = Some td.
Proof.
  intros [_ _ Hn Hp Htd] SD. destruct (parent_inDB _ SD _ _ Hp) as (_&Eh&En). unfold td_of in Htd. rewrite Eh, En in Htd.
  split; [|done]. pose proof (u64_range (default 0 (hd_Number (b_header b)))) as Hr. apply u64_small.
  unfold is_u64, bnum, hnum in *. lia.
Qed.

Lemma WriteTd_written {A} b td (k : M BlockChain A) s :
  (WriteTd (bhash b) (bnum b) td ;; onDB (dbWriteBlock b) ;; k) s = k (written b td s).
Proof. reflexivity. Qed.

Lemma reads_linkable s s' b p td : reads s s' -> linkable (bc_db s) b p td -> linkable (bc_db s') b p td.
Proof. intros []. by rewrite rd_db0. Qed.

(** Writing a block over a known parent succeeds, and keeps the chain sound. *)
Lemma WriteBlock_runs coin s b p td : sound_chain s -> linkable (bc_db s) b p td ->
  exists st s', WriteBlock coin b s = (Ret (inr st), s') /\ sound_chain s' /\ grown b (bc_db s) (bc_db s') /\
    bc_futureBlocks s' = delete (bhash b) (bc_futureBlocks s).
Proof.
  intros HS HL. destruct (linkable_parent s b p td HL (sc_stored s HS)) as [Eu Etd]. unfold WriteBlock. rewrite Eu.
  destruct (GetTd_reads s (sc_stored s HS) (sc_cached s HS) (hd_ParentHash (b_header b)) (bnum b - 1))
    as (r&s1&E1&R1&C1&_&Hr). rewrite (bind_eq _ _ _ _ _ E1), (Hr td Etd), bind_get.
  pose proof (sound_reads s s1 R1 C1 HS) as HS1. destruct HS1 as [SD1 _ HD1].
  destruct (inDB_td _ SD1 _ (hd_inDB _ HD1)) as [td0 Etd0].
  destruct (GetTd_reads s1 SD1 C1 (bhash (bc_currentBlock s1)) (bnum (bc_currentBlock s1))) as (r2&s2&E2&R2&C2&_&Hr2).
  rewrite (bind_eq _ _ _ _ _ E2), (Hr2 td0 Etd0). cbv zeta. rewrite WriteTd_written.
  pose proof (sound_reads s1 s2 R2 C2 (Build_sound_chain _ SD1 C1 HD1)) as HS2.
  assert (reads s s2) as R by by etrans. pose proof (reads_linkable s s2 b p td R HL) as HL2.
  assert (td_of (bc_db s2) (bc_currentBlock s2) = Some td0) as Etd2 by (destruct R2 as [-> -> _]; done).
  destruct (chooseHead_runs coin s2 b p td td0 HS2 HL2 Etd2) as (st&s3&E3&HD3&CA3&S3&St3&F3).
  set (ext := difficulty b + td) in *.
  exists st. eexists. split.
  { unfold chooseHead in E3. rewrite (bind_eq _ _ _ _ _ E3). reflexivity. }
  pose proof (rd_db _ _ R) as Ed. split_and!.
  - split; [|by destruct CA3|by destruct HD3]. apply (stored_same (addBlock b ext (bc_db s2))); [done| |eapply addBlock_stored; [apply HS2|exact HL2]].
    change (db_states (bc_db _)) with (db_states (bc_db s3)). rewrite St3. by apply HS2.
  - rewrite <- Ed. eapply grown_same; [eapply addBlock_grown; [apply HS2|exact HL2]|exact S3|done].
  - change (delete (bhash b) (bc_futureBlocks s3) = delete (bhash b) (bc_futureBlocks s)). rewrite F3. f_equal. apply R.
Qed.
End Proofs.
