(* ===== verification/ChainImport.v ===== *)
(** * ChainImport: what the import of blocks keeps

    The states of the blocks in the database, and that [InsertChain] keeps them and
    the chain of BlockchainProofs.v sound, whatever it is given. *)
From S2P Require Import Prelude.
From S2P Require Import Messages.
From S2P Require Import StateDB.
From S2P Require Import StateRoot.
From S2P Require Import Tx.
From S2P Require Import ZkTx.
From S2P Require Import Merkle.
From S2P Require Import Header.
From S2P Require Import Snapshot.
From S2P Require Import HeaderRules.
From S2P Require Import Engine.
From S2P Require Import ChainDB.
From S2P Require Import Blockchain.
From S2P Require Import BlockchainProofs.

(** ** Committing a state that has its root *)

(** An account that is marked as suicided will be flushed, or is not in the trie. *)
Definition settled (s : StateDB) : Prop := forall a o, sdb_objects s !! a = Some o -> so_suicided o = true ->
  a ∈ sdb_dirty s \/ sdb_trie s !! a = None.

(** The trie has what the dirty objects of [s] say, and no suicided account. *)
Record flushed_state (e : bool) (s1 : StateDB) : Prop := {
  fs_dirty : forall a o, sdb_objects s1 !! a = Some o -> a ∈ sdb_dirty s1 -> sdb_trie s1 !! a = flushed e o /\
    (flushed e o = None \/ 0 <= ac_Balance (so_data o));
  fs_clean : forall a o, sdb_objects s1 !! a = Some o -> a ∉ sdb_dirty s1 -> so_suicided o = true -> sdb_trie s1 !! a = None;
}.

Lemma IntermediateRoot_flushed e s s1 : settled s -> IntermediateRoot e s = (Ret tt, s1) -> flushed_state e s1.
Proof.
  intros Hs. unfold IntermediateRoot. rewrite bind_get. intros ([]&s0&[F Hl]%flush_all&H)%bind_inv. injection H as <-.
  assert (forall a o, sdb_objects s0 !! a = Some o -> exists o0, sdb_objects s !! a = Some o0 /\ same_object o0 o) as Ho.
  { intros a o Eo. pose proof (fl_objects _ _ _ _ F a) as Hk. rewrite Eo in Hk.
    inversion Hk as [o0 ? Hso E1 E2|]; subst. by exists o0. }
  set (s1 := (_ <| sdb_refund := 0 |>)).
  split; change (sdb_objects s1) with (sdb_objects s0); change (sdb_dirty s1) with (sdb_dirty s0);
    change (sdb_trie s1) with (sdb_trie s0); rewrite (fl_dirty _ _ _ _ F);
    intros a o Eo Hd; destruct (Ho a o Eo) as (o0&Eo0&Hso).
  - rewrite Forall_forall in Hl. destruct (Hl a) as (o1&Eo1&Hb); [by apply elem_of_elements|].
    rewrite Eo0 in Eo1. injection Eo1 as <-. rewrite (same_flushed e o0 o Hso). split; [|by destruct Hso as [->| ->]].
    rewrite (fl_trie _ _ _ _ F), decide_True by by apply elem_of_elements.
    unfold flushed_at. by rewrite Eo0.
  - intros Hsu. rewrite (fl_trie _ _ _ _ F), decide_False by by rewrite elem_of_elements.
    destruct (Hs a o0 Eo0) as [?|?]; [by destruct Hso as [->| ->]|done|done].
Qed.

Lemma commitObject_runs e s a : flushed_state e s -> exists s', commitObject e a s = (Ret tt, s') /\
  sdb_trie s' = sdb_trie s /\ flushed_state e s'.
Proof.
  intros [F1 F2]. unfold commitObject. rewrite bind_get. destruct (sdb_objects s !! a) as [o|] eqn:Eo; [|by exists s].
  cbv zeta. set (m := if so_suicided o || _ then _ else _).
  assert (exists s1, m s = (Ret tt, s1) /\ sdb_trie s1 = sdb_trie s /\ sdb_dirty s1 = sdb_dirty s /\
    forall k, option_Forall2 same_object (sdb_objects s !! k) (sdb_objects s1 !! k)) as (s1&E1&T1&D1&O1).
  { assert (forall k, option_Forall2 same_object (sdb_objects s !! k) (sdb_objects s !! k)) as Hrefl.
    { intros k. destruct (sdb_objects s !! k); constructor. by left. }
    assert (forall k, option_Forall2 same_object (sdb_objects s !! k)
      (alter (fun o => o <| so_deleted := true |>) a (sdb_objects s) !! k)) as Halter.
    { intros k. destruct (decide (k = a)) as [->|Hne].
      - rewrite lookup_alter_eq, Eo. constructor. by right.
      - rewrite lookup_alter_ne by done. apply Hrefl. }
    unfold m. clear m. destruct (decide (a ∈ sdb_dirty s)) as [Hd|Hd].
    - rewrite bool_decide_true by done. destruct (F1 a o Eo Hd) as [Ht Hb]. cbn [andb]. unfold flushed in Ht, Hb.
      destruct (so_suicided o || (e && empty o)).
      + eexists. split; [reflexivity|]. split_and!; [|done|exact Halter]. by apply delete_id.
      + cbn [when]. unfold updateStateObject. destruct Hb as [?|Hb]; [done|]. rewrite (proj2 (Z.ltb_ge _ _)) by done.
        eexists. split; [reflexivity|]. split_and!; [|done|exact Hrefl]. by apply insert_id.
    - rewrite bool_decide_false by done. cbn [andb when]. rewrite orb_false_r. destruct (so_suicided o) eqn:Es.
      + eexists. split; [reflexivity|]. split_and!; [|done|exact Halter]. apply delete_id. by apply (F2 a o).
      + by exists s. }
  rewrite (bind_eq _ _ _ _ _ E1). set (s2 := s1 <| sdb_dirty ::= fun d => d ∖ {[a]} |>). exists s2.
  split; [reflexivity|]. split; [exact T1|].
  assert (forall k o1, sdb_objects s1 !! k = Some o1 -> exists o0, sdb_objects s !! k = Some o0 /\ same_object o0 o1) as Ho.
  { intros k o1 Ek. pose proof (O1 k) as Hk. rewrite Ek in Hk. inversion Hk as [o0 ? Hso E2 E3|]; subst. by exists o0. }
  split; intros k o1 Ek; destruct (Ho k o1 Ek) as (o0&Ek0&Hso); change (sdb_dirty s2) with (sdb_dirty s1 ∖ {[a]});
    change (sdb_trie s2) with (sdb_trie s1); rewrite D1, T1.
  - intros [Hd _]%elem_of_difference. destruct (F1 k o0 Ek0 Hd) as [Ht Hb]. rewrite (same_flushed e o0 o1 Hso).
    split; [done|by destruct Hso as [->| ->]].
  - intros Hd Hsu. assert (so_suicided o0 = true) as Hsu0 by by destruct Hso as [->| ->].
    destruct (decide (k ∈ sdb_dirty s)) as [Hd0|Hd0]; [|by apply (F2 k o0)].
    destruct (F1 k o0 Ek0 Hd0) as [-> _]. unfold flushed. by rewrite Hsu0.
Qed.

(** Committing a state after its intermediate root writes that root. *)
Lemma CommitTo_flushed e s : flushed_state e s -> exists s', CommitTo e s = (Ret (sdb_trie s), s').
Proof.
  intros F. unfold CommitTo. rewrite bind_get.
  assert (forall l s0, flushed_state e s0 -> exists s1, for_each l (commitObject e) s0 = (Ret tt, s1) /\ sdb_trie s1 = sdb_trie s0) as H.
  { induction l as [|a l IH]; intros s0 F0; [by exists s0|]. cbn [for_each].
    destruct (commitObject_runs e s0 a F0) as (s1&E1&T1&F1). rewrite (bind_eq _ _ _ _ _ E1).
    destruct (IH s1 F1) as (s2&E2&T2). exists s2. split; [done|congruence]. }
  destruct (H (map_to_list (sdb_objects s)).*1 s F) as (s1&E1&T1). rewrite (bind_eq _ _ _ _ _ E1).
  eexists. rewrite <- T1. reflexivity.
Qed.

(** What a processor promises: the state it leaves is settled. *)
Class ProcessorLaws `{PR : Processor} : Prop := {
  process_settled : forall b t r st, process b (New t) = (Ret (inr r), st) -> settled st;
  process_ends : forall b t, (process b (New t)).1 <> OutOfFuel;
}.

Section Importing.
Context `{TE : TxEnv} `{HA : HashEnv} `{HE : HeaderEnv} `{MK : MerkleEnv} `{BE : BlockEnv} `{PR : Processor} `{CP : ChainParams}.
Context `{GN : GenesisBlock} `{PL : !ProcessorLaws}.

(** ** Replaying blocks *)

(** The accounts after a block, if it is valid over those before it. *)
Definition execute (b : Block) (t : gmap string Account) : option (gmap string Account) :=
  match process b (New t) with
  | (Ret (inr (receipts, usedGas)), st) =>
      match ValidateState (isEIP158 b) b receipts usedGas st with
      | (Ret None, st) => Some (sdb_trie st)
      | _ => None
      end
  | _ => None
  end.
Fixpoint replay (t : gmap string Account) (bs : list Block) : option (gmap string Account) :=
  match bs with
  | [] => Some t
  | b :: bs => t' ← execute b t; replay t' bs
  end.

Lemma ValidateState_inv e b receipts gas st st' : ValidateState e b receipts gas st = (Ret None, st') ->
  IntermediateRoot e st = (Ret tt, st') /\ hd_Root (b_header b) = trieRoot (sdb_trie st').
Proof.
  unfold ValidateState. destruct (negb _); [done|]. destruct (negb _); [done|]. destruct (negb _); [done|].
  intros ([]&s1&E1&H)%bind_inv. rewrite bind_get in H. case_bool_decide as Er; [|done]. injection H as <-. done.
Qed.

Lemma execute_root b t t' : execute b t = Some t' -> trieRoot t' = hd_Root (b_header b).
Proof.
  unfold execute. destruct (process b (New t)) as [[[e|[receipts gas]]| |] st]; try done.
  destruct (ValidateState _ b receipts gas st) as [[[e|]| |] st'] eqn:E; try done. intros [= <-].
  by apply ValidateState_inv in E as [_ ->].
Qed.

(** ** The states of the blocks *)

Variable genesisTrie : gmap string Account.

Inductive stateOf (d : ChainDB) : Block -> gmap string Account -> Prop :=
| so_genesis : stateOf d genesis genesisTrie
| so_block b p t t' : parent_of d b = Some p -> stateOf d p t -> execute b t = Some t' -> stateOf d b t'.

Lemma stateOf_extends d d' b t : extends d d' -> stateOf d b t -> stateOf d' b t.
Proof. intros Hx. induction 1; [constructor|]. econstructor; [by eapply extends_parent|done|done]. Qed.

(** The roots of states tell them apart, and genesis has its own. *)
Record roots_ok : Prop := {
  ro_inj : Inj (=) (=) trieRoot;
  ro_genesis : trieRoot genesisTrie = hd_Root (b_header genesis);
}.
Context (RO : roots_ok).

Lemma stateOf_root d b t : stateOf d b t -> trieRoot t = hd_Root (b_header b).
Proof. destruct 1; [apply RO|by eapply execute_root]. Qed.

Lemma stateOf_same d d' b t : same_blocks d d' -> stateOf d b t -> stateOf d' b t.
Proof. intros S. apply stateOf_extends. by apply same_extends. Qed.

(** Every block in the database is valid over the state of its parent, and its own
    state is in the database. *)
Definition executed (d : ChainDB) : Prop := forall b, inDB d b ->
  exists t, stateOf d b t /\ db_states d !! hd_Root (b_header b) = Some t.

(** ** The body of a block *)

Definition known (d : ChainDB) (hash : string) : Prop := exists n b, dbBlock d hash n = Some b.

Lemma HasBlockAndState_known s hash : stored (bc_db s) -> cached s -> executed (bc_db s) ->
  exists r s', HasBlockAndState hash s = (Ret r, s') /\ reads s s' /\ cached s' /\ (r = true <-> known (bc_db s) hash).
Proof.
  intros SD CA EX. destruct (HasBlockAndState_reads s hash SD CA) as (r&s'&E&R&C&Hr). exists r, s'.
  split_and!; [done|done|done|]. rewrite Hr. split.
  - intros (n&b&t&Hb&_). by exists n, b.
  - intros (n&b&Hb). destruct (dbBlock_inDB _ SD _ _ _ Hb) as (Hin&_&_). destruct (EX b Hin) as (t&_&Ht). by exists n, b, t.
Qed.

Record valid_body (d : ChainDB) (b : Block) : Prop := {
  vb_fresh : ~ known d (bhash b);
  vb_parent : known d (hd_ParentHash (b_header b));
  vb_uncles : b_uncles b = [];
  vb_hashable : hashable b;
}.

Lemma ValidateBody_inv f b : ValidateBody f b = Some None ->
  f (bhash b) = false /\ f (hd_ParentHash (b_header b)) = true /\ b_uncles b = [] /\ hashable b.
Proof.
  unfold ValidateBody. change (hdr_hash (CopyHeader (b_header b))) with (bhash b).
  change (hd_ParentHash (CopyHeader (b_header b))) with (hd_ParentHash (b_header b)).
  destruct (f (bhash b)); [done|]. destruct (f (hd_ParentHash (b_header b))); [|done]. cbn [negb].
  unfold VerifyUncles. destruct (decide (b_uncles b = [])); [|done]. destruct (negb _); [done|].
  unfold DeriveShaTx. destruct (mapM ZKHashTx (b_transactions b)) eqn:E; [|done]. intros _. split_and!; try done.
  unfold hashable. by apply mapM_is_Some_1; eexists.
Qed.

Lemma validateBody_runs s b : stored (bc_db s) -> cached s -> executed (bc_db s) ->
  exists o s', validateBody b s = (o, s') /\ reads s s' /\ cached s' /\ o <> OutOfFuel /\
    (o = Ret None -> valid_body (bc_db s) b).
Proof.
  intros SD CA EX. unfold validateBody.
  destruct (HasBlockAndState_known s (bhash b) SD CA EX) as (r1&s1&E1&R1&C1&H1). rewrite (bind_eq _ _ _ _ _ E1).
  pose proof (rd_db _ _ R1) as Ed1.
  assert (exists r2 s2, (if r1 then ret false else HasBlockAndState (hd_ParentHash (b_header b))) s1 = (Ret r2, s2) /\
    reads s1 s2 /\ cached s2 /\ (r1 = false -> r2 = true <-> known (bc_db s) (hd_ParentHash (b_header b)))) as (r2&s2&E2&R2&C2&H2).
  { destruct r1; [by exists false, s1|].
    destruct (HasBlockAndState_known s1 (hd_ParentHash (b_header b))) as (r2&s2&E2&R2&C2&H2); [by rewrite Ed1|done|by rewrite Ed1|].
    rewrite Ed1 in H2. by exists r2, s2. }
  rewrite (bind_eq _ _ _ _ _ E2).
  destruct (ValidateBody _ b) as [r|] eqn:Ev; [|exists Panic, s2; split_and!; [done|by etrans|done|done|done]].
  exists (Ret r), s2. split_and!; [done|by etrans|done|done|]. intros [= ->].
  apply ValidateBody_inv in Ev as (F1&F2&F3&F4). rewrite bool_decide_true in F1 by done. subst r1.
  assert (~ known (bc_db s) (bhash b)) as Hf by by rewrite <- H1.
  split; [done| |done|done]. apply H2; [done|]. case_bool_decide; [done|done].
Qed.

(** ** Executing a block *)

Record imported (s : BlockChain) : Prop := {
  im_sound : sound_chain s;
  im_executed : executed (bc_db s);
}.

(** A step that may add the block. *)
Record advanced (b : Block) (s s' : BlockChain) : Prop := {
  av_imported : imported s';
  av_extends : extends (bc_db s) (bc_db s');
  av_only : forall hash n x, dbBlock (bc_db s') hash n = Some x -> dbBlock (bc_db s) hash n = Some x \/ x = b;
  av_future : forall hash x, bc_futureBlocks s' !! hash = Some x -> bc_futureBlocks s !! hash = Some x \/ x = b;
}.

Lemma extends_refl d : extends d d.
Proof. by split_and!. Qed.
Lemma extends_trans d1 d2 d3 : extends d1 d2 -> extends d2 d3 -> extends d1 d3.
Proof. intros (A1&A2&A3) (B1&B2&B3). split_and!; eauto. Qed.

Lemma advanced_trans b s1 s2 s3 : advanced b s1 s2 -> advanced b s2 s3 -> advanced b s1 s3.
Proof.
  intros [A1 A2 A3 A4] [B1 B2 B3 B4]. split; [done|by eapply extends_trans| |].
  - intros hash n x H. destruct (B3 _ _ _ H) as [H'| ->]; [by apply A3|by right].
  - intros hash x H. destruct (B4 _ _ H) as [H'| ->]; [by apply A4|by right].
Qed.

Lemma imported_reads s s' : reads s s' -> cached s' -> imported s -> imported s'.
Proof. intros R C [H1 H2]. split; [by eapply sound_reads|]. by rewrite (rd_db _ _ R). Qed.

Lemma advanced_reads b s s' : reads s s' -> cached s' -> imported s -> advanced b s s'.
Proof.
  intros R C Him. pose proof (imported_reads s s' R C Him) as Him'. destruct R as [Ed Eh Ef].
  split; [done|rewrite Ed; apply extends_refl|rewrite Ed; by left|rewrite Ef; by left].
Qed.

Lemma advanced_refl b s : imported s -> advanced b s s.
Proof. intros H. apply advanced_reads; [done|apply H|done]. Qed.

(** What only touches the lists of blocks that are not in the chain. *)
Lemma reportBlock_advanced b s : imported s -> exists s', reportBlock b s = (Ret tt, s') /\ advanced b s s'.
Proof.
  intros [[SD CA HD] EX]. eexists. split; [reflexivity|]. split; [|apply extends_refl|by left|by left].
  split; [split; [done|by destruct CA|by destruct HD]|done].
Qed.
Lemma addFuture_advanced b s : imported s -> exists s', addFuture b s = (Ret tt, s') /\ advanced b s s'.
Proof.
  intros [[SD CA HD] EX]. eexists. split; [reflexivity|]. split; [|apply extends_refl|by left|].
  - split; [split; [done|by destruct CA|by destruct HD]|done].
  - intros hash x H. change (<[bhash b := b]> (bc_futureBlocks s) !! hash = Some x) in H.
    destruct (decide (hash = bhash b)) as [->|Hne]; [rewrite lookup_insert_eq in H; injection H as <-; by right|].
    rewrite lookup_insert_ne in H by done. by left.
Qed.

Lemma headed_same s s' : same_blocks (bc_db s) (bc_db s') -> db_canonical (bc_db s') = db_canonical (bc_db s) ->
  db_headBlock (bc_db s') = db_headBlock (bc_db s) -> bc_currentBlock s' = bc_currentBlock s -> headed s -> headed s'.
Proof.
  intros S Ec Eh Eb [H1 H2 H3 H4]. split; rewrite ?Eb.
  - by apply (same_inDB (bc_db s)).
  - intros a [bs Ha]. rewrite Ec. apply H2. exists bs. by apply (same_path (bc_db s)) in Ha.
  - intros b td td'. rewrite !(same_td _ _ _ S), (same_inDB _ _ b S). apply H3.
  - by rewrite Eh.
Qed.

(** Writing states and receipts. *)
Lemma dbWriteState_imported t s : imported s -> let s' := s <| bc_db ::= dbWriteState t |> in
  imported s' /\ same_blocks (bc_db s) (bc_db s') /\ db_states (bc_db s') !! trieRoot t = Some t.
Proof.
  intros [[SD CA HD] EX] s'. assert (same_blocks (bc_db s) (bc_db s')) as S by done.
  assert (db_states (bc_db s') = <[trieRoot t := t]> (db_states (bc_db s))) as Est by done.
  split_and!; [|done|by rewrite Est, lookup_insert_eq]. split; [split|].
  - apply (stored_same (bc_db s)); [done| |done]. rewrite Est. intros root t' H.
    destruct (decide (root = trieRoot t)) as [->|Hne]; [rewrite lookup_insert_eq in H; by injection H as <-|].
    rewrite lookup_insert_ne in H by done. by apply SD.
  - by apply (cached_same s).
  - by apply (headed_same s).
  - intros b Hb. destruct (EX b) as (t'&Hst&Hdb); [by apply (same_inDB (bc_db s) (bc_db s'))|]. exists t'.
    split; [by apply (stateOf_same (bc_db s))|]. rewrite Est.
    destruct (decide (hd_Root (b_header b) = trieRoot t)) as [E|Hne]; [|by rewrite lookup_insert_ne].
    rewrite E, lookup_insert_eq. f_equal. apply RO. rewrite <- E. symmetry. by eapply stateOf_root.
Qed.

Definition withReceipts (hash : string) (n : Z) (receipts : list string) (s : BlockChain) : BlockChain :=
  s <| bc_db ::= dbWriteBlockReceipts hash n receipts |>.
Definition withState (t : gmap string Account) (hash : string) (n : Z) (receipts : list string) (s : BlockChain) : BlockChain :=
  withReceipts hash n receipts (s <| bc_db ::= dbWriteState t |>).

Lemma withReceipts_imported hash n receipts s : imported s -> imported (withReceipts hash n receipts s).
Proof.
  intros [[SD CA HD] EX]. assert (same_blocks (bc_db s) (bc_db (withReceipts hash n receipts s))) as S by done.
  split; [split|].
  - apply (stored_same (bc_db s)); [done|apply SD|done].
  - by apply (cached_same s).
  - by apply (headed_same s).
  - intros b Hb. destruct (EX b) as (t&Hst&Hdb); [by apply (same_inDB _ _ b S)|]. exists t.
    split; [by apply (stateOf_same (bc_db s))|done].
Qed.

Lemma withState_imported t hash n receipts s : imported s -> let s' := withState t hash n receipts s in
  imported s' /\ same_blocks (bc_db s) (bc_db s') /\ db_states (bc_db s') !! trieRoot t = Some t.
Proof.
  intros Him s'. destruct (dbWriteState_imported t s Him) as (Him1&S1&H1). split_and!; [|done|done].
  by apply withReceipts_imported.
Qed.

Lemma ValidateState_ends e b receipts gas st : (ValidateState e b receipts gas st).1 <> OutOfFuel.
Proof.
  unfold ValidateState. destruct (negb _); [done|]. destruct (negb _); [done|]. destruct (negb _); [done|].
  unfold bind. pose proof (IntermediateRoot_ends e st) as H. by destruct (IntermediateRoot e st) as [[]].
Qed.

(** A block that is written after its state. *)
Lemma WriteBlock_imported coin b p t t' s : imported s -> proper b -> ~ known (bc_db s) (bhash b) -> bnum b <> 0 ->
  parent_of (bc_db s) b = Some p -> stateOf (bc_db s) p t -> execute b t = Some t' ->
  db_states (bc_db s) !! trieRoot t' = Some t' ->
  exists st s', WriteBlock coin b s = (Ret (inr st), s') /\ advanced b s s' /\ inDB (bc_db s') b.
Proof.
  intros [SC EX] Hp Hf Hn Hpar Hst Hex Hdb. pose proof (sc_stored s SC) as SD.
  destruct (parent_inDB _ SD _ _ Hpar) as (Hin&_&_). destruct (inDB_td _ SD p Hin) as [td Htd].
  assert (linkable (bc_db s) b p td) as HL.
  { split; [done| |done|done|done]. destruct (db_numbers (bc_db s) !! bhash b) as [n|] eqn:E; [|done].
    destruct Hf. destruct (sd_number _ SD _ _ E) as [x Hx]. by exists n, x. }
  destruct (WriteBlock_runs coin s b p td SC HL) as (st&s'&E&SC'&[G1 G2 G3 G4]&F'). exists st, s'.
  split_and!; [done| |done]. split; [split; [done|]|done|done|].
  - intros x Hx. rewrite G4. destruct (G3 _ _ _ Hx) as [Hx'| ->].
    + destruct (EX x Hx') as (tx&H1&H2). exists tx. split; [by eapply stateOf_extends|done].
    + exists t'. rewrite <- (execute_root _ _ _ Hex). split; [|done].
      econstructor; [by eapply extends_parent|by eapply stateOf_extends|done].
  - intros hash x H. rewrite F' in H. apply lookup_delete_Some in H as [_ H]. by left.
Qed.

Lemma onState_runs {A} (m : M StateDB A) st s : exists o, onState m st s = (o, s) /\
  (forall a st', m st = (Ret a, st') -> o = Ret (a, st')) /\ ((m st).1 <> OutOfFuel -> o <> OutOfFuel) /\
  (forall a st', o = Ret (a, st') -> m st = (Ret a, st')).
Proof.
  unfold onState. destruct (m st) as [[a| |] st']; eexists; (split; [done|]); split_and!; try done;
    by intros ?? [= <- <-].
Qed.

Lemma bind_panic {W A B} (m : M W A) (f : A -> M W B) s s1 : m s = (Panic, s1) -> bind m f s = (Panic, s1).
Proof. unfold bind. by intros ->. Qed.

Lemma relooked_advanced b s s' : relooked s s' -> imported s -> advanced b s s'.
Proof.
  intros [[W1 W2 W3 W4 W5 W6 W7 W8 W9] Ec Eh] [[SD CA HD] EX]. split; [split; [split|]| | |].
  - apply (stored_same (bc_db s)); [done|rewrite W2; apply SD|done].
  - by apply (cached_same s).
  - apply (headed_same s); try done. apply map_eq. intros i. apply W9, not_elem_of_nil.
  - intros x Hx. rewrite W2. destruct (EX x) as (tx&H1&H2); [by apply (same_inDB (bc_db s) (bc_db s'))|].
    exists tx. split; [by eapply stateOf_same|done].
  - by apply same_extends.
  - intros hash n x. rewrite (same_dbBlock _ _ _ _ W1). by left.
  - rewrite W7. by left.
Qed.

(** The last step of [executeBlock]. *)
Definition finishBlock (coin : bool) (b : Block) : M BlockChain (option chainErr) :=
  w <- WriteBlock coin b ;;
  match w with
  | inl e => ret (Some e)
  | inr CanonStatTy => WriteTransactions b ;; ret None
  | inr SideStatTy => ret None
  end.

Lemma finishBlock_runs coin b p t t' s : imported s -> proper b -> ~ known (bc_db s) (bhash b) -> bnum b <> 0 ->
  parent_of (bc_db s) b = Some p -> stateOf (bc_db s) p t -> execute b t = Some t' ->
  db_states (bc_db s) !! trieRoot t' = Some t' ->
  exists s', finishBlock coin b s = (Ret None, s') /\ advanced b s s' /\ inDB (bc_db s') b.
Proof.
  intros Him Hp Hf Hn Hpar Hst Hex Hdb. unfold finishBlock.
  destruct (WriteBlock_imported coin b p t t' s) as (st&s1&E1&A1&Hb1); try done. rewrite (bind_eq _ _ _ _ _ E1).
  destruct st; [|by exists s1].
  destruct (WriteTransactions_runs s1 b (pr_hashable _ Hp)) as (s2&E2&R2). rewrite (bind_eq _ _ _ _ _ E2).
  exists s2. split_and!; [done| |].
  - eapply advanced_trans; [exact A1|]. apply relooked_advanced; [done|apply A1].
  - apply (same_inDB (bc_db s1)); [apply R2|done].
Qed.

(** How a step ends that may add a block. *)
Definition steps_to (b : Block) (s : BlockChain) (r : outcome (option chainErr) * BlockChain) : Prop :=
  advanced b s r.2 /\ r.1 <> OutOfFuel /\ (r.1 = Ret None -> inDB (bc_db r.2) b).

Lemma steps_stop b s o : imported s -> o <> OutOfFuel -> o <> Ret None -> steps_to b s (o, s).
Proof. intros Him H1 H2. split_and!; [by apply advanced_refl|done|done]. Qed.

Lemma steps_report b s e : imported s -> steps_to b s ((reportBlock b ;; ret (Some e)) s).
Proof.
  intros Him. destruct (reportBlock_advanced b s Him) as (s'&E&A). rewrite (bind_eq _ _ _ _ _ E). by split_and!.
Qed.

(** The block is executed over the state of its parent, or rejected. *)
Lemma executeBlock_runs coin parent b p s : imported s -> proper b -> ~ known (bc_db s) (bhash b) -> bnum b <> 0 ->
  parent_of (bc_db s) b = Some p -> hd_Root (b_header parent) = hd_Root (b_header p) ->
  steps_to b s (executeBlock coin parent b s).
Proof.
  intros Him Hp Hf Hn Hpar Hroot. unfold executeBlock. rewrite bind_get, Hroot. pose proof (sc_stored s (im_sound s Him)) as SD.
  destruct (parent_inDB _ SD _ _ Hpar) as (Hin&_&_). destruct (im_executed s Him p Hin) as (t&Hst&Ht). rewrite Ht.
  destruct (onState_runs (process b) (New t) s) as (o1&E1&_&F1&G1). specialize (F1 (process_ends b t)).
  destruct o1 as [[[e|[receipts gas]] st]| |]; [| |rewrite (bind_panic _ _ _ _ E1); by apply steps_stop|done].
  { rewrite (bind_eq _ _ _ _ _ E1). by apply steps_report. }
  rewrite (bind_eq _ _ _ _ _ E1). pose proof (G1 _ _ eq_refl) as Eproc.
  destruct (onState_runs (ValidateState (isEIP158 b) b receipts gas) st s) as (o2&E2&_&F2&G2).
  specialize (F2 (ValidateState_ends _ _ _ _ _)).
  destruct o2 as [[[e|] st2]| |]; [| |rewrite (bind_panic _ _ _ _ E2); by apply steps_stop|done].
  { rewrite (bind_eq _ _ _ _ _ E2). by apply steps_report. }
  rewrite (bind_eq _ _ _ _ _ E2). pose proof (G2 _ _ eq_refl) as Eval.
  assert (execute b t = Some (sdb_trie st2)) as Hex by (unfold execute; by rewrite Eproc, Eval).
  destruct (ValidateState_inv _ _ _ _ _ _ Eval) as [Ei _].
  destruct (CommitTo_flushed (isEIP158 b) st2) as [st3 Ec].
  { eapply IntermediateRoot_flushed; [by eapply process_settled|done]. }
  destruct (onState_runs (CommitTo (isEIP158 b)) st2 s) as (o3&E3&G3&_). rewrite (G3 _ _ Ec) in E3.
  rewrite (bind_eq _ _ _ _ _ E3). clear E1 E2 E3 G1 G2 G3.
  destruct (withState_imported (sdb_trie st2) (bhash b) (bnum b) receipts s Him) as (Him1&S1&Hdb1).
  set (s1 := withState _ _ _ _ s) in *. change (steps_to b s (finishBlock coin b s1)).
  destruct (finishBlock_runs coin b p t (sdb_trie st2) s1) as (s2&E2&A2&Hb2); try done; [by eapply stateOf_same|].
  rewrite E2. split_and!; [|done|done]. eapply advanced_trans; [|exact A2].
  split; [done|by apply same_extends| |by left]. intros hash n x. rewrite (same_dbBlock _ _ _ _ S1). by left.
Qed.

(** ** The loop over the blocks of a request *)

(** What an honest peer sends: the decoding of a block copies its header, and only
    genesis has the number zero. *)
Record request_ok (b : Block) : Prop := {
  rq_header : CopyHeader (b_header b) = b_header b;
  rq_number : bnum b <> 0;
}.

(** Equal hashes mean equal numbers and states; a hash that covers the whole header
    would imply this. *)
Definition alike (a b : Block) : Prop :=
  bhash a = bhash b -> bnum a = bnum b /\ hd_Root (b_header a) = hd_Root (b_header b).

(** The blocks of a request that may have more than one are told apart by hash, from
    each other and from those in the database. *)
Definition told_apart (d : ChainDB) (bs : list Block) : Prop :=
  (length bs <= 1)%nat \/ forall a b, a ∈ bs -> b ∈ bs \/ inDB d b -> alike b a.

Lemma valid_body_proper d b : request_ok b -> valid_body d b -> proper b.
Proof. intros [H1 _] [_ _ H2 H3]. by split. Qed.

Lemma u64_parent b : bnum b <> 0 -> u64 (bnum b - 1) = bnum b - 1.
Proof.
  intros Hn. pose proof (u64_range (default 0 (hd_Number (b_header b)))) as Hr. apply u64_small.
  unfold is_u64, bnum, hnum in *. lia.
Qed.

(** The header of the first block was verified over the chain, so that its parent is
    there; the others have the block before them as theirs. *)
Definition linked_to (d : ChainDB) (prev : option Block) (b : Block) (result : option verr) : Prop :=
  match prev with
  | None => result = None -> is_Some (parent_of d b)
  | Some q => hd_ParentHash (b_header b) = bhash q /\ bnum b - 1 = bnum q /\ forall x, inDB d x -> alike x q
  end.

Lemma linked_parent d prev b : stored d -> linked_to d prev b None -> known d (hd_ParentHash (b_header b)) ->
  exists p, parent_of d b = Some p /\ forall q, prev = Some q -> hd_Root (b_header q) = hd_Root (b_header p).
Proof.
  intros SD HL (n&p&Hp). destruct prev as [q|]; cbn in HL; [|destruct (HL eq_refl) as [p' Hp']; by exists p'].
  destruct HL as (Eh&En&Hal). destruct (dbBlock_inDB d SD _ _ _ Hp) as (Hin&Ehp&Enp).
  destruct (Hal p Hin) as [E1 E2]; [congruence|]. exists p. split; [unfold parent_of; congruence|].
  by intros q' [= <-].
Qed.

(** A step that may add the block, and ends. *)
Definition runs_to (b : Block) (s : BlockChain) (r : outcome (option chainErr) * BlockChain) : Prop :=
  advanced b s r.2 /\ r.1 <> OutOfFuel.

Lemma runs_after b s s1 r : advanced b s s1 -> runs_to b s1 r -> runs_to b s r.
Proof. intros H [H1 H2]. split; [by eapply advanced_trans|done]. Qed.

Lemma runs_future b s : imported s -> runs_to b s ((addFuture b ;; ret None) s).
Proof. intros H. destruct (addFuture_advanced b s H) as (s'&E&A). by rewrite (bind_eq _ _ _ _ _ E). Qed.
Lemma runs_report b s e : imported s -> runs_to b s ((reportBlock b ;; ret (Some e)) s).
Proof. intros H. destruct (steps_report b s e H) as (H1&H2&_). by split. Qed.

(** What is done with a block that was not accepted. *)
Lemma rejected_runs now b e s : imported s -> runs_to b s
  (match e with
   | errBody ErrKnownBlock => ret None
   | errHeader ErrFutureBlock =>
       if now + 30 <? hd_Time (b_header b) then ret (Some errTooFarAhead) else addFuture b ;; ret None
   | e =>
       s <- get ;;
       if (match e with errHeader ErrUnknownAncestor | errBody errParentUnknown => true | _ => false end)
          && bool_decide (is_Some (bc_futureBlocks s !! hd_ParentHash (b_header b)))
       then addFuture b ;; ret None
       else reportBlock b ;; ret (Some e)
   end s).
Proof.
  intros Him.
  assert (forall (c : bool) e', runs_to b s ((if c then addFuture b ;; ret None else reportBlock b ;; ret (Some e')) s)) as H
    by (intros [] e'; [by apply runs_future|by apply runs_report]).
  destruct e as [| |e|e| | |e|e| | |]; try destruct e; try (rewrite bind_get; apply H).
  - destruct (_ <? _); [by split; [apply advanced_refl|]|by apply runs_future].
  - by split; [apply advanced_refl|].
Qed.

Lemma importBlock_runs now coin prev b result s : imported s -> request_ok b -> linked_to (bc_db s) prev b result ->
  runs_to b s (importBlock now coin prev b result s).
Proof.
  intros Him Hrq HL. pose proof (sc_stored s (im_sound s Him)) as SD. unfold importBlock.
  destruct (bool_decide _); [by apply runs_report|].
  assert (exists o s1, (match result with Some e => ret (Some (errHeader e))
      | None => e <- validateBody b ;; ret (errBody <$> e) end) s = (o, s1) /\ o <> OutOfFuel /\ reads s s1 /\ cached s1 /\
      (o = Ret None -> result = None /\ valid_body (bc_db s) b)) as (o&s1&E&Hf&R1&C1&Hv).
  { destruct result as [e|]; [exists (Ret (Some (errHeader e))), s; split_and!; [done|done|done|apply Him|done]|].
    destruct (validateBody_runs s b SD (sc_cached s (im_sound s Him)) (im_executed s Him)) as (o&s1&E1&R1&C1&Hf&Hv).
    destruct o as [e| |]; [|by exists Panic, s1; rewrite (bind_panic _ _ _ _ E1)|done].
    rewrite (bind_eq _ _ _ _ _ E1). exists (Ret (errBody <$> e)), s1. split_and!; [done|done|done|done|].
    destruct e as [e|]; [done|]. intros _. split; [done|by apply Hv]. }
  pose proof (imported_reads s s1 R1 C1 Him) as Him1. pose proof (rd_db _ _ R1) as Ed.
  apply (runs_after b s s1); [by apply advanced_reads|]. revert E. set (m := match result with Some _ => _ | None => _ end).
  clearbody m. intros E. destruct o as [[e|]| |]; [| |rewrite (bind_panic _ _ _ _ E); by split; [apply advanced_refl|]|done].
  - rewrite (bind_eq _ _ _ _ _ E). by apply rejected_runs.
  - rewrite (bind_eq _ _ _ _ _ E). destruct (Hv eq_refl) as [-> VB]. rewrite <- Ed in *.
    destruct (linked_parent _ prev b SD HL (vb_parent _ _ VB)) as (p&Hp&Hq).
    assert (exists q s2, (match prev with Some p => ret (Some p) | None => parentOf b end) s1 = (Ret (Some q), s2) /\
      reads s1 s2 /\ cached s2 /\ hd_Root (b_header q) = hd_Root (b_header p)) as (q&s2&E2&R2&C2&Eroot).
    { destruct prev as [q|]; [exists q, s1; split_and!; [done|done|done|by apply Hq]|]. unfold parentOf.
      rewrite (u64_parent b (rq_number b Hrq)).
      destruct (GetBlock_reads s1 (sc_stored _ (im_sound _ Him1)) C1 (hd_ParentHash (b_header b)) (bnum b - 1)) as (r&s2&E2&R2&C2&_&Hr).
      rewrite (Hr p Hp) in E2. by exists p, s2. }
    rewrite (bind_eq _ _ _ _ _ E2). pose proof (imported_reads s1 s2 R2 C2 Him1) as Him2. pose proof (rd_db _ _ R2) as Ed2.
    apply (runs_after b s1 s2); [by apply advanced_reads|]. rewrite <- Ed2 in *.
    destruct (executeBlock_runs coin q b p s2) as (H1&H2&_); [done|by eapply valid_body_proper|apply VB|apply Hrq|done|done|].
    by split.
Qed.

(** What the import of some blocks leaves. *)
Record progressed (bs : list Block) (s s' : BlockChain) : Prop := {
  pg_imported : imported s';
  pg_extends : extends (bc_db s) (bc_db s');
  pg_future : forall hash x, bc_futureBlocks s' !! hash = Some x -> bc_futureBlocks s !! hash = Some x \/ x ∈ bs;
}.

Lemma progressed_refl bs s : imported s -> progressed bs s s.
Proof. intros H. split; [done|apply extends_refl|by left]. Qed.

Lemma progressed_cons b bs s s1 s2 : advanced b s s1 -> progressed bs s1 s2 -> progressed (b :: bs) s s2.
Proof.
  intros [A1 A2 A3 A4] [B1 B2 B3]. split; [done|by eapply extends_trans|].
  intros hash x H. destruct (B3 _ _ H) as [H'|H']; [|by right; right].
  destruct (A4 _ _ H') as [?| ->]; [by left|right; by left].
Qed.

Lemma next_number a b : bnum b <> 0 -> (bnum b =? u64 (bnum a + 1)) = true -> bnum b - 1 = bnum a.
Proof.
  intros Hn E%Z.eqb_eq. pose proof (u64_range (default 0 (hd_Number (b_header a)))) as Hr.
  change (is_u64 (bnum a)) in Hr. destruct (decide (bnum a + 1 = two64)) as [E1|E1].
  - rewrite E1 in E. by destruct Hn.
  - rewrite u64_small in E; [lia|]. unfold is_u64 in *. lia.
Qed.

Lemma told_apart_step d d' b bs : (forall x, inDB d' x -> inDB d x \/ x = b) -> told_apart d (b :: bs) -> told_apart d' bs.
Proof.
  intros Hd [Hl|Hal]; [left; cbn in Hl; lia|]. right. intros x y Hx [Hy|Hy].
  - apply Hal; [by right|left; by right].
  - destruct (Hd y Hy) as [?| ->]; [apply Hal; [by right|by right]|apply Hal; [by right|left; by left]].
Qed.

Lemma importLoop_runs now coin i prev l s : imported s -> Forall request_ok l.*1 ->
  (match l with [] => True | (b, r) :: _ => linked_to (bc_db s) prev b r end) ->
  contiguousBlocks l.*1 = true -> told_apart (bc_db s) l.*1 ->
  progressed l.*1 s (importLoop now coin i prev l s).2 /\ (importLoop now coin i prev l s).1 <> OutOfFuel.
Proof.
  revert i prev s. induction l as [|[b r] l IH]; intros i prev s Him Hrq HL Hc Ht.
  { split; [by apply progressed_refl|done]. }
  cbn [importLoop fmap list_fmap fst]. rewrite bind_get. destruct (bc_procInterrupt s); [split; [by apply progressed_refl|done]|].
  apply Forall_cons in Hrq as [Hb Hrq].
  destruct (importBlock_runs now (coin i) prev b r s Him Hb HL) as [A F].
  destruct (importBlock now (coin i) prev b r s) as [o s1] eqn:E. cbn [fst snd] in A, F.
  pose proof (progressed_cons b l.*1 s s1 s1 A (progressed_refl _ _ (av_imported _ _ _ A))) as P1.
  destruct o as [[e|]| |]; [rewrite (bind_eq _ _ _ _ _ E); by split| |rewrite (bind_panic _ _ _ _ E); by split|done].
  rewrite (bind_eq _ _ _ _ _ E).
  assert (forall x, inDB (bc_db s1) x -> inDB (bc_db s) x \/ x = b) as Hold by (intros x Hx; by apply (av_only _ _ _ A) in Hx).
  destruct (IH (S i) (Some b) s1) as [P2 F2]; [apply A|done| | |by eapply told_apart_step|].
  - destruct l as [|[b2 r2] l]; [done|]. cbn in Hc. apply andb_true_iff in Hc as [[Hn Hh]%andb_true_iff _].
    apply bool_decide_eq_true in Hh. apply Forall_cons in Hrq as [Hb2 _].
    split; [done|]. split; [apply next_number; [apply Hb2|done]|].
    destruct Ht as [Hl|Hal]; [cbn in Hl; lia|]. intros x Hx.
    apply Hal; [by left|]. destruct (Hold x Hx) as [?| ->]; [by right|left; by left].
  - destruct l as [|[b2 r2] l]; [done|]. by apply andb_true_iff in Hc as [_ ?].
  - split; [|done]. by eapply progressed_cons.
Qed.
End Importing.
