(* ===== verification/BlockProcessor.v ===== *)
(** * BlockProcessor: the processor of the chain

    [Process] of [core/state_processor.go] as the chain calls it, with the receipts;
    it discharges the interface that ChainImport.v asks of a processor.  And what a
    valid block does to the serial numbers in the trie. *)
From S2P Require Import Prelude.
From S2P Require Import Messages.
From S2P Require Import StateDB.
From S2P Require Import StateRoot.
From S2P Require Import Tx.
From S2P Require Import ZkTx.
From S2P Require Import ZkEffects.
From S2P Require Import ZkSafety.
From S2P Require Import StateQuiet.
From S2P Require Import ZkQuiet.
From S2P Require Import Merkle.
From S2P Require Import Header.
From S2P Require Import Snapshot.
From S2P Require Import HeaderRules.
From S2P Require Import Engine.
From S2P Require Import ChainDB.
From S2P Require Import Blockchain.
From S2P Require Import BlockchainProofs.
From S2P Require Import ChainImport.

(** The configuration of the chain; the signers that the engine has cached by the hash
    of their header, of which nothing is evicted, so that one content stands for what is
    found at any time; and the encoding of a receipt, which holds the root, the
    cumulative gas and the logs. *)
Class Processing := {
  chainConfig : ChainConfig;
  badHashes : gset string;
  signatures : Signatures;
  receiptOf : Transaction -> Z -> StateDB -> string;
}.

Section Process.
Context `{TE : TxEnv} `{HA : HashEnv} `{MK : MerkleEnv} `{BE : BlockEnv} `{ZE : ZkEnv} `{PC : Processing}.

(** [Author] of the engine, as [NewEVMContext] calls it: the error is ignored, with which
    comes the zero address. *)
Definition author (b : Block) : Address :=
  match (ecrecover (b_header b) signatures).1 with Ret (inr signer) => signer | _ => zeros 20 end.

#[export] Instance chainParams : ChainParams := {|
  isEIP158 b := eip158 chainConfig (default 0 (hd_Number (b_header b)));
  BadHashes := badHashes |}.

(** The loop over the transactions: the gas used so far, the fund commitments and the
    receipts. *)
Fixpoint processTxs (number : Z) (coinbase : Address) (txs : list Transaction) (usedGas : Z) :
    M World (txErr + (Z * list string * list string)) :=
  match txs with
  | [] => ok (usedGas, [], [])
  | tx :: txs =>
      gas <-? ApplyTransaction chainConfig number coinbase tx ;;
      w <- get ;;
      r <-? processTxs number coinbase txs (usedGas + gas) ;;
      ok (r.1.1, if tx_TxCode tx =? TxDeposit then tx_ZKCMTfd tx :: r.1.2 else r.1.2,
          receiptOf tx (usedGas + gas) (w_db w) :: r.2)
  end.

(** [Process] of a block: the pool of gas is its gas limit, and [Finalize] computes
    the root. *)
Definition processBlock (b : Block) : M World (txErr + (list string * Z)) :=
  let number := default 0 (hd_Number (b_header b)) in
  r <-? processTxs number (author b) (b_transactions b) 0 ;;
  if negb (length r.1.2 =? length (hd_ZKFunds (b_header b)))%nat then fail ErrFundsCount
  else db (IntermediateRoot (eip158 chainConfig number)) ;; ok (r.2, r.1.1).

#[export] Instance stateProcessor : Processor := {|
  process b := fun st =>
    let '(r, w) := processBlock b (mkWorld st (hd_GasLimit (b_header b))) in (r, w_db w) |}.

(** The loop applies the transactions as [applyAll] does. *)
Lemma processTxs_applyAll number coinbase txs used w :
  match processTxs number coinbase txs used w with
  | (Ret (inr r), w') => applyAll chainConfig number coinbase txs w = (Ret (inr (r.1.1 - used, r.1.2)), w')
  | (Ret (inl e), w') => applyAll chainConfig number coinbase txs w = (Ret (inl e), w')
  | (Panic, w') => applyAll chainConfig number coinbase txs w = (Panic, w')
  | (OutOfFuel, w') => applyAll chainConfig number coinbase txs w = (OutOfFuel, w')
  end.
Proof.
  revert used w. induction txs as [|tx txs IH]; intros used w; cbn [processTxs applyAll].
  { unfold ok, ret. cbn. by rewrite Z.sub_diag. }
  unfold try, bind, get. destruct (ApplyTransaction chainConfig number coinbase tx w) as [[[e|g]| |] w1]; try done.
  specialize (IH (used + g) w1).
  destruct (processTxs number coinbase txs (used + g) w1) as [[[e|[[u fs] rs]]| |] w2]; cbn [fst snd] in *; rewrite IH; try done.
  unfold ok, ret. cbn. do 4 f_equal. lia.
Qed.

(** ** The laws of a processor *)

Lemma processBlock_runs `{CV : !CalmVM mark} b trie :
  match processBlock b (mkWorld (New trie) (hd_GasLimit (b_header b))) with
  | (Ret (inr _), w) => clean (w_db w)
  | (OutOfFuel, _) => False
  | _ => True
  end.
Proof.
  set (w0 := mkWorld _ _). unfold processBlock. cbv zeta. set (n := default 0 _).
  pose proof (processTxs_applyAll n (author b) (b_transactions b) 0 w0) as H.
  pose proof (applyAll_runs chainConfig n (author b) mark (b_transactions b) w0 (New_clean trie)) as H1.
  unfold try, bind at 1. destruct (processTxs n (author b) (b_transactions b) 0 w0) as [[[e|[[u fs] rs]]| |] w1];
    rewrite H in H1; [done| |done|done].
  destruct (negb _); [done|]. unfold db, bind. pose proof (IntermediateRoot_ends (eip158 chainConfig n) (w_db w1)) as Hf.
  destruct (IntermediateRoot _ (w_db w1)) as [[[]| |] s2] eqn:E; [|done|done].
  by destruct (IntermediateRoot_clean _ _ _ _ _ _ (cl_calm _ H1) E) as [Hc2 _].
Qed.

Lemma clean_settled s : clean s -> settled s.
Proof. intros [[H1 _ _ _ _] _ _] a o Ho Hs. destruct (H1 a o Ho) as [Hn _]. congruence. Qed.

Lemma stateProcessor_laws `{CV : !CalmVM mark} : ProcessorLaws.
Proof.
  split.
  - intros b t r st H. cbn [process stateProcessor] in H. pose proof (processBlock_runs (mark := mark) b t) as Hr.
    destruct (processBlock b _) as [o w]. injection H as -> <-. by apply clean_settled.
  - intros b t. cbn [process stateProcessor]. pose proof (processBlock_runs (mark := mark) b t) as Hr.
    by destruct (processBlock b _) as [[| |] w].
Qed.

(** ** What a valid block does to the serial numbers *)

Definition nonces_ok (b : Block) : Prop := Forall (fun tx => 0 <= tx_AccountNonce tx < two64 - 1) (b_transactions b).

Lemma execute_spent (mark : string -> Prop) `{CV : !CalmVM mark} `{LZ : !ZkLaws mark} b t t' :
  isEIP158 b = true -> nonces_ok b -> (forall a, a ∈ spentSNs (b_transactions b) -> mark a) -> ChainImport.execute b t = Some t' ->
  NoDup (spentSNs (b_transactions b)) /\
  (forall a, a ∈ spentSNs (b_transactions b) -> ~ trieSpent t a) /\
  forall a, mark a -> trieSpent t a \/ a ∈ spentSNs (b_transactions b) -> trieSpent t' a.
Proof.
  intros He Hn Hm H. unfold ChainImport.execute in H. cbn [process stateProcessor] in H. cbn [isEIP158 chainParams] in He, H.
  set (w0 := mkWorld (New t) _) in H. set (n := default 0 (hd_Number (b_header b))) in *.
  destruct (processBlock b w0) as [[[e|[rs gas]]| |] w] eqn:E; try done.
  destruct (ValidateState _ b rs gas (w_db w)) as [[[e|]| |] st'] eqn:Ev; try done. injection H as <-.
  apply ValidateState_inv in Ev as [Ev _]. rewrite He in Ev.
  unfold processBlock in E. cbv zeta in E. fold n in E. apply try_inv in E as ([[u fs] rs']&w1&E1&E).
  pose proof (processTxs_applyAll n (author b) (b_transactions b) 0 w0) as Ha. rewrite E1 in Ha.
  destruct (negb _); [done|]. apply bind_inv in E as ([]&w2&E2&E). injection E as _ _ <-.
  apply db_inv in E2 as (s2&E2&->). rewrite He in E2. cbn [w_db] in *.
  pose proof (New_clean t) as C0. pose proof (New_wf t) as W0.
  pose proof (applyAll_runs chainConfig n (author b) mark (b_transactions b) w0 C0) as C1. rewrite Ha in C1.
  destruct (applyAll_keeps chainConfig n (author b) mark (b_transactions b) w0 _ w1 He W0 Hn Hm Ha) as (W1&_&Hnd&Hfresh).
  destruct (IntermediateRoot_clean _ _ _ _ _ _ (cl_calm _ C1) E2) as [C2 _].
  destruct (IntermediateRoot_keeps _ _ W1 E2) as (W2&_&_).
  split_and!; [done| |].
  - intros a Hin Hs. destruct (Hfresh a Hin) as [Hns _]. apply Hns. by apply (New_durable t a).
  - intros a Hma Hs. assert (durable (w_db w1) a) as D1.
    { apply (applyAll_durable chainConfig n (author b) mark (b_transactions b) w0 _ w1 a He C0 W0 Hn Hm Ha Hma).
      destruct Hs as [Hs|Hs]; [left; by apply New_durable|by right]. }
    assert (durable s2 a) as D2 by (eapply root_durable; [apply C1|done|exact E2|apply D1|right; apply D1]).
    assert (durable st' a) as D3 by (eapply root_durable; [apply C2|done|exact Ev|apply D2|right; apply D2]).
    apply D3.
Qed.
End Process.
