(* ===== verification/ChainStart.v ===== *)
(** * ChainStart: opening a chain

    The genesis block and the chain over a database: a chain that is opened again has
    the head it had, and one over the database of a genesis block is sound. *)
From S2P Require Import Prelude.
From S2P Require Import Messages.
From S2P Require Import StateDB.
From S2P Require Import StateRoot.
From S2P Require Import Tx.
From S2P Require Import ZkTx.
From S2P Require Import StateQuiet.
From S2P Require Import ZkQuiet.
From S2P Require Import Merkle.
From S2P Require Import Header.
From S2P Require Import Snapshot.
From S2P Require Import HeaderRules.
From S2P Require Import Engine.
From S2P Require Import ChainDB.
From S2P Require Import Blockchain.
From S2P Require Import BlockchainProofs.
From S2P Require Import ChainImport.
From S2P Require Import BlockProcessor.

Section Start.
Context `{TE : TxEnv} `{HA : HashEnv} `{HE : HeaderEnv} `{MK : MerkleEnv} `{BE : BlockEnv} `{PR : Processor} `{CP : ChainParams}.
Context `{GN : GenesisBlock} `{CM : CommitEnv}.
Variable genesisTrie : gmap string Account.

Local Abbreviation imported := (imported genesisTrie).
Local Abbreviation executed := (executed genesisTrie).

(** ** Opening a database *)

Lemma GetHeader_reads s hash n : stored (bc_db s) -> cached s ->
  exists r s', GetHeader hash n s = (Ret r, s') /\ reads s s' /\ cached s'.
Proof.
  intros SD CA. unfold GetHeader. rewrite bind_get. destruct (hc_headerCache s !! hash); [by eexists _, s|].
  destruct (db_headers (bc_db s) !! (n, hash)) as [h|] eqn:E; [|by exists None, s].
  rewrite bind_modify. eexists _, _. split; [done|]. split; [by split|].
  destruct CA as [C1 C2 C3 C4]. split; [done| |done|done]. intros hash' h' H.
  change (<[hash := h]> (hc_headerCache s) !! hash' = Some h') in H.
  destruct (decide (hash = hash')) as [<-|Hne]; [|rewrite lookup_insert_ne in H by done; by apply C2].
  rewrite lookup_insert_eq in H. injection H as <-.
  destruct (stored_header _ _ _ _ SD E) as (b&Hb&Eb). by exists n, b.
Qed.

Lemma GetHeader_found s hash n h : db_headers (bc_db s) !! (n, hash) = Some h -> exists h', (GetHeader hash n s).1 = Ret (Some h').
Proof. intros H. unfold GetHeader. rewrite bind_get. destruct (hc_headerCache s !! hash) as [h'|]; [by exists h'|]. rewrite H. by exists h. Qed.

Lemma GetHeaderByHash_reads s hash : stored (bc_db s) -> cached s ->
  exists r s', GetHeaderByHash hash s = (Ret r, s') /\ reads s s' /\ cached s'.
Proof.
  intros SD CA. unfold GetHeaderByHash. destruct (GetBlockNumber_reads s CA hash) as (n&s1&E1&R1&C1&_).
  rewrite (bind_eq _ _ _ _ _ E1). pose proof (rd_db _ _ R1) as Ed1.
  destruct (GetHeader_reads s1 hash n) as (h&s2&E2&R2&C2); [by rewrite Ed1|done|].
  exists h, s2. split_and!; [done|by etrans|done].
Qed.

(** A lookup that is skipped for the zero hash. *)
Lemma unless_zero {X} hash (m : M BlockChain (option X)) s :
  (exists r s', m s = (Ret r, s') /\ reads s s' /\ cached s') -> cached s ->
  exists r s', (if bool_decide (hash = zeroHash) then ret None else m) s = (Ret r, s') /\ reads s s' /\ cached s'.
Proof. intros H CA. case_bool_decide; [by exists None, s|done]. Qed.

(** The database has genesis at number zero, and a head. *)
Record openable (d : ChainDB) (head : Block) : Prop := {
  op_stored : stored d;
  op_executed : executed d;
  op_head : inDB d head;
  op_headBlock : db_headBlock d = bhash head;
  op_genesis : db_canonical d !! 0 = Some (bhash genesis);
  op_nonzero : bhash genesis <> zeroHash;
}.

Lemma NewHeaderChain_runs d head : openable d head -> exists s, NewHeaderChain (openDB d) = (Ret true, s) /\
  reads (openDB d) s /\ cached s.
Proof.
  intros [SD EX Hin Eh Eg Hz]. unfold NewHeaderChain.
  assert (cached (openDB d)) as C0 by (split; intros ? ? H; cbn in H; by rewrite lookup_empty in H).
  assert (dbCanonicalHash d 0 = bhash genesis) as Ec by (unfold dbCanonicalHash; by rewrite Eg).
  assert (exists h, db_headers d !! (0, bhash genesis) = Some h) as [h0 Eh0].
  { pose proof (proj1 (sd_genesis d SD)) as H. unfold dbBlock in H. by destruct (db_headers d !! (0, bhash genesis)) as [h|]; [exists h|]. }
  assert (exists h s1, GetHeaderByNumber 0 (openDB d) = (Ret (Some h), s1) /\ reads (openDB d) s1 /\ cached s1) as (h&s1&E1&R1&C1).
  { unfold GetHeaderByNumber. rewrite bind_get. cbv zeta. change (bc_db (openDB d)) with d. rewrite Ec, bool_decide_false by done.
    destruct (GetHeader_reads (openDB d) (bhash genesis) 0 SD C0) as (r&s1&E1&R1&C1).
    destruct (GetHeader_found (openDB d) (bhash genesis) 0 h0 Eh0) as [h Eh']. rewrite E1 in Eh'. injection Eh' as ->. by exists h, s1. }
  rewrite (bind_eq _ _ _ _ _ E1), bind_modify, bind_get. cbv zeta. set (s2 := s1 <| hc_currentHeader := h |>).
  assert (cached s2) as C2 by by apply (cached_same s1). assert (reads (openDB d) s2) as R2 by by destruct R1.
  destruct (unless_zero (db_headBlock (bc_db s2)) (GetHeaderByHash (db_headBlock (bc_db s2))) s2) as (r&s3&E3&R3&C3); [|done|].
  { apply GetHeaderByHash_reads; [|done]. by rewrite (rd_db _ _ R2). }
  rewrite (bind_eq _ _ _ _ _ E3). destruct r as [h'|]; [|exists s3; split_and!; [done|by etrans|done]].
  rewrite bind_modify. eexists. split; [reflexivity|]. split; [|by apply (cached_same s3)].
  transitivity s3; [by etrans|done].
Qed.

(** Opening a chain comes down to loading the heads. *)
Lemma NewBlockChain_loads d head : openable d head -> exists s, reads (openDB d) s /\ cached s /\
  NewBlockChain d = match loadLastState s with (Ret true, s') => Some s' | _ => None end.
Proof.
  intros Ho. destruct (NewHeaderChain_runs d head Ho) as (s1&E1&R1&C1). destruct Ho as [SD EX Hin Eh Eg Hz].
  assert (dbCanonicalHash d 0 = bhash genesis) as Ec by (unfold dbCanonicalHash; by rewrite Eg).
  pose proof (rd_db _ _ R1) as Ed1. change (bc_db (openDB d)) with d in Ed1.
  destruct (GetBlock_reads s1) with (hash := bhash genesis) (n := 0) as (r&s2&E2&R2&C2&_&H1); [by rewrite Ed1|done|].
  rewrite Ed1 in H1. rewrite (H1 genesis (proj1 (sd_genesis d SD))) in E2.
  assert (GetBlockByNumber 0 s1 = (Ret (Some genesis), s2)) as E2'.
  { unfold GetBlockByNumber. rewrite bind_get. cbv zeta. by rewrite Ed1, Ec, bool_decide_false. }
  exists s2. split_and!; [by etrans|done|]. unfold NewBlockChain. rewrite (bind_eq _ _ _ _ _ E1). cbn [negb]. by rewrite (bind_eq _ _ _ _ _ E2').
Qed.

(** What opening a chain may change of the database. *)
Definition reopened (d d' : ChainDB) : Prop := d' = d <| db_headHeader := db_headHeader d' |>.

Lemma reopened_same d d' : reopened d d' -> same_blocks d d' /\ db_states d' = db_states d /\
  db_canonical d' = db_canonical d /\ db_headBlock d' = db_headBlock d.
Proof. intros ->. done. Qed.

Lemma GetTd_skips s hash n {X} (k : M BlockChain X) : stored (bc_db s) -> cached s -> exists s', reads s s' /\ cached s' /\
  (GetTd hash n ;; k) s = k s'.
Proof.
  intros SD CA. destruct (GetTd_reads s SD CA hash n) as (r&s'&E&R&C&_). exists s'. split_and!; [done|done|].
  by rewrite (bind_eq _ _ _ _ _ E).
Qed.

Lemma loadLastState_runs d head s : openable d head -> reads (openDB d) s -> cached s ->
  if decide (bhash head = zeroHash) then (loadLastState s).1 = Ret false
  else exists s', loadLastState s = (Ret true, s') /\ reopened d (bc_db s') /\ bc_currentBlock s' = head /\
    bc_futureBlocks s' = ∅ /\ cached s'.
Proof.
  intros [SD EX Hin Eh Eg Hz] R CA. pose proof (rd_db _ _ R) as Ed. change (bc_db (openDB d)) with d in Ed.
  unfold loadLastState. rewrite bind_get. cbv zeta. rewrite Ed, Eh. case_decide as Ez; [by rewrite bool_decide_true|].
  rewrite bool_decide_false by done.
  destruct (GetBlockByHash_reads s (bhash head)) as (r1&s1&E1&R1&C1&_&H1); [by rewrite Ed|done|].
  rewrite Ed in H1. rewrite (H1 _ _ Hin) in E1. rewrite (bind_eq _ _ _ _ _ E1). pose proof (rd_db _ _ R1) as Ed1. rewrite Ed in Ed1.
  destruct (EX head Hin) as (t&_&Ht). rewrite bool_decide_true by by exists t. cbn [negb]. rewrite bind_modify.
  set (s2 := s1 <| bc_currentBlock := head |>). assert (cached s2) as C2 by by apply (cached_same s1).
  assert (bc_db s2 = d) as Ed2 by exact Ed1.
  destruct (unless_zero (db_headHeader d) (GetHeaderByHash (db_headHeader d)) s2) as (h&s3&E3&R3&C3); [|done|].
  { apply GetHeaderByHash_reads; [by rewrite Ed2|done]. }
  rewrite (bind_eq _ _ _ _ _ E3). pose proof (rd_db _ _ R3) as Ed3. rewrite Ed2 in Ed3.
  set (h' := default (CopyHeader (b_header head)) h). clearbody h'.
  assert (exists s4, SetCurrentHeader h' s3 = (Ret tt, s4) /\ reopened d (bc_db s4) /\ bc_currentBlock s4 = head /\
    bc_futureBlocks s4 = ∅ /\ cached s4) as (s4&E4&D4&B4&F4&C4).
  { eexists. split; [reflexivity|]. split_and!; [by unfold reopened; cbn; rewrite Ed3|exact (rd_head _ _ R3)| |by apply (cached_same s3)].
    etrans; [exact (rd_future _ _ R3)|]. etrans; [exact (rd_future _ _ R1)|exact (rd_future _ _ R)]. }
  rewrite (bind_eq _ _ _ _ _ E4). destruct (reopened_same _ _ D4) as (S4&St4&_).
  assert (stored (bc_db s4)) as SD4 by (apply (stored_same d); [done|rewrite St4; apply SD|done]).
  destruct (unless_zero (db_headFast d) (GetBlockByHash (db_headFast d)) s4) as (f&s5&E5&R5&C5); [|done|].
  { destruct (GetBlockByHash_reads s4 (db_headFast d) SD4 C4) as (f&s5&E5&R5&C5&_). by exists f, s5. }
  rewrite (bind_eq _ _ _ _ _ E5), bind_modify. set (fast := default head f). clearbody fast.
  set (s6 := s5 <| bc_currentFastBlock := fast |>). assert (cached s6) as C6 by by apply (cached_same s5).
  assert (reads s4 s6) as R6 by by destruct R5.
  assert (forall x, reads s4 x -> stored (bc_db x)) as Hst by (intros x Rx; by rewrite (rd_db _ _ Rx)).
  destruct (GetTd_skips s6 (hdr_hash h') (hnum h') (GetTd (bhash head) (bnum head) ;; GetTd (bhash fast) (bnum fast) ;; ret true))
    as (s7&R7&C7&->); [by apply Hst|done|].
  destruct (GetTd_skips s7 (bhash head) (bnum head) (GetTd (bhash fast) (bnum fast) ;; ret true)) as (s8&R8&C8&->); [apply Hst; by etrans|done|].
  destruct (GetTd_skips s8 (bhash fast) (bnum fast) (ret true)) as (s9&R9&C9&->); [apply Hst; transitivity s7; [by etrans|done]|done|].
  assert (reads s4 s9) as [Ed9 Eb9 Ef9] by (transitivity s6; [done|]; transitivity s7; [done|by etrans]).
  exists s9. split_and!; [done|by rewrite Ed9|by rewrite Eb9|by rewrite Ef9|done].
Qed.

Lemma NewBlockChain_runs d head : openable d head ->
  if decide (bhash head = zeroHash) then NewBlockChain d = None
  else exists s, NewBlockChain d = Some s /\ reopened d (bc_db s) /\ bc_currentBlock s = head /\
    bc_futureBlocks s = ∅ /\ cached s.
Proof.
  intros Ho. destruct (NewBlockChain_loads d head Ho) as (s&R&C&->). pose proof (loadLastState_runs d head s Ho R C) as H.
  case_decide; [by destruct (loadLastState s) as [o s']; cbn in H; subst|]. destruct H as (s'&->&H). by exists s'.
Qed.

(** Every block of the database descends from genesis. *)
Lemma descends d b : stored d -> inDB d b -> ancestor d b genesis.
Proof.
  intros SD. remember (Z.to_nat (bnum b)) as n eqn:En. revert b En. induction n as [|n IH]; intros b En Hb.
  - assert (bnum b = 0) as E0 by (pose proof (bnum_range b); lia). unfold inDB in Hb. rewrite E0 in Hb.
    rewrite (sd_zero d SD _ _ Hb). exists []. constructor.
  - destruct (inDB_parent d SD b Hb) as [p Hp]; [lia|]. destruct (parent_inDB d SD _ _ Hp) as (Hin&_&Hn).
    destruct (IH p) as [bs Hbs]; [lia|done|]. exists (b :: bs). by econstructor.
Qed.

Lemma imported_openable s : bhash genesis <> zeroHash -> imported s -> openable (bc_db s) (bc_currentBlock s).
Proof.
  intros Hz [[SD CA [H1 H2 H3 H4]] EX]. split; try done.
  pose proof (H2 genesis (descends _ _ SD H1)) as H. by rewrite genesis_zero in H.
Qed.

Lemma reopened_imported s s' : imported s -> reopened (bc_db s) (bc_db s') -> bc_currentBlock s' = bc_currentBlock s ->
  cached s' -> imported s'.
Proof.
  intros [[SD CA HD] EX] D Eb C. destruct (reopened_same _ _ D) as (S&St&Ec&Eh). split; [split|].
  - apply (stored_same (bc_db s)); [done|rewrite St; apply SD|done].
  - done.
  - by apply (headed_same s).
  - intros b Hb. rewrite St. destruct (EX b) as (t&H1&H2); [by apply (same_inDB _ _ b S)|]. exists t.
    split; [by eapply stateOf_same|done].
Qed.

Lemma NewBlockChain_imported s : bhash genesis <> zeroHash -> imported s ->
  if decide (bhash (bc_currentBlock s) = zeroHash) then NewBlockChain (bc_db s) = None
  else exists s', NewBlockChain (bc_db s) = Some s' /\ imported s' /\ reopened (bc_db s) (bc_db s') /\
    bc_currentBlock s' = bc_currentBlock s /\ bc_futureBlocks s' = ∅.
Proof.
  intros Hz Him. pose proof (NewBlockChain_runs _ _ (imported_openable s Hz Him)) as H. case_decide; [done|].
  destruct H as (s'&E&D&Eb&Ef&C). exists s'. split_and!; [done|by apply (reopened_imported s)|done|done|done].
Qed.

(** ** The database of a genesis block *)

Lemma ToBlock_runs g b st : ToBlock g (New ∅) = (Ret b, st) -> clean st /\ settled st /\ proper b /\
  hd_Root (b_header b) = trieRoot (sdb_trie st) /\ exists e s0, IntermediateRoot e s0 = (Ret tt, st) /\ settled s0 /\ e = false.
Proof.
  unfold ToBlock. intros ([]&s1&E1&H)%bind_inv. apply bind_inv in H as ([]&s2&E2&H). rewrite bind_get in H. cbv zeta in H.
  assert (tamed nowhere [] ∅ (for_each (gs_Alloc g) allocate)) as Ht.
  { apply tame_for_each, Forall_true. intros [a acc]. unfold allocate. apply tame_seq; [apply tame_AddBalance|]. intros _.
    apply tame_seq; [apply tame_SetCode|]. intros _. apply tame_seq; [apply tame_SetNonce|]. intros _. apply tame_SetCMT. }
  pose proof (tame_runs nowhere [] ∅ _ _ Ht (cl_calm _ (New_clean _))) as C1. rewrite E1 in C1.
  destruct (IntermediateRoot_clean _ _ _ _ _ _ C1 E2) as [C2 _].
  assert (settled s1) as S1 by (intros a o Ho Hs; destruct (cm_objects _ _ _ _ C1 a o Ho) as [Hn _]; congruence).
  unfold NewBlock in H. rewrite decide_True in H by done. destruct EmptyTxRootHash as [th|]; [|done].
  cbn [mbind option_bind] in H. injection H as <- <-.
  split_and!; [done|by apply clean_settled| |done|by exists false, s1]. split; [done|done|by constructor].
Qed.

Lemma Commit_runs g st : ToBlock g (New ∅) = (Ret genesis, st) ->
  Commit g = Some ((addBlock genesis (default 0 (gs_Difficulty g)) (dbWriteState (sdb_trie st) emptyDB))
    <| db_receipts ::= <[(bnum genesis, bhash genesis) := []]> |> <| db_canonical ::= <[bnum genesis := bhash genesis]> |>
    <| db_headBlock := bhash genesis |> <| db_headHeader := bhash genesis |>).
Proof.
  intros E. destruct (ToBlock_runs _ _ _ E) as (_&_&_&_&e&s0&E0&S0&->).
  unfold Commit. rewrite E. assert ((bnum genesis =? 0) = true) as -> by by rewrite genesis_zero. cbn [negb].
  destruct (CommitTo_flushed false st) as [st' ->]; [by eapply IntermediateRoot_flushed|]. reflexivity.
Qed.

Lemma addBlock_only d b td hash n x : proper b -> (forall hash n, dbBlock d hash n = None) ->
  dbBlock (addBlock b td d) hash n = Some x <-> n = bnum b /\ hash = bhash b /\ x = b.
Proof.
  intros Hp Hd. rewrite addBlock_dbBlock by done. case_decide as E.
  - injection E as -> ->. split; [by intros [= <-]|by intros (_&_&->)].
  - rewrite Hd. split; [done|]. intros (->&->&_). by destruct E.
Qed.

Lemma genesis_stored t td : proper genesis -> trieRoot t = hd_Root (b_header genesis) ->
  stored (addBlock genesis td (dbWriteState t emptyDB)).
Proof.
  intros Hp Hr. set (d := dbWriteState t emptyDB). assert (forall hash n, dbBlock d hash n = None) as Hd by (intros; unfold dbBlock; cbn; by rewrite lookup_empty).
  pose proof (fun hash n x => addBlock_only d genesis td hash n x Hp Hd) as Hb.
  assert (dbBlock (addBlock genesis td d) (bhash genesis) (bnum genesis) = Some genesis) as Hg by by apply Hb.
  split.
  - intros hash n h H. change (<[(bnum genesis, bhash genesis) := CopyHeader (b_header genesis)]> (db_headers emptyDB) !! (n, hash) = Some h) in H.
    destruct (decide ((bnum genesis, bhash genesis) = (n, hash))) as [[= <- <-]|Hne]; [by exists genesis|].
    rewrite lookup_insert_ne in H by done. cbn in H. by rewrite lookup_empty in H.
  - intros hash n b (->&->&->)%Hb. split_and!; [done|done|done|]. rewrite addBlock_number. by rewrite decide_True.
  - intros hash n. rewrite addBlock_number. case_decide as E; [|cbn; by rewrite lookup_empty]. intros [= <-]. subst hash. by exists genesis.
  - intros hash n td'. rewrite addBlock_td. case_decide as E; [|cbn; by rewrite lookup_empty]. injection E as -> ->. intros _. by exists genesis.
  - rewrite <- genesis_zero. split; [done|]. exists td. apply addBlock_td_of.
  - intros hash b (_&_&->)%Hb. done.
  - intros hash n b (->&->&->)%Hb Hn. by rewrite genesis_zero in Hn.
  - intros root t' H. change (<[trieRoot t := t]> (db_states emptyDB) !! root = Some t') in H.
    destruct (decide (trieRoot t = root)) as [<-|Hne]; [rewrite lookup_insert_eq in H; by injection H as <-|].
    rewrite lookup_insert_ne in H by done. cbn in H. by rewrite lookup_empty in H.
Qed.

(** A chain over the database of a genesis block can be opened, and is sound. *)
Lemma Commit_imported g st : ToBlock g (New ∅) = (Ret genesis, st) -> sdb_trie st = genesisTrie -> bhash genesis <> zeroHash ->
  exists d s, Commit g = Some d /\ NewBlockChain d = Some s /\ imported s /\ bc_futureBlocks s = ∅.
Proof.
  intros E Et Hz. pose proof (Commit_runs _ _ E) as Ec. destruct (ToBlock_runs _ _ _ E) as (_&_&Hp&Hr&_). rewrite Et in *.
  set (td := default 0 (gs_Difficulty g)) in Ec. set (d0 := addBlock genesis td (dbWriteState genesisTrie emptyDB)) in Ec.
  lazymatch type of Ec with _ = Some ?x => set (d := x) in Ec end.
  assert (stored d0) as S0 by by apply genesis_stored. assert (same_blocks d0 d) as S by done.
  assert (stored d) as SD by (apply (stored_same d0); [done|apply S0|done]).
  assert (forall b, inDB d b -> b = genesis) as Honly.
  { intros b Hb. apply (same_inDB d0 d b S) in Hb. apply addBlock_only in Hb as (_&_&?); [done|done|].
    intros; unfold dbBlock; cbn; by rewrite lookup_empty. }
  pose proof (genesis_inDB d SD) as Hg.
  assert (executed d) as EX.
  { intros b ->%Honly. exists genesisTrie. split; [constructor|]. rewrite Hr. exact (lookup_insert_eq _ _ _). }
  assert (db_canonical d !! 0 = Some (bhash genesis)) as Hcan by (rewrite <- genesis_zero; exact (lookup_insert_eq _ _ _)).
  pose proof (NewBlockChain_runs d genesis) as H. rewrite decide_False in H by done.
  destruct H as (s&En&D&Eb&Ef&C); [by split|]. exists d, s. split_and!; [done|done| |done].
  set (s0 := (openDB d) <| bc_currentBlock := genesis |>). assert (bc_db s0 = d) as Es0 by done.
  assert (bc_currentBlock s0 = genesis) as Bs0 by done. apply (reopened_imported s0); [|done|done|done].
  split; [split|]; rewrite ?Es0; [done|by split; intros ? ? H; cbn in H; rewrite lookup_empty in H| |done].
  split; rewrite ?Es0, ?Bs0; [done| | |done].
  - intros a [bs Ha]. inversion Ha as [|? p ? ? Hpar]; subst; [by rewrite genesis_zero|].
    destruct (parent_inDB d SD _ _ Hpar) as (_&_&Hn). rewrite genesis_zero in Hn. pose proof (bnum_range p). lia.
  - intros b t t' ->%Honly H H'. rewrite H in H'. injection H' as ->. lia.
Qed.
End Start.
