(* ===== verification/ChainSafety.v ===== *)
(** * ChainSafety: what holds of the chain at every time

    The import of requests, the blocks set aside for later, the loss of cached
    entries and restarts, as steps of a node; and the invariant they keep. *)
From S2P Require Import Prelude.
From S2P Require Import Messages.
From S2P Require Import StateDB.
From S2P Require Import StateRoot.
From S2P Require Import Tx.
From S2P Require Import ZkTx.
From S2P Require Import Merkle.
From S2P Require Import Header.
From S2P Require Import Snapshot.
From S2P Require Import HeaderRules.
From S2P Require Import Engine.
From S2P Require Import ChainDB.
From S2P Require Import Blockchain.
From S2P Require Import BlockchainProofs.
From S2P Require Import ChainImport.

(** A header above genesis that is accepted without earlier ones has its parent in the
    chain. *)
Lemma verifyHeader_parent `{TE : TxEnv} `{HA : HashEnv} `{HE : HeaderEnv} `{CE : ChainEnv} h en en' :
  verifyHeader h [] en = (Ret None, en') -> hnum h <> 0 ->
  exists p, chain_GetHeader (hd_ParentHash h) (hnum h - 1) = Some p /\ hnum p = hnum h - 1.
Proof.
  unfold verifyHeader. destruct (verifyStandalone h); [done|]. unfold verifyCascadingFields. cbv zeta. cbn [List.rev].
  destruct (Z.eqb_spec (hnum h) 0); [done|]. destruct (chain_GetHeader _ _) as [p|]; [|done].
  destruct (negb (hnum p =? hnum h - 1)) eqn:E; [done|]. intros _ _. exists p. split; [done|].
  apply negb_false_iff in E. lia.
Qed.

Section Safety.
Context `{TE : TxEnv} `{HA : HashEnv} `{HE : HeaderEnv} `{MK : MerkleEnv} `{BE : BlockEnv} `{PR : Processor} `{CP : ChainParams}.
Context `{GN : GenesisBlock} `{PL : !ProcessorLaws} `{GR : GoRange}.
Variable genesisTrie : gmap string Account.
Context (RO : roots_ok genesisTrie).

Local Abbreviation imported := (imported genesisTrie).
Local Abbreviation progressed := (progressed genesisTrie).

(** ** The engine over the chain *)

Lemma readHeader_ok t s : stored (bc_db s) -> cached s -> chain_ok (CE := chainEnv t s).
Proof.
  intros SD CA hash n h H. destruct (readHeader_block s SD CA hash n h H) as (n'&b&Hb&Eh).
  destruct (dbBlock_inDB _ SD _ _ _ Hb) as (_&<-&_). unfold bhash. by rewrite Eh.
Qed.

(** The snapshots of the engine depend on genesis only. *)
Definition engine_ok (en : Engine) : Prop := forall t s, coherent (CE := chainEnv t s) en.

Lemma coherent_ok t s en : coherent (CE := chainEnv t s) en -> engine_ok en.
Proof. intros [H1 H2 H3] t' s'. split; [exact H1|exact H2|exact H3]. Qed.

(** ** Requests *)

(** A request that the theorems are about. *)
Record request (d : ChainDB) (bs : list Block) : Prop := {
  rq_blocks : Forall request_ok bs;
  rq_apart : told_apart d bs;
}.

(** Blocks with new hashes are told apart. *)
Lemma told_apart_fresh d bs : NoDup (map bhash bs) -> map_Forall (fun k _ => k.2 ∉ map bhash bs) (db_headers d) ->
  told_apart d bs.
Proof.
  intros Hn Hf. right. intros a b Ha Hb Eh. destruct Hb as [Hb|Hb].
  - apply list_elem_of_lookup in Ha as [i Hi], Hb as [j Hj].
    assert (j = i) as ->; [|rewrite Hi in Hj; by injection Hj as ->].
    apply (NoDup_lookup (bhash <$> bs) j i (bhash b)); [done| |]; rewrite list_lookup_fmap; [by rewrite Hj|rewrite Hi; cbn; by rewrite Eh].
  - unfold inDB, dbBlock in Hb. destruct (db_headers d !! (bnum b, bhash b)) as [h|] eqn:E; [|done].
    destruct (Hf _ _ E). cbn. rewrite Eh. by apply list_elem_of_fmap_2.
Qed.

Record node_ok (nd : Node) : Prop := {
  no_imported : imported (nd_chain nd);
  no_engine : engine_ok (nd_engine nd);
  no_future : map_Forall (fun _ b => request_ok b) (bc_futureBlocks (nd_chain nd));
}.

Lemma verified_parent t s en hs b rs en' : stored (bc_db s) -> cached s -> request_ok b ->
  verifyHeaders (CE := chainEnv t s) [] (CopyHeader (b_header b) :: hs) en = (Ret (None :: rs), en') ->
  is_Some (parent_of (bc_db s) b).
Proof.
  intros SD CA [E Hn] H. cbn [verifyHeaders] in H. apply bind_inv in H as (r&en1&E1&H).
  apply bind_inv in H as (rs'&en2&_&H). injection H as -> _ _.
  assert (hnum (CopyHeader (b_header b)) <> 0) as Hn' by done.
  destruct (verifyHeader_parent _ _ _ E1 Hn') as (p&Hp&Ep).
  destruct (readHeader_block s SD CA _ _ _ Hp) as (n&q&Hq&Eq).
  destruct (dbBlock_inDB _ SD _ _ _ Hq) as (_&_&Enq). exists q. unfold parent_of.
  assert (bnum q = bnum b - 1) as <-; [|by rewrite Enq].
  unfold bnum at 1. rewrite Eq. exact Ep.
Qed.

Lemma zip_fst {A B} (l : list A) (k : list B) : length k = length l -> (zip l k).*1 = l.
Proof. intros H. apply fst_zip. by rewrite H. Qed.

Lemma InsertChain_runs t coin bs nd : node_ok nd -> request (bc_db (nd_chain nd)) bs ->
  let r := InsertChain t coin bs nd in
  node_ok r.2 /\ extends (bc_db (nd_chain nd)) (bc_db (nd_chain r.2)) /\ r.1 <> OutOfFuel.
Proof.
  intros [Him Hen Hfu] [Hrq Ht] r. subst r. unfold InsertChain. destruct (negb (contiguousBlocks bs)) eqn:Ec.
  { split_and!; [done|apply extends_refl|done]. }
  apply negb_false_iff in Ec. rewrite bind_get. destruct nd as [s en]. cbn [nd_chain nd_engine] in *.
  pose proof (sc_stored s (im_sound _ s Him)) as SD. pose proof (sc_cached s (im_sound _ s Him)) as CA.
  set (hs := map (fun b => CopyHeader (b_header b)) bs).
  destruct (verifyHeaders_runs (CE := chainEnv t s) en [] hs (readHeader_ok t s SD CA) (Hen t s)) as (rs&en'&Ev&Hen'&Hl).
  assert (length rs = length bs) as Hlen by (rewrite Hl; apply length_map).
  assert (onEngine (VerifyHeaders (CE := chainEnv t s) hs) (mkNode s en) = (Ret rs, mkNode s en')) as E1
    by (unfold onEngine, VerifyHeaders; cbn [nd_engine]; by rewrite Ev).
  rewrite (bind_eq _ _ _ _ _ E1).
  destruct (importLoop_runs _ RO t coin 0 None (zip bs rs) s) as [P F]; [done| | | | |].
  - by rewrite zip_fst.
  - destruct bs as [|b bs]; [done|]. destruct rs as [|r rs]; [done|]. cbn [zip zip_with linked_to]. intros ->.
    apply Forall_cons in Hrq as [Hb _]. by eapply (verified_parent t s en _ b rs).
  - by rewrite zip_fst.
  - by rewrite zip_fst.
  - rewrite zip_fst in P by done. unfold onChain. cbn [nd_chain].
    destruct (importLoop t coin 0 None (zip bs rs) s) as [o s']. cbn [fst snd] in *.
    destruct P as [P1 P2 P3]. split_and!; [|done|done]. split; [done|by eapply coherent_ok|].
    intros hash x Hx. destruct (P3 _ _ Hx) as [Hx'|Hx']; [by eapply Hfu|].
    rewrite Forall_forall in Hrq. by apply Hrq.
Qed.

(** The blocks that were set aside come back one by one. *)
Lemma procFutureBlocks_runs t coin nd : node_ok nd ->
  let r := procFutureBlocks t coin nd in
  node_ok r.2 /\ extends (bc_db (nd_chain nd)) (bc_db (nd_chain r.2)) /\ r.1 <> OutOfFuel.
Proof.
  intros Hnd r. subst r. unfold procFutureBlocks. rewrite bind_get. cbv zeta. set (blocks := merge_sort _ _).
  assert (Forall request_ok blocks) as Hb.
  { unfold blocks. rewrite merge_sort_Permutation. apply Forall_fmap. rewrite Forall_forall. intros [hash b] H.
    apply go_range_elem in H. by apply (no_future nd Hnd hash b). }
  assert (forall l nd0, Forall request_ok l.*2 -> node_ok nd0 ->
    let r := for_each l (fun e => InsertChain t (fun _ => coin e.1) [e.2] ;; ret tt) nd0 in
    node_ok r.2 /\ extends (bc_db (nd_chain nd0)) (bc_db (nd_chain r.2)) /\ r.1 <> OutOfFuel) as H.
  { induction l as [|[i b] l IH]; intros nd0 Hl Hn0; [split_and!; [done|apply extends_refl|done]|].
    apply Forall_cons in Hl as [Hb0 Hl]. cbn [for_each fst snd].
    destruct (InsertChain_runs t (fun _ => coin i) [b] nd0 Hn0) as (N1&X1&F1); [split; [by constructor|by left]|].
    destruct (InsertChain t (fun _ => coin i) [b] nd0) as [o nd1] eqn:E. cbn [fst snd] in *.
    destruct o as [e| |]; [|rewrite (bind_panic _ _ _ _ (bind_panic _ _ _ _ E)); by split_and!|done].
    assert ((InsertChain t (fun _ => coin i) [b] ;; ret tt) nd0 = (Ret tt, nd1)) as E' by (rewrite (bind_eq _ _ _ _ _ E); done).
    rewrite (bind_eq _ _ _ _ _ E'). destruct (IH nd1 Hl N1) as (N2&X2&F2). split_and!; [done|by eapply extends_trans|done]. }
  apply H; [|done]. rewrite snd_zip; [done|]. by rewrite length_seq.
Qed.

(** ** Blocks of the miner *)

(** The miner has executed the block over the state of its parent, which is in the
    chain, and has the state that this leaves. *)
Record made (d : ChainDB) (b : Block) (st : StateDB) : Prop := {
  md_proper : proper b;
  md_fresh : ~ known d (bhash b);
  md_number : bnum b <> 0;
  md_executed : exists p t receipts gas st0, parent_of d b = Some p /\ stateOf genesisTrie d p t /\
    process b (New t) = (Ret (inr (receipts, gas)), st0) /\
    ValidateState (isEIP158 b) b receipts gas st0 = (Ret None, st);
}.

Lemma commitMined_runs coin b st s : imported s -> made (bc_db s) b st ->
  exists s', commitMined coin b st s = (Ret true, s') /\ advanced genesisTrie b s s' /\ inDB (bc_db s') b.
Proof.
  intros Him [Hp Hf Hn (p&t&receipts&gas&st0&Hpar&Hst&Eproc&Eval)]. unfold commitMined.
  assert (execute b t = Some (sdb_trie st)) as Hex by (unfold execute; by rewrite Eproc, Eval).
  destruct (ValidateState_inv _ _ _ _ _ _ Eval) as [Ei _].
  destruct (CommitTo_flushed (isEIP158 b) st) as [st3 Ec]; [eapply IntermediateRoot_flushed; [by eapply process_settled|done]|].
  destruct (onState_runs (CommitTo (isEIP158 b)) st s) as (o3&E3&G3&_). rewrite (G3 _ _ Ec) in E3.
  rewrite (bind_eq _ _ _ _ _ E3). cbn [fst]. set (s1 := s <| bc_db ::= dbWriteState (sdb_trie st) |>).
  change (onDB (dbWriteState (sdb_trie st))) with (modify (fun s => s <| bc_db ::= dbWriteState (sdb_trie st) |>)).
  rewrite bind_modify. fold s1.
  destruct (dbWriteState_imported genesisTrie RO (sdb_trie st) s Him) as (Him1&S1&Hdb1). fold s1 in Him1, S1, Hdb1.
  assert (advanced genesisTrie b s s1) as A1.
  { split; [done|by apply same_extends| |by left]. intros hash n x. rewrite (same_dbBlock _ _ _ _ S1). by left. }
  destruct (WriteBlock_imported genesisTrie coin b p t (sdb_trie st) s1) as (w&s2&E2&A2&Hb2); try done; [by eapply stateOf_same|].
  rewrite (bind_eq _ _ _ _ _ E2). pose proof (advanced_trans _ _ _ _ _ A1 A2) as A.
  destruct w; [|by exists s2].
  destruct (WriteTransactions_runs s2 b (pr_hashable _ Hp)) as (s3&E4&R4). rewrite (bind_eq _ _ _ _ _ E4).
  exists s3. split_and!; [done| |apply (same_inDB (bc_db s2)); [apply R4|done]].
  eapply advanced_trans; [exact A|]. apply relooked_advanced; [done|apply A].
Qed.

(** ** Losing cached entries *)

(** The caches are bounded: any of their entries may go, and so may blocks that were
    set aside or reported. *)
Record evicted (s s' : BlockChain) : Prop := {
  ev_db : bc_db s' = bc_db s;
  ev_head : bc_currentBlock s' = bc_currentBlock s;
  ev_numbers : hc_numberCache s' ⊆ hc_numberCache s;
  ev_headers : hc_headerCache s' ⊆ hc_headerCache s;
  ev_tds : hc_tdCache s' ⊆ hc_tdCache s;
  ev_blocks : bc_blockCache s' ⊆ bc_blockCache s;
  ev_future : bc_futureBlocks s' ⊆ bc_futureBlocks s;
}.

Lemma evicted_imported s s' : evicted s s' -> imported s -> imported s'.
Proof.
  intros [Ed Eb N1 N2 N3 N4 _] [[SD [C1 C2 C3 C4] [H1 H2 H3 H4]] EX]. split; [split|]; rewrite ?Ed; [done| | |done].
  - split; rewrite ?Ed; intros k v Hk; eapply lookup_weaken in Hk; [by apply C1|done|by apply C2|done|by apply C3|done|by apply C4|done].
  - split; by rewrite ?Ed, ?Eb.
Qed.
End Safety.
