(* ===== verification/ChainReach.v ===== *)
(** * ChainReach: the states a node can reach

    A node starts over the database of its genesis block.  It imports requests, takes
    up blocks it has set aside, commits blocks of its own, loses cached entries and
    is restarted, in any order.  What its chain is worth at every time. *)
From S2P Require Import Prelude.
From S2P Require Import Messages.
From S2P Require Import StateDB.
From S2P Require Import StateRoot.
From S2P Require Import Tx.
From S2P Require Import ZkTx.
From S2P Require Import ZkSafety.
From S2P Require Import ZkQuiet.
From S2P Require Import Merkle.
From S2P Require Import Header.
From S2P Require Import Snapshot.
From S2P Require Import HeaderRules.
From S2P Require Import Engine.
From S2P Require Import ChainDB.
From S2P Require Import Blockchain.
From S2P Require Import BlockchainProofs.
From S2P Require Import ChainImport.
From S2P Require Import BlockProcessor.
From S2P Require Import ChainStart.
From S2P Require Import ChainSafety.

(** The block that the chain has at every number from one on. *)
Definition canonicalBlocks (d : ChainDB) (n : nat) : option (list Block) :=
  mapM (fun i => dbBlock d (dbCanonicalHash d (Z.of_nat i)) (Z.of_nat i)) (seq 1 n).

(** The weight of a branch above genesis. *)
Definition weight (bs : list Block) : Z := foldr (fun b w => difficulty b + w) 0 bs.

Lemma weight_app bs cs : weight (bs ++ cs) = weight bs + weight cs.
Proof. induction bs as [|b bs IH]; [done|]. unfold weight in *. cbn. rewrite IH. lia. Qed.
Lemma weight_reverse bs : weight (reverse bs) = weight bs.
Proof. induction bs as [|b bs IH]; [done|]. rewrite reverse_cons, weight_app, IH. unfold weight. cbn. lia. Qed.

Section Reach.
Context `{TE : TxEnv} `{HA : HashEnv} `{HE : HeaderEnv} `{MK : MerkleEnv} `{BE : BlockEnv} `{PR : Processor} `{CP : ChainParams}.
Context `{GN : GenesisBlock} `{CM : CommitEnv} `{GR : GoRange}.

(** ** Reading the canonical chain *)

Lemma replay_app t bs cs : replay t (bs ++ cs) = (t' ← replay t bs; replay t' cs).
Proof. revert t. induction bs as [|b bs IH]; intros t; [done|]. cbn. destruct (ChainImport.execute b t); [apply IH|done]. Qed.

Lemma path_replay genesisTrie d b bs t : stored d -> inDB d b -> path d b bs genesis -> stateOf genesisTrie d b t ->
  replay genesisTrie (reverse bs) = Some t.
Proof.
  intros SD Hb Hp. remember genesis as g eqn:Eg. revert Eg t Hb. induction Hp as [b|b p bs g Hpar Hp IH]; intros -> t Hb Hst.
  - inversion Hst as [|? p ? ? Hpar]; subst; [done|]. destruct (parent_inDB d SD _ _ Hpar) as (_&_&Hn).
    rewrite genesis_zero in Hn. pose proof (bnum_range p). lia.
  - destruct (parent_inDB d SD _ _ Hpar) as (Hin&_&Hn).
    inversion Hst as [|? p' t0 ? Hpar' Hst0 Hex]; subst.
    { rewrite genesis_zero in Hn. pose proof (bnum_range p). lia. }
    rewrite Hpar in Hpar'. injection Hpar' as <-. rewrite reverse_cons, replay_app, (IH eq_refl t0 Hin Hst0). cbn. by rewrite Hex.
Qed.

Lemma path_canonical d b bs : stored d -> inDB d b -> canonical d b -> path d b bs genesis ->
  canonicalBlocks d (Z.to_nat (bnum b)) = Some (reverse bs).
Proof.
  intros SD Hb Hc Hp. apply mapM_Some. remember genesis as g eqn:Eg. revert Eg Hb Hc.
  induction Hp as [b|b p bs g Hpar Hp IH]; intros -> Hb Hc; [rewrite genesis_zero; constructor|].
  destruct (parent_inDB d SD _ _ Hpar) as (Hin&_&Hn). pose proof (bnum_range p).
  assert (Z.to_nat (bnum b) = S (Z.to_nat (bnum p))) as -> by lia. rewrite seq_S, reverse_cons.
  apply Forall2_app.
  - apply IH; [done|done|]. intros a [cs Ha]. apply Hc. exists (b :: cs). by econstructor.
  - constructor; [|constructor]. replace (Z.of_nat (1 + Z.to_nat (bnum p))) with (bnum b) by lia.
    unfold dbCanonicalHash. rewrite (Hc b); [done|]. exists []. constructor.
Qed.

Lemma path_td d b bs tg : stored d -> inDB d b -> path d b bs genesis -> td_of d genesis = Some tg ->
  td_of d b = Some (weight bs + tg).
Proof.
  intros SD Hb Hp Htg. remember genesis as g eqn:Eg. revert Eg Hb. induction Hp as [b|b p bs g Hpar Hp IH]; intros -> Hb; [done|].
  destruct (parent_inDB d SD _ _ Hpar) as (Hin&_&Hn). pose proof (bnum_range p).
  destruct (sd_parent d SD _ _ _ Hb) as (p'&td&Hp'&Htd&->); [lia|]. rewrite Hpar in Hp'. injection Hp' as <-.
  rewrite (IH Htg eq_refl Hin) in Htd. injection Htd as <-. change (weight (b :: bs)) with (difficulty b + weight bs). f_equal. lia.
Qed.

(** ** Steps *)

Context `{PL : !ProcessorLaws}.
(** The node was set up with a genesis description, whose block is [genesis]; the
    roots of states tell them apart. *)
Context (g : Genesis) (st : StateDB).
Record setup : Prop := {
  su_block : ToBlock g (New ∅) = (Ret genesis, st);
  su_hash : bhash genesis <> zeroHash;
  su_roots : Inj (=) (=) trieRoot;
}.

Inductive start : Node -> Prop :=
| start_node d s en : Commit g = Some d -> NewBlockChain d = Some s -> engine_ok en -> start (mkNode s en).

(** The steps of a node.  What it imports is a [request], what it mines is [made]: a
    block hash covers three roots only, so that two empty blocks can share one, and the
    chain is not safe from such blocks.  A restart forgets all but the database; what
    the engine does besides verifying headers keeps its caches true. *)
Inductive node_step : Node -> Node -> Prop :=
| ns_insert t coin bs nd : request (bc_db (nd_chain nd)) bs -> node_step nd (InsertChain t coin bs nd).2
| ns_future t coin nd : node_step nd (procFutureBlocks t coin nd).2
| ns_mined coin b stb s en : made (sdb_trie st) (bc_db s) b stb ->
    node_step (mkNode s en) (mkNode (commitMined coin b stb s).2 en)
| ns_evict s s' en : evicted s s' -> node_step (mkNode s en) (mkNode s' en)
| ns_engine s en en' : engine_ok en' -> node_step (mkNode s en) (mkNode s en')
| ns_restart s s' en en' : NewBlockChain (bc_db s) = Some s' -> engine_ok en' -> node_step (mkNode s en) (mkNode s' en').

Definition reachable (nd : Node) : Prop := exists nd0, start nd0 /\ rtc node_step nd0 nd.

Section Invariant.
Context (SU : setup).

Lemma setup_roots : roots_ok (sdb_trie st).
Proof. destruct SU as [E _ Hi]. split; [done|]. by destruct (ToBlock_runs _ _ _ E) as (_&_&_&->&_). Qed.

Lemma start_ok nd : start nd -> node_ok (sdb_trie st) nd.
Proof.
  intros [d s en Ed Es Hen]. destruct (Commit_imported (sdb_trie st) g st (su_block SU) eq_refl (su_hash SU)) as (d'&s'&Ed'&Es'&Him&Hf).
  rewrite Ed in Ed'. injection Ed' as <-. rewrite Es in Es'. injection Es' as <-.
  split; [done|done|]. cbn [nd_chain]. rewrite Hf. apply map_Forall_empty.
Qed.

Lemma made_request d b stb : made (sdb_trie st) d b stb -> request_ok b.
Proof. intros [[] _ ? _]. by split. Qed.

Lemma step_ok nd nd' : node_step nd nd' -> node_ok (sdb_trie st) nd -> node_ok (sdb_trie st) nd'.
Proof.
  pose proof setup_roots as RO. intros [t coin bs nd0 Hrq|t coin nd0|coin b stb s en Hm|s s' en He|s en en' He|s s' en en' E He] Hok.
  - by apply InsertChain_runs.
  - by apply procFutureBlocks_runs.
  - destruct Hok as [Him Hen Hfu]. destruct (commitMined_runs _ RO coin b stb s Him Hm) as (s'&E&A&_). rewrite E.
    split; [apply A|done|]. intros hash x Hx. destruct (av_future _ _ _ _ A _ _ Hx) as [?| ->]; [by eapply Hfu|by eapply made_request].
  - destruct Hok as [Him Hen Hfu]. split; [by eapply evicted_imported|done|].
    intros hash x Hx. apply (Hfu hash). eapply lookup_weaken; [exact Hx|apply He].
  - by destruct Hok; split.
  - destruct Hok as [Him Hen Hfu]. pose proof (NewBlockChain_imported _ s (su_hash SU) Him) as H.
    case_decide; [congruence|]. destruct H as (s0&E0&Him0&_&_&Ef). rewrite E in E0. injection E0 as <-. split; [done|done|]. cbn [nd_chain]. rewrite Ef. apply map_Forall_empty.
Qed.

Lemma reachable_ok nd : reachable nd -> node_ok (sdb_trie st) nd.
Proof.
  intros (nd0&H0%start_ok&Hs). induction Hs as [nd|nd nd1 nd2 Hs _ IH]; [done|]. by apply IH, (step_ok nd).
Qed.

(** The canonical chain of a reachable node. *)
Lemma reachable_chain nd : reachable nd -> let d := bc_db (nd_chain nd) in let head := bc_currentBlock (nd_chain nd) in
  stored d /\ inDB d head /\ exists bs t, path d head bs genesis /\
    canonicalBlocks d (Z.to_nat (bnum head)) = Some (reverse bs) /\
    replay (sdb_trie st) (reverse bs) = Some t /\ db_states d !! hd_Root (b_header head) = Some t.
Proof.
  intros Hr%reachable_ok d head. destruct Hr as [[[SD CA [H1 H2 H3 H4]] EX] _ _]. split_and!; [done|done|].
  destruct (descends d head SD H1) as [bs Hp]. destruct (EX head H1) as (t&Hst&Ht). exists bs, t.
  split_and!; [done|by apply path_canonical|by eapply path_replay|done].
Qed.

Lemma path_last d b bs a : path d b bs a -> last (a :: reverse bs) = Some b.
Proof. destruct 1 as [b|b p bs a _ _]; [done|]. rewrite reverse_cons. change (last ((a :: reverse bs) ++ [b]) = Some b). apply last_snoc. Qed.

Lemma reachable_insert t coin bs nd : reachable nd -> request (bc_db (nd_chain nd)) bs -> reachable (InsertChain t coin bs nd).2.
Proof. intros (nd0&H0&Hs) Hrq. exists nd0. split; [done|]. eapply rtc_r; [exact Hs|by apply ns_insert]. Qed.
End Invariant.

(** C1: in every state that a node reaches from its genesis database, by imports,
    reorganisations, blocks of its own, evictions and restarts, the chain has a block
    at every number up to that of the head, the last of them is the head, and the
    accounts stored for the head are those that the execution of these blocks, one
    after the other, over the accounts of genesis gives.  The steps are those of [node_step]: genesis has a hash other
    than zero and roots tell states apart; the blocks that are imported have complete
    headers and numbers other than zero, and unless there is only one their hashes tell
    them apart, from each other and from those in the database (equal hashes mean equal
    numbers and roots); a block of the node's own has a new hash, a number other than
    zero, and was executed over the state of its parent. *)
Theorem head_state_replayed nd : setup -> reachable nd ->
  let d := bc_db (nd_chain nd) in let head := bc_currentBlock (nd_chain nd) in
  exists bs t, canonicalBlocks d (Z.to_nat (bnum head)) = Some bs /\ last (genesis :: bs) = Some head /\
    replay (sdb_trie st) bs = Some t /\ db_states d !! hd_Root (b_header head) = Some t.
Proof.
  intros SU Hr d head. destruct (reachable_chain SU nd Hr) as (SD&Hin&bs&t&Hp&Hc&Hre&Ht). exists (reverse bs), t.
  split_and!; [done|by eapply path_last|done|done].
Qed.

(** C3: the canonical chain is the heaviest branch: in every state that a node reaches
    by the steps of [node_step], no branch of blocks in its database, from any block
    down to genesis, has a greater sum of difficulties than the blocks that the chain
    has by number.  The steps are limited as for C1: requests with complete headers,
    numbers other than zero and hashes that tell their blocks apart; own blocks with new
    hashes; a genesis hash other than zero, and roots that tell states apart. *)
Theorem head_is_heaviest nd b branch : setup -> reachable nd -> let d := bc_db (nd_chain nd) in
  inDB d b -> path d b branch genesis ->
  exists bs, canonicalBlocks d (Z.to_nat (bnum (bc_currentBlock (nd_chain nd)))) = Some bs /\ weight branch <= weight bs.
Proof.
  intros SU Hr d Hb Hpb. destruct (reachable_chain SU nd Hr) as (SD&Hin&bs&t&Hp&Hc&_). exists (reverse bs).
  split; [done|]. rewrite weight_reverse. destruct (inDB_td _ SD genesis (genesis_inDB _ SD)) as [tg Htg].
  pose proof (path_td _ _ _ tg SD Hb Hpb Htg) as T1. pose proof (path_td _ _ _ tg SD Hin Hp Htg) as T2.
  pose proof (hd_heaviest _ (sc_headed _ (im_sound _ _ (no_imported _ _ (reachable_ok SU nd Hr)))) _ _ _ Hb T1 T2). lia.
Qed.

(** C5: imports end: in a state that a node reaches by the steps of [node_step], limited
    as for C1, [InsertChain] of a request (complete headers, numbers other than zero,
    and hashes that tell the blocks apart) and [procFutureBlocks] return or panic, however
    long the branches are that a reorganisation walks; and no block is ever lost from
    the database.  Without these conditions a reorganisation need not end: two empty
    blocks with one hash send it in a circle. *)
Theorem imports_end nd t coin bs : setup -> reachable nd -> request (bc_db (nd_chain nd)) bs ->
  (InsertChain t coin bs nd).1 <> OutOfFuel /\ (procFutureBlocks t coin nd).1 <> OutOfFuel /\
  forall hash n b, dbBlock (bc_db (nd_chain nd)) hash n = Some b ->
    dbBlock (bc_db (nd_chain (InsertChain t coin bs nd).2)) hash n = Some b /\
    dbBlock (bc_db (nd_chain (procFutureBlocks t coin nd).2)) hash n = Some b.
Proof.
  intros SU Hr Hrq. pose proof (setup_roots SU) as RO. pose proof (reachable_ok SU nd Hr) as Hok.
  destruct (InsertChain_runs _ RO t coin bs nd Hok Hrq) as (_&[X1 _]&F1).
  destruct (procFutureBlocks_runs _ RO t coin nd Hok) as (_&[X2 _]&F2).
  split_and!; [done|done|]. intros hash n b Hb. split; [by apply X1|by apply X2].
Qed.

(** C6: a restart restores the chain: from the database of any state that a node reaches
    by the steps of [node_step], if the hash of its head is not the zero hash,
    [NewBlockChain] opens a chain with the same head block over the same database,
    except that it may have set the head of headers anew.  The steps are limited as for
    C1: requests with complete headers, numbers other than zero and hashes that tell
    their blocks apart; own blocks with new hashes; a genesis hash other than zero, and
    roots that tell states apart. *)
Theorem restart_restores_head nd : setup -> reachable nd -> bhash (bc_currentBlock (nd_chain nd)) <> zeroHash ->
  exists s, NewBlockChain (bc_db (nd_chain nd)) = Some s /\
    bc_db s = (bc_db (nd_chain nd)) <| db_headHeader := db_headHeader (bc_db s) |> /\
    bc_currentBlock s = bc_currentBlock (nd_chain nd).
Proof.
  intros SU Hr Hz. pose proof (reachable_ok SU nd Hr) as [Him _ _].
  pose proof (NewBlockChain_imported _ _ (su_hash SU) Him) as H. rewrite decide_False in H by done.
  destruct H as (s&E&_&Ed&Eb&_). by exists s.
Qed.

(** C4: the numbers of the chain are linked: in every state that a node reaches by the
    steps of [node_step], each number above zero up to that of the head has a block
    whose parent hash is that of the block at the number before; its header is complete,
    it has no uncles, and its total difficulty is stored.  The steps are limited as for
    C1: requests with complete headers, numbers other than zero and hashes that tell
    their blocks apart; own blocks with new hashes; a genesis hash other than zero, and
    roots that tell states apart. *)
Theorem canonical_numbers_linked nd i : setup -> reachable nd -> let d := bc_db (nd_chain nd) in
  0 < i <= bnum (bc_currentBlock (nd_chain nd)) ->
  exists b p, dbBlock d (dbCanonicalHash d i) i = Some b /\ dbBlock d (dbCanonicalHash d (i - 1)) (i - 1) = Some p /\
    hd_ParentHash (b_header b) = bhash p /\ CopyHeader (b_header b) = b_header b /\ b_uncles b = [] /\
    exists td, td_of d p = Some td /\ td_of d b = Some (difficulty b + td).
Proof.
  intros SU Hr d Hi. destruct (reachable_ok SU nd Hr) as [[[SD CA [H1 H2 H3 H4]] EX] _ _]. fold d in SD, H1, H2.
  assert (forall x, inDB d x -> i <= bnum x -> exists b, ancestor d x b /\ inDB d b /\ bnum b = i) as Hanc.
  { intros x. remember (Z.to_nat (bnum x - i)) as n eqn:En. revert x En. induction n as [|n IH]; intros x En Hx Hle.
    - exists x. split_and!; [exists []; constructor|done|lia].
    - destruct (inDB_parent d SD x Hx) as [p Hp]; [lia|]. destruct (parent_inDB d SD _ _ Hp) as (Hin&_&Hn).
      destruct (IH p) as (b&[cs Hcs]&Hb&Eb); [lia|done|lia|]. exists b. split_and!; [exists (x :: cs); by econstructor|done|done]. }
  destruct (Hanc _ H1) as (b&[cs Hb]&Hin&Eb); [lia|].
  destruct (sd_parent d SD _ _ _ Hin) as (p&td&Hp&Htp&Htb); [lia|]. destruct (parent_inDB d SD _ _ Hp) as (Hinp&Ehp&Enp).
  exists b, p. pose proof (H2 b (ex_intro _ cs Hb)) as Cb.
  assert (ancestor d (bc_currentBlock (nd_chain nd)) p) as Hap by (exists (cs ++ [b]); eapply path_trans; [exact Hb|]; econstructor; [done|constructor]).
  pose proof (H2 p Hap) as Cp. destruct (sd_proper d SD _ _ _ Hin) as ([P1 P2 _]&_).
  unfold dbCanonicalHash. replace (i - 1) with (bnum p) by lia. rewrite <- Eb, Cb, Cp. cbn [default from_option].
  split_and!; [done|done|done|done|done|]. by exists td.
Qed.
End Reach.

(** ** Serial numbers on the chain *)

(** The addresses of the serial numbers that blocks use up. *)
Definition chainSNs (bs : list Block) : list string := concat (map (fun b => spentSNs (b_transactions b)) bs).

Section Spent.
Context `{TE : TxEnv} `{HA : HashEnv} `{HE : HeaderEnv} `{MK : MerkleEnv} `{BE : BlockEnv} `{ZE : ZkEnv} `{PC : Processing}.
Context `{GN : GenesisBlock} `{CM : CommitEnv} `{GR : GoRange}.

Lemma replay_spent (mark : string -> Prop) `{CV : !CalmVM mark} `{LZ : !ZkLaws mark} t bs t' :
  Forall (fun b => isEIP158 b = true /\ nonces_ok b) bs -> (forall a, a ∈ chainSNs bs -> mark a) ->
  replay t bs = Some t' ->
  NoDup (chainSNs bs) /\ (forall a, a ∈ chainSNs bs -> ~ trieSpent t a) /\
  forall a, mark a -> trieSpent t a -> trieSpent t' a.
Proof.
  intros Hf. revert t. induction Hf as [|b bs [He Hn] _ IH]; intros t Hm H; cbn [replay] in H.
  { injection H as <-. split_and!; [constructor|by intros a Ha%elem_of_nil|done]. }
  destruct (ChainImport.execute b t) as [t1|] eqn:E; [|done]. cbn [mbind option_bind] in H.
  change (chainSNs (b :: bs)) with (spentSNs (b_transactions b) ++ chainSNs bs) in *.
  destruct (execute_spent mark b t t1 He Hn (fun a Ha => Hm a (proj2 (elem_of_app _ _ _) (or_introl Ha))) E) as (N1&F1&S1).
  destruct (IH t1 (fun a Ha => Hm a (proj2 (elem_of_app _ _ _) (or_intror Ha))) H) as (N2&F2&S2). split_and!.
  - apply NoDup_app. split_and!; [done| |done]. intros a Ha Hb. apply (F2 a Hb), S1; [|by right].
    by apply Hm, elem_of_app; left.
  - intros a [Ha|Ha]%elem_of_app; [by apply F1|]. intros Hs. apply (F2 a Ha), S1; [|by left].
    by apply Hm, elem_of_app; right.
  - intros a Ha Hs. apply S2; [done|]. apply S1; [done|by left].
Qed.

(** C2: no serial number is spent twice on the chain: in every state that a node reaches
    by the steps of [node_step], limited as for C1 (requests with complete headers,
    numbers other than zero and hashes that tell their blocks apart; own blocks with new
    hashes; a genesis hash other than zero, and roots that tell states apart), the serial
    numbers that the zero-knowledge transactions of all its canonical blocks together
    use up have pairwise different addresses, whatever was reorganised, as long as the
    contracts on the chain neither destroy themselves nor touch the accounts of serial
    numbers, EIP 158 is in force at every block, and no transaction has the last nonce,
    2^64 - 1. *)
Theorem chain_spends_once g st nd bs : setup g st -> reachable g st nd ->
  let d := bc_db (nd_chain nd) in canonicalBlocks d (Z.to_nat (bnum (bc_currentBlock (nd_chain nd)))) = Some bs ->
  CalmVM (fun a => a ∈ chainSNs bs) -> ZkLaws (fun a => a ∈ chainSNs bs) ->
  Forall (fun b => isEIP158 b = true /\ nonces_ok b) bs ->
  NoDup (chainSNs bs).
Proof.
  intros SU Hr d Hc CV LZ Hf. pose proof (stateProcessor_laws (mark := fun a => a ∈ chainSNs bs)) as PL.
  destruct (reachable_chain g st SU nd Hr) as (_&_&bs'&t&_&Hc'&Hre&_). fold d in Hc'. rewrite Hc in Hc'. injection Hc' as ->.
  by destruct (replay_spent _ _ _ _ Hf (fun a Ha => Ha) Hre) as [N _].
Qed.
End Spent.
