(* ===== verification/ChainScenarios.v ===== *)
(** * ChainScenarios: a chain in cases

    A chain of two blocks of zero-knowledge transactions over a genesis block, the
    theorems of ChainReach.v on it, and what the import makes of requests that their
    hypotheses leave out. *)
From stdpp Require Import pretty.
From S2P Require Import Prelude.
From S2P Require Import Messages.
From S2P Require Import StateDB.
From S2P Require Import StateRoot.
From S2P Require Import Tx.
From S2P Require Import ZkTx.
From S2P Require Import ZkSafety.
From S2P Require Import ZkScenarios.
From S2P Require Import StateQuiet.
From S2P Require Import ZkQuiet.
From S2P Require Import Merkle.
From S2P Require Import Header.
From S2P Require Import Snapshot.
From S2P Require Import HeaderRules.
From S2P Require Import Engine.
From S2P Require Import ChainDB.
From S2P Require Import Blockchain.
From S2P Require Import BlockchainProofs.
From S2P Require Import ChainImport.
From S2P Require Import BlockProcessor.
From S2P Require Import ChainStart.
From S2P Require Import ChainSafety.
From S2P Require Import ChainReach.

Local Open Scope string_scope.

(** ** A sample chain *)

#[local] Existing Instances sealEnv sealHash sampleConfig checksumEnv ZkScenarios.sample_zk.

(** A text that tells the accounts. *)
Fixpoint quote (s r : string) : string :=
  match s with
  | EmptyString => String zeroDigit r
  | String c s => String Ascii.one (String c (quote s r))
  end.
Fixpoint accountsText (l : list (string * Account)) : string :=
  match l with
  | [] => ""
  | (k, a) :: l =>
      quote k (quote (pretty (ac_Nonce a)) (quote (pretty (ac_Balance a)) (quote (ac_CMT a) (quote (ac_Code a) (accountsText l)))))
  end.

Lemma quote_inj s s' r r' : quote s r = quote s' r' -> s = s' /\ r = r'.
Proof.
  revert s'. induction s as [|c s IH]; intros [|c' s']; cbn; [by intros [= ->]|done|done|].
  injection 1 as -> [-> ->]%IH. done.
Qed.

Lemma accountsText_inj l l' : accountsText l = accountsText l' -> l = l'.
Proof.
  revert l'. induction l as [|[k [n b c code]] l IH]; intros [|[k' [n' b' c' code']] l']; cbn; [done| | |].
  - by destruct k'.
  - by destruct k.
  - intros (->&(Hn&(Hb&(->&(->&->%IH)%quote_inj)%quote_inj)%quote_inj)%quote_inj)%quote_inj.
    apply (inj pretty) in Hn as ->. by apply (inj pretty) in Hb as ->.
Qed.

(** The root of a state tells the whole state. *)
#[local] Instance chainBlocks : BlockEnv := {|
  trieRoot t := accountsText (map_to_list t);
  receiptRoot l := "receipts" +:+ String.concat "," l;
  createBloom l := "bloom";
  signFn a hash := None |}.
#[local] Instance chainCommit : CommitEnv := {| GenCMT _ _ _ := zeros 32 |}.
#[local] Instance chainProcessing : Processing := {|
  chainConfig := ZkScenarios.forks;
  badHashes := ∅;
  signatures := ∅;
  receiptOf tx gas st := pretty gas |}.

Definition payer : Address := ZkScenarios.alice.
Definition sampleGenesis : Genesis :=
  mkGenesis 0 0 (extraOf (HeaderRules.alice +:+ HeaderRules.bob)) 4000000 (Some 1) zeroHash zeroAddr [(payer, mkGenesisAccount "" 100000 0)] 0 0 zeroHash.
Definition genesisRun := Eval vm_compute in ToBlock sampleGenesis (New ∅).
Definition genesisBlock : Block := Eval vm_compute in match genesisRun.1 with Ret b => b | _ => noBlock end.
Definition genesisState : StateDB := Eval vm_compute in genesisRun.2.
#[local] Instance chainGenesis : GenesisBlock := {| genesis := genesisBlock; genesis_zero := eq_refl |}.

(** A block over another, for given transactions and commitments to funds, with the
    roots that the processor finds, and a seal.  At odd numbers bob is in turn. *)
Definition blockOn (signer : Address) (difficulty : Z) (p : Block) (t : gmap string Account) (number : Z)
    (txs : list Transaction) (funds : string) : Block :=
  let h := mkHeader (bhash p) (CalcUncleHash []) zeroAddr "" funds [] (default "" (DeriveShaTx txs)) "" "bloom" (Some difficulty)
    (Some number) 4000000 0 (100 * number) (extraOf "") zeroHash nonceDropVote in
  match process (mkBlock (sealed signer h) txs []) (New t) with
  | (Ret (inr (receipts, gas)), st) =>
      let h := h <| hd_Root := trieRoot (sdb_trie st) |> <| hd_ReceiptHash := receiptRoot receipts |> <| hd_GasUsed := gas |> in
      mkBlock (sealed signer h) txs []
  | _ => mkBlock h txs []
  end.
Definition stateAfter (b : Block) (t : gmap string Account) : gmap string Account := default ∅ (ChainImport.execute b t).

Definition tx1 : Transaction := zkTx TxZK TxConvert 500 7 0 "first number".
Definition tx2 : Transaction := zkTx TxZK TxConvert 300 7 1 "second number".
Definition block1 : Block := Eval vm_compute in blockOn HeaderRules.bob 2 genesisBlock (sdb_trie genesisState) 1 [tx1] "".
Definition state1 : gmap string Account := Eval vm_compute in stateAfter block1 (sdb_trie genesisState).
Definition block2 : Block := Eval vm_compute in blockOn HeaderRules.alice 2 block1 state1 2 [tx2] "".

Definition startDB : ChainDB := default emptyDB (Commit sampleGenesis).
Definition startChain : BlockChain := default (openDB startDB) (NewBlockChain startDB).
Definition chainStart : Node := mkNode startChain freshEngine.
Definition importRun := InsertChain 1000 (fun _ => false) [block1; block2] chainStart.

Example import_accepted : importRun.1 = Ret None /\ bc_currentBlock (nd_chain importRun.2) = block2.
Proof. split; vm_compute; reflexivity. Qed.

(** ** The theorems at work *)

Lemma some_default {A} (o : option A) d : bool_decide (is_Some o) = true -> o = Some (default d o).
Proof. by destruct o. Qed.

Lemma sampleSetup : setup sampleGenesis genesisState.
Proof.
  split; [vm_compute; reflexivity|apply (bool_decide_unpack _); vm_compute; exact I|].
  intros t t' H%accountsText_inj. rewrite <- (list_to_map_to_list t), <- (list_to_map_to_list t'). by rewrite H.
Qed.

Lemma freshEngine_ok : engine_ok freshEngine.
Proof. intros t s. split; [apply map_Forall_empty|by intros hash s'|apply map_Forall_empty]. Qed.

Lemma sampleStart : start sampleGenesis chainStart.
Proof.
  apply (start_node sampleGenesis startDB startChain); [| |apply freshEngine_ok]; apply some_default; vm_compute; reflexivity.
Qed.

Lemma sampleRequest : request (bc_db (nd_chain chainStart)) [block1; block2].
Proof.
  split.
  - repeat constructor; vm_compute; reflexivity || discriminate.
  - apply told_apart_fresh; apply (bool_decide_unpack _); vm_compute; exact I.
Qed.

(** The node after its import. *)
Lemma sampleReachable : reachable sampleGenesis genesisState importRun.2.
Proof. exists chainStart. split; [apply sampleStart|]. apply rtc_once, ns_insert, sampleRequest. Qed.

Lemma vm_idle A base trie a code input gas value : tamed A base trie (ZkTx.vm_run a code input gas value).
Proof. intros s Hs Hp. exact (conj Hs I). Qed.

Lemma sampleCalm mark : (forall c n, ~ mark (CreateAddress c n)) -> CalmVM mark.
Proof. intros H. split; [done|]. intros. apply vm_idle. Qed.

#[local] Instance calmNowhere : CalmVM nowhere.
Proof. apply sampleCalm. by intros c n []. Qed.
#[local] Instance sampleLaws : ProcessorLaws := stateProcessor_laws (mark := nowhere).

Lemma sampleHead : bc_currentBlock (nd_chain importRun.2) = block2.
Proof. apply import_accepted. Qed.

Lemma head_state_replayed_witness :
  let d := bc_db (nd_chain importRun.2) in
  exists bs t, canonicalBlocks d (Z.to_nat (bnum block2)) = Some bs /\ last (genesis :: bs) = Some block2 /\
    replay (sdb_trie genesisState) bs = Some t /\ db_states d !! hd_Root (b_header block2) = Some t.
Proof.
  pose proof (head_state_replayed sampleGenesis genesisState importRun.2 sampleSetup sampleReachable) as H.
  cbv zeta in H. rewrite sampleHead in H. exact H.
Defined.

(** A branch of the first block alone is not heavier. *)
Lemma head_is_heaviest_witness :
  let d := bc_db (nd_chain importRun.2) in
  weight [block1] = 2%Z /\
  exists bs, canonicalBlocks d (Z.to_nat (bnum (bc_currentBlock (nd_chain importRun.2)))) = Some bs /\ (weight [block1] <= weight bs)%Z.
Proof.
  split; [reflexivity|]. apply (head_is_heaviest sampleGenesis genesisState importRun.2 block1 [block1] sampleSetup sampleReachable).
  - vm_compute. reflexivity.
  - apply (path_cons _ block1 genesis); [vm_compute; reflexivity|apply path_nil].
Defined.

Lemma imports_end_witness :
  (InsertChain 1000 (fun _ => false) [block1; block2] chainStart).1 <> OutOfFuel /\
  (procFutureBlocks 1000 (fun _ => false) chainStart).1 <> OutOfFuel /\
  dbBlock (bc_db (nd_chain (InsertChain 1000 (fun _ => false) [block1; block2] chainStart).2)) (bhash genesisBlock) 0 = Some genesisBlock.
Proof.
  assert (reachable sampleGenesis genesisState chainStart) as Hr by (exists chainStart; split; [apply sampleStart|apply rtc_refl]).
  destruct (imports_end sampleGenesis genesisState chainStart 1000 (fun _ => false) [block1; block2] sampleSetup Hr sampleRequest)
    as (H1&H2&H3).
  split; [exact H1|]. split; [exact H2|]. destruct (H3 (bhash genesisBlock) 0%Z genesisBlock) as [H4 _]; [vm_compute; reflexivity|exact H4].
Defined.

Lemma restart_restores_head_witness : exists s, NewBlockChain (bc_db (nd_chain importRun.2)) = Some s /\
  bc_db s = (bc_db (nd_chain importRun.2)) <| db_headHeader := db_headHeader (bc_db s) |> /\ bc_currentBlock s = block2.
Proof.
  pose proof (restart_restores_head sampleGenesis genesisState importRun.2 sampleSetup sampleReachable) as H.
  rewrite sampleHead in H. apply H. apply (bool_decide_unpack _). vm_compute. exact I.
Defined.

Lemma canonical_numbers_linked_witness : let d := bc_db (nd_chain importRun.2) in
  exists b p, dbBlock d (dbCanonicalHash d 2) 2 = Some b /\ dbBlock d (dbCanonicalHash d (2 - 1)) (2 - 1) = Some p /\
    hd_ParentHash (b_header b) = bhash p /\ CopyHeader (b_header b) = b_header b /\ b_uncles b = [] /\
    exists td, td_of d p = Some td /\ td_of d b = Some (ChainDB.difficulty b + td)%Z.
Proof.
  apply (canonical_numbers_linked sampleGenesis genesisState importRun.2 2 sampleSetup sampleReachable).
  rewrite sampleHead. vm_compute. split; [reflexivity|discriminate].
Defined.

(** The two blocks spend two numbers. *)
Lemma sampleNumbers : chainSNs [block1; block2] =
  [BytesToAddress (BytesToHash "first number"); BytesToAddress (BytesToHash "second number")].
Proof. vm_compute. reflexivity. Qed.

Lemma sampleUnmarked c n : ~ CreateAddress c n ∈ chainSNs [block1; block2].
Proof. rewrite sampleNumbers, !elem_of_cons, elem_of_nil. by intros [H|[H|[]]]. Qed.

Lemma sampleSpendLaws : ZkLaws (fun a => a ∈ chainSNs [block1; block2]).
Proof.
  split; [apply sampleUnmarked|]. intros a code input gas value s r s' W _ H. injection H as <- <-. by apply kacts_ret.
Qed.

Lemma chain_spends_once_witness : NoDup (chainSNs [block1; block2]) /\ length (chainSNs [block1; block2]) = 2%nat.
Proof.
  split; [|reflexivity].
  apply (chain_spends_once sampleGenesis genesisState importRun.2 [block1; block2] sampleSetup sampleReachable).
  - rewrite sampleHead. vm_compute. reflexivity.
  - apply sampleCalm, sampleUnmarked.
  - apply sampleSpendLaws.
  - repeat constructor; vm_compute; reflexivity || discriminate.
Defined.

(** ** What is not checked *)

(** A block without a seal whose header has the number zero passes: [verifyHeader]
    stops before the seal for genesis, which it recognises by its number, and the
    lookups return a cached parent under any number.  Over the head, the block becomes
    the head, and the chain has it at number zero instead of genesis. *)
Definition zeroBlock : Block := Eval vm_compute in
  let b := blockOn "" 2 block2 (stateAfter block2 state1) 0 [] "intruder" in
  mkBlock ((b_header b) <| hd_Extra := extraOf "" |> <| hd_Time := 300%Z |>) [] [].
Definition intrusion := InsertChain 1000 (fun _ => false) [zeroBlock] importRun.2.
Example unsealed_zero_takes_over :
  (forall a, recoverSeal (b_header zeroBlock) <> inr a) /\
  intrusion.1 = Ret None /\ bc_currentBlock (nd_chain intrusion.2) = zeroBlock /\
  bnum zeroBlock = 0%Z /\ dbCanonicalHash (bc_db (nd_chain intrusion.2)) 0 = bhash zeroBlock.
Proof. split; [by intros a; vm_compute|]. split_and!; vm_compute; reflexivity. Qed.

(** Two branches: alice and bob out of turn, and bob in turn. *)
Definition low1 : Block := Eval vm_compute in blockOn HeaderRules.alice 1 genesisBlock (sdb_trie genesisState) 1 [tx1] "low".
Definition low2 : Block := Eval vm_compute in blockOn HeaderRules.bob 1 low1 (stateAfter low1 (sdb_trie genesisState)) 2 [tx2] "low".
Definition lowRun := InsertChain 1000 (fun _ => false) [low1; low2] chainStart.

(** After a reorganisation to a chain that is as heavy and shorter, the hashes of the
    old chain above the head are still found by number. *)
Definition shorterRun := InsertChain 1000 (fun _ => true) [block1] lowRun.2.
Example stale_numbers_above_head :
  shorterRun.1 = Ret None /\ bc_currentBlock (nd_chain shorterRun.2) = block1 /\ bnum block1 = 1%Z /\
  dbCanonicalHash (bc_db (nd_chain shorterRun.2)) 2 = bhash low2.
Proof. split_and!; vm_compute; reflexivity. Qed.

(** A reorganisation inserts the new blocks from the highest down, and the head once
    more; the last insertion finds the head canonical and leaves the heads of headers
    and of the fast synchronisation at the lowest new block. *)
Definition longerRun := InsertChain 1000 (fun _ => false) [block1; block2] lowRun.2.
Example header_head_left_behind :
  longerRun.1 = Ret None /\ bc_currentBlock (nd_chain longerRun.2) = block2 /\
  hc_currentHeader (nd_chain longerRun.2) = b_header block1 /\ bc_currentFastBlock (nd_chain longerRun.2) = block1.
Proof. split_and!; vm_compute; reflexivity. Qed.
