(* ===== verification/Circuits.v ===== *)
(** * Circuits: the statements that are proved, and the provers

    Models the four circuits of the C++ library under [libsnark-vnt/src] as far as an
    assignment made from the arguments of a prover is concerned: when it satisfies the
    constraints ([circuit/gadget.tcc], [note.tcc], [add_cmp.tcc], [sub_cmp.tcc],
    [comparison.tcc], [merkle.tcc]), and what the functions [genConvertproof],
    [genRedeemproof], [genDepositproof] and [genWithdrawproof1] return.  SHA-256, the
    prover of libsnark on a satisfying assignment, and the proof that is returned
    without one are parameters. *)
From S2P Require Import Prelude.
From S2P Require Import Messages.
From S2P Require Import StateDB.
From S2P Require Import Tx.
From S2P Require Import ZkTx.
From S2P Require Import Merkle.
From S2P Require Import Blockchain.

(** ** Notes and their commitments *)

(** [CSHA256]: on bytes. *)
Class ShaEnv := { sha256 : string -> string }.

(** [Note], [NoteS] and [NoteHeader] of [Note.h]: the bytes of a [uint256] are those of
    the hash in Go turned around. *)
Record Note := mkNote { nt_value : Z; nt_sn : string; nt_r : string }.
Record NoteS := mkNoteS { ns_value : Z; ns_pk : string; ns_sn_s : string; ns_r : string; ns_sn_old : string }.
Record NoteHeader := mkNoteHeader { nh_tx_root : string; nh_state_root : string; nh_cmtfd_root : string }.
#[export] Instance Note_eta : Eta Note := fun r => mkNote (nt_value r) (nt_sn r) (nt_r r).

(** [convertIntToVectorLE]. *)
Definition le64 (v : Z) : string := rev_bytes (be_bytes 8 v).
(** [uint256S] and [uint160S] of the text of a hash; [ToString] turns it back. *)
Definition uint256S (h : string) : string := rev_bytes h.

Section Commitments.
Context `{SH : ShaEnv}.

Definition note_cm (n : Note) : string := sha256 (le64 (nt_value n) +:+ nt_sn n +:+ nt_r n).
Definition noteS_cm (n : NoteS) : string :=
  sha256 (le64 (ns_value n) +:+ ns_pk n +:+ ns_sn_s n +:+ ns_r n +:+ ns_sn_old n).
Definition noteHeader_cm (n : NoteHeader) : string := sha256 (nh_tx_root n +:+ nh_state_root n +:+ nh_cmtfd_root n).

(** [genCMT] and [genCMTS] behind [zktx.GenCMT] and [zktx.GenCMTFD]. *)
Definition genCMT (value : Z) (sn r : string) : string := rev_bytes (note_cm (mkNote value (uint256S sn) (uint256S r))).
#[export] Instance commitSha : CommitEnv := {| GenCMT := genCMT |}.
Definition GenCMTFD (value : Z) (pk sn_s r_s sn_old : string) : string :=
  rev_bytes (noteS_cm (mkNoteS value (uint256S pk) (uint256S sn_s) (uint256S r_s) (uint256S sn_old))).
End Commitments.

(** ** Assignments *)

(** The field of the circuits: the order of the groups of [alt_bn128]. *)
Definition fieldOrder : Z := 21888242871839275222246405745257275088548364400416034343698204186575808495617.
Definition field_eq (a b : Z) : bool := (a - b) mod fieldOrder =? 0.
(** [less_comparison_gadget]: [B - A] has 64 bits. *)
Definition less_or_eq (a b : Z) : bool := (b - a) mod fieldOrder <? 2 ^ 64.

(** What [generate_r1cs_witness] of a circuit is given. *)
Inductive assignment :=
| AConvert (note_old note : Note) (cmtA_old cmtA : string) (value_s : Z)
| ARedeem (note_old note : Note) (cmtA_old cmtA : string) (value_s : Z)
| ADeposit (note_old : Note) (note_s : NoteS) (note : Note) (cmtA_old cmtS cmtA : string)
| AWithdraw (note_s : NoteS) (note_old note : Note) (noteheader : NoteHeader) (cmtS cmtB_old cmtB header : string)
    (path : list (string * bool)).

(** What libsnark is used for: its prover on a satisfying assignment, and the text of
    the proof that its default constructor makes. *)
Class SnarkEnv := {
  r1cs_ppzksnark_prover : assignment -> string;
  emptyProof : string;
}.

Section Circuits.
Context `{SH : ShaEnv} `{MK : MerkleEnv}.

(** [pb.is_satisfied()] after [generate_r1cs_witness]: the bits of the commitments are
    set to the ones that are given, so that the gadgets of the hashes compare; a value
    is packed from the bits that were filled with it; the way to the root is enforced
    for a fund that has a value. *)
Definition is_satisfied (a : assignment) : bool :=
  match a with
  | AConvert note_old note cmtA_old cmtA value_s =>
      field_eq (nt_value note_old + value_s) (nt_value note) &&
      bool_decide (note_cm note_old = cmtA_old) && bool_decide (note_cm note = cmtA)
  | ARedeem note_old note cmtA_old cmtA value_s =>
      field_eq (nt_value note_old - value_s) (nt_value note) && less_or_eq value_s (nt_value note_old) &&
      bool_decide (note_cm note_old = cmtA_old) && bool_decide (note_cm note = cmtA)
  | ADeposit note_old note_s note cmtA_old cmtS cmtA =>
      less_or_eq (ns_value note_s) (nt_value note_old) && field_eq (nt_value note_old - ns_value note_s) (nt_value note) &&
      bool_decide (note_cm note_old = cmtA_old) &&
      bool_decide (noteS_cm (mkNoteS (ns_value note_s) (ns_pk note_s) (ns_sn_s note_s) (ns_r note_s) (nt_sn note_old)) = cmtS) &&
      bool_decide (note_cm note = cmtA)
  | AWithdraw note_s note_old note noteheader cmtS cmtB_old cmtB header path =>
      field_eq (nt_value note_old + ns_value note_s) (nt_value note) &&
      bool_decide (noteHeader_cm noteheader = header) && bool_decide (noteS_cm note_s = cmtS) &&
      bool_decide (note_cm note_old = cmtB_old) && bool_decide (note_cm note = cmtB) &&
      ((ns_value note_s =? 0) || bool_decide (climb shaCombine cmtS path = nh_cmtfd_root noteheader))
  end.

Context `{SN : SnarkEnv}.

(** [generate_convert_proof] and the like. *)
Definition generate_proof (a : assignment) : string := if is_satisfied a then r1cs_ppzksnark_prover a else emptyProof.

Definition genConvertproof (value value_old : Z) (sn_old r_old sn r cmtA_old cmtA : string) (value_s : Z) : string :=
  generate_proof (AConvert (mkNote value_old (uint256S sn_old) (uint256S r_old)) (mkNote value (uint256S sn) (uint256S r))
    (uint256S cmtA_old) (uint256S cmtA) value_s).
Definition genRedeemproof (value value_old : Z) (sn_old r_old sn r cmtA_old cmtA : string) (value_s : Z) : string :=
  generate_proof (ARedeem (mkNote value_old (uint256S sn_old) (uint256S r_old)) (mkNote value (uint256S sn) (uint256S r))
    (uint256S cmtA_old) (uint256S cmtA) value_s).
Definition genDepositproof (value_A : Z) (sn_s r_s sn r cmt_s cmtA : string) (value_s : Z) (pk : string) (value_A_new : Z)
    (sn_A_new r_A_new cmt_A_new : string) : string :=
  generate_proof (ADeposit (mkNote value_A (uint256S sn) (uint256S r))
    (mkNoteS value_s (uint256S pk) (uint256S sn_s) (uint256S r_s) (uint256S sn))
    (mkNote value_A_new (uint256S sn_A_new) (uint256S r_A_new)) (uint256S cmtA) (uint256S cmt_s) (uint256S cmt_A_new)).
(** [genWithdrawproof1]: of the commitments the first [n] are put into the tree; without
    the one of the fund there is no path, and the C++ code throws. *)
Definition genWithdrawproof1 (tx_root state_root : string) (value value_old : Z) (sn_old r_old sn r sn_s r_s cmtB_old cmtB : string)
    (value_s : Z) (pk sn_A_old cmtS : string) (cmtarray : list string) (n : nat) (header : string) : option string :=
  wit ← withdrawWitness shaCombine (zeros 32) INCREMENTAL_MERKLE_TREE_DEPTH (uint256S cmtS) (map uint256S (take n cmtarray));
  path ← w_path shaCombine (zeros 32) INCREMENTAL_MERKLE_TREE_DEPTH wit;
  let rt := w_root shaCombine (zeros 32) INCREMENTAL_MERKLE_TREE_DEPTH wit in
  Some (generate_proof (AWithdraw (mkNoteS value_s (uint256S pk) (uint256S sn_s) (uint256S r_s) (uint256S sn_A_old))
    (mkNote value_old (uint256S sn_old) (uint256S r_old)) (mkNote value (uint256S sn) (uint256S r))
    (mkNoteHeader (uint256S tx_root) (uint256S state_root) rt)
    (uint256S cmtS) (uint256S cmtB_old) (uint256S cmtB) (uint256S header) path)).

(** ** What a verifier accepts *)

Context `{ZE : ZkEnv}.

(** The verifiers on the public part of an assignment: the [witness_map] of its
    circuit. *)
Definition accepts (a : assignment) (proof : string) : bool :=
  match a with
  | AConvert note_old note cmtA_old cmtA value_s =>
      VerifyConvertProof (uint256S cmtA_old) (uint256S (nt_sn note_old)) (uint256S cmtA) value_s proof
  | ARedeem note_old note cmtA_old cmtA value_s =>
      VerifyRedeemProof (uint256S cmtA_old) (uint256S (nt_sn note_old)) (uint256S cmtA) value_s proof
  | ADeposit note_old note_s note cmtA_old cmtS cmtA =>
      VerifyDepositProof (uint256S (nt_sn note_old)) (uint256S cmtS) proof (uint256S cmtA_old) (uint256S cmtA)
  | AWithdraw note_s note_old note noteheader cmtS cmtB_old cmtB header path =>
      VerifyWithdrawProof (uint256S (ns_pk note_s)) (uint256S header) (uint256S cmtB_old) (uint256S (nt_sn note_old)) (uint256S cmtB) proof
  end.
(** Completeness, as libsnark documents it: the proof of a satisfying assignment is
    accepted for the public part of it. *)
Class SnarkComplete : Prop := r1cs_complete : forall a, is_satisfied a = true -> accepts a (r1cs_ppzksnark_prover a) = true.

Lemma uint256S_twice h : uint256S (uint256S h) = h.
Proof. apply rev_bytes_involutive. Qed.
Lemma field_eq_refl a b : a = b -> field_eq a b = true.
Proof. intros ->. unfold field_eq. by rewrite Z.sub_diag, Z.mod_0_l by done. Qed.
Lemma less_or_eq_u64 a b : 0 <= a <= b -> b < two64 -> less_or_eq a b = true.
Proof.
  intros Ha Hb. change two64 with (2 ^ 64) in Hb. unfold less_or_eq. rewrite Z.mod_small; [by apply Z.ltb_lt; lia|].
  split; [lia|]. transitivity (2 ^ 64); [lia|done].
Qed.
Lemma note_cm_go v sn r : note_cm (mkNote v (uint256S sn) (uint256S r)) = uint256S (GenCMT v sn r).
Proof. cbn [GenCMT commitSha]. unfold genCMT. symmetry. apply uint256S_twice. Qed.

Context `{SC : SnarkComplete}.

(** A proof is made, and accepted, for every honest conversion, redemption and
    deposit. *)
Lemma convert_proved v0 sn0 r0 v sn r : 0 <= v0 <= v -> v < two64 ->
  VerifyConvertProof (GenCMT v0 sn0 r0) sn0 (GenCMT v sn r) (v - v0)
    (genConvertproof v v0 sn0 r0 sn r (GenCMT v0 sn0 r0) (GenCMT v sn r) (v - v0)) = true.
Proof.
  intros H1 H2. unfold genConvertproof, generate_proof.
  match goal with |- context [is_satisfied ?a] => assert (is_satisfied a = true) as E; [|pose proof (r1cs_complete a E) as H] end.
  { cbn [is_satisfied nt_value]. rewrite field_eq_refl, !note_cm_go by lia. by rewrite !bool_decide_true. }
  rewrite E. cbn [accepts nt_sn] in H. rewrite !uint256S_twice in H. exact H.
Qed.
Lemma redeem_proved v0 sn0 r0 v sn r : 0 <= v <= v0 -> v0 < two64 ->
  VerifyRedeemProof (GenCMT v0 sn0 r0) sn0 (GenCMT v sn r) (v0 - v)
    (genRedeemproof v v0 sn0 r0 sn r (GenCMT v0 sn0 r0) (GenCMT v sn r) (v0 - v)) = true.
Proof.
  intros H1 H2. unfold genRedeemproof, generate_proof.
  match goal with |- context [is_satisfied ?a] => assert (is_satisfied a = true) as E; [|pose proof (r1cs_complete a E) as H] end.
  { cbn [is_satisfied nt_value]. rewrite field_eq_refl, less_or_eq_u64, !note_cm_go by lia. by rewrite !bool_decide_true. }
  rewrite E. cbn [accepts nt_sn] in H. rewrite !uint256S_twice in H. exact H.
Qed.
Lemma deposit_proved v0 sn0 r0 x owner snS rS sn r : 0 <= x <= v0 -> v0 < two64 ->
  VerifyDepositProof sn0 (GenCMTFD x owner snS rS sn0)
    (genDepositproof v0 snS rS sn0 r0 (GenCMTFD x owner snS rS sn0) (GenCMT v0 sn0 r0) x owner (v0 - x) sn r (GenCMT (v0 - x) sn r))
    (GenCMT v0 sn0 r0) (GenCMT (v0 - x) sn r) = true.
Proof.
  intros H1 H2. unfold genDepositproof, generate_proof.
  match goal with |- context [is_satisfied ?a] => assert (is_satisfied a = true) as E; [|pose proof (r1cs_complete a E) as H] end.
  { cbn [is_satisfied nt_value nt_sn ns_value ns_pk ns_sn_s ns_r]. rewrite field_eq_refl, less_or_eq_u64, !note_cm_go by lia.
    unfold GenCMTFD. rewrite uint256S_twice. by rewrite !bool_decide_true. }
  rewrite E. cbn [accepts nt_sn] in H. rewrite !uint256S_twice in H. exact H.
Qed.
End Circuits.

(** ** Withdrawals *)

Section Withdrawals.
Context `{SH : ShaEnv} `{MK : MerkleEnv} `{TE : TxEnv} `{SN : SnarkEnv}.

(** The hash of a block in Go is that of the text of its three roots, the one of the
    circuit that of their bytes: unless SHA-256 collides on the two, a withdrawal does
    not satisfy its circuit, and there is no proof for it. *)
Lemma withdraw_unproved tx_root state_root fd_root value value_old sn_old r_old sn r sn_s r_s cmtB_old cmtB value_s pk sn_A_old cmtS cmts n proof :
  (forall root, uint256S (ZKHashBlock tx_root state_root fd_root) <> sha256 (uint256S tx_root +:+ uint256S state_root +:+ root)) ->
  genWithdrawproof1 tx_root state_root value value_old sn_old r_old sn r sn_s r_s cmtB_old cmtB value_s pk sn_A_old cmtS cmts n
    (ZKHashBlock tx_root state_root fd_root) = Some proof -> proof = emptyProof.
Proof.
  intros Hne (wit&_&(path&_&E)%bind_Some)%bind_Some. injection E as <-. unfold generate_proof. cbn [is_satisfied].
  rewrite (bool_decide_false (noteHeader_cm _ = _)); [by rewrite andb_false_r|]. intros E. by eapply Hne.
Qed.
(** Nor would there be one if the two hashes agreed, for a block with fewer than sixteen
    funds: the tree of the prover is padded with zeros, the one of the block with
    [emptynode]. *)
Lemma withdraw_root_differs cmtS l more :
  (forall a b c d, shaCombine a b = shaCombine c d -> a = c /\ b = d) ->
  (length (l ++ cmtS :: more) < 16)%nat -> cmtS ∉ l -> cmtS ∉ more ->
  exists w root, withdrawWitness shaCombine (zeros 32) INCREMENTAL_MERKLE_TREE_DEPTH (uint256S cmtS) (map uint256S (l ++ cmtS :: more)) = Some w /\
    GenZKfundsRoot (l ++ cmtS :: more) = Some root /\
    w_root shaCombine (zeros 32) INCREMENTAL_MERKLE_TREE_DEPTH w <> uint256S root.
Proof.
  intros Hcf Hl Hn1 Hn2.
  assert (forall k, cmtS ∉ k -> uint256S cmtS ∉ map uint256S k) as Hmap.
  { intros k Hk (x&E&Hx)%list_elem_of_fmap. apply rev_bytes_inj in E. by subst x. }
  rewrite map_app. cbn [map].
  destruct (loop_at shaCombine (zeros 32) 4 (uint256S cmtS) ltac:(lia) (map uint256S l) (map uint256S more) (Hmap _ Hn1)) as (t&E&Hr).
  { rewrite length_map. rewrite length_app in Hl. cbn [length] in Hl. change (2 ^ 4)%nat with 16%nat. lia. }
  destruct (found_spec shaCombine (zeros 32) 4 (uint256S cmtS) ltac:(lia) t (map uint256S l) (map uint256S more) Hr) as (w&p&Ew&Hroot&_).
  { rewrite length_app in *. cbn [length] in *. rewrite !length_map. change (2 ^ 4)%nat with 16%nat. lia. }
  exists w. unfold GenZKfundsRoot, GenRT, ZkfundsMerkleNODES. rewrite (proj2 (Nat.ltb_ge _ _)) by lia.
  rewrite genRoot_spec by (rewrite length_app, length_replicate; lia). eexists. split; [|split; [done|]].
  - pose proof (loop_found shaCombine (zeros 32) 4 (uint256S cmtS) (map uint256S more) [] t (witness t) (Hmap _ Hn2)) as Ef.
    rewrite app_nil_r in Ef. unfold INCREMENTAL_MERKLE_TREE_DEPTH. by rewrite E, Ef, Ew.
  - unfold INCREMENTAL_MERKLE_TREE_DEPTH. rewrite Hroot. set (fs := l ++ cmtS :: more) in *.
    match goal with |- _ <> uint256S (rev_bytes ?x) => replace (uint256S (rev_bytes x)) with x by (symmetry; apply uint256S_twice) end.
    intros Eq. assert (map uint256S l ++ uint256S cmtS :: map uint256S more = map rev_bytes fs) as El by (unfold fs; by rewrite map_app).
    rewrite El in Eq. pose proof (mroot_inj shaCombine (zeros 32) Hcf 4 _ _ Eq (length fs) ltac:(change (2 ^ 4)%nat with 16%nat; lia)) as H.
    rewrite !list_lookup_fmap in H. rewrite (proj2 (lookup_ge_None _ _)) in H by lia. rewrite lookup_app_r in H by lia.
    rewrite Nat.sub_diag in H. destruct (16 - length fs)%nat eqn:En; [lia|]. cbn in H. by vm_compute in H.
Qed.
End Withdrawals.
