(* ===== verification/Wallet.v ===== *)
(** * Wallet: the hidden balance of a node

    Models the wallet of [zktx/zktx.go], the commands of [internal/ethapi/api.go] that
    make zero-knowledge transactions from it, and the part of [cmd/geth/config.go] that
    reads it back at the start.  The wallet holds the opening of the commitment that
    the account has on the chain, and the one before it; a command makes a transaction
    from the one to the next, hands it to the peers and records the step in a file.
    The random values are arguments of the commands. *)
From S2P Require Import Prelude.
From S2P Require Import Rlp.
From S2P Require Import Messages.
From S2P Require Import StateDB.
From S2P Require Import Tx.
From S2P Require Import ZkTx.
From S2P Require Import Merkle.
From S2P Require Import Header.
From S2P Require Import Engine.
From S2P Require Import Blockchain.
From S2P Require Import Circuits.

(** ** Hexadecimal digits *)

Definition hexDigit (c : Ascii.ascii) : option Z :=
  let b := byteval c in
  if (48 <=? b) && (b <=? 57) then Some (b - 48)
  else if (97 <=? b) && (b <=? 102) then Some (b - 87)
  else if (65 <=? b) && (b <=? 70) then Some (b - 55)
  else None.
Definition hexChar (d : Z) : Ascii.ascii := tobyte (if d <? 10 then 48 + d else 87 + d).

(** [hex.EncodeToString], and [hex.DecodeString] without its error: the bytes before
    it. *)
Definition hexEncode (b : bytes) : bytes := flat_map (fun c => [hexChar (byteval c / 16); hexChar (byteval c mod 16)]) b.
Fixpoint hexDecode (s : bytes) : bytes :=
  match s with
  | c :: d :: s =>
      match hexDigit c, hexDigit d with Some x, Some y => tobyte (16 * x + y) :: hexDecode s | _, _ => [] end
  | _ => []
  end.

(** [common.FromHex] and [HexToHash]. *)
Definition FromHex (s : string) : bytes :=
  match String.list_ascii_of_string s with
  | c :: d :: rest =>
      let s := if (byteval c =? 48) && ((byteval d =? 120) || (byteval d =? 88)) then rest else c :: d :: rest in
      hexDecode (if Nat.odd (length s) then tobyte 48 :: s else s)
  | _ => []
  end.
Definition HexToHash (s : string) : string := BytesToHash (String.string_of_list_ascii (FromHex s)).
(** [Hash.Hex]. *)
Definition hashHex (h : string) : string := String.string_of_list_ascii (tobyte 48 :: tobyte 120 :: hexEncode (String.list_ascii_of_string h)).

(** ** Addresses of identities *)

(** The bytes that the first character of a string takes: the cases of the decoder of
    UTF-8, with one byte for everything that is not valid. *)
Definition cont (lo hi : Z) (c : option Ascii.ascii) : bool :=
  match c with Some c => (lo <=? byteval c) && (byteval c <=? hi) | None => false end.
Definition runeLen (s : bytes) : nat :=
  match s with
  | [] => 0%nat
  | c :: r =>
      let b := byteval c in
      let c1 := r !! 0%nat in let c2 := r !! 1%nat in let c3 := r !! 2%nat in
      let lo := if b =? 224 then 160 else if b =? 240 then 144 else 128 in
      let hi := if b =? 237 then 159 else if b =? 244 then 143 else 191 in
      if (194 <=? b) && (b <=? 223) && cont 128 191 c1 then 2%nat
      else if (224 <=? b) && (b <=? 239) && cont lo hi c1 && cont 128 191 c2 then 3%nat
      else if (240 <=? b) && (b <=? 244) && cont lo hi c1 && cont 128 191 c2 && cont 128 191 c3 then 4%nat
      else 1%nat
  end.
(** [for i := range ID { bytes[i] = ID[i] }]: the first byte of every character. *)
Fixpoint runeStarts (fuel : nat) (s : bytes) : bytes :=
  match fuel, s with
  | S fuel, c :: r =>
      let n := runeLen s in
      c :: repeat Ascii.zero (n - 1) ++ runeStarts fuel (drop (n - 1) r)
  | _, _ => []
  end.

Record DHibeAddress := mkDHibeAddress { da_ID : string; da_Index : Z }.
(** [DHibeAddress.Address]. *)
Definition dhibeAddress (a : DHibeAddress) : string :=
  if (16 <? String.length (da_ID a))%nat then zeros 20
  else
    let id := runeStarts (String.length (da_ID a)) (String.list_ascii_of_string (da_ID a)) in
    String.string_of_list_ascii (id ++ repeat Ascii.zero (16 - length id) ++ lowbytes 4 (da_Index a)).

(** ** The wallet *)

(** [Sequence], without its lock, which is not used. *)
Record Sequence := mkSequence {
  sq_SN : option string;
  sq_CMT : option string;
  sq_Random : option string;
  sq_Value : Z;
  sq_Valid : bool;
  sq_SNbal : option string;
}.
Definition blankSequence : Sequence := mkSequence None None None 0 false None.
Definition newSequence (sn cmt random : string) (value : Z) : Sequence :=
  mkSequence (Some sn) (Some cmt) (Some random) value false None.

(** The variables of [zktx], and what is in the file [SN], if it could be opened. *)
Record Wallet := mkWallet {
  wl_SequenceNumber : option Sequence;
  wl_SequenceNumberAfter : option Sequence;
  wl_SNFD : option Sequence;
  wl_Stage : Z;
  wl_SNfile : option bytes;
}.
#[export] Instance Wallet_eta : Eta Wallet := fun r =>
  mkWallet (wl_SequenceNumber r) (wl_SequenceNumberAfter r) (wl_SNFD r) (wl_Stage r) (wl_SNfile r).

(** The constants of [zktx] of the same names as those of [core/types]: an expression
    that is left out of a group is that of the line above. *)
Definition stageConvert : Z := 0.
Definition stageRedeem : Z := stageConvert.
Definition stageDeposit : Z := stageRedeem.
Definition stageWithdraw : Z := stageDeposit.

(** ** The file *)

(** The types [Sequence] and [SequenceS] as the encoder sees them: the mutex is a
    struct without exported fields. *)
Definition hashPtr : rtype := TPtr (TArray 32).
Definition sequenceType : rtype := TStruct [hashPtr; hashPtr; hashPtr; TUint 64; TBool; TStruct []; hashPtr].
Definition sequenceSType : rtype := TStruct [sequenceType; sequenceType; TPtr sequenceType; TBig; TBig; TUint 8].

Definition hashVal (h : option string) : rval := VPtr ((fun h => VBytes (String.list_ascii_of_string h)) <$> h).
Definition sequenceVal (s : Sequence) : rval :=
  VList [hashVal (sq_SN s); hashVal (sq_CMT s); hashVal (sq_Random s); VUint (sq_Value s); VBool (sq_Valid s); VList [];
         hashVal (sq_SNbal s)].
Definition sequenceSVal (s1 s2 : Sequence) (sns : option Sequence) (stage : Z) : rval :=
  VList [sequenceVal s1; sequenceVal s2; VPtr (sequenceVal <$> sns); VBig None; VBig None; VUint stage].

Definition valHash (v : rval) : option string :=
  match v with VPtr (Some (VBytes b)) => Some (String.string_of_list_ascii b) | _ => None end.
Definition valSequence (v : rval) : Sequence :=
  match v with
  | VList [sn; cmt; r; VUint value; VBool valid; _; bal] => mkSequence (valHash sn) (valHash cmt) (valHash r) value valid (valHash bal)
  | _ => blankSequence
  end.

Definition newline : Ascii.ascii := tobyte 10.
(** Writing a line at the start of a file leaves what is behind it. *)
Definition writeLine (line content : bytes) : bytes := (line ++ [newline]) ++ drop (S (length line)) content.
(** [ReadString('\n')], which returns what there is at the end of the file. *)
Fixpoint readLine (content : bytes) : bytes :=
  match content with
  | [] => []
  | c :: r => if bool_decide (c = newline) then [c] else c :: readLine r
  end.

Section Wallet.
Context `{TE : TxEnv} `{MK : MerkleEnv} `{SH : ShaEnv}.

Definition InitializeSN : Sequence := newSequence zeroHash (GenCMT 0 zeroHash zeroHash) zeroHash 0.

(** [makeFullNode]: the wallet at the start.  The errors of reading, of the digits and
    of decoding are printed. *)
Definition loadWallet (file : option bytes) : outcome Wallet :=
  let fresh := mkWallet (Some InitializeSN) (Some InitializeSN) None 0 file in
  match file with
  | None => Ret fresh
  | Some content =>
      let line := readLine content in
      if (length line =? 0)%nat then Ret fresh
      else
        match DecodeBytes (hexDecode (take (length line - 1) line)) sequenceSType (zero sequenceSType) with
        | Ret (_, VList [s1; s2; sns; _; _; VUint stage]) =>
            Ret (mkWallet (Some (valSequence s1)) (Some (valSequence s2))
                   (match sns with VPtr (Some s) => Some (valSequence s) | _ => None end) stage file)
        | Ret _ => Ret fresh
        | Panic => Panic
        | OutOfFuel => OutOfFuel
        end
  end.

(** The part of a command after its transaction has been handed on: the wallet goes a
    step further, and is written to the file, unless it cannot be encoded. *)
Definition recordStep (s next : Sequence) (snfd : option Sequence) (stage : Z) (w : Wallet) : bool * Wallet :=
  let w := w <| wl_SequenceNumber := Some s |> <| wl_SequenceNumberAfter := Some next |>
             <| wl_SNFD := snfd |> <| wl_Stage := stage |> in
  match EncodeToBytes sequenceSType (sequenceSVal s next snfd stage) with
  | None => (false, w)
  | Some b => (true, w <| wl_SNfile ::= fmap (writeLine (hexEncode b)) |>)
  end.
End Wallet.

(** ** What the commands are given *)

(** [SendTxArgs3]: the fields that the commands read. *)
Record SendTxArgs3 := mkSendTxArgs3 {
  ar_FromID : string;
  ar_FromIndex : Z;
  ar_ToID : string;
  ar_ToIndex : Z;
  ar_Gas : option Z;
  ar_GasPrice : option Z;
  ar_Value : option Z;
  ar_Data : string;
  ar_Nonce : option Z;
  ar_Proof : list string;
  ar_Fdvalue : Z;
  ar_Fdrandom : string;
  ar_Fdsn : string;
  ar_Fdcmt : string;
  ar_Fdsnbal : string;
}.

Inductive walletErr :=
| errBackend (msg : string) | notEnoughBalance | insufficientForRedeem | insufficientForDeposit | inconsistentWithdrawValue
| proofTooShort | decodeBlockErr.

(** What is not modelled: the decoding of a block.  What the node tells a command: its
    identity, its level, the price it suggests and the next nonce of an account, which
    may fail. *)
Class WalletEnv := { decodeBlock : string -> option Block }.
Record Backend := mkBackend {
  bk_ID : string;
  bk_NodeIndex : Z;
  bk_LocalLevel : Z;
  bk_SuggestPrice : walletErr + Z;
  bk_GetPoolNonce : string -> walletErr + Z;
}.

(** The node: its wallet, the state that a command has asked for, and what has been
    sent to the peers of the upper level. *)
Record Node := mkNode {
  nd_wallet : Wallet;
  nd_state : StateDB;
  nd_sent : list Transaction;
}.
#[export] Instance Node_eta : Eta Node := fun r => mkNode (nd_wallet r) (nd_state r) (nd_sent r).

Local Abbreviation MN := (M Node).
Definition onState {A} (m : M StateDB A) : MN A := fun n =>
  let '(r, s) := m (nd_state n) in (r, n <| nd_state := s |>).
Definition deref {A} (p : option A) : MN A := match p with Some a => ret a | None => panic end.

(** ** Commands *)

Section Commands.
Context `{TE : TxEnv} `{HA : HashEnv} `{MK : MerkleEnv} `{SH : ShaEnv} `{SN : SnarkEnv} `{WE : WalletEnv} (bk : Backend).

Definition zkTxAddress : string := repeat_byte (Ascii.ascii_of_nat 255) 20.
Definition defaultGas : Z := 90000.

(** [setDefaults]: the nonce is that of the account of the node. *)
Definition setDefaults (args : SendTxArgs3) : walletErr + SendTxArgs3 :=
  let gas := default defaultGas (ar_Gas args) in
  match (match ar_GasPrice args with Some p => inr p | None => bk_SuggestPrice bk end) with
  | inl e => inl e
  | inr price =>
      let value := default 0 (ar_Value args) in
      match (match ar_Nonce args with
             | Some n => inr n
             | None => bk_GetPoolNonce bk (dhibeAddress (mkDHibeAddress (bk_ID bk) (bk_NodeIndex bk)))
             end) with
      | inl e => inl e
      | inr nonce =>
          inr (mkSendTxArgs3 (ar_FromID args) (ar_FromIndex args) (ar_ToID args) (ar_ToIndex args) (Some gas) (Some price)
                 (Some value) (ar_Data args) (Some nonce) (ar_Proof args) (ar_Fdvalue args) (ar_Fdrandom args) (ar_Fdsn args)
                 (ar_Fdcmt args) (ar_Fdsnbal args))
      end
  end.

(** [args.Value.ToInt().Uint64()]. *)
Definition argValue (args : SendTxArgs3) : Z := u64 (default 0 (ar_Value args)).
Definition fromAddress (args : SendTxArgs3) : string := dhibeAddress (mkDHibeAddress (ar_FromID args) (ar_FromIndex args)).

(** [toTransaction] with one of the four types: the price and the amount are set to
    zero in the end. *)
Definition toTransaction (type : Z) (args : SendTxArgs3) : Transaction :=
  let from := fromAddress args in
  let to := if (type =? TxConvert) || (type =? TxRedeem) then from else zkTxAddress in
  let tx := newTransaction (default 0 (ar_Nonce args)) (Some to) (default 0 (ar_Value args)) (default 0 (ar_Gas args)) 0 (ar_Data args) in
  let tx := tx <| tx_TxCode := type |> in
  let tx := if (type =? TxConvert) || (type =? TxRedeem) then tx <| tx_ZKValue := argValue args |> else tx in
  tx <| tx_TxType := TxZK |> <| tx_Sender := Some from |> <| tx_Price := 0 |> <| tx_Amount := 0 |>
     <| tx_HibeSig := Some EmptyString |> <| tx_Level := bk_LocalLevel bk |>.

Local Abbreviation result := (string * option walletErr)%type.
Definition quit : MN result := ret (zeroHash, None).
Definition failWith (e : walletErr) : MN result := ret (zeroHash, Some e).

(** The start of every command: the state is asked for, which may fail; a serial number
    that is used up stops the command; and if the one before is not on the chain, the
    wallet falls back to it.  Then the defaults are set and the transaction is made
    from the sequence that the wallet is at. *)
Definition withSequence (latest : option walletErr + StateDB) (args : SendTxArgs3) (type : Z)
    (k : SendTxArgs3 -> Sequence -> Transaction -> MN result) : MN result :=
  n <- get ;;
  match wl_SNfile (nd_wallet n), wl_SequenceNumber (nd_wallet n), wl_SequenceNumberAfter (nd_wallet n) with
  | Some _, Some cur, Some after =>
      match latest with
      | inl e => ret (zeroHash, e)
      | inr state =>
          modify (fun n => n <| nd_state := state |>) ;;
          sn <- deref (sq_SN after) ;;
          exist <- onState (Exist (BytesToAddress sn)) ;;
          if exist && negb (bool_decide (sn = zeroHash)) then quit
          else
            sn <- deref (sq_SN cur) ;;
            exist <- onState (Exist (BytesToAddress sn)) ;;
            let after := if negb exist && negb (bool_decide (sn = zeroHash)) then cur else after in
            modify (fun n => n <| nd_wallet ::= fun w => w <| wl_SequenceNumberAfter := Some after |> |>) ;;
            match setDefaults args with
            | inl e => failWith e
            | inr args =>
                let tx := toTransaction type args in
                sn <- deref (sq_SN after) ;;
                k args after (tx <| tx_ZKSN := sn |>)
            end
      end
  | _, _, _ => quit
  end.

(** [submitZKTransaction], with [SendBatch] of [eth/api_backend.go]: whether there are
    peers of the upper level, and whether the transaction reaches them, is not told. *)
Definition submitZKTransaction (tx : Transaction) : MN string :=
  modify (fun n => n <| nd_sent ::= fun l => l ++ [tx] |>) ;;
  deref (ZKHashTx tx).

(** The end of every command. *)
Definition submitAndRecord (tx : Transaction) (s next : Sequence) (snfd : option Sequence) (stage : Z) : MN result :=
  hash <- submitZKTransaction tx ;;
  n <- get ;;
  let '(encoded, w) := recordStep s next snfd stage (nd_wallet n) in
  modify (fun n => n <| nd_wallet := w |>) ;;
  ret (if encoded : bool then hash else zeroHash, None).

(** [GenConvertProof] and [GenRedeemProof]. *)
Definition GenConvertProof (s : Sequence) (cmtNew snNew rNew : string) (valueNew : Z) : MN string :=
  sn <- deref (sq_SN s) ;; r <- deref (sq_Random s) ;; cmt <- deref (sq_CMT s) ;;
  ret (genConvertproof valueNew (sq_Value s) sn r snNew rNew cmt cmtNew (u64 (valueNew - sq_Value s))).
Definition GenRedeemProof (s : Sequence) (cmtNew snNew rNew : string) (valueNew : Z) : MN string :=
  sn <- deref (sq_SN s) ;; r <- deref (sq_Random s) ;; cmt <- deref (sq_CMT s) ;;
  ret (genRedeemproof valueNew (sq_Value s) sn r snNew rNew cmt cmtNew (u64 (sq_Value s - valueNew))).

(** [SendConvertTransaction]: the balance is compared by its low 64 bits. *)
Definition SendConvertTransaction (latest : option walletErr + StateDB) (args : SendTxArgs3) (newSN newRandom : string) : MN result :=
  withSequence latest args TxConvert (fun args s tx =>
    let newValue := u64 (sq_Value s + argValue args) in
    let newCMT := GenCMT newValue newSN newRandom in
    let tx := tx <| tx_ZKCMTbal := newCMT |> in
    balance <- onState (GetBalance (fromAddress args)) ;;
    if u64 balance <? tx_ZKValue tx then failWith notEnoughBalance
    else
      zkProof <- GenConvertProof s newCMT newSN newRandom newValue ;;
      n <- get ;;
      submitAndRecord (tx <| tx_ZKProof := zkProof |>) s (newSequence newSN newCMT newRandom newValue)
        (wl_SNFD (nd_wallet n)) stageConvert).

(** [SendRedeemTransaction]. *)
Definition SendRedeemTransaction (latest : option walletErr + StateDB) (args : SendTxArgs3) (newSN newRandom : string) : MN result :=
  withSequence latest args TxRedeem (fun args s tx =>
    if sq_Value s <? argValue args then failWith insufficientForRedeem
    else
      let newValue := u64 (sq_Value s - argValue args) in
      let newCMT := GenCMT newValue newSN newRandom in
      let tx := tx <| tx_ZKCMTbal := newCMT |> in
      zkProof <- GenRedeemProof s newCMT newSN newRandom newValue ;;
      n <- get ;;
      submitAndRecord (tx <| tx_ZKProof := zkProof |>) s (newSequence newSN newCMT newRandom newValue)
        (wl_SNFD (nd_wallet n)) stageRedeem).

(** [GenDepositProof]. *)
Definition GenDepositProof (s : Sequence) (valueS : Z) (owner snS rS cmtS : string) (valueNew : Z) (snNew rNew cmtNew : string) : MN string :=
  cmt <- deref (sq_CMT s) ;; r <- deref (sq_Random s) ;; sn <- deref (sq_SN s) ;;
  ret (genDepositproof (sq_Value s) snS rS sn r cmtS cmt valueS owner valueNew snNew rNew cmtNew).

(** [SendDepositTransaction]: the fund is for the account of the receiver. *)
Definition SendDepositTransaction (latest : option walletErr + StateDB) (args : SendTxArgs3) (newSN newRandom SNFD RFD : string) : MN result :=
  withSequence latest args TxDeposit (fun args s tx =>
    if sq_Value s <? argValue args then failWith insufficientForDeposit
    else
      let newValue := u64 (sq_Value s - argValue args) in
      let newCMT := GenCMT newValue newSN newRandom in
      let toAddress := dhibeAddress (mkDHibeAddress (ar_ToID args) (ar_ToIndex args)) in
      sn <- deref (sq_SN s) ;;
      let CMTFD := GenCMTFD (argValue args) toAddress SNFD RFD sn in
      let tx := tx <| tx_ZKCMTbal := newCMT |> <| tx_ZKCMTfd := CMTFD |> in
      zkProof <- GenDepositProof s (argValue args) toAddress SNFD RFD CMTFD newValue newSN newRandom newCMT ;;
      submitAndRecord (tx <| tx_ZKProof := zkProof |>) s (newSequence newSN newCMT newRandom newValue)
        (Some (mkSequence (Some SNFD) (Some CMTFD) (Some RFD) (argValue args) false (sq_SN s))) stageDeposit).

(** [Getfund]: what the receiver of the fund is told; the value is cut to 32 bits. *)
Record Fund := mkFund { fd_SN : string; fd_Random : string; fd_Value : Z; fd_CMT : string; fd_SNbal : string }.
Definition Getfund : MN Fund :=
  n <- get ;;
  fd <- deref (wl_SNFD (nd_wallet n)) ;;
  sn <- deref (sq_SN fd) ;; r <- deref (sq_Random fd) ;; cmt <- deref (sq_CMT fd) ;; snbal <- deref (sq_SNbal fd) ;;
  ret (mkFund (hashHex sn) (hashHex r) (sq_Value fd mod 2 ^ 32) (hashHex cmt) (hashHex snbal)).

(** *** The way of a fund to the root *)

Record BlockHead := mkBlockHead { bh_TxRoot : string; bh_StateRoot : string; bh_FdRoot : string; bh_Header : string; bh_BlockNumber : Z }.
Record TxField := mkTxField { tf_ZKSN : string; tf_ZKbal : string; tf_Header : string }.
Record TxInBlock := mkTxInBlock { tb_Txs : list string; tb_Txindex : Z }.
Record FDPath := mkFDPath {
  fp_Funds : list string;
  fp_FundsRoot : string;
  fp_BlockHeads : list BlockHead;
  fp_TxFields : list TxField;
  fp_TxInBlocks : list TxInBlock;
  fp_RootBlockHash : string;
  fp_Depth : Z;
}.
#[export] Instance FDPath_eta : Eta FDPath := fun r =>
  mkFDPath (fp_Funds r) (fp_FundsRoot r) (fp_BlockHeads r) (fp_TxFields r) (fp_TxInBlocks r) (fp_RootBlockHash r) (fp_Depth r).

Definition blockHead (h : Header) : BlockHead :=
  mkBlockHead (hd_TxHash h) (hd_Root h) (hd_RootCMTfd h) (hdr_hash h) (hnum h).

(** The transactions of a block above, of which those are noted whose first header is
    that of the block below; one without headers panics. *)
Fixpoint pathTxs (i : Z) (txs : list Transaction) (below : string) (tb : TxInBlock) (fs : list TxField) : outcome (TxInBlock * list TxField) :=
  match txs with
  | [] => Ret (tb, fs)
  | tx :: txs =>
      match ZKHashTx tx, tx_Headers tx with
      | Some hash, h :: _ =>
          let tb := mkTxInBlock (tb_Txs tb ++ [hash]) (tb_Txindex tb) in
          if bool_decide (h = below)
          then pathTxs (i + 1) txs below (mkTxInBlock (tb_Txs tb) (i mod 2 ^ 32)) (fs ++ [mkTxField (tx_ZKSN tx) (tx_ZKCMTbal tx) below])
          else pathTxs (i + 1) txs below tb fs
      | _, _ => Panic
      end
  end.
Fixpoint pathBlocks (proof : list string) (blockhash : string) (path : FDPath) : outcome (walletErr + string * FDPath) :=
  match proof with
  | [] => Ret (inr (blockhash, path))
  | p :: proof =>
      match decodeBlock p with
      | None => Ret (inl decodeBlockErr)
      | Some b =>
          match pathTxs 0 (b_transactions b) blockhash (mkTxInBlock [] 0) (fp_TxFields path) with
          | Ret (tb, fs) =>
              pathBlocks proof (hdr_hash (b_header b)) (path <| fp_TxFields := fs |> <| fp_TxInBlocks ::= fun l => l ++ [tb] |>)
          | Panic => Panic
          | OutOfFuel => OutOfFuel
          end
      end
  end.
(** [ExtractPathFromProof]: of the heads of the blocks only the first is kept. *)
Definition ExtractPathFromProof (proof : list string) : outcome (walletErr + FDPath) :=
  match proof with
  | _ :: p1 :: rest =>
      match decodeBlock p1 with
      | None => Ret (inl decodeBlockErr)
      | Some b =>
          let h := b_header b in
          let path := mkFDPath (hd_ZKFunds h) (hd_RootCMTfd h) [blockHead h] [] [] zeroHash 0 in
          match pathBlocks rest (hdr_hash h) path with
          | Ret (inr (blockhash, path)) =>
              Ret (inr (path <| fp_RootBlockHash := blockhash |> <| fp_Depth := (Z.of_nat (length proof) - 1) mod 2 ^ 32 |>))
          | Ret (inl e) => Ret (inl e)
          | Panic => Panic
          | OutOfFuel => OutOfFuel
          end
      end
  | _ => Ret (inl proofTooShort)
  end.

(** [GenWithdrawProof]: there is a prover for a path of one block only.  What the C++
    code throws ends the process. *)
Definition GenWithdrawProof (cmtS : string) (valueS : Z) (snS rS snA : string) (s : Sequence) (cmtNew snNew rNew owner : string)
    (path : FDPath) : MN string :=
  if fp_Depth path =? 1 then
    cmt <- deref (sq_CMT s) ;; r <- deref (sq_Random s) ;; sn <- deref (sq_SN s) ;;
    block1 <- deref (head (fp_BlockHeads path)) ;;
    let cmts := fp_Funds path ++ replicate (ZkfundsMerkleNODES - length (fp_Funds path)) noHeader in
    deref (genWithdrawproof1 (bh_TxRoot block1) (bh_StateRoot block1) (u64 (sq_Value s + valueS)) (sq_Value s) sn r snNew rNew snS rS
           cmt cmtNew valueS owner snA cmtS cmts (length (fp_Funds path)) (bh_Header block1))
  else ret EmptyString.

(** [SendWithdrawTransaction]. *)
Definition SendWithdrawTransaction (latest : option walletErr + StateDB) (args : SendTxArgs3) (newSN newRandom : string) : MN result :=
  withSequence latest args TxWithdraw (fun args s tx =>
    if negb (ar_Fdvalue args =? argValue args) then failWith inconsistentWithdrawValue
    else
      let newValue := u64 (sq_Value s + ar_Fdvalue args) in
      let newCMT := GenCMT newValue newSN newRandom in
      let tx := tx <| tx_ZKCMTbal := newCMT |> in
      let SNFD := HexToHash (ar_Fdsn args) in
      let RFD := HexToHash (ar_Fdrandom args) in
      let CMTFD := HexToHash (ar_Fdcmt args) in
      let SNbalFD := HexToHash (ar_Fdsnbal args) in
      match ExtractPathFromProof (ar_Proof args) with
      | Ret (inl e) => failWith e
      | Ret (inr path) =>
          zkProof <- GenWithdrawProof CMTFD (ar_Fdvalue args) SNFD RFD SNbalFD s newCMT newSN newRandom (fromAddress args) path ;;
          submitAndRecord (tx <| tx_ZKHeader := fp_RootBlockHash path |> <| tx_ZKProof := zkProof |>) s
            (newSequence newSN newCMT newRandom newValue)
            (Some (mkSequence (Some SNFD) (Some CMTFD) (Some RFD) (argValue args) false None)) stageWithdraw
      | Panic => panic
      | OutOfFuel => fun n => (OutOfFuel, n)
      end).
End Commands.
