(* ===== verification/WalletProofs.v ===== *)
(** * WalletProofs: what the commands of a wallet do

    A conversion, a redemption or a deposit makes a transaction that the chain accepts, as
    long as the wallet is in step with its account; a withdrawal makes one without a
    proof; and what becomes of the wallet when the node starts again. *)
From S2P Require Import Prelude.
From S2P Require Import Rlp.
From S2P Require Import RlpEncoding.
From S2P Require Import RlpStream.
From S2P Require Import RlpProofs.
From S2P Require Import Messages.
From S2P Require Import StateDB.
From S2P Require Import StateRoot.
From S2P Require Import Tx.
From S2P Require Import ZkTx.
From S2P Require Import ZkEffects.
From S2P Require Import ZkSafety.
From S2P Require Import Merkle.
From S2P Require Import Header.
From S2P Require Import Engine.
From S2P Require Import Blockchain.
From S2P Require Import Circuits.
From S2P Require Import Wallet.

(** ** Hexadecimal digits and lines *)

Lemma hexDigit_char d : 0 <= d < 16 -> hexDigit (hexChar d) = Some d.
Proof.
  intros H. unfold hexDigit, hexChar. destruct (Z.ltb_spec d 10); rewrite byteval_small by lia.
  - destruct (Z.leb_spec 48 (48 + d)), (Z.leb_spec (48 + d) 57); try lia. cbn. f_equal. lia.
  - destruct (Z.leb_spec 48 (87 + d)), (Z.leb_spec (87 + d) 57); try lia. cbn.
    destruct (Z.leb_spec 97 (87 + d)), (Z.leb_spec (87 + d) 102); try lia. cbn. f_equal. lia.
Qed.
Lemma hex_roundtrip b : hexDecode (hexEncode b) = b.
Proof.
  induction b as [|c b IH]; [done|]. cbn [hexEncode flat_map app hexDecode]. fold (hexEncode b). pose proof (byteval_range c).
  pose proof (Z.div_mod (byteval c) 256 ltac:(lia)). pose proof (Z.mod_pos_bound (byteval c) 16 ltac:(lia)).
  assert (0 <= byteval c / 16 < 16) by (split; [by apply Z.div_pos; lia|apply Z.div_lt_upper_bound; lia]).
  rewrite !hexDigit_char, IH by lia. f_equal. rewrite <- Z.div_mod by lia. apply tobyte_byteval.
Qed.
Lemma hexEncode_no_newline b : newline ∉ hexEncode b.
Proof.
  intros H. apply list_elem_of_In, in_flat_map in H as (c&_&H). pose proof (byteval_range c).
  assert (forall d, 0 <= d < 16 -> hexChar d <> newline) as Hd.
  { intros d Hd E. apply (f_equal hexDigit) in E. rewrite hexDigit_char in E by done. done. }
  pose proof (Z.mod_pos_bound (byteval c) 16 ltac:(lia)).
  assert (0 <= byteval c / 16 < 16) by (split; [by apply Z.div_pos; lia|apply Z.div_lt_upper_bound; lia]).
  destruct H as [E|[E|[]]]; by apply Hd in E.
Qed.
Lemma readLine_line line rest : newline ∉ line -> readLine ((line ++ [newline]) ++ rest) = line ++ [newline].
Proof.
  intros H. induction line as [|c line IH]; cbn [app readLine]; [by rewrite bool_decide_true|].
  apply not_elem_of_cons in H as [Hc H]. rewrite bool_decide_false by congruence. f_equal. by apply IH.
Qed.

(** The line that is written is the line that is read, however long the one before. *)
Lemma write_read line content : newline ∉ line -> readLine (writeLine line content) = line ++ [newline].
Proof. apply readLine_line. Qed.

(** ** Reading the wallet back *)

Section Reload.
Context `{SH : ShaEnv}.

Definition sizedHash (h : option string) : Prop := from_option (fun h => String.length h = 32%nat) True h.
(** The hashes have their length and the value its width. *)
Record sized (s : Sequence) : Prop := {
  sz_SN : sizedHash (sq_SN s);
  sz_CMT : sizedHash (sq_CMT s);
  sz_Random : sizedHash (sq_Random s);
  sz_SNbal : sizedHash (sq_SNbal s);
  sz_Value : is_u64 (sq_Value s);
}.

Lemma length_list_ascii s : length (String.list_ascii_of_string s) = String.length s.
Proof. induction s; cbn; congruence. Qed.

Definition hashItem (h : option string) : item := IStr (default [] (String.list_ascii_of_string <$> h)).
Lemma hash_stands h : sizedHash h -> stands hashPtr (hashVal h) (hashItem h).
Proof.
  intros H. destruct h as [h|]; [|exact (st_nil (TArray 32))]. apply st_ptr, st_array. rewrite length_list_ascii. exact H.
Qed.
Definition boolItem (b : bool) : item := IStr (if b then [Ascii.one] else []).
Definition sequenceItems (s : Sequence) : list item :=
  [hashItem (sq_SN s); hashItem (sq_CMT s); hashItem (sq_Random s); IStr (bigBytes (sq_Value s)); boolItem (sq_Valid s); IList []].
Lemma fields_stand s : sized s -> standsAll [hashPtr; hashPtr; hashPtr; TUint 64; TBool; TStruct []]
  [hashVal (sq_SN s); hashVal (sq_CMT s); hashVal (sq_Random s); VUint (sq_Value s); VBool (sq_Valid s); VList []] (sequenceItems s).
Proof.
  intros [H1 H2 H3 _ Hv]. repeat apply sa_cons; [by apply hash_stands..|apply st_uint; [unfold bits_ok; lia|exact Hv]|apply st_bool|apply st_struct, sa_nil|apply sa_nil].
Qed.
Lemma standsAll_app ts1 ts2 l1 l2 js1 js2 : standsAll ts1 l1 js1 -> standsAll ts2 l2 js2 -> standsAll (ts1 ++ ts2) (l1 ++ l2) (js1 ++ js2).
Proof. induction 1; intros H2; [done|]. cbn [app]. apply sa_cons; auto. Qed.

Definition sequenceItem (s : Sequence) : item := IList (sequenceItems s ++ [hashItem (sq_SNbal s)]).
Lemma sequence_stands s : sized s -> stands sequenceType (sequenceVal s) (sequenceItem s).
Proof.
  intros H. apply st_struct.
  apply (standsAll_app [hashPtr; hashPtr; hashPtr; TUint 64; TBool; TStruct []] [hashPtr]
    [hashVal (sq_SN s); hashVal (sq_CMT s); hashVal (sq_Random s); VUint (sq_Value s); VBool (sq_Valid s); VList []] [hashVal (sq_SNbal s)]);
    [by apply fields_stand|]. apply sa_cons; [apply hash_stands, H|apply sa_nil].
Qed.
Definition fundItem (s : option Sequence) : item := from_option sequenceItem (IList []) s.
Definition sequenceSItem (s1 s2 : Sequence) (sns : option Sequence) (stage : Z) : item :=
  IList [sequenceItem s1; sequenceItem s2; fundItem sns; IStr []; IStr []; IStr (bigBytes stage)].
Lemma sequenceS_stands s1 s2 sns stage : sized s1 -> sized s2 -> from_option sized True sns -> 0 <= stage < 256 ->
  stands sequenceSType (sequenceSVal s1 s2 sns stage) (sequenceSItem s1 s2 sns stage).
Proof.
  intros H1 H2 H3 Hs. apply st_struct. repeat apply sa_cons;
    [by apply sequence_stands|by apply sequence_stands| |apply st_nobig|apply st_nobig| |apply sa_nil].
  - destruct sns as [s|]; [apply st_ptr; by apply sequence_stands|exact (st_nil sequenceType)].
  - apply st_uint; [unfold bits_ok; lia|exact Hs].
Qed.

(** A sequence as the commands make them: everything but the number that a fund is bound
    to. *)
Record plainSequence (s : Sequence) : Prop := {
  ps_SN : is_Some (sq_SN s);
  ps_CMT : is_Some (sq_CMT s);
  ps_Random : is_Some (sq_Random s);
  ps_SNbal : sq_SNbal s = None;
}.

Lemma decode_plain k s v0 st r : sized s -> plainSequence s -> v0 = zero sequenceType ->
  stream_ok st -> st_kind st = None -> st_r st = enc (sequenceItem s) ++ r -> Z.of_nat (length (enc (sequenceItem s))) <= avail st ->
  exists st', decode (4 + length (st_r st) + k) sequenceType v0 st = (Ret (Some (decodeError inputStringTooShort), sequenceVal s), st').
Proof.
  intros Hz [[sn Hsn] [cmt Hcmt] [rnd Hrnd] Hbal] -> Hs Hf Er Ha. pose proof (avail_pos st Hs) as Hp.
  change (4 + length (st_r st) + k)%nat with (S (S (S (S (length (st_r st) + k))))). cbn [decode]. unfold sequenceType.
  unfold sequenceItem in *. set (js := sequenceItems s) in *. rewrite enc_list_header in *.
  assert (encs (js ++ [hashItem (sq_SNbal s)]) = encs js ++ enc (IStr [])) as Ee.
  { unfold encs. rewrite map_app, concat_app, Hbal. cbn. by rewrite app_nil_r. }
  rewrite Ee in *. set (m := Z.of_nat (length (encs js ++ enc (IStr [])))) in *. rewrite length_app in Ha. rewrite <- app_assoc in Er.
  rewrite (bind_eq _ _ _ _ _ (List_ok st m _ Hs Hf Er ltac:(lia) ltac:(lia))).
  set (h := Z.of_nat (length (puthead 192 247 m))) in *. set (s1 := pushed h m st).
  assert (stream_ok s1) as Hs1 by (apply pushed_ok; done || lia).
  assert (st_r s1 = encs js ++ enc (IStr []) ++ r) as Er1 by (cbn; unfold h; by rewrite Nat2Z.id, Er, drop_app_length, <- app_assoc).
  assert (length (st_r s1) <= length (st_r st))%nat as Hle by (cbn; rewrite length_drop; lia).
  assert (avail s1 = m) as Ha1 by apply avail_pushed.
  assert (m = Z.of_nat (length (encs js)) + 1) as Hm by (unfold m; rewrite length_app; change (length (enc (IStr []))) with 1%nat; lia).
  destruct (decodeFields_stop (decode (S (S (S (length (st_r st) + k))))) [hashPtr; hashPtr; hashPtr; TUint 64; TBool; TStruct []]
    [hashVal (sq_SN s); hashVal (sq_CMT s); hashVal (sq_Random s); VUint (sq_Value s); VBool (sq_Valid s); VList []] js
    [VPtr None; VPtr None; VPtr None; VUint 0; VBool false; VList []] hashPtr [] (VPtr None) [] (decodeError inputStringTooShort) (VPtr None)
    s1 (enc (IStr []) ++ r) (length (st_r s1))) as (s'&E); try done.
  - repeat apply Forall_cons_2; try apply Forall_nil_2; apply decode_ok; try (cbn [depth foldr map Nat.max hashPtr]; lia);
      repeat constructor; unfold bits_ok; try lia; done.
  - by apply fields_stand.
  - rewrite Hsn, Hcmt, Hrnd. repeat constructor.
  - repeat apply Forall2_cons_2; try apply Forall2_nil_2; try (by apply sh_nil); try (by apply sh_leaf). by apply sh_struct.
  - lia.
  - intros s2 Hs2 Hf2 Er2 Ha2. apply (decode_nil_array _ 32 s2 r); [lia|done..|lia].
  - cbn [app] in E. cbn [zero map hashPtr listOf]. change (zero hashPtr) with (VPtr None). rewrite (bind_eq _ _ _ _ _ E).
    eexists. unfold sequenceVal, hashVal at 4. by rewrite Hbal.
Qed.

Lemma valHash_val h : valHash (hashVal h) = h.
Proof. destruct h as [h|]; [|done]. cbn. by rewrite String.string_of_list_ascii_of_string. Qed.
Lemma valSequence_val s : valSequence (sequenceVal s) = s.
Proof. unfold sequenceVal, valSequence. rewrite !valHash_val. by destruct s. Qed.

(** The encoding is short. *)
Lemma length_puthead_le small large n : (length (puthead small large n) <= 9)%nat.
Proof. unfold puthead. pose proof (putint_length n). case_match; cbn [length]; lia. Qed.
Lemma length_encString_le b : (length (encString b) <= 9 + length b)%nat.
Proof.
  unfold encString. pose proof (length_puthead_le 128 183 1) as H1. pose proof (length_puthead_le 128 183 (Z.of_nat (length b))) as H2.
  destruct b as [|c [|d b]]; [done| |by rewrite length_app; lia]. case_match; [cbn [length]; lia|rewrite length_app; cbn [length]; lia].
Qed.
Lemma length_list_le js : (length (enc (IList js)) <= 9 + length (encs js))%nat.
Proof. rewrite enc_list_header, length_app. pose proof (length_puthead_le 192 247 (Z.of_nat (length (encs js)))). lia. Qed.
Lemma length_hash_le h : sizedHash h -> (length (enc (hashItem h)) <= 41)%nat.
Proof.
  intros H. cbn [enc hashItem]. etrans; [apply length_encString_le|]. destruct h as [h|]; cbn in *; [|lia].
  rewrite length_list_ascii, H. lia.
Qed.
Lemma length_uint_le bits i : bits_ok bits -> uint_ok bits i -> (length (enc (IStr (bigBytes i))) <= 17)%nat.
Proof.
  intros Hb Hi. cbn [enc]. etrans; [apply length_encString_le|]. pose proof (bigBytes_length bits i Hb Hi).
  assert (bits / 8 <= 8) by (destruct Hb as [->|[->|[->| ->]]]; done). lia.
Qed.
Lemma length_sequence_le s : sized s -> (length (enc (sequenceItem s)) <= 250)%nat.
Proof.
  intros [H1 H2 H3 H4 H5]. etrans; [apply length_list_le|]. cbn [sequenceItems app]. rewrite !encs_cons, !length_app.
  pose proof (length_hash_le _ H1). pose proof (length_hash_le _ H2). pose proof (length_hash_le _ H3). pose proof (length_hash_le _ H4).
  pose proof (length_uint_le 64 (sq_Value s) ltac:(unfold bits_ok; lia) H5).
  assert (length (enc (boolItem (sq_Valid s))) = 1%nat) as -> by (by destruct (sq_Valid s)).
  change (length (enc (IList []))) with 1%nat. change (length (encs [])) with 0%nat. lia.
Qed.
Lemma length_sequenceS_le s1 s2 sns stage : sized s1 -> sized s2 -> from_option sized True sns -> 0 <= stage < 256 ->
  (length (enc (sequenceSItem s1 s2 sns stage)) <= 800)%nat.
Proof.
  intros H1 H2 H3 Hs. etrans; [apply length_list_le|]. rewrite !encs_cons, !length_app.
  pose proof (length_sequence_le _ H1). pose proof (length_sequence_le _ H2).
  assert (length (enc (fundItem sns)) <= 250)%nat by (destruct sns; [by apply length_sequence_le|apply Nat.leb_le; reflexivity]).
  pose proof (length_uint_le 8 stage ltac:(unfold bits_ok; lia) Hs).
  change (length (enc (IStr []))) with 1%nat. change (length (encs [])) with 0%nat. lia.
Qed.

Lemma decode_struct fuel ts v : decode (S fuel) (TStruct ts) v =
  (r <- List ;;
   match r with
   | inl e => ret (Some (wrapStreamError e), v)
   | inr _ =>
       r <- decodeFields (decode fuel) ts (listOf v) ;;
       match r with
       | (Some e, l) => ret (Some e, VList l)
       | (None, l) => e <- ListEnd ;; ret (match e with inl e => Some (wrapStreamError e) | inr _ => None end, VList l)
       end
   end).
Proof. reflexivity. Qed.

Lemma decode_first k s js m st r : sized s -> plainSequence s -> stream_ok st -> st_kind st = None ->
  m = Z.of_nat (length (enc (sequenceItem s) ++ encs js)) -> st_r st = puthead 192 247 m ++ enc (sequenceItem s) ++ encs js ++ r ->
  Z.of_nat (length (puthead 192 247 m)) + m <= avail st ->
  exists st', decode (S (4 + length (st_r st) + k)) sequenceSType (zero sequenceSType) st =
    (Ret (Some (decodeError inputStringTooShort),
      VList [sequenceVal s; zero sequenceType; VPtr None; VBig None; VBig None; VUint 0]), st').
Proof.
  intros H1 Hp Hs0 Hf Em Er Ha. pose proof (avail_pos st Hs0) as Hav. rewrite length_app in Em. unfold sequenceSType at 1. rewrite decode_struct.
  rewrite (bind_eq _ _ _ _ _ (List_ok st m _ Hs0 Hf Er ltac:(lia) Ha)).
  set (h := Z.of_nat (length (puthead 192 247 m))) in *. set (s1 := pushed h m st).
  assert (stream_ok s1) as Hs1 by (apply pushed_ok; done || lia).
  assert (st_r s1 = enc (sequenceItem s) ++ encs js ++ r) as Er1.
  { unfold s1. cbn [pushed st_r]. unfold h. by rewrite Nat2Z.id, Er, drop_app_length. }
  assert (length (st_r s1) <= length (st_r st))%nat as Hle by (rewrite Er1, Er, !length_app; lia).
  destruct (decode_plain (length (st_r st) - length (st_r s1) + k) s (zero sequenceType) s1 (encs js ++ r) H1 Hp eq_refl Hs1 eq_refl Er1) as (s'&E).
  { unfold s1. rewrite avail_pushed. lia. }
  replace (4 + length (st_r s1) + (length (st_r st) - length (st_r s1) + k))%nat with (4 + length (st_r st) + k)%nat in E by lia.
  change (listOf (zero sequenceSType)) with [zero sequenceType; zero sequenceType; VPtr None; VBig None; VBig None; VUint 0].
  assert (decodeFields (decode (4 + length (st_r st) + k)) [sequenceType; sequenceType; TPtr sequenceType; TBig; TBig; TUint 8]
    [zero sequenceType; zero sequenceType; VPtr None; VBig None; VBig None; VUint 0] s1 =
    (Ret (Some (decodeError inputStringTooShort), [sequenceVal s; zero sequenceType; VPtr None; VBig None; VBig None; VUint 0]), s')) as E2.
  { cbn [decodeFields]. by rewrite (bind_eq _ _ _ _ _ E). }
  exists s'. by rewrite (bind_eq _ _ _ _ _ E2).
Qed.

Lemma decode_record s next sns stage : sized s -> sized next -> from_option sized True sns -> 0 <= stage < 256 -> plainSequence s ->
  DecodeBytes (enc (sequenceSItem s next sns stage)) sequenceSType (zero sequenceSType) =
    Ret (Some (decodeError inputStringTooShort), VList [sequenceVal s; zero sequenceType; VPtr None; VBig None; VBig None; VUint 0]).
Proof.
  intros H1 H2 H3 Hs Hp. pose proof (length_sequenceS_le s next sns stage H1 H2 H3 Hs) as Hl.
  set (js := [sequenceItem next; fundItem sns; IStr []; IStr []; IStr (bigBytes stage)]).
  assert (enc (sequenceSItem s next sns stage) = puthead 192 247 (Z.of_nat (length (enc (sequenceItem s) ++ encs js))) ++
    enc (sequenceItem s) ++ encs js ++ []) as Eb by (unfold sequenceSItem; by rewrite enc_list_header, app_nil_r).
  revert Hl Eb. generalize (enc (sequenceSItem s next sns stage)) as b. generalize dependent js. intros js b Hl Eb.
  assert (Z.of_nat (length b) < two64) as Hb by (unfold two64; lia). unfold DecodeBytes.
  destruct (decode_first 0 s js _ (NewStream b) [] H1 Hp (NewStream_ok b Hb) eq_refl eq_refl Eb) as (st'&E).
  { apply (f_equal length) in Eb. rewrite !length_app in Eb. rewrite length_app. cbn [length avail NewStream st_r st_stack] in *. lia. }
  assert (depth sequenceSType = 5%nat) as -> by reflexivity.
  replace (5 + length b)%nat with (S (4 + length (st_r (NewStream b)) + 0))%nat by (cbn [NewStream st_r]; lia).
  by rewrite E.
Qed.

(** What a step leaves in the file, read back at the next start. *)
Lemma load_step s next sns stage w content : sized s -> sized next -> from_option sized True sns -> 0 <= stage < 256 -> plainSequence s ->
  wl_SNfile w = Some content ->
  exists w', recordStep s next sns stage w = (true, w') /\ is_Some (wl_SNfile w') /\
    loadWallet (wl_SNfile w') = Ret (mkWallet (Some s) (Some blankSequence) None 0 (wl_SNfile w')).
Proof.
  intros H1 H2 H3 Hs Hp Hf. unfold recordStep.
  destruct (encode_spec _ _ _ (sequenceS_stands s next sns stage H1 H2 H3 Hs)) as (_&_&_&Ee&_). rewrite Ee.
  set (b := enc (sequenceSItem s next sns stage)) in *. eexists. split; [reflexivity|]. cbn [wl_SNfile upd]. rewrite Hf. split; [by eexists|].
  cbn [fmap option_fmap option_map loadWallet].
  rewrite write_read by apply hexEncode_no_newline. rewrite length_app. cbn [length].
  destruct (Nat.eqb_spec (length (hexEncode b) + 1) 0); [lia|].
  rewrite Nat.add_sub, take_app_length, hex_roundtrip.
  unfold b. rewrite (decode_record s next sns stage H1 H2 H3 Hs Hp). by rewrite valSequence_val.
Qed.
End Reload.

(** ** Roots keep accounts that were used *)

Definition pinned (s : StateDB) (a : string) (d : Account) : Prop := view s a = Some (d, false) /\ ac_Nonce d <> 0.

Lemma flush_pinned e b s s1 a d : flush e b s = (Ret tt, s1) -> pinned s a d -> pinned s1 a d.
Proof.
  intros (o&Eo&Ht&Ho&_&_)%flush_inv [Hv Hn]. split; [|done]. unfold view in *. rewrite Ho, Ht. destruct (decide (a = b)) as [->|Hab].
  - rewrite Eo in Hv. destruct (so_deleted o) eqn:Ed; [done|]. injection Hv as Hd Hs.
    assert (flushed e o = Some d) as ->.
    { unfold flushed. rewrite Hs. unfold empty. rewrite Hd. destruct (Z.eqb_spec (ac_Nonce d) 0); [done|]. cbn. by rewrite andb_false_r. }
    rewrite decide_False by (by intros [_ ?]). by rewrite Eo, Ed, Hd, Hs.
  - destruct (decide (a = b /\ flushed e o = None)) as [[? _]|_]; [done|]. by destruct (decide (a = b)).
Qed.
Lemma IntermediateRoot_pinned e s s1 a d : IntermediateRoot e s = (Ret tt, s1) -> pinned s a d -> pinned s1 a d.
Proof.
  unfold IntermediateRoot. rewrite bind_get. intros ([]&s0&E&H)%bind_inv. injection H as <-.
  intros Hp. change (pinned s0 a d). revert E Hp. generalize (elements (sdb_dirty s)) as l. intros l. revert s.
  induction l as [|b l IH]; intros s E Hp; cbn [for_each] in E; [by injection E as <-|].
  apply bind_inv in E as ([]&s2&E1&E2). apply (IH s2 E2). by eapply flush_pinned.
Qed.

(** ** The check of a serial number that is not used up *)

Section Applies.
Context `{ZE : ZkEnv} (config : ChainConfig) (number : Z) (coinbase : string).

(** The number can be used. *)
Definition unused (s : StateDB) (sn : string) : Prop := sn = zeroHash \/ view s (BytesToAddress sn) = None.

(** The accounts with the one of the serial number made. *)
Definition marked (sn : string) (a : string) (d : Account * bool) : Account * bool :=
  if decide (BytesToAddress sn = a) then (mkAccount 1 (ac_Balance d.1) (ac_CMT d.1) EmptyString, false) else d.

Lemma account_proper s s' a : s' ≡ s -> account s' a = account s a.
Proof. intros E. unfold account. by rewrite E. Qed.
Lemma updates_at a d s s' b : updates a d s s' -> account s' b = if decide (a = b) then d else account s b.
Proof. intros [_ U]. unfold account. rewrite U. by case_decide. Qed.

Lemma checkZK_run tx from s : sdb_wf s -> setsCMT (tx_TxCode tx) = true -> unused s (tx_ZKSN tx) ->
  verifyProof tx from (ac_CMT (account s from).1) = true ->
  exists s', runs (checkZK tx from) s (inr tt) s' /\ sdb_refund s' = sdb_refund s /\
    forall a, account s' a = marked (tx_ZKSN tx) a (account s a).
Proof.
  intros W Hc Hu Hp. destruct (Exist_run (snAddress tx) s W) as (s1&R1&Q1).
  destruct (read_run from ac_CMT s1 (proj2 R1)) as (s2&R2&_&Q2). rewrite (account_proper _ _ from Q1) in R2.
  destruct (CreateAccount_acts (snAddress tx) s2 (proj2 R2)) as (s3&A3&U3).
  destruct (SetNonce_acts (snAddress tx) 1 s3 (acts_wf _ _ _ _ A3)) as (s4&A4&U4). exists s4. split_and!.
  - unfold checkZK. rewrite Hc. cbn [negb]. eapply runsD_bind; [exact R1|]. cbv beta.
    replace (_ && negb (bool_decide (tx_ZKSN tx = zeroHash))) with false; cycle 1.
    { symmetry. destruct Hu as [Hz|Hv]; [rewrite (bool_decide_true (tx_ZKSN tx = _)) by done; apply andb_false_r|].
      unfold snAddress. rewrite Hv. rewrite bool_decide_false; [done|]. by intros []. }
    eapply runsD_bind; [exact R2|]. cbv beta. rewrite Hp. cbn [negb].
    eapply runsD_bind; [by apply acts_runs|]. eapply runsD_bind; [by apply acts_runs|]. split; [done|]. by eapply acts_wf.
  - destruct U4 as [-> _], U3 as [-> _], Q2 as (_&->&_), Q1 as (_&->&_). done.
  - intros a. rewrite (updates_at _ _ _ _ a U4). unfold marked. fold (snAddress tx). case_decide as E.
    + subst a. rewrite (updates_at _ _ _ _ _ U3), decide_True by done. cbn.
      rewrite (account_proper _ _ (snAddress tx) Q2), (account_proper _ _ (snAddress tx) Q1). done.
    + rewrite (updates_at _ _ _ _ a U3), decide_False by done. by rewrite (account_proper _ _ a Q2), (account_proper _ _ a Q1).
Qed.

(** A transaction as the commands make them, to a world in which it can be paid. *)
Record sendable (tx : Transaction) (from to : string) (w : World) : Prop := {
  se_type : tx_TxType tx = TxZK;
  se_code : setsCMT (tx_TxCode tx) = true;
  se_sender : tx_Sender tx = Some from;
  se_recipient : tx_Recipient tx = Some to;
  se_price : tx_Price tx = 0;
  se_amount : tx_Amount tx = 0;
  se_unused : unused (w_db w) (tx_ZKSN tx);
  se_proof : verifyProof tx from (ac_CMT (account (w_db w) from).1) = true;
  se_apart : from <> BytesToAddress (tx_ZKSN tx);
  se_nonce : tx_AccountNonce tx = ac_Nonce (account (w_db w) from).1;
  se_gas : 0 <= IntrinsicGas (tx_Payload tx) false (homestead config number) <= tx_GasLimit tx;
  se_limit : tx_GasLimit tx < two64;
  se_pool : tx_GasLimit tx <= w_gp w;
  se_balance : 0 <= ac_Balance (account (w_db w) from).1;
  se_plain : precompiled to = false;
  se_nocode : ac_Code (account (w_db w) to).1 = EmptyString;
}.

Lemma sent_runs tx from to w : sdb_wf (w_db w) -> sdb_refund (w_db w) = 0 -> sendable tx from to w ->
  exists s1, let used := IntrinsicGas (tx_Payload tx) false (homestead config number) in
    beforeRoot config number coinbase tx w = (Ret (inr used), mkWorld s1 (w_gp w - used)) /\
    (forall msg, AsMessage tx = Some msg -> forall a, account s1 a =
       (effect coinbase msg to used a (marked (tx_ZKSN tx) a (account (w_db w) a)).1, (marked (tx_ZKSN tx) a (account (w_db w) a)).2)).
Proof.
  intros W Hr [H1 H2 H3 H4 H5 H6 H7 H8 H9 H10 H11 H12 H13 H14 H15 H16].
  destruct (checkZK_run tx from (w_db w) W H2 H7 H8) as (s0&R0&Hr0&Ha0).
  set (msg := mkMessage (tx_Recipient tx) from (tx_AccountNonce tx) (tx_Amount tx) (tx_Price tx) (tx_GasLimit tx) (tx_Payload tx) true
                (tx_TxCode tx) (tx_ZKCMTbal tx) (tx_ZKValue tx)).
  assert (AsMessage tx = Some msg) as Em by (unfold AsMessage; by rewrite H3).
  set (w0 := mkWorld s0 (w_gp w)).
  assert (account s0 from = account (w_db w) from) as Hf by (rewrite Ha0; unfold marked; by rewrite decide_False by done).
  destruct (transition_run config number coinbase msg to w0 (proj2 R0)) as (s1&[R1 _]&[K1 E1]); cbn [msg m_data w_gp w0 w_db m_to] in *; try done; try congruence.
  { split; cbn; rewrite ?Hf, ?H5, ?H6; lia. }
  { rewrite Ha0. unfold marked. case_decide; [done|exact H16]. }
  exists s1. cbv zeta. split.
  - unfold beforeRoot. rewrite Em, H1, Z.eqb_refl. change (m_from msg) with from. unfold try, bind, db. rewrite (proj1 R0). exact R1.
  - intros msg' E'. rewrite Em in E'. injection E' as <-. intros a. rewrite <- (Ha0 a). destruct K1 as [_ Ks].
    destruct (account s1 a) as [d b] eqn:Ea. specialize (E1 a). specialize (Ks a). rewrite Ea in E1, Ks. cbn in E1, Ks. by rewrite E1, Ks.
Qed.
End Applies.

(** ** Commands *)

Inductive command := CConvert | CRedeem | CDeposit (SNFD RFD : string) | CWithdraw.

(** The change of the plain and of the hidden balance that a command asks for. *)
Definition plainChange (c : command) (x : Z) : Z := match c with CConvert => - x | CRedeem => x | _ => 0 end.
Definition hiddenChange (c : command) (x : Z) : Z := match c with CConvert | CWithdraw => x | _ => - x end.
Definition typeOf (c : command) : Z :=
  match c with CConvert => TxConvert | CRedeem => TxRedeem | CDeposit _ _ => TxDeposit | CWithdraw => TxWithdraw end.
Definition targetOf (c : command) (from : string) : string := match c with CConvert | CRedeem => from | _ => zkTxAddress end.

Section Steps.
Context `{TE : TxEnv} `{HA : HashEnv} `{MK : MerkleEnv} `{SH : ShaEnv} `{SN : SnarkEnv} `{WE : WalletEnv} `{ZE : ZkEnv}.
Context (bk : Backend) (config : ChainConfig) (number : Z) (coinbase : string).

Definition runCommand (c : command) (latest : option walletErr + StateDB) (args : SendTxArgs3) (newSN newRandom : string) :
    M Node (string * option walletErr) :=
  match c with
  | CConvert => SendConvertTransaction bk latest args newSN newRandom
  | CRedeem => SendRedeemTransaction bk latest args newSN newRandom
  | CDeposit SNFD RFD => SendDepositTransaction bk latest args newSN newRandom SNFD RFD
  | CWithdraw => SendWithdrawTransaction bk latest args newSN newRandom
  end.

(** The wallet is in step with the account: it can open the commitment of the account,
    and the transaction before is on the chain. *)
Record insync (w : Wallet) (s : StateDB) (from sn r : string) (v : Z) : Prop := {
  is_file : is_Some (wl_SNfile w);
  is_cur : exists cur sn0, wl_SequenceNumber w = Some cur /\ sq_SN cur = Some sn0 /\ (sn0 = zeroHash \/ is_Some (view s (BytesToAddress sn0)));
  is_after : wl_SequenceNumberAfter w = Some (newSequence sn (GenCMT v sn r) r v);
  is_cmt : ac_CMT (account s from).1 = GenCMT v sn r;
  is_value : is_u64 v;
}.

(** The balances allow the command; a withdrawal is not among them, since there is no
    proof for it ([withdrawal_sends_no_proof] below). *)
Definition affordable (c : command) (args : SendTxArgs3) (balance v : Z) : Prop :=
  let x := argValue args in
  match c with
  | CConvert => x <= balance < two64 /\ v + x < two64
  | CRedeem | CDeposit _ _ => x <= v
  | CWithdraw => False
  end.

Lemma unused_exist s sn : unused s sn -> bool_decide (is_Some (view s (BytesToAddress sn))) && negb (bool_decide (sn = zeroHash)) = false.
Proof.
  intros [->|E]; [rewrite (bool_decide_true (zeroHash = zeroHash)) by done; apply andb_false_r|].
  rewrite E. by rewrite bool_decide_false by (by intros []).
Qed.

Lemma bind_onState {A B} (m : M StateDB A) (f : A -> M Node B) w st sent r s : m st = (Ret r, s) ->
  bind (onState m) f (mkNode w st sent) = f r (mkNode w s sent).
Proof. intros E. unfold bind, onState. cbn. by rewrite E. Qed.
Lemma bind_deref {A B} (a : A) (f : A -> M Node B) n : bind (deref (Some a)) f n = f a n.
Proof. reflexivity. Qed.

(** A command goes on from a sequence. *)
Definition startsFrom (w : Wallet) (s : StateDB) (sn r : string) (v : Z) : Prop := forall args args' type k sent st0,
  setDefaults bk args = inr args' ->
  exists w' s', is_Some (wl_SNfile w') /\ sdb_wf s' /\ s' ≡ s /\ withSequence bk (inr s) args type k (mkNode w st0 sent) =
    k args' (newSequence sn (GenCMT v sn r) r v) ((toTransaction bk type args') <| tx_ZKSN := sn |>) (mkNode w' s' sent).

Lemma insync_starts w s from sn r v : sdb_wf s -> insync w s from sn r v -> unused s sn -> startsFrom w s sn r v.
Proof.
  intros W [[f Ef] (cur&sn0&Ec&Es&Hc) Ea _ _] Hu args args' type k sent st0 Hd. destruct (Exist_run (BytesToAddress sn) s W) as (s1&[E1 W1]&Q1).
  destruct (Exist_run (BytesToAddress sn0) s1 W1) as (s2&[E2 W2]&Q2). exists w, s2. split_and!; [by eexists|done|by transitivity s1|].
  unfold withSequence. rewrite bind_get. cbn [nd_wallet]. rewrite Ef, Ec, Ea, bind_modify. cbn [upd nd_state nd_wallet nd_sent].
  change (sq_SN (newSequence sn (GenCMT v sn r) r v)) with (Some sn). rewrite bind_deref.
  match goal with |- bind _ _ ?x = _ => change x with (mkNode w s sent) end. rewrite (bind_onState _ _ _ _ _ _ _ E1).
  rewrite unused_exist by done. rewrite Es, bind_deref.
  rewrite (bind_onState _ _ _ _ _ _ _ E2).
  assert (negb (bool_decide (is_Some (view s1 (BytesToAddress sn0)))) && negb (bool_decide (sn0 = zeroHash)) = false) as ->.
  { destruct Hc as [->|Hv]; [rewrite (bool_decide_true (zeroHash = zeroHash)) by done; apply andb_false_r|].
    rewrite (bool_decide_true (is_Some _)); [done|]. destruct Q1 as (_&_&Qv). by rewrite Qv. }
  cbv zeta. rewrite bind_modify, Hd. cbn [newSequence sq_SN]. rewrite bind_deref. f_equal. cbn. f_equal.
  destruct w as [c a g t fl]. cbn in *. by rewrite Ea.
Qed.

(** What a command leaves: a transaction sent, and the wallet at the next sequence. *)
Record leaves (n : Node) (tx : Transaction) (s0 next : Sequence) (n' : Node) : Prop := {
  lv_sent : nd_sent n' = nd_sent n ++ [tx];
  lv_cur : wl_SequenceNumber (nd_wallet n') = Some s0;
  lv_after : wl_SequenceNumberAfter (nd_wallet n') = Some next;
  lv_file : is_Some (wl_SNfile (nd_wallet n'));
}.
Lemma submit_run tx s0 next fd stage n : is_Some (tx_Sender tx) -> is_Some (wl_SNfile (nd_wallet n)) ->
  exists hash n', submitAndRecord tx s0 next fd stage n = (Ret (hash, None), n') /\ leaves n tx s0 next n'.
Proof.
  intros [from Hf] [f Ef]. unfold submitAndRecord, submitZKTransaction, ZKHashTx. rewrite Hf. cbn [mbind option_bind].
  destruct (recordStep s0 next fd stage (nd_wallet n)) as [b w] eqn:E.
  eexists (if b then _ else zeroHash), _. split.
  - unfold bind, modify, get, deref, ret. cbn. rewrite E. reflexivity.
  - unfold recordStep in E. destruct (EncodeToBytes _ _); injection E as _ <-; split; cbn; try done; rewrite Ef; by eexists.
Qed.

(** The transaction of a command. *)
Record made (c : command) (args : SendTxArgs3) (sn cmt : string) (tx : Transaction) : Prop := {
  md_type : tx_TxType tx = TxZK;
  md_code : tx_TxCode tx = typeOf c;
  md_sender : tx_Sender tx = Some (fromAddress args);
  md_recipient : tx_Recipient tx = Some (targetOf c (fromAddress args));
  md_price : tx_Price tx = 0;
  md_amount : tx_Amount tx = 0;
  md_sn : tx_ZKSN tx = sn;
  md_cmt : tx_ZKCMTbal tx = cmt;
  md_nonce : tx_AccountNonce tx = default 0 (ar_Nonce args);
  md_limit : tx_GasLimit tx = default 0 (ar_Gas args);
  md_payload : tx_Payload tx = ar_Data args;
  md_value : tx_ZKValue tx = Z.abs (plainChange c (argValue args));
}.

Context `{SC : !SnarkComplete}.

Lemma argValue_range args : 0 <= argValue args < two64.
Proof. apply u64_range. Qed.

Lemma GenConvertProof_run sn cmt0 r v cmt newSN newRandom v' n : GenConvertProof (newSequence sn cmt0 r v) cmt newSN newRandom v' n =
  (Ret (genConvertproof v' v sn r newSN newRandom cmt0 cmt (u64 (v' - v))), n).
Proof. reflexivity. Qed.
Lemma GenRedeemProof_run sn cmt0 r v cmt newSN newRandom v' n : GenRedeemProof (newSequence sn cmt0 r v) cmt newSN newRandom v' n =
  (Ret (genRedeemproof v' v sn r newSN newRandom cmt0 cmt (u64 (v - v'))), n).
Proof. reflexivity. Qed.
Lemma GenDepositProof_run sn cmt0 r v x owner snS rS cmtS v' newSN newRandom cmt n :
  GenDepositProof (newSequence sn cmt0 r v) x owner snS rS cmtS v' newSN newRandom cmt n =
  (Ret (genDepositproof v snS rS sn r cmtS cmt0 x owner v' newSN newRandom cmt), n).
Proof. reflexivity. Qed.

(** The end of a command, whose transaction has been made. *)
Lemma command_ends c args sn cmt0 r0 v0 next tx fd stage n w st0 sent cmt v' :
  is_Some (wl_SNfile (nd_wallet n)) -> nd_sent n = sent -> made c args sn cmt tx -> is_u64 v' ->
  verifyProof tx (fromAddress args) cmt0 = true ->
  exists hash tx' n', submitAndRecord tx (newSequence sn cmt0 r0 v0) next fd stage n = (Ret (hash, None), n') /\
    leaves (mkNode w st0 sent) tx' (newSequence sn cmt0 r0 v0) next n' /\ made c args sn cmt tx' /\ is_u64 v' /\
    verifyProof tx' (fromAddress args) cmt0 = true.
Proof.
  intros Hf Hs Hm Hv Hp. destruct (submit_run tx (newSequence sn cmt0 r0 v0) next fd stage n) as (hash&n'&E&[L1 L2 L3 L4]);
    [rewrite (md_sender _ _ _ _ _ Hm); by eexists|done|].
  exists hash, tx, n'. split; [done|]. split; [split; [cbn; congruence|done..]|]. done.
Qed.

Lemma command_sends c n s args args' newSN newRandom sn r v :
  setDefaults bk args = inr args' -> startsFrom (nd_wallet n) s sn r v -> is_u64 v ->
  affordable c args' (ac_Balance (account s (fromAddress args')).1) v ->
  let v' := v + hiddenChange c (argValue args') in let cmt := GenCMT v' newSN newRandom in
  exists hash tx n', runCommand c (inr s) args newSN newRandom n = (Ret (hash, None), n') /\
    leaves n tx (newSequence sn (GenCMT v sn r) r v) (newSequence newSN cmt newRandom v') n' /\
    made c args' sn cmt tx /\ is_u64 v' /\ verifyProof tx (fromAddress args') (GenCMT v sn r) = true.
Proof.
  intros Hd Hi Hv Ha v' cmt. destruct n as [w0 st0 sent]. cbn [nd_wallet] in Hi.
  pose proof (argValue_range args') as Hx. unfold is_u64 in Hv.
  destruct c as [| |SNFD RFD|]; cbn [affordable hiddenChange] in *; [set (t := TxConvert)|set (t := TxRedeem)|set (t := TxDeposit)|set (t := TxWithdraw)];
    match goal with |- context [runCommand ?c _ _ _ _ _] => let f := eval cbv [runCommand] in (runCommand c) in change (runCommand c) with f end;
    unfold SendConvertTransaction, SendRedeemTransaction, SendDepositTransaction, SendWithdrawTransaction;
    (edestruct (Hi args args' t) as (w&s1&Hfile&W1&Q1&E); [done|]; rewrite E; clear E);
    cbn [newSequence sq_Value sq_SN].
  - destruct (read_run (fromAddress args') ac_Balance s1 W1) as (s2&[E2 _]&_). rewrite (u64_small (v + _)) by (unfold is_u64; lia). fold v' cmt.
    rewrite (bind_onState (GetBalance (fromAddress args')) _ _ _ _ _ _ E2).
    rewrite (account_proper _ _ (fromAddress args') Q1), u64_small by (unfold is_u64; lia).
    match goal with |- context [_ <? tx_ZKValue ?t] => change (tx_ZKValue t) with (argValue args') end.
    destruct (Z.ltb_spec (ac_Balance (account s (fromAddress args')).1) (argValue args')); [lia|].
    rewrite (bind_eq _ _ _ _ _ (GenConvertProof_run _ _ _ _ _ _ _ _ _)), bind_get.
    apply command_ends; [done|done|split; try done; cbn; rewrite Z.abs_opp, Z.abs_eq by lia; done|unfold is_u64, v'; lia|].
    pose proof (convert_proved v sn r v' newSN newRandom ltac:(unfold v'; lia) ltac:(unfold v'; lia)) as Hp. fold cmt in Hp.
    assert (v' - v = argValue args') as Ex by (unfold v'; lia). rewrite Ex in *. rewrite u64_small by (unfold is_u64; lia). exact Hp.
  - destruct (Z.ltb_spec v (argValue args')); [lia|]. rewrite (u64_small (v - _)) by (unfold is_u64; lia). change (v - argValue args') with v'. fold cmt.
    rewrite (bind_eq _ _ _ _ _ (GenRedeemProof_run _ _ _ _ _ _ _ _ _)), bind_get.
    apply command_ends; [done|done|split; try done; cbn; rewrite Z.abs_eq by lia; done|unfold is_u64, v'; lia|].
    pose proof (redeem_proved v sn r v' newSN newRandom ltac:(unfold v'; lia) ltac:(lia)) as Hp. fold cmt in Hp.
    assert (v - v' = argValue args') as Ex by (unfold v'; lia). rewrite Ex in *. rewrite u64_small by (unfold is_u64; lia). exact Hp.
  - destruct (Z.ltb_spec v (argValue args')); [lia|]. rewrite (u64_small (v - _)) by (unfold is_u64; lia). change (v - argValue args') with v'. fold cmt.
    rewrite bind_deref, (bind_eq _ _ _ _ _ (GenDepositProof_run _ _ _ _ _ _ _ _ _ _ _ _ _ _)).
    apply command_ends; [done|done|by split|unfold is_u64, v'; lia|].
    exact (deposit_proved v sn r (argValue args') _ SNFD RFD newSN newRandom ltac:(lia) ltac:(lia)).
  - destruct Ha.
Qed.

(** A block in which a transaction of an account can be: its nonce and gas, and that
    the recipient is no contract. *)
Record payableAt (c : command) (args : SendTxArgs3) (sn : string) (w : World) : Prop := {
  pa_wf : sdb_wf (w_db w);
  pa_refund : sdb_refund (w_db w) = 0;
  pa_apart : fromAddress args <> BytesToAddress sn;
  pa_nonce : default 0 (ar_Nonce args) = ac_Nonce (account (w_db w) (fromAddress args)).1;
  pa_next : 0 <= default 0 (ar_Nonce args) < two64 - 1;
  pa_gas : 0 <= IntrinsicGas (ar_Data args) false (homestead config number) <= default 0 (ar_Gas args);
  pa_limit : default 0 (ar_Gas args) < two64;
  pa_pool : default 0 (ar_Gas args) <= w_gp w;
  pa_balance : 0 <= ac_Balance (account (w_db w) (fromAddress args)).1;
  pa_plain : precompiled (targetOf c (fromAddress args)) = false;
  pa_nocode : ac_Code (account (w_db w) (targetOf c (fromAddress args))).1 = EmptyString;
  pa_alive : (account (w_db w) (fromAddress args)).2 = false;
}.

Lemma made_sendable c args sn cmt tx w cmt0 : made c args sn cmt tx -> payableAt c args sn w -> unused (w_db w) sn ->
  ac_CMT (account (w_db w) (fromAddress args)).1 = cmt0 -> verifyProof tx (fromAddress args) cmt0 = true ->
  sendable config number tx (fromAddress args) (targetOf c (fromAddress args)) w.
Proof.
  intros [] [] Hu Hc Hp. split; try congruence.
  rewrite md_code0. by destruct c.
Qed.

(** The accounts after the transaction of a command: that of the sender, and that of
    the serial number. *)
Lemma sent_accounts c args sn cmt tx w s1 : made c args sn cmt tx -> payableAt c args sn w -> argValue args < 2 ^ 63 ->
  (forall msg, AsMessage tx = Some msg -> forall a, account s1 a =
     (effect coinbase msg (targetOf c (fromAddress args)) (IntrinsicGas (tx_Payload tx) false (homestead config number)) a
        (marked sn a (account (w_db w) a)).1, (marked sn a (account (w_db w) a)).2)) ->
  let d := (account (w_db w) (fromAddress args)).1 in
  pinned s1 (fromAddress args) (mkAccount (ac_Nonce d + 1) (ac_Balance d + plainChange c (argValue args)) cmt (ac_Code d)) /\
  exists d', pinned s1 (BytesToAddress sn) d'.
Proof.
  intros Hm Hp Hx Ha d. pose proof (argValue_range args) as Hx0. destruct Hm, Hp.
  assert (exists msg, AsMessage tx = Some msg) as [msg Em] by (unfold AsMessage; rewrite md_sender0; by eexists).
  specialize (Ha msg Em). unfold AsMessage in Em. rewrite md_sender0 in Em. injection Em as <-.
  assert (forall a d b, account s1 a = (d, b) -> ac_Nonce d <> 0 -> b = false -> pinned s1 a d) as Hpin.
  { intros a d1 b Ea Hn ->. split; [|done]. unfold account in Ea. destruct (view s1 a); cbn in Ea; [congruence|]. injection Ea as <-. done. }
  split.
  - eapply (Hpin _ _ false); [|cbn [ac_Nonce]; unfold d; lia|done]. rewrite Ha. unfold marked. rewrite decide_False by done. rewrite pa_alive0. fold d. f_equal.
    unfold effect, stamped, moved, at_, settlement. cbn [m_from m_txCode m_price m_amount m_zkValue m_cmt].
    rewrite !decide_True by done. rewrite md_price0, md_amount0, md_code0, md_cmt0, md_value0. unfold shift. cbn [ac_Nonce ac_Balance ac_CMT ac_Code].
    rewrite u64_small by (unfold is_u64, d; lia).
    assert (int64_of_u64 (Z.abs (plainChange c (argValue args))) = Z.abs (plainChange c (argValue args))) as ->.
    { unfold int64_of_u64. rewrite decide_True; [done|]. change (two64 / 2) with (2 ^ 63). destruct c; cbn [plainChange]; rewrite ?Z.abs_opp, ?Z.abs_eq by lia; lia. }
    assert (setsCMT (typeOf c) = true) as -> by by destruct c.
    repeat case_decide; try done; f_equal; cbn [ac_Nonce ac_Balance ac_CMT ac_Code]; try done;
      destruct c; cbn [plainChange typeOf]; cbn -[argValue Z.abs]; rewrite ?Z.abs_opp, ?Z.abs_eq by lia; lia.
  - eexists. eapply (Hpin _ _ false); [|shelve|done]. rewrite Ha. unfold marked. rewrite decide_True by done. reflexivity.
    Unshelve. unfold effect, stamped. cbn. rewrite decide_False by done. done.
Qed.


(** C11: A node that starts again has lost its hidden balance: whatever step was
    recorded, the file is read back up to the number of the fund in the first sequence
    only, which is nil and whose encoding is refused; the sequence to go on from is
    empty, and every command panics on it. *)
Theorem restart_loses_wallet s next sns stage w content : plainSequence s -> sized s -> sized next -> from_option sized True sns ->
  0 <= stage < 256 -> wl_SNfile w = Some content ->
  exists w1 w2, recordStep s next sns stage w = (true, w1) /\ loadWallet (wl_SNfile w1) = Ret w2 /\
    wl_SequenceNumberAfter w2 = Some blankSequence /\
    forall c state args newSN newRandom n, nd_wallet n = w2 -> (runCommand c (inr state) args newSN newRandom n).1 = Panic.
Proof.
  intros Hp H1 H2 H3 Hs Hf. destruct (load_step s next sns stage w content H1 H2 H3 Hs Hp Hf) as (w1&E1&[f Ef]&E2).
  eexists w1, _. split_and!; [done|exact E2|done|]. intros c state args newSN newRandom n Hn.
  assert (forall type k, (withSequence bk (inr state) args type k n).1 = Panic) as Hw.
  { intros type k. unfold withSequence. rewrite bind_get, Hn. cbn [wl_SNfile wl_SequenceNumber wl_SequenceNumberAfter]. rewrite Ef. reflexivity. }
  destruct c; apply Hw.
Qed.

(** A wallet whose last transaction is not on the chain starts from the sequence before. *)
Lemma pending_starts w s sn r v sn1 cmt1 r1 v1 : sdb_wf s -> is_Some (wl_SNfile w) ->
  wl_SequenceNumber w = Some (newSequence sn (GenCMT v sn r) r v) -> wl_SequenceNumberAfter w = Some (newSequence sn1 cmt1 r1 v1) ->
  view s (BytesToAddress sn) = None -> sn <> zeroHash -> unused s sn1 -> startsFrom w s sn r v.
Proof.
  intros W Hfile Ec Ea Hv Hz Hu args args' type k sent st0 Hd. destruct (Exist_run (BytesToAddress sn1) s W) as (s1&[E1 W1]&Q1).
  destruct (Exist_run (BytesToAddress sn) s1 W1) as (s2&[E2 W2]&Q2).
  eexists (w <| wl_SequenceNumberAfter := _ |>), s2. split_and!; [exact Hfile|done|by transitivity s1|].
  destruct Hfile as [f Ef]. unfold withSequence. rewrite bind_get. cbn [nd_wallet]. rewrite Ef, Ec, Ea, bind_modify.
  change (sq_SN (newSequence sn1 cmt1 r1 v1)) with (Some sn1). rewrite bind_deref.
  match goal with |- bind _ _ ?x = _ => change x with (mkNode w s sent) end. rewrite (bind_onState _ _ _ _ _ _ _ E1).
  rewrite unused_exist by done. change (sq_SN (newSequence sn (GenCMT v sn r) r v)) with (Some sn). rewrite bind_deref.
  rewrite (bind_onState _ _ _ _ _ _ _ E2). destruct Q1 as (_&_&Qv).
  rewrite (bool_decide_false (is_Some (view s1 (BytesToAddress sn)))) by (rewrite Qv, Hv; by intros []).
  rewrite (bool_decide_false (sn = zeroHash)) by done. cbv zeta. cbn [negb andb].
  rewrite bind_modify, Hd. cbn [newSequence sq_SN]. by rewrite bind_deref.
Qed.

(** The wallet of a sequence can open a commitment. *)
Definition opens (s : Sequence) (cmt : string) : Prop :=
  exists sn r, sq_SN s = Some sn /\ sq_Random s = Some r /\ GenCMT (sq_Value s) sn r = cmt.
Lemma opens_new sn cmt0 r v cmt : opens (newSequence sn cmt0 r v) cmt <-> GenCMT v sn r = cmt.
Proof. split; [by intros (?&?&[= <-]&[= <-]&?)|intros E; by exists sn, r]. Qed.

(** C12: A second command (conversion, redemption or deposit) before the first is on the
    chain forgets the first: both transactions are made from the same sequence, whose
    serial number is not the zero hash of a fresh wallet, and the wallet is left with
    this sequence and the one after the second.  As long as the three commitments
    differ, neither opens the commitment of the first transaction: if that is the one
    that gets on the chain, the hidden balance of the account cannot be opened from the
    wallet any more. *)
Theorem pending_forgotten c1 c2 n s args1 args1' args2 args2' sn1 r1 sn2 r2 sn r v : sdb_wf s ->
  setDefaults bk args1 = inr args1' -> setDefaults bk args2 = inr args2' -> fromAddress args1' = fromAddress args2' ->
  insync (nd_wallet n) s (fromAddress args1') sn r v -> view s (BytesToAddress sn) = None -> sn <> zeroHash ->
  unused s sn1 ->
  affordable c1 args1' (ac_Balance (account s (fromAddress args1')).1) v -> affordable c2 args2' (ac_Balance (account s (fromAddress args1')).1) v ->
  let v1 := v + hiddenChange c1 (argValue args1') in let v2 := v + hiddenChange c2 (argValue args2') in
  GenCMT v1 sn1 r1 <> GenCMT v sn r -> GenCMT v1 sn1 r1 <> GenCMT v2 sn2 r2 ->
  exists o1 n1 o2 n2, runCommand c1 (inr s) args1 sn1 r1 n = (Ret o1, n1) /\ runCommand c2 (inr s) args2 sn2 r2 n1 = (Ret o2, n2) /\
    exists tx1 tx2, nd_sent n2 = nd_sent n ++ [tx1; tx2] /\ tx_ZKSN tx1 = sn /\ tx_ZKSN tx2 = sn /\
      wl_SequenceNumber (nd_wallet n2) = wl_SequenceNumberAfter (nd_wallet n) /\
      wl_SequenceNumberAfter (nd_wallet n2) = Some (newSequence sn2 (GenCMT v2 sn2 r2) r2 v2) /\
      forall q, wl_SequenceNumber (nd_wallet n2) = Some q \/ wl_SequenceNumberAfter (nd_wallet n2) = Some q -> ~ opens q (tx_ZKCMTbal tx1).
Proof.
  intros W Hd1 Hd2 Hfrom Hi Hv Hz Hu Ha1 Ha2 v1 v2 Hne1 Hne2.
  destruct (command_sends c1 n s args1 args1' sn1 r1 sn r v Hd1 (insync_starts _ _ _ _ _ _ W Hi (or_intror Hv)) (is_value _ _ _ _ _ _ Hi) Ha1)
    as (h1&tx1&n1&E1&[L1 L2 L3 L4]&Hm1&_&_).
  rewrite Hfrom in Ha2.
  destruct (command_sends c2 n1 s args2 args2' sn2 r2 sn r v Hd2 (pending_starts _ _ _ _ _ _ _ _ _ W L4 L2 L3 Hv Hz Hu) (is_value _ _ _ _ _ _ Hi) Ha2)
    as (h2&tx2&n2&E2&[M1 M2 M3 M4]&Hm2&_&_).
  exists (h1, None), n1, (h2, None), n2. split_and!; [done..|]. exists tx1, tx2. split_and!.
  - by rewrite M1, L1, <- app_assoc.
  - apply Hm1.
  - apply Hm2.
  - by rewrite M2, (is_after _ _ _ _ _ _ Hi).
  - done.
  - rewrite (md_cmt _ _ _ _ _ Hm1). intros q [E|E]; rewrite ?M2, ?M3 in E; injection E as <-; rewrite opens_new; by apply not_eq_sym.
Qed.
End Steps.

(** ** Withdrawals from further away, and what a receiver is told *)

Section Funds.
Context `{TE : TxEnv} `{HA : HashEnv} `{MK : MerkleEnv} `{SH : ShaEnv} `{SN : SnarkEnv} `{WE : WalletEnv}.

(** There is no proof for a fund whose block is not the root itself: the transaction is
    sent with an empty one, and the wallet goes a step further all the same. *)
Lemma far_fund_without_proof cmtS x snS rS snA s cmt sn r owner path n : fp_Depth path <> 1 ->
  GenWithdrawProof cmtS x snS rS snA s cmt sn r owner path n = (Ret EmptyString, n).
Proof. intros H. unfold GenWithdrawProof. by destruct (Z.eqb_spec (fp_Depth path) 1). Qed.

(** A part of a command that sends nothing: the rest goes on with nothing sent yet. *)
Definition unsent {A} (m : M Node A) : Prop := forall n, nd_sent (m n).2 = nd_sent n.
Lemma bind_sent {A B} (m : M Node A) (f : A -> M Node B) n o n' : unsent m -> bind m f n = (o, n') ->
  nd_sent n' = nd_sent n \/ exists a n1, nd_sent n1 = nd_sent n /\ f a n1 = (o, n').
Proof.
  intros Hm. unfold bind. specialize (Hm n). destruct (m n) as [[a| |] n1]; cbn in Hm; [right; by exists a, n1|..]; intros [= <- <-]; by left.
Qed.
Lemma unsent_state {A} (m : M StateDB A) : unsent (onState m).
Proof. intros n. unfold onState. by destruct (m (nd_state n)). Qed.
Lemma unsent_deref {A} (p : option A) : unsent (deref p).
Proof. by destruct p. Qed.
Ltac sent_step H :=
  apply bind_sent in H as [?|(?&?&?&H)]; [left; congruence| |first [apply unsent_state|apply unsent_deref|by intros ?]].
Lemma withSequence_sent bk latest args type k n o n' : withSequence bk latest args type k n = (o, n') ->
  nd_sent n' = nd_sent n \/ exists args' s tx n1, nd_sent n1 = nd_sent n /\ k args' s tx n1 = (o, n').
Proof.
  unfold withSequence. rewrite bind_get. intros H.
  destruct (wl_SNfile (nd_wallet n)), (wl_SequenceNumber (nd_wallet n)) as [cur|], (wl_SequenceNumberAfter (nd_wallet n)) as [after|], latest as [e|st];
    try (injection H as <- <-; by left).
  sent_step H. sent_step H. sent_step H. case_match; [injection H as <- <-; left; congruence|].
  sent_step H. sent_step H. cbv zeta in H. sent_step H. destruct (setDefaults bk args) as [e|args']; [injection H as <- <-; left; congruence|].
  sent_step H. right. do 4 eexists. split; [|exact H]. congruence.
Qed.

(** The first block of a path is a header with its hash. *)
Lemma pathBlocks_heads ps h path r : pathBlocks ps h path = Ret (inr r) -> fp_BlockHeads r.2 = fp_BlockHeads path.
Proof.
  revert h path. induction ps as [|p ps IH]; intros h path; cbn [pathBlocks]; [by intros [= <-]|].
  destruct (decodeBlock p); [|done]. destruct (pathTxs _ _ _ _ _) as [[tb fs]| |]; [|done..]. intros E. by rewrite (IH _ _ E).
Qed.
Lemma path_head proof path : ExtractPathFromProof proof = Ret (inr path) -> exists h, head (fp_BlockHeads path) = Some (blockHead h).
Proof.
  destruct proof as [|p0 [|p1 rest]]; [done..|]. cbn [ExtractPathFromProof]. destruct (decodeBlock p1) as [b|]; [|done].
  cbv zeta. destruct (pathBlocks rest _ _) as [[e|[bh path']]| |] eqn:E; [done| |done..].
  intros [= <-]. apply pathBlocks_heads in E. cbn in E |- *. rewrite E. by eexists.
Qed.
Lemma no_withdraw_proof cmtS x snS rS snA s cmt sn r owner path h n p n1 :
  (forall a b c root, uint256S (ZKHashBlock a b c) <> sha256 (uint256S a +:+ uint256S b +:+ root)) ->
  head (fp_BlockHeads path) = Some (blockHead h) ->
  GenWithdrawProof cmtS x snS rS snA s cmt sn r owner path n = (p, n1) ->
  n1 = n /\ forall pr, p = Ret pr -> pr = emptyProof \/ pr = EmptyString.
Proof.
  intros Hne Hh. unfold GenWithdrawProof. case_match; [|intros [= <- <-]; split; [done|intros pr [= <-]; by right]].
  rewrite Hh. unfold bind, deref, panic, ret, blockHead. destruct (sq_CMT s), (sq_Random s), (sq_SN s); try (by intros [= <- <-]).
  cbn [bh_TxRoot bh_StateRoot bh_Header]. case_match eqn:E; intros [= <- <-]; [|done]. split; [done|intros pr [= <-]; left]. unfold hdr_hash in E. eapply withdraw_unproved; [|exact E]. intros root. apply Hne.
Qed.

Lemma submit_sent tx s0 next fd stage n o n' : submitAndRecord tx s0 next fd stage n = (o, n') -> nd_sent n' = nd_sent n ++ [tx].
Proof.
  unfold submitAndRecord, submitZKTransaction, bind, modify, deref, panic, ret, get. destruct (ZKHashTx tx); [|by intros [= <- <-]].
  cbn. destruct (recordStep _ _ _ _ _). by intros [= <- <-].
Qed.

(** There is no proof for a withdrawal: unless SHA-256 collides on the text of three
    roots and the bytes of three, what a withdrawal sends has the proof that libsnark
    makes without a satisfying assignment, or the empty one. *)
Lemma withdrawal_sends_no_proof bk latest args newSN newRandom n o n' :
  (forall a b c root, uint256S (ZKHashBlock a b c) <> sha256 (uint256S a +:+ uint256S b +:+ root)) ->
  SendWithdrawTransaction bk latest args newSN newRandom n = (o, n') ->
  nd_sent n' = nd_sent n \/ exists tx, nd_sent n' = nd_sent n ++ [tx] /\ (tx_ZKProof tx = emptyProof \/ tx_ZKProof tx = EmptyString).
Proof.
  intros Hne [H|(args'&s&tx&n1&En&H)]%withSequence_sent; [by left|]. rewrite <- En. clear En n.
  case_match; [injection H as <- <-; by left|]. cbv zeta in H.
  destruct (ExtractPathFromProof (ar_Proof args')) as [[e|path]| |] eqn:Ep; try (injection H as <- <-; by left).
  destruct (path_head _ _ Ep) as [h Eh]. unfold bind at 1 in H.
  destruct (GenWithdrawProof _ _ _ _ _ _ _ _ _ _ _ _) as [p n2] eqn:Eg. destruct (no_withdraw_proof _ _ _ _ _ _ _ _ _ _ _ _ _ _ _ Hne Eh Eg) as [-> Hp].
  destruct p as [p| |]; [|injection H as <- <-; by left..]. right. eexists. split; [by eapply submit_sent|]. exact (Hp p eq_refl).
Qed.

(** The path of a proof through blocks of which one has a transaction without headers
    is not extracted: the first header of every transaction is looked at. *)
Lemma payment_on_path_panics p0 p1 p2 b1 b2 tx txs hash : decodeBlock p1 = Some b1 -> decodeBlock p2 = Some b2 ->
  b_transactions b2 = tx :: txs -> ZKHashTx tx = Some hash -> tx_Headers tx = [] -> ExtractPathFromProof [p0; p1; p2] = Panic.
Proof. intros E1 E2 Et Eh En. unfold ExtractPathFromProof. rewrite E1. cbn [pathBlocks]. rewrite E2, Et. cbn [pathTxs]. by rewrite Eh, En. Qed.

(** The value of a fund is cut to 32 bits on its way to the receiver, whose withdrawal
    is for the value it has been told. *)
Lemma fund_value_cut n fd sn r cmt bal : wl_SNFD (nd_wallet n) = Some fd -> sq_SN fd = Some sn -> sq_Random fd = Some r ->
  sq_CMT fd = Some cmt -> sq_SNbal fd = Some bal -> 2 ^ 32 <= sq_Value fd ->
  exists f, Getfund n = (Ret f, n) /\ fd_Value f <> sq_Value fd.
Proof.
  intros E1 E2 E3 E4 E5 Hv. eexists. split.
  - unfold Getfund. rewrite bind_get, E1. cbn [deref]. unfold bind, ret. rewrite E2, E3, E4, E5. reflexivity.
  - cbn. pose proof (Z.mod_pos_bound (sq_Value fd) (2 ^ 32) ltac:(lia)). cbn in *. lia.
Qed.
End Funds.

(** ** Identities and addresses *)

(** A plain identity: ASCII characters, none of which is zero. *)
Definition asciiID (id : string) : Prop := Forall (fun c => 0 < byteval c < 128) (String.list_ascii_of_string id).

Lemma runeStarts_ascii fuel s : (length s <= fuel)%nat -> Forall (fun c => 0 < byteval c < 128) s -> runeStarts fuel s = s.
Proof.
  revert s. induction fuel as [|fuel IH]; intros s Hl H; (destruct s as [|c s]; [done|]); cbn [length] in Hl; [lia|].
  apply Forall_cons in H as [Hc H]. cbn [runeStarts].
  assert (runeLen (c :: s) = 1%nat) as ->.
  { unfold runeLen. destruct (Z.leb_spec 194 (byteval c)); [lia|]. destruct (Z.leb_spec 224 (byteval c)); [lia|].
    destruct (Z.leb_spec 240 (byteval c)); [lia|]. done. }
  cbn [Nat.sub repeat app]. rewrite drop_0, IH by (done || lia). done.
Qed.
Lemma idBytes_list n l r : Forall (fun c => 0 < byteval c < 128) l -> (length l = n \/ length l < n /\ head r = Some Ascii.zero)%nat ->
  idBytes n (String.string_of_list_ascii (l ++ r)) = String.string_of_list_ascii l.
Proof.
  revert n. induction l as [|c l IH]; intros n H Hn; cbn [length] in Hn.
  - destruct n as [|n]; [done|]. destruct Hn as [?|[_ Hr]]; [done|]. destruct r as [|d r]; [done|]. injection Hr as ->. done.
  - apply Forall_cons in H as [Hc H]. destruct n as [|n]; [lia|]. cbn [app String.string_of_list_ascii idBytes].
    rewrite decide_False by (intros ->; change (byteval Ascii.zero) with 0 in Hc; lia). f_equal. apply IH; [done|]. destruct Hn as [?|[? ?]]; [left|right]; lia || (split; [lia|done]).
Qed.

(** The identity can be read off the address. *)
Lemma identity_roundtrip id index : asciiID id -> (String.length id <= 16)%nat -> addressID (dhibeAddress (mkDHibeAddress id index)) = id.
Proof.
  intros Ha Hl. unfold dhibeAddress, addressID. cbn [da_ID da_Index]. destruct (Nat.ltb_spec 16 (String.length id)); [lia|].
  rewrite <- (length_list_ascii id) in *. rewrite runeStarts_ascii by done.
  rewrite idBytes_list; [by rewrite String.string_of_list_ascii_of_string|done|].
  destruct (Nat.eq_dec (length (String.list_ascii_of_string id)) 16) as [|Hn]; [by left|right]. split; [lia|].
  by destruct (16 - length (String.list_ascii_of_string id))%nat as [|k] eqn:E; [lia|].
Qed.
(** Different identities have the same address if their characters differ in other
    bytes than the first; so have all identities of more than 16 bytes. *)
Lemma identities_share_address index :
  dhibeAddress (mkDHibeAddress (String.string_of_list_ascii (map tobyte [195; 169])) index) =
  dhibeAddress (mkDHibeAddress (String.string_of_list_ascii (map tobyte [195; 168])) index).
Proof. reflexivity. Qed.
Lemma long_identities_share_address id1 id2 i1 i2 : (16 < String.length id1)%nat -> (16 < String.length id2)%nat ->
  dhibeAddress (mkDHibeAddress id1 i1) = dhibeAddress (mkDHibeAddress id2 i2).
Proof.
  intros H1 H2. unfold dhibeAddress. cbn [da_ID]. by destruct (Nat.ltb_spec 16 (String.length id1)), (Nat.ltb_spec 16 (String.length id2)); try lia.
Qed.
