(* ===== verification/WalletScenarios.v ===== *)
(** * WalletScenarios: a wallet in cases

    The theorems of WalletProofs.v on the wallet of one node, in a world where a proof
    is the statement that it is for, and a commitment a checksum. *)
From S2P Require Import Prelude.
From S2P Require Import Rlp.
From S2P Require Import RlpEncoding.
From S2P Require Import Messages.
From S2P Require Import StateDB.
From S2P Require Import Tx.
From S2P Require Import ZkTx.
From S2P Require Import ZkSafety.
From S2P Require Import Merkle.
From S2P Require Import Header.
From S2P Require Import Snapshot.
From S2P Require Import HeaderRules.
From S2P Require Import Engine.
From S2P Require Import Blockchain.
From S2P Require Import Circuits.
From S2P Require Import Wallet.
From S2P Require Import WalletProofs.

Local Open Scope string_scope.

#[local] Existing Instances sealEnv sealHash checksumEnv.
#[local] Instance walletSha : ShaEnv := {| sha256 s := BytesToHash (checksum s) |}.

(** The statements of the four proofs. *)
Definition statement (cmt0 sn0 cmt : string) (x : Z) : string := cmt0 +:+ sn0 +:+ cmt +:+ be_bytes 8 x.
#[local] Instance walletZk : ZkEnv := {|
  VerifyConvertProof c0 sn0 c x p := bool_decide (p = statement c0 sn0 c x);
  VerifyRedeemProof c0 sn0 c x p := bool_decide (p = statement c0 sn0 c x);
  VerifyDepositProof sn0 cmtS p c0 c := bool_decide (p = statement c0 sn0 c 0 +:+ cmtS);
  VerifyWithdrawProof owner header c0 sn0 c p := bool_decide (p = statement c0 sn0 c 0 +:+ owner +:+ header);
  precompiled _ := false;
  vm_run _ _ _ _ _ := ret (EmptyString, 0, Some ErrVM);
  CreateAddress c _ := "contract of " +:+ c |}.

Definition account1 : string := dhibeAddress (mkDHibeAddress "001" 1).
#[local] Instance walletSnark : SnarkEnv := {|
  r1cs_ppzksnark_prover a :=
    match a with
    | AConvert note_old note c0 c x | ARedeem note_old note c0 c x =>
        statement (uint256S c0) (uint256S (nt_sn note_old)) (uint256S c) x
    | ADeposit note_old note_s note c0 cS c => statement (uint256S c0) (uint256S (nt_sn note_old)) (uint256S c) 0 +:+ uint256S cS
    | AWithdraw note_s note_old note noteheader cS c0 c header path =>
        statement (uint256S c0) (uint256S (nt_sn note_old)) (uint256S c) 0 +:+ uint256S (ns_pk note_s) +:+ uint256S header
    end;
  emptyProof := "no proof" |}.
#[local] Instance walletBlocks : WalletEnv := {| decodeBlock _ := None |}.
#[local] Instance walletComplete : SnarkComplete.
Proof. intros a _. destruct a; by apply bool_decide_eq_true_2. Qed.

Definition walletBackend : Backend := mkBackend "001" 1 2 (inr 0) (fun _ => inr 0).
Definition walletBackend1 : Backend := mkBackend "001" 1 2 (inr 0) (fun _ => inr 1).
Definition forks1 : ChainConfig := mkChainConfig (Some 0) (Some 0).
Definition coin1 : string := BytesToAddress "sealer".

(** A node at the start, whose account the genesis block gives a balance. *)
Definition state0 : StateDB := New {[ account1 := mkAccount 0 1000 (GenCMT 0 zeroHash zeroHash) EmptyString ]}.
Definition node0 : Node := mkNode (mkWallet (Some InitializeSN) (Some InitializeSN) None 0 (Some [])) state0 [].
Definition hashArg (s : string) : string := BytesToHash s.

Definition convertArgs : SendTxArgs3 :=
  mkSendTxArgs3 "001" 1 "" 0 None None (Some 300) EmptyString None [] 0 "" "" "" "".
Definition depositArgs : SendTxArgs3 :=
  mkSendTxArgs3 "001" 1 "002" 0 None None (Some 40) EmptyString None [] 0 "" "" "" "".
Definition filled (args : SendTxArgs3) : SendTxArgs3 := match setDefaults walletBackend args with inr a => a | inl _ => args end.

Lemma state0_wf : sdb_wf state0.
Proof. apply New_wf. Qed.
Lemma node0_insync : insync (nd_wallet node0) state0 account1 zeroHash zeroHash 0.
Proof.
  split; [by eexists| |done|by vm_compute|done].
  exists InitializeSN, zeroHash. split_and!; [done..|by left].
Qed.
Lemma account1_apart : account1 <> BytesToAddress zeroHash.
Proof. by vm_compute. Qed.
Lemma state0_payable c args : ar_FromID args = "001" -> ar_FromIndex args = 1 -> ar_Nonce args = Some 0 -> ar_Gas args = Some 90000 ->
  ar_Data args = EmptyString ->
  payableAt forks1 1 c args zeroHash (mkWorld state0 1000000).
Proof.
  intros E1 E2 E3 E4 E5. assert (fromAddress args = account1) as Ef by (unfold fromAddress; by rewrite E1, E2).
  split; rewrite ?Ef, ?E3, ?E4, ?E5; cbn [default w_db w_gp]; try (by vm_compute); try apply state0_wf; try (split; by vm_compute).
  destruct c; by vm_compute.
Qed.

(** ** The theorems on it *)

(** A wallet that has a hidden balance of 50, and a state in which the number it is to
    use up is not used yet. *)
Definition sequence1 : Sequence := newSequence (hashArg "sn1") (GenCMT 50 (hashArg "sn1") (hashArg "r1")) (hashArg "r1") 50.
Definition state1 : StateDB := New {[ account1 := mkAccount 1 1000 (GenCMT 50 (hashArg "sn1") (hashArg "r1")) EmptyString ]}.
Definition node1 : Node := mkNode (mkWallet (Some InitializeSN) (Some sequence1) None 0 (Some [])) state1 [].
Lemma node1_insync : insync (nd_wallet node1) state1 account1 (hashArg "sn1") (hashArg "r1") 50.
Proof.
  split; [by eexists| |done|by vm_compute|done]. exists InitializeSN, zeroHash. split_and!; [done..|by left].
Qed.
Lemma state1_payable c args : ar_FromID args = "001" -> ar_FromIndex args = 1 -> ar_Nonce args = Some 1 -> ar_Gas args = Some 90000 ->
  ar_Data args = EmptyString ->
  payableAt forks1 1 c args (hashArg "sn1") (mkWorld state1 1000000).
Proof.
  intros E1 E2 E3 E4 E5. assert (fromAddress args = account1) as Ef by (unfold fromAddress; by rewrite E1, E2).
  split; rewrite ?Ef, ?E3, ?E4, ?E5; cbn [default w_db w_gp]; try (by vm_compute); try apply New_wf; try (split; by vm_compute).
  destruct c; by vm_compute.
Qed.

(** A conversion from the first sequence, and a deposit of a part of a hidden balance. *)
Definition deposit : command := CDeposit (hashArg "sn of the fund") (hashArg "r of the fund").

Lemma restart_loses_wallet_witness :
  exists w1 w2, recordStep InitializeSN InitializeSN None 0 (nd_wallet node0) = (true, w1) /\ loadWallet (wl_SNfile w1) = Ret w2 /\
    wl_SequenceNumberAfter w2 = Some blankSequence.
Proof.
  assert (sized InitializeSN) as Hz by (split; by vm_compute).
  destruct (restart_loses_wallet walletBackend InitializeSN InitializeSN None 0 (nd_wallet node0) []) as (w1&w2&E1&E2&E3&_);
    [split; [by eexists..|done]|done|done|done|lia|done|].
  by exists w1, w2.
Defined.

Lemma pending_forgotten_witness :
  exists o1 n1 o2 n2, runCommand walletBackend CConvert (inr state1) convertArgs (hashArg "sn2") (hashArg "r2") node1 = (Ret o1, n1) /\
    runCommand walletBackend CConvert (inr state1) convertArgs (hashArg "sn3") (hashArg "r3") n1 = (Ret o2, n2) /\
    wl_SequenceNumber (nd_wallet n2) = Some sequence1 /\
    wl_SequenceNumberAfter (nd_wallet n2) = Some (newSequence (hashArg "sn3") (GenCMT 350 (hashArg "sn3") (hashArg "r3")) (hashArg "r3") 350).
Proof.
  destruct (pending_forgotten walletBackend CConvert CConvert node1 state1 convertArgs (filled convertArgs) convertArgs (filled convertArgs)
    (hashArg "sn2") (hashArg "r2") (hashArg "sn3") (hashArg "r3") (hashArg "sn1") (hashArg "r1") 50)
    as (o1&n1&o2&n2&E1&E2&tx1&tx2&_&_&_&Ec&Ea&Ho).
  - apply New_wf.
  - reflexivity.
  - reflexivity.
  - reflexivity.
  - exact node1_insync.
  - by vm_compute.
  - by vm_compute.
  - right. by vm_compute.
  - by vm_compute.
  - by vm_compute.
  - by vm_compute.
  - by vm_compute.
  - exists o1, n1, o2, n2. split; [exact E1|]. split; [exact E2|]. split; [exact Ec|exact Ea].
Defined.
