(* ===== verification/CrossProof.v ===== *)
(** * CrossProof: proofs of cross-chain transactions

    Models [ValidateCrossChainTx], [VerifyProof] and their helpers of
    [core/tx_pool.go]: a transaction that redeems a cross-chain payment carries the
    payment, its block and one block of every chain above, each of which has a
    transaction with the hash of the block before. *)
From S2P Require Import Prelude.
From S2P Require Import Messages.
From S2P Require Import Tx.
From S2P Require Import Merkle.

(** The fields of a header that its hash covers, and a block with its body. *)
Record hashedHeader := mkHashed { hh_TxHash : string; hh_Root : string; hh_RootCMTfd : string }.
Record proofBlock := mkProofBlock { pb_header : hashedHeader; pb_transactions : list Transaction }.

(** What is not modelled: decoding of RLP bytes and Keccak over them. *)
Class ProofEnv := {
  decodeTx : string -> option Transaction;
  decodeBlock : string -> option proofBlock;
  bytesHash : string -> string;
}.

(** The two kinds of entries of the database that are read here. *)
Definition RootChainBlockHashSuffix : string := String (Ascii.ascii_of_nat 4) EmptyString.
Definition TxProofSuffix : string := String (Ascii.ascii_of_nat 5) EmptyString.
Definition Database : Type := gmap string string.

Inductive crossErr :=
| errProofSize
| errDecode
| errWrongProof
| errWrongSender
| errWrongValue.

Section Proofs.
Context `{TE : TxEnv} `{ME : MerkleEnv} `{PE : ProofEnv}.

(** [Block.Hash] and [Block.TxHash]. *)
Definition block_Hash (b : proofBlock) : string :=
  ZKHashBlock (hh_TxHash (pb_header b)) (hh_Root (pb_header b)) (hh_RootCMTfd (pb_header b)).

(** [ValidateProofRoot] and [ValidateProofAlreadyExist]; without a database there
    is nothing to check. *)
Definition ValidateProofRoot (rootproof : string) (db : option Database) : bool :=
  match db with
  | None => true
  | Some d => bool_decide (is_Some (d !! (rootproof +:+ RootChainBlockHashSuffix)))
  end.
Definition ValidateProofAlreadyExist (proof : string) (db : option Database) : bool :=
  match db with
  | None => false
  | Some d => bool_decide (is_Some (d !! (bytesHash proof +:+ TxProofSuffix)))
  end.

(** [checkHeaderExist]. *)
Definition checkHeaderExist (tx : Transaction) (hash : string) : bool :=
  bool_decide (hash ∈ tx_Headers tx).

(** The loop over the blocks of the chains above: the hash of the last one, or
    [None] when a block cannot be decoded or lacks the header. *)
Fixpoint climbBlocks (proof : list string) (blockhash : string) : option string :=
  match proof with
  | [] => Some blockhash
  | p :: proof' =>
      block ← decodeBlock p;
      if existsb (fun t => checkHeaderExist t blockhash) (pb_transactions block)
      then climbBlocks proof' (block_Hash block) else None
  end.

(** [VerifyProof]; a transaction without a sender has no hash and makes it panic,
    as does a block whose root cannot be computed. *)
Definition VerifyProof (proof : list string) (db : option Database) : outcome bool :=
  match proof with
  | p0 :: p1 :: rest =>
      match decodeTx p0 with
      | None => Ret false
      | Some tx =>
          match decodeBlock p1 with
          | None => Ret false
          | Some block1 =>
              let txs := pb_transactions block1 in
              match ZKHashTx tx, mapM ZKHashTx txs with
              | Some hash, Some hashes =>
                  if negb (bool_decide (hash ∈ hashes)) then Ret false
                  else
                    match DeriveShaTx txs with
                    | None => Panic
                    | Some root =>
                        if negb (bool_decide (root = hh_TxHash (pb_header block1))) then Ret false
                        else
                          match climbBlocks rest (block_Hash block1) with
                          | None => Ret false
                          | Some blockhash =>
                              Ret (ValidateProofRoot blockhash db && negb (ValidateProofAlreadyExist p0 db))
                          end
                    end
              | _, _ => Panic
              end
          end
      end
  | _ => Ret false
  end.

(** [ValidateCrossChainTx] under the number of levels of the hierarchy. *)
Definition ValidateCrossChainTx (TotalLevel : Z) (tx : Transaction) (db : option Database) : outcome (option crossErr) :=
  let proof := tx_CrossTxProof tx in
  if negb (Z.of_nat (length proof) =? TotalLevel + 1) then Ret (Some errProofSize)
  else
    match proof with
    | p0 :: proof' =>
        match decodeTx p0 with
        | None => Ret (Some errDecode)
        | Some oldtx =>
            match proof' with
            | p1 :: _ =>
                match decodeBlock p1 with
                | None => Ret (Some errDecode)
                | Some _ =>
                    match VerifyProof proof db with
                    | Ret false => Ret (Some errWrongProof)
                    | Ret true =>
                        match tx_Sender oldtx, tx_Recipient tx with
                        | None, _ => Panic
                        | Some from, to =>
                            if negb (bool_decide (tx_CrossChainSender tx = from)) then Ret (Some errWrongSender)
                            else match to with
                                 | None => Panic
                                 | Some to =>
                                     if negb (bool_decide (to = tx_CrossChainRecipient oldtx)) then Ret (Some errWrongSender)
                                     else if tx_Amount oldtx <? tx_Amount tx then Ret (Some errWrongValue)
                                     else Ret None
                                 end
                        end
                    | Panic => Panic
                    | OutOfFuel => OutOfFuel
                    end
                end
            | [] => Panic
            end
        end
    | [] => Panic
    end.

(** ** What an accepted proof shows *)

(** Every block of the chain has a transaction with the hash of the one before. *)
Inductive linked : list string -> string -> string -> Prop :=
  | linked_nil h : linked [] h h
  | linked_cons p ps b t h h' : decodeBlock p = Some b -> t ∈ pb_transactions b -> h ∈ tx_Headers t ->
      linked ps (block_Hash b) h' -> linked (p :: ps) h h'.

Lemma climbBlocks_linked ps h h' : climbBlocks ps h = Some h' <-> linked ps h h'.
Proof.
  revert h. induction ps as [|p ps IH]; intros h; cbn [climbBlocks].
  { split; [by intros [= ->]; constructor|by inversion 1]. }
  split.
  - destruct (decodeBlock p) as [b|] eqn:Ed; [|done]. cbn [mbind option_bind].
    destruct (existsb _ _) eqn:Ee; [|done]. apply existsb_exists in Ee as (t&Ht&Hh). intros Hc%IH.
    eapply linked_cons; [done|by apply list_elem_of_In|by apply bool_decide_eq_true in Hh|done].
  - inversion 1 as [|? ? b t ? ? Ed Ht Hh Hl]; subst. rewrite Ed. cbn [mbind option_bind].
    rewrite (proj2 (existsb_exists _ _)); [by apply IH|].
    exists t. split; [by apply list_elem_of_In|by apply bool_decide_eq_true].
Qed.

Lemma mapM_elem txs hs h : mapM ZKHashTx txs = Some hs -> h ∈ hs <-> exists t, t ∈ txs /\ ZKHashTx t = Some h.
Proof.
  intros E%mapM_Some. split.
  - intros (i&Hi)%list_elem_of_lookup. destruct (Forall2_lookup_r _ _ _ _ _ E Hi) as (t&Ht&Hh).
    exists t. split; [by eapply list_elem_of_lookup_2|done].
  - intros (t&(i&Hi)%list_elem_of_lookup&Hh). destruct (Forall2_lookup_l _ _ _ _ _ E Hi) as (h'&Hh'&E').
    rewrite Hh in E'. simplify_eq. by eapply list_elem_of_lookup_2.
Qed.

(** A hash that the node has stored as that of a block of the root chain, and the bytes
    of a payment that it has marked as redeemed. *)
Definition storedRoot (h : string) (d : Database) : Prop := is_Some (d !! (h +:+ RootChainBlockHashSuffix)).
Definition redeemed (p : string) (d : Database) : Prop := is_Some (d !! (bytesHash p +:+ TxProofSuffix)).

Lemma ValidateProofRoot_true h db : ValidateProofRoot h db = true <-> forall d, db = Some d -> storedRoot h d.
Proof.
  unfold ValidateProofRoot, storedRoot. destruct db as [d|]; [|done]. rewrite bool_decide_eq_true.
  split; [by intros ? ? [= <-]|by intros H; apply H].
Qed.

Lemma ValidateProofAlreadyExist_false p db :
  ValidateProofAlreadyExist p db = false <-> forall d, db = Some d -> ~ redeemed p d.
Proof.
  unfold ValidateProofAlreadyExist, redeemed. destruct db as [d|]; [|done]. rewrite bool_decide_eq_false.
  split; [by intros ? ? [= <-]|by intros H; apply H].
Qed.

(** The conditions under which [VerifyProof] accepts. *)
Record accepted (p0 p1 : string) (rest : list string) (db : option Database) (oldtx : Transaction) (b1 : proofBlock)
    (h : string) : Prop := {
  acc_tx : decodeTx p0 = Some oldtx;
  acc_block : decodeBlock p1 = Some b1;
  acc_in : exists t, t ∈ pb_transactions b1 /\ ZKHashTx t = ZKHashTx oldtx;
  acc_senders : Forall (fun t => is_Some (ZKHashTx t)) (oldtx :: pb_transactions b1);
  acc_root : DeriveShaTx (pb_transactions b1) = Some (hh_TxHash (pb_header b1));
  acc_linked : linked rest (block_Hash b1) h;
  acc_stored : forall d, db = Some d -> storedRoot h d;
  acc_fresh : forall d, db = Some d -> ~ redeemed p0 d;
}.

Lemma VerifyProof_accepts p0 p1 rest db :
  VerifyProof (p0 :: p1 :: rest) db = Ret true <-> exists oldtx b1 h, accepted p0 p1 rest db oldtx b1 h.
Proof.
  cbn [VerifyProof]. split.
  - destruct (decodeTx p0) as [tx|] eqn:Et; [|done]. destruct (decodeBlock p1) as [b1|] eqn:Eb; [|done].
    destruct (ZKHashTx tx) as [hash|] eqn:Eh; [|done]. destruct (mapM ZKHashTx (pb_transactions b1)) as [hs|] eqn:Em; [|done].
    destruct (bool_decide (hash ∈ hs)) eqn:Ein; [|done]. cbn [negb].
    destruct (DeriveShaTx (pb_transactions b1)) as [r|] eqn:Er; [|done].
    destruct (bool_decide (r = hh_TxHash (pb_header b1))) eqn:Eq; [|done]. cbn [negb].
    apply bool_decide_eq_true in Ein, Eq. apply (mapM_elem _ _ _ Em) in Ein as (t&Ht&Hh).
    destruct (climbBlocks rest (block_Hash b1)) as [h|] eqn:Ec; [|done].
    intros [= [Hs Hf%negb_true_iff]%andb_true_iff]. exists tx, b1, h. split; try done.
    + exists t. by rewrite Eh.
    + constructor; [by eexists|]. apply mapM_Some in Em. apply Forall_forall. intros x (i&Hi)%list_elem_of_lookup.
      destruct (Forall2_lookup_l _ _ _ _ _ Em Hi) as (?&_&->). by eexists.
    + by rewrite Er, Eq.
    + by apply climbBlocks_linked.
    + by apply ValidateProofRoot_true.
    + by apply ValidateProofAlreadyExist_false.
  - intros (tx&b1&h&[Et Eb (t&Ht&Eth) [[hash Eh] Hs]%Forall_cons Er Hl Hv Hf]). rewrite Et, Eb, Eh.
    assert (is_Some (mapM ZKHashTx (pb_transactions b1))) as [hs Em] by by apply mapM_is_Some.
    rewrite Em, bool_decide_true by (apply (mapM_elem _ _ _ Em); exists t; by rewrite Eth). cbn [negb].
    rewrite Er, bool_decide_true by done. cbn [negb].
    rewrite (proj2 (climbBlocks_linked _ _ _) Hl).
    by rewrite (proj2 (ValidateProofRoot_true _ _) Hv), (proj2 (ValidateProofAlreadyExist_false _ _) Hf).
Qed.
End Proofs.

(** ** Theorems *)

Section Theorems.
Context `{TE : TxEnv} `{ME : MerkleEnv} `{PE : ProofEnv}.

(** What a redeeming transaction shows: see [cross_chain_accept_sound]. *)
Definition redeems (TotalLevel : Z) (tx : Transaction) (db : option Database) : Prop :=
  exists p0 p1 rest oldtx b1 h, tx_CrossTxProof tx = p0 :: p1 :: rest /\
    Z.of_nat (length rest) = TotalLevel - 1 /\ accepted p0 p1 rest db oldtx b1 h /\
    tx_Sender oldtx = Some (tx_CrossChainSender tx) /\
    tx_Recipient tx = Some (tx_CrossChainRecipient oldtx) /\ tx_Amount tx <= tx_Amount oldtx.

Lemma cross_chain_sound TotalLevel tx db : ValidateCrossChainTx TotalLevel tx db = Ret None -> redeems TotalLevel tx db.
Proof.
  unfold ValidateCrossChainTx. cbv zeta.
  destruct (Z.eqb_spec (Z.of_nat (length (tx_CrossTxProof tx))) (TotalLevel + 1)) as [El|]; [|done]. cbn [negb].
  destruct (tx_CrossTxProof tx) as [|p0 [|p1 rest]] eqn:Ep; [done|by destruct (decodeTx p0)|].
  destruct (decodeTx p0) as [oldtx|] eqn:Et; [|done]. destruct (decodeBlock p1) as [b1|] eqn:Eb; [|done].
  destruct (VerifyProof (p0 :: p1 :: rest) db) as [[]| |] eqn:Ev; try done.
  apply VerifyProof_accepts in Ev as (oldtx'&b1'&h&Ha). pose proof (acc_tx _ _ _ _ _ _ _ Ha) as Et'.
  rewrite Et in Et'. injection Et' as <-.
  destruct (tx_Sender oldtx) as [from|] eqn:Ef; [|done].
  destruct (bool_decide (tx_CrossChainSender tx = from)) eqn:Es; [|done]. apply bool_decide_eq_true in Es. cbn [negb].
  destruct (tx_Recipient tx) as [to|] eqn:Er; [|done].
  destruct (bool_decide (to = tx_CrossChainRecipient oldtx)) eqn:Eto; [|done]. apply bool_decide_eq_true in Eto. cbn [negb].
  destruct (Z.ltb_spec (tx_Amount oldtx) (tx_Amount tx)) as [|Hle]; [done|]. intros _.
  exists p0, p1, rest, oldtx, b1', h. cbn [length] in El. split_and!; [done|lia|done|congruence|congruence|done].
Qed.

Lemma cross_chain_complete TotalLevel tx db : redeems TotalLevel tx db -> ValidateCrossChainTx TotalLevel tx db = Ret None.
Proof.
  intros (p0&p1&rest&oldtx&b1&h&Ep&El&Ha&Es&Er&Hle). unfold ValidateCrossChainTx. cbv zeta. rewrite Ep.
  replace (Z.of_nat (length (p0 :: p1 :: rest)) =? TotalLevel + 1) with true
    by (symmetry; apply Z.eqb_eq; cbn [length]; lia).
  cbn [negb]. rewrite (acc_tx _ _ _ _ _ _ _ Ha), (acc_block _ _ _ _ _ _ _ Ha).
  rewrite (proj2 (VerifyProof_accepts p0 p1 rest db)) by eauto. rewrite Es, Er, !bool_decide_true by done. cbn [negb].
  by rewrite (proj2 (Z.ltb_ge _ _)) by done.
Qed.

(** C28: A redeeming transaction is accepted exactly when its proof has one part for each
    level of the hierarchy and the payment, the payment is, by its hash, in a block whose
    transaction root is that of its transactions, the hash of each block is among the
    headers of a transaction of the next one, and the payment names the sender, the
    recipient and at least the amount of the transaction; and, when a database
    is given, the hash of the last block is stored in it as one of the root chain and the
    payment is not marked in it as redeemed.  Without a database, as when the transaction
    is submitted, the last two are not looked at. *)
Theorem cross_chain_accept_sound TotalLevel tx db :
  ValidateCrossChainTx TotalLevel tx db = Ret None <->
  exists p0 p1 rest oldtx b1 h, tx_CrossTxProof tx = p0 :: p1 :: rest /\
    Z.of_nat (length rest) = TotalLevel - 1 /\ accepted p0 p1 rest db oldtx b1 h /\
    tx_Sender oldtx = Some (tx_CrossChainSender tx) /\
    tx_Recipient tx = Some (tx_CrossChainRecipient oldtx) /\ tx_Amount tx <= tx_Amount oldtx.
Proof. split; [apply cross_chain_sound|apply cross_chain_complete]. Qed.

(** The amount and the recipient of the payment are not bound: from the proof
    of any payment one gets a proof of the same sender's payment of any amount to
    anyone, because the hash that is looked up in the block covers neither. *)
Theorem cross_payment_not_bound p0 p0' p1 rest db oldtx b1 h amount recipient :
  accepted p0 p1 rest db oldtx b1 h ->
  decodeTx p0' = Some (oldtx <| tx_Amount := amount |> <| tx_CrossChainRecipient := recipient |>) ->
  (forall d, db = Some d -> ~ redeemed p0' d) ->
  VerifyProof (p0' :: p1 :: rest) db = Ret true.
Proof.
  intros [Et Eb (t&Ht&Eth) [Ho Hs]%Forall_cons Er Hl Hv Hf] Et' Hf'. apply VerifyProof_accepts.
  eexists _, b1, h. split; try done.
  - by exists t.
  - by constructor.
Qed.

(** Blocks whose bodies link any hash to any header. *)
Lemma forge_chain (encB : proofBlock -> string) n h hd :
  (forall b, decodeBlock (encB b) = Some b) ->
  exists ps, length ps = S n /\ linked ps h (block_Hash (mkProofBlock hd [])).
Proof.
  intros Henc. revert h. induction n as [|n IH]; intros h.
  - set (t := (newTransaction 0 None 0 0 0 EmptyString) <| tx_Headers := [h] |>).
    exists [encB (mkProofBlock hd [t])]. split; [done|]. eapply linked_cons; [apply Henc|by left|by left|].
    apply linked_nil.
  - set (t := (newTransaction 0 None 0 0 0 EmptyString) <| tx_Headers := [h] |>).
    destruct (IH (block_Hash (mkProofBlock hd [t]))) as (ps&Hlen&Hl).
    exists (encB (mkProofBlock hd [t]) :: ps). split; [cbn; lia|].
    eapply linked_cons; [apply Henc|by left|by left|exact Hl].
Qed.

(** The bodies of the blocks above the first are not checked against their
    roots: in a hierarchy of at least two levels, for every header whose hash is
    stored and every payment that never happened there is a proof with which the
    redeeming transaction is accepted. *)
Theorem cross_proof_forgeable (encT : Transaction -> string) (encB : proofBlock -> string)
    TotalLevel db hd oldtx from :
  (forall t, decodeTx (encT t) = Some t) -> (forall b, decodeBlock (encB b) = Some b) ->
  2 <= TotalLevel -> (forall d, db = Some d -> storedRoot (block_Hash (mkProofBlock hd [])) d) ->
  tx_Sender oldtx = Some from -> (forall d, db = Some d -> ~ redeemed (encT oldtx) d) ->
  exists proof, forall tx, tx_CrossTxProof tx = proof -> tx_CrossChainSender tx = from ->
    tx_Recipient tx = Some (tx_CrossChainRecipient oldtx) -> tx_Amount tx <= tx_Amount oldtx ->
    ValidateCrossChainTx TotalLevel tx db = Ret None.
Proof.
  intros HT HB Hn Hv Hs Hf.
  assert (is_Some (ZKHashTx oldtx)) as [oh Eoh] by (unfold ZKHashTx; rewrite Hs; by eexists).
  assert (is_Some (DeriveShaTx [oldtx])) as [root Eroot].
  { unfold DeriveShaTx. cbn [mapM]. rewrite Eoh. cbn [mbind option_bind mret option_ret].
    rewrite GenTxRoot_spec by (cbn; lia). by eexists. }
  set (b1 := mkProofBlock (mkHashed root EmptyString EmptyString) [oldtx]).
  destruct (forge_chain encB (Z.to_nat (TotalLevel - 2)) (block_Hash b1) hd HB) as (ps&Hlen&Hl).
  exists (encT oldtx :: encB b1 :: ps). intros tx Ep Efrom Eto Hle.
  apply cross_chain_complete. exists (encT oldtx), (encB b1), ps, oldtx, b1, (block_Hash (mkProofBlock hd [])).
  split_and!; [done|lia| |congruence|done|done].
  split; [apply HT|apply HB| | |exact Eroot|done|done|done].
  - exists oldtx. split; [by left|done].
  - repeat constructor; by rewrite Eoh.
Qed.
End Theorems.

(** ** Concrete inputs *)

Local Open Scope string_scope.

#[local] Instance Transaction_countable : Countable Transaction.
Proof.
  apply (inj_countable'
    (fun t => ((tx_TxCode t, tx_ZKCMTbal t, tx_ZKCMTfd t, tx_ZKValue t, tx_ZKSN t, tx_ZKProof t),
               (tx_AccountNonce t, tx_TxType t, tx_Price t, tx_GasLimit t, tx_Sender t, tx_Recipient t),
               (tx_Amount t, tx_Payload t, tx_Level t, tx_Headers t, tx_ZKHeader t, tx_CrossTxProof t),
               (tx_V t, tx_R t, tx_S t, tx_CrossChainSender t, tx_CrossChainRecipient t, tx_HibeSig t)))
    (fun '((a1, a2, a3, a4, a5, a6), (b1, b2, b3, b4, b5, b6), (c1, c2, c3, c4, c5, c6), (d1, d2, d3, d4, d5, d6)) =>
       mkTransaction a1 a2 a3 a4 a5 a6 b1 b2 b3 b4 b5 b6 c1 c2 c3 c4 c5 c6 d1 d2 d3 d4 d5 d6)).
  by intros [].
Defined.
#[local] Instance hashedHeader_eq : EqDecision hashedHeader.
Proof. solve_decision. Defined.
#[local] Instance proofBlock_eq : EqDecision proofBlock.
Proof. solve_decision. Defined.
#[local] Instance proofBlock_countable : Countable proofBlock.
Proof.
  apply (inj_countable'
    (fun b => (hh_TxHash (pb_header b), hh_Root (pb_header b), hh_RootCMTfd (pb_header b), pb_transactions b))
    (fun '(a, b, c, d) => mkProofBlock (mkHashed a b c) d)).
  by intros [[] ].
Defined.

Definition encT (t : Transaction) : string := digits (encode t).
Definition encB (b : proofBlock) : string := digits (encode b).
Definition codeEnv : ProofEnv := {|
  decodeTx := fun s => decode (undigits s);
  decodeBlock := fun s => decode (undigits s);
  bytesHash := fun _ => "p" |}.

Lemma decode_encT t : @decodeTx codeEnv (encT t) = Some t.
Proof. cbn. unfold encT. by rewrite undigits_digits, decode_encode. Qed.
Lemma decode_encB b : @decodeBlock codeEnv (encB b) = Some b.
Proof. cbn. unfold encB. by rewrite undigits_digits, decode_encode. Qed.

(** A header of the root chain, stored with its hash, and a payment of a million
    that no chain has. *)
Definition rootHeader : hashedHeader := mkHashed "txs" "state" "funds".
Definition rootDB : Database := {[ ("txsstatefunds" +:+ RootChainBlockHashSuffix) := "" ]}.
Definition inventedTx : Transaction :=
  (plainTx "mallory") <| tx_Amount := 1000000 |> <| tx_CrossChainRecipient := "mallory2" |>.

Lemma cross_proof_forgeable_witness :
  exists proof, @ValidateCrossChainTx plainEnv pairingEnv codeEnv 2
    ((newTransaction 0 (Some "mallory2") 1000000 0 0 "") <| tx_CrossTxProof := proof |>
       <| tx_CrossChainSender := "mallory" |>) (Some rootDB) = Ret None.
Proof.
  destruct (@cross_proof_forgeable plainEnv pairingEnv codeEnv encT encB 2 (Some rootDB) rootHeader inventedTx "mallory"
    decode_encT decode_encB) as [proof Hp]; [lia| |done| |].
  { apply ValidateProofRoot_true. by vm_compute. }
  { by apply (@ValidateProofAlreadyExist_false codeEnv). }
  exists proof. apply Hp; [done|done|done|cbn; lia].
Defined.

(** The same with three named byte strings. *)
Definition paidTx : Transaction := (plainTx "alice") <| tx_Amount := 5 |> <| tx_CrossChainRecipient := "bob" |>.
Definition paidBlock : proofBlock :=
  mkProofBlock (mkHashed (default "" (@DeriveShaTx pairingEnv plainEnv [paidTx])) "s" "f") [paidTx].
Definition headerTx : Transaction := (plainTx "node") <| tx_Headers := [@block_Hash plainEnv paidBlock] |>.
Definition upperBlock : proofBlock := mkProofBlock rootHeader [headerTx].
Definition namedEnv : ProofEnv := {|
  decodeTx := fun s =>
    if decide (s = "paid") then Some paidTx
    else if decide (s = "raised") then Some (paidTx <| tx_Amount := 900 |> <| tx_CrossChainRecipient := "eve" |>) else None;
  decodeBlock := fun s =>
    if decide (s = "lower") then Some paidBlock else if decide (s = "upper") then Some upperBlock else None;
  bytesHash := fun s => s |}.
Definition redeemTx : Transaction :=
  (newTransaction 0 (Some "bob") 3 0 0 "") <| tx_CrossTxProof := ["paid"; "lower"; "upper"] |>
    <| tx_CrossChainSender := "alice" |>.

Lemma cross_chain_accept_sound_witness :
  exists p0 p1 rest oldtx b1 h, tx_CrossTxProof redeemTx = p0 :: p1 :: rest /\
    @accepted plainEnv pairingEnv namedEnv p0 p1 rest (Some rootDB) oldtx b1 h /\
    storedRoot h rootDB /\ ~ @redeemed namedEnv p0 rootDB.
Proof.
  destruct (proj1 (@cross_chain_accept_sound plainEnv pairingEnv namedEnv 2 redeemTx (Some rootDB)))
    as (p0&p1&rest&oldtx&b1&h&Ep&_&Ha&_); [by vm_compute|]. exists p0, p1, rest, oldtx, b1, h.
  split_and!; [exact Ep|exact Ha|by apply (acc_stored _ _ _ _ _ _ _ Ha)|by apply (acc_fresh _ _ _ _ _ _ _ Ha)].
Defined.

Lemma cross_payment_not_bound_witness :
  @VerifyProof plainEnv pairingEnv namedEnv ["raised"; "lower"; "upper"] (Some rootDB) = Ret true.
Proof.
  assert (@VerifyProof plainEnv pairingEnv namedEnv ["paid"; "lower"; "upper"] (Some rootDB) = Ret true) as E by by vm_compute.
  apply (@VerifyProof_accepts plainEnv pairingEnv namedEnv) in E as (oldtx&b1&h&Ha).
  assert (oldtx = paidTx) as -> by (pose proof (acc_tx _ _ _ _ _ _ _ Ha) as Et; change (Some paidTx = Some oldtx) in Et; congruence).
  apply (@cross_payment_not_bound plainEnv pairingEnv namedEnv "paid" "raised" "lower" ["upper"] (Some rootDB)
    paidTx b1 h 900 "eve" Ha); [by vm_compute|]. apply (@ValidateProofAlreadyExist_false namedEnv). by vm_compute.
Defined.
