(* ===== verification/ManagedState.v ===== *)
(** * ManagedState: the nonces of pending transactions

    Models [core/state/managed_state.go]: on top of a copy of a state, the nonce
    each account will have once its pending transactions are executed, and the
    nonces handed out beyond it.  Of the copied state only the nonces matter
    here. *)
From S2P Require Import Prelude.
From S2P Require Import Messages.

(** [account]; [nonces] tells which nonces from [nstart] on are taken. *)
Record account := mkAccount { ac_nstart : Z; ac_nonces : list bool }.

(** [ManagedState]; [ms_objects] are the nonces of the accounts of the copy. *)
Record ManagedState := mkManaged { ms_objects : gmap string Z; ms_accounts : gmap string account }.
#[export] Instance ManagedState_eta : Eta ManagedState := fun r => mkManaged (ms_objects r) (ms_accounts r).

Definition ManageState (objects : gmap string Z) : ManagedState := mkManaged objects ∅.

Local Abbreviation MM := (M ManagedState).

Definition newAccount (nonce : Z) : account := mkAccount nonce [].

(** One past the last nonce that was handed out. *)
Definition nextNonce (a : account) : Z := u64 (Z.of_nat (length (ac_nonces a)) + ac_nstart a).

Definition hasAccount (addr : string) : MM bool := gets (fun s => bool_decide (is_Some (ms_accounts s !! addr))).

(** [getAccount]; the state of the account wins if its nonce is higher. *)
Definition getAccount (addr : string) : MM account :=
  s <- get ;;
  let n := default 0 (ms_objects s !! addr) in
  match ms_accounts s !! addr with
  | None =>
      modify (fun s => s <| ms_objects ::= <[addr := n]> |> <| ms_accounts ::= <[addr := newAccount n]> |>) ;;
      ret (newAccount n)
  | Some a =>
      if bool_decide (is_Some (ms_objects s !! addr)) && (nextNonce a <? n)
      then modify (fun s => s <| ms_accounts ::= <[addr := newAccount n]> |>) ;; ret (newAccount n)
      else ret a
  end.

(** [GetNonce] and [SetNonce]. *)
Definition ms_GetNonce (addr : string) : MM Z :=
  has <- hasAccount addr ;;
  if has then a <- getAccount addr ;; ret (nextNonce a)
  else gets (fun s => default 0 (ms_objects s !! addr)).

Definition ms_SetNonce (addr : string) (nonce : Z) : MM unit :=
  modify (fun s => s <| ms_objects ::= <[addr := nonce]> |> <| ms_accounts ::= <[addr := newAccount nonce]> |>).

(** The first free index, or the length. *)
Fixpoint firstFree (l : list bool) : nat :=
  match l with true :: l' => S (firstFree l') | _ => O end.

(** [NewNonce]: a free nonce is returned without being taken. *)
Definition NewNonce (addr : string) : MM Z :=
  a <- getAccount addr ;;
  let i := firstFree (ac_nonces a) in
  if (i <? length (ac_nonces a))%nat then ret (u64 (ac_nstart a + Z.of_nat i))
  else
    modify (fun s => s <| ms_accounts ::= <[addr := mkAccount (ac_nstart a) (ac_nonces a ++ [true])]> |>) ;;
    ret (u64 (Z.of_nat (length (ac_nonces a)) + ac_nstart a)).

(** [RemoveNonce]. *)
Definition RemoveNonce (addr : string) (n : Z) : MM unit :=
  has <- hasAccount addr ;;
  when has
    (a <- getAccount addr ;;
     let k := u64 (n - ac_nstart a) in
     when (k <=? Z.of_nat (length (ac_nonces a)))
       (modify (fun s => s <| ms_accounts ::=
          <[addr := mkAccount (ac_nstart a) (take (Z.to_nat k) (ac_nonces a))]> |>))).

(** ** What the pool relies on *)

(** The nonce an account is given is the one it has until it is given another. *)
Lemma SetGetNonce addr n s : is_u64 n ->
  (ms_SetNonce addr n ;; ms_GetNonce addr) s = (Ret n, (ms_SetNonce addr n s).2).
Proof.
  intros Hn. unfold ms_SetNonce at 1. rewrite bind_modify. unfold ms_GetNonce, hasAccount.
  destruct s as [o a]. unfold bind, gets. cbn. rewrite lookup_insert_eq. cbn.
  unfold getAccount, bind, get. cbn. rewrite !lookup_insert_eq. cbn. unfold nextNonce at 1. cbn.
  rewrite Z.add_0_l, u64_small, Z.ltb_irrefl by done. cbn. unfold ret, nextNonce. cbn. by rewrite Z.add_0_l, u64_small.
Qed.

Lemma GetNonce_other addr addr' n s : addr <> addr' ->
  (ms_GetNonce addr' (ms_SetNonce addr n s).2).1 = (ms_GetNonce addr' s).1.
Proof.
  intros Hne. destruct s as [o a]. unfold ms_SetNonce, modify, ms_GetNonce, hasAccount, bind, gets. cbn.
  rewrite !lookup_insert_ne by done. destruct (a !! addr') as [acc|] eqn:E; cbn; [|by rewrite lookup_insert_ne].
  unfold getAccount, bind, get. cbn. rewrite !lookup_insert_ne, E by done.
  destruct (bool_decide _ && _); done.
Qed.

Lemma GetNonce_returns addr s : exists n s', ms_GetNonce addr s = (Ret n, s').
Proof.
  destruct s as [o a]. unfold ms_GetNonce, hasAccount, bind, gets. cbn.
  destruct (a !! addr) as [acc|] eqn:E; cbn; [|by eauto]. unfold getAccount, bind, get. cbn. rewrite E.
  destruct (bool_decide _ && _); eauto.
Qed.
