(* ===== verification/TxPool.v ===== *)
(** * TxPool: the transaction pool

    Models [core/tx_pool.go] and the price list of [core/tx_list.go]: validation,
    insertion, promotion of queued transactions to pending ones, demotion after a
    new block, the limits on both, and the eviction by price and by age.  The
    state, the gas limit and the time are fields that the pool only reads. *)
From S2P Require Import Prelude.
From S2P Require Import Messages.
From S2P Require Import Tx.
From S2P Require Import ZkTx.
From S2P Require Import GoHeap.
From S2P Require Import TxList.
From S2P Require Import Merkle.
From S2P Require Import CrossProof.
From S2P Require Import ManagedState.

(** ** The pool *)

Record TxPoolConfig := mkPoolConfig {
  NoLocals : bool;
  PriceLimit : Z;
  PriceBump : Z;
  AccountSlots : Z;
  GlobalSlots : Z;
  AccountQueue : Z;
  GlobalQueue : Z;
  Lifetime : Z;
}.
#[export] Instance TxPoolConfig_eta : Eta TxPoolConfig := fun r =>
  mkPoolConfig (NoLocals r) (PriceLimit r) (PriceBump r) (AccountSlots r) (GlobalSlots r) (AccountQueue r)
    (GlobalQueue r) (Lifetime r).

Definition DefaultTxPoolConfig : TxPoolConfig :=
  mkPoolConfig false 1 10 16 4096 64 1024 (3 * 3600 * 1000000000).

(** [sanitize]. *)
Definition sanitize (config : TxPoolConfig) : TxPoolConfig :=
  let conf := if PriceLimit config <? 1 then config <| PriceLimit := PriceLimit DefaultTxPoolConfig |> else config in
  if PriceBump conf <? 1 then conf <| PriceBump := PriceBump DefaultTxPoolConfig |> else conf.

(** What the pool reads of the current state: nonce and balance. *)
Record chainAccount := mkChainAccount { ca_nonce : Z; ca_balance : Z }.
Definition chainView : Type := gmap string chainAccount.
Definition cv_GetNonce (v : chainView) (a : string) : Z := from_option ca_nonce 0 (v !! a).
Definition cv_GetBalance (v : chainView) (a : string) : Z := from_option ca_balance 0 (v !! a).

Record TxPool := mkPool {
  tp_config : TxPoolConfig;
  tp_chainId : Z;
  tp_currentState : option chainView;
  tp_pendingState : ManagedState;
  tp_gasLimit : Z;
  tp_gasPrice : Z;
  tp_locals : gset string;
  tp_pending : gmap string txList;
  tp_queue : gmap string txList;
  tp_beats : gmap string Z;
  tp_all : gmap string Transaction;
  tp_items : list Transaction;
  tp_stales : Z;
  tp_homestead : bool;
  tp_DB : option Database;
  tp_now : Z;
  tp_tick : nat;
  tp_posted : list Transaction;
}.
#[export] Instance TxPool_eta : Eta TxPool := fun r =>
  mkPool (tp_config r) (tp_chainId r) (tp_currentState r) (tp_pendingState r) (tp_gasLimit r) (tp_gasPrice r)
    (tp_locals r) (tp_pending r) (tp_queue r) (tp_beats r) (tp_all r) (tp_items r) (tp_stales r) (tp_homestead r)
    (tp_DB r) (tp_now r) (tp_tick r) (tp_posted r).

Inductive poolErr :=
| ErrInvalidSender
| ErrNonceTooLow
| ErrUnderpriced
| ErrReplaceUnderpriced
| ErrInsufficientFunds
| ErrIntrinsicGas
| ErrGasLimit
| ErrNegativeValue
| ErrOversizedData
| errKnown (hash : string)
| errNoState
| errCross (e : crossErr).

(** The place of the node in the hierarchy, and the priority queue of
    [gopkg.in/karalabe/cookiejar.v2], which is not modelled: the order in which it
    returns what was pushed, the highest priority first. *)
Class PoolEnv := {
  TotalLevel : Z;
  NodeID : string;
  prqueOrder : nat -> list (string * Z) -> list (string * Z);
  prqueOrder_perm : forall t l, prqueOrder t l ≡ₚ l;
  prqueOrder_sorted : forall t l, StronglySorted (fun a b => b.2 <= a.2) (prqueOrder t l);
}.

Local Abbreviation MP := (M TxPool).
Definition zeroAddress : string := zeros 20.

Section Pool.
Context `{GR : GoRange} `{TE : TxEnv} `{ME : MerkleEnv} `{PE : ProofEnv} `{PO : PoolEnv}.

(** ** Helpers *)

(** The number of the next loop over a map. *)
Definition tick : MP nat := t <- gets tp_tick ;; modify (fun p => p <| tp_tick := (t + 4)%nat |>) ;; ret t.

Definition hashOf (tx : Transaction) : MP string :=
  match ZKHashTx tx with Some h => ret h | None => panic end.

Definition call {A} (o : outcome A) : MP A := fun p => (o, p).

(** [types.Sender] with the signer of the transaction's type; the result does not
    depend on the cache ([Sender_derive]). *)
Definition poolSender (tx : Transaction) : MP (sigErr + string) :=
  p <- get ;;
  match typeSigner (EIP155Signer (tp_chainId p)) tx with
  | Some sg => call (derive sg tx)
  | None => panic
  end.

(** Its value where the error is dropped. *)
Definition fromOf (tx : Transaction) : MP string :=
  r <- poolSender tx ;; ret (match r with inr a => a | inl _ => zeroAddress end).

(** Running a list of the pool in place; a missing one is a nil pointer. *)
Definition onPending {A} (addr : string) (m : M txList A) : MP A := fun p =>
  match tp_pending p !! addr with
  | Some l => let '(r, l') := m l in (r, p <| tp_pending ::= <[addr := l']> |>)
  | None => (Panic, p)
  end.
Definition onQueue {A} (addr : string) (m : M txList A) : MP A := fun p =>
  match tp_queue p !! addr with
  | Some l => let '(r, l') := m l in (r, p <| tp_queue ::= <[addr := l']> |>)
  | None => (Panic, p)
  end.
Definition onPendingState {A} (m : M ManagedState A) : MP A := fun p =>
  let '(r, s) := m (tp_pendingState p) in (r, p <| tp_pendingState := s |>).

(** [accountSet.containsTx]: with the signer of the pool, except that the cache of
    a zero-knowledge transaction answers for every signer. *)
Definition containsTx (tx : Transaction) : MP bool :=
  p <- get ;;
  r <- call (derive (if tx_TxType tx =? TxZK then ZKSigner else EIP155Signer (tp_chainId p)) tx) ;;
  ret (match r with inr a => bool_decide (a ∈ tp_locals p) | inl _ => false end).

(** ** [txPricedList] *)

Definition priceLess (a b : Transaction) : bool := tx_Price a <? tx_Price b.

Definition priced_Put (tx : Transaction) : MP unit :=
  modify (fun p => p <| tp_items ::= fun h => heap_Push priceLess h tx |>).

Definition priced_Removed : MP unit :=
  modify (fun p => p <| tp_stales ::= Z.succ |>) ;;
  p <- get ;;
  if tp_stales p <=? Z.of_nat (length (tp_items p)) / 4 then ret tt
  else
    t <- tick ;;
    modify (fun p => p <| tp_stales := 0 |> <| tp_items := heap_Init priceLess (go_range t (tp_all p)).*2 |>).

Definition priced_pop : MP Transaction :=
  p <- get ;;
  match heap_Pop priceLess (tp_items p) with
  | Some (tx, h) => modify (fun p => p <| tp_items := h |>) ;; ret tx
  | None => panic
  end.

Definition staleTx (tx : Transaction) : MP bool :=
  h <- hashOf tx ;; gets (fun p => bool_decide (tp_all p !! h = None)).

(** The loop of [Cap]: what is dropped and what is pushed back; the transaction
    that ends the loop is in neither. *)
Fixpoint capLoop (fuel : nat) (threshold : Z) (drop save : list Transaction)
    : MP (list Transaction * list Transaction) :=
  p <- get ;;
  match fuel, tp_items p with
  | S fuel', _ :: _ =>
      tx <- priced_pop ;;
      stale <- staleTx tx ;;
      if stale then modify (fun p => p <| tp_stales ::= Z.pred |>) ;; capLoop fuel' threshold drop save
      else if threshold <=? tx_Price tx then ret (drop, save)
      else
        local <- containsTx tx ;;
        if local then capLoop fuel' threshold drop (save ++ [tx])
        else capLoop fuel' threshold (drop ++ [tx]) save
  | _, _ => ret (drop, save)
  end.
Definition priced_Cap (threshold : Z) : MP (list Transaction) :=
  p <- get ;;
  r <- capLoop (length (tp_items p)) threshold [] [] ;;
  for_each r.2 priced_Put ;; ret r.1.

(** [Underpriced]. *)
Fixpoint dropStale (fuel : nat) : MP unit :=
  p <- get ;;
  match fuel, tp_items p with
  | S fuel', head :: _ =>
      stale <- staleTx head ;;
      when stale (modify (fun p => p <| tp_stales ::= Z.pred |>) ;; priced_pop ;; dropStale fuel')
  | _, _ => ret tt
  end.
Definition priced_Underpriced (tx : Transaction) : MP bool :=
  local <- containsTx tx ;;
  if local then ret false
  else
    p <- get ;;
    dropStale (length (tp_items p)) ;;
    p <- get ;;
    ret (match tp_items p with [] => false | cheapest :: _ => tx_Price tx <=? tx_Price cheapest end).

(** [Discard]. *)
Fixpoint discardLoop (fuel : nat) (count : Z) (drop save : list Transaction)
    : MP (list Transaction * list Transaction) :=
  p <- get ;;
  match fuel, tp_items p with
  | S fuel', _ :: _ =>
      if count <=? 0 then ret (drop, save)
      else
        tx <- priced_pop ;;
        stale <- staleTx tx ;;
        if stale then modify (fun p => p <| tp_stales ::= Z.pred |>) ;; discardLoop fuel' count drop save
        else
          local <- containsTx tx ;;
          if local then discardLoop fuel' count drop (save ++ [tx])
          else discardLoop fuel' (count - 1) (drop ++ [tx]) save
  | _, _ => ret (drop, save)
  end.
Definition priced_Discard (count : Z) : MP (list Transaction) :=
  p <- get ;;
  r <- discardLoop (length (tp_items p)) count [] [] ;;
  for_each r.2 priced_Put ;; ret r.1.

(** ** Validation *)

(** A computation that may refuse with an error. *)
Definition orElse {A B} (m : MP (poolErr + A)) (k : A -> MP (poolErr + B)) : MP (poolErr + B) :=
  r <- m ;; match r with inl e => ret (inl e) | inr a => k a end.

(** [validateTx].  It resets the minimal gas price, reads the recipient of every
    transaction, and records the proof of a cross-chain transaction as used. *)
Definition validateTx (tx : Transaction) (local : bool) : MP (option poolErr) :=
  if 32 * 1024 <? txSize tx then ret (Some ErrOversizedData)
  else if tx_Amount tx <? 0 then ret (Some ErrNegativeValue)
  else
    p <- get ;;
    if tp_gasLimit p <? tx_GasLimit tx then ret (Some ErrGasLimit)
    else
      sender <- poolSender tx ;;
      match sender with
      | inl _ => ret (Some ErrInvalidSender)
      | inr from =>
          let local := local || bool_decide (from ∈ tp_locals p) in
          modify (fun p => p <| tp_gasPrice := 0 |>) ;;
          if negb local && (tx_Price tx <? 0) then ret (Some ErrUnderpriced)
          else
            match tp_currentState p with
            | None => ret (Some errNoState)
            | Some currentState =>
                if tx_AccountNonce tx <? cv_GetNonce currentState from then ret (Some ErrNonceTooLow)
                else if cv_GetBalance currentState from <? Cost tx then ret (Some ErrInsufficientFunds)
                else if (tx_TxType tx =? TxZK) && ((tx_TxCode tx =? TxConvert) || (tx_TxCode tx =? TxDeposit))
                        && (u64 (cv_GetBalance currentState from) <? tx_ZKValue tx)
                then ret (Some ErrInsufficientFunds)
                else if tx_GasLimit tx <? IntrinsicGas (tx_Payload tx) (bool_decide (tx_Recipient tx = None)) (tp_homestead p)
                then ret (Some ErrIntrinsicGas)
                else
                  match tx_Recipient tx with
                  | None => panic
                  | Some recepient =>
                      crossed <-
                        (if tx_TxType tx =? TxCrossChain then
                           match PID (addressID recepient) with
                           | None => panic
                           | Some pid =>
                               if bool_decide (pid = NodeID)
                               then call (ValidateCrossChainTx TotalLevel tx (tp_DB p))
                               else ret None
                           end
                         else ret None) ;;
                      match crossed, tx_CrossTxProof tx with
                      | Some e, _ => ret (Some (errCross e))
                      | None, proof0 :: _ =>
                          if tx_TxType tx =? TxCrossChain then
                            match tp_DB p with
                            | None => panic
                            | Some db =>
                                modify (fun p => p <| tp_DB := Some (<[bytesHash proof0 +:+ TxProofSuffix := proof0]> db) |>) ;;
                                ret None
                            end
                          else ret None
                      | None, [] => ret None
                      end
                  end
            end
      end.

(** ** Insertion and removal *)

(** Forgetting a transaction that left its list. *)
Definition forget (tx : Transaction) : MP unit :=
  h <- hashOf tx ;; modify (fun p => p <| tp_all ::= delete h |>) ;; priced_Removed.

(** Entering a transaction in place of the one it replaced, which both insertions
    do. *)
Definition indexing (hash : string) (tx : Transaction) (old : option Transaction) : MP unit :=
  match old with Some o => forget o | None => ret tt end ;;
  modify (fun p => p <| tp_all ::= <[hash := tx]> |>) ;;
  priced_Put tx.

(** An account without a list gets one. *)
Definition ensureQueue (addr : string) : MP unit :=
  p <- get ;;
  when (bool_decide (tp_queue p !! addr = None))
    (modify (fun p => p <| tp_queue ::= <[addr := newTxList false]> |>)).
Definition ensurePending (addr : string) : MP unit :=
  p <- get ;;
  when (bool_decide (tp_pending p !! addr = None))
    (modify (fun p => p <| tp_pending ::= <[addr := newTxList true]> |>)).

(** [enqueueTx]: whether the transaction replaced one. *)
Definition enqueueTx (hash : string) (tx : Transaction) : MP (poolErr + bool) :=
  from <- fromOf tx ;;
  ensureQueue from ;;
  p <- get ;;
  r <- onQueue from (tl_Add tx (PriceBump (tp_config p))) ;;
  let '(inserted, old) := r in
  if negb inserted then ret (inl ErrReplaceUnderpriced)
  else
    indexing hash tx old ;;
    ret (inr (bool_decide (is_Some old))).

(** [promoteTx]. *)
Definition promoteTx (addr hash : string) (tx : Transaction) : MP unit :=
  ensurePending addr ;;
  p <- get ;;
  r <- onPending addr (tl_Add tx (PriceBump (tp_config p))) ;;
  let '(inserted, old) := r in
  if negb inserted then modify (fun p => p <| tp_all ::= delete hash |>) ;; priced_Removed
  else
    match old with Some o => forget o | None => ret tt end ;;
    p <- get ;;
    when (bool_decide (tp_all p !! hash = None))
      (modify (fun p => p <| tp_all ::= <[hash := tx]> |>) ;; priced_Put tx) ;;
    modify (fun p => p <| tp_beats ::= <[addr := tp_now p]> |>) ;;
    onPendingState (ms_SetNonce addr (u64 (tx_AccountNonce tx + 1))) ;;
    modify (fun p => p <| tp_posted ::= fun l => l ++ [tx] |>).

(** Lowering the pending nonce of an account. *)
Definition lowerNonce (addr : string) (nonce : Z) : MP unit :=
  n <- onPendingState (ms_GetNonce addr) ;;
  when (nonce <? n) (onPendingState (ms_SetNonce addr nonce)).

(** The two halves of [removeTx]: from the pending list, whose later transactions
    go back to the queue unless the list is empty without them, and from the
    queue. *)
Definition removePending (addr : string) (tx : Transaction) : MP bool :=
  p <- get ;;
  match tp_pending p !! addr with
  | None => ret false
  | Some _ =>
      t <- tick ;;
      r <- onPending addr (tl_Remove t tx) ;;
      if negb r.1 then ret false
      else
        isEmpty <- onPending addr tl_Empty ;;
        (if isEmpty then
           modify (fun p => p <| tp_pending ::= delete addr |> <| tp_beats ::= delete addr |>)
         else for_each r.2 (fun tx => h <- hashOf tx ;; enqueueTx h tx ;; ret tt)) ;;
        lowerNonce addr (tx_AccountNonce tx) ;;
        ret true
  end.

Definition removeQueued (addr : string) (tx : Transaction) : MP unit :=
  p <- get ;;
  match tp_queue p !! addr with
  | None => ret tt
  | Some _ =>
      t <- tick ;;
      onQueue addr (tl_Remove t tx) ;;
      isEmpty <- onQueue addr tl_Empty ;;
      when isEmpty (modify (fun p => p <| tp_queue ::= delete addr |>))
  end.

(** [removeTx]. *)
Definition removeTx (hash : string) : MP unit :=
  p <- get ;;
  match tp_all p !! hash with
  | None => ret tt
  | Some tx =>
      let sg := default (EIP155Signer (tp_chainId p)) (typeSigner (EIP155Signer (tp_chainId p)) tx) in
      r <- call (derive sg tx) ;;
      let addr := match r with inr a => a | inl _ => zeroAddress end in
      modify (fun p => p <| tp_all ::= delete hash |>) ;;
      priced_Removed ;;
      removed <- removePending addr tx ;;
      when (negb removed) (removeQueued addr tx)
  end.

(** [add]. *)
Definition add (tx : Transaction) (local : bool) : MP (poolErr + bool) :=
  hash <- hashOf tx ;;
  p <- get ;;
  if bool_decide (is_Some (tp_all p !! hash)) then ret (inl (errKnown hash))
  else
    v <- validateTx tx local ;;
    match v with
    | Some e => ret (inl e)
    | None =>
        p <- get ;;
        let limit := u64 (GlobalSlots (tp_config p) + GlobalQueue (tp_config p)) in
        full <-
          (if limit <=? Z.of_nat (size (tp_all p)) then
             under <- priced_Underpriced tx ;;
             if under then ret true
             else
               drop <- priced_Discard (i64 (Z.of_nat (size (tp_all p)) - int64_of_u64 (u64 (limit - 1)))) ;;
               for_each drop (fun tx => h <- hashOf tx ;; removeTx h) ;;
               ret false
           else ret false) ;;
        if full then ret (inl ErrUnderpriced)
        else
          from <- fromOf tx ;;
          p <- get ;;
          overlaps <-
            match tp_pending p !! from with
            | Some _ => onPending from (tl_Overlaps tx)
            | None => ret false
            end ;;
          if overlaps then
            r <- onPending from (tl_Add tx (PriceBump (tp_config p))) ;;
            let '(inserted, old) := r in
            if negb inserted then ret (inl ErrReplaceUnderpriced)
            else
              indexing hash tx old ;;
              ret (inr (bool_decide (is_Some old)))
          else
            orElse (enqueueTx hash tx) (fun replace =>
              when local (modify (fun p => p <| tp_locals ::= fun s => {[from]} ∪ s |>)) ;;
              ret (inr replace))
    end.

(** ** Promotion *)

(** The executable and the unpayable transactions of one queue. *)
Definition promoteAccount (view : chainView) (gaslimit : Z) (addr : string) : MP unit :=
  p <- get ;;
  match tp_queue p !! addr with
  | None => ret tt
  | Some _ =>
      t <- tick ;;
      drops <- onQueue addr (tl_Filter t (cv_GetBalance view addr) gaslimit) ;;
      for_each drops.1 forget ;;
      nonce <- onPendingState (ms_GetNonce addr) ;;
      ready <- onQueue addr (tl_Ready nonce) ;;
      for_each ready (fun tx => h <- hashOf tx ;; promoteTx addr h tx) ;;
      p <- get ;;
      when (negb (bool_decide (addr ∈ tp_locals p)))
        (drops <- onQueue addr (tl_Cap (int64_of_u64 (AccountQueue (tp_config p)))) ;;
         for_each drops forget) ;;
      isEmpty <- onQueue addr tl_Empty ;;
      when isEmpty (modify (fun p => p <| tp_queue ::= delete addr |>))
  end.

(** The number of transactions in a map of lists. *)
Definition countTxs (m : gmap string txList) : Z :=
  map_fold (fun _ l n => n + Z.of_nat (size (sm_items (tl_txs l)))) 0 m.

(** One turn of the loops that take the last transaction from each offender. *)
Definition capLast (addr : string) : MP unit :=
  n <- onPending addr tl_Len ;;
  drops <- onPending addr (tl_Cap (n - 1)) ;;
  for_each drops (fun tx => forget tx ;; lowerNonce addr (tx_AccountNonce tx)).

Definition equalizeTurn (offenders : list string) (pending : Z) : MP Z :=
  for_each offenders capLast ;; ret (u64 (pending - Z.of_nat (length offenders))).

(** Reducing the offenders before the last to [threshold]. *)
Fixpoint equalize (fuel : nat) (offenders : list string) (prev : string) (threshold pending : Z) : MP Z :=
  p <- get ;;
  if negb (GlobalSlots (tp_config p) <? pending) then ret pending
  else
    n <- onPending prev tl_Len ;;
    if negb (threshold <? n) then ret pending
    else
      match fuel with
      | O => call OutOfFuel
      | S fuel' => pending' <- equalizeTurn offenders pending ;; equalize fuel' offenders prev threshold pending'
      end.

(** The loop over the spammers; [offenders] has the latest last. *)
Fixpoint penalize (spammers : list (string * Z)) (offenders : list string) (pending : Z) : MP (list string * Z) :=
  match spammers with
  | [] => ret (offenders, pending)
  | (offender, _) :: spammers' =>
      p <- get ;;
      if negb (GlobalSlots (tp_config p) <? pending) then ret (offenders, pending)
      else
        pending' <-
          match last offenders with
          | None => ret pending
          | Some prev =>
              threshold <- onPending offender tl_Len ;;
              equalize (Z.to_nat pending) offenders prev threshold pending
          end ;;
        penalize spammers' (offenders ++ [offender]) pending'
  end.

(** The last loop: down to the limit or the guaranteed slots. *)
Fixpoint minimize (fuel : nat) (offenders : list string) (lastOne : string) (pending : Z) : MP Z :=
  p <- get ;;
  if negb (GlobalSlots (tp_config p) <? pending) then ret pending
  else
    n <- onPending lastOne tl_Len ;;
    if negb (AccountSlots (tp_config p) <? n) then ret pending
    else
      match fuel with
      | O => call OutOfFuel
      | S fuel' => pending' <- equalizeTurn offenders pending ;; minimize fuel' offenders lastOne pending'
      end.

Definition limitPending : MP unit :=
  p <- get ;;
  let pending := u64 (countTxs (tp_pending p)) in
  when (GlobalSlots (tp_config p) <? pending)
    (t <- tick ;;
     let rollers := List.filter (fun e => negb (bool_decide (e.1 ∈ tp_locals p))
                      && (AccountSlots (tp_config p) <? Z.of_nat (size (sm_items (tl_txs e.2))))) (go_range t (tp_pending p)) in
     let spammers := prqueOrder t ((fun e => (e.1, Z.of_nat (size (sm_items (tl_txs e.2))))) <$> rollers) in
     r <- penalize spammers [] pending ;;
     let '(offenders, pending) := r in
     match last offenders with
     | None => ret tt
     | Some lastOne => minimize (Z.to_nat pending) offenders lastOne pending ;; ret tt
     end).

(** Dropping the queues of the accounts with the latest heartbeats. *)
Definition heartbeatLe (a b : string * Z) : Prop := a.2 <= b.2.
#[export] Instance heartbeatLe_dec a b : Decision (heartbeatLe a b).
Proof. unfold heartbeatLe. apply _. Defined.

Definition removeAll (txs : list Transaction) : MP unit :=
  for_each txs (fun tx => h <- hashOf tx ;; removeTx h).

Fixpoint dropQueues (addresses : list string) (drop : Z) : MP unit :=
  match addresses with
  | [] => ret tt
  | addr :: addresses' =>
      if drop <=? 0 then ret tt
      else
        size <- onQueue addr tl_Len ;;
        t <- tick ;;
        txs <- onQueue addr (tl_Flatten t) ;;
        if size <=? drop then removeAll txs ;; dropQueues addresses' (drop - size)
        else removeAll (take (Z.to_nat drop) (reverse txs)) ;; dropQueues addresses' 0
  end.

Definition limitQueue : MP unit :=
  p <- get ;;
  let queued := u64 (countTxs (tp_queue p)) in
  when (GlobalQueue (tp_config p) <? queued)
    (t <- tick ;;
     let addresses := (fun e => (e.1, default 0 (tp_beats p !! e.1))) <$>
       List.filter (fun e => negb (bool_decide (e.1 ∈ tp_locals p))) (go_range t (tp_queue p)) in
     dropQueues (reverse (merge_sort heartbeatLe addresses).*1) (queued - GlobalQueue (tp_config p))).

(** [promoteExecutables]; without accounts, all those of the queue. *)
Definition promoteExecutables (view : chainView) (accounts : option (list string)) : MP unit :=
  p <- get ;;
  t <- tick ;;
  let accounts := match accounts with Some l => l | None => (go_range t (tp_queue p)).*1 end in
  for_each accounts (promoteAccount view (tp_gasLimit p)) ;;
  limitPending ;;
  limitQueue.

(** [demoteUnexecutables]. *)
Definition demoteAccount (view : chainView) (gaslimit : Z) (addr : string) : MP unit :=
  old <- onPending addr (tl_Forward (cv_GetNonce view addr)) ;;
  for_each old forget ;;
  t <- tick ;;
  r <- onPending addr (tl_Filter t (cv_GetBalance view addr) gaslimit) ;;
  for_each r.1 forget ;;
  for_each r.2 (fun tx => h <- hashOf tx ;; enqueueTx h tx ;; ret tt) ;;
  isEmpty <- onPending addr tl_Empty ;;
  when isEmpty (modify (fun p => p <| tp_pending ::= delete addr |> <| tp_beats ::= delete addr |>)).

Definition demoteUnexecutables (view : chainView) : MP unit :=
  p <- get ;;
  t <- tick ;;
  for_each (go_range t (tp_pending p)).*1 (demoteAccount view (tp_gasLimit p)).

(** [resetState]. *)
Definition resetState : MP unit :=
  p <- get ;;
  match tp_currentState p with
  | None => ret tt
  | Some view =>
      modify (fun p => p <| tp_pendingState := ManageState (ca_nonce <$> view) |>) ;;
      demoteUnexecutables view ;;
      p <- get ;;
      t <- tick ;;
      for_each (go_range t (tp_pending p)).*1 (fun addr =>
        t <- tick ;;
        txs <- onPending addr (tl_Flatten t) ;;
        match last txs with
        | Some tx => onPendingState (ms_SetNonce addr (u64 (tx_AccountNonce tx + 1)))
        | None => panic
        end) ;;
      promoteExecutables view None
  end.

(** ** Entry points *)

(** [NewTxPool] up to the start of its loops. *)
Definition NewTxPool (config : TxPoolConfig) (chainId : Z) (state : option chainView) (gasLimit : Z)
    (DB : option Database) (now : Z) : TxPool :=
  let config := sanitize config in
  (resetState (mkPool config chainId state (ManageState ∅) gasLimit (PriceLimit config) ∅ ∅ ∅ ∅ ∅ [] 0 false
                 DB now 0 [])).2.

(** [addTx], [AddLocal], [AddRemote] and [addTxs]. *)
Definition addTx (tx : Transaction) (local : bool) : MP (option poolErr) :=
  hashOf tx ;;
  r <- add tx local ;;
  match r with
  | inl e => ret (Some e)
  | inr true => ret None
  | inr false =>
      p <- get ;;
      match tp_currentState p with
      | None => ret (Some errNoState)
      | Some view => from <- fromOf tx ;; promoteExecutables view (Some [from]) ;; ret None
      end
  end.

Definition AddLocal (tx : Transaction) : MP (option poolErr) :=
  p <- get ;; addTx tx (negb (NoLocals (tp_config p))).
Definition AddRemote (tx : Transaction) : MP (option poolErr) := addTx tx false.

Fixpoint addAll (txs : list Transaction) (local : bool) (dirty : gset string) : MP (gset string) :=
  match txs with
  | [] => ret dirty
  | tx :: txs' =>
      r <- add tx local ;;
      match r with
      | inr false => from <- fromOf tx ;; addAll txs' local ({[from]} ∪ dirty)
      | _ => addAll txs' local dirty
      end
  end.
Definition addTxs (txs : list Transaction) (local : bool) : MP (option poolErr) :=
  dirty <- addAll txs local ∅ ;;
  if bool_decide (dirty = ∅) then ret None
  else
    p <- get ;;
    match tp_currentState p with
    | None => ret (Some errNoState)
    | Some view =>
        t <- tick ;;
        promoteExecutables view (Some (go_range t (gset_to_gmap tt dirty)).*1) ;; ret None
    end.
Definition AddLocals (txs : list Transaction) : MP (option poolErr) :=
  p <- get ;; addTxs txs (negb (NoLocals (tp_config p))).
Definition AddRemotes (txs : list Transaction) : MP (option poolErr) := addTxs txs false.

(** [Get], [Remove] and [RemoveBatch]. *)
Definition Get (hash : string) : MP (option Transaction) := gets (fun p => tp_all p !! hash).
Definition Remove (hash : string) : MP unit := removeTx hash.
Definition RemoveBatch (txs : list Transaction) : MP unit := removeAll txs.

(** [SetGasPrice]. *)
Definition SetGasPrice (price : Z) : MP unit :=
  modify (fun p => p <| tp_gasPrice := price |>) ;;
  drop <- priced_Cap price ;;
  removeAll drop.

(** [stats], and the content that [Content] and [Pending] flatten. *)
Definition stats : MP (Z * Z) := gets (fun p => (countTxs (tp_pending p), countTxs (tp_queue p))).

Fixpoint flattenAll (on : forall A, string -> M txList A -> MP A) (addrs : list string) : MP (gmap string (list Transaction)) :=
  match addrs with
  | [] => ret ∅
  | addr :: addrs' =>
      t <- tick ;; txs <- on _ addr (tl_Flatten t) ;; m <- flattenAll on addrs' ;; ret (<[addr := txs]> m)
  end.
Definition Pending : MP (gmap string (list Transaction)) :=
  p <- get ;; t <- tick ;; flattenAll (@onPending) (go_range t (tp_pending p)).*1.
Definition Content : MP (gmap string (list Transaction) * gmap string (list Transaction)) :=
  pending <- Pending ;;
  p <- get ;; t <- tick ;;
  queued <- flattenAll (@onQueue) (go_range t (tp_queue p)).*1 ;;
  ret (pending, queued).

(** One tick of [expirationLoop]. *)
Definition expire : MP unit :=
  p <- get ;;
  t <- tick ;;
  for_each (go_range t (tp_queue p)).*1 (fun addr =>
    p <- get ;;
    if bool_decide (addr ∈ tp_locals p) then ret tt
    else
      when (Lifetime (tp_config p) <? tp_now p - default 0 (tp_beats p !! addr))
        (t <- tick ;; txs <- onQueue addr (tl_Flatten t) ;; removeAll txs)).

(** The events of [eventLoop]. *)
Inductive poolEvent :=
| ChainHeadEvent (homestead : bool)
| RemovedTransactionEvent (txs : list Transaction).

Definition handleEvent (ev : poolEvent) : MP unit :=
  match ev with
  | ChainHeadEvent h => modify (fun p => if h then p <| tp_homestead := true |> else p) ;; resetState
  | RemovedTransactionEvent txs => addTxs txs false ;; ret tt
  end.
End Pool.
