(* ===== verification/TxPoolInv.v ===== *)
(** * TxPoolInv: the invariant of the transaction pool

    Every listed transaction is in the index [all] under its hash and belongs to
    the sender whose list holds it, and no nonce of an account is both pending and
    queued.  Each part of [core/tx_pool.go] returns without a panic from a pool
    with the invariant and keeps it. *)
From S2P Require Import Prelude.
From S2P Require Import Messages.
From S2P Require Import Tx.
From S2P Require Import GoHeap.
From S2P Require Import TxList.
From S2P Require Import TxListSpec.
From S2P Require Import Merkle.
From S2P Require Import CrossProof.
From S2P Require Import ManagedState.
From S2P Require Import TxPool.

Local Abbreviation MP := (M TxPool).

(** A computation that returns. *)
Definition runs {W A} (m : M W A) (p : W) (a : A) (p' : W) : Prop := m p = (Ret a, p').

Lemma runs_bind {W A B} (m : M W A) (f : A -> M W B) p a p1 b p2 :
  runs m p a p1 -> runs (f a) p1 b p2 -> runs (bind m f) p b p2.
Proof. unfold runs. intros H1 H2. by rewrite (bind_eq _ _ _ _ _ H1). Qed.

Section Inv.
Context `{GR : GoRange} `{TE : TxEnv} `{ME : MerkleEnv} `{PE : ProofEnv} `{PO : PoolEnv}.

(** ** The invariant *)

(** The sender that the signer of a transaction's type derives. *)
Definition sender_of (chain : Z) (tx : Transaction) (addr : string) : Prop :=
  exists sg, typeSigner (EIP155Signer chain) tx = Some sg /\ derive sg tx = Ret (inr addr).

(** What validation and the decoder leave true of a transaction. *)
Record tx_good (chain : Z) (tx : Transaction) (addr : string) : Prop := {
  good_sender : sender_of chain tx addr;
  good_hash : is_Some (ZKHashTx tx);
  good_nonce : is_u64 (tx_AccountNonce tx);
}.

Definition items_at (m : gmap string txList) (addr : string) : gmap Z Transaction :=
  from_option tl_items ∅ (m !! addr).

Definition lists_ok (strict : bool) (chain : Z) (all : gmap string Transaction) (m : gmap string txList) : Prop :=
  map_Forall (fun addr l => tl_wf l /\ tl_strict l = strict /\
    map_Forall (fun _ tx => tx_good chain tx addr /\ exists h, ZKHashTx tx = Some h /\ all !! h = Some tx) (tl_items l)) m.

Record pool_inv (p : TxPool) : Prop := {
  inv_pending : lists_ok true (tp_chainId p) (tp_all p) (tp_pending p);
  inv_queue : lists_ok false (tp_chainId p) (tp_all p) (tp_queue p);
  inv_disjoint : forall addr n, items_at (tp_pending p) addr !! n = None \/ items_at (tp_queue p) addr !! n = None;
  inv_all : map_Forall (fun h tx => ZKHashTx tx = Some h /\ exists addr, tx_good (tp_chainId p) tx addr) (tp_all p);
  inv_items : Forall (fun tx => is_Some (ZKHashTx tx)) (tp_items p);
}.

(** A transaction of the index that no list holds. *)
Definition unlisted (p : TxPool) (tx : Transaction) : Prop :=
  forall addr, items_at (tp_pending p) addr !! tx_AccountNonce tx <> Some tx /\
               items_at (tp_queue p) addr !! tx_AccountNonce tx <> Some tx.

Record loose (p : TxPool) (tx : Transaction) : Prop := {
  loose_unlisted : unlisted p tx;
  loose_all : exists h, ZKHashTx tx = Some h /\ tp_all p !! h = Some tx;
}.

(** What the bookkeeping leaves alone. *)
Record same (p p' : TxPool) : Prop := {
  same_config : tp_config p' = tp_config p;
  same_chain : tp_chainId p' = tp_chainId p;
  same_state : tp_currentState p' = tp_currentState p;
  same_gasLimit : tp_gasLimit p' = tp_gasLimit p;
  same_locals : tp_locals p' = tp_locals p;
}.
Record quiet (p p' : TxPool) : Prop := {
  quiet_same :> same p p';
  quiet_pending : tp_pending p' = tp_pending p;
  quiet_queue : tp_queue p' = tp_queue p;
  quiet_all : tp_all p' = tp_all p;
}.

#[export] Instance same_preorder : PreOrder same.
Proof. split; [by split|]. intros p1 p2 p3 [] []. split; congruence. Qed.
#[export] Instance quiet_preorder : PreOrder quiet.
Proof. split; [intros p; split; done|]. intros p1 p2 p3 [] []. split; [by etrans|congruence..]. Qed.

Lemma quiet_inv p p' : quiet p p' -> Forall (fun tx => is_Some (ZKHashTx tx)) (tp_items p') -> pool_inv p -> pool_inv p'.
Proof.
  intros [[_ Ec _ _ _] Ep Eq Ea] Hi []. split; rewrite ?Ec, ?Ep, ?Eq, ?Ea; done.
Qed.

Lemma quiet_loose p p' tx : quiet p p' -> loose p tx -> loose p' tx.
Proof. intros [_ Ep Eq Ea] [Hu Ha]. split; unfold unlisted; rewrite ?Ep, ?Eq, ?Ea; done. Qed.

(** ** Bookkeeping *)

Lemma tick_runs p : exists t p', runs tick p t p' /\ quiet p p' /\ tp_items p' = tp_items p.
Proof. eexists _, _. split; [done|]. by split; [split; [split|..]|]. Qed.

Lemma hashOf_runs tx h p : ZKHashTx tx = Some h -> runs (hashOf tx) p h p.
Proof. unfold hashOf, runs. by intros ->. Qed.

(** Every transaction of the price list and of the index has a hash. *)
Definition hashed (p : TxPool) : Prop :=
  Forall (fun tx => is_Some (ZKHashTx tx)) (tp_items p) /\ map_Forall (fun _ tx => is_Some (ZKHashTx tx)) (tp_all p).

Lemma pool_inv_hashed p : pool_inv p -> hashed p.
Proof.
  intros Hi. split; [apply Hi|]. intros h tx E. destruct (inv_all p Hi h tx E) as [Eh _]. by rewrite Eh.
Qed.

Lemma priced_Put_low tx p : hashed p -> is_Some (ZKHashTx tx) ->
  exists p', runs (priced_Put tx) p tt p' /\ quiet p p' /\ hashed p'.
Proof.
  intros [Hf Ha] Htx. eexists. split; [done|]. split; [split; [split|..]; done|]. split; [|done].
  apply Forall_forall. intros x Hx. change (x ∈ heap_Push priceLess (tp_items p) tx) in Hx.
  rewrite Push_perm in Hx. apply elem_of_cons in Hx as [->|Hx]; [done|]. rewrite Forall_forall in Hf. by apply Hf.
Qed.

Lemma priced_Removed_low p : hashed p -> exists p', runs priced_Removed p tt p' /\ quiet p p' /\ hashed p'.
Proof.
  intros Hi. set (p1 := p <| tp_stales ::= Z.succ |>).
  unfold runs, priced_Removed. rewrite bind_modify, bind_get. fold p1.
  destruct (tp_stales p1 <=? Z.of_nat (length (tp_items p1)) / 4).
  { exists p1. split; [done|]. split; [split; [split|..]; done|]. by destruct p. }
  eexists. split; [done|]. split; [split; [split|..]; done|]. split; [|apply Hi].
  cbn. apply Forall_forall. intros x Hx.
  rewrite Init_perm in Hx. apply list_elem_of_fmap in Hx as ([h tx]&->&Hx%go_range_elem).
  by apply (proj2 Hi h tx).
Qed.

Lemma forget_low tx h p : hashed p -> ZKHashTx tx = Some h ->
  exists p', runs (forget tx) p tt p' /\ quiet (p <| tp_all ::= delete h |>) p' /\ hashed p'.
Proof.
  intros [Hf Ha] Eh. destruct (priced_Removed_low (p <| tp_all ::= delete h |>)) as (p'&E&Hq&Hh).
  { split; [done|]. intros h' x Hx. change (delete h (tp_all p) !! h' = Some x) in Hx.
    apply lookup_delete_Some in Hx as [_ Hx]. by apply (Ha h'). }
  exists p'. split; [|done]. unfold forget. eapply runs_bind; [by apply hashOf_runs|]. by eapply runs_bind.
Qed.

(** ** Forgetting loose transactions *)

Definition hash_ok (all : gmap string Transaction) (tx : Transaction) : Prop :=
  exists h, ZKHashTx tx = Some h /\ all !! h = Some tx.

Lemma hash_ok_inj all x y : hash_ok all x -> hash_ok all y -> ZKHashTx x = ZKHashTx y -> x = y.
Proof. intros (h&Eh&Hx) (h'&Eh'&Hy) E. rewrite Eh, Eh' in E. simplify_eq. done. Qed.

Lemma hash_ok_delete all x y h : hash_ok all x -> hash_ok all y -> x <> y -> ZKHashTx y = Some h ->
  hash_ok (delete h all) x.
Proof.
  intros Hx Hy Hne Eh. pose proof Hx as (hx&Ehx&Hax). exists hx. split; [done|]. rewrite lookup_delete_ne; [done|].
  intros ->. apply Hne. apply (hash_ok_inj all); [done|done|congruence].
Qed.

Lemma lists_ok_all strict chain all all' m : lists_ok strict chain all m ->
  (forall addr n tx, items_at m addr !! n = Some tx -> hash_ok all' tx) -> lists_ok strict chain all' m.
Proof.
  intros Hl Ha addr l E. destruct (Hl addr l E) as (Hw&Hs&Hf). split_and!; [done|done|].
  intros n tx Hn. split; [by apply (Hf n tx Hn)|]. apply (Ha addr n). unfold items_at. by rewrite E.
Qed.

Lemma listed_ok strict chain all m addr n tx : lists_ok strict chain all m -> items_at m addr !! n = Some tx ->
  tx_good chain tx addr /\ hash_ok all tx /\ tx_AccountNonce tx = n.
Proof.
  intros Hl. unfold items_at. destruct (m !! addr) as [l|] eqn:E; cbn; [|by rewrite lookup_empty].
  intros Hn. destruct (Hl addr l E) as (Hw&_&Hf). destruct (Hf n tx Hn). split_and!; [done|done|].
  by apply (core_keyed _ (tl_sm _ Hw)).
Qed.

(** Deleting the hash of a loose transaction. *)
Lemma delete_loose_inv p tx h : pool_inv p -> loose p tx -> ZKHashTx tx = Some h ->
  pool_inv (p <| tp_all ::= delete h |>).
Proof.
  intros [Hp Hq Hd Ha Hi] [Hu Hl] Eh. split; [| |done| |done].
  - apply (lists_ok_all _ _ (tp_all p)); [done|]. intros addr n x Hx. destruct (listed_ok _ _ _ _ _ _ _ Hp Hx) as (_&Hx'&En).
    apply (hash_ok_delete _ x tx); [done|done| |done]. intros ->. apply (proj1 (Hu addr)). by rewrite En.
  - apply (lists_ok_all _ _ (tp_all p)); [done|]. intros addr n x Hx. destruct (listed_ok _ _ _ _ _ _ _ Hq Hx) as (_&Hx'&En).
    apply (hash_ok_delete _ x tx); [done|done| |done]. intros ->. apply (proj2 (Hu addr)). by rewrite En.
  - intros h' x Hx. change (delete h (tp_all p) !! h' = Some x) in Hx. apply lookup_delete_Some in Hx as [_ Hx]. by apply Ha.
Qed.

Lemma forget_runs p tx h : pool_inv p -> loose p tx -> ZKHashTx tx = Some h ->
  exists p', runs (forget tx) p tt p' /\ pool_inv p' /\ same p p' /\ tp_pending p' = tp_pending p /\
    tp_queue p' = tp_queue p /\ tp_all p' = delete h (tp_all p).
Proof.
  intros Hi Hl Eh. destruct (forget_low tx h p (pool_inv_hashed p Hi) Eh) as (p2&E2&Hq&Hh2).
  pose proof (delete_loose_inv p tx h Hi Hl Eh) as Hi1. exists p2.
  destruct Hq as [Hs Ep Eq Ea] eqn:Hq'. split_and!; [done| | |done|done|done].
  - apply (quiet_inv (p <| tp_all ::= delete h |>)); [done|apply Hh2|done].
  - etrans; [|exact Hs]. by split.
Qed.

(** The others stay loose. *)
Lemma loose_delete p p' x tx h : loose p x -> loose p tx -> x <> tx -> ZKHashTx tx = Some h ->
  tp_pending p' = tp_pending p -> tp_queue p' = tp_queue p -> tp_all p' = delete h (tp_all p) -> loose p' x.
Proof.
  intros [Hu Hx] [_ Ht] Hne Eh Ep Eq Ea. split; unfold unlisted; rewrite ?Ep, ?Eq; [done|]. rewrite Ea.
  by apply (hash_ok_delete _ x tx).
Qed.

Lemma forget_all p txs : pool_inv p -> NoDup txs -> Forall (loose p) txs ->
  exists p', runs (for_each txs forget) p tt p' /\ pool_inv p' /\ same p p' /\ tp_pending p' = tp_pending p /\
    tp_queue p' = tp_queue p /\ tp_all p' ⊆ tp_all p /\
    forall x, loose p x -> x ∉ txs -> loose p' x.
Proof.
  revert p. induction txs as [|tx txs IH]; intros p Hi Hnd Hl.
  { exists p. split_and!; done. }
  apply NoDup_cons in Hnd as [Hnin Hnd]. apply Forall_cons in Hl as [Hltx Hl].
  destruct (loose_all _ _ Hltx) as (h&Eh&_).
  destruct (forget_runs p tx h Hi Hltx Eh) as (p1&E1&Hi1&Hs1&Ep1&Eq1&Ea1).
  assert (forall x, loose p x -> x <> tx -> loose p1 x) as Hkeep by (intros x Hx Hne; by apply (loose_delete p p1 x tx h)).
  destruct (IH p1 Hi1 Hnd) as (p2&E2&Hi2&Hs2&Ep2&Eq2&Ea2&Hk2).
  { rewrite Forall_forall in *. intros x Hx. apply Hkeep; [by apply Hl|]. by intros ->. }
  exists p2. split_and!; [| done|by etrans|congruence|congruence| |].
  - cbn [for_each]. eapply runs_bind; [exact E1|exact E2].
  - etrans; [exact Ea2|]. rewrite Ea1. apply delete_subseteq.
  - intros x Hx [Hne Hn]%not_elem_of_cons. apply Hk2; [|done]. by apply Hkeep.
Qed.

(** ** Lists that shrink *)

Lemma sender_unique chain tx a b : sender_of chain tx a -> sender_of chain tx b -> a = b.
Proof. intros (sg&E1&E2) (sg'&E1'&E2'). rewrite E1 in E1'. simplify_eq. congruence. Qed.

Lemma items_at_insert m a l b : items_at (<[a := l]> m) b = if decide (a = b) then tl_items l else items_at m b.
Proof.
  unfold items_at. destruct (decide (a = b)) as [->|Hne]; [by rewrite lookup_insert_eq|by rewrite lookup_insert_ne].
Qed.

Definition disjoint_maps (m m2 : gmap string txList) : Prop :=
  forall addr n, items_at m addr !! n = None \/ items_at m2 addr !! n = None.

(** A transaction in neither map. *)
Definition absent (m m2 : gmap string txList) (tx : Transaction) : Prop :=
  forall addr, items_at m addr !! tx_AccountNonce tx <> Some tx /\ items_at m2 addr !! tx_AccountNonce tx <> Some tx.

(** What left the list of [addr] in the map [m]. *)
Record left_from (chain : Z) (all : gmap string Transaction) (m m2 : gmap string txList) (addr : string)
    (tx : Transaction) : Prop := {
  left_absent : absent m m2 tx;
  left_hash : hash_ok all tx;
  left_good : tx_good chain tx addr;
  left_nonce : items_at m addr !! tx_AccountNonce tx = None;
  left_nonce2 : items_at m2 addr !! tx_AccountNonce tx = None;
}.

Section Shrink.
Context (chain : Z) (all : gmap string Transaction) (strict strict2 : bool) (m m2 : gmap string txList).
Context (Hm : lists_ok strict chain all m) (Hm2 : lists_ok strict2 chain all m2) (Hd : disjoint_maps m m2).

Lemma shrink_disjoint addr l l' : m !! addr = Some l -> tl_items l' ⊆ tl_items l -> disjoint_maps (<[addr := l']> m) m2.
Proof using Hd.
  intros E Hsub a n. rewrite items_at_insert. destruct (decide (addr = a)) as [<-|]; [|apply Hd].
  destruct (Hd addr n) as [Hn|]; [left|by right]. unfold items_at in Hn. rewrite E in Hn. cbn in Hn.
  by eapply lookup_weaken_None.
Qed.

Lemma shrink_ok addr l l' gone : m !! addr = Some l -> shrinks l l' gone -> lists_ok strict chain all (<[addr := l']> m).
Proof using Hm.
  intros E [Hw Hs [_ Hsub]]. destruct (Hm addr l E) as (_&Hst&Hf). intros a x Hx.
  apply lookup_insert_Some in Hx as [[<- <-]|[_ Hx]]; [|by apply Hm]. split_and!; [done|congruence|].
  intros n tx Hn. apply (Hf n tx). by eapply lookup_weaken.
Qed.

Lemma shrink_gone addr l l' gone : m !! addr = Some l -> shrinks l l' gone ->
  NoDup gone /\ Forall (left_from chain all (<[addr := l']> m) m2 addr) gone.
Proof using Hm Hm2 Hd.
  intros E [Hw Hs [Hv Hsub]]. destruct (Hm addr l E) as (Hwl&Hst&Hf). pose proof (core_keyed _ (tl_sm _ Hwl)) as Hk.
  pose proof (values_NoDup _ Hk) as Hnd. fold (tl_items l) in Hk, Hnd. rewrite Hv in Hnd. apply NoDup_app in Hnd as (Hng&Hdis&_).
  split; [done|]. apply Forall_forall. intros tx Htx.
  assert (tl_items l !! tx_AccountNonce tx = Some tx) as Hl.
  { apply values_elem; [done|]. rewrite Hv. apply elem_of_app. by left. }
  assert (tl_items l' !! tx_AccountNonce tx = None) as Hl'.
  { destruct (tl_items l' !! tx_AccountNonce tx) as [x|] eqn:Ex; [|done]. exfalso.
    pose proof (lookup_weaken _ _ _ _ Ex Hsub) as Ex'. rewrite Hl in Ex'. injection Ex' as <-.
    apply (Hdis tx Htx). apply values_elem; [|done]. apply (core_keyed _ (tl_sm _ Hw)). }
  destruct (Hf _ _ Hl) as [Hg Hh].
  assert (items_at m2 addr !! tx_AccountNonce tx = None) as H2.
  { destruct (Hd addr (tx_AccountNonce tx)) as [Hn|]; [|done]. unfold items_at in Hn. rewrite E in Hn. cbn in Hn. congruence. }
  split; [|done|done| |done].
  - intros a. split.
    + rewrite items_at_insert. destruct (decide (addr = a)) as [<-|Hne]; [by rewrite Hl'|].
      intros Hx. destruct (listed_ok _ _ _ _ _ _ _ Hm Hx) as (Hg'&_). apply Hne.
      apply (sender_unique chain tx); [apply Hg|apply Hg'].
    + intros Hx. destruct (listed_ok _ _ _ _ _ _ _ Hm2 Hx) as (Hg'&_).
      assert (addr = a) as <- by (apply (sender_unique chain tx); [apply Hg|apply Hg']). congruence.
  - rewrite items_at_insert, decide_True by done. done.
Qed.

(** What was absent stays so. *)
Lemma shrink_absent addr l l' tx : m !! addr = Some l -> tl_items l' ⊆ tl_items l -> absent m m2 tx ->
  absent (<[addr := l']> m) m2 tx.
Proof using Type.
  intros E Hsub Ha a. split; [|apply Ha]. rewrite items_at_insert. destruct (decide (addr = a)) as [<-|]; [|apply Ha].
  intros Hx. apply (proj1 (Ha addr)). unfold items_at. rewrite E. by eapply lookup_weaken.
Qed.

(** An empty list may be dropped. *)
Lemma drop_items_at addr l a : m !! addr = Some l -> tl_items l = ∅ -> items_at (delete addr m) a = items_at m a.
Proof using Type.
  intros E Hl. unfold items_at. destruct (decide (addr = a)) as [<-|].
  - rewrite lookup_delete_eq, E. by cbn.
  - by rewrite lookup_delete_ne.
Qed.

Lemma drop_ok addr : lists_ok strict chain all (delete addr m).
Proof using Hm. intros a l [_ Ha]%lookup_delete_Some. by apply Hm. Qed.

End Shrink.

(** ** Lists that grow *)

(** The index after [tx] replaced [old]. *)
Definition reindex (h : string) (tx : Transaction) (old : option Transaction) (all : gmap string Transaction) :=
  <[h := tx]> (match o ← old; ZKHashTx o with Some ho => delete ho all | None => all end).

Section Grow.
Context (chain : Z) (all : gmap string Transaction) (strict strict2 : bool) (m m2 : gmap string txList).
Context (Hm : lists_ok strict chain all m) (Hm2 : lists_ok strict2 chain all m2) (Hd : disjoint_maps m m2).
Context (addr h : string) (tx : Transaction).
Context (Hg : tx_good chain tx addr) (Eh : ZKHashTx tx = Some h) (Hfresh : all !! h = None \/ all !! h = Some tx).
Context (Habs : absent m m2 tx).

Let old := items_at m addr !! tx_AccountNonce tx.

Lemma reindex_new : hash_ok (reindex h tx old all) tx.
Proof using Eh. exists h. split; [done|]. apply lookup_insert_eq. Qed.

Lemma old_listed o : old = Some o -> tx_good chain o addr /\ hash_ok all o /\ tx_AccountNonce o = tx_AccountNonce tx.
Proof using Hm. intros E. by apply (listed_ok strict chain all m addr (tx_AccountNonce tx)). Qed.

Lemma old_not_new o : old = Some o -> o <> tx.
Proof using Habs. intros E ->. by apply (proj1 (Habs addr)). Qed.

Lemma reindex_keeps x : hash_ok all x -> x <> tx -> old <> Some x -> hash_ok (reindex h tx old all) x.
Proof using Habs Eh Hfresh Hm.
  intros Hx Hne Ho. pose proof Hx as (hx&Ehx&Hax). exists hx. split; [done|]. unfold reindex.
  rewrite lookup_insert_ne by (intros ->; destruct Hfresh; congruence).
  destruct old as [o|] eqn:Eo; [|done]. cbn. destruct (ZKHashTx o) as [ho|] eqn:Eho; [|done].
  rewrite lookup_delete_ne; [done|]. intros ->. apply Ho. f_equal.
  destruct (old_listed o Eo) as (_&Hoo&_). apply (hash_ok_inj all); [done|done|congruence].
Qed.

(** The lists after the insertion. *)
Context (l' : txList) (Hw' : tl_wf l') (Hs' : tl_strict l' = strict).
Context (Hi' : tl_items l' = <[tx_AccountNonce tx := tx]> (items_at m addr)).

Lemma grow_items a n x : items_at (<[addr := l']> m) a !! n = Some x ->
  x = tx /\ a = addr /\ n = tx_AccountNonce tx \/
  items_at m a !! n = Some x /\ x <> tx /\ old <> Some x /\ (a = addr -> n <> tx_AccountNonce tx).
Proof using Hi' Hm Habs Hg.
  rewrite items_at_insert. destruct (decide (addr = a)) as [<-|Hne].
  - rewrite Hi'. intros [[<- <-]|[Hn Hx]]%lookup_insert_Some; [by left|right].
    destruct (listed_ok _ _ _ _ _ _ _ Hm Hx) as (_&_&En). split_and!; [done| | |done].
    + intros ->. by apply Hn.
    + intros Ho. destruct (old_listed x Ho) as (_&_&En'). congruence.
  - intros Hx. right. destruct (listed_ok _ _ _ _ _ _ _ Hm Hx) as (Hgx&_&En). split_and!; [done| | |by intros ->].
    + intros ->. apply Hne. apply (sender_unique chain tx); [apply Hg|apply Hgx].
    + intros Ho. destruct (old_listed x Ho) as (Hgo&_). apply Hne. apply (sender_unique chain x); [apply Hgo|apply Hgx].
Qed.

Lemma grow_ok : lists_ok strict chain (reindex h tx old all) (<[addr := l']> m).
Proof using Hw' Hs' Hi' Hm Habs Hg Eh Hfresh.
  intros a x Hx. assert (items_at (<[addr := l']> m) a = tl_items x) as Ei by (unfold items_at; by rewrite Hx).
  assert (tl_wf x /\ tl_strict x = strict) as [Hwx Hsx].
  { apply lookup_insert_Some in Hx as [[<- <-]|[_ Hx]]; [done|]. by destruct (Hm a x Hx) as (?&?&_). }
  split_and!; [done|done|]. intros n y Hy. rewrite <- Ei in Hy.
  destruct (grow_items a n y Hy) as [(->&->&->)|(Hy'&Hne&Ho&_)].
  - split; [done|]. apply reindex_new.
  - destruct (listed_ok _ _ _ _ _ _ _ Hm Hy') as (Hgy&Hhy&_). split; [done|]. by apply reindex_keeps.
Qed.

Lemma grow_ok2 : lists_ok strict2 chain (reindex h tx old all) m2.
Proof using Hm Hm2 Hd Habs Eh Hfresh.
  apply (lists_ok_all _ _ all); [done|]. intros a n x Hx. destruct (listed_ok _ _ _ _ _ _ _ Hm2 Hx) as (Hgx&Hhx&En).
  apply reindex_keeps; [done| |].
  - intros ->. apply (proj2 (Habs a)). by rewrite En.
  - intros Ho. destruct (old_listed x Ho) as (Hgo&_&En').
    assert (addr = a) as <- by (apply (sender_unique chain x); [apply Hgo|apply Hgx]).
    destruct (Hd addr n) as [Hc|Hc]; [|congruence]. unfold old in Ho. rewrite <- En', En in Ho. congruence.
Qed.

Lemma grow_disjoint : items_at m2 addr !! tx_AccountNonce tx = None -> disjoint_maps (<[addr := l']> m) m2.
Proof using Hd Hi'.
  intros Hn2 a n. rewrite items_at_insert. destruct (decide (addr = a)) as [<-|]; [|apply Hd]. rewrite Hi'.
  destruct (decide (tx_AccountNonce tx = n)) as [<-|Hne]; [by right|]. rewrite lookup_insert_ne by done. apply Hd.
Qed.

(** What was absent stays so, and the replaced transaction joins it. *)
Lemma grow_absent x : absent m m2 x -> x <> tx -> absent (<[addr := l']> m) m2 x.
Proof using Hi' Hm Habs Hg.
  intros Ha Hne a. split; [|apply Ha]. intros Hx. destruct (grow_items _ _ _ Hx) as [(->&_)|(Hx'&_)]; [done|].
  by apply (proj1 (Ha a)).
Qed.

End Grow.

Lemma absent_sym m m2 tx : absent m m2 tx -> absent m2 m tx.
Proof. intros H a. destruct (H a). by split. Qed.
Lemma disjoint_sym m m2 : disjoint_maps m m2 -> disjoint_maps m2 m.
Proof. intros H a n. destruct (H a n); auto. Qed.

Lemma reindex_all chain h tx old all addr :
  map_Forall (fun h tx => ZKHashTx tx = Some h /\ exists addr, tx_good chain tx addr) all ->
  ZKHashTx tx = Some h -> tx_good chain tx addr ->
  map_Forall (fun h tx => ZKHashTx tx = Some h /\ exists addr, tx_good chain tx addr) (reindex h tx old all).
Proof.
  intros Ha Eh Hg h' x. unfold reindex. intros [[<- <-]|[_ Hx]]%lookup_insert_Some; [by eauto|].
  apply Ha. destruct (o ← old; ZKHashTx o); [|done]. by apply lookup_delete_Some in Hx as [_ Hx].
Qed.

Lemma reindex_sub h tx old all : reindex h tx old all ⊆ <[h := tx]> all.
Proof. unfold reindex. apply insert_mono. destruct (o ← old; ZKHashTx o); [apply delete_subseteq|done]. Qed.

Lemma fromOf_runs p tx addr : sender_of (tp_chainId p) tx addr -> runs (fromOf tx) p addr p.
Proof. intros (sg&E&Ed). unfold runs, fromOf, poolSender, bind, get, call. rewrite E, Ed. done. Qed.

Lemma onQueue_runs {A} addr l (m : M txList A) a l' p : tp_queue p !! addr = Some l -> m l = (Ret a, l') ->
  runs (onQueue addr m) p a (p <| tp_queue ::= <[addr := l']> |>).
Proof. unfold runs, onQueue. by intros -> ->. Qed.

Lemma onPending_runs {A} addr l (m : M txList A) a l' p : tp_pending p !! addr = Some l -> m l = (Ret a, l') ->
  runs (onPending addr m) p a (p <| tp_pending ::= <[addr := l']> |>).
Proof. unfold runs, onPending. by intros -> ->. Qed.

Lemma indexing_runs h tx old p : hashed p -> ZKHashTx tx = Some h ->
  (forall o, old = Some o -> is_Some (ZKHashTx o)) ->
  exists p', runs (indexing h tx old) p tt p' /\ quiet (p <| tp_all ::= reindex h tx old |>) p' /\ hashed p'.
Proof.
  intros Hh Eh Ho.
  assert (exists p1, runs (match old with Some o => forget o | None => ret tt end) p tt p1 /\
    quiet (p <| tp_all ::= fun all => match o ← old; ZKHashTx o with Some ho => delete ho all | None => all end |>) p1 /\
    hashed p1) as (p1&E1&[Hs1 Ep1 Eq1 Ea1]&Hh1).
  { destruct old as [o|]; cbn.
    - destruct (Ho o eq_refl) as [ho Eho]. rewrite Eho. by apply forget_low.
    - exists p. split; [done|]. split; [|done]. destruct p; done. }
  set (p2 := p1 <| tp_all ::= <[h := tx]> |>).
  assert (hashed p2) as Hh2.
  { split; [apply Hh1|]. intros h' x Hx. change (<[h := tx]> (tp_all p1) !! h' = Some x) in Hx.
    apply lookup_insert_Some in Hx as [[<- <-]|[_ Hx]]; [by rewrite Eh|]. by apply (proj2 Hh1 h'). }
  destruct (priced_Put_low tx p2 Hh2) as (p3&E3&[Hs3 Ep3 Eq3 Ea3]&Hh3); [by rewrite Eh|].
  exists p3. split; [|split; [|done]].
  - unfold indexing. eapply runs_bind; [exact E1|]. by eapply runs_bind; [|exact E3].
  - split.
    + split; [exact (eq_trans (same_config _ _ Hs3) (same_config _ _ Hs1))
        |exact (eq_trans (same_chain _ _ Hs3) (same_chain _ _ Hs1))
        |exact (eq_trans (same_state _ _ Hs3) (same_state _ _ Hs1))
        |exact (eq_trans (same_gasLimit _ _ Hs3) (same_gasLimit _ _ Hs1))
        |exact (eq_trans (same_locals _ _ Hs3) (same_locals _ _ Hs1))].
    + rewrite Ep3. exact Ep1.
    + rewrite Eq3. exact Eq1.
    + rewrite Ea3. change (<[h := tx]> (tp_all p1) = reindex h tx old (tp_all p)). by rewrite Ea1.
Qed.

(** What a transaction needs to be queued: it is in the index or new, and its nonce
    is not pending. *)
Record queueable (p : TxPool) (addr h : string) (tx : Transaction) : Prop := {
  qb_good : tx_good (tp_chainId p) tx addr;
  qb_hash : ZKHashTx tx = Some h;
  qb_fresh : tp_all p !! h = None \/ tp_all p !! h = Some tx;
  qb_absent : unlisted p tx;
  qb_pending : items_at (tp_pending p) addr !! tx_AccountNonce tx = None;
}.

Lemma lists_ok_new strict chain all m addr : lists_ok strict chain all m -> lists_ok strict chain all (<[addr := newTxList strict]> m).
Proof.
  intros Hm a l [[<- <-]|[_ Hl]]%lookup_insert_Some; [|by apply Hm].
  split_and!; [apply new_tl_wf|done|apply map_Forall_empty].
Qed.

Lemma items_at_new m addr strict a : m !! addr = None -> items_at (<[addr := newTxList strict]> m) a = items_at m a.
Proof.
  intros E. rewrite items_at_insert. destruct (decide (addr = a)) as [<-|]; [|done]. unfold items_at. by rewrite E.
Qed.

(** What a step leaves of the other transactions. *)
Record keeps (p p' : TxPool) (tx : Transaction) : Prop := {
  keeps_same :> same p p';
  keeps_loose : forall x, loose p x -> x <> tx -> loose p' x;
}.

(** Giving an account a list changes nothing that is listed. *)
Definition ensured (strict : bool) (addr : string) (m : gmap string txList) : gmap string txList :=
  if decide (m !! addr = None) then <[addr := newTxList strict]> m else m.

Lemma ensure_map strict chain all m addr : lists_ok strict chain all m ->
  exists l, ensured strict addr m !! addr = Some l /\ lists_ok strict chain all (ensured strict addr m) /\
    tl_items l = items_at m addr /\ forall a, items_at (ensured strict addr m) a = items_at m a.
Proof.
  intros Hm. unfold ensured. destruct (decide (m !! addr = None)) as [E|E].
  - exists (newTxList strict). split_and!; [apply lookup_insert_eq|by apply lists_ok_new| |intros a; by apply items_at_new].
    unfold items_at. by rewrite E.
  - destruct (m !! addr) as [l|] eqn:El; [|done]. exists l. split_and!; [done|done| |done].
    unfold items_at. by rewrite El.
Qed.

Lemma ensured_other strict addr m l a : a <> addr -> <[addr := l]> (ensured strict addr m) !! a = m !! a.
Proof.
  intros Hne. rewrite lookup_insert_ne by done. unfold ensured. destruct (decide _); [|done]. by rewrite lookup_insert_ne.
Qed.

Lemma ensureQueue_runs p addr :
  runs (ensureQueue addr) p tt
    (p <| tp_queue := ensured false addr (tp_queue p) |>).
Proof.
  unfold runs, ensureQueue. rewrite bind_get. destruct (decide (tp_queue p !! addr = None)) as [E|E].
  - rewrite bool_decide_true by done. unfold ensured. by rewrite decide_True.
  - rewrite bool_decide_false by done. unfold ensured. rewrite decide_False by done. by destruct p.
Qed.

(** The whole effect of an insertion on lists and index. *)
Lemma grow_all chain all strict strict2 m m2 addr h tx l' :
  lists_ok strict chain all m -> lists_ok strict2 chain all m2 -> disjoint_maps m m2 ->
  tx_good chain tx addr -> ZKHashTx tx = Some h -> all !! h = None \/ all !! h = Some tx -> absent m m2 tx ->
  items_at m2 addr !! tx_AccountNonce tx = None ->
  tl_wf l' -> tl_strict l' = strict -> tl_items l' = <[tx_AccountNonce tx := tx]> (items_at m addr) ->
  let all' := reindex h tx (items_at m addr !! tx_AccountNonce tx) all in
  lists_ok strict chain all' (<[addr := l']> m) /\ lists_ok strict2 chain all' m2 /\
  disjoint_maps (<[addr := l']> m) m2 /\
  forall x, absent m m2 x -> hash_ok all x -> x <> tx ->
    absent (<[addr := l']> m) m2 x /\ hash_ok all' x.
Proof.
  intros Hm Hm2 Hd Hg Eh Hf Hab Hn Hw Hs Ei all'. split_and!.
  - eapply grow_ok; eauto.
  - eapply grow_ok2; eauto.
  - by apply (grow_disjoint m m2 Hd addr tx).
  - intros x Hx Hhx Hne. split; [by eapply grow_absent|]. eapply reindex_keeps; eauto.
    intros Ho. destruct (listed_ok _ _ _ _ _ _ _ Hm Ho) as (_&_&En). apply (proj1 (Hx addr)). by rewrite En.
Qed.

(** [enqueueTx] returns. *)
Lemma enqueueTx_runs p addr h tx : pool_inv p -> queueable p addr h tx ->
  exists r p', runs (enqueueTx h tx) p r p' /\ pool_inv p' /\ tp_pending p' = tp_pending p /\
    tp_all p' ⊆ <[h := tx]> (tp_all p) /\ (forall a, a <> addr -> tp_queue p' !! a = tp_queue p !! a) /\ keeps p p' tx.
Proof.
  intros [Hp Hq Hd Ha Hi] [Hg Eh Hf Hab Hpn].
  destruct (ensure_map false (tp_chainId p) (tp_all p) (tp_queue p) addr Hq) as (l&El&Hmq&Eitems&Emq).
  set (mq := ensured false addr (tp_queue p)) in *.
  assert (disjoint_maps mq (tp_pending p)) as Hdq by (intros a n; rewrite Emq; destruct (Hd a n); auto).
  assert (absent mq (tp_pending p) tx) as Habq by (intros a; rewrite Emq; destruct (Hab a); by split).
  destruct (Hmq addr l El) as (Hwl&Hsl&_).
  destruct (Add_runs tx (PriceBump (tp_config p)) l Hwl (good_nonce _ _ _ Hg)) as (ins&old&l'&EA&Hwl'&Hsl'&Hcase).
  set (p2 := p <| tp_queue := <[addr := l']> mq |>).
  assert (forall r p', runs (if negb ins then ret (inl ErrReplaceUnderpriced)
      else indexing h tx old ;; ret (inr (bool_decide (is_Some old)))) p2 r p' -> runs (enqueueTx h tx) p r p') as Hrun.
  { intros r p' Hk. unfold enqueueTx. eapply runs_bind; [apply fromOf_runs, Hg|]. eapply runs_bind; [apply ensureQueue_runs|].
    eapply runs_bind; [done|]. eapply runs_bind; [exact (onQueue_runs addr l _ _ l' (p <| tp_queue := mq |>) El EA)|]. exact Hk. }
  destruct ins; cbn [negb] in Hrun.
  - destruct Hcase as [-> Ei]. rewrite Eitems in Ei. fold (items_at mq addr) in *.
    assert (tl_items l !! tx_AccountNonce tx = items_at mq addr !! tx_AccountNonce tx) as Eold by (rewrite Emq; by f_equal).
    rewrite Eold in Hrun. rewrite <- Emq in Ei.
    destruct (indexing_runs h tx (items_at mq addr !! tx_AccountNonce tx) p2) as (p3&E3&Hq3&Hh3); [|done| |].
    { apply (pool_inv_hashed p). by split. }
    { intros o Ho. destruct (listed_ok _ _ _ _ _ _ _ Hmq Ho) as (Hgo&_). apply Hgo. }
    eexists _, p3. split; [apply Hrun; by eapply runs_bind|].
    destruct (grow_all (tp_chainId p) (tp_all p) false true mq (tp_pending p) addr h tx l') as (Hm'&Hm2'&Hd'&Hkeep); [(done || congruence)..|].
    set (pT := p2 <| tp_all ::= reindex h tx (items_at mq addr !! tx_AccountNonce tx) |>) in *.
    assert (pool_inv pT) as Hinv.
    { split; [exact Hm2'|exact Hm'|by apply disjoint_sym|by apply (reindex_all _ _ _ _ _ addr)|done]. }
    split_and!.
    + apply (quiet_inv pT); [done|apply Hh3|done].
    + by rewrite (quiet_pending _ _ Hq3).
    + rewrite (quiet_all _ _ Hq3). apply reindex_sub.
    + intros a Hne. rewrite (quiet_queue _ _ Hq3). by apply ensured_other.
    + split; [etrans; [|exact (quiet_same _ _ Hq3)]; by split|]. intros x [Hux Hhx] Hne. apply (quiet_loose pT); [done|].
      destruct (Hkeep x) as [Hax Hhx']; [|done|done|]. 
      { intros a. rewrite Emq. destruct (Hux a). by split. }
      split; [|exact Hhx']. by apply absent_sym.
  - destruct Hcase as [_ Ei]. eexists _, p2. split; [by apply Hrun|].
    assert (shrinks l l' []) as Hsh by (split; [done|done|rewrite Ei; apply splits_refl]).
    split_and!.
    + split; [done| | |done|done].
      * by apply (shrink_ok _ _ _ _ Hmq addr l l' []).
      * apply disjoint_sym. apply (shrink_disjoint mq (tp_pending p) Hdq addr l); [done|by rewrite Ei].
    + done.
    + change (tp_all p ⊆ <[h := tx]> (tp_all p)). destruct Hf as [Hf|Hf]; [by apply insert_subseteq|by rewrite insert_id].
    + intros a Hne. by apply ensured_other.
    + split; [by split|]. intros x [Hux Hhx] Hne. split; [|done]. apply absent_sym.
      apply (shrink_absent mq (tp_pending p) addr l); [done|by rewrite Ei|].
      intros a. rewrite Emq. destruct (Hux a). by split.
Qed.

Lemma ensurePending_runs p addr :
  runs (ensurePending addr) p tt (p <| tp_pending := ensured true addr (tp_pending p) |>).
Proof.
  unfold runs, ensurePending. rewrite bind_get. destruct (decide (tp_pending p !! addr = None)) as [E|E].
  - rewrite bool_decide_true by done. unfold ensured. by rewrite decide_True.
  - rewrite bool_decide_false by done. unfold ensured. rewrite decide_False by done. by destruct p.
Qed.

(** A transaction on its way from the queue to the pending ones. *)
Record promotable (p : TxPool) (addr : string) (tx : Transaction) : Prop := {
  pm_good : tx_good (tp_chainId p) tx addr;
  pm_loose : loose p tx;
  pm_queue : items_at (tp_queue p) addr !! tx_AccountNonce tx = None;
}.

Lemma hashed_delete h p : hashed p -> hashed (p <| tp_all ::= delete h |>).
Proof.
  intros [Hf Ha]. split; [done|]. intros h' x Hx. change (delete h (tp_all p) !! h' = Some x) in Hx.
  apply lookup_delete_Some in Hx as [_ Hx]. by apply (Ha h').
Qed.

(** The end of a promotion: failsafe, heartbeat, nonce and event. *)
Definition promoted (addr hash : string) (tx : Transaction) : MP unit :=
  p <- get ;;
  when (bool_decide (tp_all p !! hash = None))
    (modify (fun p => p <| tp_all ::= <[hash := tx]> |>) ;; priced_Put tx) ;;
  modify (fun p => p <| tp_beats ::= <[addr := tp_now p]> |>) ;;
  onPendingState (ms_SetNonce addr (u64 (tx_AccountNonce tx + 1))) ;;
  modify (fun p => p <| tp_posted ::= fun l => l ++ [tx] |>).

Lemma promoted_runs addr h tx p : hashed p -> tp_all p !! h = Some tx ->
  exists p', runs (promoted addr h tx) p tt p' /\ quiet p p' /\ hashed p'.
Proof.
  intros Hh E. eexists. split.
  - unfold runs, promoted. rewrite bind_get, bool_decide_false by (by rewrite E). cbn [when].
    rewrite bind_ret, bind_modify. reflexivity.
  - split; [split; [split|..]; done|exact Hh].
Qed.

(** [promoteTx] returns. *)
Lemma promoteTx_runs p addr h tx : pool_inv p -> promotable p addr tx -> ZKHashTx tx = Some h ->
  exists p', runs (promoteTx addr h tx) p tt p' /\ pool_inv p' /\ tp_queue p' = tp_queue p /\
    tp_all p' ⊆ tp_all p /\ (forall a, a <> addr -> tp_pending p' !! a = tp_pending p !! a) /\ keeps p p' tx.
Proof.
  intros Hinv [Hg Hlo Hqn] Eh. pose proof Hinv as [Hp Hq Hd Ha Hi].
  assert (tp_all p !! h = Some tx) as Eall by (destruct (loose_all _ _ Hlo) as (h'&E1&E2); congruence).
  destruct (ensure_map true (tp_chainId p) (tp_all p) (tp_pending p) addr Hp) as (l&El&Hmp&Eitems&Emp).
  set (mp := ensured true addr (tp_pending p)) in *.
  assert (disjoint_maps mp (tp_queue p)) as Hdp by (intros a n; rewrite Emp; apply Hd).
  assert (forall x, unlisted p x -> absent mp (tp_queue p) x) as Habp by (intros x Hx a; rewrite Emp; apply Hx).
  destruct (Hmp addr l El) as (Hwl&Hsl&_).
  destruct (Add_runs tx (PriceBump (tp_config p)) l Hwl (good_nonce _ _ _ Hg)) as (ins&old&l'&EA&Hwl'&Hsl'&Hcase).
  set (p2 := p <| tp_pending := <[addr := l']> mp |>).
  assert (forall r p', runs (if negb ins then modify (fun p => p <| tp_all ::= delete h |>) ;; priced_Removed
      else match old with Some o => forget o | None => ret tt end ;; promoted addr h tx) p2 r p' ->
      runs (promoteTx addr h tx) p r p') as Hrun.
  { intros r p' Hk. unfold promoteTx. eapply runs_bind; [apply ensurePending_runs|].
    eapply runs_bind; [done|].
    eapply runs_bind; [exact (onPending_runs addr l _ _ l' (p <| tp_pending := mp |>) El EA)|]. exact Hk. }
  assert (hashed p2) as Hh2 by (apply (pool_inv_hashed p Hinv)).
  destruct ins; cbn [negb] in Hrun.
  - destruct Hcase as [Eo Ei]. rewrite Eitems, <- Emp in Ei, Eo. rewrite Eo in *.
    set (o := items_at mp addr !! tx_AccountNonce tx) in *.
    destruct (grow_all (tp_chainId p) (tp_all p) true false mp (tp_queue p) addr h tx l') as (Hm'&Hm2'&Hd'&Hkeep);
      [try (done || congruence)..|by right|apply Habp, Hlo|done|done|congruence|done|].
    fold o in Hm', Hm2', Hkeep. set (all' := reindex h tx o (tp_all p)) in *.
    assert (all' = match x ← o; ZKHashTx x with Some ho => delete ho (tp_all p) | None => tp_all p end) as Eall'.
    { unfold all', reindex. apply insert_id. destruct (x ← o; ZKHashTx x) as [ho|] eqn:Eho; [|done].
      apply bind_Some in Eho as (x&Ex&Eho). rewrite lookup_delete_ne; [done|]. intros ->.
      destruct (listed_ok _ _ _ _ _ _ _ Hmp Ex) as (_&Hhx&_).
      assert (x = tx) as -> by (apply (hash_ok_inj (tp_all p)); [done|by exists h|congruence]).
      by apply (proj1 (Habp tx (loose_unlisted _ _ Hlo) addr)). }
    assert (exists p3, runs (match o with Some x => forget x | None => ret tt end) p2 tt p3 /\
      quiet (p2 <| tp_all := all' |>) p3 /\ hashed p3) as (p3&E3&Hq3&Hh3).
    { rewrite Eall'. destruct o as [x|] eqn:Ex; cbn [mbind option_bind].
      - destruct (listed_ok _ _ _ _ _ _ _ Hmp Ex) as (Hgx&_&_). destruct (good_hash _ _ _ Hgx) as [hx Ehx].
        rewrite Ehx. exact (forget_low x hx p2 Hh2 Ehx).
      - exists p2. split; [done|]. by split; [split; [split|..]|]. }
    destruct (promoted_runs addr h tx p3 Hh3) as (p4&E4&Hq4&Hh4).
    { rewrite (quiet_all _ _ Hq3). apply lookup_insert_eq. }
    pose proof (PreOrder_Transitive _ _ _ Hq3 Hq4) as Hq34.
    assert (pool_inv (p2 <| tp_all := all' |>)) as Hinv2.
    { split; [exact Hm'|exact Hm2'|done|by apply (reindex_all _ _ _ _ _ addr)|done]. }
    exists p4. split_and!.
    + apply Hrun. by eapply runs_bind.
    + apply (quiet_inv (p2 <| tp_all := all' |>)); [done|apply Hh4|done].
    + by rewrite (quiet_queue _ _ Hq34).
    + rewrite (quiet_all _ _ Hq34). change (all' ⊆ tp_all p). rewrite Eall'.
      destruct (x ← o; ZKHashTx x); [apply delete_subseteq|done].
    + intros a Hne. rewrite (quiet_pending _ _ Hq34). by apply ensured_other.
    + split; [etrans; [|exact (quiet_same _ _ Hq34)]; by split|]. intros x [Hux Hhx] Hne.
      apply (quiet_loose (p2 <| tp_all := all' |>)); [done|].
      destruct (Hkeep x) as [Hax Hhx']; [by apply Habp|done|done|]. by split.
  - destruct Hcase as [_ Ei].
    assert (shrinks l l' []) as Hsh by (split; [done|done|rewrite Ei; apply splits_refl]).
    assert (pool_inv p2) as Hi2.
    { split; [by apply (shrink_ok _ _ _ _ Hmp addr l l' [])|done| |done|done].
      apply (shrink_disjoint mp (tp_queue p) Hdp addr l); [done|by rewrite Ei]. }
    assert (forall x, loose p x -> loose p2 x) as Hl2.
    { intros x [Hux Hhx]. split; [|done]. apply (shrink_absent mp (tp_queue p) addr l); [done|by rewrite Ei|by apply Habp]. }
    destruct (priced_Removed_low (p2 <| tp_all ::= delete h |>)) as (p3&E3&Hq3&Hh3); [by apply hashed_delete|].
    exists p3. split_and!.
    + apply Hrun. by eapply runs_bind.
    + apply (quiet_inv (p2 <| tp_all ::= delete h |>)); [done|apply Hh3|]. by apply (delete_loose_inv p2 tx); [|apply Hl2|].
    + by rewrite (quiet_queue _ _ Hq3).
    + rewrite (quiet_all _ _ Hq3). apply delete_subseteq.
    + intros a Hne. rewrite (quiet_pending _ _ Hq3). by apply ensured_other.
    + split; [etrans; [|exact (quiet_same _ _ Hq3)]; by split|]. intros x Hx Hne.
      apply (quiet_loose (p2 <| tp_all ::= delete h |>)); [done|].
      apply (loose_delete p2 _ x tx h); [by apply Hl2|by apply Hl2|done..].
Qed.

(** ** Loops *)

Lemma for_each_runs {A} (I : list A -> TxPool -> Prop) (body : A -> MP unit) :
  (forall x l p, I (x :: l) p -> exists p', runs (body x) p tt p' /\ I l p') ->
  forall l p, I l p -> exists p', runs (for_each l body) p tt p' /\ I [] p'.
Proof.
  intros Hb l. induction l as [|x l IH]; intros p Hi; [by exists p|].
  destruct (Hb x l p Hi) as (p1&E1&Hi1). destruct (IH p1 Hi1) as (p2&E2&Hi2). exists p2. split; [|done].
  cbn [for_each]. by eapply runs_bind.
Qed.

(** Steps that touch the lists of one account and add nothing to the index. *)
Record local_step (addr : string) (p p' : TxPool) : Prop := {
  ls_same :> same p p';
  ls_pending : forall a, a <> addr -> tp_pending p' !! a = tp_pending p !! a;
  ls_queue : forall a, a <> addr -> tp_queue p' !! a = tp_queue p !! a;
  ls_all : tp_all p' ⊆ tp_all p;
}.

#[export] Instance local_step_preorder addr : PreOrder (local_step addr).
Proof.
  split; [intros p; by split|]. intros p1 p2 p3 [S1 P1 Q1 A1] [S2 P2 Q2 A2].
  split; [by etrans| | |by etrans]; intros a Hne; [by rewrite P2, P1|by rewrite Q2, Q1].
Qed.

Lemma quiet_local addr p p' : quiet p p' -> local_step addr p p'.
Proof. intros [Hs Ep Eq Ea]. split; [done| | |]; intros; by rewrite ?Ep, ?Eq, ?Ea. Qed.

(** What removal and demotion put back into the queue. *)
Record parked (p : TxPool) (addr : string) (tx : Transaction) : Prop := {
  pk_good : tx_good (tp_chainId p) tx addr;
  pk_loose : loose p tx;
  pk_pending : items_at (tp_pending p) addr !! tx_AccountNonce tx = None;
}.

Lemma requeue_runs p addr txs : pool_inv p -> NoDup txs -> Forall (parked p addr) txs ->
  exists p', runs (for_each txs (fun tx => h <- hashOf tx ;; enqueueTx h tx ;; ret tt)) p tt p' /\ pool_inv p' /\
    local_step addr p p' /\ tp_pending p' = tp_pending p.
Proof.
  intros Hi Hnd Hpk.
  destruct (for_each_runs (fun l p' => pool_inv p' /\ NoDup l /\ Forall (parked p' addr) l /\ local_step addr p p' /\
    tp_pending p' = tp_pending p) (fun tx => h <- hashOf tx ;; enqueueTx h tx ;; ret tt)) with (l := txs) (p := p)
    as (p'&E&Hi'&_&_&Hls&Hpe); [|by split_and!|by exists p'].
  intros x l p1 (Hi1&Hnd1&[[Hg Hlo Hpn] Hl]%Forall_cons&Hls1&Hp1). apply NoDup_cons in Hnd1 as [Hnin Hnd1].
  destruct (loose_all _ _ Hlo) as (h&Eh&Eall).
  destruct (enqueueTx_runs p1 addr h x Hi1) as (r&p2&E2&Hi2&Hp2&Ha2&Hq2&[Hs2 Hk2]).
  { split; [done|done|by right|apply Hlo|done]. }
  exists p2. split.
  { eapply runs_bind; [by apply hashOf_runs|]. by eapply runs_bind. }
  split_and!; [done|done| | |congruence].
  - rewrite Forall_forall in *. intros y Hy. destruct (Hl y Hy) as [Hgy Hly Hpy]. split.
    + by rewrite (same_chain _ _ Hs2).
    + apply Hk2; [done|]. by intros ->.
    + by rewrite Hp2.
  - etrans; [exact Hls1|]. split; [done|by rewrite Hp2|done|]. rewrite insert_id in Ha2 by done. done.
Qed.

(** ** Removal *)

Lemma lowerNonce_runs addr n p : exists p', runs (lowerNonce addr n) p tt p' /\ quiet p p' /\ tp_items p' = tp_items p.
Proof.
  destruct (GetNonce_returns addr (tp_pendingState p)) as (k&s&E).
  set (p1 := p <| tp_pendingState := s |>).
  assert (runs (onPendingState (ms_GetNonce addr)) p k p1) as E1 by (unfold runs, onPendingState; by rewrite E).
  unfold lowerNonce. destruct (n <? k) eqn:En.
  - exists (p1 <| tp_pendingState := (ms_SetNonce addr n s).2 |>). split; [|by split; [split; [split|..]|]].
    eapply runs_bind; [exact E1|]. rewrite En. by destruct p.
  - exists p1. split; [|by split; [split; [split|..]|]]. eapply runs_bind; [exact E1|]. by rewrite En.
Qed.

Lemma Empty_items l : (Z.of_nat (size (tl_items l)) =? 0) = true <-> tl_items l = ∅.
Proof. rewrite Z.eqb_eq, <- map_size_empty_iff. lia. Qed.

(** Dropping an account whose list is empty. *)
Lemma drop_pending_inv p addr l : pool_inv p -> tp_pending p !! addr = Some l -> tl_items l = ∅ ->
  pool_inv (p <| tp_pending ::= delete addr |> <| tp_beats ::= delete addr |>).
Proof.
  intros [Hp Hq Hd Ha Hi] E El. split; [by apply drop_ok|done| |done|done]. intros a n. cbn.
  rewrite (drop_items_at (tp_pending p) addr l a E El). apply Hd.
Qed.

Lemma drop_queue_inv p addr l : pool_inv p -> tp_queue p !! addr = Some l -> tl_items l = ∅ ->
  pool_inv (p <| tp_queue ::= delete addr |>).
Proof.
  intros [Hp Hq Hd Ha Hi] E El. split; [done|by apply drop_ok| |done|done]. intros a n. cbn.
  rewrite (drop_items_at (tp_queue p) addr l a E El). apply Hd.
Qed.

Lemma set_queue_same p addr l : tp_queue p !! addr = Some l -> p <| tp_queue ::= <[addr := l]> |> = p.
Proof.
  intros E. transitivity (p <| tp_queue := <[addr := l]> (tp_queue p) |>); [by destruct p|].
  rewrite insert_id by done. by destruct p.
Qed.

Lemma set_pending_same p addr l : tp_pending p !! addr = Some l -> p <| tp_pending ::= <[addr := l]> |> = p.
Proof.
  intros E. transitivity (p <| tp_pending := <[addr := l]> (tp_pending p) |>); [by destruct p|].
  rewrite insert_id by done. by destruct p.
Qed.

(** A transaction of the index whose position in the lists is free is unlisted. *)
Lemma free_unlisted p tx addr : pool_inv p -> tx_good (tp_chainId p) tx addr ->
  items_at (tp_pending p) addr !! tx_AccountNonce tx = None ->
  items_at (tp_queue p) addr !! tx_AccountNonce tx = None -> unlisted p tx.
Proof.
  intros [Hp Hq _ _ _] Hg Ep Eq a. split; intros Hx.
  - destruct (listed_ok _ _ _ _ _ _ _ Hp Hx) as (Hgx&_).
    assert (a = addr) as -> by (apply (sender_unique (tp_chainId p) tx); [apply Hgx|apply Hg]). congruence.
  - destruct (listed_ok _ _ _ _ _ _ _ Hq Hx) as (Hgx&_).
    assert (a = addr) as -> by (apply (sender_unique (tp_chainId p) tx); [apply Hgx|apply Hg]). congruence.
Qed.

(** The pool after a list was replaced by one that holds less. *)
Lemma shrink_pending_inv p addr l l' gone : pool_inv p -> tp_pending p !! addr = Some l -> shrinks l l' gone ->
  pool_inv (p <| tp_pending ::= <[addr := l']> |>).
Proof.
  intros [Hp Hq Hd Ha Hi] E Hs. split; [by eapply shrink_ok|done| |done|done].
  apply (shrink_disjoint _ _ Hd addr l); [done|apply Hs].
Qed.

Lemma shrink_queue_inv p addr l l' gone : pool_inv p -> tp_queue p !! addr = Some l -> shrinks l l' gone ->
  pool_inv (p <| tp_queue ::= <[addr := l']> |>).
Proof.
  intros [Hp Hq Hd Ha Hi] E Hs. split; [done|by eapply shrink_ok| |done|done].
  apply disjoint_sym. apply (shrink_disjoint _ _ (disjoint_sym _ _ Hd) addr l); [done|apply Hs].
Qed.

(** [q] is [p] without the hash of a transaction that is still to be removed. *)
Record removing (p q : TxPool) (h : string) (tx : Transaction) (addr : string) : Prop := {
  rm_inv : pool_inv p;
  rm_good : tx_good (tp_chainId p) tx addr;
  rm_hash : ZKHashTx tx = Some h;
  rm_all : tp_all p !! h = Some tx;
  rm_quiet : quiet (p <| tp_all ::= delete h |>) q;
  rm_hashed : hashed q;
}.

(** Once its position is free, the invariant holds without the hash. *)
Lemma removing_done p q h tx addr : removing p q h tx addr ->
  items_at (tp_pending p) addr !! tx_AccountNonce tx = None ->
  items_at (tp_queue p) addr !! tx_AccountNonce tx = None -> pool_inv q.
Proof.
  intros [Hi Hg Eh Ea Hq Hh] Ep Eq. apply (quiet_inv (p <| tp_all ::= delete h |>)); [done|apply Hh|].
  apply (delete_loose_inv p tx); [done| |done]. split; [by apply (free_unlisted p tx addr)|by exists h].
Qed.

Lemma removeQueued_runs p q h tx addr : removing p q h tx addr ->
  items_at (tp_pending p) addr !! tx_AccountNonce tx = None ->
  exists q', runs (removeQueued addr tx) q tt q' /\ pool_inv q' /\ local_step addr q q'.
Proof.
  intros Hrm Hpn. pose proof Hrm as [Hi Hg Eh Ea Hq Hh]. unfold removeQueued.
  pose proof (quiet_queue _ _ Hq) as Eqq. change (tp_queue q = tp_queue p) in Eqq.
  destruct (tp_queue p !! addr) as [l|] eqn:El.
  2:{ exists q. split; [unfold runs; rewrite bind_get; by rewrite Eqq, El|]. split; [|done].
      apply (removing_done p q h tx addr); [done|done|]. unfold items_at. by rewrite El. }
  destruct (tick_runs q) as (t&q1&Et&Hq1&Hi1). pose proof (quiet_queue _ _ Hq1) as Eq1.
  destruct (inv_queue p Hi addr l El) as (Hwl&Hst&_).
  destruct (Remove_runs t tx l Hwl) as (found&inv&l'&ER&Hcase).
  set (q2 := q1 <| tp_queue ::= <[addr := l']> |>). set (pR := p <| tp_queue ::= <[addr := l']> |>).
  assert (exists gone, shrinks l l' gone /\ tl_items l' !! tx_AccountNonce tx = None) as (gone&Hsh&Hnone).
  { destruct found.
    - destruct Hcase as (old&Eold&Hsh). exists (old :: inv). split; [done|].
      pose proof (shrink_gone _ _ _ _ _ _ (inv_queue p Hi) (inv_pending p Hi) (disjoint_sym _ _ (inv_disjoint p Hi)) addr l l' _ El Hsh)
        as [_ [Hold _]%Forall_cons].
      pose proof (left_nonce _ _ _ _ _ _ Hold) as Hn. rewrite items_at_insert, decide_True in Hn by done.
      by rewrite (core_keyed _ (tl_sm _ Hwl) _ _ Eold) in Hn.
    - destruct Hcase as (En&->&Hw'&Hs'&Ei). exists []. split; [split; [done|done|rewrite Ei; apply splits_refl]|]. by rewrite Ei. }
  assert (pool_inv pR) as HiR by (by apply (shrink_queue_inv p addr l l' gone)).
  assert (removing pR q2 h tx addr) as HrmR.
  { split; [done|done|done|done| |].
    - pose proof (PreOrder_Transitive _ _ _ Hq Hq1) as [[] Ep' Eq' Ea']. split; [by split|exact Ep'| |exact Ea'].
      change (<[addr := l']> (tp_queue q1) = <[addr := l']> (tp_queue p)). by rewrite Eq'.
    - destruct Hh as [Hh1 Hh2]. split; [by rewrite <- Hi1 in Hh1|]. by rewrite <- (quiet_all _ _ Hq1) in Hh2. }
  assert (pool_inv q2) as Hi2.
  { apply (removing_done pR q2 h tx addr); [done|done|]. unfold pR. cbn. by rewrite items_at_insert, decide_True. }
  assert (tp_queue q2 !! addr = Some l') as El2 by apply lookup_insert_eq.
  assert (q2 <| tp_queue ::= <[addr := l']> |> = q2) as Esame by (by apply set_queue_same).
  set (q3 := if Z.of_nat (size (tl_items l')) =? 0 then q2 <| tp_queue ::= delete addr |> else q2).
  exists q3. split_and!.
  - unfold runs. rewrite bind_get. rewrite Eqq, El. eapply runs_bind; [exact Et|].
    eapply runs_bind; [apply (onQueue_runs addr l _ _ l'); [by rewrite Eq1, Eqq|exact ER]|].
    eapply runs_bind; [apply (onQueue_runs addr l' _ _ l' q2 El2 (Empty_runs l'))|]. rewrite Esame. unfold q3.
    by destruct (_ =? 0).
  - unfold q3. destruct (_ =? 0) eqn:Ee; [|done]. apply Empty_items in Ee. by apply (drop_queue_inv q2 addr l').
  - destruct Hq1 as [Hs1 Ep1 _ Ea1]. split.
    + etrans; [exact Hs1|]. unfold q3. by destruct (_ =? 0).
    + intros a Hne. rewrite <- Ep1. unfold q3. by destruct (_ =? 0).
    + intros a Hne. unfold q3. rewrite <- Eq1. destruct (_ =? 0); cbn; by rewrite ?lookup_delete_ne, lookup_insert_ne.
    + unfold q3. rewrite <- Ea1. by destruct (_ =? 0).
Qed.

(** What [removePending] puts back. *)
Lemma removed_parked p q h tx addr l l' old inv : removing p q h tx addr -> tp_pending p !! addr = Some l ->
  tl_items l !! tx_AccountNonce tx = Some old -> shrinks l l' (old :: inv) ->
  let pR := p <| tp_pending ::= <[addr := l']> |> in
  forall q2, quiet (pR <| tp_all ::= delete h |>) q2 -> hashed q2 ->
  pool_inv q2 /\ NoDup inv /\ Forall (parked q2 addr) inv.
Proof.
  intros [Hi Hg Eh Ea Hq Hh] El Eold Hsh pR q2 Hq2 Hh2.
  destruct (inv_pending p Hi addr l El) as (Hwl&_&_). pose proof (core_keyed _ (tl_sm _ Hwl)) as Hk.
  destruct (shrink_gone _ _ _ _ _ _ (inv_pending p Hi) (inv_queue p Hi) (inv_disjoint p Hi) addr l l' _ El Hsh)
    as [[Hnin Hnd]%NoDup_cons [Hold Hinv]%Forall_cons].
  assert (tx_AccountNonce old = tx_AccountNonce tx) as En by (by apply Hk).
  assert (pool_inv pR) as HiR by (by apply (shrink_pending_inv p addr l l' (old :: inv))).
  assert (unlisted pR tx) as Hun.
  { apply (free_unlisted pR tx addr); [done|done| |].
    - rewrite <- En. apply (left_nonce _ _ _ _ _ _ Hold).
    - rewrite <- En. apply (left_nonce2 _ _ _ _ _ _ Hold). }
  assert (loose pR tx) as Hlo by (split; [done|by exists h]).
  assert (forall x, x ∈ inv -> parked q2 addr x) as Hpk.
  { intros x Hx. rewrite Forall_forall in Hinv. destruct (Hinv x Hx) as [Hax Hhx Hgx Hnx _].
    assert (x <> tx) as Hne.
    { intros ->. assert (tx ∈ values (tl_items l)) as Hin.
      { rewrite (proj1 (shrinks_splits _ _ _ Hsh)). apply elem_of_app. left. by right. }
      apply values_elem in Hin; [|done]. rewrite Eold in Hin. injection Hin as ->. done. }
    split.
    - rewrite (same_chain _ _ (quiet_same _ _ Hq2)). done.
    - apply (quiet_loose (pR <| tp_all ::= delete h |>)); [done|].
      by apply (loose_delete pR _ x tx h); [split| | | |..].
    - rewrite (quiet_pending _ _ Hq2). done. }
  split_and!; [|done|by apply Forall_forall].
  apply (quiet_inv (pR <| tp_all ::= delete h |>)); [done|apply Hh2|]. by apply (delete_loose_inv pR tx).
Qed.

Lemma quiet_shrunk p q q1 h addr l' : quiet (p <| tp_all ::= delete h |>) q -> quiet q q1 ->
  quiet ((p <| tp_pending ::= <[addr := l']> |>) <| tp_all ::= delete h |>) (q1 <| tp_pending ::= <[addr := l']> |>).
Proof.
  intros Hq Hq1. pose proof (PreOrder_Transitive _ _ _ Hq Hq1) as [[] Ep Eq Ea].
  split; [by split| |exact Eq|exact Ea].
  change (<[addr := l']> (tp_pending q1) = <[addr := l']> (tp_pending p)). by rewrite Ep.
Qed.

(** [removePending] returns: either the transaction is gone, or its position was
    not pending. *)
Lemma removePending_runs p q h tx addr : removing p q h tx addr ->
  exists b q', runs (removePending addr tx) q b q' /\ local_step addr q q' /\
    if b : bool then pool_inv q'
    else exists p', removing p' q' h tx addr /\ items_at (tp_pending p') addr !! tx_AccountNonce tx = None.
Proof.
  intros Hrm. pose proof Hrm as [Hi Hg Eh Ea Hq Hh]. unfold removePending.
  pose proof (quiet_pending _ _ Hq) as Eqp. change (tp_pending q = tp_pending p) in Eqp.
  destruct (tp_pending p !! addr) as [l|] eqn:El.
  2:{ exists false, q. split; [unfold runs; rewrite bind_get; by rewrite Eqp, El|]. split; [done|]. exists p.
      split; [done|]. unfold items_at. by rewrite El. }
  destruct (tick_runs q) as (t&q1&Et&Hq1&Hi1). pose proof (quiet_pending _ _ Hq1) as Ep1.
  destruct (inv_pending p Hi addr l El) as (Hwl&Hst&_).
  destruct (Remove_runs t tx l Hwl) as (found&inv&l'&ER&Hcase).
  set (q2 := q1 <| tp_pending ::= <[addr := l']> |>). set (pR := p <| tp_pending ::= <[addr := l']> |>).
  assert (hashed q2) as Hh2.
  { destruct Hh as [Hh1 Hh2]. split; [by rewrite <- Hi1 in Hh1|]. by rewrite <- (quiet_all _ _ Hq1) in Hh2. }
  pose proof (quiet_shrunk p q q1 h addr l' Hq Hq1) as Hq2. fold pR q2 in Hq2.
  assert (local_step addr q q2) as Hls2.
  { destruct Hq1 as [Hs1 _ Eq1 Ea1]. split; [etrans; [exact Hs1|]; by split| |by intros; rewrite <- Eq1|by rewrite <- Ea1].
    intros a Hne. rewrite <- Ep1. change (<[addr := l']> (tp_pending q1) !! a = tp_pending q1 !! a).
    by rewrite lookup_insert_ne. }
  assert (forall A (k : bool * list Transaction -> MP A) b q', runs (k (found, inv)) q2 b q' ->
    runs (t <- tick ;; r <- onPending addr (tl_Remove t tx) ;; k r) q b q') as Hrun.
  { intros A k b q' Hk. eapply runs_bind; [exact Et|].
    eapply runs_bind; [apply (onPending_runs addr l _ _ l'); [by rewrite Ep1, Eqp|exact ER]|]. exact Hk. }
  destruct found.
  2:{ destruct Hcase as (En&->&Hw'&Hs'&Ei). exists false, q2.
      split; [unfold runs; rewrite bind_get, Eqp, El; by apply Hrun|]. split; [done|]. exists pR. split.
      - split; [|done|done|done|done|done]. apply (shrink_pending_inv p addr l l' []); [done|done|].
        split; [done|done|]. rewrite Ei. apply splits_refl.
      - unfold pR. cbn. rewrite items_at_insert, decide_True by done. by rewrite Ei. }
  destruct Hcase as (old&Eold&Hsh).
  destruct (removed_parked p q h tx addr l l' old inv Hrm El Eold Hsh q2 Hq2 Hh2) as (Hi2&Hnd&Hpk).
  assert (tp_pending q2 !! addr = Some l') as El2 by apply lookup_insert_eq.
  pose proof (set_pending_same q2 addr l' El2) as Esame.
  assert (exists q3, runs (if Z.of_nat (size (tl_items l')) =? 0
      then modify (fun p => p <| tp_pending ::= delete addr |> <| tp_beats ::= delete addr |>)
      else for_each inv (fun tx => h <- hashOf tx ;; enqueueTx h tx ;; ret tt)) q2 tt q3 /\
    pool_inv q3 /\ local_step addr q2 q3) as (q3&E3&Hi3&Hls3).
  { destruct (_ =? 0) eqn:Ee.
    - apply Empty_items in Ee. eexists. split; [done|]. split; [by apply (drop_pending_inv q2 addr l')|].
      split; [by split| |done|done]. intros a Hne. cbn. by rewrite lookup_delete_ne.
    - destruct (requeue_runs q2 addr inv Hi2 Hnd Hpk) as (q3&E3&Hi3&Hls3&_). by exists q3. }
  destruct (lowerNonce_runs addr (tx_AccountNonce tx) q3) as (q4&E4&Hq4&Hit4).
  exists true, q4. split_and!.
  - unfold runs. rewrite bind_get, Eqp, El. apply Hrun. cbn [negb fst snd].
    eapply runs_bind; [apply (onPending_runs addr l' _ _ l' q2 El2 (Empty_runs l'))|]. rewrite Esame.
    eapply runs_bind; [exact E3|]. by eapply runs_bind.
  - etrans; [exact Hls2|]. etrans; [exact Hls3|]. by apply quiet_local.
  - apply (quiet_inv q3); [done|rewrite Hit4; apply Hi3|done].
Qed.

(** [removeTx] returns and forgets the hash. *)
Lemma removeTx_runs p h : pool_inv p ->
  exists p', runs (removeTx h) p tt p' /\ pool_inv p' /\ same p p' /\ tp_all p' ⊆ delete h (tp_all p) /\
    forall tx, tp_all p !! h = Some tx -> forall addr, tx_good (tp_chainId p) tx addr -> local_step addr p p'.
Proof.
  intros Hi. unfold removeTx. destruct (tp_all p !! h) as [tx|] eqn:Ea.
  2:{ exists p. split; [unfold runs; rewrite bind_get; by rewrite Ea|]. split_and!; [done|done|by rewrite delete_id|done]. }
  destruct (inv_all p Hi h tx Ea) as (Eh&addr&Hg). pose proof (good_sender _ _ _ Hg) as (sg&Esg&Ed).
  destruct (priced_Removed_low (p <| tp_all ::= delete h |>)) as (q&Eq&Hq&Hh); [by apply hashed_delete, pool_inv_hashed|].
  assert (removing p q h tx addr) as Hrm by by split.
  destruct (removePending_runs p q h tx addr Hrm) as (b&q2&E2&Hls2&Hb).
  assert (exists q3, runs (when (negb b) (removeQueued addr tx)) q2 tt q3 /\ pool_inv q3 /\ local_step addr q2 q3) as (q3&E3&Hi3&Hls3).
  { destruct b; cbn [negb when]; [by exists q2|]. destruct Hb as (p'&Hrm'&Hn).
    destruct (removeQueued_runs p' q2 h tx addr Hrm' Hn) as (q3&E3&Hi3&Hls3). by exists q3. }
  pose proof (PreOrder_Transitive _ _ _ Hls2 Hls3) as Hls. exists q3. split_and!.
  - unfold runs. rewrite bind_get, Ea, Esg. cbv zeta.
    eapply (runs_bind _ _ p (inr addr) p); [unfold runs, call; cbn; by rewrite Ed|].
    eapply runs_bind; [done|]. eapply runs_bind; [exact Eq|]. eapply runs_bind; [exact E2|]. exact E3.
  - done.
  - etrans; [|exact (ls_same _ _ _ Hls)]. etrans; [|exact (quiet_same _ _ Hq)]. by split.
  - etrans; [exact (ls_all _ _ _ Hls)|]. by rewrite (quiet_all _ _ Hq).
  - intros tx' [= <-] addr' Hg'. assert (addr' = addr) as -> by (eapply sender_unique; [apply Hg'|apply Hg]).
    etrans; [|exact Hls]. etrans; [|by apply quiet_local]. split; [by split|done|done|apply delete_subseteq].
Qed.
End Inv.
