(* ===== verification/TxPoolOps.v ===== *)
(** * TxPoolOps: the operations of the pool return and keep its invariant

    Promotion, demotion, the limits and the entry points of [core/tx_pool.go] on
    top of the parts proved in [TxPoolInv]. *)
From S2P Require Import Prelude.
From S2P Require Import Messages.
From S2P Require Import Tx.
From S2P Require Import GoHeap.
From S2P Require Import TxList.
From S2P Require Import TxListSpec.
From S2P Require Import Merkle.
From S2P Require Import CrossProof.
From S2P Require Import ManagedState.
From S2P Require Import TxPool.
From S2P Require Import TxPoolInv.

Local Abbreviation MP := (M TxPool).

Section Ops.
Context `{GR : GoRange} `{TE : TxEnv} `{ME : MerkleEnv} `{PE : ProofEnv} `{PO : PoolEnv}.

(** A step of the pool that adds nothing to the index. *)
Record step_ok (p p' : TxPool) : Prop := {
  so_inv : pool_inv p';
  so_same :> same p p';
  so_all : tp_all p' ⊆ tp_all p;
}.

Lemma step_refl p : pool_inv p -> step_ok p p.
Proof. by split. Qed.
Lemma step_trans p1 p2 p3 : step_ok p1 p2 -> step_ok p2 p3 -> step_ok p1 p3.
Proof. intros [] []. split; [done|by etrans|by etrans]. Qed.

(** A loop of such steps. *)
Lemma steps_runs {A} (body : A -> MP unit) (P : A -> Prop) :
  (forall x p, P x -> pool_inv p -> exists p', runs (body x) p tt p' /\ step_ok p p') ->
  forall l p, Forall P l -> pool_inv p -> exists p', runs (for_each l body) p tt p' /\ step_ok p p'.
Proof.
  intros Hb l p Hl Hi.
  destruct (for_each_runs (fun l p' => Forall P l /\ step_ok p p') body) with (l := l) (p := p) as (p'&E&_&Hs).
  - intros x l' p1 [[Hx Hl']%Forall_cons Hs1]. destruct (Hb x p1 Hx (so_inv _ _ Hs1)) as (p2&E2&Hs2).
    exists p2. split; [done|]. split; [done|]. by eapply step_trans.
  - split; [done|]. by apply step_refl.
  - by exists p'.
Qed.

(** ** Removing many *)

Lemma removeAll_runs txs p : pool_inv p -> Forall (fun tx => is_Some (ZKHashTx tx)) txs ->
  exists p', runs (removeAll txs) p tt p' /\ step_ok p p'.
Proof.
  intros Hi Hf. revert txs p Hf Hi. apply steps_runs. intros tx p [h Eh] Hi.
  destruct (removeTx_runs p h Hi) as (p'&E&Hi'&Hs&Ha&_). exists p'. split.
  - eapply runs_bind; [by apply hashOf_runs|exact E].
  - split; [done|done|]. etrans; [exact Ha|apply delete_subseteq].
Qed.

(** All of one account. *)
Lemma removeAll_local txs p addr : pool_inv p ->
  Forall (fun tx => exists h, ZKHashTx tx = Some h /\
    forall x, tp_all p !! h = Some x -> tx_good (tp_chainId p) x addr) txs ->
  exists p', runs (removeAll txs) p tt p' /\ pool_inv p' /\ local_step addr p p'.
Proof.
  intros Hi Hf.
  destruct (for_each_runs (fun l p' => pool_inv p' /\ local_step addr p p' /\
    Forall (fun tx => exists h, ZKHashTx tx = Some h /\
      forall x, tp_all p' !! h = Some x -> tx_good (tp_chainId p') x addr) l)
    (fun tx => h <- hashOf tx ;; removeTx h)) with (l := txs) (p := p) as (p'&E&Hi'&Hls&_);
    [|by split_and!|by exists p'].
  intros tx l p1 (Hi1&Hls1&[(h&Eh&Hg) Hl]%Forall_cons).
  destruct (removeTx_runs p1 h Hi1) as (p2&E2&Hi2&Hs2&Ha2&Hloc). exists p2.
  split; [eapply runs_bind; [by apply hashOf_runs|exact E2]|].
  assert (local_step addr p1 p2) as Hls2.
  { destruct (tp_all p1 !! h) as [x|] eqn:Ex; [by apply (Hloc x), Hg|].
    (* nothing to remove *)
    assert (p2 = p1) as ->; [|done]. unfold runs, removeTx in E2. rewrite bind_get, Ex in E2. by injection E2. }
  split_and!; [done|by etrans|]. eapply Forall_impl; [exact Hl|]. intros y (hy&Ehy&Hy). exists hy. split; [done|].
  intros x Hx. rewrite (same_chain _ _ Hs2). apply Hy. eapply lookup_weaken; [exact Hx|apply Hls2].
Qed.

(** ** Promotion *)

(** The configuration fits the machine types it is converted to. *)
Record config_ok (c : TxPoolConfig) : Prop := {
  ok_AccountSlots : 0 <= AccountSlots c;
  ok_GlobalSlots : 0 <= GlobalSlots c;
  ok_AccountQueue : 0 <= AccountQueue c < two64 / 2;
  ok_GlobalQueue : 0 <= GlobalQueue c;
}.

(** Replacing a list of the queue by a smaller one: the pool after it, and what
    left the list. *)
Lemma queue_shrunk {A} p addr l (m : M txList A) a l' gone : pool_inv p -> tp_queue p !! addr = Some l ->
  m l = (Ret a, l') -> shrinks l l' gone ->
  let p' := p <| tp_queue ::= <[addr := l']> |> in
  runs (onQueue addr m) p a p' /\ step_ok p p' /\ tp_queue p' !! addr = Some l' /\ NoDup gone /\
  Forall (fun x => tx_good (tp_chainId p') x addr /\ loose p' x /\ items_at (tp_queue p') addr !! tx_AccountNonce x = None) gone.
Proof.
  intros Hi E Em Hsh p'. destruct (shrink_gone _ _ _ _ _ _ (inv_queue p Hi) (inv_pending p Hi)
    (disjoint_sym _ _ (inv_disjoint p Hi)) addr l l' gone E Hsh) as [Hnd Hf].
  split_and!; [by apply (onQueue_runs addr l)| |apply lookup_insert_eq|done|].
  - split; [by apply (shrink_queue_inv p addr l l' gone)|by split|done].
  - eapply Forall_impl; [exact Hf|]. intros x [Hax Hhx Hgx Hnx _]. split_and!; [done| |done].
    split; [|done]. by apply absent_sym.
Qed.

Lemma promote_all p addr txs : pool_inv p -> NoDup txs -> Forall (promotable p addr) txs ->
  exists p', runs (for_each txs (fun tx => h <- hashOf tx ;; promoteTx addr h tx)) p tt p' /\ step_ok p p' /\
    tp_queue p' = tp_queue p.
Proof.
  intros Hi Hnd Hpm.
  destruct (for_each_runs (fun l p' => NoDup l /\ Forall (promotable p' addr) l /\ step_ok p p' /\ tp_queue p' = tp_queue p)
    (fun tx => h <- hashOf tx ;; promoteTx addr h tx)) with (l := txs) (p := p) as (p'&E&_&_&Hs&Hq);
    [|by split_and!; [| |apply step_refl|]|by exists p'].
  intros x l p1 ([Hnin Hnd1]%NoDup_cons&[Hx Hl]%Forall_cons&Hs1&Hq1). destruct (loose_all _ _ (pm_loose _ _ _ Hx)) as (h&Eh&_).
  destruct (promoteTx_runs p1 addr h x (so_inv _ _ Hs1) Hx Eh) as (p2&E2&Hi2&Hq2&Ha2&_&[Hs2 Hk2]).
  exists p2. split; [eapply runs_bind; [by apply hashOf_runs|exact E2]|]. split_and!; [done| | |congruence].
  - rewrite Forall_forall in *. intros y Hy. destruct (Hl y Hy) as [Hgy Hly Hqy]. split.
    + by rewrite (same_chain _ _ Hs2).
    + apply Hk2; [done|]. by intros ->.
    + by rewrite Hq2.
  - eapply step_trans; [exact Hs1|]. by split.
Qed.

(** Forgetting what left a list. *)
Lemma forget_runs_step p txs : pool_inv p -> NoDup txs -> Forall (loose p) txs ->
  exists p', runs (for_each txs forget) p tt p' /\ step_ok p p' /\ tp_queue p' = tp_queue p /\ tp_pending p' = tp_pending p.
Proof.
  intros Hi Hnd Hl. destruct (forget_all p txs Hi Hnd Hl) as (p'&E&Hi'&Hs&Ep&Eq&Ha&_). exists p'. by split_and!.
Qed.

Lemma NoDup_app_l {A} (l k : list A) : NoDup (l ++ k) -> NoDup l.
Proof. by intros (?&_&_)%NoDup_app. Qed.

Lemma quiet_step p p' : pool_inv p -> quiet p p' -> tp_items p' = tp_items p -> step_ok p p'.
Proof.
  intros Hi Hq Ei. split; [|apply Hq|by rewrite (quiet_all _ _ Hq)]. apply (quiet_inv p); [done|rewrite Ei; apply Hi|done].
Qed.

Lemma GetNonce_runs addr p : exists n p', runs (onPendingState (ms_GetNonce addr)) p n p' /\ quiet p p' /\ tp_items p' = tp_items p.
Proof.
  destruct (GetNonce_returns addr (tp_pendingState p)) as (k&s&E). exists k, (p <| tp_pendingState := s |>).
  split; [unfold runs, onPendingState; by rewrite E|]. by split; [split; [split|..]|].
Qed.

(** [promoteAccount] returns. *)
Lemma promoteAccount_runs view gaslimit addr p : pool_inv p -> config_ok (tp_config p) ->
  exists p', runs (promoteAccount view gaslimit addr) p tt p' /\ step_ok p p'.
Proof.
  intros Hi Hc. unfold promoteAccount. destruct (tp_queue p !! addr) as [l|] eqn:El.
  2:{ exists p. split; [unfold runs; rewrite bind_get; by rewrite El|by apply step_refl]. }
  destruct (tick_runs p) as (t&p1&E1&Hq1&It1). pose proof (quiet_step _ _ Hi Hq1 It1) as Hs1.
  assert (tp_queue p1 !! addr = Some l) as El1 by by rewrite (quiet_queue _ _ Hq1).
  destruct (inv_queue _ (so_inv _ _ Hs1) addr l El1) as (Hwl&_).
  destruct (Filter_runs_split t (cv_GetBalance view addr) gaslimit l Hwl) as (gone&inv&l2&EF&Hsh2).
  destruct (queue_shrunk p1 addr l _ _ l2 _ (so_inv _ _ Hs1) El1 EF Hsh2) as (E2&Hs2&El2&Hnd2&Hf2).
  set (p2 := p1 <| tp_queue ::= <[addr := l2]> |>) in *.
  destruct (forget_runs_step p2 gone (so_inv _ _ Hs2) (NoDup_app_l _ _ Hnd2)) as (p3&E3&Hs3&Eq3&_).
  { apply Forall_app in Hf2 as [Hf2 _]. eapply Forall_impl; [exact Hf2|]. by intros x (_&?&_). }
  destruct (GetNonce_runs addr p3) as (n&p4&E4&Hq4&It4). pose proof (quiet_step _ _ (so_inv _ _ Hs3) Hq4 It4) as Hs4.
  assert (tp_queue p4 !! addr = Some l2) as El4 by by rewrite (quiet_queue _ _ Hq4), Eq3.
  destruct (Ready_runs n l2 (shrinks_wf _ _ _ Hsh2)) as (rs&l5&ER&Hsh5).
  destruct (queue_shrunk p4 addr l2 _ _ l5 _ (so_inv _ _ Hs4) El4 ER Hsh5) as (E5&Hs5&El5&Hnd5&Hf5).
  set (p5 := p4 <| tp_queue ::= <[addr := l5]> |>) in *.
  destruct (promote_all p5 addr rs (so_inv _ _ Hs5) Hnd5) as (p6&E6&Hs6&Eq6).
  { eapply Forall_impl; [exact Hf5|]. intros x (?&?&?). by split. }
  assert (tp_queue p6 !! addr = Some l5) as El6 by by rewrite Eq6.
  assert (exists l7 p7, runs (when (negb (bool_decide (addr ∈ tp_locals p6)))
      (drops <- onQueue addr (tl_Cap (int64_of_u64 (AccountQueue (tp_config p6)))) ;; for_each drops forget)) p6 tt p7 /\
      step_ok p6 p7 /\ tp_queue p7 !! addr = Some l7) as (l7&p7&E7&Hs7&El7).
  { destruct (negb _); [|by exists l5, p6; split_and!; [|apply step_refl, Hs6|]].
    assert (tp_config p6 = tp_config p) as Ec.
    { rewrite (same_config _ _ (so_same _ _ Hs6)), (same_config _ _ (so_same _ _ Hs5)), (same_config _ _ (so_same _ _ Hs4)),
        (same_config _ _ (so_same _ _ Hs3)), (same_config _ _ (so_same _ _ Hs2)). apply Hs1. }
    destruct (ok_AccountQueue _ Hc) as [Hc0 Hc1].
    destruct (Cap_runs (int64_of_u64 (AccountQueue (tp_config p6))) l5 (shrinks_wf _ _ _ Hsh5)) as (gone7&l7&EC&Hsh7&_).
    { rewrite Ec. by rewrite int64_of_u64_small. }
    destruct (queue_shrunk p6 addr l5 _ _ l7 _ (so_inv _ _ Hs6) El6 EC Hsh7) as (Ea&Hsa&Ela&Hnda&Hfa).
    destruct (forget_runs_step _ gone7 (so_inv _ _ Hsa) Hnda) as (p7&Eb&Hsb&Eqb&_).
    { eapply Forall_impl; [exact Hfa|]. by intros x (_&?&_). }
    exists l7, p7. split_and!; [by eapply runs_bind|by eapply step_trans|by rewrite Eqb]. }
  pose proof (onQueue_runs addr l7 _ _ l7 p7 El7 (Empty_runs l7)) as E8. rewrite set_queue_same in E8 by done.
  assert (exists p9, runs (when (Z.of_nat (size (tl_items l7)) =? 0) (modify (fun p => p <| tp_queue ::= delete addr |>))) p7 tt p9 /\
    step_ok p7 p9) as (p9&E9&Hs9).
  { destruct (_ =? 0) eqn:Ee; [|by exists p7; split; [|apply step_refl, Hs7]]. apply Empty_items in Ee. eexists. split; [done|].
    split; [apply (drop_queue_inv p7 addr l7); [apply Hs7|done|done]|by split|done]. }
  exists p9. split.
  - unfold runs. rewrite bind_get, El. eapply runs_bind; [exact E1|]. eapply runs_bind; [exact E2|]. cbn [fst].
    eapply runs_bind; [exact E3|]. eapply runs_bind; [exact E4|]. eapply runs_bind; [exact E5|].
    eapply runs_bind; [exact E6|]. eapply runs_bind; [reflexivity|]. eapply runs_bind; [exact E7|]. eapply runs_bind; [exact E8|exact E9].
  - repeat (eapply step_trans; [eassumption|]). apply step_refl, Hs9.
Qed.

(** ** The limit on pending transactions *)

Definition len_at (m : gmap string txList) (a : string) : Z := Z.of_nat (size (items_at m a)).

Lemma countTxs_insert m a l : countTxs (<[a := l]> m) = countTxs m - len_at m a + Z.of_nat (size (tl_items l)).
Proof.
  assert (forall b l', countTxs (<[b := l']> (delete b m)) = Z.of_nat (size (tl_items l')) + countTxs (delete b m)) as Hins.
  { intros b l'. unfold countTxs. rewrite map_fold_insert_L; [unfold tl_items; lia| |apply lookup_delete_eq]. intros. lia. }
  rewrite <- insert_delete_eq, Hins. unfold len_at, items_at. destruct (m !! a) as [l0|] eqn:E; cbn [from_option].
  - rewrite <- (insert_delete_id m a l0 E) at 2. rewrite Hins. lia.
  - rewrite delete_id by done. rewrite map_size_empty. lia.
Qed.

Lemma countTxs_ge m a : len_at m a <= countTxs m.
Proof.
  assert (forall m, 0 <= countTxs m) as Hpos.
  { intros m0. unfold countTxs. apply (map_fold_weak_ind (fun n _ => 0 <= n)); [done|]. intros. lia. }
  unfold len_at, items_at. destruct (m !! a) as [l|] eqn:E; cbn [from_option]; [|rewrite map_size_empty; apply Hpos].
  rewrite <- (insert_delete_id m a l E). rewrite countTxs_insert. unfold len_at, items_at.
  rewrite lookup_delete_eq. cbn [from_option]. rewrite map_size_empty. specialize (Hpos (delete a m)). lia.
Qed.

(** The transactions of a map of lists, and that the index holds them all. *)
Definition listed_txs (m : gmap string txList) : list Transaction := (map_to_list m) ≫= (fun e => values (tl_items e.2)).

Lemma length_listed m : Z.of_nat (length (listed_txs m)) = countTxs m.
Proof.
  unfold listed_txs, countTxs. rewrite map_fold_foldr. induction (map_to_list m) as [|[a l] es IH]; [done|].
  cbn [mbind list_bind foldr]. rewrite length_app, Nat2Z.inj_add, IH. unfold values.
  rewrite length_fmap, length_map_to_list. unfold tl_items. cbn. lia.
Qed.

Lemma listed_elem m tx : (forall a l, m !! a = Some l -> keyed (tl_items l)) -> tx ∈ listed_txs m ->
  exists a, items_at m a !! tx_AccountNonce tx = Some tx.
Proof.
  intros Hk ([a l]&Hin&Hal)%list_elem_of_bind. apply elem_of_map_to_list in Hal. exists a. unfold items_at. rewrite Hal.
  apply values_elem; [|done]. by apply (Hk a).
Qed.

Lemma countTxs_le strict chain all m : lists_ok strict chain all m -> countTxs m <= Z.of_nat (size all).
Proof.
  intros Hm. rewrite <- length_listed.
  assert (forall a l, m !! a = Some l -> keyed (tl_items l)) as Hk.
  { intros a l E. destruct (Hm a l E) as (Hw&_). apply (core_keyed _ (tl_sm _ Hw)). }
  assert (forall tx, tx ∈ listed_txs m -> hash_ok all tx) as Hh.
  { intros tx Htx. destruct (listed_elem m tx Hk Htx) as [a Ha]. by destruct (listed_ok _ _ _ _ _ _ _ Hm Ha) as (_&?&_). }
  assert (NoDup (listed_txs m)) as Hnd.
  { unfold listed_txs. apply NoDup_bind.
    - intros [a1 l1] [a2 l2] tx E1%elem_of_map_to_list E2%elem_of_map_to_list H1 H2. cbn in *.
      apply values_elem in H1, H2; [|by eapply Hk..].
      assert (items_at m a1 !! tx_AccountNonce tx = Some tx) as A1 by (unfold items_at; by rewrite E1).
      assert (items_at m a2 !! tx_AccountNonce tx = Some tx) as A2 by (unfold items_at; by rewrite E2).
      destruct (listed_ok _ _ _ _ _ _ _ Hm A1) as (G1&_), (listed_ok _ _ _ _ _ _ _ Hm A2) as (G2&_).
      assert (a1 = a2) as -> by (eapply sender_unique; [apply G1|apply G2]). congruence.
    - intros [a l] Hin%elem_of_map_to_list. by apply values_NoDup, (Hk a).
    - apply NoDup_map_to_list. }
  set (hs := (fun tx => default EmptyString (ZKHashTx tx)) <$> listed_txs m).
  assert (NoDup hs) as Hnd2.
  { apply NoDup_fmap_2_strong; [|done]. intros x y Hx Hy E. apply (hash_ok_inj all); [by apply Hh|by apply Hh|].
    destruct (Hh x Hx) as (hx&Ex&_), (Hh y Hy) as (hy&Ey&_). rewrite Ex, Ey in *. cbn in E. by f_equal. }
  assert (length hs <= size (dom all))%nat as Hle.
  { rewrite <- (size_list_to_set (C := gset string) _ Hnd2). apply subseteq_size. intros h Hin.
    apply elem_of_list_to_set, list_elem_of_fmap in Hin as (tx&->&Htx). destruct (Hh tx Htx) as (h&->&E).
    by apply elem_of_dom. }
  unfold hs in Hle. rewrite length_fmap, size_dom in Hle. lia.
Qed.

(** The accounts [os] each lost their last transaction. *)
Record capped (os : list string) (p p' : TxPool) : Prop := {
  cp_step :> step_ok p p';
  cp_queue : tp_queue p' = tp_queue p;
  cp_dom : forall a, is_Some (tp_pending p !! a) -> is_Some (tp_pending p' !! a);
  cp_len : forall a, len_at (tp_pending p') a = len_at (tp_pending p) a - (if decide (a ∈ os) then 1 else 0);
  cp_count : countTxs (tp_pending p') = countTxs (tp_pending p) - Z.of_nat (length os);
}.

Lemma capLast_runs a p : pool_inv p -> is_Some (tp_pending p !! a) -> 1 <= len_at (tp_pending p) a ->
  exists p', runs (capLast a) p tt p' /\ capped [a] p p'.
Proof.
  intros Hi [l El] Hlen. assert (items_at (tp_pending p) a = tl_items l) as Eit by (unfold items_at; by rewrite El).
  unfold len_at in Hlen. rewrite Eit in Hlen. destruct (inv_pending p Hi a l El) as (Hwl&_).
  assert (0 <= Z.of_nat (size (tl_items l)) - 1) as Hpos by lia.
  destruct (Cap_runs _ l Hwl Hpos) as (gone&l'&EC&Hsh&Hsz).
  pose proof (onPending_runs a l _ _ l p El (Len_runs l)) as E1. rewrite set_pending_same in E1 by done.
  pose proof (onPending_runs a l _ _ l' p El EC) as E2. set (p2 := p <| tp_pending ::= <[a := l']> |>) in *.
  assert (pool_inv p2) as Hi2 by (by apply (shrink_pending_inv p a l l' gone)).
  destruct (shrink_gone _ _ _ _ _ _ (inv_pending p Hi) (inv_queue p Hi) (inv_disjoint p Hi) a l l' gone El Hsh) as [Hnd Hgone].
  destruct (for_each_runs (fun l p' => pool_inv p' /\ NoDup l /\ Forall (loose p') l /\ step_ok p2 p' /\
      tp_queue p' = tp_queue p2 /\ tp_pending p' = tp_pending p2)
    (fun tx => forget tx ;; lowerNonce a (tx_AccountNonce tx))) with (l := gone) (p := p2)
    as (p3&E3&Hi3&_&_&Hs3&Eq3&Ep3).
  - intros x k p0 (Hi0&[Hnin Hnd0]%NoDup_cons&[Hx Hk]%Forall_cons&Hs0&Eq0&Ep0). destruct (loose_all _ _ Hx) as (h&Eh&_).
    destruct (forget_runs p0 x h Hi0 Hx Eh) as (p4&E4&Hi4&Hs4&Ep4&Eq4&Ea4).
    destruct (lowerNonce_runs a (tx_AccountNonce x) p4) as (p5&E5&Hq5&It5).
    pose proof (quiet_step _ _ Hi4 Hq5 It5) as Hs5. exists p5. split; [by eapply runs_bind|].
    split_and!; [apply Hs5|done| | | |].
    + rewrite Forall_forall in *. intros y Hy. apply (quiet_loose p4); [done|]. apply (loose_delete p0 p4 y x h); auto.
      by intros ->.
    + eapply step_trans; [exact Hs0|]. eapply step_trans; [|exact Hs5]. split; [done|done|]. rewrite Ea4. apply delete_subseteq.
    + by rewrite (quiet_queue _ _ Hq5), Eq4.
    + by rewrite (quiet_pending _ _ Hq5), Ep4.
  - split_and!; [done|done| |by apply step_refl|done|done]. eapply Forall_impl; [exact Hgone|].
    intros x [Hax Hhx _ _ _]. by split.
  - exists p3. assert (tp_pending p3 = <[a := l']> (tp_pending p)) as Ep by by rewrite Ep3.
    assert (size (tl_items l') = size (tl_items l) - 1)%nat as Hsz' by lia.
    split; [eapply runs_bind; [exact E1|]; by eapply runs_bind|]. split.
    + eapply step_trans; [|exact Hs3]. by split.
    + by rewrite Eq3.
    + intros b Hb. rewrite Ep. by apply lookup_insert_is_Some'; right.
    + intros b. rewrite Ep. unfold len_at. rewrite items_at_insert. destruct (decide (a = b)) as [<-|Hne].
      * rewrite decide_True by (by left). rewrite Eit. lia.
      * rewrite decide_False; [lia|]. by intros ->%list_elem_of_singleton.
    + rewrite Ep, countTxs_insert. unfold len_at. rewrite Eit. cbn. lia.
Qed.

Lemma capped_refl p : pool_inv p -> capped [] p p.
Proof. intros Hi. split; [by apply step_refl|done|done| |cbn; lia]. intros a. rewrite decide_False; [lia|]. apply not_elem_of_nil. Qed.

Lemma capped_app os os' p p1 p2 : (forall a, a ∈ os -> a ∉ os') -> capped os p p1 -> capped os' p1 p2 -> capped (os ++ os') p p2.
Proof.
  intros Hd [S1 Q1 D1 L1 C1] [S2 Q2 D2 L2 C2]. split; [by eapply step_trans|congruence|auto| |].
  - intros a. rewrite L2, L1. destruct (decide (a ∈ os)) as [Ho|Ho], (decide (a ∈ os')) as [Ho'|Ho'].
    + by destruct (Hd a).
    + rewrite decide_True; [lia|]. apply elem_of_app. by left.
    + rewrite decide_True; [lia|]. apply elem_of_app. by right.
    + rewrite decide_False; [lia|]. rewrite elem_of_app. tauto.
  - rewrite length_app. lia.
Qed.

Lemma capAll_runs os p : pool_inv p -> NoDup os ->
  (forall a, a ∈ os -> is_Some (tp_pending p !! a) /\ 1 <= len_at (tp_pending p) a) ->
  exists p', runs (for_each os capLast) p tt p' /\ capped os p p'.
Proof.
  revert p. induction os as [|a os IH]; intros p Hi Hnd Ho; [by exists p; split; [|by apply capped_refl]|].
  apply NoDup_cons in Hnd as [Hnin Hnd]. destruct (Ho a) as [Ha Hl]; [by left|].
  destruct (capLast_runs a p Hi Ha Hl) as (p1&E1&H1). destruct (IH p1) as (p2&E2&H2); [apply H1|done| |].
  - intros b Hb. destruct (Ho b) as [Hb1 Hb2]; [by right|]. split; [by apply (cp_dom _ _ _ H1)|].
    rewrite (cp_len _ _ _ H1). rewrite decide_False; [lia|]. by intros ->%list_elem_of_singleton.
  - exists p2. split; [cbn [for_each]; by eapply runs_bind|]. apply (capped_app [a] os p p1 p2); [|done|done].
    by intros b ->%list_elem_of_singleton.
Qed.

(** ** Equalising the offenders *)

(** The offenders have pending lists of the same length [s], and [pending] counts
    all pending transactions. *)
Record level (os : list string) (s pending : Z) (p : TxPool) : Prop := {
  lv_inv : pool_inv p;
  lv_len : forall a, a ∈ os -> is_Some (tp_pending p !! a) /\ len_at (tp_pending p) a = s;
  lv_count : pending = countTxs (tp_pending p);
  lv_small : pending < two64;
}.

(** No pending list grew. *)
Definition shorter (p p' : TxPool) : Prop := forall a, len_at (tp_pending p') a <= len_at (tp_pending p) a.
#[local] Hint Extern 0 (shorter ?p ?p) => (intros ?; reflexivity) : core.
Lemma shorter_trans p1 p2 p3 : shorter p1 p2 -> shorter p2 p3 -> shorter p1 p3.
Proof. intros H1 H2 a. specialize (H1 a). specialize (H2 a). lia. Qed.

(** What the turns leave: lists of other accounts keep their length. *)
Record leveled (os : list string) (p p' : TxPool) : Prop := {
  ld_step :> step_ok p p';
  ld_queue : tp_queue p' = tp_queue p;
  ld_other : forall a, a ∉ os -> is_Some (tp_pending p !! a) ->
    is_Some (tp_pending p' !! a) /\ len_at (tp_pending p') a = len_at (tp_pending p) a;
  ld_shorter : shorter p p';
}.

Lemma leveled_refl os p : pool_inv p -> leveled os p p.
Proof. intros Hi. split; [by apply step_refl|done|done|done]. Qed.

Lemma leveled_trans os p1 p2 p3 : leveled os p1 p2 -> leveled os p2 p3 -> leveled os p1 p3.
Proof.
  intros [S1 Q1 O1 L1] [S2 Q2 O2 L2]. split; [by eapply step_trans|congruence| |by eapply shorter_trans]. intros a Hn Ha.
  destruct (O1 a Hn Ha) as [Ha1 E1], (O2 a Hn Ha1) as [Ha2 E2]. split; [done|congruence].
Qed.

Lemma turn_runs os s pending p : NoDup os -> os <> [] -> 1 <= s -> level os s pending p ->
  exists pending' p', runs (equalizeTurn os pending) p pending' p' /\ level os (s - 1) pending' p' /\ leveled os p p' /\
    pending' < pending.
Proof.
  intros Hnd Hne Hs [Hi Hl Hc Hsm]. destruct (capAll_runs os p Hi Hnd) as (p'&E&Hcap).
  { intros a Ha. destruct (Hl a Ha) as [? ->]. done. }
  pose proof (cp_count _ _ _ Hcap) as Hcount. assert (1 <= Z.of_nat (length os)) by (destruct os; [done|cbn; lia]).
  assert (0 <= countTxs (tp_pending p')) as Hpos.
  { destruct os as [|a os]; [done|]. pose proof (countTxs_ge (tp_pending p') a). unfold len_at in *. lia. }
  exists (pending - Z.of_nat (length os)), p'. split_and!; [| | |lia].
  - unfold equalizeTurn. eapply runs_bind; [exact E|]. rewrite u64_small by (unfold is_u64; lia). done.
  - split; [apply Hcap| |lia|lia]. intros a Ha. destruct (Hl a Ha) as [Ha1 Ha2].
    split; [by apply (cp_dom _ _ _ Hcap)|]. rewrite (cp_len _ _ _ Hcap), decide_True by done. lia.
  - split; [apply Hcap|apply Hcap| |].
    + intros a Hn Ha. split; [by apply (cp_dom _ _ _ Hcap)|]. rewrite (cp_len _ _ _ Hcap), decide_False by done. lia.
    + intros a. rewrite (cp_len _ _ _ Hcap). destruct (decide _); lia.
Qed.

Lemma Len_at_runs a p : is_Some (tp_pending p !! a) -> runs (onPending a tl_Len) p (len_at (tp_pending p) a) p.
Proof.
  intros [l El]. pose proof (onPending_runs a l _ _ l p El (Len_runs l)) as E. rewrite set_pending_same in E by done.
  unfold len_at, items_at. by rewrite El.
Qed.

Lemma equalize_runs fuel os prev threshold s pending p : NoDup os -> prev ∈ os -> 0 <= threshold <= s -> s <= Z.of_nat fuel ->
  level os s pending p ->
  exists pending' s' p', runs (equalize fuel os prev threshold pending) p pending' p' /\ level os s' pending' p' /\
    leveled os p p' /\ (pending' <= GlobalSlots (tp_config p) \/ s' = threshold).
Proof.
  intros Hnd Hprev. revert s pending p. induction fuel as [|fuel IH]; intros s pending p Ht Hf Hlv.
  all: destruct (lv_len _ _ _ _ Hlv prev Hprev) as [Hpd Hpl]; cbn [equalize].
  all: destruct (GlobalSlots (tp_config p) <? pending) eqn:Eg;
    [|exists pending, s, p; split_and!; [unfold runs; rewrite bind_get, Eg; done|done|by apply leveled_refl, Hlv|left; by apply Z.ltb_ge in Eg]].
  all: destruct (threshold <? s) eqn:Es;
    [|exists pending, s, p; split_and!; [|done|by apply leveled_refl, Hlv|right; apply Z.ltb_ge in Es; lia];
      unfold runs; rewrite bind_get, Eg; cbn [negb]; eapply runs_bind; [by apply Len_at_runs|]; by rewrite Hpl, Es].
  - apply Z.ltb_lt in Es. lia.
  - apply Z.ltb_lt in Es. destruct (turn_runs os s pending p Hnd) as (pending1&p1&E1&Hlv1&Hld1&_); [intros ->; by apply elem_of_nil in Hprev|lia|done|].
    destruct (IH (s - 1) pending1 p1) as (pending2&s2&p2&E2&Hlv2&Hld2&Hor); [lia|lia|done|].
    exists pending2, s2, p2. split_and!; [|done|by eapply leveled_trans|].
    + unfold runs. rewrite bind_get, Eg. cbn [negb]. eapply runs_bind; [by apply Len_at_runs|].
      rewrite Hpl. rewrite (proj2 (Z.ltb_lt _ _) Es). cbn [negb]. by eapply runs_bind.
    + by rewrite <- (same_config _ _ (so_same _ _ (ld_step _ _ _ Hld1))).
Qed.

(** The state of the loop over the spammers: the limit is met, or the offenders are
    level and the accounts to come, sorted by length, are not longer. *)
Record spam_state (os : list string) (spammers : list (string * Z)) (s pending : Z) (p : TxPool) : Prop := {
  ss_level : level os s pending p;
  ss_nodup : NoDup (os ++ spammers.*1);
  ss_sorted : StronglySorted (fun a b => b.2 <= a.2) spammers;
  ss_rest : forall e, e ∈ spammers -> is_Some (tp_pending p !! e.1) /\ len_at (tp_pending p) e.1 = e.2 /\ 0 <= e.2 <= s;
}.

Definition spam_ok (os : list string) (spammers : list (string * Z)) (pending : Z) (p : TxPool) : Prop :=
  pool_inv p /\ pending = countTxs (tp_pending p) /\
  (pending <= GlobalSlots (tp_config p) \/ exists s, spam_state os spammers s pending p).

Lemma level_len_pos os s pending p a : a ∈ os -> level os s pending p -> 0 <= s <= pending.
Proof.
  intros Ha [_ Hl -> _]. destruct (Hl a Ha) as [_ <-]. pose proof (countTxs_ge (tp_pending p) a). unfold len_at in *. lia.
Qed.

Lemma same_slots p p' : same p p' -> GlobalSlots (tp_config p') = GlobalSlots (tp_config p).
Proof. by intros [-> _ _ _ _]. Qed.

(** One spammer joins the offenders. *)
Lemma spam_turn os b t spammers s pending p : spam_state os ((b, t) :: spammers) s pending p ->
  exists pending' p',
    runs (match last os with
          | None => ret pending
          | Some prev => (threshold <- onPending b tl_Len ;; equalize (Z.to_nat pending) os prev threshold pending)
          end) p pending' p' /\
    step_ok p p' /\ tp_queue p' = tp_queue p /\ shorter p p' /\ spam_ok (os ++ [b]) spammers pending' p'.
Proof.
  intros [Hlv Hnd Hso Hre]. destruct (Hre (b, t)) as (Hb&Hbl&Hbt); [by left|]. cbn [fst snd] in *.
  inversion Hso as [|? ? Hso' Hfa]; subst.
  assert (NoDup ((os ++ [b]) ++ spammers.*1)) as Hnd' by by rewrite <- app_assoc.
  assert (forall e, e ∈ spammers -> (e.1 ∉ os) /\ (e.1 <> b) /\ 0 <= e.2 <= len_at (tp_pending p) b) as Hsp.
  { intros e He. apply NoDup_app in Hnd' as (_&Hdis&_). assert (e.1 ∉ os ++ [b]) as Hn.
    { intros Hin. apply (Hdis _ Hin). by apply list_elem_of_fmap_2. }
    rewrite elem_of_app, list_elem_of_singleton in Hn. rewrite Forall_forall in Hfa. specialize (Hfa e He). cbn in Hfa.
    destruct (Hre e) as (_&_&?); [by right|]. split_and!; [tauto|tauto|lia|lia]. }
  destruct (last os) as [prev|] eqn:El.
  - apply last_Some in El as [os' ->]. assert (prev ∈ os' ++ [prev]) as Hprev by (apply elem_of_app; right; by left).
    pose proof (level_len_pos _ _ _ _ _ Hprev Hlv) as Hsp0. apply NoDup_app in Hnd as (Hndo&Hdis&_).
    destruct (equalize_runs (Z.to_nat pending) (os' ++ [prev]) prev (len_at (tp_pending p) b) s pending p Hndo Hprev)
      as (pending'&s'&p'&E&Hlv'&[Hst Hq Ho Hsh]&Hor); [lia|lia|done|].
    exists pending', p'. split_and!; [by eapply runs_bind; [by apply Len_at_runs|]|done|done|done|].
    split_and!; [apply Hst|apply Hlv'|]. rewrite (same_slots _ _ (so_same _ _ Hst)). destruct Hor as [?| ->]; [by left|right].
    exists (len_at (tp_pending p) b). destruct Hlv' as [Hi' Hl' Hc' Hsm']. split; [split; [done| |done|done]|done|done|].
    + intros a [Ha|Ha%list_elem_of_singleton]%elem_of_app; [by apply Hl'|]. subst a. apply Ho; [|done].
      intros Hin. apply (Hdis b Hin). by left.
    + intros e He. destruct (Hsp e He) as (Hn&_&Hle), (Hre e) as (Hs1&Hs2&_); [by right|].
      destruct (Ho e.1 Hn Hs1) as [Hs3 Hs4]. split_and!; [done|congruence|lia|lia].
  - apply last_None in El as ->. exists pending, p. destruct Hlv as [Hi Hl Hc Hsm].
    split_and!; [done|by apply step_refl|done|done|]. split_and!; [done|done|]. right. exists (len_at (tp_pending p) b).
    split; [split; [done| |done|done]|done|done|].
    + intros a Ha%list_elem_of_singleton. by subst a.
    + intros e He. destruct (Hsp e He) as (_&_&Hle), (Hre e) as (Hs1&Hs2&_); [by right|]. done.
Qed.

Lemma penalize_runs spammers os pending p : spam_ok os spammers pending p ->
  exists os' pending' p', runs (penalize spammers os pending) p (os', pending') p' /\ step_ok p p' /\
    tp_queue p' = tp_queue p /\ shorter p p' /\ spam_ok os' [] pending' p' /\
    (pending' <= GlobalSlots (tp_config p) \/ os' = os ++ spammers.*1).
Proof.
  revert os pending p. induction spammers as [|[b t] spammers IH]; intros os pending p [Hi [Hcnt Hok] ]; cbn [penalize].
  { exists os, pending, p. split_and!; [done|by apply step_refl|done|done|done|]. right. by rewrite app_nil_r. }
  destruct (GlobalSlots (tp_config p) <? pending) eqn:Eg.
  2:{ apply Z.ltb_ge in Eg as Eg'. exists os, pending, p.
      split_and!; [unfold runs; rewrite bind_get, Eg; done|by apply step_refl|done|done| |by left].
      split_and!; [done|done|]. by left. }
  destruct Hok as [Hle|[s Hs]]; [apply Z.ltb_lt in Eg; lia|].
  destruct (spam_turn os b t spammers s pending p Hs) as (pending1&p1&E1&Hs1&Hq1&Hsh1&Hok1).
  destruct (IH (os ++ [b]) pending1 p1 Hok1) as (os'&pending'&p'&E2&Hs2&Hq2&Hsh2&Hok2&Hor).
  exists os', pending', p'. split_and!; [|by eapply step_trans|congruence|by eapply shorter_trans|done|].
  2:{ rewrite (same_slots _ _ (so_same _ _ Hs1)) in Hor. destruct Hor as [|Hor]; [by left|right]. by rewrite Hor, <- app_assoc. }
  unfold runs. rewrite bind_get, Eg. cbn [negb]. by eapply runs_bind.
Qed.

Lemma minimize_runs fuel os lastOne s pending p : 0 <= AccountSlots (tp_config p) -> NoDup os -> lastOne ∈ os ->
  s <= Z.of_nat fuel -> level os s pending p ->
  exists pending' p', runs (minimize fuel os lastOne pending) p pending' p' /\ step_ok p p' /\ tp_queue p' = tp_queue p /\
    shorter p p' /\ pending' = countTxs (tp_pending p') /\
    (pending' <= GlobalSlots (tp_config p) \/ forall a, a ∈ os -> len_at (tp_pending p') a <= AccountSlots (tp_config p)).
Proof.
  intros Hsl Hnd Hlast. revert s pending p Hsl. induction fuel as [|fuel IH]; intros s pending p Hsl Hf Hlv.
  all: destruct (lv_len _ _ _ _ Hlv lastOne Hlast) as [Hpd Hpl]; pose proof (lv_inv _ _ _ _ Hlv) as Hi; cbn [minimize].
  all: destruct (GlobalSlots (tp_config p) <? pending) eqn:Eg;
    [|exists pending, p; split_and!; [unfold runs; rewrite bind_get, Eg; done|by apply step_refl|done|done|apply Hlv|left; by apply Z.ltb_ge in Eg]].
  all: destruct (AccountSlots (tp_config p) <? s) eqn:Es;
    [|exists pending, p; split_and!; [|by apply step_refl|done|done|apply Hlv|right];
      [unfold runs; rewrite bind_get, Eg; cbn [negb]; eapply runs_bind; [by apply Len_at_runs|]; by rewrite Hpl, Es
      |intros a Ha; destruct (lv_len _ _ _ _ Hlv a Ha) as [_ ->]; by apply Z.ltb_ge in Es]].
  - apply Z.ltb_lt in Es. lia.
  - pose proof Es as Es'. apply Z.ltb_lt in Es'.
    destruct (turn_runs os s pending p Hnd) as (pending1&p1&E1&Hlv1&[Hs1 Hq1 _ Hsh1]&_);
      [intros ->; by apply elem_of_nil in Hlast|lia|done|].
    assert (tp_config p1 = tp_config p) as Ec by apply Hs1.
    destruct (IH (s - 1) pending1 p1) as (pending2&p2&E2&Hs2&Hq2&Hsh2&Hc2&Hor); [by rewrite Ec|lia|done|].
    rewrite Ec in Hor. exists pending2, p2. split_and!; [|by eapply step_trans|congruence|by eapply shorter_trans|done|done].
    unfold runs. rewrite bind_get, Eg. cbn [negb]. eapply runs_bind; [by apply Len_at_runs|].
    rewrite Hpl, Es. cbn [negb]. by eapply runs_bind.
Qed.

(** The spammers that the queue starts with. *)
Lemma spammers_ok p t : pool_inv p -> countTxs (tp_pending p) < two64 ->
  let rollers := List.filter (fun e => negb (bool_decide (e.1 ∈ tp_locals p))
    && (AccountSlots (tp_config p) <? Z.of_nat (size (sm_items (tl_txs e.2))))) (go_range t (tp_pending p)) in
  spam_ok [] (prqueOrder t ((fun e => (e.1, Z.of_nat (size (sm_items (tl_txs e.2))))) <$> rollers)) (countTxs (tp_pending p)) p.
Proof.
  intros Hi Hsm rollers. split_and!; [done|done|]. right. exists (countTxs (tp_pending p)).
  assert (NoDup rollers.*1) as Hnd.
  { pose proof (go_range_nodup t (tp_pending p)) as Hr. unfold rollers. clear rollers. revert Hr.
    generalize (go_range t (tp_pending p)) as l. induction l as [|e l IH]; intros Hr; [done|]. cbn [List.filter].
    apply NoDup_cons in Hr as [Hn Hr]. destruct (_ && _); [|by apply IH]. cbn. apply NoDup_cons. split; [|by apply IH].
    intros (e'&Ee&[He' _]%filter_elem)%list_elem_of_fmap. apply Hn. rewrite Ee. by apply list_elem_of_fmap_2. }
  split.
  - split; [done| |done|done]. intros a Ha. by apply elem_of_nil in Ha.
  - cbn [app]. rewrite prqueOrder_perm, <- list_fmap_compose. exact Hnd.
  - apply prqueOrder_sorted.
  - intros e He. rewrite prqueOrder_perm in He. apply list_elem_of_fmap in He as ([a l]&->&[Hin _]%filter_elem).
    apply go_range_elem in Hin. cbn [fst snd]. assert (items_at (tp_pending p) a = tl_items l) as Eit by (unfold items_at; by rewrite Hin).
    pose proof (countTxs_ge (tp_pending p) a) as Hge. unfold len_at in *. rewrite Eit in *. split_and!; [by eexists|done|lia|exact Hge].
Qed.

(** The limit is met, or nobody who may be evicted holds more than the guaranteed
    slots. *)
Definition limited (p : TxPool) : Prop :=
  countTxs (tp_pending p) <= GlobalSlots (tp_config p) \/
  forall a, a ∉ tp_locals p -> len_at (tp_pending p) a <= AccountSlots (tp_config p).

(** Who is not among the spammers holds no more than the guaranteed slots. *)
Lemma not_spammer p t a : a ∉ tp_locals p ->
  let rollers := List.filter (fun e => negb (bool_decide (e.1 ∈ tp_locals p))
    && (AccountSlots (tp_config p) <? Z.of_nat (size (sm_items (tl_txs e.2))))) (go_range t (tp_pending p)) in
  a ∉ (prqueOrder t ((fun e => (e.1, Z.of_nat (size (sm_items (tl_txs e.2))))) <$> rollers)).*1 ->
  0 <= AccountSlots (tp_config p) -> len_at (tp_pending p) a <= AccountSlots (tp_config p).
Proof.
  intros Hloc rollers Hn Hpos. unfold len_at, items_at.
  destruct (tp_pending p !! a) as [l|] eqn:El; cbn [from_option]; [|by rewrite map_size_empty].
  destruct (Z.leb_spec (Z.of_nat (size (tl_items l))) (AccountSlots (tp_config p))) as [|Hlt]; [done|]. exfalso. apply Hn.
  rewrite prqueOrder_perm, <- list_fmap_compose. apply list_elem_of_fmap. exists (a, l). split; [done|].
  apply filter_elem. split; [by apply go_range_elem|]. cbn. apply andb_true_iff. split; [|by apply Z.ltb_lt].
  by rewrite bool_decide_false.
Qed.

(** [limitPending] returns and limits. *)
Lemma limitPending_runs p : pool_inv p -> config_ok (tp_config p) -> Z.of_nat (size (tp_all p)) < two64 ->
  exists p', runs limitPending p tt p' /\ step_ok p p' /\ tp_queue p' = tp_queue p /\ limited p'.
Proof.
  intros Hi Hc Hsm. unfold limitPending.
  assert (u64 (countTxs (tp_pending p)) = countTxs (tp_pending p)) as Eu.
  { apply u64_small. pose proof (countTxs_le _ _ _ _ (inv_pending p Hi)). pose proof (countTxs_ge (tp_pending p) EmptyString).
    unfold len_at, is_u64 in *. lia. }
  pose proof (countTxs_le _ _ _ _ (inv_pending p Hi)) as Hle.
  destruct (GlobalSlots (tp_config p) <? countTxs (tp_pending p)) eqn:Eg.
  2:{ exists p. split; [unfold runs; rewrite bind_get, Eu, Eg; done|]. split_and!; [by apply step_refl|done|].
      left. by apply Z.ltb_ge in Eg. }
  destruct (tick_runs p) as (t&p1&E1&Hq1&It1). pose proof (quiet_step _ _ Hi Hq1 It1) as Hs1.
  pose proof (spammers_ok p t Hi ltac:(lia)) as Hsp. cbv zeta in Hsp.
  set (spammers := prqueOrder t _) in Hsp.
  assert (spam_ok [] spammers (countTxs (tp_pending p)) p1) as Hsp1.
  { destruct Hsp as (_&_&Hsp). split_and!; [apply Hs1|by rewrite (quiet_pending _ _ Hq1)|].
    rewrite (same_slots _ _ (so_same _ _ Hs1)).
    destruct Hsp as [|[s [[_ Hl Hcn Hsml] Hnd Hso Hre]]]; [by left|right]. exists s.
    split; [split; [apply Hs1|..]|done|done|]; rewrite ?(quiet_pending _ _ Hq1); done. }
  destruct (penalize_runs spammers [] _ p1 Hsp1) as (os&pending&p2&E2&Hs2&Hq2&Hsh2&[Hi2 [Hcnt2 Hok2] ]&Hall).
  pose proof (step_trans _ _ _ Hs1 Hs2) as Hs12. pose proof (so_same _ _ Hs12) as Hsm2.
  assert (forall a, a ∉ tp_locals p -> a ∉ spammers.*1 -> len_at (tp_pending p2) a <= AccountSlots (tp_config p)) as Hout.
  { intros a Ha Hn. pose proof (not_spammer p t a Ha Hn (ok_AccountSlots _ Hc)). specialize (Hsh2 a).
    rewrite (quiet_pending _ _ Hq1) in Hsh2. lia. }
  assert (exists p3, runs (match last os with
     | None => ret tt
     | Some lastOne => (minimize (Z.to_nat pending) os lastOne pending ;; ret tt) end) p2 tt p3 /\ step_ok p2 p3 /\
     tp_queue p3 = tp_queue p2 /\ limited p3) as (p3&E3&Hs3&Hq3&Hlim).
  { destruct (Z.le_gt_cases pending (GlobalSlots (tp_config p2))) as [Hle2|Hgt2].
    { exists p2. split_and!; [|by apply step_refl|done|left; lia]. destruct (last os) as [lastOne|]; [|done].
      eapply runs_bind; [|done]. unfold runs.
      destruct (Z.to_nat pending); cbn [minimize]; rewrite bind_get, (proj2 (Z.ltb_ge _ _) Hle2); done. }
    destruct Hok2 as [Hle2|[s [Hlv Hnd _ _] ] ]; [lia|].
    unfold limited in *. rewrite <- (same_config _ _ Hsm2), <- (same_locals _ _ Hsm2) in Hout.
    rewrite (same_slots _ _ (so_same _ _ Hs1)), <- (same_slots _ _ Hsm2) in Hall. destruct Hall as [Hall|Hall]; [lia|].
    cbn [app] in Hall. rewrite <- Hall in Hout.
    destruct (last os) as [lastOne|] eqn:El.
    2:{ exists p2. split_and!; [done|by apply step_refl|done|]. right. apply last_None in El. intros a Ha.
        apply Hout; [done|]. rewrite El. apply not_elem_of_nil. }
    assert (lastOne ∈ os) as Hlast by (apply last_Some in El as [os' ->]; apply elem_of_app; right; by left).
    pose proof (level_len_pos _ _ _ _ _ Hlast Hlv). rewrite app_nil_r in Hnd.
    destruct (minimize_runs (Z.to_nat pending) os lastOne s pending p2) as (pending'&p3&E3&Hs3&Hq3&Hsh3&Hc3&Hor);
      [|done|done|lia|done|].
    { rewrite (same_config _ _ Hsm2). apply Hc. }
    exists p3. split_and!; [by eapply runs_bind|done|done|]. pose proof (so_same _ _ Hs3) as Hsm3.
    rewrite (same_config _ _ Hsm3), (same_locals _ _ Hsm3).
    destruct Hor as [|Hor]; [left; lia|]. right. intros a Ha. destruct (decide (a ∈ os)) as [Hin|Hin]; [by apply Hor|].
    specialize (Hsh3 a). specialize (Hout a Ha Hin). lia. }
  exists p3. split_and!; [|by eapply step_trans|rewrite Hq3, Hq2; apply Hq1|done].
  unfold runs. rewrite bind_get, Eu, Eg. cbn [when]. eapply runs_bind; [exact E1|]. cbv zeta.
  eapply runs_bind; [exact E2|]. exact E3.
Qed.

(** ** The limit on queued transactions *)

Lemma local_step_ok addr p p' : pool_inv p' -> local_step addr p p' -> step_ok p p'.
Proof. intros Hi [Hs _ _ Ha]. by split. Qed.

(** Reading a list of the queue. *)
Lemma flatten_queue_runs addr t p l : pool_inv p -> tp_queue p !! addr = Some l ->
  exists p', runs (onQueue addr (tl_Flatten t)) p (flat (tl_items l)) p' /\ pool_inv p' /\ local_step addr p p' /\
    Forall (fun tx => exists h, ZKHashTx tx = Some h /\
      forall x, tp_all p' !! h = Some x -> tx_good (tp_chainId p') x addr) (flat (tl_items l)).
Proof.
  intros Hi El. destruct (inv_queue p Hi addr l El) as (Hwl&_&Hf).
  destruct (Flatten_runs t l Hwl) as (l'&E&Hw'&Hs'&Ei).
  assert (shrinks l l' []) as Hsh by (split; [done|done|rewrite Ei; apply splits_refl]).
  destruct (queue_shrunk p addr l _ _ l' _ Hi El E Hsh) as (E1&Hs1&El1&_). eexists. split; [exact E1|].
  split; [apply Hs1|]. split.
  - split; [by split|done| |done]. intros a Hne. cbn. by rewrite lookup_insert_ne.
  - apply Forall_forall. intros tx Htx. apply flat_elem in Htx; [|apply (core_keyed _ (tl_sm _ Hwl))].
    destruct (Hf _ _ Htx) as (Hg&h&Eh&Ea). exists h. split; [done|]. intros x Hx. cbn in Hx. rewrite Ea in Hx. by injection Hx as <-.
Qed.

Lemma dropQueues_runs addresses drop p : pool_inv p -> NoDup addresses ->
  Forall (fun a => is_Some (tp_queue p !! a)) addresses ->
  exists p', runs (dropQueues addresses drop) p tt p' /\ step_ok p p'.
Proof.
  revert drop p. induction addresses as [|addr addresses IH]; intros drop p Hi Hnd Hq; cbn [dropQueues].
  { exists p. by split; [|apply step_refl]. }
  destruct (drop <=? 0); [by exists p; split; [|apply step_refl]|].
  apply NoDup_cons in Hnd as [Hnin Hnd]. apply Forall_cons in Hq as [[l El] Hq].
  pose proof (onQueue_runs addr l _ _ l p El (Len_runs l)) as E0. rewrite set_queue_same in E0 by done.
  destruct (tick_runs p) as (t&p1&E1&Hq1&It1). pose proof (quiet_step _ _ Hi Hq1 It1) as Hs1.
  assert (tp_queue p1 !! addr = Some l) as El1 by by rewrite (quiet_queue _ _ Hq1).
  destruct (flatten_queue_runs addr t p1 l (so_inv _ _ Hs1) El1) as (p2&E2&Hi2&Hl2&Hf2).
  assert (forall txs, Forall (fun tx => tx ∈ flat (tl_items l)) txs -> forall drop',
    exists p', runs (removeAll txs ;; dropQueues addresses drop') p2 tt p' /\ step_ok p p') as Hgo.
  { intros txs Htxs drop'. destruct (removeAll_local txs p2 addr Hi2) as (p3&E3&Hi3&Hl3).
    { rewrite Forall_forall in *. intros tx Htx. by apply Hf2, Htxs. }
    destruct (IH drop' p3 Hi3 Hnd) as (p4&E4&Hs4).
    { rewrite Forall_forall in *. intros a Ha. assert (a <> addr) as Hne by by intros ->.
      rewrite (ls_queue _ _ _ Hl3 a Hne), (ls_queue _ _ _ Hl2 a Hne), (quiet_queue _ _ Hq1). by apply Hq. }
    exists p4. split; [by eapply runs_bind|].
    eapply step_trans; [exact Hs1|]. eapply step_trans; [by apply (local_step_ok addr p1 p2)|].
    eapply step_trans; [by apply (local_step_ok addr p2 p3)|done]. }
  destruct (Z.of_nat (size (tl_items l)) <=? drop) eqn:Esz.
  - destruct (Hgo (flat (tl_items l)) ltac:(by apply Forall_forall) (drop - Z.of_nat (size (tl_items l)))) as (p'&E&Hs).
    exists p'. split; [|done]. eapply runs_bind; [exact E0|]. eapply runs_bind; [exact E1|]. eapply runs_bind; [exact E2|].
    by rewrite Esz.
  - destruct (Hgo (take (Z.to_nat drop) (reverse (flat (tl_items l))))) with (drop' := 0) as (p'&E&Hs).
    { apply Forall_forall. intros x Hx%subseteq_take. by rewrite elem_of_reverse in Hx. }
    exists p'. split; [|done]. eapply runs_bind; [exact E0|]. eapply runs_bind; [exact E1|]. eapply runs_bind; [exact E2|].
    by rewrite Esz.
Qed.

Lemma fst_map_filter_range {V} t (m : gmap string V) f (g : string * V -> string * Z) :
  (forall e, (g e).1 = e.1) ->
  let l := (g <$> List.filter f (go_range t m)).*1 in NoDup l /\ Forall (fun a => is_Some (m !! a)) l.
Proof.
  intros Hg l. assert (l = (List.filter f (go_range t m)).*1) as El.
  { unfold l. rewrite <- list_fmap_compose. apply list_fmap_ext. intros i x _. apply Hg. }
  rewrite El. clear l El. split.
  - pose proof (go_range_nodup t m) as Hr. revert Hr. generalize (go_range t m) as l.
    induction l as [|e l IH]; intros Hr; [done|]. cbn [List.filter]. apply NoDup_cons in Hr as [Hn Hr].
    destruct (f e); [|by apply IH]. cbn. apply NoDup_cons. split; [|by apply IH].
    intros (e'&Ee&[He' _]%filter_elem)%list_elem_of_fmap. apply Hn. rewrite Ee. by apply list_elem_of_fmap_2.
  - apply Forall_forall. intros a ([a' v]&->&[Hin _]%filter_elem)%list_elem_of_fmap. apply go_range_elem in Hin. by eexists.
Qed.

(** [limitQueue] returns. *)
Lemma limitQueue_runs p : pool_inv p -> Z.of_nat (size (tp_all p)) < two64 ->
  exists p', runs limitQueue p tt p' /\ step_ok p p'.
Proof.
  intros Hi Hsm. unfold limitQueue.
  destruct (GlobalQueue (tp_config p) <? u64 (countTxs (tp_queue p))) eqn:Eg.
  2:{ exists p. split; [unfold runs; rewrite bind_get, Eg; done|by apply step_refl]. }
  destruct (tick_runs p) as (t&p1&E1&Hq1&It1). pose proof (quiet_step _ _ Hi Hq1 It1) as Hs1.
  destruct (fst_map_filter_range t (tp_queue p) (fun e => negb (bool_decide (e.1 ∈ tp_locals p)))
    (fun e => (e.1, default 0 (tp_beats p !! e.1)))) as [Hnd Hex]; [done|].
  set (addrs := reverse (merge_sort heartbeatLe
    ((fun e : string * txList => (e.1, default 0 (tp_beats p !! e.1))) <$>
      List.filter (fun e => negb (bool_decide (e.1 ∈ tp_locals p))) (go_range t (tp_queue p)))).*1).
  destruct (dropQueues_runs addrs (u64 (countTxs (tp_queue p)) - GlobalQueue (tp_config p)) p1 (so_inv _ _ Hs1)) as (p2&E2&Hs2).
  - unfold addrs. by rewrite reverse_Permutation, merge_sort_Permutation.
  - rewrite Forall_forall in *. intros a Ha. rewrite (quiet_queue _ _ Hq1). apply Hex. unfold addrs in Ha.
    by rewrite elem_of_reverse, merge_sort_Permutation in Ha.
  - exists p2. split; [|by eapply step_trans]. unfold runs. rewrite bind_get, Eg. cbn [when].
    eapply runs_bind; [exact E1|exact E2].
Qed.

(** [promoteExecutables] returns. *)
Lemma promoteExecutables_runs view accounts p : pool_inv p -> config_ok (tp_config p) ->
  Z.of_nat (size (tp_all p)) < two64 ->
  exists p', runs (promoteExecutables view accounts) p tt p' /\ step_ok p p'.
Proof.
  intros Hi Hc Hsm. destruct (tick_runs p) as (t&p1&E1&Hq1&It1). pose proof (quiet_step _ _ Hi Hq1 It1) as Hs1.
  set (accs := match accounts with Some l => l | None => (go_range t (tp_queue p)).*1 end).
  destruct (for_each_runs (fun _ p' => step_ok p p') (promoteAccount view (tp_gasLimit p))) with (l := accs) (p := p1)
    as (p2&E2&Hs2).
  { intros x l q Hs. destruct (promoteAccount_runs view (tp_gasLimit p) x q (so_inv _ _ Hs)) as (q'&E&Hs').
    - rewrite (same_config _ _ (so_same _ _ Hs)). done.
    - exists q'. split; [done|]. by eapply step_trans. }
  { done. }
  assert (forall q, step_ok p q -> Z.of_nat (size (tp_all q)) < two64) as Hsize.
  { intros q Hs. pose proof (map_subseteq_size _ _ (so_all _ _ Hs)). lia. }
  destruct (limitPending_runs p2 (so_inv _ _ Hs2)) as (p3&E3&Hs3&_&Hlim3);
    [by rewrite (same_config _ _ (so_same _ _ Hs2))|by apply Hsize|].
  pose proof (step_trans _ _ _ Hs2 Hs3) as Hs23.
  destruct (limitQueue_runs p3 (so_inv _ _ Hs3)) as (p4&E4&Hs4); [by apply Hsize|].
  exists p4. split; [|by eapply step_trans]. unfold promoteExecutables, runs. rewrite bind_get.
  eapply runs_bind; [exact E1|]. eapply runs_bind; [exact E2|]. eapply runs_bind; [exact E3|exact E4].
Qed.

(** ** Demotion *)

Lemma pending_shrunk {A} p addr l (m : M txList A) a l' gone : pool_inv p -> tp_pending p !! addr = Some l ->
  m l = (Ret a, l') -> shrinks l l' gone ->
  let p' := p <| tp_pending ::= <[addr := l']> |> in
  runs (onPending addr m) p a p' /\ pool_inv p' /\ local_step addr p p' /\ tp_pending p' !! addr = Some l' /\ NoDup gone /\
  Forall (parked p' addr) gone.
Proof.
  intros Hi E Em Hsh p'. destruct (shrink_gone _ _ _ _ _ _ (inv_pending p Hi) (inv_queue p Hi) (inv_disjoint p Hi)
    addr l l' gone E Hsh) as [Hnd Hf].
  split_and!; [by apply (onPending_runs addr l)|by apply (shrink_pending_inv p addr l l' gone)| |apply lookup_insert_eq|done|].
  - split; [by split| |done|done]. intros a' Hne. cbn. by rewrite lookup_insert_ne.
  - eapply Forall_impl; [exact Hf|]. intros x [Hax Hhx Hgx Hnx _]. split; [done| |done]. by split.
Qed.

Lemma forget_parked p addr txs others : pool_inv p -> NoDup (txs ++ others) -> Forall (parked p addr) (txs ++ others) ->
  exists p', runs (for_each txs forget) p tt p' /\ pool_inv p' /\ local_step addr p p' /\
    tp_pending p' = tp_pending p /\ tp_queue p' = tp_queue p /\ Forall (parked p' addr) others.
Proof.
  intros Hi (Hnd&Hdis&_)%NoDup_app [Hf1 Hf2]%Forall_app.
  destruct (forget_all p txs Hi Hnd) as (p'&E&Hi'&Hs&Ep&Eq&Ha&Hk).
  { eapply Forall_impl; [exact Hf1|]. by intros x []. }
  exists p'. split_and!; [done|done| |done|done|].
  - split; [done| | |done]; intros; by rewrite ?Ep, ?Eq.
  - rewrite Forall_forall in *. intros x Hx. destruct (Hf2 x Hx) as [Hgx Hlx Hpx]. split.
    + by rewrite (same_chain _ _ Hs).
    + apply Hk; [done|]. intros Hin. by apply (Hdis x).
    + by rewrite Ep.
Qed.

(** No account with an empty list, apart from the given ones. *)
Definition nonempty_but (todo : list string) (p : TxPool) : Prop :=
  forall a l, tp_pending p !! a = Some l -> a ∉ todo -> tl_items l <> ∅.

Lemma demoteAccount_runs view gaslimit addr p : pool_inv p -> is_Some (tp_pending p !! addr) ->
  exists p', runs (demoteAccount view gaslimit addr) p tt p' /\ pool_inv p' /\ local_step addr p p' /\
    forall l, tp_pending p' !! addr = Some l -> tl_items l <> ∅.
Proof.
  intros Hi [l El]. destruct (inv_pending p Hi addr l El) as (Hwl&_).
  destruct (Forward_runs (cv_GetNonce view addr) l Hwl) as (old&l1&EFw&Hsh1).
  destruct (pending_shrunk p addr l _ _ l1 old Hi El EFw Hsh1) as (E1&Hi1&Hls1&El1&Hnd1&Hf1).
  set (p1 := p <| tp_pending ::= <[addr := l1]> |>) in *.
  destruct (forget_parked p1 addr old [] Hi1) as (p2&E2&Hi2&Hls2&Ep2&_&_); [by rewrite app_nil_r..|].
  destruct (tick_runs p2) as (t&p3&E3&Hq3&It3). pose proof (so_inv _ _ (quiet_step _ _ Hi2 Hq3 It3)) as Hi3.
  assert (tp_pending p3 !! addr = Some l1) as El3 by by rewrite (quiet_pending _ _ Hq3), Ep2.
  destruct (Filter_runs_split t (cv_GetBalance view addr) gaslimit l1 (shrinks_wf _ _ _ Hsh1)) as (gone&inv&l4&EF&Hsh4).
  destruct (pending_shrunk p3 addr l1 _ _ l4 _ Hi3 El3 EF Hsh4) as (E4&Hi4&Hls4&El4&Hnd4&Hf4).
  set (p4 := p3 <| tp_pending ::= <[addr := l4]> |>) in *.
  destruct (forget_parked p4 addr gone inv Hi4 Hnd4 Hf4) as (p5&E5&Hi5&Hls5&Ep5&_&Hf5).
  destruct (requeue_runs p5 addr inv Hi5) as (p6&E6&Hi6&Hls6&Ep6); [by apply NoDup_app in Hnd4 as (_&_&?)|done|].
  assert (tp_pending p6 !! addr = Some l4) as El6 by by rewrite Ep6, Ep5.
  pose proof (onPending_runs addr l4 _ _ l4 p6 El6 (Empty_runs l4)) as E7. rewrite set_pending_same in E7 by done.
  assert (exists p8, runs (when (Z.of_nat (size (tl_items l4)) =? 0)
      (modify (fun p => p <| tp_pending ::= delete addr |> <| tp_beats ::= delete addr |>))) p6 tt p8 /\
    pool_inv p8 /\ local_step addr p6 p8 /\ forall l, tp_pending p8 !! addr = Some l -> tl_items l <> ∅) as (p8&E8&Hi8&Hls8&Hne).
  { destruct (_ =? 0) eqn:Ee.
    - apply Empty_items in Ee. eexists. split; [done|]. split; [by apply (drop_pending_inv p6 addr l4)|]. split.
      + split; [by split| |done|done]. intros a Hne. cbn. by rewrite lookup_delete_ne.
      + intros l0. cbn. by rewrite lookup_delete_eq.
    - exists p6. split_and!; [done|done|done|]. intros l0. rewrite El6. intros [= <-] E0.
      apply Empty_items in E0. congruence. }
  exists p8. split_and!; [|done| |done].
  - eapply runs_bind; [exact E1|]. eapply runs_bind; [exact E2|]. eapply runs_bind; [exact E3|]. eapply runs_bind; [exact E4|].
    cbn [fst snd]. eapply runs_bind; [exact E5|]. eapply runs_bind; [exact E6|]. eapply runs_bind; [exact E7|exact E8].
  - etrans; [exact Hls1|]. etrans; [exact Hls2|]. etrans; [by apply quiet_local|]. etrans; [exact Hls4|].
    etrans; [exact Hls5|]. etrans; [exact Hls6|exact Hls8].
Qed.

Lemma demote_runs view p : pool_inv p ->
  exists p', runs (demoteUnexecutables view) p tt p' /\ step_ok p p' /\ nonempty_but [] p'.
Proof.
  intros Hi. destruct (tick_runs p) as (t&p1&E1&Hq1&It1). pose proof (quiet_step _ _ Hi Hq1 It1) as Hs1.
  destruct (for_each_runs (fun todo p' => step_ok p p' /\ NoDup todo /\ Forall (fun a => is_Some (tp_pending p' !! a)) todo /\
      nonempty_but todo p') (demoteAccount view (tp_gasLimit p))) with (l := (go_range t (tp_pending p)).*1) (p := p1)
    as (p2&E2&Hs2&_&_&Hne2).
  - intros a todo q (Hs&[Hnin Hnd]%NoDup_cons&[Ha Hex]%Forall_cons&Hne).
    destruct (demoteAccount_runs view (tp_gasLimit p) a q (so_inv _ _ Hs) Ha) as (q'&E&Hi'&Hls&Hnea).
    exists q'. split; [done|]. split_and!; [|done| |].
    + eapply step_trans; [exact Hs|]. by apply (local_step_ok a).
    + rewrite Forall_forall in *. intros b Hb. rewrite (ls_pending _ _ _ Hls); [by apply Hex|]. by intros ->.
    + intros b l Hb Hn. destruct (decide (b = a)) as [->|Hba]; [by apply Hnea|].
      rewrite (ls_pending _ _ _ Hls b Hba) in Hb. apply (Hne b l Hb). by intros [->|]%elem_of_cons.
  - split_and!; [done|apply go_range_nodup| |].
    + apply Forall_forall. intros a ([a' l]&->&Hin%go_range_elem)%list_elem_of_fmap. rewrite (quiet_pending _ _ Hq1). by eexists.
    + intros a l Ha Hn. destruct Hn. rewrite (quiet_pending _ _ Hq1) in Ha. apply list_elem_of_fmap.
      exists (a, l). split; [done|]. by apply go_range_elem.
  - exists p2. split; [|done]. unfold demoteUnexecutables, runs. rewrite bind_get. eapply runs_bind; [exact E1|exact E2].
Qed.

(** [resetState] returns. *)
Lemma resetState_runs p : pool_inv p -> config_ok (tp_config p) -> Z.of_nat (size (tp_all p)) < two64 ->
  exists p', runs resetState p tt p' /\ step_ok p p'.
Proof.
  intros Hi Hc Hsm. unfold resetState. destruct (tp_currentState p) as [view|] eqn:Ev.
  2:{ exists p. split; [unfold runs; rewrite bind_get, Ev; done|by apply step_refl]. }
  set (p1 := p <| tp_pendingState := ManageState (ca_nonce <$> view) |>).
  assert (step_ok p p1) as Hs1.
  { split; [|by split|done]. apply (quiet_inv p); [by split; [split|..]|apply Hi|done]. }
  destruct (demote_runs view p1 (so_inv _ _ Hs1)) as (p2&E2&Hs2&Hne2). pose proof (step_trans _ _ _ Hs1 Hs2) as Hs12.
  destruct (tick_runs p2) as (t&p3&E3&Hq3&It3). pose proof (quiet_step _ _ (so_inv _ _ Hs2) Hq3 It3) as Hs3.
  destruct (for_each_runs (fun todo p' => step_ok p2 p' /\ NoDup todo /\
      Forall (fun a => exists l, tp_pending p' !! a = Some l /\ tl_items l <> ∅) todo)
    (fun addr => t <- tick ;; txs <- onPending addr (tl_Flatten t) ;;
      match last txs with
      | Some tx => onPendingState (ms_SetNonce addr (u64 (tx_AccountNonce tx + 1)))
      | None => panic
      end)) with (l := (go_range t (tp_pending p2)).*1) (p := p3) as (p4&E4&Hs4&_).
  - intros a todo q (Hs&[Hnin Hnd]%NoDup_cons&[(l&El&Hne) Hex]%Forall_cons).
    destruct (tick_runs q) as (t'&q1&F1&Hq1&It1). pose proof (quiet_step _ _ (so_inv _ _ Hs) Hq1 It1) as Hsq1.
    assert (tp_pending q1 !! a = Some l) as El1 by by rewrite (quiet_pending _ _ Hq1).
    destruct (inv_pending q1 (so_inv _ _ Hsq1) a l El1) as (Hwl&_).
    destruct (Flatten_runs t' l Hwl) as (l'&EF&Hw'&Hs'&Ei).
    assert (shrinks l l' []) as Hsh by (split; [done|done|rewrite Ei; apply splits_refl]).
    destruct (pending_shrunk q1 a l _ _ l' _ (so_inv _ _ Hsq1) El1 EF Hsh) as (F2&Hi2&Hls2&_).
    set (q2 := q1 <| tp_pending ::= <[a := l']> |>) in *.
    destruct (last (flat (tl_items l))) as [tx|] eqn:Elast.
    2:{ apply last_None in Elast. pose proof (length_flat (tl_items l)) as Hlen. rewrite Elast in Hlen. cbn in Hlen.
        symmetry in Hlen. by apply map_size_empty_inv in Hlen. }
    exists (q2 <| tp_pendingState := (ms_SetNonce a (u64 (tx_AccountNonce tx + 1)) (tp_pendingState q2)).2 |>).
    split; [eapply runs_bind; [exact F1|]; eapply runs_bind; [exact F2|]; by rewrite Elast|].
    assert (step_ok q1 q2) as Hsq2 by by apply (local_step_ok a).
    split_and!; [|done|].
    + eapply step_trans; [exact Hs|]. eapply step_trans; [exact Hsq1|]. eapply step_trans; [exact Hsq2|].
      split; [|by split|done]. apply (quiet_inv q2); [by split; [split|..]|apply Hsq2|apply Hsq2].
    + rewrite Forall_forall in *. intros b Hb. destruct (Hex b Hb) as (lb&Eb&Hneb). exists lb. split; [|done].
      change (tp_pending q2 !! b = Some lb). rewrite (ls_pending _ _ _ Hls2 b), (quiet_pending _ _ Hq1); [done|]. by intros ->.
  - split_and!; [done|apply go_range_nodup|]. apply Forall_forall.
    intros a ([a' l]&->&Hin%go_range_elem)%list_elem_of_fmap. exists l. rewrite (quiet_pending _ _ Hq3). split; [done|].
    apply (Hne2 a' l Hin). apply not_elem_of_nil.
  - pose proof (step_trans _ _ _ Hs12 Hs4) as Hs14.
    destruct (promoteExecutables_runs view None p4 (so_inv _ _ Hs4)) as (p5&E5&Hs5).
    + by rewrite (same_config _ _ (so_same _ _ Hs14)).
    + pose proof (map_subseteq_size _ _ (so_all _ _ Hs14)). lia.
    + exists p5. split; [|by eapply step_trans]. unfold runs. rewrite bind_get, Ev.
      eapply runs_bind; [done|]. eapply runs_bind; [exact E2|]. eapply runs_bind; [reflexivity|].
      eapply runs_bind; [exact E3|]. eapply runs_bind; [exact E4|exact E5].
Qed.
End Ops.
