(* ===== verification/TxPoolAdd.v ===== *)
(** * TxPoolAdd: admission of transactions to the pool

    What [validateTx] accepts and changes, that the price list returns what it
    discards, and that [add] keeps the invariant of the pool whatever it ends
    with. *)
From S2P Require Import Prelude.
From S2P Require Import Messages.
From S2P Require Import Tx.
From S2P Require Import ZkTx.
From S2P Require Import GoHeap.
From S2P Require Import TxList.
From S2P Require Import TxListSpec.
From S2P Require Import Merkle.
From S2P Require Import CrossProof.
From S2P Require Import ManagedState.
From S2P Require Import TxPool.
From S2P Require Import TxPoolInv.
From S2P Require Import TxPoolOps.

Local Abbreviation MP := (M TxPool).

Section Add.
Context `{GR : GoRange} `{TE : TxEnv} `{ME : MerkleEnv} `{PE : ProofEnv} `{PO : PoolEnv}.

(** ** Validation *)

(** What an accepted transaction satisfies. *)
Record valid (p : TxPool) (tx : Transaction) (local : bool) (from : string) : Prop := {
  va_size : txSize tx <= 32 * 1024;
  va_amount : 0 <= tx_Amount tx;
  va_gasLimit : tx_GasLimit tx <= tp_gasLimit p;
  va_sender : sender_of (tp_chainId p) tx from;
  va_price : local = true \/ from ∈ tp_locals p \/ 0 <= tx_Price tx;
  va_state : exists view, tp_currentState p = Some view /\
    cv_GetNonce view from <= tx_AccountNonce tx /\
    Cost tx <= cv_GetBalance view from /\
    (tx_TxType tx = TxZK -> tx_TxCode tx = TxConvert \/ tx_TxCode tx = TxDeposit ->
      tx_ZKValue tx <= u64 (cv_GetBalance view from));
  va_gas : IntrinsicGas (tx_Payload tx) false (tp_homestead p) <= tx_GasLimit tx;
  va_recipient : exists to, tx_Recipient tx = Some to /\
    (tx_TxType tx = TxCrossChain -> exists pid, PID (addressID to) = Some pid /\
      (pid = NodeID -> ValidateCrossChainTx TotalLevel tx (tp_DB p) = Ret None) /\
      (tx_CrossTxProof tx <> [] -> is_Some (tp_DB p)));
}.

(** The database after the proof of [tx] was recorded. *)
Definition recorded (tx : Transaction) (db : option Database) : option Database :=
  match tx_CrossTxProof tx with
  | proof0 :: _ =>
      if tx_TxType tx =? TxCrossChain then <[bytesHash proof0 +:+ TxProofSuffix := proof0]> <$> db else db
  | [] => db
  end.

Definition validated (tx : Transaction) (p : TxPool) : TxPool :=
  p <| tp_gasPrice := 0 |> <| tp_DB ::= recorded tx |>.

Lemma VerifyProof_fuel proof db : VerifyProof proof db <> OutOfFuel.
Proof.
  destruct proof as [|p0 [|p1 rest]]; [done|done|]. cbn [VerifyProof].
  repeat match goal with |- context [match ?x with _ => _ end] => destruct x end; done.
Qed.

Lemma ValidateCrossChainTx_fuel n tx db : ValidateCrossChainTx n tx db <> OutOfFuel.
Proof.
  unfold ValidateCrossChainTx. pose proof (VerifyProof_fuel (tx_CrossTxProof tx) db) as Hv. revert Hv.
  destruct (tx_CrossTxProof tx) as [|p0 [|p1 rest]]; intros Hv;
  repeat match goal with |- context [match ?x with _ => _ end] => destruct x end; done.
Qed.

Lemma derive_fuel sg tx : derive sg tx <> OutOfFuel.
Proof. unfold derive. by destruct (PublicKey sg tx) as [[]| |]. Qed.

Lemma poolSender_eq tx p : exists o, poolSender tx p = (o, p) /\ o <> OutOfFuel /\
  forall from, o = Ret (inr from) <-> sender_of (tp_chainId p) tx from.
Proof.
  unfold poolSender. rewrite bind_get. unfold sender_of.
  destruct (typeSigner (EIP155Signer (tp_chainId p)) tx) as [sg|].
  - exists (derive sg tx). split_and!; [done|apply derive_fuel|]. intros from. split; [by exists sg|].
    by intros (sg'&[= <-]&E).
  - exists Panic. split_and!; [done|done|]. intros from. split; [done|by intros (?&?&_)].
Qed.

Lemma validated_quiet tx p : quiet p (validated tx p) /\ tp_items (validated tx p) = tp_items p.
Proof. by split; [split; [split|..]|]. Qed.

(** The checks after the recipient was read, and when they accept. *)
Definition crossing (tx : Transaction) (p : TxPool) (to : string) : MP (option crossErr) :=
  if tx_TxType tx =? TxCrossChain then
    match PID (addressID to) with
    | None => panic
    | Some pid => if bool_decide (pid = NodeID) then call (ValidateCrossChainTx TotalLevel tx (tp_DB p)) else ret None
    end
  else ret None.
Definition recording (tx : Transaction) (p : TxPool) (crossed : option crossErr) : MP (option poolErr) :=
  match crossed, tx_CrossTxProof tx with
  | Some e, _ => ret (Some (errCross e))
  | None, proof0 :: _ =>
      if tx_TxType tx =? TxCrossChain then
        match tp_DB p with
        | None => panic
        | Some db =>
            modify (fun p => p <| tp_DB := Some (<[bytesHash proof0 +:+ TxProofSuffix := proof0]> db) |>) ;; ret None
        end
      else ret None
  | None, [] => ret None
  end.
Definition cross_ok (tx : Transaction) (p : TxPool) (to : string) : Prop :=
  tx_TxType tx = TxCrossChain -> exists pid, PID (addressID to) = Some pid /\
    (pid = NodeID -> ValidateCrossChainTx TotalLevel tx (tp_DB p) = Ret None) /\
    (tx_CrossTxProof tx <> [] -> is_Some (tp_DB p)).

Lemma crossing_spec tx p to : exists o, (forall q, crossing tx p to q = (o, q)) /\ o <> OutOfFuel /\
  (o = Ret None <-> (tx_TxType tx = TxCrossChain -> exists pid, PID (addressID to) = Some pid /\
     (pid = NodeID -> ValidateCrossChainTx TotalLevel tx (tp_DB p) = Ret None))).
Proof.
  unfold crossing. destruct (Z.eqb_spec (tx_TxType tx) TxCrossChain) as [E|E].
  2:{ exists (Ret None). split_and!; [done|done|]. split; [by intros _ E'|done]. }
  destruct (PID (addressID to)) as [pid|].
  2:{ exists Panic. split_and!; [done|done|]. split; [done|]. intros H. by destruct (H E) as (?&?&_). }
  destruct (decide (pid = NodeID)) as [En|En].
  - rewrite bool_decide_true by done. exists (ValidateCrossChainTx TotalLevel tx (tp_DB p)).
    split_and!; [done|apply ValidateCrossChainTx_fuel|]. split; [by intros H _; exists pid|].
    intros H. destruct (H E) as (pid'&[= <-]&Hv). by apply Hv.
  - rewrite bool_decide_false by done. exists (Ret None). split_and!; [done|done|]. split; [|done].
    intros _ _. by exists pid.
Qed.

Lemma recording_spec tx p : exists o p', recording tx p None (p <| tp_gasPrice := 0 |>) = (o, p') /\ o <> OutOfFuel /\
  (p' = p <| tp_gasPrice := 0 |> \/ p' = validated tx p) /\ (o = Ret None -> p' = validated tx p) /\
  (o = Ret None <-> (tx_TxType tx = TxCrossChain -> tx_CrossTxProof tx <> [] -> is_Some (tp_DB p))).
Proof.
  unfold recording, validated, recorded. destruct (tx_CrossTxProof tx) as [|proof0 proof].
  { exists (Ret None), (p <| tp_gasPrice := 0 |>). split_and!; [done|done|by left|by destruct p|]. split; [|done]. by intros _ _ []. }
  destruct (Z.eqb_spec (tx_TxType tx) TxCrossChain) as [E|E].
  2:{ exists (Ret None), (p <| tp_gasPrice := 0 |>). split_and!; [done|done|by left|by destruct p|]. done. }
  destruct (tp_DB p) as [db|] eqn:Edb.
  - exists (Ret None), (p <| tp_gasPrice := 0 |> <| tp_DB := Some (<[bytesHash proof0 +:+ TxProofSuffix := proof0]> db) |>).
    assert (p <| tp_gasPrice := 0 |> <| tp_DB := Some (<[bytesHash proof0 +:+ TxProofSuffix := proof0]> db) |> =
      p <| tp_gasPrice := 0 |> <| tp_DB ::= fun db => <[bytesHash proof0 +:+ TxProofSuffix := proof0]> <$> db |>) as Ep.
    { destruct p; cbn in *. by subst. }
    split_and!; [done|done|by right|by intros _|]. split; [|done]. by intros _ _ _.
  - exists Panic, (p <| tp_gasPrice := 0 |>). split_and!; [done|done|by left|done|]. split; [done|]. intros H.
    by destruct (H E ltac:(done)).
Qed.

(** Every way through [validateTx]: it changes at most the minimal price and the
    database, and what it accepts is valid. *)
Record validation (tx : Transaction) (local : bool) (p : TxPool) (o : outcome (option poolErr)) (p' : TxPool) : Prop := {
  vn_fuel : o <> OutOfFuel;
  vn_state : p' = p \/ p' = p <| tp_gasPrice := 0 |> \/ p' = validated tx p;
  vn_accepted : o = Ret None -> p' = validated tx p;
  vn_valid : o = Ret None <-> exists from, valid p tx local from;
}.

Lemma refused tx local p p' e : p' = p \/ p' = p <| tp_gasPrice := 0 |> -> (forall from, ~ valid p tx local from) ->
  validation tx local p (Ret (Some e)) p'.
Proof. intros Hp Hn. split; [done|by destruct Hp; auto|done|]. split; [done|]. intros [from Hv]. by destruct (Hn from). Qed.

Lemma validateTx_spec tx local p : exists o p', validateTx tx local p = (o, p') /\ validation tx local p o p'.
Proof.
  unfold validateTx.
  destruct (Z.ltb_spec (32 * 1024) (txSize tx)) as [H|H1].
  { eexists _, _. split; [done|]. apply refused; [by left|]. intros from []. lia. }
  destruct (Z.ltb_spec (tx_Amount tx) 0) as [H|H2].
  { eexists _, _. split; [done|]. apply refused; [by left|]. intros from []. lia. }
  rewrite bind_get. destruct (Z.ltb_spec (tp_gasLimit p) (tx_GasLimit tx)) as [H|H3].
  { eexists _, _. split; [done|]. apply refused; [by left|]. intros from []. lia. }
  destruct (poolSender_eq tx p) as (o&Es&Hof&Ho). unfold bind at 1. rewrite Es.
  assert (forall from, valid p tx local from -> o = Ret (inr from)) as Hval by (intros from Hv; apply Ho, Hv).
  destruct o as [[e|from]| |]; [| | |done].
  { eexists _, _. split; [done|]. apply refused; [by left|]. intros from Hv. by apply Hval in Hv. }
  2:{ eexists _, _. split; [done|]. split; [done|by left|done|]. split; [done|]. intros [from Hv]. by apply Hval in Hv. }
  pose proof (proj1 (Ho from) eq_refl) as Hs. assert (forall a, valid p tx local a -> a = from) as Huniq.
  { intros a Hv. apply Hval in Hv. congruence. }
  clear Hval Ho Es. cbv zeta. rewrite bind_modify.
  destruct (negb (local || bool_decide (from ∈ tp_locals p)) && (tx_Price tx <? 0)) eqn:Ep.
  { apply andb_true_iff in Ep as [[El1 El2]%negb_true_iff%orb_false_iff Ep%Z.ltb_lt]. apply bool_decide_eq_false in El2.
    eexists _, _. split; [done|]. apply refused; [by right|].
    intros a Hv. pose proof (Huniq a Hv) as ->. destruct (va_price _ _ _ _ Hv) as [->|[|]]; [done|done|lia]. }
  assert (local = true \/ from ∈ tp_locals p \/ 0 <= tx_Price tx) as H4.
  { apply andb_false_iff in Ep as [[->|Hl%bool_decide_eq_true]%negb_false_iff%orb_true_iff|Hl%Z.ltb_ge]; auto. }
  destruct (tp_currentState p) as [view|] eqn:Ev.
  2:{ eexists _, _. split; [done|]. apply refused; [by right|]. intros a Hv.
      destruct (va_state _ _ _ _ Hv) as (view&Ev'&_). congruence. }
  assert (forall a, valid p tx local a -> cv_GetNonce view from <= tx_AccountNonce tx /\ Cost tx <= cv_GetBalance view from /\
    (tx_TxType tx = TxZK -> tx_TxCode tx = TxConvert \/ tx_TxCode tx = TxDeposit ->
      tx_ZKValue tx <= u64 (cv_GetBalance view from))) as Hst.
  { intros a Hv. pose proof (Huniq a Hv) as ->. destruct (va_state _ _ _ _ Hv) as (view'&Ev'&H). rewrite Ev in Ev'.
    injection Ev' as <-. done. }
  destruct (Z.ltb_spec (tx_AccountNonce tx) (cv_GetNonce view from)) as [H|H5].
  { eexists _, _. split; [done|]. apply refused; [by right|]. intros a Hv%Hst. lia. }
  destruct (Z.ltb_spec (cv_GetBalance view from) (Cost tx)) as [H|H6].
  { eexists _, _. split; [done|]. apply refused; [by right|]. intros a Hv%Hst. lia. }
  destruct (((tx_TxType tx =? TxZK) && ((tx_TxCode tx =? TxConvert) || (tx_TxCode tx =? TxDeposit)))
    && (u64 (cv_GetBalance view from) <? tx_ZKValue tx)) eqn:Ez.
  { apply andb_true_iff in Ez as [[Ez1%Z.eqb_eq Ez2%orb_true_iff]%andb_true_iff Ez3%Z.ltb_lt]. rewrite !Z.eqb_eq in Ez2.
    eexists _, _. split; [done|]. apply refused; [by right|]. intros a (_&_&Hz)%Hst. specialize (Hz Ez1 Ez2). lia. }
  assert (tx_TxType tx = TxZK -> tx_TxCode tx = TxConvert \/ tx_TxCode tx = TxDeposit ->
      tx_ZKValue tx <= u64 (cv_GetBalance view from)) as H7.
  { intros E1%Z.eqb_eq E2. rewrite <- !Z.eqb_eq, <- orb_true_iff in E2. rewrite E1, E2 in Ez. by apply Z.ltb_ge in Ez. }
  destruct (Z.ltb_spec (tx_GasLimit tx) (IntrinsicGas (tx_Payload tx) (bool_decide (tx_Recipient tx = None)) (tp_homestead p)))
    as [H|H8].
  { eexists _, _. split; [done|]. apply refused; [by right|]. intros a Hv. pose proof (va_gas _ _ _ _ Hv).
    destruct (va_recipient _ _ _ _ Hv) as (to&Eto&_). rewrite bool_decide_false in H by (by rewrite Eto). lia. }
  destruct (tx_Recipient tx) as [to|] eqn:Eto.
  2:{ eexists _, _. split; [done|]. split; [done|by right; left|done|]. split; [done|]. intros [a Hv].
      destruct (va_recipient _ _ _ _ Hv) as (to&Eto'&_). congruence. }
  rewrite bool_decide_false in H8 by done.
  assert ((exists a, valid p tx local a) <-> cross_ok tx p to) as Hiff.
  { split.
    - intros [a Hv]. destruct (va_recipient _ _ _ _ Hv) as (to'&Eto'&Hc). rewrite Eto in Eto'. injection Eto' as <-. exact Hc.
    - intros Hc. exists from. split; try done; [by exists view|by exists to]. }
  destruct (crossing_spec tx p to) as (oc&Ec&Hocf&Hoc). fold (crossing tx p to). unfold bind at 1. rewrite Ec.
  destruct oc as [[e|]| |]; [| | |done].
  - eexists _, _. split; [done|]. split; [done|by right; left|done|]. split; [done|]. intros Hv%Hiff.
    exfalso. enough (@Ret (option crossErr) (Some e) = Ret None) by done. apply Hoc. intros E. destruct (Hv E) as (pid&?&?&_). by exists pid.
  - fold (recording tx p None). destruct (recording_spec tx p) as (o'&p'&Er&Hf'&Hp'&Ha'&Hr'). exists o', p'.
    split; [exact Er|]. split; [done|by destruct Hp'; auto|done|]. rewrite Hr', Hiff. unfold cross_ok.
    pose proof (proj1 Hoc eq_refl) as Hc. split; [|intros H E; by destruct (H E) as (?&_&_&?)].
    intros H E. destruct (Hc E) as (pid&?&?). exists pid. by auto.
  - eexists _, _. split; [done|]. split; [done|by right; left|done|]. split; [done|]. intros Hv%Hiff.
    exfalso. enough (@Panic (option crossErr) = Ret None) by done. apply Hoc. intros E. destruct (Hv E) as (pid&?&?&_). by exists pid.
Qed.
(** ** The price list *)

Lemma containsTx_runs tx p : is_Some (ZKHashTx tx) -> exists b, runs (containsTx tx) p b p.
Proof.
  intros [h Eh]. assert (is_Some (tx_Sender tx)) as [a Ea].
  { unfold ZKHashTx in Eh. destruct (tx_Sender tx); [by eexists|done]. }
  unfold runs, containsTx. rewrite bind_get.
  assert (exists r, derive (if tx_TxType tx =? TxZK then ZKSigner else EIP155Signer (tp_chainId p)) tx = Ret r) as [r Er].
  { unfold derive. destruct (tx_TxType tx =? TxZK); cbn [PublicKey].
    - rewrite Ea. destruct (_ || _); by eexists.
    - assert (forall x : sigErr + string, exists r, match Ret x with Ret (inr key) => Ret (inr (copyAddress key))
        | Ret (inl e) => Ret (inl e) | Panic => Panic | OutOfFuel => Panic end = Ret r) as H by (intros []; by eexists).
      destruct (negb (Protected tx)); [apply H|]. destruct (negb _); [by eexists|apply H]. }
  eexists. unfold bind at 1, call. rewrite Er. done.
Qed.

Lemma priced_pop_low p : hashed p -> tp_items p <> [] ->
  exists tx p', runs priced_pop p tx p' /\ quiet p p' /\ hashed p' /\ tp_items p ≡ₚ tx :: tp_items p'.
Proof.
  intros [Hf Ha] Hne.
  set (l := (heap_down priceLess (swap (tp_items p) 0 (length (tp_items p) - 1)) 0 (length (tp_items p) - 1)).1).
  assert (l ≡ₚ tp_items p) as Hl by (unfold l; by rewrite heap_down_perm, swap_perm).
  assert (l <> []) as Hnl by (intros E; rewrite E in Hl; by apply Permutation_nil in Hl).
  destruct (slice_Pop_is_Some l Hnl) as [[tx l'] El]. pose proof (slice_Pop_perm _ _ _ El) as Hp.
  assert (tp_items p ≡ₚ tx :: l') as Hp' by (by rewrite <- Hl).
  exists tx, (p <| tp_items := l' |>). split_and!; [|by split; [split|..]| |done].
  - unfold runs, priced_pop. rewrite bind_get. unfold heap_Pop. fold l. by rewrite El.
  - split; [|done]. rewrite Hp' in Hf. by apply Forall_cons in Hf as [_ Hf].
Qed.

Lemma staleTx_runs tx p h : ZKHashTx tx = Some h -> runs (staleTx tx) p (bool_decide (tp_all p !! h = None)) p.
Proof. intros Eh. unfold staleTx. by eapply runs_bind; [apply hashOf_runs|]. Qed.

Lemma stale_low p n : hashed p -> quiet p (p <| tp_stales ::= n |>) /\ hashed (p <| tp_stales ::= n |>).
Proof. intros Hh. split; [by split; [split|..]|exact Hh]. Qed.

Definition known (txs : list Transaction) : Prop := Forall (fun tx => is_Some (ZKHashTx tx)) txs.

Lemma known_snoc txs tx h : known txs -> ZKHashTx tx = Some h -> known (txs ++ [tx]).
Proof. intros Hk Eh. apply Forall_app. split; [done|]. constructor; [by rewrite Eh|constructor]. Qed.

(** What a loop over the price list leaves: [m] ends with transactions that have
    hashes, and touches only the price list. *)
Definition drains (m : MP (list Transaction * list Transaction)) (p : TxPool) : Prop :=
  exists r p', runs m p r p' /\ quiet p p' /\ hashed p' /\ known r.1 /\ known r.2.

(** One turn of such a loop, after its head was taken. *)
Lemma drains_turn p (k : Transaction -> MP (list Transaction * list Transaction)) : hashed p -> tp_items p <> [] ->
  (forall tx h p', ZKHashTx tx = Some h -> hashed p' -> quiet p p' -> (length (tp_items p') < length (tp_items p))%nat ->
     drains (k tx) p') ->
  drains (tx <- priced_pop ;; k tx) p.
Proof.
  intros Hh Hne Hk. destruct (priced_pop_low p Hh Hne) as (tx&p1&E1&Hq1&Hh1&Hp1).
  assert (is_Some (ZKHashTx tx)) as [h Eh].
  { destruct Hh as [Hf _]. rewrite Hp1 in Hf. by apply Forall_cons in Hf as [? _]. }
  destruct (Hk tx h p1 Eh Hh1 Hq1) as (r&p2&E2&Hq2&Hh2&Hr); [rewrite Hp1; cbn; lia|].
  exists r, p2. split_and!; [by eapply runs_bind|by etrans|done|apply Hr|apply Hr].
Qed.

Lemma drains_runs {A} p (m : MP A) a p' k : runs m p a p' -> quiet p p' -> drains (k a) p' -> drains (x <- m ;; k x) p.
Proof.
  intros E Hq (r&p2&E2&Hq2&Hr). exists r, p2. split; [by eapply runs_bind|]. split; [by etrans|done].
Qed.

Lemma drains_ret p drop save : hashed p -> known drop -> known save -> drains (ret (drop, save)) p.
Proof. intros. by exists (drop, save), p. Qed.

Lemma capLoop_drains fuel threshold drop save p : hashed p -> known drop -> known save ->
  drains (capLoop fuel threshold drop save) p.
Proof.
  revert drop save p. induction fuel as [|fuel IH]; intros drop save p Hh Hd Hs; cbn [capLoop];
    apply (drains_runs p get p p); [done|done| |done|done|]; [by apply drains_ret|].
  destruct (tp_items p) as [|x l] eqn:El; [by apply drains_ret|].
  apply drains_turn; [done|by rewrite El|]. intros tx h p1 Eh Hh1 Hq1 _.
  eapply drains_runs; [by apply staleTx_runs|done|]. destruct (bool_decide _).
  { destruct (stale_low p1 Z.pred Hh1). eapply drains_runs; [done|done|]. by apply IH. }
  destruct (threshold <=? tx_Price tx); [by apply drains_ret|].
  destruct (containsTx_runs tx p1) as [b Eb]; [by rewrite Eh|]. eapply drains_runs; [exact Eb|done|].
  destruct b; apply IH; eauto using known_snoc.
Qed.

Lemma discardLoop_drains fuel count drop save p : hashed p -> known drop -> known save ->
  drains (discardLoop fuel count drop save) p.
Proof.
  revert count drop save p. induction fuel as [|fuel IH]; intros count drop save p Hh Hd Hs; cbn [discardLoop];
    apply (drains_runs p get p p); [done|done| |done|done|]; [by apply drains_ret|].
  destruct (tp_items p) as [|x l] eqn:El; [by apply drains_ret|].
  destruct (count <=? 0); [by apply drains_ret|].
  apply drains_turn; [done|by rewrite El|]. intros tx h p1 Eh Hh1 Hq1 _.
  eapply drains_runs; [by apply staleTx_runs|done|]. destruct (bool_decide _).
  { destruct (stale_low p1 Z.pred Hh1). eapply drains_runs; [done|done|]. by apply IH. }
  destruct (containsTx_runs tx p1) as [b Eb]; [by rewrite Eh|]. eapply drains_runs; [exact Eb|done|].
  destruct b; apply IH; eauto using known_snoc.
Qed.

Lemma putAll_runs txs p : hashed p -> known txs -> exists p', runs (for_each txs priced_Put) p tt p' /\ quiet p p' /\ hashed p'.
Proof.
  intros Hh Hk. destruct (for_each_runs (fun l p' => quiet p p' /\ hashed p' /\ known l) priced_Put) with (l := txs) (p := p)
    as (p'&E&Hq&Hh'&_); [|done|by exists p'].
  intros x l q (Hq&Hhq&[Hx Hl]%Forall_cons). destruct (priced_Put_low x q Hhq Hx) as (q'&E&Hq'&Hh'). exists q'.
  split; [done|]. split_and!; [by etrans|done|done].
Qed.

(** [Cap] and [Discard] return and leave index and lists alone. *)
Lemma drains_put p (m : nat -> MP (list Transaction * list Transaction)) : hashed p ->
  (forall n, drains (m n) p) ->
  exists drop p', runs (p <- get ;; r <- m (length (tp_items p)) ;; for_each r.2 priced_Put ;; ret r.1) p drop p' /\
    quiet p p' /\ hashed p' /\ known drop.
Proof.
  intros Hh Hm. destruct (Hm (length (tp_items p))) as (r&p1&E1&Hq1&Hh1&Hd&Hs).
  destruct (putAll_runs r.2 p1 Hh1 Hs) as (p2&E2&Hq2&Hh2). exists r.1, p2. split_and!; [|by etrans|done|done].
  unfold runs. rewrite bind_get. eapply runs_bind; [exact E1|]. by eapply runs_bind.
Qed.

Lemma Cap_low threshold p : hashed p -> exists drop p', runs (priced_Cap threshold) p drop p' /\ quiet p p' /\ hashed p' /\ known drop.
Proof. intros Hh. apply (drains_put p (fun n => capLoop n threshold [] [])); [done|]. intros n. by apply capLoop_drains; [|constructor..]. Qed.

Lemma Discard_low count p : hashed p -> exists drop p', runs (priced_Discard count) p drop p' /\ quiet p p' /\ hashed p' /\ known drop.
Proof. intros Hh. apply (drains_put p (fun n => discardLoop n count [] [])); [done|]. intros n. by apply discardLoop_drains; [|constructor..]. Qed.

Lemma dropStale_low fuel p : hashed p -> exists p', runs (dropStale fuel) p tt p' /\ quiet p p' /\ hashed p'.
Proof.
  revert p. induction fuel as [|fuel IH]; intros p Hh; cbn [dropStale]; [by exists p|].
  destruct (tp_items p) as [|x l] eqn:El; [exists p; split; [unfold runs; rewrite bind_get, El|]; done|].
  assert (is_Some (ZKHashTx x)) as [h Eh] by (destruct Hh as [Hf _]; rewrite El in Hf; by apply Forall_cons in Hf as [? _]).
  pose proof (staleTx_runs x p h Eh) as Es. destruct (bool_decide (tp_all p !! h = None)) eqn:Eb.
  - destruct (stale_low p Z.pred Hh) as [Hq1 Hh1]. set (p1 := p <| tp_stales ::= Z.pred |>) in *.
    destruct (priced_pop_low p1 Hh1) as (tx&p2&E2&Hq2&Hh2&_); [change (tp_items p <> []); by rewrite El|].
    destruct (IH p2 Hh2) as (p3&E3&Hq3&Hh3). exists p3. split; [|split; [by etrans; [|etrans]|done]].
    unfold runs. rewrite bind_get, El. eapply runs_bind; [exact Es|]. cbn [when].
    eapply runs_bind; [done|]. by eapply runs_bind.
  - exists p. split; [|done]. unfold runs. rewrite bind_get, El. by eapply runs_bind.
Qed.

Lemma Underpriced_low tx p : hashed p -> is_Some (ZKHashTx tx) ->
  exists b p', runs (priced_Underpriced tx) p b p' /\ quiet p p' /\ hashed p'.
Proof.
  intros Hh Htx. destruct (containsTx_runs tx p Htx) as [b Eb]. destruct b.
  { exists false, p. split; [by eapply runs_bind|done]. }
  destruct (dropStale_low (length (tp_items p)) p Hh) as (p1&E1&Hq1&Hh1).
  eexists _, p1. split; [|done]. eapply runs_bind; [exact Eb|]. eapply (runs_bind get); [done|].
  eapply runs_bind; [exact E1|]. by eapply (runs_bind get).
Qed.
(** ** Insertion *)

(** What a request may not change. *)
Record env (p p' : TxPool) : Prop := {
  env_config : tp_config p' = tp_config p;
  env_chain : tp_chainId p' = tp_chainId p;
  env_state : tp_currentState p' = tp_currentState p;
  env_gasLimit : tp_gasLimit p' = tp_gasLimit p;
}.
#[export] Instance env_preorder : PreOrder env.
Proof. split; [by split|]. intros p1 p2 p3 [] []. split; congruence. Qed.
Lemma same_env p p' : same p p' -> env p p'.
Proof. intros []. by split. Qed.

(** A transaction whose hash is new is in no list. *)
Lemma new_unlisted p tx h : pool_inv p -> ZKHashTx tx = Some h -> tp_all p !! h = None -> unlisted p tx.
Proof.
  intros [Hp Hq _ _ _] Eh Ea addr. split; intros Hx.
  - destruct (listed_ok _ _ _ _ _ _ _ Hp Hx) as (_&(h'&Eh'&Eall)&_). congruence.
  - destruct (listed_ok _ _ _ _ _ _ _ Hq Hx) as (_&(h'&Eh'&Eall)&_). congruence.
Qed.

(** Replacing a pending transaction. *)
Lemma replace_runs p addr l tx h : pool_inv p -> tp_pending p !! addr = Some l -> tx_good (tp_chainId p) tx addr ->
  ZKHashTx tx = Some h -> tp_all p !! h = None -> is_Some (tl_items l !! tx_AccountNonce tx) ->
  exists r p', runs (r <- onPending addr (tl_Add tx (PriceBump (tp_config p))) ;;
      let '(inserted, old) := r in
      if negb inserted then ret (inl ErrReplaceUnderpriced)
      else indexing h tx old ;; ret (inr (bool_decide (is_Some old)))) p r p' /\
    pool_inv p' /\ same p p' /\ tp_all p' ⊆ <[h := tx]> (tp_all p).
Proof.
  intros Hi El Hg Eh Ea Hov. pose proof Hi as [Hp Hq Hd Ha Hit].
  pose proof (new_unlisted p tx h Hi Eh Ea) as Hun. destruct (Hp addr l El) as (Hwl&Hsl&_).
  destruct (Add_runs tx (PriceBump (tp_config p)) l Hwl (good_nonce _ _ _ Hg)) as (ins&old&l'&EA&Hwl'&Hsl'&Hcase).
  pose proof (onPending_runs addr l _ _ l' p El EA) as E1. set (p2 := p <| tp_pending ::= <[addr := l']> |>) in *.
  assert (items_at (tp_pending p) addr = tl_items l) as Eit by (unfold items_at; by rewrite El).
  assert (items_at (tp_queue p) addr !! tx_AccountNonce tx = None) as Hqn.
  { destruct (Hd addr (tx_AccountNonce tx)) as [Hn|]; [|done]. rewrite Eit in Hn. rewrite Hn in Hov. by destruct Hov. }
  destruct ins.
  - destruct Hcase as [-> Ei]. rewrite <- Eit in Ei.
    destruct (indexing_runs h tx (tl_items l !! tx_AccountNonce tx) p2) as (p3&E3&Hq3&Hh3); [by apply (pool_inv_hashed p)|done| |].
    { intros o Ho. rewrite <- Eit in Ho. destruct (listed_ok _ _ _ _ _ _ _ Hp Ho) as (Hgo&_). apply Hgo. }
    destruct (grow_all (tp_chainId p) (tp_all p) true false (tp_pending p) (tp_queue p) addr h tx l')
      as (Hm'&Hm2'&Hd'&_); [(done || (by left) || congruence)..|].
    rewrite Eit in Hm', Hm2'.
    set (pT := p2 <| tp_all ::= reindex h tx (tl_items l !! tx_AccountNonce tx) |>) in *.
    assert (pool_inv pT) as Hinv.
    { split; [exact Hm'|exact Hm2'|exact Hd'|by apply (reindex_all _ _ _ _ _ addr)|done]. }
    eexists _, p3. split_and!; [eapply runs_bind; [exact E1|]; by eapply runs_bind| | |].
    + apply (quiet_inv pT); [done|apply Hh3|done].
    + etrans; [|exact (quiet_same _ _ Hq3)]. by split.
    + rewrite (quiet_all _ _ Hq3). apply reindex_sub.
  - destruct Hcase as [_ Ei]. eexists _, p2. split_and!; [by eapply runs_bind| |by split|by apply insert_subseteq].
    apply (shrink_pending_inv p addr l l' []); [done|done|]. split; [done|done|rewrite Ei; apply splits_refl].
Qed.

(** The pool makes room. *)
Definition makeRoom (tx : Transaction) (p : TxPool) : MP bool :=
  let limit := u64 (GlobalSlots (tp_config p) + GlobalQueue (tp_config p)) in
  if limit <=? Z.of_nat (size (tp_all p)) then
    under <- priced_Underpriced tx ;;
    if under then ret true
    else
      drop <- priced_Discard (i64 (Z.of_nat (size (tp_all p)) - int64_of_u64 (u64 (limit - 1)))) ;;
      removeAll drop ;; ret false
  else ret false.

Lemma makeRoom_runs tx p : pool_inv p -> is_Some (ZKHashTx tx) ->
  exists b p', runs (makeRoom tx p) p b p' /\ step_ok p p'.
Proof.
  intros Hi Htx. unfold makeRoom. destruct (_ <=? _); [|exists false, p; split; [done|by apply step_refl]].
  assert (forall q, quiet p q -> hashed q -> step_ok p q) as Hst.
  { intros q Hq Hh. split; [apply (quiet_inv p); [done|apply Hh|done]|apply Hq|by rewrite (quiet_all _ _ Hq)]. }
  destruct (Underpriced_low tx p (pool_inv_hashed p Hi) Htx) as (b&p1&E1&Hq1&Hh1). destruct b.
  { exists true, p1. split; [by eapply runs_bind|by apply Hst]. }
  destruct (Discard_low (i64 (Z.of_nat (size (tp_all p)) - int64_of_u64 (u64 (u64 (GlobalSlots (tp_config p) + GlobalQueue (tp_config p)) - 1)))) p1 Hh1)
    as (drop&p2&E2&Hq2&Hh2&Hk).
  pose proof (Hst p2 ltac:(by etrans) Hh2) as Hs2.
  destruct (removeAll_runs drop p2 (so_inv _ _ Hs2) Hk) as (p3&E3&Hs3).
  exists false, p3. split; [|by eapply step_trans]. eapply runs_bind; [exact E1|]. cbv beta iota.
  eapply runs_bind; [exact E2|]. by eapply runs_bind.
Qed.

(** What [add] leaves, whatever it ends with. *)
Record added (p p' : TxPool) : Prop := {
  ad_inv : pool_inv p';
  ad_env :> env p p';
  ad_size : (size (tp_all p') <= S (size (tp_all p)))%nat;
}.

Lemma step_added p p' : step_ok p p' -> added p p'.
Proof.
  intros [Hi Hs Ha]. split; [done|by apply same_env|]. pose proof (map_subseteq_size _ _ Ha). lia.
Qed.

Lemma validated_inv tx p : pool_inv p -> pool_inv (validated tx p).
Proof. intros Hi. destruct (validated_quiet tx p) as [Hq Ei]. apply (quiet_inv p); [done|rewrite Ei; apply Hi|done]. Qed.

(** [add] after the transaction was validated. *)
Definition insert (hash : string) (tx : Transaction) (local : bool) : MP (poolErr + bool) :=
  from <- fromOf tx ;;
  p <- get ;;
  overlaps <-
    match tp_pending p !! from with
    | Some _ => onPending from (tl_Overlaps tx)
    | None => ret false
    end ;;
  if overlaps then
    r <- onPending from (tl_Add tx (PriceBump (tp_config p))) ;;
    let '(inserted, old) := r in
    if negb inserted then ret (inl ErrReplaceUnderpriced)
    else
      indexing hash tx old ;;
      ret (inr (bool_decide (is_Some old)))
  else
    orElse (enqueueTx hash tx) (fun replace =>
      when local (modify (fun p => p <| tp_locals ::= fun s => {[from]} ∪ s |>)) ;;
      ret (inr replace)).

Lemma insert_runs hash tx local p addr : pool_inv p -> tx_good (tp_chainId p) tx addr -> ZKHashTx tx = Some hash ->
  tp_all p !! hash = None ->
  exists r p', runs (insert hash tx local) p r p' /\ pool_inv p' /\ env p p' /\ tp_all p' ⊆ <[hash := tx]> (tp_all p).
Proof.
  intros Hi Hg Eh Ea. pose proof (fromOf_runs p tx addr (good_sender _ _ _ Hg)) as Ef. unfold insert.
  set (b := bool_decide (is_Some (items_at (tp_pending p) addr !! tx_AccountNonce tx))).
  assert (runs match tp_pending p !! addr with Some _ => onPending addr (tl_Overlaps tx) | None => ret false end p b p) as Eo.
  { unfold b, items_at. destruct (tp_pending p !! addr) as [l|] eqn:El; [|done].
    pose proof (onPending_runs addr l _ _ l p El (Overlaps_runs tx l)) as E1. by rewrite set_pending_same in E1. }
  destruct (items_at (tp_pending p) addr !! tx_AccountNonce tx) as [old|] eqn:Eold; cbn in b; subst b.
  - destruct (tp_pending p !! addr) as [l|] eqn:El; [|unfold items_at in Eold; by rewrite El in Eold].
    destruct (replace_runs p addr l tx hash Hi El Hg Eh Ea) as (r&p'&E2&Hi'&Hs&Hall).
    { unfold items_at in Eold. rewrite El in Eold. by eexists. }
    exists r, p'. split_and!; [|done|by apply same_env|done]. eapply runs_bind; [exact Ef|].
    eapply (runs_bind get); [done|]. rewrite El. eapply runs_bind; [exact Eo|]. exact E2.
  - destruct (enqueueTx_runs p addr hash tx Hi) as (r&p'&E2&Hi'&_&Hall&_&[Hs _]).
    { split; [done|done|by left|by apply (new_unlisted p tx hash)|done]. }
    set (p2 := p' <| tp_locals ::= fun s => {[addr]} ∪ s |>).
    exists r, (match r with inr _ => if local then p2 else p' | inl _ => p' end). split_and!.
    + eapply runs_bind; [exact Ef|]. eapply (runs_bind get); [done|]. eapply runs_bind; [exact Eo|].
      eapply runs_bind; [exact E2|]. destruct r; [done|]. by destruct local.
    + destruct r; [done|]. destruct local; [|done]. by split; apply Hi'.
    + apply same_env in Hs. destruct r; [done|]. destruct local; [|done]. etrans; [exact Hs|]. by split.
    + destruct r; [done|]. by destruct local.
Qed.

Lemma add_unfold tx local p hash : ZKHashTx tx = Some hash -> tp_all p !! hash = None ->
  forall o p1, validateTx tx local p = (o, p1) ->
  add tx local p = match o with
                   | Ret None => (full <- makeRoom tx p1 ;; if full then ret (inl ErrUnderpriced) else insert hash tx local) p1
                   | Ret (Some e) => (Ret (inl e), p1)
                   | Panic => (Panic, p1)
                   | OutOfFuel => (OutOfFuel, p1)
                   end.
Proof.
  intros Eh Ea o p1 Ev. unfold add. rewrite (bind_eq _ _ _ _ _ (hashOf_runs tx hash p Eh)), bind_get.
  rewrite bool_decide_false by (rewrite Ea; by intros []). unfold bind at 1. rewrite Ev. by destruct o as [[e|]| |].
Qed.

(** [add] keeps the invariant whatever it ends with, and panics only where the
    hash or the validation does. *)
Lemma add_spec tx local p : pool_inv p -> is_u64 (tx_AccountNonce tx) ->
  exists o p', add tx local p = (o, p') /\ added p p' /\ o <> OutOfFuel /\
    (forall b, o = Ret (inr b) -> exists from, valid p tx local from) /\
    (o = Panic -> ZKHashTx tx = None \/ (validateTx tx local p).1 = Panic).
Proof.
  intros Hi Hu. destruct (ZKHashTx tx) as [hash|] eqn:Eh.
  2:{ exists Panic, p. split_and!; [unfold add, hashOf; by rewrite Eh|by apply step_added, step_refl|done|done|by left]. }
  destruct (tp_all p !! hash) as [x|] eqn:Ea.
  { exists (Ret (inl (errKnown hash))), p. split_and!; [|by apply step_added, step_refl|done|done|done].
    unfold add. rewrite (bind_eq _ _ _ _ _ (hashOf_runs tx hash p Eh)), bind_get.
    rewrite bool_decide_true by (rewrite Ea; by eexists). done. }
  destruct (validateTx_spec tx local p) as (o&p1&Ev&[Hf Hst Hacc Hval]). rewrite (add_unfold tx local p hash Eh Ea o p1 Ev).
  assert (quiet p p1 /\ tp_items p1 = tp_items p) as [Hq Ei].
  { destruct Hst as [-> | [-> | ->] ]; [done|by split; [split; [split|..]|]|apply validated_quiet]. }
  pose proof (quiet_step p p1 Hi Hq Ei) as Hs1.
  destruct o as [[e|]| |]; [| | |done].
  - eexists _, p1. split_and!; [done|by apply step_added|done|done|done].
  - destruct (proj1 Hval eq_refl) as [from Hv]. pose proof (va_sender _ _ _ _ Hv) as Hsnd.
    destruct (makeRoom_runs tx p1 (so_inv _ _ Hs1)) as (full&p2&E2&Hs2); [by rewrite Eh|].
    pose proof (step_trans _ _ _ Hs1 Hs2) as Hs12. rewrite (bind_eq _ _ _ _ _ E2). destruct full.
    { eexists _, p2. split_and!; [done|by apply step_added|done|done|done]. }
    destruct (insert_runs hash tx local p2 from (so_inv _ _ Hs2)) as (r&p3&E3&Hi3&He3&Hall).
    { split; [|by rewrite Eh|done]. rewrite (same_chain _ _ (so_same _ _ Hs12)). done. }
    { done. }
    { destruct (tp_all p2 !! hash) as [y|] eqn:Ey; [|done]. pose proof (lookup_weaken _ _ _ _ Ey (so_all _ _ Hs12)). congruence. }
    exists (Ret r), p3. split_and!; [exact E3| |done|by eauto|done]. split; [done| |].
    + etrans; [|exact He3]. by apply same_env, Hs12.
    + pose proof (map_subseteq_size _ _ Hall) as H1. pose proof (map_subseteq_size _ _ (so_all _ _ Hs12)) as H2.
      assert (size (<[hash:=tx]> (tp_all p2)) <= S (size (tp_all p2)))%nat; [|lia].
      rewrite map_size_insert. destruct (tp_all p2 !! hash); cbn; lia.
  - eexists _, p1. split_and!; [done|by apply step_added|done|done|]. intros _. right. by rewrite Ev.
Qed.
End Add.
