(* ===== verification/TxPoolSafe.v ===== *)
(** * TxPoolSafe: the pool over all its requests

    The entry points of [core/tx_pool.go] as requests, the states that sequences of
    them reach, and the theorems on these states. *)
From S2P Require Import Prelude.
From S2P Require Import Messages.
From S2P Require Import Tx.
From S2P Require Import ZkTx.
From S2P Require Import GoHeap.
From S2P Require Import TxList.
From S2P Require Import TxListSpec.
From S2P Require Import Merkle.
From S2P Require Import CrossProof.
From S2P Require Import ManagedState.
From S2P Require Import TxPool.
From S2P Require Import TxPoolInv.
From S2P Require Import TxPoolOps.
From S2P Require Import TxPoolAdd.

Local Abbreviation MP := (M TxPool).

Section Requests.
Context `{GR : GoRange} `{TE : TxEnv} `{ME : MerkleEnv} `{PE : ProofEnv} `{PO : PoolEnv}.

(** What reaches the pool: calls, and changes of what it reads. *)
Inductive request :=
| RAddLocal (tx : Transaction)
| RAddRemote (tx : Transaction)
| RAddLocals (txs : list Transaction)
| RAddRemotes (txs : list Transaction)
| RRemove (hash : string)
| RRemoveBatch (txs : list Transaction)
| RSetGasPrice (price : Z)
| RPending
| RContent
| RExpire
| REvent (ev : poolEvent)
| RChain (state : option chainView) (gasLimit : Z)
| RTime (now : Z).

Definition serve (r : request) : MP unit :=
  match r with
  | RAddLocal tx => AddLocal tx ;; ret tt
  | RAddRemote tx => AddRemote tx ;; ret tt
  | RAddLocals txs => AddLocals txs ;; ret tt
  | RAddRemotes txs => AddRemotes txs ;; ret tt
  | RRemove hash => Remove hash
  | RRemoveBatch txs => RemoveBatch txs
  | RSetGasPrice price => SetGasPrice price
  | RPending => Pending ;; ret tt
  | RContent => Content ;; ret tt
  | RExpire => expire
  | REvent ev => handleEvent ev
  | RChain state gasLimit => modify (fun p => p <| tp_currentState := state |> <| tp_gasLimit := gasLimit |>)
  | RTime now => modify (fun p => p <| tp_now := now |>)
  end.

(** The transactions a request may add. *)
Definition offered (r : request) : list Transaction :=
  match r with
  | RAddLocal tx | RAddRemote tx => [tx]
  | RAddLocals txs | RAddRemotes txs | REvent (RemovedTransactionEvent txs) => txs
  | _ => []
  end.

(** The nonce of a decoded transaction is a machine integer, and the index stays
    within the memory of the machine. *)
Definition request_ok (r : request) (p : TxPool) : Prop :=
  Forall (fun tx => is_u64 (tx_AccountNonce tx)) (offered r) /\
  Z.of_nat (length (offered r) + size (tp_all p)) < two64.

(** ** Keeping the invariant *)

Record keeps (n : nat) (p p' : TxPool) : Prop := {
  ke_inv : pool_inv p';
  ke_config : tp_config p' = tp_config p;
  ke_chain : tp_chainId p' = tp_chainId p;
  ke_size : (size (tp_all p') <= n + size (tp_all p))%nat;
}.

(** A computation that keeps it, with at most [n] additions, whatever it ends with. *)
Definition serves {A} (n : nat) (m : MP A) (p : TxPool) : Prop := (m p).1 <> OutOfFuel /\ keeps n p (m p).2.

Lemma keeps_trans n k p1 p2 p3 : keeps n p1 p2 -> keeps k p2 p3 -> keeps (n + k) p1 p3.
Proof. intros [] []. split; [done|congruence|congruence|lia]. Qed.
Lemma keeps_refl p : pool_inv p -> keeps 0 p p.
Proof. by split. Qed.

Lemma serves_bind {A B} n k (m : MP A) (f : A -> MP B) p :
  serves n m p -> (forall a p', m p = (Ret a, p') -> keeps n p p' -> serves k (f a) p') -> serves (n + k) (bind m f) p.
Proof.
  unfold serves, bind. intros [Hm Hk] Hf. destruct (m p) as [[a| |] p'] eqn:E; cbn in *; [|split; [done|]|done].
  - destruct (Hf a p' eq_refl Hk) as [H1 H2]. split; [done|]. by apply (keeps_trans n k p p').
  - destruct Hk. split; [done|done|done|lia].
Qed.

Lemma serves_ret {A} (a : A) p : pool_inv p -> serves 0 (ret a) p.
Proof. intros Hi. split; [done|by apply keeps_refl]. Qed.

Lemma serves_weaken {A} n k (m : MP A) p : (n <= k)%nat -> serves n m p -> serves k m p.
Proof. intros Hle [? []]. split; [done|]. split; [done|done|done|lia]. Qed.

Lemma serves_step {A} (m : MP A) a p p' : runs m p a p' -> step_ok p p' -> serves 0 m p.
Proof.
  intros E [Hi [] Ha]. unfold serves. rewrite E. split; [done|]. split; [done|done|done|]. by apply map_subseteq_size.
Qed.

(** A computation that does not change the state. *)
Lemma serves_pure {A} (m : MP A) p : pool_inv p -> (m p).1 <> OutOfFuel -> (m p).2 = p -> serves 0 m p.
Proof. intros Hi Hf E. split; [done|]. rewrite E. by apply keeps_refl. Qed.

Lemma hashOf_serves tx p : pool_inv p -> serves 0 (hashOf tx) p.
Proof. intros Hi. apply serves_pure; [done|..]; unfold hashOf; by destruct (ZKHashTx tx). Qed.

Lemma fromOf_serves tx p : pool_inv p -> serves 0 (fromOf tx) p.
Proof.
  intros Hi. destruct (poolSender_eq tx p) as (o&E&Hf&_). apply serves_pure; [done|..]; unfold fromOf, bind; rewrite E; by destruct o.
Qed.

Lemma tick_serves p : pool_inv p -> serves 0 tick p.
Proof. intros Hi. destruct (tick_runs p) as (t&p'&E&Hq&It). eapply serves_step; [exact E|by apply quiet_step]. Qed.

Lemma add_serves tx local p : pool_inv p -> is_u64 (tx_AccountNonce tx) -> serves 1 (add tx local) p.
Proof.
  intros Hi Hu. destruct (add_spec tx local p Hi Hu) as (o&p'&E&[Hi' [] Hsz]&Hf&_). unfold serves. rewrite E.
  split; [done|]. by split.
Qed.

(** The pool with its configuration, and room for [n] more. *)
Definition ready (n : nat) (p : TxPool) : Prop :=
  pool_inv p /\ config_ok (tp_config p) /\ Z.of_nat (n + size (tp_all p)) < two64.

Lemma keeps_ready n k p p' : ready (n + k) p -> keeps n p p' -> ready k p'.
Proof. intros (Hi&Hc&Hsz) [Hi' Ec _ Hs]. split_and!; [done|by rewrite Ec|lia]. Qed.

Lemma promote_serves view accounts p : ready 0 p -> serves 0 (promoteExecutables view accounts) p.
Proof.
  intros (Hi&Hc&Hsz). destruct (promoteExecutables_runs view accounts p Hi Hc Hsz) as (p'&E&Hs). by eapply serves_step.
Qed.

Lemma reset_serves p : ready 0 p -> serves 0 resetState p.
Proof. intros (Hi&Hc&Hsz). destruct (resetState_runs p Hi Hc Hsz) as (p'&E&Hs). by eapply serves_step. Qed.

Lemma addTx_serves tx local p : ready 1 p -> is_u64 (tx_AccountNonce tx) -> serves 1 (addTx tx local) p.
Proof.
  intros Hr Hu. apply (serves_bind 0 1); [apply hashOf_serves, Hr|]. intros _ p1 _ Hk1.
  assert (ready 1 p1) as Hr1 by by apply (keeps_ready 0 1 p).
  apply (serves_bind 1 0); [apply add_serves; [apply Hr1|done]|]. intros r p2 _ Hk2.
  assert (ready 0 p2) as Hr2 by by apply (keeps_ready 1 0 p1). pose proof Hr2 as [Hi2 _].
  destruct r as [e|[]]; [by apply serves_ret..|].
  apply (serves_bind 0 0); [by apply serves_pure|]. intros p3 p3' [= <- <-] _.
  destruct (tp_currentState p2) as [view|]; [|by apply serves_ret].
  apply (serves_bind 0 0); [by apply fromOf_serves|]. intros from p4 _ Hk4.
  assert (ready 0 p4) as Hr4 by by apply (keeps_ready 0 0 p2).
  apply (serves_bind 0 0); [by apply promote_serves|]. intros _ p5 _ Hk5. apply serves_ret, Hk5.
Qed.

Lemma addAll_serves txs local dirty p : ready (length txs) p -> Forall (fun tx => is_u64 (tx_AccountNonce tx)) txs ->
  serves (length txs) (addAll txs local dirty) p.
Proof.
  revert dirty p. induction txs as [|tx txs IH]; intros dirty p Hr Hu; cbn [addAll]; [apply serves_ret, Hr|].
  apply Forall_cons in Hu as [Hx Hu]. apply (serves_bind 1 (length txs)); [apply add_serves; [apply Hr|done]|].
  intros r p1 _ Hk1. assert (ready (length txs) p1) as Hr1 by by apply (keeps_ready 1 _ p).
  destruct r as [e|[]]; [by apply IH..|].
  apply (serves_bind 0 (length txs)); [apply fromOf_serves, Hr1|]. intros from p2 _ Hk2. apply IH; [|done].
  by apply (keeps_ready 0 _ p1).
Qed.

Lemma addTxs_serves txs local p : ready (length txs) p -> Forall (fun tx => is_u64 (tx_AccountNonce tx)) txs ->
  serves (length txs) (addTxs txs local) p.
Proof.
  intros Hr Hu. apply (serves_weaken (length txs + 0)); [lia|]. rewrite <- (Nat.add_0_r (length txs)) in Hr.
  apply serves_bind; [apply addAll_serves; [|done]; by rewrite Nat.add_0_r in Hr|]. intros dirty p1 _ Hk1.
  assert (ready 0 p1) as Hr1 by by apply (keeps_ready (length txs) 0 p). pose proof Hr1 as [Hi1 _].
  destruct (bool_decide (dirty = ∅)); [by apply serves_ret|].
  apply (serves_bind 0 0); [by apply serves_pure|]. intros p2 p2' [= <- <-] _.
  destruct (tp_currentState p1) as [view|]; [|by apply serves_ret].
  apply (serves_bind 0 0); [by apply tick_serves|]. intros t p3 _ Hk3.
  assert (ready 0 p3) as Hr3 by by apply (keeps_ready 0 0 p1).
  apply (serves_bind 0 0); [by apply promote_serves|]. intros _ p4 _ Hk4. apply serves_ret, Hk4.
Qed.

(** ** Requests without transactions *)

Lemma SetGasPrice_runs price p : pool_inv p -> exists p', runs (SetGasPrice price) p tt p' /\ step_ok p p'.
Proof.
  intros Hi. set (p1 := p <| tp_gasPrice := price |>).
  assert (pool_inv p1) as Hi1 by by (split; apply Hi).
  destruct (Cap_low price p1 (pool_inv_hashed p1 Hi1)) as (drop&p2&E2&Hq2&Hh2&Hk2).
  assert (step_ok p1 p2) as Hs2.
  { split; [apply (quiet_inv p1); [done|apply Hh2|done]|apply Hq2|by rewrite (quiet_all _ _ Hq2)]. }
  destruct (removeAll_runs drop p2 (so_inv _ _ Hs2) Hk2) as (p3&E3&Hs3).
  exists p3. split; [eapply runs_bind; [done|]; by eapply runs_bind|].
  apply (step_trans p p1 p3); [by split|by eapply step_trans].
Qed.

(** Reading all lists of one of the two maps: what they hold, sorted. *)
Definition reads (at_ : TxPool -> gmap string txList) (addr : string) (t : nat) (m : MP (list Transaction)) : Prop :=
  forall p, pool_inv p -> is_Some (at_ p !! addr) ->
    exists p', runs m p (flat (items_at (at_ p) addr)) p' /\ step_ok p p' /\
      (forall b, is_Some (at_ p !! b) -> is_Some (at_ p' !! b)) /\
      forall b, items_at (at_ p') b = items_at (at_ p) b.

Lemma flattenAll_runs (on : forall A, string -> M txList A -> MP A) (at_ : TxPool -> gmap string txList) :
  (forall a t, reads at_ a t (on _ a (tl_Flatten t))) -> (forall p p', quiet p p' -> at_ p' = at_ p) ->
  forall addrs p, pool_inv p -> (forall a, a ∈ addrs -> is_Some (at_ p !! a)) ->
  exists m p', runs (flattenAll on addrs) p m p' /\ step_ok p p' /\
    forall a, m !! a = if decide (a ∈ addrs) then Some (flat (items_at (at_ p) a)) else None.
Proof.
  intros Hon Hat addrs. induction addrs as [|a addrs IH]; intros p Hi Ha; cbn [flattenAll].
  { exists ∅, p. split_and!; [done|by apply step_refl|]. intros b. rewrite decide_False by apply not_elem_of_nil. apply lookup_empty. }
  destruct (tick_runs p) as (t&p1&E1&Hq1&It1). pose proof (quiet_step _ _ Hi Hq1 It1) as Hs1. pose proof (so_inv _ _ Hs1) as Hi1.
  destruct (Hon a t p1 Hi1) as (p2&E2&Hs2&Hd2&Hit2); [rewrite (Hat _ _ Hq1); apply Ha; by left|].
  destruct (IH p2 (so_inv _ _ Hs2)) as (m&p3&E3&Hs3&Hm).
  { intros b Hb. apply Hd2. rewrite (Hat _ _ Hq1). apply Ha. by right. }
  exists (<[a := flat (items_at (at_ p1) a)]> m), p3. split_and!.
  - eapply runs_bind; [exact E1|]. eapply runs_bind; [exact E2|]. by eapply runs_bind.
  - eapply step_trans; [done|by eapply step_trans].
  - intros b. rewrite (Hat _ _ Hq1) in *. destruct (decide (a = b)) as [<-|Hne].
    + by rewrite lookup_insert_eq, decide_True by by left.
    + rewrite lookup_insert_ne, Hm, Hit2 by done. apply decide_ext. rewrite elem_of_cons. naive_solver.
Qed.

Lemma set_items m a l l' b : m !! a = Some l -> tl_items l' = tl_items l ->
  (is_Some (m !! b) -> is_Some (<[a := l']> (m : gmap string txList) !! b)) /\ items_at (<[a := l']> m) b = items_at m b.
Proof.
  intros El Ei. split.
  - intros Hb. destruct (decide (a = b)) as [->|]; [rewrite lookup_insert_eq; by eexists|by rewrite lookup_insert_ne].
  - rewrite items_at_insert. destruct (decide (a = b)) as [<-|]; [|done]. unfold items_at. by rewrite El.
Qed.

Lemma pending_reads a t : reads tp_pending a t (onPending a (tl_Flatten t)).
Proof.
  intros q Hiq [l El]. destruct (inv_pending q Hiq a l El) as (Hwl&_).
  destruct (Flatten_runs t l Hwl) as (l'&E&Hw'&Hst'&Ei).
  assert (shrinks l l' []) as Hsh by (split; [done|done|rewrite Ei; apply splits_refl]).
  destruct (pending_shrunk q a l _ _ l' _ Hiq El E Hsh) as (E'&Hi'&Hls'&_).
  eexists. split_and!; [|by apply (local_step_ok a)|intros b; by eapply set_items..].
  assert (items_at (tp_pending q) a = tl_items l) as -> by (unfold items_at; by rewrite El). exact E'.
Qed.

Lemma queue_reads a t : reads tp_queue a t (onQueue a (tl_Flatten t)).
Proof.
  intros q Hiq [l El]. destruct (inv_queue q Hiq a l El) as (Hwl&_).
  destruct (Flatten_runs t l Hwl) as (l'&E&Hw'&Hst'&Ei).
  assert (shrinks l l' []) as Hsh by (split; [done|done|rewrite Ei; apply splits_refl]).
  destruct (queue_shrunk q a l _ _ l' _ Hiq El E Hsh) as (E'&Hs'&_).
  eexists. split_and!; [|done|intros b; by eapply set_items..].
  assert (items_at (tp_queue q) a = tl_items l) as -> by (unfold items_at; by rewrite El). exact E'.
Qed.

(** What [Pending] returns: the sorted pending transactions of each account. *)
Definition sorted_lists (m : gmap string txList) (r : gmap string (list Transaction)) : Prop :=
  forall a, r !! a = (fun l => flat (tl_items l)) <$> m !! a.

Lemma range_keys t (m : gmap string txList) (r : gmap string (list Transaction)) :
  (forall a, r !! a = if decide (a ∈ (go_range t m).*1) then Some (flat (items_at m a)) else None) -> sorted_lists m r.
Proof.
  intros Hr a. rewrite Hr. destruct (m !! a) as [l|] eqn:El.
  - rewrite decide_True; [unfold items_at; by rewrite El|]. apply list_elem_of_fmap. exists (a, l).
    split; [done|]. by apply go_range_elem.
  - rewrite decide_False; [done|]. intros ([a' l]&->&Hin%go_range_elem)%list_elem_of_fmap. cbn in El. congruence.
Qed.

Lemma Pending_runs p : pool_inv p -> exists m p', runs Pending p m p' /\ step_ok p p' /\ sorted_lists (tp_pending p) m.
Proof.
  intros Hi. destruct (tick_runs p) as (t&p1&E1&Hq1&It1). pose proof (quiet_step _ _ Hi Hq1 It1) as Hs1.
  destruct (flattenAll_runs (@onPending) tp_pending) with (addrs := (go_range t (tp_pending p)).*1) (p := p1)
    as (m&p2&E2&Hs2&Hm); [apply pending_reads|apply quiet_pending|apply Hs1| |].
  - intros a ([a' l]&->&Hin%go_range_elem)%list_elem_of_fmap. rewrite (quiet_pending _ _ Hq1). by eexists.
  - exists m, p2. split_and!; [|by eapply step_trans|].
    + unfold Pending, runs. rewrite bind_get. eapply runs_bind; [exact E1|exact E2].
    + rewrite (quiet_pending _ _ Hq1) in Hm. by apply (range_keys t).
Qed.

Lemma Content_runs p : pool_inv p -> exists m p', runs Content p m p' /\ step_ok p p'.
Proof.
  intros Hi. destruct (Pending_runs p Hi) as (m0&p0&E0&Hs0&_).
  destruct (tick_runs p0) as (t&p1&E1&Hq1&It1). pose proof (quiet_step _ _ (so_inv _ _ Hs0) Hq1 It1) as Hs1.
  destruct (flattenAll_runs (@onQueue) tp_queue) with (addrs := (go_range t (tp_queue p0)).*1) (p := p1)
    as (m&p2&E2&Hs2&_); [apply queue_reads|apply quiet_queue|apply Hs1| |].
  - intros a ([a' l]&->&Hin%go_range_elem)%list_elem_of_fmap. rewrite (quiet_queue _ _ Hq1). by eexists.
  - exists (m0, m), p2. split; [|by eapply step_trans; [|eapply step_trans]]. eapply runs_bind; [exact E0|].
    eapply (runs_bind get); [done|]. eapply runs_bind; [exact E1|]. by eapply runs_bind.
Qed.

(** One tick of the expiration loop. *)
Lemma expire_runs p : pool_inv p -> exists p', runs expire p tt p' /\ step_ok p p'.
Proof.
  intros Hi. destruct (tick_runs p) as (t&p1&E1&Hq1&It1). pose proof (quiet_step _ _ Hi Hq1 It1) as Hs1.
  destruct (for_each_runs (fun todo p' => step_ok p p' /\ NoDup todo /\ Forall (fun a => is_Some (tp_queue p' !! a)) todo)
    (fun addr => p <- get ;;
      if bool_decide (addr ∈ tp_locals p) then ret tt
      else when (Lifetime (tp_config p) <? tp_now p - default 0 (tp_beats p !! addr))
        (t <- tick ;; txs <- onQueue addr (tl_Flatten t) ;; removeAll txs)))
    with (l := (go_range t (tp_queue p)).*1) (p := p1) as (p2&E2&Hs2&_).
  - intros a todo q (Hs&[Hnin Hnd]%NoDup_cons&[[l El] Hex]%Forall_cons). pose proof (so_inv _ _ Hs) as Hiq.
    assert (exists q', runs (t <- tick ;; txs <- onQueue a (tl_Flatten t) ;; removeAll txs) q tt q' /\ pool_inv q' /\ local_step a q q')
      as (q'&E'&Hi'&Hls').
    { destruct (tick_runs q) as (t'&q1&F1&Hq1'&It1'). pose proof (quiet_step _ _ Hiq Hq1' It1') as Hsq1.
      destruct (flatten_queue_runs a t' q1 l (so_inv _ _ Hsq1)) as (q2&F2&Hi2&Hl2&Hf2); [by rewrite (quiet_queue _ _ Hq1')|].
      destruct (removeAll_local (flat (tl_items l)) q2 a Hi2) as (q3&F3&Hi3&Hl3).
      { rewrite Forall_forall in *. intros x Hx. by apply Hf2. }
      exists q3. split_and!; [eapply runs_bind; [exact F1|]; by eapply runs_bind|done|].
      etrans; [by apply quiet_local|]. by etrans. }
    assert (forall q'', step_ok q q'' -> (forall b, b <> a -> tp_queue q'' !! b = tp_queue q !! b) ->
      step_ok p q'' /\ NoDup todo /\ Forall (fun a => is_Some (tp_queue q'' !! a)) todo) as Hnext.
    { intros q'' Hsq Hqq. split_and!; [by eapply step_trans|done|]. rewrite Forall_forall in *. intros b Hb.
      rewrite Hqq; [by apply Hex|]. by intros ->. }
    destruct (bool_decide (a ∈ tp_locals q)) eqn:Eloc.
    { exists q. split; [unfold runs; rewrite bind_get, Eloc; done|]. apply Hnext; [by apply step_refl|done]. }
    destruct (Lifetime (tp_config q) <? tp_now q - default 0 (tp_beats q !! a)) eqn:Elf.
    + exists q'. split; [unfold runs; rewrite bind_get, Eloc, Elf; exact E'|].
      apply Hnext; [by apply (local_step_ok a)|apply Hls'].
    + exists q. split; [unfold runs; rewrite bind_get, Eloc, Elf; done|]. apply Hnext; [by apply step_refl|done].
  - split_and!; [done|apply go_range_nodup|]. apply Forall_forall.
    intros a ([a' l]&->&Hin%go_range_elem)%list_elem_of_fmap. rewrite (quiet_queue _ _ Hq1). by eexists.
  - exists p2. split; [|done]. unfold expire, runs. rewrite bind_get. eapply runs_bind; [exact E1|exact E2].
Qed.
(** A request that offers no transaction returns, but for the removal of one
    without a sender. *)
Definition internal (r : request) : Prop :=
  match r with
  | RAddLocal _ | RAddRemote _ | RAddLocals _ | RAddRemotes _ | REvent (RemovedTransactionEvent _) => False
  | RRemoveBatch txs => known txs
  | _ => True
  end.

Lemma handle_head h p : ready 0 p -> exists p', runs (handleEvent (ChainHeadEvent h)) p tt p' /\ keeps 0 p p'.
Proof.
  intros (Hi&Hc&Hsz). set (p1 := if h then p <| tp_homestead := true |> else p).
  assert (pool_inv p1) as Hi1 by (unfold p1; destruct h; [by split; apply Hi|done]).
  assert (tp_config p1 = tp_config p /\ tp_chainId p1 = tp_chainId p /\ tp_all p1 = tp_all p) as (Ec&Ech&Ea)
    by (unfold p1; by destruct h).
  destruct (resetState_runs p1 Hi1) as (p'&E&[Hi' [] Ha]); [by rewrite Ec|by rewrite Ea|].
  exists p'. split; [by eapply runs_bind|]. apply map_subseteq_size in Ha. rewrite Ea in Ha.
  split; [done|congruence|congruence|done].
Qed.

Lemma step_keeps p p' : step_ok p p' -> keeps 0 p p'.
Proof. intros [Hi [] Ha]. split; [done|done|done|]. by apply map_subseteq_size. Qed.

Lemma internal_runs r p : internal r -> ready 0 p -> exists p', runs (serve r) p tt p' /\ keeps 0 p p'.
Proof.
  intros Hr Hrd. pose proof Hrd as (Hi&_).
  assert (forall m : MP unit, (exists p', runs m p tt p' /\ step_ok p p') -> exists p', runs m p tt p' /\ keeps 0 p p') as Hm.
  { intros m (p'&E&Hs). exists p'. split; [done|by apply step_keeps]. }
  assert (forall A (m : MP A), (exists a p', runs m p a p' /\ step_ok p p') ->
    exists p', runs (m ;; ret tt) p tt p' /\ keeps 0 p p') as Hm'.
  { intros A m (a&p'&E&Hs). exists p'. split; [by eapply runs_bind|by apply step_keeps]. }
  destruct r as [tx|tx|txs|txs|h|txs|price| | | |ev|state gl|now]; cbn [internal serve] in *; try done.
  - apply Hm. destruct (removeTx_runs p h Hi) as (p'&E&Hi'&Hs&Ha&_). exists p'. split; [done|]. split; [done|done|].
    etrans; [exact Ha|apply delete_subseteq].
  - apply Hm. by apply removeAll_runs.
  - apply Hm. by apply SetGasPrice_runs.
  - apply Hm'. destruct (Pending_runs p Hi) as (m&p'&E&Hs&_). by exists m, p'.
  - apply Hm'. by apply Content_runs.
  - apply Hm. by apply expire_runs.
  - destruct ev as [h|]; [|done]. by apply handle_head.
  - eexists. split; [done|]. by split; [split; apply Hi|..].
  - eexists. split; [done|]. by split; [split; apply Hi|..].
Qed.

(** Every request keeps the invariant, whatever it ends with, and ends. *)
Lemma serve_safe r p : request_ok r p -> pool_inv p -> config_ok (tp_config p) -> serves (length (offered r)) (serve r) p.
Proof.
  intros [Hu Hsz] Hi Hc. assert (ready (length (offered r)) p) as Hr by by split_and!.
  assert (forall A n (m : MP A), serves n m p -> serves n (m ;; ret tt) p) as Hret.
  { intros A n m Hm. rewrite <- (Nat.add_0_r n). apply serves_bind; [done|]. intros a p' _ Hk. apply serves_ret, Hk. }
  assert (forall B (f : TxPool -> MP B) n, serves n (f p) p -> serves n (bind get f) p) as Hget.
  { intros B f n Hm. apply (serves_bind 0 n); [by apply serves_pure|]. by intros a p' [= <- <-] _. }
  assert (internal r -> length (offered r) = 0%nat -> serves (length (offered r)) (serve r) p) as Hint.
  { intros Hn H0. rewrite H0 in *. destruct (internal_runs r p Hn Hr) as (p'&E&Hk). split; unfold runs in E; by rewrite E. }
  destruct r as [tx|tx|txs|txs|h|txs|price| | | |[h|txs]|state gl|now]; cbn [serve offered length] in *;
    try (by apply Hint).
  - apply Forall_cons in Hu as [Hu _]. apply Hret, Hget. by apply addTx_serves.
  - apply Forall_cons in Hu as [Hu _]. apply Hret. by apply addTx_serves.
  - apply Hret, Hget. by apply addTxs_serves.
  - apply Hret. by apply addTxs_serves.
  - (* the removal of a batch: every one of them keeps the invariant *)
    clear Hint Hsz Hu Hret Hget. unfold RemoveBatch, removeAll. revert p Hi Hc Hr.
    induction txs as [|tx txs IH]; intros p Hi Hc Hr; cbn [for_each]; [by apply serves_ret|].
    apply (serves_bind 0 0).
    + apply (serves_bind 0 0); [by apply hashOf_serves|]. intros h p1 _ Hk1.
      destruct (removeTx_runs p1 h (ke_inv _ _ _ Hk1)) as (p'&E&Hi'&Hs&Ha&_). eapply serves_step; [exact E|].
      split; [done|done|]. etrans; [exact Ha|apply delete_subseteq].
    + intros _ p1 _ Hk1. pose proof (keeps_ready 0 0 p p1 Hr Hk1) as Hr1. pose proof Hr1 as (Hi1&Hc1&_). by apply IH.
  - apply Hret. by apply addTxs_serves.
Qed.

(** ** Reachable pools *)

Inductive reachable (c : TxPoolConfig) (chainId : Z) : TxPool -> Prop :=
  | reach_new state gasLimit DB now : reachable c chainId (NewTxPool c chainId state gasLimit DB now)
  | reach_serve r p : reachable c chainId p -> request_ok r p -> reachable c chainId (serve r p).2.

Lemma NewTxPool_inv c chainId state gasLimit DB now : config_ok c ->
  let p := NewTxPool c chainId state gasLimit DB now in
  pool_inv p /\ tp_config p = sanitize c /\ tp_chainId p = chainId.
Proof.
  intros Hc p. unfold p, NewTxPool. set (p0 := mkPool _ _ _ _ _ _ _ _ _ _ _ _ _ _ _ _ _ _).
  assert (pool_inv p0) as Hi0.
  { split; [apply map_Forall_empty|apply map_Forall_empty| |apply map_Forall_empty|constructor].
    intros addr n. left. unfold items_at. cbn. by rewrite !lookup_empty. }
  assert (config_ok (sanitize c)) as Hc0.
  { unfold sanitize. destruct (PriceLimit c <? 1); destruct (_ <? 1); split; apply Hc. }
  destruct (resetState_runs p0 Hi0 Hc0) as (p'&E&[Hi' [Ec Ech _ _ _] _]); [done|].
  unfold runs in E. rewrite E. done.
Qed.

Lemma sanitize_ok c : config_ok c -> config_ok (sanitize c).
Proof. intros Hc. unfold sanitize. destruct (PriceLimit c <? 1); destruct (_ <? 1); split; apply Hc. Qed.

Lemma reachable_inv c chainId p : config_ok c -> reachable c chainId p ->
  pool_inv p /\ tp_config p = sanitize c /\ tp_chainId p = chainId.
Proof.
  intros Hc. induction 1 as [|r p _ (Hi&Ec&Ech) Hr]; [by apply NewTxPool_inv|].
  destruct (serve_safe r p Hr Hi) as [_ [Hi' Ec' Ech' _]]; [rewrite Ec; by apply sanitize_ok|].
  split_and!; [done|congruence|congruence].
Qed.

(** ** A removal that strands transactions *)

(** The pending list of an account that loses its first transaction is dropped with
    all the others. *)
Lemma removePending_first p q h tx addr l : removing p q h tx addr -> tp_pending p !! addr = Some l ->
  is_Some (tl_items l !! tx_AccountNonce tx) -> (forall n, is_Some (tl_items l !! n) -> tx_AccountNonce tx <= n) ->
  exists q', runs (removePending addr tx) q true q' /\ tp_pending q' = delete addr (tp_pending p) /\
    tp_queue q' = tp_queue p /\ tp_all q' = delete h (tp_all p).
Proof.
  intros [Hi Hg Eh Ea Hq Hh] El [old Eold] Hmin.
  pose proof (quiet_pending _ _ Hq) as Eqp. change (tp_pending q = tp_pending p) in Eqp.
  destruct (tick_runs q) as (t&q1&Et&Hq1&Hi1). pose proof (PreOrder_Transitive _ _ _ Hq Hq1) as [_ Ep1 Eq1 Ea1].
  destruct (inv_pending p Hi addr l El) as (Hwl&Hst&_).
  destruct (Remove_behaves t tx l Hwl) as (a&l'&E&Hw'&Hst'&Hsp). apply ret_inv in E as ([found inv]&E&<-).
  cbn [fst snd] in Hsp. inversion Hsp as [| | | | |? En|? old' ? rest Eold' Hspl Hrest| | |]; subst; [congruence|].
  assert (tl_items l' = ∅) as Eempty.
  { apply map_empty. intros n. destruct (tl_items l' !! n) as [x|] eqn:Ex; [|done]. apply Hrest in Ex as (Ex&_&Hlt).
    specialize (Hlt Hst). specialize (Hmin n ltac:(by eexists)). lia. }
  set (q2 := q1 <| tp_pending ::= <[addr := l']> |>).
  assert (tp_pending q2 !! addr = Some l') as El2 by apply lookup_insert_eq.
  pose proof (onPending_runs addr l' _ _ l' q2 El2 (Empty_runs l')) as Ee. rewrite set_pending_same in Ee by done.
  rewrite Eempty, map_size_empty in Ee. cbn in Ee.
  set (q3 := q2 <| tp_pending ::= delete addr |> <| tp_beats ::= delete addr |>).
  destruct (lowerNonce_runs addr (tx_AccountNonce tx) q3) as (q4&E4&[_ Ep4 Eq4 Ea4]&_).
  exists q4. split_and!.
  - unfold runs, removePending. rewrite bind_get, Eqp, El. eapply runs_bind; [exact Et|].
    eapply runs_bind; [apply (onPending_runs addr l _ _ l'); [by rewrite Ep1|exact E]|]. cbn [negb fst snd].
    eapply runs_bind; [exact Ee|]. eapply (runs_bind _ _ _ tt q3); [done|]. by eapply runs_bind.
  - rewrite Ep4. change (delete addr (<[addr := l']> (tp_pending q1)) = delete addr (tp_pending p)).
    rewrite delete_insert_eq. by rewrite Ep1.
  - rewrite Eq4. exact Eq1.
  - rewrite Ea4. exact Ea1.
Qed.
End Requests.

(** ** Theorems *)

Section Theorems.
Context `{GR : GoRange} `{TE : TxEnv} `{ME : MerkleEnv} `{PE : ProofEnv} `{PO : PoolEnv}.

(** C17: in every pool that requests lead to, whatever they end with, the listed
    transactions are in the index under their hashes and in the list of their
    sender, sorted into heaps with true cost caps, and no nonce is both pending and
    queued; configuration and chain are those of the start. *)
Theorem pool_invariant c chainId p : config_ok c -> reachable c chainId p ->
  pool_inv p /\ tp_config p = sanitize c /\ tp_chainId p = chainId.
Proof. apply reachable_inv. Qed.

(** C32: every request to such a pool ends: no loop of it runs on, and the requests
    without transactions end without a panic. *)
Theorem pool_requests_end c chainId p r : config_ok c -> reachable c chainId p -> request_ok r p ->
  (serve r p).1 <> OutOfFuel /\ (internal r -> (serve r p).1 = Ret tt).
Proof.
  intros Hc Hreach Hr. destruct (reachable_inv c chainId p Hc Hreach) as (Hi&Ec&_).
  assert (config_ok (tp_config p)) as Hc' by (rewrite Ec; by apply sanitize_ok). split.
  - by apply (serve_safe r p Hr Hi Hc').
  - intros Hin. destruct (internal_runs r p Hin) as (p'&E&_); [|unfold runs in E; by rewrite E].
    destruct Hr as [_ Hsz]. split_and!; [done|done|lia].
Qed.

(** C34: after [limitPending] at most [GlobalSlots] transactions are pending, or
    every account that is not local is down to its guaranteed [AccountSlots]. *)
Theorem pending_limit_enforced c chainId p : config_ok c -> reachable c chainId p -> Z.of_nat (size (tp_all p)) < two64 ->
  exists p', limitPending p = (Ret tt, p') /\ limited p' /\ pool_inv p' /\ tp_all p' ⊆ tp_all p.
Proof.
  intros Hc Hreach Hsz. destruct (reachable_inv c chainId p Hc Hreach) as (Hi&Ec&_).
  destruct (limitPending_runs p Hi) as (p'&E&[Hi' _ Ha]&_&Hl); [rewrite Ec; by apply sanitize_ok|done|by exists p'].
Qed.

(** [validateTx] accepts exactly the valid transactions: of bounded size, with a
    signature by an account that has the nonce not used up and the balance for the
    cost, within the gas limits, and with a proof if it comes from another chain. *)
Theorem validateTx_accepts tx local p :
  (validateTx tx local p).1 = Ret None <-> exists from, valid p tx local from.
Proof. destruct (validateTx_spec tx local p) as (o&p'&E&Hv). rewrite E. apply Hv. Qed.

(** A contract creation, which has no recipient, stops the node: validation
    reads the recipient of every transaction. *)
Theorem contract_creation_panics tx p from view h :
  ZKHashTx tx = Some h -> tp_all p !! h = None -> tx_Recipient tx = None -> tx_TxType tx <> TxZK ->
  txSize tx <= 32 * 1024 -> 0 <= tx_Amount tx -> tx_GasLimit tx <= tp_gasLimit p -> 0 <= tx_Price tx ->
  sender_of (tp_chainId p) tx from -> tp_currentState p = Some view -> cv_GetNonce view from <= tx_AccountNonce tx ->
  Cost tx <= cv_GetBalance view from -> IntrinsicGas (tx_Payload tx) true (tp_homestead p) <= tx_GasLimit tx ->
  (AddRemote tx p).1 = Panic.
Proof.
  intros Eh Ea Er Ht H1 H2 H3 H4 Hs Ev H5 H6 H7.
  assert (validateTx tx false p = (Panic, p <| tp_gasPrice := 0 |>)) as E.
  { unfold validateTx. rewrite (proj2 (Z.ltb_ge _ _) H1), (proj2 (Z.ltb_ge _ _) H2), bind_get, (proj2 (Z.ltb_ge _ _) H3).
    destruct (poolSender_eq tx p) as (o&Es&_&Ho). rewrite (proj2 (Ho from) Hs) in Es. rewrite (bind_eq _ _ _ _ _ Es).
    cbv zeta. rewrite bind_modify, (proj2 (Z.ltb_ge _ _) H4), andb_false_r, Ev, (proj2 (Z.ltb_ge _ _) H5), (proj2 (Z.ltb_ge _ _) H6).
    rewrite (proj2 (Z.eqb_neq _ _) Ht). cbn [andb]. rewrite Er, bool_decide_true by done.
    by rewrite (proj2 (Z.ltb_ge _ _) H7). }
  unfold AddRemote, addTx. rewrite (bind_eq _ _ _ _ _ (hashOf_runs tx h p Eh)).
  unfold bind at 1. by rewrite (add_unfold tx false p h Eh Ea _ _ E).
Qed.

(** The hash of a payment does not cover its nonce, recipient or amount, so
    while the pool holds one payment of a sender it refuses the next as known. *)
Theorem second_payment_refused c chainId p tx1 tx2 h : config_ok c -> reachable c chainId p ->
  tp_all p !! h = Some tx1 ->
  tx_Sender tx2 = tx_Sender tx1 -> tx_ZKSN tx2 = tx_ZKSN tx1 -> tx_ZKCMTbal tx2 = tx_ZKCMTbal tx1 ->
  head (tx_Headers tx2) = head (tx_Headers tx1) ->
  AddRemote tx2 p = (Ret (Some (errKnown h)), p).
Proof.
  intros Hc Hreach Ea E1 E2 E3 E4. destruct (reachable_inv c chainId p Hc Hreach) as (Hi&_).
  destruct (inv_all p Hi h tx1 Ea) as [Eh _].
  assert (ZKHashTx tx2 = Some h) as Eh2 by (rewrite <- Eh; unfold ZKHashTx; by rewrite E1, E2, E3, E4).
  unfold AddRemote, addTx. rewrite (bind_eq _ _ _ _ _ (hashOf_runs tx2 h p Eh2)).
  unfold bind at 1, add. rewrite (bind_eq _ _ _ _ _ (hashOf_runs tx2 h p Eh2)), bind_get.
  by rewrite bool_decide_true by (rewrite Ea; by eexists).
Qed.

(** When the first pending transaction of an account is removed, its later
    ones are dropped from the lists but stay in the index: they can neither be
    executed nor be sent again. *)
Theorem removed_first_strands_rest c chainId p h tx addr l : config_ok c -> reachable c chainId p ->
  tp_all p !! h = Some tx -> tp_pending p !! addr = Some l -> tl_items l !! tx_AccountNonce tx = Some tx ->
  (forall n, is_Some (tl_items l !! n) -> tx_AccountNonce tx <= n) ->
  exists p', removeTx h p = (Ret tt, p') /\ tp_pending p' !! addr = None /\
    forall n tx' h', tl_items l !! n = Some tx' -> tx' <> tx -> ZKHashTx tx' = Some h' ->
      unlisted p' tx' /\ AddRemote tx' p' = (Ret (Some (errKnown h')), p').
Proof.
  intros Hc Hreach Ea El Etx Hmin. destruct (reachable_inv c chainId p Hc Hreach) as (Hi&_).
  destruct (inv_all p Hi h tx Ea) as [Eh _].
  assert (items_at (tp_pending p) addr = tl_items l) as Eit by (unfold items_at; by rewrite El).
  destruct (listed_ok _ _ _ _ addr (tx_AccountNonce tx) tx (inv_pending p Hi)) as (Hg&_); [by rewrite Eit|].
  pose proof (good_sender _ _ _ Hg) as (sg&Esg&Ed).
  destruct (priced_Removed_low (p <| tp_all ::= delete h |>)) as (q&Eq&Hq&Hh); [by apply hashed_delete, pool_inv_hashed|].
  assert (removing p q h tx addr) as Hrm by by split.
  destruct (removePending_first p q h tx addr l Hrm El) as (p'&E2&Ep&Equ&Eal); [by eexists|done|].
  exists p'. split_and!.
  - unfold removeTx. rewrite bind_get, Ea, Esg. cbv zeta.
    eapply (runs_bind _ _ p (inr addr) p); [unfold runs, call; cbn; by rewrite Ed|].
    eapply runs_bind; [done|]. eapply runs_bind; [exact Eq|]. by eapply runs_bind.
  - rewrite Ep. apply lookup_delete_eq.
  - intros n tx' h' En Hne Eh'. rewrite <- Eit in En.
    destruct (listed_ok _ _ _ _ _ _ _ (inv_pending p Hi) En) as (Hg'&Hh'&En').
    destruct (hash_ok_delete _ tx' tx h Hh') as (hx&Ehx&Ehall); [by exists h|done|done|].
    assert (hx = h') as -> by congruence. split.
    + intros a. rewrite Ep, Equ. split; intros Hx.
      * unfold items_at in Hx. destruct (decide (addr = a)) as [<-|Hna]; [by rewrite lookup_delete_eq in Hx|].
        rewrite lookup_delete_ne in Hx by done. fold (items_at (tp_pending p) a) in Hx.
        destruct (listed_ok _ _ _ _ _ _ _ (inv_pending p Hi) Hx) as (Hgx&_).
        apply Hna. eapply sender_unique; [apply Hg'|apply Hgx].
      * destruct (listed_ok _ _ _ _ _ _ _ (inv_queue p Hi) Hx) as (Hgx&_).
        assert (addr = a) as <- by (eapply sender_unique; [apply Hg'|apply Hgx]).
        destruct (inv_disjoint p Hi addr n) as [Hn|Hn]; [congruence|]. rewrite En' in Hx. congruence.
    + rewrite <- Eal in Ehall. unfold AddRemote, addTx. rewrite (bind_eq _ _ _ _ _ (hashOf_runs tx' h' p' Eh')).
      unfold bind at 1, add. rewrite (bind_eq _ _ _ _ _ (hashOf_runs tx' h' p' Eh')), bind_get.
      by rewrite bool_decide_true by (rewrite Ehall; by eexists).
Qed.
(** Raising the minimal price takes the cheapest transaction that meets it out
    of the price list: the loop of [Cap] pops it, stops, and does not put it back,
    so it can no longer be discarded from a full pool. *)
Theorem cap_loses_boundary threshold p tx h rest :
  heap_Pop priceLess (tp_items p) = Some (tx, rest) -> ZKHashTx tx = Some h -> tp_all p !! h = Some tx ->
  threshold <= tx_Price tx ->
  priced_Cap threshold p = (Ret [], p <| tp_items := rest |>).
Proof.
  intros Ep Eh Ea Hle. unfold priced_Cap. rewrite bind_get. set (p1 := p <| tp_items := rest |>).
  assert (runs (capLoop (length (tp_items p)) threshold [] []) p ([], []) p1) as E; [|by rewrite (bind_eq _ _ _ _ _ E)].
  assert (tp_items p <> []) as Hne by (intros E; rewrite E in Ep; done).
  destruct (tp_items p) as [|x l] eqn:Ei; [done|]. cbn [length capLoop]. unfold runs. rewrite bind_get, Ei.
  assert (priced_pop p = (Ret tx, p1)) as E1 by (unfold priced_pop; by rewrite bind_get, Ei, Ep).
  rewrite (bind_eq _ _ _ _ _ E1), (bind_eq _ _ _ _ _ (staleTx_runs tx p1 h Eh)).
  rewrite bool_decide_false by (change (tp_all p !! h <> None); by rewrite Ea).
  by rewrite (proj2 (Z.leb_le _ _) Hle).
Qed.
End Theorems.
