(* ===== verification/TxPoolScenarios.v ===== *)
(** * TxPoolScenarios: runs of the transaction pool

    A sample pool of few slots, instances of the general theorems in it, and runs
    that show what the pool loses or lets through. *)
From S2P Require Import Prelude.
From S2P Require Import Messages.
From S2P Require Import StateDB.
From S2P Require Import Tx.
From S2P Require Import ZkTx.
From S2P Require Import ZkScenarios.
From S2P Require Import GoHeap.
From S2P Require Import TxList.
From S2P Require Import TxListSpec.
From S2P Require Import Merkle.
From S2P Require Import CrossProof.
From S2P Require Import ManagedState.
From S2P Require Import TxPool.
From S2P Require Import TxPoolInv.
From S2P Require Import TxPoolOps.
From S2P Require Import TxPoolAdd.
From S2P Require Import TxPoolSafe.

Local Open Scope string_scope.

(** ** A sample environment *)

(** Signatures from which the key of the account with the number [R] is recovered. *)
#[local] Instance recoverEnv : TxEnv := {|
  rlpHash := fun _ => "";
  zkHash := fun s => s;
  Ecrecover := fun _ sig => Some (String (Ascii.ascii_of_nat 4) (String.substring 31 20 sig));
  hibeVerify := fun _ _ _ _ => true;
  txSize := fun _ => 100%Z |}.
#[local] Instance sampleMerkle : MerkleEnv := pairingEnv.
#[local] Instance sampleProofs : ProofEnv := namedEnv.

Definition byPriority (a b : string * Z) : Prop := (b.2 <= a.2)%Z.
#[local] Instance byPriority_dec a b : Decision (byPriority a b).
Proof. unfold byPriority. apply _. Defined.
#[local] Instance byPriority_total : Total byPriority.
Proof. intros a b. unfold byPriority. lia. Qed.
#[local] Instance byPriority_trans : Transitive byPriority.
Proof. intros a b c. unfold byPriority. lia. Qed.

#[local] Program Instance samplePool : PoolEnv := {|
  TotalLevel := 2%Z;
  NodeID := "12";
  prqueOrder := fun _ l => merge_sort byPriority l |}.
Next Obligation. intros. apply merge_sort_Permutation. Qed.
Next Obligation. intros. apply (StronglySorted_merge_sort byPriority). Qed.

Definition fewSlots : TxPoolConfig := mkPoolConfig false 1 10 1 4 2 2 100.
Definition accountOf (r : Z) : string := String (Ascii.ascii_of_nat 4) (String (Ascii.ascii_of_N (Z.to_N r)) (zeros 18)).
Definition richState : chainView :=
  {[ accountOf 1 := mkChainAccount 0 1000000; accountOf 2 := mkChainAccount 0 1000000; accountOf 3 := mkChainAccount 0 1000000;
     alice := mkChainAccount 0 100000 ]}.

(** A payment signed by account [r]. *)
Definition payTx (r nonce price : Z) (sn : string) (to : option string) : Transaction :=
  (newTransaction nonce to 1 30000 price "") <| tx_Sender := Some (accountOf r) |> <| tx_ZKSN := sn |>
    <| tx_V := 27%Z |> <| tx_R := r |> <| tx_S := 1%Z |>.

Definition emptyPool : TxPool := NewTxPool fewSlots 7 (Some richState) 100000 (Some ∅) 0.
Definition sends (txs : list Transaction) (p : TxPool) : TxPool :=
  foldl (fun p tx => (serve (RAddRemote tx) p).2) p txs.

Definition pay (r nonce : Z) (sn : string) : Transaction := payTx r nonce 5 sn (Some bob).
Definition busyPool : TxPool := sends [pay 1 0 "a"; pay 1 1 "b"; pay 1 2 "c"; pay 2 0 "a"] emptyPool.

(** The pending nonces of an account. *)
Definition pendingNonces (p : TxPool) (addr : string) : list Z :=
  tx_AccountNonce <$> flat (items_at (tp_pending p) addr).

Example busyPool_pending : pendingNonces busyPool (accountOf 1) = [0; 1; 2]%Z /\ pendingNonces busyPool (accountOf 2) = [0]%Z.
Proof. by vm_compute. Qed.

(** A fifth transaction is one too many: the largest sender loses its last. *)
Example fifth_evicts_spammer :
  let p := (serve (RAddRemote (pay 2 1 "b")) busyPool).2 in
  pendingNonces p (accountOf 1) = [0; 1]%Z /\ pendingNonces p (accountOf 2) = [0; 1]%Z.
Proof. by vm_compute. Qed.

(** ** Instances of the theorems *)

Lemma fewSlots_ok : config_ok fewSlots.
Proof. by split; vm_compute. Qed.

Lemma sends_reachable txs p : reachable fewSlots 7 p ->
  Forall (fun tx => is_u64 (tx_AccountNonce tx)) txs -> Z.of_nat (length txs + size (tp_all p)) < two64 ->
  reachable fewSlots 7 (sends txs p).
Proof.
  intros Hp Hu Hsz. revert p Hp Hsz. induction Hu as [|tx txs Hx Hu IH]; intros p Hp Hsz; [done|]. cbn [sends foldl].
  assert (request_ok (RAddRemote tx) p) as Hr by (split; [by apply Forall_singleton|cbn [offered length] in *; lia]).
  apply IH; [by apply reach_serve|].
  destruct (reachable_inv fewSlots 7 p fewSlots_ok Hp) as (Hi&Ec&_).
  destruct (serve_safe _ p Hr Hi) as [_ Hk]; [rewrite Ec; apply sanitize_ok, fewSlots_ok|].
  pose proof (ke_size _ _ _ Hk). cbn [offered length] in *. lia.
Qed.

Lemma samples_reachable txs : Forall (fun tx => is_u64 (tx_AccountNonce tx)) txs -> Z.of_nat (length txs) < two64 ->
  reachable fewSlots 7 (sends txs emptyPool).
Proof.
  intros Hu Hl. apply sends_reachable; [apply reach_new|done|].
  assert (size (tp_all emptyPool) = 0%nat) as -> by by vm_compute. lia.
Qed.

Lemma busyPool_reachable : reachable fewSlots 7 busyPool.
Proof. apply samples_reachable; [by repeat constructor|done]. Qed.

Lemma pool_invariant_witness : pool_inv busyPool.
Proof. apply (pool_invariant fewSlots 7 busyPool fewSlots_ok busyPool_reachable). Defined.

Lemma pool_requests_end_witness : (serve (REvent (ChainHeadEvent true)) busyPool).1 = Ret tt.
Proof.
  apply (pool_requests_end fewSlots 7 busyPool (REvent (ChainHeadEvent true)) fewSlots_ok busyPool_reachable); [|done].
  split; [constructor|by vm_compute].
Defined.

Lemma pending_limit_enforced_witness : exists p', limitPending busyPool = (Ret tt, p') /\ limited p'.
Proof.
  destruct (pending_limit_enforced fewSlots 7 busyPool fewSlots_ok busyPool_reachable) as (p'&E&H&_); [by vm_compute|].
  exists p'. split; [exact E|exact H].
Defined.

(** A contract of account 1. *)
Definition creation : Transaction := payTx 1 0 5 "a" None.

Lemma contract_creation_panics_witness : (AddRemote creation emptyPool).1 = Panic.
Proof.
  apply (contract_creation_panics creation emptyPool (accountOf 1) richState (default "" (ZKHashTx creation)));
    first [by vm_compute | exists (EIP155Signer 7); split; by vm_compute].
Defined.

(** The same sender pays more to another account with its next nonce. *)
Definition firstOnly : TxPool := sends [pay 1 0 "a"] emptyPool.

Lemma second_payment_refused_witness :
  AddRemote (payTx 1 1 50 "a" (Some alice)) firstOnly
  = (Ret (Some (errKnown (default "" (ZKHashTx (pay 1 0 "a"))))), firstOnly).
Proof.
  apply (second_payment_refused fewSlots 7 firstOnly (pay 1 0 "a")); [apply fewSlots_ok| |by vm_compute..].
  apply samples_reachable; [by apply Forall_singleton|by vm_compute].
Defined.

(** The pending list of account 1 in the busy pool. *)
Definition listOf1 : txList := default (newTxList true) (tp_pending busyPool !! accountOf 1).

Lemma removed_first_strands_rest_witness :
  exists p', removeTx (default "" (ZKHashTx (pay 1 0 "a"))) busyPool = (Ret tt, p') /\
    tp_pending p' !! accountOf 1 = None /\ unlisted p' (pay 1 1 "b") /\
    AddRemote (pay 1 1 "b") p' = (Ret (Some (errKnown (default "" (ZKHashTx (pay 1 1 "b"))))), p').
Proof.
  destruct (removed_first_strands_rest fewSlots 7 busyPool (default "" (ZKHashTx (pay 1 0 "a"))) (pay 1 0 "a") (accountOf 1)
    listOf1 fewSlots_ok busyPool_reachable) as (p'&E&Hp&Hr); [by vm_compute|by vm_compute|by vm_compute| |].
  - assert (tl_items listOf1 = {[ 0%Z := pay 1 0 "a"; 1%Z := pay 1 1 "b"; 2%Z := pay 1 2 "c" ]}) as -> by by vm_compute.
    intros n [x Hx]. rewrite !lookup_insert_Some, lookup_singleton_Some in Hx. cbn. lia.
  - exists p'. split_and!; [exact E|exact Hp|..];
      by apply (Hr 1%Z (pay 1 1 "b") (default "" (ZKHashTx (pay 1 1 "b")))); vm_compute.
Defined.

Lemma cap_loses_boundary_witness :
  priced_Cap 5 firstOnly = (Ret [], firstOnly <| tp_items := [] |>).
Proof.
  by apply (cap_loses_boundary 5 firstOnly (pay 1 0 "a") (default "" (ZKHashTx (pay 1 0 "a"))) []); vm_compute.
Defined.

(** ** Runs *)

(** What the pool reads of the sample state. *)
Definition viewOf (w : World) : chainView :=
  (fun a => mkChainAccount (ac_Nonce a) (ac_Balance a)) <$> sdb_trie (w_db w).
Definition overdraft : Transaction := zkTx TxZK TxConvert 80000 7 0 "sn".

(** The pool checks that the balance covers the fees and amount of a conversion
    and that it covers the converted value, but not that it covers both: it admits
    the conversion that stops every node when a block with it is processed. *)
Example pool_admits_overdraft :
  let p := NewTxPool DefaultTxPoolConfig 7 (Some (viewOf genesis)) 1000000 None 0 in
  let '(r, p') := AddRemote overdraft p in
  r = Ret None /\ pendingNonces p' alice = [0]%Z /\ (ApplyTransaction (ZE := sample_zk) forks 1 sealer overdraft genesis).1 = Panic.
Proof. by vm_compute. Qed.

(** The queue keeps transactions whose nonce a block has used up, because their
    removal is commented out of [promoteExecutables], and promotes them to pending
    ones. *)
Example used_nonce_promoted :
  let p := sends [pay 3 1 "z"] emptyPool in
  let state := <[accountOf 3 := mkChainAccount 2 1000000]> richState in
  let p' := (serve (REvent (ChainHeadEvent false)) (serve (RChain (Some state) 100000) p).2).2 in
  pendingNonces p (accountOf 3) = [] /\ pendingNonces p' (accountOf 3) = [1]%Z /\
  cv_GetNonce state (accountOf 3) = 2%Z.
Proof. by vm_compute. Qed.
