(* ===== verification/Miner.v ===== *)
(** * Miner: from the pool to a block

    Models [TransactionsByPriceAndNonce] of [core/types/transaction.go] and
    [Work.commitTransactions] of [miner/worker.go] with the part of
    [commitNewWork] that reads the pool and removes failed transactions from it:
    the dearest next transaction of all accounts is executed until none is left. *)
From S2P Require Import Prelude.
From S2P Require Import Messages.
From S2P Require Import StateDB.
From S2P Require Import Tx.
From S2P Require Import ZkTx.
From S2P Require Import GoHeap.
From S2P Require Import TxList.
From S2P Require Import TxListSpec.
From S2P Require Import Merkle.
From S2P Require Import CrossProof.
From S2P Require Import ManagedState.
From S2P Require Import TxPool.
From S2P Require Import TxPoolInv.
From S2P Require Import TxPoolOps.
From S2P Require Import TxPoolAdd.
From S2P Require Import TxPoolSafe.

(** ** Transactions by price and nonce *)

Record byPriceAndNonce := mkByPrice { bp_txs : gmap string (list Transaction); bp_heads : list Transaction }.

(** [TxByPrice.Less]: the dearest is on top. *)
Definition dearer (a b : Transaction) : bool := tx_Price b <? tx_Price a.

Section Miner.
Context `{GR : GoRange} `{TE : TxEnv} `{ME : MerkleEnv} `{PE : ProofEnv} `{PO : PoolEnv} `{ZE : ZkEnv}.

(** [NewTransactionsByPriceAndNonce]; an account without transactions makes it
    panic. *)
Definition NewTransactionsByPriceAndNonce (t : nat) (txs : gmap string (list Transaction)) : option byPriceAndNonce :=
  heads ← mapM (fun e => head e.2) (go_range t txs);
  Some (mkByPrice (tail <$> txs) (heap_Init dearer heads)).

Definition Peek (t : byPriceAndNonce) : option Transaction := head (bp_heads t).

(** The account [Shift] takes the head to be of: the signer is guessed from [V],
    but a sender that a [ZKSinger] has derived is in the cache for every signer. *)
Definition shiftSender (tx : Transaction) : string :=
  match derive (if tx_TxType tx =? TxZK then ZKSigner else deriveSigner (tx_V tx)) tx with
  | Ret (inr a) => a
  | _ => zeroAddress
  end.

Definition Pop (t : byPriceAndNonce) : option byPriceAndNonce :=
  r ← heap_Pop dearer (bp_heads t); Some (mkByPrice (bp_txs t) r.2).

Definition Shift (t : byPriceAndNonce) : option byPriceAndNonce :=
  tx ← head (bp_heads t);
  let acc := shiftSender tx in
  match bp_txs t !! acc with
  | Some (next :: rest) =>
      Some (mkByPrice (<[acc := rest]> (bp_txs t)) (heap_Fix dearer (<[0%nat := next]> (bp_heads t)) 0))
  | _ => Pop t
  end.

(** ** Executing them *)

(** The transactions left. *)
Definition total (t : byPriceAndNonce) : nat :=
  (length (bp_heads t) + map_fold (fun _ l n => length l + n) 0 (bp_txs t))%nat.

Context (config : ChainConfig) (number : Z) (coinbase : string) (chainId : Z) (eip155 : bool).

Definition advance (t : option byPriceAndNonce) : M Work byPriceAndNonce :=
  match t with Some t' => ret t' | None => panic end.

(** One turn of the loop of [commitTransactions]: whether the transaction failed,
    and what is left. *)
Definition mineTurn (tx : Transaction) (t : byPriceAndNonce) : M Work (bool * byPriceAndNonce) :=
  match typeSigner (EIP155Signer chainId) tx with
  | None => panic
  | Some sg =>
      match derive sg tx with
      | Ret _ =>
          if (tx_TxType tx =? TxNormal) && Protected tx && negb eip155 then t' <- advance (Pop t) ;; ret (false, t')
          else
            match ZKHashTx tx with
            | None => panic
            | Some _ =>
                err <- commitTransaction config number coinbase tx ;;
                match err with
                | None => t' <- advance (Shift t) ;; ret (false, t')
                | Some e => t' <- advance (Pop t) ;; ret (negb (bool_decide (e = ErrGasLimitReached)), t')
                end
            end
      | _ => panic
      end
  end.

Fixpoint mineLoop (fuel : nat) (t : byPriceAndNonce) (failedTxs : list Transaction) : M Work (list Transaction) :=
  match Peek t with
  | None => ret failedTxs
  | Some tx =>
      match fuel with
      | O => fun k => (OutOfFuel, k)
      | S fuel' => r <- mineTurn tx t ;; mineLoop fuel' r.2 (failedTxs ++ if r.1 : bool then [tx] else [])
      end
  end.

(** [commitTransactions]: the failed transactions. *)
Definition commitTransactions (gasLimit : Z) (t : byPriceAndNonce) : M Work (list Transaction) :=
  modify (fun k => k <| wk_world ::= fun w => mkWorld (w_db w) gasLimit |>) ;;
  mineLoop (total t) t [].

(** The part of [commitNewWork] around it. *)
Definition onPool {A} (m : M TxPool A) : M (TxPool * Work) A := fun s => let '(r, p) := m s.1 in (r, (p, s.2)).
Definition onWork {A} (m : M Work A) : M (TxPool * Work) A := fun s => let '(r, k) := m s.2 in (r, (s.1, k)).

Definition mineBlock (gasLimit : Z) : M (TxPool * Work) unit :=
  pending <- onPool Pending ;;
  t <- onPool tick ;;
  match NewTransactionsByPriceAndNonce t pending with
  | None => panic
  | Some txs => failed <- onWork (commitTransactions gasLimit txs) ;; onPool (RemoveBatch failed)
  end.

(** ** The price order *)

Lemma dearer_trans x y z : dearer y x = false -> dearer z y = false -> dearer z x = false.
Proof. unfold dearer. rewrite !Z.ltb_ge. lia. Qed.
Lemma dearer_asym x y : dearer x y = true -> dearer y x = false.
Proof. unfold dearer. rewrite Z.ltb_ge, Z.ltb_lt. lia. Qed.
Lemma Peek_dearest t x : heap dearer (bp_heads t) -> Peek t = Some x ->
  forall y, y ∈ bp_heads t -> tx_Price y <= tx_Price x.
Proof.
  intros Hh Hx y Hy. assert (bp_heads t !! 0%nat = Some x) as H0 by (unfold Peek in Hx; by destruct (bp_heads t)).
  pose proof (heap_root dearer dearer_trans dearer_asym _ x y Hh H0 Hy) as Hle. unfold le, dearer in Hle.
  by apply Z.ltb_ge in Hle.
Qed.

(** What [Pop] and [Shift] leave of the heads. *)
Lemma Pop_heads t x : heap dearer (bp_heads t) -> Peek t = Some x ->
  exists t', Pop t = Some t' /\ bp_txs t' = bp_txs t /\ bp_heads t ≡ₚ x :: bp_heads t' /\ heap dearer (bp_heads t').
Proof.
  intros Hh Hx. assert (bp_heads t !! 0%nat = Some x) as H0 by (unfold Peek in Hx; by destruct (bp_heads t)).
  destruct (Pop_spec dearer dearer_trans dearer_asym _ x Hh H0) as (l'&E&Hp&Hh'). unfold Pop. rewrite E.
  by exists (mkByPrice (bp_txs t) l').
Qed.

Lemma Shift_heads t x next rest : heap dearer (bp_heads t) -> Peek t = Some x ->
  bp_txs t !! shiftSender x = Some (next :: rest) ->
  exists t', Shift t = Some t' /\ bp_txs t' = <[shiftSender x := rest]> (bp_txs t) /\
    bp_heads t' ≡ₚ next :: tail (bp_heads t) /\ heap dearer (bp_heads t').
Proof.
  intros Hh Hx Hn. unfold Peek in Hx. unfold Shift. rewrite Hx. cbn [mbind option_bind]. rewrite Hn.
  eexists. split; [done|]. split; [done|]. cbn [bp_heads]. destruct (bp_heads t) as [|x0 l]; [done|]. split.
  - by rewrite (Fix_perm dearer).
  - apply (Fix_heap dearer dearer_trans dearer_asym); [done|cbn; lia].
Qed.

Lemma Shift_last t x : Peek t = Some x -> (forall next rest, bp_txs t !! shiftSender x <> Some (next :: rest)) ->
  Shift t = Pop t.
Proof.
  intros Hx Hn. unfold Peek in Hx. unfold Shift. rewrite Hx. cbn [mbind option_bind].
  destruct (bp_txs t !! shiftSender x) as [[|next rest]|] eqn:E; [done|by destruct (Hn next rest)|done].
Qed.

(** ** The nonce order *)

Section Order.
Context (L : gmap string (list Transaction)).
Context (owned : forall a l tx, L !! a = Some l -> tx ∈ l -> shiftSender tx = a).
Context (nodup : forall a l, L !! a = Some l -> NoDup l).

(** The transactions of [B] that are in [l]. *)
Definition partOf (l B : list Transaction) : list Transaction := List.filter (fun tx => bool_decide (tx ∈ l)) B.

(** The block has the first [k] transactions of the account; the next one is a
    head, unless the account is given up. *)
Definition account_ok (a : string) (l : list Transaction) (t : byPriceAndNonce) (B : list Transaction) : Prop :=
  exists k, partOf l B = take k l /\
    ((forall y, y ∈ bp_heads t -> y ∉ l) \/
     exists tx, l !! k = Some tx /\ tx ∈ bp_heads t /\ (forall y, y ∈ bp_heads t -> y ∈ l -> y = tx) /\
       bp_txs t !! a = Some (drop (S k) l)).

Record mine_inv (t : byPriceAndNonce) (B : list Transaction) : Prop := {
  mi_heap : heap dearer (bp_heads t);
  mi_nodup : NoDup (bp_heads t);
  mi_heads : forall y, y ∈ bp_heads t -> exists a l, L !! a = Some l /\ y ∈ l;
  mi_accounts : forall a l, L !! a = Some l -> account_ok a l t B;
  mi_block : forall y, y ∈ B -> exists a l, L !! a = Some l /\ y ∈ l;
}.

Lemma other_list a l a' l' tx : L !! a = Some l -> L !! a' = Some l' -> tx ∈ l -> tx ∈ l' -> a = a' /\ l = l'.
Proof using owned.
  intros Ha Ha' Hl Hl'. assert (a = a') as <- by (rewrite <- (owned a l tx Ha Hl); by apply (owned a' l')). split; congruence.
Qed.

(** Giving up the account of the dearest head. *)
Lemma pop_account t t' x a l B : NoDup (bp_heads t) -> bp_heads t ≡ₚ x :: bp_heads t' -> bp_txs t' = bp_txs t ->
  account_ok a l t B -> account_ok a l t' B.
Proof using Type.
  intros Hnd Hp Et (k&Ek&Hc). rewrite Hp in Hnd. apply NoDup_cons in Hnd as [Hx Hnd].
  assert (forall y, y ∈ bp_heads t' -> y ∈ bp_heads t) as Hsub by (intros y Hy; rewrite Hp; by right).
  exists k. split; [done|]. destruct Hc as [Hd|(tx&El&Htx&Hu&Er)]; [left; auto|].
  destruct (decide (tx ∈ bp_heads t')) as [Hin|Hout].
  - right. exists tx. split_and!; [done|done|auto|congruence].
  - left. intros y Hy Hyl. apply Hout. rewrite <- (Hu y); auto.
Qed.

Lemma pop_inv t x B : mine_inv t B -> Peek t = Some x -> exists t', Pop t = Some t' /\ mine_inv t' B.
Proof using Type.
  intros [Hh Hnd Hhd Hac HB] Hx. destruct (Pop_heads t x Hh Hx) as (t'&E&Et&Hp&Hh'). exists t'. split; [done|].
  split; [done| | | |done].
  - rewrite Hp in Hnd. by apply NoDup_cons in Hnd as [_ ?].
  - intros y Hy. apply Hhd. rewrite Hp. by right.
  - intros a l Hl. apply (pop_account t t' x); auto.
Qed.

Lemma Peek_elem t x : Peek t = Some x -> bp_heads t = x :: tail (bp_heads t).
Proof using Type. unfold Peek. destruct (bp_heads t); [done|]. by intros [= ->]. Qed.

Lemma partOf_nil B : partOf [] B = [].
Proof using Type. unfold partOf. by induction B. Qed.

Lemma partOf_snoc l B x : partOf l (B ++ [x]) = partOf l B ++ (if bool_decide (x ∈ l) then [x] else []).
Proof using Type. unfold partOf. rewrite List.filter_app. cbn. by destruct (bool_decide (x ∈ l)). Qed.

(** Adding the dearest head to the block. *)
Lemma shift_inv t x B : mine_inv t B -> Peek t = Some x -> exists t', Shift t = Some t' /\ mine_inv t' (B ++ [x]).
Proof using owned nodup.
  intros Hi Hx. pose proof Hi as [Hh Hnd Hhd Hac HB]. pose proof (Peek_elem t x Hx) as Eh.
  assert (x ∈ bp_heads t) as Hxh by (rewrite Eh; by left).
  assert (forall y, y ∈ B ++ [x] -> exists a l, L !! a = Some l /\ y ∈ l) as HB'
    by (intros y [Hy | ->%list_elem_of_singleton]%elem_of_app; auto).
  destruct (Hhd x Hxh) as (a0&l0&Ha0&Hx0). pose proof (owned a0 l0 x Ha0 Hx0) as Eacc.
  destruct (Hac a0 l0 Ha0) as (k&Ek&[Hd|(tx&Elk&Htx&Hu&Er)]); [by destruct (Hd x Hxh)|].
  assert (tx = x) as -> by (symmetry; by apply Hu). clear Htx.
  assert (partOf l0 (B ++ [x]) = take (S k) l0) as Ek'.
  { rewrite partOf_snoc, bool_decide_true, Ek by done. by rewrite (take_S_r _ _ x). }
  assert (forall a l, L !! a = Some l -> a <> a0 -> x ∉ l) as Hother.
  { intros a l Hl Hne Hin. by destruct (other_list a l a0 l0 x Hl Ha0 Hin Hx0) as [<- _]. }
  assert (forall a l, L !! a = Some l -> a <> a0 -> partOf l (B ++ [x]) = partOf l B) as Hpart.
  { intros a l Hl Hne. pose proof (Hother a l Hl Hne). rewrite partOf_snoc, bool_decide_false by done. apply app_nil_r. }
  destruct (drop (S k) l0) as [|next rest] eqn:Ed.
  - destruct (pop_inv t x B Hi Hx) as (t'&E&[Hh' Hnd' Hhd' Hac' _]). exists t'.
    rewrite (Shift_last t x Hx) by (intros next rest; rewrite Eacc, Er; done).
    split; [done|]. split; [done|done|done| |done]. intros a l Hl. destruct (decide (a = a0)) as [->|Hne].
    + assert (l = l0) as -> by congruence. exists (S k). split; [done|]. left. intros y Hy Hyl.
      destruct (Pop_heads t x Hh Hx) as (t2&E2&_&Hp2&_). rewrite E in E2. injection E2 as <-.
      rewrite Hp2 in Hnd. apply NoDup_cons in Hnd as [Hxn _]. apply Hxn.
      rewrite <- (Hu y); [done| |done]. rewrite Hp2. by right.
    + destruct (Hac' a l Hl) as (k'&Ek''&Hc'). exists k'. by rewrite (Hpart a l Hl Hne).
  - assert (l0 !! S k = Some next /\ drop (S (S k)) l0 = rest) as [Enext Erest].
    { split.
      - rewrite <- (Nat.add_0_r (S k)), <- lookup_drop, Ed. done.
      - change (S (S k)) with (1 + S k)%nat. rewrite Nat.add_comm, <- drop_drop, Ed. done. }
    assert (next ∈ l0) as Hnl by (by eapply list_elem_of_lookup_2).
    assert (next <> x) as Hnx.
    { intros ->. pose proof (NoDup_lookup _ _ _ _ (nodup a0 l0 Ha0) Elk Enext). lia. }
    destruct (Shift_heads t x next rest Hh Hx) as (t'&E&Et&Hp&Hh'); [by rewrite Eacc, Er|].
    rewrite Eacc in Et. exists t'. split; [done|].
    assert (forall y, y ∈ tail (bp_heads t) -> y ∈ bp_heads t) as Htl by (intros y Hy; rewrite Eh; by right).
    rewrite Eh in Hnd. apply NoDup_cons in Hnd as [Hxt Hndt].
    split; [done| | | |done].
    + rewrite Hp. apply NoDup_cons. split; [|done]. intros Hin. apply Hnx. apply Hu; auto.
    + intros y Hy. rewrite Hp in Hy. apply elem_of_cons in Hy as [->|Hy]; [by exists a0, l0|auto].
    + intros a l Hl. destruct (decide (a = a0)) as [->|Hne].
      * assert (l = l0) as -> by congruence. exists (S k). split; [done|]. right. exists next. split_and!; [done| | |].
        -- rewrite Hp. by left.
        -- intros y Hy Hyl. rewrite Hp in Hy. apply elem_of_cons in Hy as [->|Hy]; [done|].
           exfalso. apply Hxt. rewrite <- (Hu y); auto.
        -- rewrite Et, lookup_insert_eq. by rewrite Erest.
      * assert (next ∉ l) as Hnn by (intros Hin; by destruct (other_list a l a0 l0 next Hl Ha0 Hin Hnl) as [<- _]).
        pose proof (Hother a l Hl Hne) as Hxl.
        destruct (Hac a l Hl) as (k'&Ek''&Hc'). exists k'. split; [by rewrite (Hpart a l Hl Hne)|].
        destruct Hc' as [Hd|(tx&El'&Htx&Hu'&Er')]; [left|right].
        -- intros y Hy. rewrite Hp in Hy. apply elem_of_cons in Hy as [->|Hy]; auto.
        -- exists tx. split_and!; [done| | |].
           ++ rewrite Hp. right. rewrite Eh in Htx. apply elem_of_cons in Htx as [->|Htx]; [|done].
              destruct Hxl. by eapply list_elem_of_lookup_2.
           ++ intros y Hy Hyl. rewrite Hp in Hy. apply elem_of_cons in Hy as [->|Hy]; auto. done.
           ++ rewrite Et, lookup_insert_ne; done.
Qed.
(** *** The start and the loop *)

Lemma head_list l (y : Transaction) : head l = Some y -> l = y :: tail l.
Proof using Type. destruct l; [done|]. by intros [= ->]. Qed.

Lemma New_inv n t : NewTransactionsByPriceAndNonce n L = Some t -> mine_inv t [].
Proof using owned nodup.
  unfold NewTransactionsByPriceAndNonce. destruct (mapM _ _) as [heads|] eqn:Em; [|done]. cbn [mbind option_bind].
  intros [= <-]. apply mapM_Some in Em.
  assert (shiftSender <$> heads = (go_range n L).*1) as Ekeys.
  { assert (forall e, e ∈ go_range n L -> L !! e.1 = Some e.2) as Hin by (intros [a l] H; by apply go_range_elem in H).
    revert Hin. induction Em as [|[a l] y es ys Hy _ IH]; intros Hin; [done|]. cbn. f_equal.
    - apply (owned a l); [apply (Hin (a, l)); by left|]. cbn in Hy. rewrite (head_list l y Hy). by left.
    - apply IH. intros e He. apply Hin. by right. }
  assert (forall y, y ∈ heads <-> exists a l, L !! a = Some l /\ head l = Some y) as Hheads.
  { intros y. split.
    - intros (i&Hi)%list_elem_of_lookup. destruct (Forall2_lookup_r _ _ _ _ _ Em Hi) as ([a l]&He&Hy).
      exists a, l. split; [|done]. apply (go_range_elem n). by eapply list_elem_of_lookup_2.
    - intros (a&l&Hl&Hy). apply (go_range_elem n) in Hl. apply list_elem_of_lookup in Hl as (i&Hi).
      destruct (Forall2_lookup_l _ _ _ _ _ Em Hi) as (y'&Hy'&E). cbn in E. rewrite Hy in E. injection E as <-.
      by eapply list_elem_of_lookup_2. }
  assert (forall y, y ∈ heap_Init dearer heads <-> y ∈ heads) as Hinit by (intros y; by rewrite (Init_perm dearer)).
  split; cbn [bp_heads bp_txs].
  - apply (Init_heap dearer dearer_trans dearer_asym).
  - rewrite (Init_perm dearer). apply (NoDup_fmap_1 shiftSender). rewrite Ekeys. apply go_range_nodup.
  - intros y Hy%Hinit%Hheads. destruct Hy as (a&l&Hl&Hy). exists a, l. split; [done|].
    rewrite (head_list l y Hy). by left.
  - intros a l Hl. exists 0%nat. split; [done|].
    destruct (head l) as [tx|] eqn:Eh.
    + right. exists tx. pose proof (head_list l tx Eh) as El. split_and!.
      * by rewrite El.
      * apply Hinit, Hheads. by exists a, l.
      * intros y Hy%Hinit%Hheads Hyl. destruct Hy as (a'&l'&Hl'&Hy).
        destruct (other_list a' l' a l y Hl' Hl) as [_ ->]; [rewrite (head_list l' y Hy); by left|done|]. congruence.
      * cbn [bp_txs]. rewrite lookup_fmap, Hl. cbn. by rewrite El.
    + left. intros y Hy%Hinit%Hheads Hyl. destruct l; [|done]. by apply elem_of_nil in Hyl.
  - intros y Hy. by apply elem_of_nil in Hy.
Qed.

(** A turn of the miner keeps the order, whatever it ends with. *)
Lemma commit_txs tx k : exists r k', commitTransaction config number coinbase tx k = (r, k') /\
  wk_txs k' = match r with Ret None => wk_txs k ++ [tx] | _ => wk_txs k end.
Proof using Type.
  assert (forall A (m : M World A) k, wk_txs (inWorld m k).2 = wk_txs k) as Hw.
  { intros A m k0. unfold inWorld. by destruct (m (wk_world k0)). }
  unfold commitTransaction, bind at 1. pose proof (Hw _ (db Snapshot) k) as H1.
  destruct (inWorld (db Snapshot) k) as [[snap| |] k1]; cbn in H1; [|exists Panic, k1; by split|exists OutOfFuel, k1; by split].
  unfold bind at 1. pose proof (Hw _ (ApplyTransaction config number coinbase tx) k1) as H2.
  destruct (inWorld (ApplyTransaction config number coinbase tx) k1) as [[r| |] k2]; cbn in H2;
    [|exists Panic, k2; split; [done|cbn; congruence]|exists OutOfFuel, k2; split; [done|cbn; congruence]].
  destruct r as [e|gas].
  - unfold bind. pose proof (Hw _ (db (RevertToSnapshot snap)) k2) as H3.
    destruct (inWorld (db (RevertToSnapshot snap)) k2) as [[u| |] k3]; cbn in H3;
      eexists _, k3; (split; [done|]); cbn; congruence.
  - exists (Ret None). destruct (tx_TxCode tx =? TxDeposit) eqn:Ed; eexists; (split; [by unfold bind, when, modify; rewrite ?Ed|]); cbn; congruence.
Qed.

Lemma mineTurn_inv tx t k : mine_inv t (wk_txs k) -> Peek t = Some tx ->
  exists o k' t', mineTurn tx t k = (o, k') /\ mine_inv t' (wk_txs k') /\ (forall r, o = Ret r -> r.2 = t').
Proof using owned nodup.
  intros Hi Hx. unfold mineTurn. destruct (pop_inv t tx _ Hi Hx) as (tp&Ep&Hp).
  destruct (typeSigner _ tx) as [sg|]; [|by exists Panic, k, t].
  destruct (derive sg tx) as [a| |]; [|by exists Panic, k, t..].
  destruct (_ && negb eip155).
  { rewrite Ep. cbn [advance]. rewrite bind_ret. exists (Ret (false, tp)), k, tp. split_and!; [done|done|by intros ? [= <-]]. }
  destruct (ZKHashTx tx); [|by exists Panic, k, t].
  destruct (commit_txs tx k) as (r&k'&E&Ek). unfold bind at 1. rewrite E. destruct r as [[e|]| |].
  - rewrite Ep. cbn [advance]. rewrite bind_ret. eexists _, k', tp. split_and!; [done|by rewrite Ek|by intros ? [= <-]].
  - destruct (shift_inv t tx _ Hi Hx) as (ts&Es&Hs).
    rewrite Es. cbn [advance]. rewrite bind_ret. eexists _, k', ts. split_and!; [done|by rewrite Ek|by intros ? [= <-]].
  - exists Panic, k', t. split_and!; [done|by rewrite Ek|done].
  - exists OutOfFuel, k', t. split_and!; [done|by rewrite Ek|done].
Qed.

Lemma mineLoop_inv fuel t failed k : mine_inv t (wk_txs k) -> exists t', mine_inv t' (wk_txs (mineLoop fuel t failed k).2).
Proof using owned nodup.
  revert t failed k. induction fuel as [|fuel IH]; intros t failed k Hi; cbn [mineLoop];
    (destruct (Peek t) as [tx|] eqn:Ex; [|by exists t]); [by exists t|].
  destruct (mineTurn_inv tx t k Hi Ex) as (o&k'&t'&E&Hi'&Hr). unfold bind. rewrite E.
  destruct o as [r| |]; [|by exists t'..]. apply IH. by rewrite (Hr r).
Qed.

Lemma commitTransactions_order gasLimit n t k : NewTransactionsByPriceAndNonce n L = Some t -> wk_txs k = [] ->
  let B := wk_txs (commitTransactions gasLimit t k).2 in
  (forall y, y ∈ B -> exists a l, L !! a = Some l /\ y ∈ l) /\
  forall a l, L !! a = Some l -> exists m, partOf l B = take m l.
Proof using owned nodup.
  intros Ht Hk B. unfold B. unfold commitTransactions. rewrite bind_modify.
  destruct (mineLoop_inv (total t) t [] (k <| wk_world ::= fun w => mkWorld (w_db w) gasLimit |>)) as (t'&Hi).
  { change (mine_inv t (wk_txs k)). rewrite Hk. by apply (New_inv n). }
  split; [apply Hi|]. intros a l Hl. destruct (mi_accounts _ _ Hi a l Hl) as (m&Em&_). by exists m.
Qed.
End Order.

(** ** The fuel of the loop *)

Lemma total_rest (m : gmap string (list Transaction)) a x rest : m !! a = Some (x :: rest) ->
  let count := map_fold (fun _ l n => length l + n)%nat 0%nat in
  (count m = S (count (<[a := rest]> m)))%nat.
Proof.
  intros E count.
  assert (forall b l, count (<[b := l]> (delete b m)) = length l + count (delete b m))%nat as Hins.
  { intros b l. unfold count. rewrite map_fold_insert_L; [done| |apply lookup_delete_eq]. intros. lia. }
  pose proof (Hins a (x :: rest)) as H1. rewrite (insert_delete_id m a _ E) in H1.
  pose proof (Hins a rest) as H2. rewrite insert_delete_eq in H2. cbn in H1. lia.
Qed.

(** Every turn uses up a transaction. *)
Lemma Pop_total t t' x : Peek t = Some x -> Pop t = Some t' -> (S (total t') = total t)%nat.
Proof.
  unfold Peek, Pop. intros Hx. unfold heap_Pop.
  set (l := (heap_down dearer (swap (bp_heads t) 0 _) 0 _).1).
  assert (l ≡ₚ bp_heads t) as Hl by (unfold l; by rewrite heap_down_perm, swap_perm).
  destruct (slice_Pop l) as [[y l']|] eqn:E; [|done]. intros [= <-]. apply slice_Pop_perm in E.
  unfold total. cbn [bp_txs bp_heads snd]. rewrite <- (Permutation_length Hl), E. cbn. lia.
Qed.

Lemma Shift_total t t' x : Peek t = Some x -> Shift t = Some t' -> (S (total t') = total t)%nat.
Proof.
  intros Hx. destruct (bp_txs t !! shiftSender x) as [[|next rest]|] eqn:E.
  1,3: by rewrite (Shift_last t x Hx) by (intros ??; by rewrite E); apply (Pop_total t t' x).
  pose proof Hx as Hx'. unfold Peek in Hx'. unfold Shift. rewrite Hx'. cbn [mbind option_bind]. rewrite E. intros [= <-].
  unfold total. cbn [bp_txs bp_heads]. rewrite (Permutation_length (Fix_perm dearer _ _)), length_insert.
  rewrite (total_rest _ _ _ _ E). lia.
Qed.

Lemma advance_eq (o : option byPriceAndNonce) t' k k' : advance o k = (Ret t', k') -> o = Some t'.
Proof. destruct o; [|done]. by intros [= <- _]. Qed.

Lemma mineTurn_total tx t k r k' : Peek t = Some tx -> mineTurn tx t k = (Ret r, k') -> (S (total r.2) = total t)%nat.
Proof.
  intros Hx. unfold mineTurn. destruct (typeSigner _ tx) as [sg|]; [|done]. destruct (derive sg tx); [|done..].
  assert (forall o (b : bool) k k', (t' <- advance o ;; ret (b, t')) k = (Ret r, k') -> o = Some r.2) as Hadv.
  { intros o b k0 k0' (t'&k1&E&[= <- <-])%bind_inv. by apply advance_eq in E. }
  destruct (_ && negb eip155); [intros H%Hadv; by apply (Pop_total t _ tx)|].
  destruct (ZKHashTx tx); [|done]. intros ([e|]&k1&E&H)%bind_inv.
  - apply Hadv in H. by apply (Pop_total t _ tx).
  - apply Hadv in H. by apply (Shift_total t _ tx).
Qed.

(** The fuel does not run out: with one unit per transaction the loop is that with
    any larger number. *)
Lemma mineLoop_fuel n m t failed k : (total t <= n)%nat -> (total t <= m)%nat ->
  mineLoop n t failed k = mineLoop m t failed k.
Proof.
  revert m t failed k. induction n as [|n IH]; intros m t failed k Hn Hm; destruct m as [|m]; cbn [mineLoop];
    destruct (Peek t) as [tx|] eqn:Ex; try done.
  1,2: exfalso; unfold Peek in Ex; unfold total in *; destruct (bp_heads t); [done|cbn in *; lia].
  unfold bind. destruct (mineTurn tx t k) as [[r| |] k'] eqn:E; [|done..].
  pose proof (mineTurn_total tx t k r k' Ex E). apply IH; lia.
Qed.
(** ** The sender that [Shift] derives *)

(** Where [Shift] finds the account of a transaction: not for HIBE signatures,
    and the identity of the chain must not be that of an unsigned transaction. *)
Definition shiftable (tx : Transaction) : Prop := tx_TxType tx = TxNormal \/ tx_TxType tx = TxZK.

Lemma shift_owner tx a : 0 <= chainId < 2 ^ 62 -> shiftable tx -> sender_of chainId tx a -> shiftSender tx = a.
Proof.
  intros Hc Ht (sg&Es&Ed). unfold shiftSender, typeSigner in *.
  destruct Ht as [Et|Et]; rewrite Et in *; cbn in Es; injection Es as <-; cbn [Z.eqb TxZK TxNormal Pos.eqb].
  2: by rewrite Ed.
  enough (derive (deriveSigner (tx_V tx)) tx = derive (EIP155Signer chainId) tx) as -> by by rewrite Ed.
  unfold deriveSigner. destruct (isProtectedV (tx_V tx)) eqn:Ep.
  - unfold derive in Ed. cbn [PublicKey] in Ed. unfold Protected in Ed. rewrite Ep in Ed. cbn [negb] in Ed.
    destruct (Z.eqb_spec (deriveChainId (tx_V tx)) chainId) as [Ech|]; [|done].
    destruct (Z.eqb_spec (tx_V tx) 0) as [E0|]; [|cbn [negb andb]; by rewrite Ech].
    exfalso. rewrite E0 in Ech. vm_compute in Ech. lia.
  - rewrite andb_false_r. unfold derive. cbn [PublicKey]. unfold Protected. by rewrite Ep.
Qed.

(** Without an ECDSA signature the derivation fails, and its error is ignored. *)
Lemma shiftSender_unsigned tx : tx_TxType tx <> TxZK -> tx_V tx = 0 -> shiftSender tx = zeroAddress.
Proof.
  intros Ht%Z.eqb_neq Hv.
  unfold shiftSender. rewrite Ht, Hv. change (deriveSigner 0) with HomesteadSigner.
  assert (homesteadKey tx = inl ErrInvalidSig) as E; [|unfold derive; cbn [PublicKey]; by rewrite E].
  unfold homesteadKey, recoverKey, ValidateSignatureValues. rewrite Hv. change (byte_of (0 - 27)) with 229.
  destruct (_ || _); [done|]. destruct (true && _); [done|]. by rewrite andb_false_r.
Qed.

(** The heads that HIBE signatures sign carry none, so [Shift] finds no account:
    after such a transaction it drops the others of its account like [Pop]. *)
Theorem hibe_account_dropped t tx : Peek t = Some tx -> tx_TxType tx = TxDhibe -> tx_V tx = 0 ->
  bp_txs t !! zeroAddress = None -> Shift t = Pop t.
Proof.
  intros Hx Ht Hv Hz. apply (Shift_last t tx Hx). rewrite (shiftSender_unsigned tx); [by rewrite Hz|by rewrite Ht|done].
Qed.

(** ** From the pool *)

(** The lists that [Pending] returns. *)
Lemma pending_owned p m : pool_inv p -> tp_chainId p = chainId -> 0 <= chainId < 2 ^ 62 ->
  (forall a n tx, items_at (tp_pending p) a !! n = Some tx -> shiftable tx) -> sorted_lists (tp_pending p) m ->
  (forall a l tx, m !! a = Some l -> tx ∈ l -> shiftSender tx = a) /\ (forall a l, m !! a = Some l -> NoDup l).
Proof.
  intros Hi Ech Hc Hs Hm.
  assert (forall a l, m !! a = Some l -> exists t, tp_pending p !! a = Some t /\ l = flat (tl_items t)) as Hl.
  { intros a l Hl. rewrite Hm in Hl. apply fmap_Some in Hl as (t&Et&->). by exists t. }
  split.
  - intros a l tx (t&Et&->)%Hl Htx. destruct (inv_pending p Hi a t Et) as (Hw&_&Hall).
    apply flat_elem in Htx; [|apply Hw]. destruct (Hall _ _ Htx) as ([Hg _ _]&_). rewrite Ech in Hg.
    apply shift_owner; [done| |done]. apply (Hs a (tx_AccountNonce tx)). unfold items_at. by rewrite Et.
  - intros a l (t&Et&->)%Hl. destruct (inv_pending p Hi a t Et) as (Hw&_).
    apply (NoDup_fmap_1 tx_AccountNonce). by apply nonces_flat_NoDup, Hw.
Qed.

Lemma onPool_runs {A B} (m : M TxPool A) (f : A -> M (TxPool * Work) B) p k a p' : runs m p a p' ->
  bind (onPool m) f (p, k) = f a (p', k).
Proof. unfold runs, bind, onPool. cbn. by intros ->. Qed.

(** C39: a block in the order of the nonces: what it has of the pending list of an
    account is the first part of it, without gaps, and it has nothing else.  The
    block is what is left at the end, however the composition ends.  With HIBE
    transactions [Shift] does not find the account; see [hibe_account_dropped]. *)
Theorem mined_nonce_order c p k gasLimit : config_ok c -> reachable c chainId p -> 0 <= chainId < 2 ^ 62 ->
  (forall a n tx, items_at (tp_pending p) a !! n = Some tx -> shiftable tx) -> wk_txs k = [] ->
  let B := wk_txs (mineBlock gasLimit (p, k)).2.2 in
  (forall y, y ∈ B -> exists a, y ∈ flat (items_at (tp_pending p) a)) /\
  forall a, exists n, partOf (flat (items_at (tp_pending p) a)) B = take n (flat (items_at (tp_pending p) a)).
Proof.
  intros Hcfg Hr Hc Hs Hk B. destruct (reachable_inv c chainId p Hcfg Hr) as (Hi&_&Ech).
  destruct (Pending_runs p Hi) as (m&p1&E1&_&Hm). destruct (tick_runs p1) as (t&p2&E2&_).
  destruct (pending_owned p m Hi Ech Hc Hs Hm) as [Hown Hnd].
  assert (forall a l, m !! a = Some l -> l = flat (items_at (tp_pending p) a)) as Hl.
  { intros a l Hl. rewrite Hm in Hl. apply fmap_Some in Hl as (u&Eu&->). unfold items_at. by rewrite Eu. }
  assert ((forall y, y ∈ B -> exists a l, m !! a = Some l /\ y ∈ l) /\
          forall a l, m !! a = Some l -> exists n, partOf l B = take n l) as [HB Hp].
  { unfold B, mineBlock. rewrite (onPool_runs _ _ _ _ _ _ E1), (onPool_runs _ _ _ _ _ _ E2).
    destruct (NewTransactionsByPriceAndNonce t m) as [txs|] eqn:Et.
    - pose proof (commitTransactions_order m Hown Hnd gasLimit t txs k Et Hk) as H.
      unfold bind, onWork, onPool. cbn [fst snd]. destruct (commitTransactions gasLimit txs k) as [[f| |] k']; [|done..].
      cbn [fst snd] in *. by destruct (RemoveBatch f p2).
    - cbn. rewrite Hk. split; [intros y Hy; by apply elem_of_nil in Hy|by intros a l _; exists 0%nat]. }
  split.
  - intros y (a&l&Ha&Hy)%HB. exists a. by rewrite <- (Hl a l).
  - intros a. destruct (m !! a) as [l|] eqn:Ea; [rewrite <- (Hl a l Ea); by apply (Hp a l)|].
    exists 0%nat. rewrite Hm in Ea. apply fmap_None in Ea. unfold items_at. rewrite Ea. change (flat (from_option tl_items ∅ None)) with (@nil Transaction).
    by rewrite partOf_nil.
Qed.

(** ** The composition ends *)

Definition ends {W A} (m : M W A) : Prop := forall s, (m s).1 <> OutOfFuel.

Lemma ends_ret {W A} (a : A) : ends (W := W) (ret a). Proof. done. Qed.
Lemma ends_bind {W A B} (m : M W A) (f : A -> M W B) : ends m -> (forall a, ends (f a)) -> ends (bind m f).
Proof. intros Hm Hf s. unfold bind. specialize (Hm s). destruct (m s) as [[a| |] s']; [apply Hf|done|done]. Qed.
Lemma ends_when {W} b (m : M W unit) : ends m -> ends (when b m).
Proof. by destruct b. Qed.
Lemma ends_db {A} (m : M StateDB A) : ends m -> ends (db m).
Proof. intros Hm w. unfold db. specialize (Hm (w_db w)). by destruct (m (w_db w)). Qed.
Lemma ends_inWorld {A} (m : M World A) : ends m -> ends (inWorld m).
Proof. intros Hm w. unfold inWorld. specialize (Hm (wk_world w)). by destruct (m (wk_world w)). Qed.
Lemma ends_for_each {W A} (l : list A) (f : A -> M W unit) : (forall a, ends (f a)) -> ends (for_each l f).
Proof. intros Hf. induction l as [|a l IH]; [done|]. cbn. by apply ends_bind. Qed.

(** Goes through a computation down to the machine. *)
Ltac head_of m := lazymatch m with ?f _ => head_of f | _ => m end.
Ltac ends_step :=
  lazymatch goal with
  | |- ends (bind _ _) => apply ends_bind; [|intros ?]
  | |- ends (when _ _) => apply ends_when
  | |- ends (for_each _ _) => apply ends_for_each; intros ?
  | |- ends (db _) => apply ends_db
  | |- ends (inWorld _) => apply ends_inWorld
  | |- ends (vm_run _ _ _ _ _) => auto
  | |- ends (let x := _ in _) => cbv zeta
  | |- ends (match ?x with _ => _ end) => destruct x
  | |- ends ?m => let h := head_of m in
      first [constr_eq h (@ret); done | unfold h]
  end.
Ltac ends_auto := repeat first [ends_step | by intros ?].

Context (vm_ends : forall a code input gas value, ends (vm_run a code input gas value)).

Lemma commitTransaction_ends tx : ends (commitTransaction config number coinbase tx).
Proof using vm_ends. ends_auto. Qed.

Lemma mineTurn_ends tx t : ends (mineTurn tx t).
Proof using vm_ends.
  unfold mineTurn. destruct (typeSigner _ tx) as [sg|]; [|done]. destruct (derive sg tx); [|done..].
  assert (forall o (b : bool), ends (t' <- advance o ;; ret (b, t'))) as Ha by (intros [o|] b; ends_auto).
  destruct (_ && negb eip155); [apply Ha|]. destruct (ZKHashTx tx); [|done].
  apply ends_bind; [apply commitTransaction_ends|]. intros [e|]; apply Ha.
Qed.

(** One unit of fuel for each transaction is enough for the loop. *)
Lemma mineLoop_ends fuel t failed : (total t <= fuel)%nat -> ends (mineLoop fuel t failed).
Proof using vm_ends.
  revert t failed. induction fuel as [|fuel IH]; intros t failed Hn k; cbn [mineLoop];
    (destruct (Peek t) as [tx|] eqn:Ex; [|done]).
  - exfalso. unfold Peek in Ex. unfold total in Hn. destruct (bp_heads t); [done|cbn in Hn; lia].
  - pose proof (mineTurn_ends tx t k) as He. unfold bind. destruct (mineTurn tx t k) as [[r| |] k'] eqn:E; [|done..].
    pose proof (mineTurn_total tx t k r k' Ex E). apply IH. lia.
Qed.

(** The miner composes a block from every pool that requests can reach, if the
    interpreter of contracts ends: the loop over the heads ends for every set of
    pending transactions, and the pool serves the two requests. *)
Theorem mining_ends c p k gasLimit : config_ok c -> reachable c chainId p -> Z.of_nat (size (tp_all p)) < two64 ->
  (mineBlock gasLimit (p, k)).1 <> OutOfFuel.
Proof using vm_ends.
  intros Hcfg Hr Hsz. destruct (reachable_inv c chainId p Hcfg Hr) as (Hi&Ec&_).
  destruct (Pending_runs p Hi) as (m&p1&E1&Hs1&_). destruct (tick_runs p1) as (t&p2&E2&Hq2&It2).
  assert (step_ok p p2) as Hs2 by (eapply step_trans; [exact Hs1|]; apply quiet_step; [apply Hs1|done|done]).
  unfold mineBlock. rewrite (onPool_runs _ _ _ _ _ _ E1), (onPool_runs _ _ _ _ _ _ E2).
  destruct (NewTransactionsByPriceAndNonce t m) as [txs|]; [|done].
  assert (ends (commitTransactions gasLimit txs)) as He by (apply ends_bind; [done|intros ?; by apply mineLoop_ends]).
  specialize (He k). unfold bind, onWork, onPool. cbn [fst snd].
  destruct (commitTransactions gasLimit txs k) as [[f| |] k']; [|done..]. cbn [fst snd].
  pose proof (step_keeps _ _ Hs2) as [Hi2 Ec2 _ Hsz2].
  destruct (serve_safe (RRemoveBatch f) p2) as [Hend _]; [split; [constructor|cbn; lia]|done|rewrite Ec2, Ec; by apply sanitize_ok|].
  change (serve (RRemoveBatch f)) with (RemoveBatch f) in Hend. by destruct (RemoveBatch f p2).
Qed.
End Miner.
