(* ===== verification/MinerScenarios.v ===== *)
(** * MinerScenarios: blocks mined from the sample pool

    Instances of the theorems of [Miner] in the sample environment of
    [TxPoolScenarios], and runs of the whole composition. *)
From S2P Require Import Prelude.
From S2P Require Import Messages.
From S2P Require Import StateDB.
From S2P Require Import Tx.
From S2P Require Import ZkTx.
From S2P Require Import ZkScenarios.
From S2P Require Import GoHeap.
From S2P Require Import TxList.
From S2P Require Import TxListSpec.
From S2P Require Import Merkle.
From S2P Require Import CrossProof.
From S2P Require Import TxPool.
From S2P Require Import TxPoolInv.
From S2P Require Import TxPoolOps.
From S2P Require Import TxPoolSafe.
From S2P Require Import TxPoolScenarios.
From S2P Require Import Miner.

Local Open Scope string_scope.
#[local] Existing Instances recoverEnv sampleMerkle sampleProofs samplePool sample_zk.

(** The state of the block: the accounts that the pool reads. *)
Definition richWorld : World :=
  mkWorld (New ((fun a => mkAccount (ca_nonce a) (ca_balance a) zeroHash EmptyString) <$> richState)) 0.
Definition emptyWork : Work := mkWork richWorld [] [].
Definition mined (p : TxPool) : list Transaction := wk_txs (mineBlock forks 1 sealer 7 true 100000 (p, emptyWork)).2.2.

(** Account 1 offers a bad price for its second transaction: it comes last. *)
Definition pricedPool : TxPool :=
  sends [payTx 1 0 9 "a" (Some bob); payTx 1 1 2 "b" (Some bob); payTx 2 0 5 "c" (Some bob)] emptyPool.
Example mined_by_price : tx_ZKSN <$> mined pricedPool = ["a"; "c"; "b"].
Proof. by vm_compute. Qed.

Example outcome_priced : (mineBlock forks 1 sealer 7 true 100000 (pricedPool, emptyWork)).1 = Ret tt.
Proof. by vm_compute. Qed.

(** The second transaction of a HIBE account stays in the pool. *)
Definition hibeTx (nonce : Z) (sn : string) : Transaction :=
  (newTransaction nonce (Some bob) 1 30000 1 "") <| tx_TxType := TxDhibe |> <| tx_Sender := Some alice |>
    <| tx_ZKSN := sn |> <| tx_HibeSig := Some "signature" |>.
Definition hibePool : TxPool := sends [hibeTx 0 "a"; hibeTx 1 "b"] emptyPool.
Example hibe_account_mined_once :
  pendingNonces hibePool alice = [0; 1]%Z /\ tx_AccountNonce <$> mined hibePool = [0]%Z.
Proof. by vm_compute. Qed.

(** ** Instances of the theorems *)

Lemma pricedPool_reachable : reachable fewSlots 7 pricedPool.
Proof. apply samples_reachable; [by repeat constructor|done]. Qed.

Lemma hibePool_reachable : reachable fewSlots 7 hibePool.
Proof. apply samples_reachable; [by repeat constructor|done]. Qed.

Lemma all_normal p : forallb (fun e => forallb (fun x => tx_TxType x.2 =? TxNormal)%Z (map_to_list (tl_items e.2)))
    (map_to_list (tp_pending p)) = true ->
  forall a n tx, items_at (tp_pending p) a !! n = Some tx -> shiftable tx.
Proof.
  intros H a n tx Hx. unfold items_at in Hx. destruct (tp_pending p !! a) as [l|] eqn:El; [|done]. left.
  rewrite forallb_forall in H. apply elem_of_map_to_list in El. apply elem_of_map_to_list in Hx.
  specialize (H (a, l)). rewrite <- list_elem_of_In in H. specialize (H El). rewrite forallb_forall in H.
  specialize (H (n, tx)). rewrite <- list_elem_of_In in H. by apply Z.eqb_eq, H.
Qed.

Lemma mined_nonce_order_witness :
  (forall y, y ∈ mined pricedPool -> exists a, y ∈ flat (items_at (tp_pending pricedPool) a)) /\
  exists n, partOf (flat (items_at (tp_pending pricedPool) (accountOf 1))) (mined pricedPool)
            = take n (flat (items_at (tp_pending pricedPool) (accountOf 1))).
Proof.
  destruct (mined_nonce_order forks 1 sealer 7 true fewSlots pricedPool emptyWork 100000) as [H1 H2];
    [apply fewSlots_ok|apply pricedPool_reachable|done|apply all_normal; by vm_compute|done|].
  split; [exact H1|exact (H2 (accountOf 1))].
Defined.

Lemma mining_ends_witness : (mineBlock forks 1 sealer 7 true 100000 (hibePool, emptyWork)).1 <> OutOfFuel.
Proof.
  apply (mining_ends forks 1 sealer 7 true) with (c := fewSlots);
    [done|apply fewSlots_ok|apply hibePool_reachable|by vm_compute].
Defined.

Definition hibeHeads : byPriceAndNonce :=
  mkByPrice {[ alice := [hibeTx 1 "b"] ]} [hibeTx 0 "a"].
Lemma hibe_account_dropped_witness : Shift hibeHeads = Some (mkByPrice {[ alice := [hibeTx 1 "b"] ]} []).
Proof. rewrite (hibe_account_dropped hibeHeads (hibeTx 0 "a")); by vm_compute. Defined.
