(* ===== verification/Hibe.v ===== *)
(** * Hibe: the hierarchical threshold signatures

    Models the arithmetic of [hibe/dhibe_Cap.go]: key generation ([Setup],
    [ShadowGen], [KeyRecon]) and threshold signing ([ShadowSign], [SignRecon],
    [Verify]).  The groups of the pairing library are of prime order: exponents
    form a field [F], the group [G] is written additively as a module over it
    ([PowZn g a] is [a *: g], [Mul] is [+], [Set1] is [0]), and so is the target
    group; the pairing is a bilinear symmetric map.  Byte strings are sequences
    of numbers; the first four bytes of SHA-256 are a function of the input.  An
    index out of range, which panics, gives [None].  This file is on MathComp and
    stands apart from the others. *)
Set Warnings "-notation-overridden,-ambiguous-paths,-rewrite-rw".
From mathcomp Require Import boot algebra.

Set Implicit Arguments.
Unset Strict Implicit.
Unset Printing Implicit Defensive.

Import GRing.Theory.
Local Open Scope ring_scope.

(** ** Polynomials and Lagrange coefficients *)

Section Field.
Variable F : fieldType.

(** [PIz]: the product of a slice of exponents (none of them nil here). *)
Definition PIz (vals : seq F) : F := foldl (fun accum v => accum * v) 1 vals.

(** [C]: the value at an index of the polynomial with the given coefficients
    and no constant term, by Horner's rule. *)
Definition C (Cs : seq F) (index : nat) : F :=
  foldl (fun acc coef => (acc + coef) * index%:R) 0 Cs.

(** The slice without the element at an index. *)
Definition others (xs : seq F) (i : nat) : seq F := take i xs ++ drop i.+1 xs.

(** [L]: the Lagrange coefficient at zero of the [i]-th node. *)
Definition L (xs : seq F) (i : nat) : F :=
  PIz (others xs i) / PIz [seq o - nth 0 xs i | o <- others xs i].

(** The nodes of a selection of indexes ([SetInt32] of each). *)
Definition nodes (sel : seq nat) : seq F := [seq j%:R | j <- sel].

Lemma PIzE vals : PIz vals = \prod_(v <- vals) v.
Proof.
  suff H a : foldl (fun accum v => accum * v) a vals = a * \prod_(v <- vals) v by rewrite /PIz H mul1r.
  elim: vals a => [|v vals IH] a /=; first by rewrite big_nil mulr1.
  by rewrite IH big_cons mulrA.
Qed.

(** The polynomial [C] evaluates: the first coefficient has the highest power. *)
Definition polyC_of (Cs : seq F) : {poly F} := 'X * Poly (rev Cs).

Lemma C_horner Cs i : C Cs i = (polyC_of Cs).[i%:R].
Proof.
  rewrite /polyC_of hornerM hornerX /C; elim/last_ind: Cs => [|Cs c IH].
    by rewrite /= horner0 mulr0.
  by rewrite -cats1 foldl_cat /= IH rev_cat /= horner_cons mulrC [_ * (Poly _).[_]]mulrC.
Qed.

Lemma size_polyC_of Cs : (size (polyC_of Cs) <= (size Cs).+1)%N.
Proof.
  rewrite /polyC_of; apply: leq_trans (size_polyMleq _ _) _.
  rewrite size_polyX /= ltnS; apply: leq_trans (size_Poly _) _; by rewrite size_rev.
Qed.

Lemma polyC_of0 Cs : (polyC_of Cs).[0] = 0.
Proof. by rewrite /polyC_of hornerM hornerX mul0r. Qed.

(** ** Interpolation at zero *)

(** The Lagrange polynomial of the [i]-th node. *)
Definition ell (xs : seq F) (i : nat) : {poly F} :=
  \prod_(o <- others xs i) ((nth 0 xs i - o)^-1 *: ('X - o%:P)).

Lemma ell_horner xs i x :
  (ell xs i).[x] = \prod_(o <- others xs i) ((nth 0 xs i - o)^-1 * (x - o)).
Proof.
  rewrite /ell horner_prod; apply: eq_bigr => o _.
  by rewrite hornerZ hornerXsubC.
Qed.

Lemma L_ell xs i : L xs i = (ell xs i).[0].
Proof.
  rewrite ell_horner /L !PIzE big_map -prodf_div; apply: eq_bigr => o _.
  by rewrite sub0r mulrN -mulNr -invrN opprB mulrC.
Qed.

Lemma mem_others xs i j :
  uniq xs -> (i < size xs)%N -> (j < size xs)%N -> (nth 0 xs j \in others xs i) = (i != j).
Proof.
  move=> Hu Hi Hj; have Hs : xs = take i xs ++ nth 0 xs i :: drop i.+1 xs.
    by rewrite -drop_nth // cat_take_drop.
  have Hrem : rem (nth 0 xs i) xs =i others xs i.
    move=> z; rewrite (rem_filter _ Hu) mem_filter /others {2}Hs !mem_cat in_cons /=.
    have := Hu; rewrite {1}Hs cat_uniq /= => /and3P [_ Hn /andP [Hd _]].
    case: (z =P nth 0 xs i) => [->|_] //=.
    move: Hn; rewrite negb_or => /andP [/negbTE Ht _].
    by rewrite Ht (negbTE Hd).
  by rewrite -Hrem (rem_filter _ Hu) mem_filter /= mem_nth // andbT nth_uniq // eq_sym.
Qed.

Lemma ell_node xs i j :
  uniq xs -> (i < size xs)%N -> (j < size xs)%N -> (ell xs i).[nth 0 xs j] = (i == j)%:R.
Proof.
  move=> Hu Hi Hj; rewrite ell_horner; case: eqP => [<-|/eqP Hij].
    rewrite big_seq big1 // => o Ho; rewrite mulVf // subr_eq0.
    by apply: contraTneq Ho => <-; rewrite mem_others // eqxx.
  have Hin : nth 0 xs j \in others xs i by rewrite mem_others.
  by rewrite (big_rem _ Hin) /= subrr mulr0 mul0r.
Qed.

Lemma size_others xs i : (i < size xs)%N -> size (others xs i) = (size xs).-1.
Proof.
  move=> Hi; rewrite /others size_cat size_take Hi size_drop.
  by case: (size xs) Hi => [//|n]; rewrite ltnS subSS /=; apply: subnKC.
Qed.

Lemma size_ell xs i : (i < size xs)%N -> (size (ell xs i) <= size xs)%N.
Proof.
  move=> Hi; rewrite /ell.
  have Hsz (l : seq F) :
    (size (\prod_(o <- l) ((nth 0 xs i - o)^-1 *: ('X - o%:P)))%R <= (size l).+1)%N.
    elim: l => [|o l IH]; first by rewrite big_nil size_polyC oner_neq0.
    rewrite big_cons; apply: leq_trans (size_polyMleq _ _) _.
    rewrite -subn1 leq_subLR -[X in (_ <= X)%N]/(2 + (size l).+1)%N leq_add //.
    by apply: leq_trans (size_scale_leq _ _) _; rewrite size_XsubC.
  by apply: leq_trans (Hsz _) _; rewrite size_others // prednK //; apply: leq_ltn_trans Hi.
Qed.

(** Interpolation: a polynomial with no more coefficients than there are nodes is
    determined by its values there; its value at zero is the sum with the
    coefficients [L]. *)
Lemma interpolate_zero (p : {poly F}) xs :
  uniq xs -> (size p <= size xs)%N ->
  \sum_(i < size xs) L xs i * p.[nth 0 xs i] = p.[0].
Proof.
  move=> Hu Hp; pose q := \sum_(i < size xs) p.[nth 0 xs i] *: ell xs i - p.
  have Hq0 : q = 0.
    apply: (@roots_geq_poly_eq0 _ q xs) => //.
      apply/allP => x /(nthP 0) [j Hj <-]; rewrite /root /q hornerD hornerN horner_sum subr_eq0.
      rewrite (bigD1 (Ordinal Hj)) //= hornerZ ell_node // eqxx mulr1 big1 ?addr0 // => i Hi.
      by rewrite hornerZ ell_node // (_ : (i == j :> nat) = false) ?mulr0 //; apply/negbTE.
    rewrite /q; apply: leq_trans (size_polyD _ _) _; rewrite geq_max size_polyN Hp andbT.
    apply: leq_trans (size_sum _ _ _) _; apply/bigmax_leqP => i _.
    by apply: leq_trans (size_scale_leq _ _) _; apply: size_ell.
  have : q.[0] = 0 by rewrite Hq0 horner0.
  rewrite /q hornerD hornerN horner_sum => /eqP; rewrite subr_eq0 => /eqP <-.
  by apply: eq_bigr => i _; rewrite hornerZ L_ell mulrC.
Qed.
End Field.

(** ** Keys and signatures *)

Section Keys.
Variables (F : fieldType) (G : lmodType F).

Record MasterPublicKey := MkMpk {
  MaxDepth : nat;
  mG : G; mG1 : G; mG2 : G; mG3 : G;
  mH : seq G;
}.

Record SecretShadow := MkShadow { A0 : G; A1 : G; B : seq G }.

Record SIG := MkSIG { sX : G; sY : G; sZ : G }.

(** [PIg]: the product of a slice of group elements. *)
Definition PIg (vals : seq G) : G := foldl (fun accum v => accum + v) 0 vals.

Lemma PIgE vals : PIg vals = \sum_(v <- vals) v.
Proof.
  suff H a : foldl (fun accum v => accum + v) a vals = a + \sum_(v <- vals) v by rewrite /PIg H add0r.
  elim: vals a => [|v vals IH] a /=; first by rewrite big_nil addr0.
  by rewrite IH big_cons addrA.
Qed.

(** [Setup], given its random choices: the generators, the secret [alpha], the
    public elements of the levels and the coefficients [poly] of [GenCoef], one
    fewer than the threshold. *)
Definition Setup (maxDepth numOfLevel0 thresholdOfLevel0 : nat)
    (g g2 g3 : G) (alpha : F) (h : seq G) (poly : seq F)
    : option (MasterPublicKey * seq SecretShadow) :=
  if (numOfLevel0 < thresholdOfLevel0)%N then None
  else
    let mpk := MkMpk maxDepth g (alpha *: g) g2 g3 h in
    let mss := [seq MkShadow ((C poly index + alpha) *: g2) 0 (nseq maxDepth 0)
               | index <- iota 1 numOfLevel0] in
    Some (mpk, mss).

(** The product [H_0^I_0 ... H_(n-1)^I_(n-1)] times [G3]. *)
Definition prodHI (mpk : MasterPublicKey) (I : seq F) (n : nat) : G :=
  foldl (fun prod i => prod + nth 0 I i *: nth 0 (mH mpk) i) 0 (iota 0 n) + mG3 mpk.

(** [ShadowGen]: the share of an upper-level authority for a node; [I] is
    [hashID(ID)]. *)
Definition ShadowGen (ss : SecretShadow) (mpk : MasterPublicKey) (Cs : seq F) (r : F)
    (I : seq F) (index level : nat) : option SecretShadow :=
  if [&& 0 < level, level <= MaxDepth mpk, MaxDepth mpk <= size (mH mpk),
         level <= size I & MaxDepth mpk - level < size (B ss)]%N
  then
    let Ck := C Cs index in
    let a0 := A0 ss + Ck *: mG2 mpk in
    let a0 := a0 + Ck *: prodHI mpk I level.-1 in
    let a0 := a0 + r *: prodHI mpk I level in
    let a0 := a0 + nth 0 I level.-1 *: nth 0 (B ss) 0 in
    let a0 := a0 + Ck *: (nth 0 I level.-1 *: nth 0 (mH mpk) level.-1) in
    let expon := Ck + r in
    let a1 := A1 ss + expon *: mG mpk in
    let b := [seq nth 0 (B ss) i.+1 + expon *: nth 0 (mH mpk) (level + i)%N
             | i <- iota 0 (MaxDepth mpk - level)] in
    Some (MkShadow a0 a1 b)
  else None.

(** [KeyRecon]: shares combined with the Lagrange coefficients of the selected
    indexes. *)
Definition combine (sel : seq nat) (vals : seq G) : G :=
  PIg [seq L (nodes F sel) i *: nth 0 vals i | i <- iota 0 (size sel)].

Definition KeyRecon (Ss : seq SecretShadow) (SelectedNodes : seq nat) : option SecretShadow :=
  match Ss with
  | [::] => None
  | S0 :: _ =>
      let bNum := size (B S0) in
      if (size SelectedNodes <= size Ss)%N
         && all (fun Sh => bNum <= size (B Sh))%N (take (size SelectedNodes) Ss)
      then Some (MkShadow (combine SelectedNodes (map A0 Ss)) (combine SelectedNodes (map A1 Ss))
                   [seq combine SelectedNodes [seq nth 0 (B Sh) j | Sh <- Ss] | j <- iota 0 bNum])
      else None
  end.

(** [h3]: the first four bytes of the message as an exponent of the generator;
    a shorter message panics. *)
Definition be32 (M : seq nat) : nat := foldl (fun acc b => (acc * 256 + b)%N) 0%N (take 4 M).

Definition h3 (M : seq nat) (mpk : MasterPublicKey) : option G :=
  if (4 <= size M)%N then Some ((be32 M)%:R *: mG mpk) else None.

(** [ShadowSign]. *)
Definition ShadowSign (sks : SecretShadow) (mpk : MasterPublicKey) (M : seq nat) (s : F) : option SIG :=
  match h3 M mpk with
  | Some h => Some (MkSIG (A0 sks + s *: h) (A1 sks) (s *: mG mpk))
  | None => None
  end.

(** [SignRecon]. *)
Definition SignRecon (PartialSIG : seq SIG) (SelectedNodes : seq nat) : option SIG :=
  if (size SelectedNodes <= size PartialSIG)%N
  then Some (MkSIG (combine SelectedNodes (map sX PartialSIG)) (combine SelectedNodes (map sY PartialSIG))
               (combine SelectedNodes (map sZ PartialSIG)))
  else None.

(** [hashID]: the exponents of an identity, two bytes per level; [sha4] is the
    number formed by the first four bytes of SHA-256. *)
Definition hashID (sha4 : seq nat -> nat) (ID : seq nat) : seq F :=
  [seq (sha4 (take 2 (drop (i * 2)%N ID)))%:R | i <- iota 0 (size ID)./2].

(** [Verify], with the pairing [e]. *)
Definition Verify (GT : lmodType F) (e : G -> G -> GT) (mpk : MasterPublicKey) (I : seq F)
    (M : seq nat) (level : nat) (sig : SIG) : option bool :=
  match h3 M mpk with
  | Some h =>
      if (level <= size (mH mpk))%N && (level <= size I)%N
      then Some (e (mG mpk) (sX sig) ==
                 e (mG1 mpk) (mG2 mpk) + e (sY sig) (prodHI mpk I level) + e (sZ sig) h)
      else None
  | None => None
  end.
End Keys.

(** ** The hierarchy of keys *)

Section Scheme.
Variables (F : fieldType) (G GT : lmodType F) (e : G -> G -> GT).

(** The pairing of the library is bilinear and, on this curve, symmetric. *)
Hypothesis pairD : forall x y z, e (x + y) z = e x z + e y z.
Hypothesis pairZ : forall a x y, e (a *: x) y = a *: e x y.
Hypothesis pairC : forall x y, e x y = e y x.

Variables (mpk : MasterPublicKey G) (alpha : F) (I : seq F).
Hypothesis alphaG : mG1 mpk = alpha *: mG mpk.

(** [K] is a key of the level with secret exponent [s] and randomness [rho]
    (0 at the root). *)
Definition wf_shadow (level : nat) (s rho : F) (K : SecretShadow G) : Prop :=
  [/\ A0 K = s *: mG2 mpk + rho *: prodHI mpk I level,
      A1 K = rho *: mG mpk,
      size (B K) = (MaxDepth mpk - level)%N &
      forall j, (j < MaxDepth mpk - level)%N ->
        nth 0 (B K) j = rho *: nth 0 (mH mpk) (level + j)%N].

Lemma prodHI_succ n : prodHI mpk I n.+1 = prodHI mpk I n + nth 0 I n *: nth 0 (mH mpk) n.
Proof. by rewrite /prodHI -addn1 iotaD foldl_cat /= add0n addrAC. Qed.

(** A share of a well-formed key is a well-formed key of the next level. *)
Lemma ShadowGen_wf level s rho ss Cs r index :
  (level < MaxDepth mpk)%N -> (MaxDepth mpk <= size (mH mpk))%N -> (level < size I)%N ->
  wf_shadow level s rho ss ->
  exists2 K, ShadowGen ss mpk Cs r I index level.+1 = Some K &
    wf_shadow level.+1 (s + C Cs index) (rho + C Cs index + r) K.
Proof.
  move=> Hl Hd HI [HA0 HA1 HB HBj]; rewrite /ShadowGen Hl Hd HI HB /=.
  have -> : (MaxDepth mpk - level.+1 < MaxDepth mpk - level)%N by rewrite subnSK.
  eexists; first by []; split=> /=.
  - rewrite HA0 HBj ?subn_gt0 // addn0 !prodHI_succ.
    move: (prodHI mpk I level) => P; rewrite !scalerDr !scalerDl.
    rewrite [nth 0 I level *: (rho *: _)]scalerA [nth 0 I level * rho]mulrC -scalerA.
    by rewrite !addrA (ACl (1*3*2*4*5*7*8*6)).
  - by rewrite HA1 !scalerDl addrA.
  - by rewrite size_map size_iota.
  - move=> j Hj; rewrite (nth_map 0%N) ?size_iota // nth_iota // add0n.
    have Hj1 : (j.+1 < MaxDepth mpk - level)%N by rewrite ltn_subRL addnS -addSn -ltn_subRL.
    by rewrite HBj // !scalerDl addSnnS addrA.
Qed.

Lemma combineE sel (vals : seq G) :
  combine sel vals = \sum_(i < size sel) L (nodes F sel) i *: nth 0 vals i.
Proof. by rewrite /combine PIgE big_map -{1}[size sel]subn0 -/(index_iota 0 (size sel)) big_mkord. Qed.

(** Combining elements that are linear in two exponents combines the exponents. *)
Lemma combine_linear sel (vals : seq G) (a b : nat -> F) (x y : G) :
  (forall i, (i < size sel)%N -> nth 0 vals i = a i *: x + b i *: y) ->
  combine sel vals = (\sum_(i < size sel) L (nodes F sel) i * a i) *: x
                   + (\sum_(i < size sel) L (nodes F sel) i * b i) *: y.
Proof.
  move=> H; rewrite combineE !scaler_suml -big_split; apply: eq_bigr => i _ /=.
  by rewrite H // scalerDr !scalerA.
Qed.

Lemma combine_scale sel (vals : seq G) (b : nat -> F) (y : G) :
  (forall i, (i < size sel)%N -> nth 0 vals i = b i *: y) ->
  combine sel vals = (\sum_(i < size sel) L (nodes F sel) i * b i) *: y.
Proof.
  move=> H; rewrite combineE scaler_suml; apply: eq_bigr => i _ /=.
  by rewrite H // scalerA.
Qed.

(** The secret [alpha] is shared at a level, with threshold [t], among the keys
    [K 1 .. K n]. *)
Definition shared (level t n : nat) (K : nat -> SecretShadow G) : Prop :=
  exists f : {poly F}, exists rho : nat -> F,
    [/\ (size f <= t)%N, f.[0] = alpha &
        forall i, (0 < i <= n)%N -> wf_shadow level f.[i%:R] (rho i) (K i)].

(** A selection of enough different indexes. *)
Definition selection (t n : nat) (sel : seq nat) : bool :=
  [&& (t <= size sel)%N, all (fun i => 0 < i <= n)%N sel & uniq (nodes F sel)].

Lemma selection_sum t n sel (f : {poly F}) :
  selection t n sel -> (size f <= t)%N ->
  \sum_(i < size sel) L (nodes F sel) i * f.[(nth 0%N sel i)%:R] = f.[0].
Proof.
  move=> /and3P [Ht _ Hu] Hf.
  rewrite -(interpolate_zero Hu (leq_trans Hf _)) ?size_map //.
  by apply: eq_bigr => i _; rewrite (nth_map 0%N).
Qed.

Lemma pmap_all (T : eqType) (U : Type) (f : T -> option U) (g : T -> U) (l : seq T) :
  (forall x, x \in l -> f x = Some (g x)) -> pmap f l = map g l.
Proof.
  elim: l => [|x l IH] H //=; rewrite (H x) /= ?mem_head //.
  by congr (_ :: _); apply: IH => y Hy; apply: H; rewrite in_cons Hy orbT.
Qed.

(** The keys that the node [i] of the next level computes. *)
Definition childKey (level : nat) (sel : seq nat) (K : nat -> SecretShadow G)
    (Cs : nat -> seq F) (r : nat -> F) (i : nat) : option (SecretShadow G) :=
  KeyRecon (pmap (fun k => ShadowGen (K k) mpk (Cs k) (r k) I i level.+1) sel) sel.

(** Combining well-formed keys gives a well-formed key. *)
Lemma KeyRecon_wf level sel (Ss : seq (SecretShadow G)) (a b : nat -> F) S0 :
  (0 < size sel)%N -> size Ss = size sel ->
  (forall i, (i < size sel)%N -> wf_shadow level (a i) (b i) (nth S0 Ss i)) ->
  exists2 K, KeyRecon Ss sel = Some K &
    wf_shadow level (\sum_(i < size sel) L (nodes F sel) i * a i)
                    (\sum_(i < size sel) L (nodes F sel) i * b i) K.
Proof.
  move=> Hpos Hsz Hwf; have := Hwf 0%N Hpos.
  have Hmap (f : SecretShadow G -> G) i : (i < size sel)%N -> nth 0 (map f Ss) i = f (nth S0 Ss i).
    by move=> Hi; rewrite (nth_map S0) // Hsz.
  case: Ss Hsz Hwf Hmap => [|S1 Ss] Hsz Hwf Hmap; first by move: Hpos; rewrite -Hsz.
  move=> [_ _ HB1 _]; rewrite /KeyRecon -Hsz leqnn take_size andTb.
  rewrite [nth _ _ _]/= in HB1.
  have -> : all (fun Sh => size (B S1) <= size (B Sh))%N (S1 :: Ss).
    apply/(all_nthP S0) => i; rewrite Hsz => Hi; rewrite HB1.
    by case: (Hwf i Hi) => _ _ -> _.
  rewrite Hsz; eexists; first by []; split=> /=.
  - by apply: combine_linear => i Hi; rewrite Hmap //; case: (Hwf i Hi).
  - by apply: combine_scale => i Hi; rewrite Hmap //; case: (Hwf i Hi).
  - by rewrite size_map size_iota.
  - move=> j Hj; rewrite (nth_map 0%N) ?size_iota ?HB1 // nth_iota // add0n.
    apply: combine_scale => i Hi.
    transitivity (nth 0 (B (nth S0 (S1 :: Ss) i)) j); first exact: (Hmap (fun Sh => nth 0 (B Sh) j)).
    by case: (Hwf i Hi) => _ _ _; apply.
Qed.

(** If the authorities of a level share [alpha], so do the nodes of the next
    level with the keys they compute. *)
Lemma child_keys_shared level t n t' n' K Cs r sel :
  (level < MaxDepth mpk)%N -> (MaxDepth mpk <= size (mH mpk))%N -> (level < size I)%N ->
  shared level t n K -> (0 < size sel)%N -> selection t n sel ->
  (0 < t')%N -> (forall k, size (Cs k) = t'.-1) ->
  exists K', (forall i, childKey level sel K Cs r i = Some (K' i)) /\ shared level.+1 t' n' K'.
Proof.
  move=> Hl Hd HI [f [rho [Hf Hf0 HK]]] Hpos Hsel Ht' HCs.
  have Hin : all (fun i => 0 < i <= n)%N sel by case/and3P: Hsel.
  pose dflt : SecretShadow G := MkShadow 0 0 [::].
  pose sh k i := odflt dflt (ShadowGen (K k) mpk (Cs k) (r k) I i level.+1).
  pose key i := odflt dflt (childKey level sel K Cs r i).
  have Hshare k i : k \in sel ->
    ShadowGen (K k) mpk (Cs k) (r k) I i level.+1 = Some (sh k i) /\
    wf_shadow level.+1 (f.[k%:R] + C (Cs k) i) (rho k + C (Cs k) i + r k) (sh k i).
    move=> Hk; rewrite /sh.
    by have [K2 ->] := ShadowGen_wf (Cs k) (r k) i Hl Hd HI (HK k (allP Hin k Hk)).
  pose s_of i := fun j : nat => f.[(nth 0%N sel j)%:R] + C (Cs (nth 0%N sel j)) i.
  pose r_of i := fun j : nat =>
    rho (nth 0%N sel j) + C (Cs (nth 0%N sel j)) i + r (nth 0%N sel j).
  have Hkey i : childKey level sel K Cs r i = Some (key i) /\
      wf_shadow level.+1 (\sum_(j < size sel) L (nodes F sel) j * s_of i j)
                         (\sum_(j < size sel) L (nodes F sel) j * r_of i j) (key i).
    have Esh : pmap (fun k => ShadowGen (K k) mpk (Cs k) (r k) I i level.+1) sel
               = [seq sh k i | k <- sel].
      by apply: pmap_all => k Hk; case: (Hshare k i Hk).
    rewrite /key /childKey Esh.
    have [|j Hj|K2 ->] := @KeyRecon_wf level.+1 sel [seq sh k i | k <- sel] (s_of i) (r_of i) dflt Hpos.
    - by rewrite size_map.
    - by rewrite (nth_map 0%N) //; case: (Hshare _ i (mem_nth 0%N Hj)).
    - by [].
  exists key; split; first by move=> i; case: (Hkey i).
  pose g := alpha%:P + \sum_(j < size sel) L (nodes F sel) j *: polyC_of (Cs (nth 0%N sel j)).
  exists g, (fun i => \sum_(j < size sel) L (nodes F sel) j * r_of i j); split.
  - rewrite /g; apply: leq_trans (size_polyD _ _) _; rewrite geq_max; apply/andP; split.
      by apply: leq_trans (size_polyC_leq1 _) _.
    apply: leq_trans (size_sum _ _ _) _; apply/bigmax_leqP => j _.
    apply: leq_trans (size_scale_leq _ _) _; apply: leq_trans (size_polyC_of _) _.
    by rewrite HCs prednK.
  - rewrite /g hornerD hornerC horner_sum big1 ?addr0 // => j _.
    by rewrite hornerZ polyC_of0 mulr0.
  - move=> i Hi; case: (Hkey i) => _; congr wf_shadow.
    rewrite /g hornerD hornerC horner_sum -Hf0 -(selection_sum Hsel Hf) -big_split.
    by apply: eq_bigr => j _; rewrite hornerZ -C_horner /s_of mulrDr.
Qed.

(** The root keys of [Setup] share [alpha]. *)
Lemma Setup_shared t n g2 g3 h (poly : seq F) d mss :
  (0 < t)%N -> size poly = t.-1 ->
  Setup d n t (mG mpk) g2 g3 alpha h poly = Some (mpk, mss) ->
  shared 0 t n (fun i => nth (MkShadow 0 0 [::]) mss i.-1).
Proof.
  move=> Ht Hp; rewrite /Setup; case: ifP => // _ [Empk <-].
  have [E1 E2 E3] : [/\ MaxDepth mpk = d, mG2 mpk = g2 & True] by rewrite -Empk.
  exists (polyC_of poly + alpha%:P), (fun=> 0); split.
  - apply: leq_trans (size_polyD _ _) _; rewrite geq_max (leq_trans (size_polyC_of _)) ?Hp ?prednK //=.
    exact: leq_trans (size_polyC_leq1 _) _.
  - by rewrite hornerD hornerC polyC_of0 add0r.
  - move=> i /andP [Hi Hin]; rewrite (nth_map 0%N) ?size_iota ?prednK // nth_iota ?prednK // add1n prednK //.
    split=> /=.
    + by rewrite hornerD hornerC -C_horner scale0r addr0 E2.
    + by rewrite scale0r.
    + by rewrite size_nseq subn0 E1.
    + by move=> j Hj; rewrite nth_nseq scale0r; case: ifP.
Qed.

(** A signature with the exponents [rho] and [s]. *)
Definition goodSig (level : nat) (h : G) (rho s : F) : SIG G :=
  MkSIG (alpha *: mG2 mpk + rho *: prodHI mpk I level + s *: h) (rho *: mG mpk) (s *: mG mpk).

Lemma pairZr a x y : e x (a *: y) = a *: e x y.
Proof. by rewrite pairC pairZ pairC. Qed.
Lemma pairDr x y z : e x (y + z) = e x y + e x z.
Proof. by rewrite pairC pairD !(pairC _ x). Qed.

Lemma goodSig_verifies level M h rho s :
  h3 M mpk = Some h -> (level <= size (mH mpk))%N -> (level <= size I)%N ->
  Verify e mpk I M level (goodSig level h rho s) = Some true.
Proof.
  move=> Hh Hl HI; rewrite /Verify Hh Hl HI /=; congr Some; apply/eqP.
  by move: (prodHI mpk I level) => P; rewrite !pairDr !pairZr alphaG !pairZ.
Qed.

Lemma combine_three sel (vals : seq G) (a b c : nat -> F) (x y z : G) :
  (forall i, (i < size sel)%N -> nth 0 vals i = a i *: x + b i *: y + c i *: z) ->
  combine sel vals = (\sum_(i < size sel) L (nodes F sel) i * a i) *: x
                   + (\sum_(i < size sel) L (nodes F sel) i * b i) *: y
                   + (\sum_(i < size sel) L (nodes F sel) i * c i) *: z.
Proof.
  move=> H; rewrite combineE !scaler_suml -!big_split; apply: eq_bigr => i _ /=.
  by rewrite H // !scalerDr !scalerA.
Qed.

(** Partial signatures of enough authorities that share [alpha] combine to a
    valid signature. *)
Lemma shared_signature_verifies level t n K sel M (s : nat -> F) :
  (4 <= size M)%N -> (level <= size (mH mpk))%N -> (level <= size I)%N ->
  shared level t n K -> selection t n sel ->
  exists sig,
    SignRecon (pmap (fun k => ShadowSign (K k) mpk M (s k)) sel) sel = Some sig /\
    Verify e mpk I M level sig = Some true.
Proof.
  move=> HM Hl HI [f [rho [Hf Hf0 HK]]] Hsel.
  have Hin : all (fun i => 0 < i <= n)%N sel by case/and3P: Hsel.
  pose h := (be32 M)%:R *: mG mpk; have Hh : h3 M mpk = Some h by rewrite /h3 HM.
  pose sg k := MkSIG (A0 (K k) + s k *: h) (A1 (K k)) (s k *: mG mpk).
  have Esg : pmap (fun k => ShadowSign (K k) mpk M (s k)) sel = [seq sg k | k <- sel].
    by apply: pmap_all => k _; rewrite /ShadowSign Hh.
  rewrite Esg /SignRecon size_map leqnn; eexists; split; first by [].
  set sig := MkSIG _ _ _.
  have -> : sig = goodSig level h (\sum_(i < size sel) L (nodes F sel) i * rho (nth 0%N sel i))
                                  (\sum_(i < size sel) L (nodes F sel) i * s (nth 0%N sel i)).
    have Hnth (pr : SIG G -> G) i : (i < size sel)%N ->
        nth 0 [seq pr x | x <- [seq sg k | k <- sel]] i = pr (sg (nth 0%N sel i)).
      by move=> Hi; rewrite -map_comp (nth_map 0%N).
    have Hwf i : (i < size sel)%N -> wf_shadow level f.[(nth 0%N sel i)%:R] (rho (nth 0%N sel i)) (K (nth 0%N sel i)).
      by move=> Hi; apply: HK; apply: (allP Hin); apply: mem_nth.
    rewrite /sig /goodSig -Hf0 -(selection_sum Hsel Hf); congr MkSIG.
    + apply: (@combine_three sel _ (fun i => f.[(nth 0%N sel i)%:R]) (fun i => rho (nth 0%N sel i))
        (fun i => s (nth 0%N sel i)) (mG2 mpk) (prodHI mpk I level) h) => i Hi.
      by rewrite Hnth //=; case: (Hwf i Hi) => -> _ _ _.
    + apply: (@combine_scale sel _ (fun i => rho (nth 0%N sel i)) (mG mpk)) => i Hi.
      by rewrite Hnth //=; case: (Hwf i Hi).
    + by apply: (@combine_scale sel _ (fun i => s (nth 0%N sel i)) (mG mpk)) => i Hi; rewrite Hnth.
  exact: goodSig_verifies.
Qed.

(** The keys of the [n] authorities of a level, with threshold [t]: at the root
    those of [Setup]; below, those the nodes compute from the shares of a
    selection of upper authorities. *)
Inductive keys_at : nat -> nat -> nat -> (nat -> SecretShadow G) -> Prop :=
| keys_root t n g2 g3 h poly d mss :
    (0 < t)%N -> size poly = t.-1 ->
    Setup d n t (mG mpk) g2 g3 alpha h poly = Some (mpk, mss) ->
    keys_at 0 t n (fun i => nth (MkShadow 0 0 [::]) mss i.-1)
| keys_child level t n K t' n' sel Cs r K' :
    keys_at level t n K ->
    (level < MaxDepth mpk)%N -> (MaxDepth mpk <= size (mH mpk))%N -> (level < size I)%N ->
    (0 < size sel)%N -> selection t n sel ->
    (0 < t')%N -> (forall k, size (Cs k) = t'.-1) ->
    (forall i, childKey level sel K Cs r i = Some (K' i)) ->
    keys_at level.+1 t' n' K'.

Lemma wf_shared_ext level t n K K' : K =1 K' -> shared level t n K -> shared level t n K'.
Proof.
  move=> E [f [rho [H1 H2 H3]]]; exists f, rho; split=> // i Hi; rewrite -E; exact: H3.
Qed.

Lemma keys_at_shared level t n K : keys_at level t n K -> shared level t n K.
Proof.
  elim=> {level t n K} [t n g2 g3 h poly d mss Ht Hp HS|]; first exact: Setup_shared HS.
  move=> level t n K t' n' sel Cs r K' _ IH Hl Hd HI Hpos Hsel Ht' HCs HK'.
  have [K2 [HK2 Hsh]] := child_keys_shared n' r Hl Hd HI IH Hpos Hsel Ht' HCs.
  by apply: wf_shared_ext Hsh => i; have := HK2 i; rewrite HK' => -[].
Qed.

(** Key derivation never fails above the maximal depth: whenever the keys of
    a level exist, every node of the next level obtains a key from the shares
    of any threshold of upper authorities. *)
Theorem child_keys_exist level t n t' n' K Cs r sel :
  keys_at level t n K ->
  (level < MaxDepth mpk)%N -> (MaxDepth mpk <= size (mH mpk))%N -> (level < size I)%N ->
  (0 < size sel)%N -> selection t n sel -> (0 < t')%N -> (forall k, size (Cs k) = t'.-1) ->
  exists K', (forall i, childKey level sel K Cs r i = Some (K' i)) /\ keys_at level.+1 t' n' K'.
Proof.
  move=> HK Hl Hd HI Hpos Hsel Ht' HCs.
  have [K' [HK' _]] := child_keys_shared n' r Hl Hd HI (keys_at_shared HK) Hpos Hsel Ht' HCs.
  by exists K'; split=> //; exact: keys_child HK Hl Hd HI Hpos Hsel Ht' HCs HK'.
Qed.

(** C22: threshold signing is correct at every level of the hierarchy: partial
    signatures of any [t] of the authorities whose keys were derived with
    threshold [t] combine to a signature that [Verify] accepts, whatever their
    randomness; nobody needs the master secret. *)
Theorem threshold_signature_verifies level t n K sel M (s : nat -> F) :
  keys_at level t n K -> selection t n sel ->
  (4 <= size M)%N -> (level <= size (mH mpk))%N -> (level <= size I)%N ->
  exists sig,
    SignRecon (pmap (fun k => ShadowSign (K k) mpk M (s k)) sel) sel = Some sig /\
    Verify e mpk I M level sig = Some true.
Proof.
  move=> HK Hsel HM Hl HI; exact: (shared_signature_verifies s HM Hl HI (keys_at_shared HK) Hsel).
Qed.

(** Signatures are malleable: the hash of a message is a known multiple of
    the public generator, so whoever sees one valid signature makes, without
    any key, a valid signature of any other message of at least four bytes. *)
Theorem signature_malleable level M M' sig :
  (4 <= size M)%N -> (4 <= size M')%N ->
  Verify e mpk I M level sig = Some true ->
  Verify e mpk I M' level
    (MkSIG (sX sig + ((be32 M')%:R - (be32 M)%:R) *: sZ sig) (sY sig) (sZ sig)) = Some true.
Proof.
  move=> HM HM'; rewrite /Verify /h3 HM HM'; case: ifP => // _ [/eqP H]; congr Some; apply/eqP => /=.
  move: H; move: (prodHI mpk I level) => P H.
  by rewrite pairDr H !pairZr [e (sZ sig) _]pairC -[in LHS]addrA -scalerDl addrCA subrr addr0.
Qed.
End Scheme.

(** ** Instances *)

Section Instance.
(** Rational exponents, the field as a group over itself, multiplication as
    pairing; one level below the root, two authorities, both needed. *)
Definition Q1 : lmodType rat := rat^o.
Definition mulPair (x y : Q1) : Q1 := (x : rat) * (y : rat).
Definition mpk1 : MasterPublicKey Q1 := MkMpk 1 (1 : Q1) ((5 : rat) *: (1 : Q1)) (2 : Q1) (3 : Q1) [:: (4 : Q1)].
Definition rootKeys : nat -> SecretShadow Q1 :=
  fun i => nth (MkShadow 0 0 [::])
    [seq MkShadow ((C [:: (7 : rat)] index + 5) *: (2 : Q1)) 0 (nseq 1 0) | index <- iota 1 2] i.-1.

Lemma mulPairD x y z : mulPair (x + y) z = mulPair x z + mulPair y z.
Proof. exact: mulrDl. Qed.
Lemma mulPairZ a x y : mulPair (a *: x) y = a *: mulPair x y.
Proof. by rewrite /mulPair /GRing.scale /= mulrA. Qed.
Lemma mulPairC x y : mulPair x y = mulPair y x.
Proof. exact: mulrC. Qed.

Lemma rootKeys_at : keys_at mpk1 5 [:: 6] 0 2 2 rootKeys.
Proof. exact: (@keys_root _ _ mpk1 5 [:: 6] 2 2 2 3 [:: 4] [:: 7] 1). Qed.

Lemma selection12 : selection rat 2 2 [:: 1; 2]%N.
Proof. by apply/and3P. Qed.
End Instance.

Lemma child_keys_exist_witness :
  exists K', (forall i, childKey mpk1 [:: 6] 0 [:: 1; 2]%N rootKeys (fun=> [:: (8 : rat)]) (fun=> 9) i = Some (K' i))
    /\ keys_at mpk1 5 [:: 6] 1 2 2 K'.
Proof.
  apply: (@child_keys_exist rat Q1 mpk1 5 [:: 6] 0 2 2 2 2 rootKeys (fun=> [:: (8 : rat)]) (fun=> 9) [:: 1; 2]%N);
    by [exact: rootKeys_at | exact: selection12 | ].
Defined.

Lemma threshold_signature_verifies_witness :
  exists sig,
    SignRecon (pmap (fun k => ShadowSign (rootKeys k) mpk1 [:: 1; 2; 3; 4]%N (10 : rat)) [:: 1; 2]%N) [:: 1; 2]%N
      = Some sig /\
    Verify mulPair mpk1 [:: (6 : rat)] [:: 1; 2; 3; 4]%N 0 sig = Some true.
Proof.
  apply: (@threshold_signature_verifies rat Q1 Q1 mulPair mulPairD mulPairZ mulPairC mpk1 5 [:: 6]
            (erefl _) 0 2 2 rootKeys [:: 1; 2]%N [:: 1; 2; 3; 4]%N (fun=> 10)).
  - exact: rootKeys_at.
  - exact: selection12.
  - by [].
  - by [].
  - by [].
Defined.

(** The root's signature of the message [0; 0; 0; 4], with exponent [1]. *)
Definition sig0 : SIG Q1 := MkSIG ((20 : rat) : Q1) (2 : Q1) (1 : Q1).

Lemma signature_malleable_witness :
  Verify mulPair mpk1 [:: (6 : rat)] [:: 0; 0; 0; 9]%N 0
    (MkSIG (sX sig0 + ((be32 [:: 0; 0; 0; 9]%N)%:R - (be32 [:: 0; 0; 0; 4]%N)%:R) *: sZ sig0)
           (sY sig0) (sZ sig0)) = Some true.
Proof.
  apply: (@signature_malleable rat Q1 Q1 mulPair mulPairD mulPairZ mulPairC mpk1 [:: 6] 0
            [:: 0; 0; 0; 4]%N [:: 0; 0; 0; 9]%N sig0).
  - by [].
  - by [].
  - by vm_compute.
Defined.
